(* ===== verification/_CoqProject ===== *)
-Q . S2P
Prelude.v
Errors.v
Manifest.v
Chunks.v
Schema.v
Cleanup.v
Transfers.v
TransferSafety.v
ManifestStore.v
ManifestSafety.v
IndexSafety.v
MultipartStore.v
Buckets.v
ConnectionRemoval.v
Requests.v
Config.v
Listing.v
Settings.v
Retry.v
Streaming.v
System.v
Catalog.v
Attempts.v
Programs.v
Publish.v
Reception.v
Completion.v
Accounts.v
Rechunk.v
Replication.v
CleanupWorker.v
Auth.v
Admin.v
Encryption.v
Shares.v
S3Api.v
Guarantees.v
Recovery.v
Reconcile.v
Browser.v
Moves.v
Pool.v
Proxy.v
Transport.v
Login.v
Console.v
Operations.v
Workers.v
Serving.v
Messages.v
Cli.v
