(* ===== verification/Prelude.v ===== *)
(** * Telegram S3: verification of the storage engine

    Telegram S3 is an S3-compatible object store that keeps object bytes as
    documents in Telegram chats and everything else in one SQLite database.
    This library models the engine between the two: the data model, the
    database operations with their transactions, the job state machines that
    move bytes to and from Telegram, and the download path.

    ** The program

    - A client's upload is received into a staging directory and recorded as a
      row of [transfer_jobs] ([src/src/durable.rs]) with a staged manifest
      ([src/src/metadata/manifests.rs]).
    - A worker claims a job under a lease, sends its chunks one at a time, each
      as a recorded send attempt, passes the publication fence and commits the
      manifest: the version becomes the active one of its key
      ([src/src/object_format/workflow.rs], [manifests.rs]).
    - Deletions, overwrites of parts, expiry, aborts and connection removal put
      Telegram messages in the cleanup outbox; a worker writes deletion
      evidence before it deletes the messages ([durable.rs]).
    - A download plans the byte range over the manifest's chunks, fetches them
      with retries, failover between accounts and prefetching, verifies each
      chunk and streams it ([src/src/object_format.rs],
      [src/src/telegram/retry.rs]).
    - The index of active objects can be rebuilt from the manifests and
      verified against them ([src/src/metadata/recovery.rs]).

    ** The files

    - [Prelude]: record update, machine integers at their width, text, the
      table operations ([sql_update], [sql_where], ...), tactics, generic
      lemmas.
    - [Errors]: the error enums and the texts they print.
    - [Manifest] ([manifest.rs]): the manifest types, expiry, payload identity
      and [validate].
    - [Chunks] ([object_format.rs]): [plan_chunks], [plan_read],
      [read_range_to_writer].
    - [Schema] ([metadata/schema.rs], [metadata.rs], [metadata/rows.rs]): a
      record per table, the database [Db], and the monad [M] (state and
      [MetadataError]); [transaction] rolls back on an error, a sequence of
      plain statements does not, as in the code.
    - [Cleanup] ([durable.rs]): the cleanup outbox.
    - [Transfers], [TransferSafety] ([durable.rs]): transfer jobs and send
      attempts; the lifecycle graph, the invariant [transfers_wf] and what each
      operation guarantees.
    - [ManifestStore], [ManifestSafety], [IndexSafety]
      ([metadata/manifests.rs], [metadata/recovery.rs], [metadata/rows.rs], the
      quota check of [metadata/accounts.rs]): staging, commit, deletion, expiry,
      index rebuild and verification.
    - [MultipartStore] ([metadata/multipart.rs], [multipart.rs], [durable.rs]):
      multipart sessions, parts, completion and abort.
    - [Buckets] ([metadata/buckets.rs]): buckets and their listings.
    - [ConnectionRemoval] ([metadata/connection_removal.rs]): detaching a
      storage connection.
    - [Retry] ([telegram/retry.rs], [object_format.rs]): the retry policy, both
      download retry loops, failover order.
    - [Streaming] ([object_format.rs]): reading a span with failover, the two
      prefetchers, the pipeline and the response stream.  The class [Delivers]
      is the interface between them: what a source of spans promises to the
      stream that consumes it; each reader is an instance.
    - [System], [Attempts]: the store as a state machine: [operation] lists
      every store operation, [step] is one of them run by anyone, [reachable]
      the states of any interleaving; what is recorded of the send attempts.
    - [Programs]: programs over the store and the outside world.  A [Proc] is a
      tree of store transactions and effects ([Io]: files, Telegram, the
      clock); [interp] runs it against any environment, and [world_step]
      interleaves the transactions of running workers, requests, and crashes.
    - [Publish] ([object_format/workflow.rs]): the transfer worker, from the
      claimed job to the committed manifest; reconciliation of sends whose
      outcome is unknown; the failure schedule.
    - [Reception] ([workflow.rs], [object_format/reception.rs]): receiving a
      body into staging, in one request or resumably.
    - [Completion] ([object_format.rs], [s3_server.rs]): composing a multipart
      object from its parts.
    - [Accounts] ([metadata/accounts.rs]), [Replication], [Rechunk]
      ([workflow.rs]): accounts and quotas, the replication and re-chunk queues
      and their workers.
    - [CleanupWorker] ([workflow.rs]): carrying out a target of the outbox.
    - [Config] ([config.rs]), [Settings] ([metadata/settings.rs],
      [object_format.rs], [admin.rs]): the environment, its validation, the
      stored settings, the running service's cells and the settings page.
    - [Requests], [Listing] ([s3_server.rs]): headers, conditions and error
      codes of S3 requests; the three listings.
    - [Catalog]: what every reachable catalogue of versions satisfies.
    - [S3Api] ([s3_server.rs], [object_format.rs]): the handlers of the S3
      protocol for buckets, objects, copies and multipart uploads, as tasks of
      [Programs] that end with an answer or an S3 error.
    - [Auth] ([auth.rs], [metadata/auth.rs]): accounts, passwords, sessions in
      the store and the login limiter.
    - [Admin] ([admin.rs], [admin/phase10.rs]): the administration API's cookie
      sessions, its dispatcher and the account handlers.  The routes that are
      not modelled are one arbitrary function of the request and the state.
    - [Encryption] ([object_format.rs]): keys, nonces, sealed chunks and share
      tokens, over the class [Aead] of authenticated ciphers with its laws.
    - [Shares] ([metadata/shares.rs], [admin.rs], [s3_server.rs]): public links
      to objects, from their creation to the public endpoint.
    - [Guarantees]: a rely-guarantee logic for [Programs]: what a program keeps
      true of the store and which effects it may have, whatever it is answered.
    - [Recovery] ([object_format.rs], [metadata/recovery.rs]): the scan that
      verifies a sample of the chunks, repairs, hides and reports.
    - [Reconcile] ([object_format.rs]): the reconciliation at start-up, the
      quarantine of stray files, garbage collection and the status.
    - [Browser] ([admin.rs]): pages of buckets, folders and objects, the search
      and the details of an object.
    - [Moves] ([admin.rs], [object_format.rs], [workflow.rs]): making folders,
      deleting, and moving objects and folders.
    - [Pool] ([metadata/pool.rs]): the connection pool, its lock and its
      condition variable, with threads as a step relation.
    - [Proxy] ([telegram/proxy.rs]): proxy plans and the local bridge from SOCKS
      to HTTP CONNECT.
    - [Transport] ([telegram/transport.rs]): the storage peer, authorisation,
      health, the transport manager with its monitor, retried calls.
    - [Login] ([telegram/login_driver.rs], [admin.rs]): the login driver, the
      wizard around it and the login of the command line.
    - [Console] ([admin.rs], [admin/phase10.rs]): downloads, uploads in one
      request, in the background and resumably, and the files of the console.
    - [Operations] ([admin.rs], [admin/phase10.rs], [metadata/settings.rs]): the
      handlers for jobs, buckets, accounts, replication and re-chunking,
      connection settings and recovery acknowledgements.
    - [Workers] ([workflow.rs], [metadata/connection_removal.rs]): a pass of the
      transfer, replication, re-chunk and cleanup loops, the end of a connection
      removal and the import of what older releases staged.
    - [Serving] ([s3_server.rs], [admin.rs], [object_format.rs], [durable.rs]):
      which surface a request reaches, the readiness probe, read pins and the
      admission of downloads.
    - [Messages] ([object_format.rs], [telegram/transport.rs], [durable.rs]): the
      functions behind the effects that send, read and delete messages, live and
      in the mock runtime.
    - [Cli] ([main.rs]): the account commands and the repair command.

    ** What the theorems show

    - Over every interleaving of store operations ([System]): one publisher per
      key and in reception order; no chunk is sent again while the outcome of
      an earlier send is unknown; deletion evidence precedes deletion; jobs
      follow the abstract lifecycle and settled jobs stay settled.
    - Per operation ([TransferSafety], [ManifestSafety], [MultipartStore],
      [Cleanup], [Buckets], [ConnectionRemoval]): what it does on success, that
      a refused call changes nothing, which error it reports, and the
      bounds it keeps (staging budget, quota).  Claiming fences the previous
      worker; an empty claim means that every due job is blocked.
    - Downloads ([Chunks], [Retry], [Streaming]): plans tile the object; range
      reads return exactly the requested bytes or stop at an error; no corrupt
      byte is emitted; failover needs one answering account; the stream emits
      spans in order for every completion order; prefetching and retrying are
      bounded and end.
    - Recovery ([IndexSafety]): a rebuilt index always verifies and is the last
      version in the code's order; two theorems show where the code differs
      from its intention (a deleted overwritten key comes back after a rebuild;
      a discarded failed upload supersedes an older queued one).

    - Uploads ([Reception], [Publish], [Completion]): an accepted body is on
      disk, complete, encrypted and checksummed; under every interleaving with
      other workers, requests and crashes no chunk has two standing sends; what
      reconciliation concludes from the chat is so; what was put is what is
      read; a multipart object reads as its parts and its checksum
      distinguishes them; a resumable reception can be resumed.
    - Background work ([Accounts], [Replication], [Rechunk], [CleanupWorker]):
      an object is locked exactly while it is being re-chunked and keeps its
      content; a replication that succeeds covers every chunk; only messages
      nothing refers to are deleted.
    - Configuration ([Config], [Settings]): a validated configuration is
      usable, the running service is always within its bounds, and settings
      survive a restart.
    - Requests ([Requests], [Listing]): ranges stay within the object and mean
      what HTTP says, conditions are decided as documented and rechecked at the
      commit, and following the markers of a listing visits everything once.
    - The object interface ([Catalog], [S3Api]): versions are filed under their
      own bucket and key in every reachable state; a GET serves the committed
      version it names, byte for byte; a deleted object is not served; a copy
      stages the bytes of its source.
    - Access ([Auth], [Admin], [Shares]): there is always an enabled superadmin;
      guessing is bounded; nothing is reached or changed without a session and,
      for changes, its token; only superadmins manage accounts; a changed
      password ends the sessions; a link serves exactly what was shared, works
      once made, and stays dead once revoked.
    - Repair ([Recovery], [Reconcile]): a scan changes only the places chunks are
      read from, and only to places where verified bytes were uploaded; it never
      hides an object whose chunks are where they should be; reconciliation
      never takes the files of an object it knows; a dry run changes nothing.
    - The console ([Browser], [Moves], [Console], [Operations]): pages list
      everything once; a moved object reads as its source and a move touches
      nothing that was not selected; a download serves the version the key
      shows, cut to the range; static files stay inside their directory; exactly
      the acknowledged issues are acknowledged.
    - Connections ([Pool], [Proxy], [Transport], [Login]): a handle has one user
      and a waiting thread is always woken; the bridge asks for the target it
      was given and passes every byte; a health that says connected is about
      the transport in use; a login under way belongs to its operator and ends
      authorised only when Telegram accepts.
    - The edges ([Workers], [Serving], [Messages], [Cli]): a connection stays until its
      messages are deleted, and then its removal completes; an import loses
      nothing; buckets are not hidden by internal routes; ready means ready;
      objects are pinned exactly while they are read; what was uploaded is read
      back from the reported location; account commands never strand the system.
    - Where the code does not do what it means to, a theorem shows the run; the
      manifest of the development lists these findings.

    ** Conventions and bounds

    Time, fresh identifiers and timestamps come from [Env], indexed by the
    order of the calls within an operation; theorems hold for every [Env].
    SHA-256, the chunk cipher, the Telegram client, UUID and ETag parsing are
    parameters; where a theorem needs something of them it is a hypothesis (for
    example [checksum_identifies]: no other content has the recorded
    checksum), and a witness instantiates it.  Integers keep the width of the
    code where it can overflow ([u32] chunk orders, [u64] lengths, saturating
    [i64] instants).

    Fuel: [plan_chunks] carries enough fuel for every plan the [u32] order
    counter allows and is proved total; [retry_telegram_read] needs
    [max_attempts] steps and [retry_telegram_read_for_stream] one step per
    millisecond of its window, both proved sufficient; the response stream
    needs one step per span and two more.  The other loops are structural.

    [Reception.fill] has as much fuel as the frame has bytes, and takes at
    least one per round; [Rechunk.wait_transfer] polls as often as its
    argument says, the code until the job settles, and [Reconcile.collect]
    likewise; [Reconcile.directory_size] descends as deep as its argument, and
    says when that was not enough; [Recovery.random_below] draws as often as its
    stream of draws is long; [Proxy.read_headers] has one step more than the
    proxy sent bytes and [Moves.cursor_reads] one step per byte.

    ** Not modelled

    The S3 protocol crate, the accept loops and the JSON of requests and
    answers; in the dispatcher of the administration API the routes behind its
    guards are one arbitrary function, the handlers themselves are modelled
    apart.  Database migrations, session files and the network beneath the
    Telegram client, the status pages, metrics and process start-up are outside:
    they are input and output around the modelled decisions. *)

From stdpp Require Export base list strings gmap sorting.
From Stdlib Require Export ZArith Lia.
From Stdlib Require Strings.String.
From Stdlib Require Import Strings.Ascii.

Open Scope Z_scope.

Declare Scope s3_scope.
Delimit Scope s3_scope with s3.
Open Scope s3_scope.

(** ** Record update

    A record type declares its eta expansion once ([Eta]); the setter of each
    of its fields is then found by abstracting the projection in it. *)
Class Eta (R : Type) := eta : R -> R.

Class Setter {R T : Type} (proj : R -> T) := set : (T -> T) -> R -> R.

Arguments set {R T} proj {_} f r.

Ltac solve_setter :=
  lazymatch goal with
  | |- @Setter ?R ?T ?p =>
      let e := constr:(_ : Eta R) in
      let b := eval hnf in e in
      lazymatch eval pattern p in b with
      | ?h _ =>
          let t := eval cbv beta in (fun f : T -> T => h (fun r => f (p r))) in
          exact t
      end
  end.

#[export] Hint Extern 1 (Setter _) => solve_setter : typeclass_instances.

Notation "r <| p := v |>" := (set p (fun _ => v) r)
  (at level 1, left associativity, p at next level) : s3_scope.

Notation "r <| p ::= f |>" := (set p f r)
  (at level 1, left associativity, p at next level) : s3_scope.

(** ** Machine integers *)

Definition U32_MAX : Z := 4294967295.

Definition U64_MAX : Z := 18446744073709551615.

Definition I64_MAX : Z := 9223372036854775807.

Definition I64_MIN : Z := -9223372036854775808.

Definition I32_MAX : Z := 2147483647.

(** A [u64] is a [Z] between 0 and [U64_MAX], and so on. *)
Definition is_u32 (x : Z) : Prop := 0 <= x <= U32_MAX.

Definition is_u64 (x : Z) : Prop := 0 <= x <= U64_MAX.

Definition is_i64 (x : Z) : Prop := I64_MIN <= x <= I64_MAX.

(** [u64::checked_add], [u64::saturating_add], [u64::saturating_sub]. *)
Definition u64_checked_add (a b : Z) : option Z :=
  if a + b <=? U64_MAX then Some (a + b) else None.

Definition u32_checked_add (a b : Z) : option Z :=
  if a + b <=? U32_MAX then Some (a + b) else None.

Definition u64_saturating_add (a b : Z) : Z := Z.min (a + b) U64_MAX.

Definition u64_saturating_sub (a b : Z) : Z := Z.max (a - b) 0.

(** [i64::saturating_add] and [i64::saturating_sub]. *)
Definition i64_saturating_add (a b : Z) : Z :=
  Z.max I64_MIN (Z.min (a + b) I64_MAX).

Definition i64_saturating_sub (a b : Z) : Z :=
  Z.max I64_MIN (Z.min (a - b) I64_MAX).

(** [x as i64] of a [u64]: two's complement reinterpretation. *)
Definition u64_as_i64 (x : Z) : Z :=
  if x <=? I64_MAX then x else x - (U64_MAX + 1).

(** [x as u32] of a [usize]: truncation. *)
Definition as_u32 (x : Z) : Z := x mod (U32_MAX + 1).

(** ** Results *)

Inductive Result (A E : Type) : Type :=
| Ok (a : A)
| Err (e : E).

Arguments Ok {A E} a.
Arguments Err {A E} e.

Definition is_ok {A E} (r : Result A E) : bool :=
  match r with Ok _ => true | Err _ => false end.

(** ** Text

    Rust strings are UTF-8 byte strings; a Rocq [string] holds the bytes.
    [str::trim] removes the characters with the Unicode [White_Space]
    property, so [trim().is_empty()] holds exactly of the texts that consist
    of such characters; the two- and three-byte patterns below are their
    UTF-8 encodings. *)
Definition ascii_white (c : Ascii.ascii) : bool :=
  let n := Ascii.N_of_ascii c in
  ((9 <=? n)%N && (n <=? 13)%N) || (n =? 32)%N.

Definition white2 (a b : Ascii.ascii) : bool :=
  let (x, y) := (Ascii.N_of_ascii a, Ascii.N_of_ascii b) in
  (x =? 194)%N && ((y =? 133)%N || (y =? 160)%N).

Definition white3 (a b c : Ascii.ascii) : bool :=
  let x := Ascii.N_of_ascii a in
  let y := Ascii.N_of_ascii b in
  let z := Ascii.N_of_ascii c in
  ((x =? 225) && (y =? 154) && (z =? 128))%N
  || ((x =? 226) && (y =? 128)
      && (((128 <=? z) && (z <=? 138)) || (z =? 168) || (z =? 169) || (z =? 175)))%N
  || ((x =? 226) && (y =? 129) && (z =? 159))%N
  || ((x =? 227) && (y =? 128) && (z =? 128))%N.

Fixpoint trim_is_empty (s : string) : bool :=
  match s with
  | EmptyString => true
  | String a r =>
      if ascii_white a then trim_is_empty r
      else match r with
           | EmptyString => false
           | String b r' =>
               if white2 a b then trim_is_empty r'
               else match r' with
                    | EmptyString => false
                    | String c r'' =>
                        if white3 a b c then trim_is_empty r'' else false
                    end
           end
  end.

Definition is_empty (s : string) : bool :=
  match s with EmptyString => true | _ => false end.

(** [str::parse::<u64>] and [str::parse::<i64>]: an optional sign, then one or
    more ASCII digits, within the range of the type. *)
Definition digit_value (c : Ascii.ascii) : option Z :=
  let n := Z.of_N (Ascii.N_of_ascii c) in
  if (48 <=? n) && (n <=? 57) then Some (n - 48) else None.

Fixpoint parse_digits (acc : Z) (s : string) : option Z :=
  match s with
  | EmptyString => Some acc
  | String c r =>
      match digit_value c with
      | Some d => parse_digits (10 * acc + d) r
      | None => None
      end
  end.

Definition parse_magnitude (s : string) : option Z :=
  if is_empty s then None else parse_digits 0 s.

Definition parse_u64 (s : string) : option Z :=
  let digits := match s with String "+"%char r => r | _ => s end in
  match parse_magnitude digits with
  | Some n => if n <=? U64_MAX then Some n else None
  | None => None
  end.

Definition parse_i64 (s : string) : option Z :=
  match s with
  | String "-"%char r =>
      match parse_magnitude r with
      | Some n => if I64_MIN <=? - n then Some (- n) else None
      | None => None
      end
  | String "+"%char r =>
      match parse_magnitude r with
      | Some n => if n <=? I64_MAX then Some n else None
      | None => None
      end
  | _ =>
      match parse_magnitude s with
      | Some n => if n <=? I64_MAX then Some n else None
      | None => None
      end
  end.

(** The rest of [s] after the prefix [p], and after the first occurrence of
    [p] ([str::find]). *)
Fixpoint strip_prefix (p s : string) : option string :=
  match p, s with
  | EmptyString, _ => Some s
  | String a p', String b s' => if Ascii.eqb a b then strip_prefix p' s' else None
  | String _ _, EmptyString => None
  end.

Fixpoint find_after (p s : string) : option string :=
  match strip_prefix p s with
  | Some rest => Some rest
  | None => match s with EmptyString => None | String _ s' => find_after p s' end
  end.

Definition contains (p s : string) : bool :=
  match find_after p s with Some _ => true | None => false end.

(** Text comparison of SQLite's default (BINARY) collation: bytewise. *)
Definition text_le (a b : string) : bool := String.leb a b.

(** SQLite's [UPPER] and [LIKE]: both treat ASCII letters only; in a pattern
    a percent sign matches any sequence and an underscore any one (UTF-8)
    character. *)
Definition ascii_upper (c : Ascii.ascii) : Ascii.ascii :=
  let n := Ascii.N_of_ascii c in
  if ((97 <=? n)%N && (n <=? 122)%N) then Ascii.ascii_of_N (n - 32) else c.

Fixpoint sql_upper (s : string) : string :=
  match s with
  | EmptyString => EmptyString
  | String c s' => String (ascii_upper c) (sql_upper s')
  end.

Definition is_continuation (c : Ascii.ascii) : bool :=
  let n := Ascii.N_of_ascii c in ((128 <=? n)%N && (n <=? 191)%N).

Fixpoint skip_continuation (s : string) : string :=
  match s with
  | String c s' => if is_continuation c then skip_continuation s' else s
  | EmptyString => EmptyString
  end.

(** The rest after the first character. *)
Definition skip_char (s : string) : option string :=
  match s with
  | EmptyString => None
  | String c s' => Some (if (192 <=? Ascii.N_of_ascii c)%N then skip_continuation s' else s')
  end.

(** [f] holds of a rest of [s] that starts at a character. *)
Fixpoint some_rest (f : string -> bool) (s : string) : bool :=
  match s with
  | EmptyString => f s
  | String c s' => (negb (is_continuation c) && f s) || some_rest f s'
  end.

Fixpoint sql_like (pattern s : string) : bool :=
  match pattern with
  | EmptyString => is_empty s
  | String "%"%char p => some_rest (sql_like p) s
  | String "_"%char p => match skip_char s with Some s' => sql_like p s' | None => false end
  | String c p =>
      match s with
      | String d s' => Ascii.eqb (ascii_upper c) (ascii_upper d) && sql_like p s'
      | EmptyString => false
      end
  end.

(** ** Tables

    A table scanned in row order is a list of rows; [UPDATE .. SET f WHERE p],
    [SELECT EXISTS(.. WHERE p)] and [SELECT COUNT( * ) .. WHERE p] on it. *)
Definition sql_update {A} (p : A -> bool) (f : A -> A) (t : list A) : list A :=
  map (fun r => if p r then f r else r) t.

Definition sql_exists {A} (p : A -> bool) (t : list A) : bool := existsb p t.

Definition sql_where {A} (p : A -> bool) (t : list A) : list A := List.filter p t.

Definition sql_count {A} (p : A -> bool) (t : list A) : Z :=
  Z.of_nat (length (sql_where p t)).

Definition sql_delete {A} (p : A -> bool) (t : list A) : list A :=
  sql_where (fun r => negb (p r)) t.

(** [COALESCE(SUM(f),0)]. *)
Fixpoint sql_sum {A} (f : A -> Z) (t : list A) : Z :=
  match t with
  | [] => 0
  | r :: t' => f r + sql_sum f t'
  end.

(** [SELECT MIN(f)]: NULL on no rows. *)
Fixpoint sql_min {A} (f : A -> Z) (t : list A) : option Z :=
  match t with
  | [] => None
  | r :: t' => Some (match sql_min f t' with None => f r | Some m => Z.min (f r) m end)
  end.

(** [LIMIT 1] / [query_row(..).optional()]: the first row of a result. *)
Definition sql_first {A} (t : list A) : option A := head t.

(** [state IN (...)] *)
Definition one_of {S} `{EqDecision S} (s : S) (l : list S) : bool :=
  existsb (fun x => bool_decide (s = x)) l.

(** [a=b] where both sides are present; a comparison with NULL is not true. *)
Definition sql_eq {S} `{EqDecision S} (a : option S) (b : S) : bool :=
  match a with Some x => bool_decide (x = b) | None => false end.

(** ** Tactics *)

(** Split a goal's or hypothesis' innermost [match] and clean up. *)
Ltac break_match :=
  match goal with
  | H : context [match ?x with _ => _ end] |- _ =>
      lazymatch x with
      | context [match _ with _ => _ end] => fail
      | _ => let E := fresh "E" in destruct x eqn:E
      end
  | |- context [match ?x with _ => _ end] =>
      lazymatch x with
      | context [match _ with _ => _ end] => fail
      | _ => let E := fresh "E" in destruct x eqn:E
      end
  end.

Ltac crush_match := repeat (break_match; simplify_eq/=); simplify_eq/=.

Ltac bool_hyps :=
  repeat match goal with
  | H : _ && _ = true |- _ => apply andb_prop in H; destruct H
  | H : _ || _ = false |- _ => apply orb_false_iff in H; destruct H
  | H : negb _ = true |- _ => apply negb_true_iff in H
  | H : negb _ = false |- _ => apply negb_false_iff in H
  | H : bool_decide _ = true |- _ => apply bool_decide_eq_true_1 in H
  | H : bool_decide _ = false |- _ => apply bool_decide_eq_false_1 in H
  | H : (_ <=? _)%Z = true |- _ => apply Z.leb_le in H
  | H : (_ <=? _)%Z = false |- _ => apply Z.leb_gt in H
  | H : (_ <? _)%Z = true |- _ => apply Z.ltb_lt in H
  | H : (_ <? _)%Z = false |- _ => apply Z.ltb_ge in H
  | H : (_ =? _)%Z = true |- _ => apply Z.eqb_eq in H
  | H : (_ =? _)%Z = false |- _ => apply Z.eqb_neq in H
  end.

Create HintDb s3db.

(** ** Generic lemmas *)

Section Tables.
Context {A : Type}.
Implicit Types (p : A -> bool) (f : A -> A) (t : list A).

Lemma In_sql_update p f t r :
  In r (sql_update p f t) <-> exists r0, In r0 t /\ r = if p r0 then f r0 else r0.
Proof.
  unfold sql_update. rewrite in_map_iff. split; intros (r0 & H1 & H2); eauto.
Qed.

Lemma In_sql_where p t r : In r (sql_where p t) <-> In r t /\ p r = true.
Proof. apply filter_In. Qed.

Lemma In_sql_delete p t r : In r (sql_delete p t) <-> In r t /\ p r = false.
Proof. unfold sql_delete. rewrite In_sql_where, negb_true_iff. done. Qed.

Lemma sql_exists_true p t : sql_exists p t = true <-> exists r, In r t /\ p r = true.
Proof. apply existsb_exists. Qed.

Lemma sql_exists_false p t : sql_exists p t = false <-> forall r, In r t -> p r = false.
Proof.
  split.
  - intros H r Hr. destruct (p r) eqn:E; [|done].
    assert (sql_exists p t = true) by (apply sql_exists_true; eauto). congruence.
  - intros H. destruct (sql_exists p t) eqn:E; [|done].
    apply sql_exists_true in E as (r & Hr & Hp). rewrite H in Hp by done. done.
Qed.

(** A column the update does not write keeps its values, in order. *)
Lemma sql_update_map {B} (g : A -> B) p f t :
  (forall r, g (f r) = g r) -> map g (sql_update p f t) = map g t.
Proof.
  intros H. unfold sql_update. rewrite map_map. apply map_ext. intros r.
  destruct (p r); auto.
Qed.

Lemma sql_update_length p f t : length (sql_update p f t) = length t.
Proof. unfold sql_update. apply length_map. Qed.

Lemma sql_update_id p f t : (forall r, In r t -> p r = false) -> sql_update p f t = t.
Proof.
  intros H. unfold sql_update. rewrite <- (map_id t) at 2. apply map_ext_in.
  intros r Hr. by rewrite H.
Qed.

Lemma sql_update_none p f t : sql_exists p t = false -> sql_update p f t = t.
Proof. intros H. apply sql_update_id. by apply sql_exists_false. Qed.

Lemma sql_count_nonneg p t : 0 <= sql_count p t.
Proof. unfold sql_count. lia. Qed.

Lemma sql_count_zero p t : sql_count p t = 0 <-> sql_exists p t = false.
Proof.
  unfold sql_count, sql_where. induction t as [|r t IH]; simpl; [done|].
  destruct (p r); simpl; [split; [lia|done]|]. exact IH.
Qed.

Lemma sql_sum_update_le (g : A -> Z) p f t :
  (forall r, In r t -> p r = true -> g (f r) <= g r) ->
  sql_sum g (sql_update p f t) <= sql_sum g t.
Proof.
  induction t as [|r t IH]; simpl; intros H; [lia|].
  assert (sql_sum g (sql_update p f t) <= sql_sum g t) by (apply IH; auto).
  unfold sql_update in *. destruct (p r) eqn:E; [specialize (H r (or_introl eq_refl) E)|]; lia.
Qed.

Lemma sql_sum_app (g : A -> Z) t1 t2 : sql_sum g (t1 ++ t2) = sql_sum g t1 + sql_sum g t2.
Proof. induction t1 as [|r t1 IH]; simpl; lia. Qed.

Lemma sql_sum_nonneg (g : A -> Z) t : (forall r, In r t -> 0 <= g r) -> 0 <= sql_sum g t.
Proof.
  induction t as [|r t IH]; simpl; intros H; [lia|].
  pose proof (H r (or_introl eq_refl)). assert (0 <= sql_sum g t) by auto. lia.
Qed.

(** The total of a column over the rows [q] selects grows by [k] for each
    row updated. *)
Lemma sql_sum_where_update (g : A -> Z) (k : Z) q p f t :
  (forall r, p r = true -> q r = true /\ q (f r) = true /\ g (f r) = g r + k) ->
  sql_sum g (sql_where q (sql_update p f t)) = sql_sum g (sql_where q t) + k * sql_count p t.
Proof.
  intros H. unfold sql_count. induction t as [|r t IH]; simpl; [lia|].
  destruct (p r) eqn:Ep; simpl.
  - destruct (H r Ep) as (Hq & Hq' & Hg). rewrite Hq, Hq'. simpl. unfold sql_where in *. lia.
  - destruct (q r); simpl; unfold sql_where, sql_update in *; lia.
Qed.

Lemma sql_first_In t r : sql_first t = Some r -> In r t.
Proof. destruct t; simpl; [done|]. intros [= ->]. by left. Qed.

Lemma sql_first_where p t r :
  sql_first (sql_where p t) = Some r -> In r t /\ p r = true.
Proof. intros H. apply In_sql_where, sql_first_In, H. Qed.

Lemma sql_first_none p t :
  sql_first (sql_where p t) = None <-> sql_exists p t = false.
Proof.
  unfold sql_where, sql_first. induction t as [|r t IH]; simpl; [done|].
  destruct (p r); simpl; [done|exact IH].
Qed.

Lemma sql_min_le (g : A -> Z) t m r : sql_min g t = Some m -> In r t -> m <= g r.
Proof.
  revert m. induction t as [|x t IH]; simpl; [done|]. intros m Hm [->|Hr].
  - simplify_eq. destruct (sql_min g t); lia.
  - simplify_eq. destruct (sql_min g t) as [m'|] eqn:E.
    + specialize (IH m' eq_refl Hr). lia.
    + destruct t; simpl in *; [done|]. by destruct (sql_min g t).
Qed.

(** Rows with distinct keys: the key determines the row. *)
Lemma NoDup_map_inj {B} (g : A -> B) t r r' :
  List.NoDup (map g t) -> In r t -> In r' t -> g r = g r' -> r = r'.
Proof.
  induction t as [|x t IH]; simpl; [done|]. intros Hnd Hr Hr' Heq.
  inversion Hnd as [|? ? Hnot Hnd']; subst. destruct Hr as [->|Hr], Hr' as [->|Hr']; auto.
  - exfalso. apply Hnot. rewrite Heq. by apply in_map.
  - exfalso. apply Hnot. rewrite <- Heq. by apply in_map.
Qed.

Lemma NoDup_map_filter {B} (g : A -> B) p t :
  List.NoDup (map g t) -> List.NoDup (map g (sql_where p t)).
Proof.
  unfold sql_where. induction t as [|x t IH]; simpl; [done|]. intros Hnd.
  inversion Hnd as [|? ? Hnot Hnd']; subst. destruct (p x); simpl; auto.
  constructor; auto. contradict Hnot. apply in_map_iff in Hnot as (y & Hy & Hin).
  apply filter_In in Hin as [Hin _]. apply in_map_iff. eauto.
Qed.

(** With distinct keys at most one row has a given key. *)
Lemma sql_count_key_le1 {B} `{EqDecision B} (g : A -> B) (k : B) p t :
  List.NoDup (map g t) -> (forall r, In r t -> p r = true -> g r = k) -> sql_count p t <= 1.
Proof.
  intros Hnd Hk. unfold sql_count.
  pose proof (NoDup_map_filter g p t Hnd) as Hf.
  assert (forall r, In r (sql_where p t) -> g r = k) as Hall.
  { intros r Hr. apply In_sql_where in Hr as [? ?]. auto. }
  destruct (sql_where p t) as [|a [|b l]]; simpl; [lia|lia|]. exfalso.
  inversion Hf as [|? ? Hnot _]; subst. apply Hnot. simpl. left.
  rewrite (Hall a), (Hall b); simpl; auto.
Qed.
End Tables.

Lemma sql_update_compose_map {A B} (g : A -> B) p f (t : list A) (P : B -> Prop) :
  (forall r, In r t -> P (g r)) ->
  (forall r, In r t -> p r = true -> P (g (f r))) ->
  forall r, In r (sql_update p f t) -> P (g r).
Proof.
  intros H1 H2 r Hr. apply In_sql_update in Hr as (r0 & Hr0 & ->).
  destruct (p r0) eqn:E; auto.
Qed.

Lemma one_of_In {S} `{EqDecision S} (s : S) l : one_of s l = true <-> In s l.
Proof.
  unfold one_of. rewrite existsb_exists. split.
  - intros (x & Hx & Hd). apply bool_decide_eq_true_1 in Hd as ->. done.
  - intros H. exists s. split; [done|]. by apply bool_decide_eq_true_2.
Qed.

Lemma sql_eq_true {S} `{EqDecision S} (a : option S) (b : S) :
  sql_eq a b = true <-> a = Some b.
Proof.
  unfold sql_eq. destruct a as [x|]; [|done]. rewrite bool_decide_eq_true.
  split; [by intros ->|by intros [= ->]].
Qed.

(** ** Text order *)

Lemma text_le_total a b : text_le a b = true \/ text_le b a = true.
Proof. apply String.leb_total. Qed.

Lemma text_le_antisym a b : text_le a b = true -> text_le b a = true -> a = b.
Proof. apply String.leb_antisym. Qed.

Lemma text_le_refl a : text_le a a = true.
Proof. by destruct (text_le_total a a). Qed.

Lemma text_le_cons c1 s1 c2 s2 :
  text_le (String c1 s1) (String c2 s2) = true <->
  (Ascii.N_of_ascii c1 < Ascii.N_of_ascii c2)%N \/ (c1 = c2 /\ text_le s1 s2 = true).
Proof.
  unfold text_le, String.leb. simpl. unfold Ascii.compare.
  destruct (N.compare_spec (Ascii.N_of_ascii c1) (Ascii.N_of_ascii c2)) as [He|Hl|Hg].
  - assert (c1 = c2) as -> by (rewrite <- (Ascii.ascii_N_embedding c1), He; apply Ascii.ascii_N_embedding).
    split; [auto|]. intros [H|[_ H]]; [lia|done].
  - split; auto.
  - split; [done|]. intros [H|[-> _]]; lia.
Qed.

Lemma text_le_trans a b c : text_le a b = true -> text_le b c = true -> text_le a c = true.
Proof.
  revert b c. induction a as [|x a IH]; intros [|y b] [|z c]; try done.
  rewrite !text_le_cons. intros [H1|[-> H1]] [H2|[-> H2]]; eauto with lia.
Qed.

(** ** Prefixes *)

Lemma append_cons (c : Ascii.ascii) (s t : string) : String c s +:+ t = String c (s +:+ t).
Proof. reflexivity. Qed.

Lemma strip_prefix_app (p s : string) : strip_prefix p (p +:+ s) = Some s.
Proof.
  induction p as [|c p IH]; [by destruct s|].
  change (String c p +:+ s) with (String c (p +:+ s)).
  cbn [strip_prefix]. by rewrite Ascii.eqb_refl.
Qed.

Lemma strip_prefix_some (p s r : string) : strip_prefix p s = Some r -> s = p +:+ r.
Proof.
  revert s. induction p as [|c p IH]; intros [|d s]; cbn [strip_prefix]; intros H;
    simplify_eq; auto.
  destruct (Ascii.eqb_spec c d) as [->|]; [|done]. by rewrite (IH _ H).
Qed.

Lemma string_length_app (s t : string) :
  String.length (s +:+ t) = (String.length s + String.length t)%nat.
Proof. induction s as [|c s IH]; [done|]. rewrite append_cons. cbn. by rewrite IH. Qed.

(** The statements stay folded: proofs use the lemmas above. *)
#[global] Arguments sql_update : simpl never.
#[global] Arguments sql_exists : simpl never.
#[global] Arguments sql_where : simpl never.
#[global] Arguments sql_count : simpl never.
#[global] Arguments sql_delete : simpl never.

#[export] Hint Resolve sql_count_nonneg sql_sum_nonneg : s3db.
