(* ===== verification/Errors.v ===== *)
(** * Error types

    The error enums of the metadata store ([src/src/metadata.rs]), of the
    Telegram transport ([src/src/telegram/]) and of the object-format service
    ([src/src/object_format.rs]), with the texts their [Display] instances
    print.  Foreign error payloads (SQLite, serde, io) are carried as text. *)

From stdpp Require Import pretty.
From S2P Require Import Prelude.

Inductive MetadataError : Type :=
| Sqlite (message : string)
| Serde (message : string)
| Io (message : string)
| UnsupportedSchemaVersion (version : Z)
| ManifestNotFound (id : string)
| JournalNotFound (id : string)
| MultipartSessionNotFound (id : string)
| InvalidManifest (message : string)
| PreconditionFailed (message : string)
| InvalidOperationKind (value : string)
| BucketNotFound (name : string)
| BucketAlreadyExists (name : string)
| BucketNotEmpty (name : string)
| FolderNotEmpty (name : string)
| ConnectionRemovalInProgress
| QuotaExceeded (message : string)
| Poisoned
| TimeFormat (message : string).

#[export] Instance MetadataError_eq_dec : EqDecision MetadataError.
Proof. solve_decision. Defined.

(** The text of an error: its [Display] instance. *)
Definition metadata_text (self : MetadataError) : string :=
  match self with
  | Sqlite m => "sqlite error: " +:+ m
  | Serde m => "serialization error: " +:+ m
  | Io m => "io error: " +:+ m
  | UnsupportedSchemaVersion v => "unsupported schema version " +:+ pretty v
  | ManifestNotFound i => "manifest not found: " +:+ i
  | JournalNotFound i => "journal entry not found: " +:+ i
  | MultipartSessionNotFound i => "multipart session not found: " +:+ i
  | InvalidManifest m => "invalid manifest: " +:+ m
  | PreconditionFailed m => "precondition failed: " +:+ m
  | InvalidOperationKind v => "invalid operation kind: " +:+ v
  | BucketNotFound n => "bucket not found: " +:+ n
  | BucketAlreadyExists n => "bucket already exists: " +:+ n
  | BucketNotEmpty n => "bucket not empty: " +:+ n
  | FolderNotEmpty n => "folder not empty: " +:+ n
  | ConnectionRemovalInProgress => "a connection removal is already in progress"
  | QuotaExceeded m => "account quota exceeded: " +:+ m
  | Poisoned => "metadata state is poisoned"
  | TimeFormat m => "time formatting error: " +:+ m
  end.

Module ProxyError.
Inductive t : Type :=
| Inconsistent (message : string)
| InvalidUrl (message : string)
| MissingHost
| InvalidPort
| UnsupportedScheme (scheme : string)
| BridgeFailed (message : string).

Definition to_string (self : t) : string :=
  match self with
  | Inconsistent m => "proxy configuration is inconsistent: " +:+ m
  | InvalidUrl m => "proxy url is invalid: " +:+ m
  | MissingHost => "proxy host is missing"
  | InvalidPort => "proxy port is invalid"
  | UnsupportedScheme m => "unsupported proxy scheme: " +:+ m
  | BridgeFailed m => "bridge failed: " +:+ m
  end.
End ProxyError.

(** Payloads of the configuration, session and login errors are the text they
    print: no modelled code looks inside them. *)
Module TelegramTransportError.
Inductive t : Type :=
| Config (message : string)
| Proxy (error : ProxyError.t)
| Session (message : string)
| Rpc (detail : string)
| Login (failure : string)
| Io (message : string)
| Metadata (error : MetadataError)
| InvalidState (message : string)
| InitializationPanic.

Definition to_string (self : t) : string :=
  match self with
  | Config m | Session m => m
  | Proxy e => ProxyError.to_string e
  | Rpc m => "Telegram RPC error: " +:+ m
  | Login m => "Telegram login failed: " +:+ m
  | Io m => "io error: " +:+ m
  | Metadata e => metadata_text e
  | InvalidState m => "invalid session state: " +:+ m
  | InitializationPanic => "telegram transport initialization failed"
  end.
End TelegramTransportError.

Module ObjectFormatError.
Inductive t : Type :=
| Config (message : string)
| Metadata (error : MetadataError)
| Telegram (error : TelegramTransportError.t)
| Serde (message : string)
| Io (message : string)
| InvalidPlan (message : string)
| InvalidBucketName (name : string)
| InvalidRead (message : string)
| ChecksumMismatch (scope expected actual : string)
| MissingChunk (object_id : string) (order : Z)
| RecoveryRequired (message : string)
| InvalidChecksum (message : string)
| ReceptionNotFound
| ReceptionOffsetMismatch (received : Z)
| ReceptionChunkTooLarge
| ReceptionChunkSizeMismatch
| ReceptionNotComplete.

Definition to_string (self : t) : string :=
  match self with
  | Config m | Serde m => m
  | Metadata e => metadata_text e
  | Telegram e => TelegramTransportError.to_string e
  | Io m => "io error: " +:+ m
  | InvalidPlan m => "invalid upload plan: " +:+ m
  | InvalidBucketName m => "invalid bucket name: " +:+ m
  | InvalidRead m => "invalid read plan: " +:+ m
  | ChecksumMismatch scope expected actual =>
      "checksum mismatch for " +:+ scope +:+ ": expected " +:+ expected +:+ ", got " +:+ actual
  | MissingChunk object_id order => "missing chunk " +:+ pretty order +:+ " for object " +:+ object_id
  | RecoveryRequired m => "bootstrap blocked: " +:+ m
  | InvalidChecksum m => "invalid checksum: " +:+ m
  | ReceptionNotFound => "resumable reception not found"
  | ReceptionOffsetMismatch received =>
      "resumable reception offset mismatch; server received " +:+ pretty received
  | ReceptionChunkTooLarge => "resumable reception chunk exceeds the configured chunk size"
  | ReceptionChunkSizeMismatch =>
      "resumable reception chunks must fill the chunk size unless final"
  | ReceptionNotComplete => "resumable reception is not complete"
  end.
End ObjectFormatError.
