(* ===== verification/Manifest.v ===== *)
(** * Object manifests ([src/src/manifest.rs])

    The canonical description of a stored object: its identity, its length and
    the ordered list of Telegram chunks that hold its bytes, with
    [ObjectManifest::validate], the check every manifest passes before it is
    staged, loaded or published.  The theorems characterise [validate]: it
    accepts exactly the manifests whose chunks tile [0, content_length)
    in order, and it never accepts a manifest in which a byte is missing or
    stored twice. *)

From S2P Require Import Prelude.

(** The [uuid] crate's identifier, by its canonical text. *)
Abbreviation Uuid := string (only parsing).

(** [time::OffsetDateTime], by its nanoseconds since the epoch. *)
Abbreviation OffsetDateTime := Z (only parsing).

Definition MANIFEST_SCHEMA_VERSION : Z := 2.

Module CommitState.
Inductive t : Type :=
| Staging
| Committed
| Tombstoned
| Orphaned
| RecoveryRequired.

Definition as_str (self : t) : string :=
  match self with
  | Staging => "staging"
  | Committed => "committed"
  | Tombstoned => "tombstoned"
  | Orphaned => "orphaned"
  | RecoveryRequired => "recovery_required"
  end.

#[export] Instance t_eq_dec : EqDecision t.
Proof. solve_decision. Defined.

Lemma as_str_inj a b : as_str a = as_str b -> a = b.
Proof. by destruct a, b. Qed.
End CommitState.
Export (hints) CommitState.

Module ReplicaMode.
Inductive t : Type :=
| Replica
| Access.

#[export] Instance t_eq_dec : EqDecision t.
Proof. solve_decision. Defined.
End ReplicaMode.
Export (hints) ReplicaMode.

Record ObjectChecksum : Type := {
  algorithm : string;
  whole_object : string
}.

Record EncryptionInfo : Type := {
  enabled : bool;
  format : string;
  key_id : option string
}.

Record ChunkReplica : Type := {
  cr_account_id : string;
  cr_mode : ReplicaMode.t;
  cr_chunk_size : Z;
  cr_telegram_peer_id : string;
  cr_telegram_message_id : Z;
  cr_telegram_document_id : option string
}.

Record ChunkRef : Type := {
  order : Z;
  offset : Z;
  size : Z;
  checksum : string;
  telegram_peer_id : string;
  telegram_message_id : Z;
  telegram_document_id : option string;
  source_object_id : option Uuid;
  source_chunk_order : option Z;
  replicas : list ChunkReplica
}.

#[export] Instance eta_ChunkRef : Eta ChunkRef := fun r =>
  {| order := order r; offset := offset r; size := size r; checksum := checksum r;
     telegram_peer_id := telegram_peer_id r; telegram_message_id := telegram_message_id r;
     telegram_document_id := telegram_document_id r; source_object_id := source_object_id r;
     source_chunk_order := source_chunk_order r; replicas := replicas r |}.

Definition payload_identity (self : ChunkRef) (manifest_object_id : Uuid) : Uuid * Z :=
  (match source_object_id self with Some o => o | None => manifest_object_id end,
   match source_chunk_order self with Some n => n | None => order self end).

Definition is_some {A} (o : option A) : bool :=
  match o with Some _ => true | None => false end.

Definition references_remote_payload (self : ChunkRef) : bool :=
  is_some (source_object_id self) && is_some (source_chunk_order self).

Record TelegramLocation : Type := {
  peer_id : string;
  message_id : Z;
  document_id : option string
}.

#[export] Instance TelegramLocation_eq_dec : EqDecision TelegramLocation.
Proof. solve_decision. Defined.

Record ObjectManifest : Type := {
  schema_version : Z;
  commit_state : CommitState.t;
  object_id : Uuid;
  bucket : string;
  key : string;
  version_id : option string;
  content_length : Z;
  content_type : string;
  user_metadata : gmap string string;
  tags : gmap string string;
  created_at : OffsetDateTime;
  expires_at : option OffsetDateTime;
  m_checksum : ObjectChecksum;
  encryption : EncryptionInfo;
  telegram : TelegramLocation;
  chunks : list ChunkRef
}.

#[export] Instance eta_ObjectManifest : Eta ObjectManifest := fun r =>
  {| schema_version := schema_version r; commit_state := commit_state r;
     object_id := object_id r; bucket := bucket r; key := key r; version_id := version_id r;
     content_length := content_length r; content_type := content_type r;
     user_metadata := user_metadata r; tags := tags r; created_at := created_at r;
     expires_at := expires_at r; m_checksum := m_checksum r; encryption := encryption r;
     telegram := telegram r; chunks := chunks r |}.

Record CommittedManifestArgs : Type := {
  a_bucket : string;
  a_key : string;
  a_content_length : Z;
  a_content_type : string;
  a_checksum_algorithm : string;
  a_whole_object : string;
  a_peer_id : string;
  a_message_id : Z
}.

(** [ObjectManifest::committed].  The two [Uuid::new_v4()] and the clock
    reading are arguments; [message_id + 1] is an [i64] addition that panics
    on overflow ([None]). *)
Definition committed (args : CommittedManifestArgs) (new_object_id new_version : Uuid)
    (now_utc : OffsetDateTime) : option ObjectManifest :=
  let mk chunks :=
    {| schema_version := MANIFEST_SCHEMA_VERSION;
       commit_state := CommitState.Committed;
       object_id := new_object_id;
       bucket := a_bucket args;
       key := a_key args;
       version_id := Some new_version;
       content_length := a_content_length args;
       content_type := a_content_type args;
       user_metadata := ∅;
       tags := ∅;
       created_at := now_utc;
       expires_at := None;
       m_checksum := {| algorithm := a_checksum_algorithm args;
                        whole_object := a_whole_object args |};
       encryption := {| enabled := false; format := "none"; key_id := None |};
       telegram := {| peer_id := a_peer_id args; message_id := a_message_id args;
                      document_id := None |};
       chunks := chunks |} in
  if a_content_length args =? 0 then Some (mk [])
  else if a_message_id args + 1 <=? I64_MAX then
    Some (mk [{| order := 0; offset := 0; size := a_content_length args;
                 checksum := a_whole_object args;
                 telegram_peer_id := a_peer_id args;
                 telegram_message_id := a_message_id args + 1;
                 telegram_document_id := None;
                 source_object_id := None; source_chunk_order := None;
                 replicas := [] |}])
  else None.

Definition is_expired (self : ObjectManifest) (now : OffsetDateTime) : bool :=
  match expires_at self with Some e => e <=? now | None => false end.

(** ** [ObjectManifest::validate] *)

(** The inner loop over [chunk.replicas]. *)
Fixpoint validate_replicas (rs : list ChunkReplica) : Result unit string :=
  match rs with
  | [] => Ok tt
  | replica :: rs' =>
      if trim_is_empty (cr_account_id replica) then
        Err "chunk replica account_id is required"
      else if trim_is_empty (cr_telegram_peer_id replica) then
        Err "chunk replica telegram_peer_id is required"
      else if cr_telegram_message_id replica <=? 0 then
        Err "chunk replica requires a durable Telegram message"
      else validate_replicas rs'
  end.

(** The body of the loop over [self.chunks]: the next [expected_offset]. *)
Definition validate_chunk (index expected_offset : Z) (chunk : ChunkRef) : Result Z string :=
  if negb (bool_decide (is_some (source_object_id chunk) = is_some (source_chunk_order chunk))) then
    Err "chunk source_object_id and source_chunk_order must appear together"
  else if references_remote_payload chunk && (telegram_message_id chunk <=? 0) then
    Err "referenced chunk requires a durable Telegram message"
  else match validate_replicas (replicas chunk) with
  | Err e => Err e
  | Ok _ =>
    if negb (order chunk =? as_u32 index) then Err "chunk order must be contiguous"
    else if size chunk =? 0 then Err "chunk size must be non-zero"
    else if negb (offset chunk =? expected_offset) then Err "chunk offsets must be contiguous"
    else if trim_is_empty (checksum chunk) then Err "chunk checksum is required"
    else if trim_is_empty (telegram_peer_id chunk) then Err "chunk telegram_peer_id is required"
    else match u64_checked_add expected_offset (size chunk) with
         | None => Err "chunk sizes overflow content length"
         | Some next => Ok next
         end
  end.

Fixpoint validate_chunks (index expected_offset : Z) (cs : list ChunkRef) : Result Z string :=
  match cs with
  | [] => Ok expected_offset
  | chunk :: cs' =>
      match validate_chunk index expected_offset chunk with
      | Err e => Err e
      | Ok next => validate_chunks (index + 1) next cs'
      end
  end.

Definition validate (self : ObjectManifest) : Result unit string :=
  if schema_version self =? 0 then Err "schema_version must be non-zero"
  else if trim_is_empty (bucket self) then Err "bucket is required"
  else if trim_is_empty (key self) then Err "key is required"
  else if trim_is_empty (algorithm (m_checksum self)) then Err "checksum.algorithm is required"
  else if trim_is_empty (whole_object (m_checksum self)) then Err "checksum.whole_object is required"
  else if trim_is_empty (peer_id (telegram self)) then Err "telegram.peer_id is required"
  else if enabled (encryption self) && trim_is_empty (format (encryption self)) then
    Err "encryption.format is required when encryption is enabled"
  else if enabled (encryption self)
          && match key_id (encryption self) with None => true | Some k => is_empty k end then
    Err "encryption.key_id is required when encryption is enabled"
  else match chunks self with
  | [] => if negb (content_length self =? 0)
          then Err "non-empty content_length requires chunk references" else Ok tt
  | cs =>
      match validate_chunks 0 0 cs with
      | Err e => Err e
      | Ok expected_offset =>
          if negb (expected_offset =? content_length self)
          then Err "chunk sizes must sum to content_length" else Ok tt
      end
  end.

(** ** Specification *)

Definition total_size (cs : list ChunkRef) : Z := sql_sum size cs.

(** The ranges the Rust types guarantee. *)
Definition chunk_typed (c : ChunkRef) : Prop :=
  is_u32 (order c) /\ is_u64 (offset c) /\ is_u64 (size c).

Definition manifest_typed (m : ObjectManifest) : Prop :=
  is_u64 (content_length m) /\ Forall chunk_typed (chunks m).

Record header_wf (m : ObjectManifest) : Prop := {
  hw_version : schema_version m <> 0;
  hw_bucket : trim_is_empty (bucket m) = false;
  hw_key : trim_is_empty (key m) = false;
  hw_algorithm : trim_is_empty (algorithm (m_checksum m)) = false;
  hw_whole : trim_is_empty (whole_object (m_checksum m)) = false;
  hw_peer : trim_is_empty (peer_id (telegram m)) = false;
  hw_encryption : enabled (encryption m) = true ->
    trim_is_empty (format (encryption m)) = false /\
    exists k, key_id (encryption m) = Some k /\ k <> EmptyString
}.

Definition replica_wf (r : ChunkReplica) : Prop :=
  trim_is_empty (cr_account_id r) = false /\
  trim_is_empty (cr_telegram_peer_id r) = false /\
  0 < cr_telegram_message_id r.

Record chunk_wf (c : ChunkRef) : Prop := {
  cw_source : is_some (source_object_id c) = is_some (source_chunk_order c);
  cw_remote : references_remote_payload c = true -> 0 < telegram_message_id c;
  cw_replicas : Forall replica_wf (replicas c);
  cw_size : size c <> 0;
  cw_checksum : trim_is_empty (checksum c) = false;
  cw_peer : trim_is_empty (telegram_peer_id c) = false
}.

(** Chunk [i] has order [i] and starts where the chunks before it end. *)
Definition chunks_tile (cs : list ChunkRef) : Prop :=
  forall i c, cs !! i = Some c ->
    order c = as_u32 (Z.of_nat i) /\ offset c = total_size (take i cs).

Record manifest_wf (m : ObjectManifest) : Prop := {
  mw_header : header_wf m;
  mw_chunks : Forall chunk_wf (chunks m);
  mw_tile : chunks_tile (chunks m);
  mw_total : total_size (chunks m) = content_length m
}.

(** The byte position [pos] of the object is stored in [c]. *)
Definition covers (c : ChunkRef) (pos : Z) : Prop := offset c <= pos < offset c + size c.

(** ** Lemmas *)

Lemma validate_replicas_ok rs : validate_replicas rs = Ok tt <-> Forall replica_wf rs.
Proof.
  induction rs as [|r rs IH]; simpl; [done|]. rewrite Forall_cons. unfold replica_wf at 1.
  destruct (trim_is_empty (cr_account_id r)); [by split; [|intros [[? _] _]]|].
  destruct (trim_is_empty (cr_telegram_peer_id r)); [by split; [|intros [(_ & ? & _) _]]|].
  destruct (Z.leb_spec (cr_telegram_message_id r) 0); [split; [done|lia]|].
  rewrite IH. tauto.
Qed.

Lemma validate_replicas_cases rs :
  validate_replicas rs = Ok tt \/ exists e, validate_replicas rs = Err e.
Proof. destruct (validate_replicas rs) as [[]|e]; eauto. Qed.

Lemma validate_chunk_ok index off c next :
  validate_chunk index off c = Ok next <->
  chunk_wf c /\ order c = as_u32 index /\ offset c = off /\
  next = off + size c /\ next <= U64_MAX.
Proof.
  unfold validate_chunk, u64_checked_add. split.
  - intros H. destruct (validate_replicas_cases (replicas c)) as [Hr|[e Hr]]; rewrite Hr in H;
      crush_match; bool_hyps.
    split; [|lia]. apply validate_replicas_ok in Hr. split; try done.
    intros Hrem. rewrite Hrem in *. simpl in *. bool_hyps. lia.
  - intros ([Hs Hrem Hr Hsz Hck Hp] & Ho & Hoff & -> & Hmax).
    apply validate_replicas_ok in Hr. rewrite Hr, Hck, Hp, Hoff, Ho, !Z.eqb_refl.
    rewrite bool_decide_eq_true_2 by done. apply Z.eqb_neq in Hsz as ->.
    apply Z.leb_le in Hmax as ->. simpl.
    destruct (references_remote_payload c); simpl; [|done].
    specialize (Hrem eq_refl). by apply Z.leb_gt in Hrem as ->.
Qed.

(** Chunk [i] of [cs] has order [index + i] and starts at [off] plus the
    sizes before it. *)
Definition tile_from (index off : Z) (cs : list ChunkRef) : Prop :=
  forall i c, cs !! i = Some c ->
    order c = as_u32 (index + Z.of_nat i) /\ offset c = off + total_size (take i cs).

Lemma tile_from_cons index off c cs :
  tile_from index off (c :: cs) <->
  (order c = as_u32 index /\ offset c = off) /\ tile_from (index + 1) (off + size c) cs.
Proof.
  unfold tile_from. split.
  - intros H. split.
    + destruct (H 0%nat c eq_refl) as [H1 H2]. rewrite Z.add_0_r in H1.
      unfold total_size in H2. simpl in H2. split; [done|lia].
    + intros i d Hd. destruct (H (S i) d Hd) as [-> ->].
      split; [f_equal; lia|unfold total_size; simpl; lia].
  - intros [[Ho Hoff] H] [|i] d Hd; simpl in *.
    + simplify_eq. rewrite Z.add_0_r. unfold total_size. simpl. split; [done|lia].
    + destruct (H i d Hd) as [-> ->]. split; [f_equal; lia|unfold total_size; simpl; lia].
Qed.

Lemma validate_chunks_ok index off cs total :
  Forall chunk_typed cs -> 0 <= off <= U64_MAX ->
  validate_chunks index off cs = Ok total <->
  Forall chunk_wf cs /\ tile_from index off cs /\
  total = off + total_size cs /\ total <= U64_MAX.
Proof.
  intros Hty. revert index off. induction cs as [|c cs IH]; intros index off Hoff; simpl.
  - unfold total_size. simpl. split; [intros [= ->]|intros (_ & _ & -> & _)].
    + split_and!; [constructor|by intros i d|lia|lia].
    + f_equal. lia.
  - inversion Hty as [|? ? [_ [_ Hsz]] Hty']; subst.
    rewrite Forall_cons, tile_from_cons. unfold total_size in *. simpl.
    assert (0 <= sql_sum size cs) as Hpos.
    { apply sql_sum_nonneg. intros r Hr. apply list_elem_of_In in Hr.
      rewrite Forall_forall in Hty'. destruct (Hty' r Hr) as (_ & _ & ?). unfold is_u64 in *. lia. }
    unfold is_u64 in Hsz.
    destruct (validate_chunk index off c) as [next|e] eqn:E.
    + apply validate_chunk_ok in E as (Hwf & Ho & Hof & -> & Hmax).
      rewrite IH by (auto; lia). rewrite <- !Z.add_assoc. tauto.
    + split; [done|]. intros ((Hwf & Hwfs) & ((Ho & Hof) & Htile) & -> & Hmax).
      assert (validate_chunk index off c = Ok (off + size c)) as E'
        by (apply validate_chunk_ok; split_and!; auto; lia). congruence.
Qed.

Lemma header_checks m :
  header_wf m <->
  (schema_version m =? 0) = false /\ trim_is_empty (bucket m) = false /\
  trim_is_empty (key m) = false /\ trim_is_empty (algorithm (m_checksum m)) = false /\
  trim_is_empty (whole_object (m_checksum m)) = false /\
  trim_is_empty (peer_id (telegram m)) = false /\
  enabled (encryption m) && trim_is_empty (format (encryption m)) = false /\
  enabled (encryption m)
    && match key_id (encryption m) with None => true | Some k => is_empty k end = false.
Proof.
  rewrite Z.eqb_neq. split.
  - intros [? ? ? ? ? ? He]. destruct (enabled (encryption m)); simpl; [|done].
    destruct (He eq_refl) as (-> & k & -> & ?). by destruct k.
  - intros (? & ? & ? & ? & ? & ? & H1 & H2). split; try done. intros He. rewrite He in *.
    simpl in *. split; [done|]. destruct (key_id (encryption m)) as [k|]; [|done].
    exists k. split; [done|]. by intros ->.
Qed.

Lemma validate_wf m : manifest_typed m -> validate m = Ok tt <-> manifest_wf m.
Proof.
  intros [Hlen Hty]. unfold is_u64 in Hlen.
  transitivity (header_wf m /\ match chunks m with
    | [] => content_length m = 0
    | cs => validate_chunks 0 0 cs = Ok (content_length m) end).
  - rewrite header_checks. unfold validate. split.
    + intros H. crush_match; bool_hyps; subst; by split_and!.
    + intros ((-> & -> & -> & -> & -> & -> & -> & ->) & H).
      destruct (chunks m); [by rewrite H|]. by rewrite H, Z.eqb_refl.
  - split.
    + intros [Hh H]. destruct (chunks m) as [|c cs] eqn:Ec.
      * split; [done|by rewrite Ec|by rewrite Ec; intros i d|by rewrite Ec].
      * apply validate_chunks_ok in H as (H1 & H2 & H3 & H4); [|done|unfold U64_MAX; lia].
        by split; rewrite ?Ec.
    + intros [Hh H1 H2 H3]. split; [done|]. destruct (chunks m) as [|c cs] eqn:Ec; [done|].
      apply validate_chunks_ok; [done|unfold U64_MAX; lia|]. split_and!; auto; lia.
Qed.

(** Sizes of a typed, well-formed chunk list are positive. *)
Lemma wf_size_pos c : chunk_typed c -> chunk_wf c -> 0 < size c.
Proof. intros (_ & _ & H) [_ _ _ Hs _ _]. unfold is_u64 in H. lia. Qed.

Lemma total_size_take_mono cs i :
  Forall (fun c => 0 < size c) cs -> 0 <= total_size (take i cs) <= total_size cs.
Proof.
  intros Hp. unfold total_size. rewrite <- (take_drop i cs) at 3. rewrite sql_sum_app.
  assert (forall l, Forall (fun c => 0 < size c) l -> 0 <= sql_sum size l) as Hn.
  { intros l Hl. apply sql_sum_nonneg. intros r Hr. apply list_elem_of_In in Hr.
    rewrite Forall_forall in Hl. specialize (Hl r Hr). simpl in *. lia. }
  pose proof (Hn (take i cs) (Forall_take _ _ _ Hp)).
  pose proof (Hn (drop i cs) (Forall_drop _ _ _ Hp)). lia.
Qed.

(** Tiling from [off]: every position up to the end is in exactly one chunk. *)
Lemma tile_from_covers index off cs pos :
  Forall (fun c => 0 < size c) cs -> tile_from index off cs ->
  off <= pos < off + total_size cs ->
  exists i c, cs !! i = Some c /\ covers c pos.
Proof.
  unfold total_size. revert index off. induction cs as [|c cs IH]; intros index off Hp Ht Hpos;
    simpl in *; [lia|].
  inversion Hp; subst. apply tile_from_cons in Ht as [[_ Ho] Ht].
  destruct (decide (pos < off + size c)).
  - exists 0%nat, c. split; [done|]. unfold covers. lia.
  - destruct (IH _ _ H2 Ht) as (i & d & Hd & Hc); [lia|]. by exists (S i), d.
Qed.

Lemma chunks_tile_from cs : chunks_tile cs <-> tile_from 0 0 cs.
Proof. done. Qed.

Lemma tile_offset_lt cs i j c d :
  Forall (fun c => 0 < size c) cs -> chunks_tile cs ->
  cs !! i = Some c -> cs !! j = Some d -> (i < j)%nat -> offset c + size c <= offset d.
Proof.
  intros Hp Ht Hi Hj Hlt. destruct (Ht i c Hi) as [_ ->]. destruct (Ht j d Hj) as [_ ->].
  assert (take (S i) (take j cs) = take i cs ++ [c]) as Htk.
  { rewrite take_take, Nat.min_l by lia. by apply take_S_r. }
  pose proof (total_size_take_mono (take j cs) (S i) (Forall_take _ _ _ Hp)) as H.
  rewrite Htk in H. unfold total_size in *. rewrite sql_sum_app in H. simpl in H. lia.
Qed.

(** ** Properties *)

(** C39: [ObjectManifest::validate] accepts a manifest exactly when its header
    fields are present, every chunk is well formed (provenance pair complete,
    durable remote message, usable replicas, non-zero size, checksum and peer
    present) and the chunks tile the object: chunk [i] has order [i], starts
    where its predecessors end, and the sizes sum to [content_length]. *)
Theorem validate_accepts_exactly_tilings (m : ObjectManifest) (Ht : manifest_typed m) :
  validate m = Ok tt <-> manifest_wf m.
Proof. by apply validate_wf. Qed.

(** in a manifest [validate] accepts, every byte position below
    [content_length] is stored in one chunk and in only one, so a reader can
    neither lose nor repeat a byte. *)
Theorem validated_byte_has_one_chunk (m : ObjectManifest) (pos : Z)
    (Ht : manifest_typed m) (Hv : validate m = Ok tt) (Hpos : 0 <= pos < content_length m) :
  exists i c, chunks m !! i = Some c /\ covers c pos /\
    forall j d, chunks m !! j = Some d -> covers d pos -> j = i.
Proof.
  apply validate_wf in Hv as [_ Hw Htile Htot]; [|done]. destruct Ht as [_ Hty].
  assert (Forall (fun c => 0 < size c) (chunks m)) as Hp.
  { rewrite Forall_forall in *. intros c Hc. apply wf_size_pos; auto. }
  destruct (tile_from_covers 0 0 (chunks m) pos Hp) as (i & c & Hc & Hcov); [done|lia|].
  exists i, c. split_and!; [done|done|]. intros j d Hd Hdcov. unfold covers in *.
  destruct (lt_eq_lt_dec i j) as [[Hlt|]|Hlt]; [exfalso|done|exfalso].
  - pose proof (tile_offset_lt _ i j c d Hp Htile Hc Hd Hlt). lia.
  - pose proof (tile_offset_lt _ j i d c Hp Htile Hd Hc Hlt). lia.
Qed.

(** ** Witnesses *)

Definition sample_chunk (n off sz : Z) : ChunkRef :=
  {| order := n; offset := off; size := sz; checksum := "c0ffee";
     telegram_peer_id := "-1001"; telegram_message_id := 10 + n;
     telegram_document_id := None; source_object_id := None;
     source_chunk_order := None; replicas := [] |}.

(** A three-chunk manifest of 25 bytes. *)
Definition sample_manifest (id bkt k : string) : ObjectManifest :=
  {| schema_version := 2; commit_state := CommitState.Staging; object_id := id;
     bucket := bkt; key := k; version_id := None; content_length := 25;
     content_type := "text/plain"; user_metadata := ∅; tags := ∅; created_at := 0;
     expires_at := None;
     m_checksum := {| algorithm := "sha256"; whole_object := "abc" |};
     encryption := {| enabled := false; format := "none"; key_id := None |};
     telegram := {| peer_id := "-1001"; message_id := 9; document_id := None |};
     chunks := [sample_chunk 0 0 10; sample_chunk 1 10 10; sample_chunk 2 20 5] |}.

Lemma sample_manifest_typed id b k : manifest_typed (sample_manifest id b k).
Proof.
  unfold manifest_typed, chunk_typed, is_u32, is_u64, U32_MAX, U64_MAX; simpl.
  repeat constructor; simpl; lia.
Qed.

Lemma validate_accepts_exactly_tilings_witness :
  validate (sample_manifest "o" "b" "k") = Ok tt /\ manifest_wf (sample_manifest "o" "b" "k").
Proof.
  split; [reflexivity|].
  apply (validate_accepts_exactly_tilings (sample_manifest "o" "b" "k")
           (sample_manifest_typed "o" "b" "k")).
  reflexivity.
Defined.

Lemma validated_byte_has_one_chunk_witness :
  exists i c, chunks (sample_manifest "o" "b" "k") !! i = Some c /\ covers c 17 /\
    forall j d, chunks (sample_manifest "o" "b" "k") !! j = Some d -> covers d 17 -> j = i.
Proof.
  apply (validated_byte_has_one_chunk (sample_manifest "o" "b" "k") 17
           (sample_manifest_typed "o" "b" "k")); [reflexivity|].
  change (0 <= 17 < 25). lia.
Defined.
