(* ===== verification/Chunks.v ===== *)
(** * Chunk layout and range reads ([src/src/object_format.rs])

    [plan_chunks] splits an upload into chunks, [plan_read] maps a byte range
    of a manifest to spans of chunks, and [read_range] is the loop of
    [read_range_to_writer] that downloads, decrypts, verifies and emits the
    spans.  The theorems: planning terminates with exactly
    ceil(length/size) contiguous chunks unless the [u32] order overflows;
    the chunks it plans make a manifest [validate] accepts; and a range read
    of a valid manifest returns exactly the requested bytes, or stops with an
    error at the first chunk that is not the stored one.

    The downloader, the chunk cipher and SHA-256 are parameters. *)

From stdpp Require Import pretty.
From S2P Require Import Prelude Errors Manifest.
From Stdlib Require Strings.Byte.

Record PlannedChunk : Type := {
  p_order : Z;
  p_offset : Z;
  p_size : Z
}.

Record ChunkPlan : Type := {
  cp_chunk_size : Z;
  cp_content_length : Z;
  cp_chunks : list PlannedChunk
}.

(** The [path] of a span is always empty and never read; it is left out. *)
Record ReadSpan : Type := {
  s_order : Z;
  offset_within_chunk : Z;
  length_ : Z;
  s_checksum : string
}.

Record ReadPlan : Type := {
  rp_object_id : Uuid;
  rp_start : Z;
  rp_end : Z;
  rp_chunks : list ReadSpan
}.

(** ** Planning an upload *)

(** The [while offset < content_length] loop; [None] when the fuel is used up. *)
Fixpoint plan_chunks_loop (fuel : nat) (content_length chunk_size offset order : Z)
    (acc : list PlannedChunk) : option (Result (list PlannedChunk) ObjectFormatError.t) :=
  match fuel with
  | O => None
  | S fuel' =>
      if offset <? content_length then
        let remaining := content_length - offset in
        let size := Z.min remaining chunk_size in
        let acc' := acc ++ [{| p_order := order; p_offset := offset; p_size := size |}] in
        match u64_checked_add offset size with
        | None => Some (Err (ObjectFormatError.InvalidPlan "offset overflow"))
        | Some offset' =>
            match u32_checked_add order 1 with
            | None => Some (Err (ObjectFormatError.InvalidPlan "chunk order overflow"))
            | Some order' => plan_chunks_loop fuel' content_length chunk_size offset' order' acc'
            end
        end
      else Some (Ok acc)
  end.

(** The number of iterations of the loop: one per started chunk. *)
Definition chunk_count (content_length chunk_size : Z) : Z :=
  (content_length + chunk_size - 1) / chunk_size.

Definition plan_chunks (content_length chunk_size : Z)
    : option (Result ChunkPlan ObjectFormatError.t) :=
  if chunk_size =? 0 then
    Some (Err (ObjectFormatError.InvalidPlan "chunk size must be non-zero"))
  else
    match plan_chunks_loop (S (Z.to_nat (chunk_count content_length chunk_size)))
            content_length chunk_size 0 0 [] with
    | None => None
    | Some (Err e) => Some (Err e)
    | Some (Ok chunks) =>
        Some (Ok {| cp_chunk_size := chunk_size; cp_content_length := content_length;
                    cp_chunks := chunks |})
    end.

(** ** Planning a read *)

(** The loop over [manifest.chunks] for the range [start, stop). *)
Fixpoint read_spans (cs : list ChunkRef) (start stop : Z)
    : Result (list ReadSpan) ObjectFormatError.t :=
  match cs with
  | [] => Ok []
  | chunk :: cs' =>
      match u64_checked_add (offset chunk) (size chunk) with
      | None => Err (ObjectFormatError.InvalidRead "chunk offset overflow")
      | Some chunk_end =>
          match read_spans cs' start stop with
          | Err e => Err e
          | Ok rest =>
              if (chunk_end <=? start) || (stop <=? offset chunk) then Ok rest
              else
                let overlap_start := Z.max start (offset chunk) in
                let overlap_end := Z.min stop chunk_end in
                Ok ({| s_order := order chunk;
                       offset_within_chunk := overlap_start - offset chunk;
                       length_ := overlap_end - overlap_start;
                       s_checksum := checksum chunk |} :: rest)
          end
      end
  end.

Definition plan_read (manifest : ObjectManifest) (start stop : Z)
    : Result ReadPlan ObjectFormatError.t :=
  if stop <? start then
    Err (ObjectFormatError.InvalidRead "range start is greater than range end")
  else if content_length manifest <? stop then
    Err (ObjectFormatError.InvalidRead "range end exceeds content length")
  else
    match read_spans (chunks manifest) start stop with
    | Err e => Err e
    | Ok spans =>
        Ok {| rp_object_id := object_id manifest; rp_start := start; rp_end := stop;
              rp_chunks := spans |}
    end.

(** ** Reading a range *)

Abbreviation byte := Byte.byte.

#[export] Instance byte_eq_dec : EqDecision byte := Stdlib.Strings.Byte.byte_eq_dec.

(** What a call does: it writes bytes, fails, or panics (slicing past the end
    of a short plaintext). *)
Inductive ReadOutcome : Type :=
| Written (bytes : list byte)
| Failed (error : ObjectFormatError.t)
| Panicked.

(** [&plaintext[start..end]] *)
Definition slice (l : list byte) (start stop : Z) : option (list byte) :=
  if (start <=? stop) && (stop <=? Z.of_nat (length l))
  then Some (take (Z.to_nat (stop - start)) (drop (Z.to_nat start) l))
  else None.

Section Reading.
(** [download_message_bytes], the chunk cipher's [decrypt_chunk] and
    [sha256_hex]. *)
Context (download : string -> Z -> Result (list byte) ObjectFormatError.t).
Context (decrypt_chunk : Uuid -> Z -> list byte -> Result (list byte) ObjectFormatError.t).
Context (sha256_hex : list byte -> string).

(** The body of the loop over [plan.chunks] in [read_range_to_writer]. *)
Definition read_span (manifest : ObjectManifest) (span : ReadSpan) : ReadOutcome :=
  match chunks manifest !! Z.to_nat (s_order span) with
  | None => Failed (ObjectFormatError.MissingChunk (object_id manifest) (s_order span))
  | Some chunk =>
      if (telegram_message_id chunk <? - I32_MAX - 1) || (I32_MAX <? telegram_message_id chunk)
      then Failed (ObjectFormatError.InvalidRead
                    ("telegram message id out of range for chunk " +:+ pretty (order chunk)))
      else
        match download (telegram_peer_id chunk) (telegram_message_id chunk) with
        | Err e => Failed e
        | Ok ciphertext =>
            match (if enabled (encryption manifest)
                   then let (o, n) := payload_identity chunk (object_id manifest) in
                        decrypt_chunk o n ciphertext
                   else Ok ciphertext) with
            | Err e => Failed e
            | Ok plaintext =>
                if negb (bool_decide (sha256_hex plaintext = checksum chunk))
                then Failed (ObjectFormatError.ChecksumMismatch ("chunk " +:+ pretty (order chunk))
                               (checksum chunk) (sha256_hex plaintext))
                else match slice plaintext (offset_within_chunk span)
                             (offset_within_chunk span + length_ span) with
                     | Some bytes => Written bytes
                     | None => Panicked
                     end
            end
        end
  end.

Fixpoint read_spans_out (manifest : ObjectManifest) (spans : list ReadSpan) : ReadOutcome :=
  match spans with
  | [] => Written []
  | span :: spans' =>
      match read_span manifest span with
      | Written bytes =>
          match read_spans_out manifest spans' with
          | Written rest => Written (bytes ++ rest)
          | other => other
          end
      | other => other
      end
  end.

(** [read_range_to_writer]; [active] is what [get_active_manifest] returned
    for the bucket and the key. *)
Definition read_range_to_writer (bkt k : string) (active : option ObjectManifest)
    (now : OffsetDateTime) (start stop : Z) : ReadOutcome :=
  match active with
  | None => Failed (ObjectFormatError.InvalidRead ("object not found: " +:+ bkt +:+ "/" +:+ k))
  | Some manifest =>
      if negb (bool_decide (commit_state manifest = CommitState.Committed))
      then Failed (ObjectFormatError.InvalidRead ("object is not committed: " +:+ bkt +:+ "/" +:+ k))
      else if is_expired manifest now
      then Failed (ObjectFormatError.InvalidRead ("object not found: " +:+ bkt +:+ "/" +:+ k))
      else match plan_read manifest start stop with
           | Err e => Failed e
           | Ok plan => read_spans_out manifest (rp_chunks plan)
           end
  end.
End Reading.

(** ** Lemmas on planning *)

Definition plan_sizes (ps : list PlannedChunk) : Z := sql_sum p_size ps.

(** The planned chunks up to [off], in the middle of the loop. *)
Record plan_prefix (chunk_size off n : Z) (ps : list PlannedChunk) : Prop := {
  pp_count : Z.of_nat (length ps) = n;
  pp_total : plan_sizes ps = off;
  pp_tile : forall i p, ps !! i = Some p ->
    p_order p = Z.of_nat i /\ p_offset p = Z.of_nat i * chunk_size /\
    p_offset p = plan_sizes (take i ps) /\ 0 < p_size p <= chunk_size
}.

Lemma plan_prefix_step chunk_size off n ps size :
  plan_prefix chunk_size off n ps -> off = n * chunk_size -> 0 < size <= chunk_size ->
  plan_prefix chunk_size (off + size) (n + 1)
    (ps ++ [{| p_order := n; p_offset := off; p_size := size |}]).
Proof.
  intros [Hc Ht Hp] Hoff Hsz. unfold plan_sizes in *. split.
  - rewrite length_app. simpl. lia.
  - unfold plan_sizes. rewrite sql_sum_app. simpl. lia.
  - intros i p Hi. apply lookup_app_Some in Hi as [Hi|[Hge Hi]].
    + rewrite take_app_le by (apply lookup_lt_Some in Hi; lia). by apply Hp.
    + destruct (i - length ps)%nat eqn:E; simpl in Hi; [|done]. simplify_eq. simpl.
      assert (i = length ps) as -> by lia. rewrite take_app_length. unfold plan_sizes. lia.
Qed.

Lemma chunk_count_pos cl sz k : 0 < sz -> 0 <= k -> k * sz < cl -> k < chunk_count cl sz.
Proof.
  intros Hs Hk Hlt. unfold chunk_count. apply Z.lt_le_trans with (k + 1); [lia|].
  apply Z.div_le_lower_bound; nia.
Qed.

Lemma chunk_count_ge cl sz k : 0 < sz -> cl <= k * sz -> chunk_count cl sz <= k.
Proof.
  intros Hs Hle. unfold chunk_count. apply Z.lt_succ_r.
  apply Z.div_lt_upper_bound; nia.
Qed.

(** From the [n]-th iteration on, with the fuel the remaining chunks need, the
    loop returns: the whole plan, or the order overflow. *)
Lemma plan_chunks_loop_spec cl sz fuel off n acc :
  0 < sz -> 0 <= cl <= U64_MAX -> 0 <= n <= U32_MAX ->
  plan_prefix sz off n acc -> off = Z.min (n * sz) cl ->
  (Z.to_nat (chunk_count cl sz - n) < fuel)%nat -> n <= chunk_count cl sz ->
  if chunk_count cl sz <=? U32_MAX then
    exists ps, plan_chunks_loop fuel cl sz off n acc = Some (Ok ps) /\
               plan_prefix sz cl (chunk_count cl sz) ps
  else plan_chunks_loop fuel cl sz off n acc
       = Some (Err (ObjectFormatError.InvalidPlan "chunk order overflow")).
Proof.
  intros Hsz Hcl. revert off n acc. induction fuel as [|fuel IH]; intros off n acc Hn Hpre Hoff Hf Hc;
    [lia|]. simpl. destruct (Z.ltb_spec off cl) as [Hlt|Hge].
  - assert (off = n * sz) as Hoff' by lia.
    pose proof (chunk_count_pos cl sz n Hsz ltac:(lia) ltac:(lia)) as Hcnt.
    assert (u64_checked_add off (Z.min (cl - off) sz) = Some (off + Z.min (cl - off) sz)) as ->.
    { unfold u64_checked_add. destruct (Z.leb_spec (off + Z.min (cl - off) sz) U64_MAX); [done|lia]. }
    unfold u32_checked_add. destruct (Z.leb_spec (n + 1) U32_MAX) as [Ho|Ho].
    + apply IH; [lia| |nia|lia|lia].
      apply plan_prefix_step; [done|done|lia].
    + destruct (Z.leb_spec (chunk_count cl sz) U32_MAX); [lia|done].
  - assert (chunk_count cl sz = n) as Heq.
    { apply Z.le_antisymm; [apply chunk_count_ge; lia|lia]. }
    rewrite Heq. destruct (Z.leb_spec n U32_MAX); [|lia]. exists acc. split; [done|].
    replace cl with off by lia. done.
Qed.

Lemma plan_chunks_cases cl sz :
  0 < sz -> 0 <= cl <= U64_MAX ->
  if chunk_count cl sz <=? U32_MAX then
    exists ps, plan_chunks cl sz = Some (Ok {| cp_chunk_size := sz; cp_content_length := cl;
                                               cp_chunks := ps |}) /\
               plan_prefix sz cl (chunk_count cl sz) ps
  else plan_chunks cl sz = Some (Err (ObjectFormatError.InvalidPlan "chunk order overflow")).
Proof.
  intros Hsz Hcl. unfold plan_chunks. destruct (Z.eqb_spec sz 0); [lia|].
  assert (0 <= chunk_count cl sz) as Hpos by (apply Z.div_pos; lia).
  pose proof (plan_chunks_loop_spec cl sz (S (Z.to_nat (chunk_count cl sz))) 0 0 [] Hsz Hcl) as H.
  destruct (Z.leb_spec (chunk_count cl sz) U32_MAX).
  - destruct H as (ps & -> & Hps); [unfold U32_MAX; lia| |lia|lia|lia|].
    { split; [done|done|by intros i p]. }
    by exists ps.
  - rewrite H; [done|unfold U32_MAX; lia| |lia|lia|lia]. split; [done|done|by intros i p].
Qed.

(** ** Lemmas on reading *)

(** The bytes [start, stop) of [l], clamped to [l]. *)
Definition range_of (start stop : Z) (l : list byte) : list byte :=
  drop (Z.to_nat start) (take (Z.to_nat stop) l).

Lemma range_of_app start stop l k :
  range_of start stop (l ++ k) =
  range_of start stop l
    ++ range_of (start - Z.of_nat (length l)) (stop - Z.of_nat (length l)) k.
Proof.
  unfold range_of. rewrite take_app, drop_app, length_take. f_equal.
  destruct (decide (Z.to_nat stop <= length l)%nat).
  - replace (Z.to_nat (stop - Z.of_nat (length l))) with 0%nat by lia.
    replace (Z.to_nat stop - length l)%nat with 0%nat by lia.
    by rewrite !take_0, !drop_nil.
  - rewrite Nat.min_r by lia. f_equal; [lia|]. f_equal. lia.
Qed.

Lemma range_of_empty start stop l :
  stop <= 0 \/ stop <= start \/ Z.of_nat (length l) <= start -> range_of start stop l = [].
Proof.
  intros H. unfold range_of. apply nil_length_inv. rewrite length_drop, length_take. lia.
Qed.

Lemma slice_range l start stop :
  0 <= start <= stop -> stop <= Z.of_nat (length l) ->
  slice l start stop = Some (range_of start stop l).
Proof.
  intros Hs Hl. unfold slice, range_of.
  destruct (Z.leb_spec start stop); [|lia].
  destruct (Z.leb_spec stop (Z.of_nat (length l))); [|lia]. simpl. f_equal.
  rewrite take_drop_commute. f_equal. f_equal. lia.
Qed.

(** The bytes the spans select in the chunk contents [bs]. *)
Fixpoint spans_data (bs : list (list byte)) (spans : list ReadSpan) : option (list byte) :=
  match spans with
  | [] => Some []
  | sp :: rest =>
      b ← bs !! Z.to_nat (s_order sp);
      x ← slice b (offset_within_chunk sp) (offset_within_chunk sp + length_ sp);
      y ← spans_data bs rest;
      Some (x ++ y)
  end.

Definition fits (c : ChunkRef) (b : list byte) : Prop := Z.of_nat (length b) = size c.

Lemma as_u32_small n : 0 <= n <= U32_MAX -> as_u32 n = n.
Proof. intros H. unfold as_u32. apply Z.mod_small. unfold U32_MAX in *. lia. Qed.

(** The planned spans of contiguous chunks select the requested bytes. *)
Lemma read_spans_data pre off cs bs start stop :
  Forall2 fits cs bs -> Forall (fun c => 0 < size c) cs ->
  tile_from (Z.of_nat (length pre)) off cs ->
  0 <= off -> off + total_size cs <= U64_MAX ->
  Z.of_nat (length pre + length cs) <= U32_MAX + 1 -> 0 <= start <= stop ->
  exists spans, read_spans cs start stop = Ok spans /\
    spans_data (pre ++ bs) spans = Some (range_of (start - off) (stop - off) (concat bs)).
Proof.
  intros HF. revert pre off. induction HF as [|c b cs bs Hfit HF IH];
    intros pre off Hp Htile Hoff Hmax Hlen Hrange.
  - exists []. split; [done|]. unfold range_of. simpl. by rewrite take_nil, drop_nil.
  - inversion Hp as [|? ? Hsz Hp']; subst. apply tile_from_cons in Htile as [[Hord Ho] Htile].
    unfold total_size in *. simpl in *. unfold fits in Hfit.
    assert (0 <= sql_sum size cs) as Hnn.
    { apply sql_sum_nonneg. intros r Hr. apply list_elem_of_In in Hr.
      rewrite Forall_forall in Hp'. specialize (Hp' r Hr). simpl in Hp'. lia. }
    destruct (IH (pre ++ [b]) (off + size c)) as (spans & Hsp & Hdata); auto; try lia.
    { rewrite length_app. simpl. by replace (Z.of_nat (length pre + 1)) with
        (Z.of_nat (length pre) + 1) by lia. }
    { rewrite length_app. simpl. lia. }
    rewrite <- app_assoc in Hdata. simpl in Hdata.
    unfold u64_checked_add. destruct (Z.leb_spec (offset c + size c) U64_MAX); [|lia].
    rewrite Hsp. rewrite range_of_app, Hfit.
    replace (start - off - size c) with (start - (off + size c)) by lia.
    replace (stop - off - size c) with (stop - (off + size c)) by lia.
    destruct ((offset c + size c <=? start) || (stop <=? offset c)) eqn:Eskip.
    + exists spans. split; [done|]. rewrite Hdata. f_equal.
      rewrite (range_of_empty (start - off) (stop - off) b); [done|].
      apply orb_true_iff in Eskip as [E|E]; apply Z.leb_le in E; lia.
    + apply orb_false_iff in Eskip as [E1 E2]. apply Z.leb_gt in E1, E2.
      eexists. split; [done|]. simpl. rewrite Hord, as_u32_small by lia.
      rewrite Nat2Z.id. rewrite list_lookup_middle by done. simpl.
      rewrite slice_range by lia. simpl. rewrite Hdata. simpl. do 2 f_equal.
      unfold range_of. f_equal; [lia|].
      destruct (decide (stop <= offset c + size c)).
      * f_equal. lia.
      * rewrite !take_ge by lia. done.
Qed.

Section ReadingFacts.
Context (download : string -> Z -> Result (list byte) ObjectFormatError.t).
Context (decrypt_chunk : Uuid -> Z -> list byte -> Result (list byte) ObjectFormatError.t).
Context (sha256_hex : list byte -> string).

(** Telegram holds the chunk [c] with content [b]. *)
Definition chunk_available (m : ObjectManifest) (c : ChunkRef) (b : list byte) : Prop :=
  - I32_MAX - 1 <= telegram_message_id c <= I32_MAX /\
  exists ct, download (telegram_peer_id c) (telegram_message_id c) = Ok ct /\
    (if enabled (encryption m)
     then let (o, n) := payload_identity c (object_id m) in decrypt_chunk o n ct
     else Ok ct) = Ok b /\
    sha256_hex b = checksum c.

Lemma read_spans_out_available m bs spans out :
  Forall2 (chunk_available m) (chunks m) bs -> spans_data bs spans = Some out ->
  read_spans_out download decrypt_chunk sha256_hex m spans = Written out.
Proof.
  intros HF. revert out. induction spans as [|sp spans IH]; intros out; simpl; [by intros [= <-]|].
  intros H. destruct (bs !! Z.to_nat (s_order sp)) as [b|] eqn:Eb; simpl in H; [|done].
  destruct (slice b _ _) as [x|] eqn:Ex; simpl in H; [|done].
  destruct (spans_data bs spans) as [y|] eqn:Ey; simpl in H; [|done]. simplify_eq.
  destruct (Forall2_lookup_r _ _ _ _ _ HF Eb) as (c & Hc & [Hid (ct & Hd & Hdec & Hsha)]).
  rewrite (IH y eq_refl). unfold read_span. rewrite Hc.
  destruct (Z.ltb_spec (telegram_message_id c) (- I32_MAX - 1)); [lia|].
  destruct (Z.ltb_spec I32_MAX (telegram_message_id c)); [lia|]. cbn [orb].
  rewrite Hd, Hdec, Hsha, bool_decide_eq_true_2 by done. cbn [negb]. by rewrite Ex.
Qed.

(** The only plaintext with the checksum of [c] is [b]. *)
Definition checksum_identifies (c : ChunkRef) (b : list byte) : Prop :=
  forall p, sha256_hex p = checksum c -> p = b.

Lemma read_spans_out_integrity m bs spans out :
  Forall2 checksum_identifies (chunks m) bs ->
  read_spans_out download decrypt_chunk sha256_hex m spans = Written out ->
  spans_data bs spans = Some out.
Proof.
  intros HF. revert out. induction spans as [|sp spans IH]; intros out; simpl; [by intros [= <-]|].
  intros H. destruct (read_span _ _ _ m sp) as [x| |] eqn:Ex; try done.
  destruct (read_spans_out _ _ _ m spans) as [y| |] eqn:Ey; try done. simplify_eq.
  rewrite (IH y eq_refl). unfold read_span in Ex.
  destruct (chunks m !! Z.to_nat (s_order sp)) as [c|] eqn:Ec; [|done].
  destruct (Forall2_lookup_l _ _ _ _ _ HF Ec) as (b & Hb & Hid). rewrite Hb. simpl.
  destruct ((_ <? _) || _); [done|]. destruct (download _ _) as [ct|]; [|done].
  match type of Ex with match ?r with _ => _ end = _ => destruct r as [p|]; [|done] end.
  destruct (negb _) eqn:Eh; [done|]. apply negb_false_iff, bool_decide_eq_true_1 in Eh.
  apply Hid in Eh as ->. by destruct (slice b _ _); simplify_eq.
Qed.
End ReadingFacts.

Lemma wf_plan_read m bs start stop :
  manifest_typed m -> validate m = Ok tt -> Forall2 fits (chunks m) bs ->
  Z.of_nat (length (chunks m)) <= U32_MAX + 1 -> 0 <= start <= stop -> stop <= content_length m ->
  exists plan, plan_read m start stop = Ok plan /\
    spans_data bs (rp_chunks plan) = Some (range_of start stop (concat bs)).
Proof.
  intros Hty Hv HF Hn Hrange Hend. apply validate_wf in Hv as [_ Hw Htile Htot]; [|done].
  destruct Hty as [Hlen Hty]. unfold is_u64 in Hlen.
  assert (Forall (fun c => 0 < size c) (chunks m)) as Hp.
  { rewrite Forall_forall in *. intros c Hc. apply wf_size_pos; auto. }
  destruct (read_spans_data [] 0 (chunks m) bs start stop) as (spans & Hsp & Hd);
    auto; try (simpl; lia).
  unfold plan_read. destruct (Z.ltb_spec stop start); [lia|].
  destruct (Z.ltb_spec (content_length m) stop); [lia|]. rewrite Hsp. eexists. split; [done|].
  rewrite !Z.sub_0_r in Hd. done.
Qed.

(** The chunk references an upload publishes for a plan. *)
Definition planned_refs (describe : PlannedChunk -> string * string * Z)
    (ps : list PlannedChunk) : list ChunkRef :=
  map (fun p => let '(ck, peer, msg) := describe p in
    {| order := p_order p; offset := p_offset p; size := p_size p; checksum := ck;
       telegram_peer_id := peer; telegram_message_id := msg; telegram_document_id := None;
       source_object_id := None; source_chunk_order := None; replicas := [] |}) ps.

Lemma plan_prefix_bounds sz cl n ps i p :
  plan_prefix sz cl n ps -> ps !! i = Some p ->
  0 < p_size p <= sz /\ 0 <= p_order p < n /\ 0 <= p_offset p /\ p_offset p + p_size p <= cl.
Proof.
  intros [Hc Ht Hp] Hi. destruct (Hp i p Hi) as (-> & H0 & Hoff & Hsz).
  pose proof (lookup_lt_Some _ _ _ Hi). split_and!; [lia..|nia|].
  assert (cl = plan_sizes (take i ps) + p_size p + plan_sizes (drop (S i) ps)) as ->.
  { rewrite <- Ht. rewrite <- (take_drop (S i) ps) at 1. unfold plan_sizes.
    rewrite sql_sum_app, (take_S_r _ _ _ Hi), sql_sum_app. simpl. lia. }
  unfold plan_sizes in *. enough (0 <= sql_sum p_size (drop (S i) ps)) by lia. apply sql_sum_nonneg.
  intros q Hq. apply list_elem_of_In, list_elem_of_lookup in Hq as [j Hj].
  rewrite lookup_drop in Hj. destruct (Hp _ q Hj) as (_ & _ & _ & ?). lia.
Qed.

Lemma planned_refs_tile sz cl n ps describe :
  plan_prefix sz cl n ps -> n <= U32_MAX -> chunks_tile (planned_refs describe ps).
Proof.
  intros [Hc Ht Hp] Hn i c Hi. unfold planned_refs in *.
  apply list_lookup_fmap_Some in Hi as (p & -> & Hpi).
  destruct (Hp i p Hpi) as (Ho & _ & Hoff & _). pose proof (lookup_lt_Some _ _ _ Hpi).
  destruct (describe p) as [[ck peer] msg] eqn:E. simpl.
  rewrite as_u32_small by lia. split; [done|]. rewrite Hoff. unfold total_size, plan_sizes.
  rewrite <- fmap_take. clear. induction (take i ps) as [|q l IH]; simpl; [done|].
  rewrite IH. by destruct (describe q) as [[? ?] ?].
Qed.

(** Reading the chunks Telegram holds. *)
Lemma read_range_available download decrypt_chunk sha256_hex bkt k m bs now start stop :
  manifest_typed m -> validate m = Ok tt ->
  commit_state m = CommitState.Committed -> is_expired m now = false ->
  Z.of_nat (length (chunks m)) <= U32_MAX + 1 ->
  Forall2 (fun c b => fits c b /\ chunk_available download decrypt_chunk sha256_hex m c b) (chunks m) bs ->
  0 <= start <= stop -> stop <= content_length m ->
  read_range_to_writer download decrypt_chunk sha256_hex bkt k (Some m) now start stop
  = Written (take (Z.to_nat (stop - start)) (drop (Z.to_nat start) (concat bs))).
Proof.
  intros Hty Hv Hcommitted Hlive Hn Hbs Hrange Hend.
  assert (Forall2 fits (chunks m) bs) as HF by (eapply Forall2_impl; [exact Hbs|by intros ?? []]).
  destruct (wf_plan_read m bs start stop) as (plan & Hplan & Hdata); auto.
  unfold read_range_to_writer. rewrite Hcommitted, bool_decide_eq_true_2, Hlive by done. cbn [negb].
  rewrite Hplan. rewrite (read_spans_out_available _ _ _ m bs _ _ ltac:(eapply Forall2_impl;
    [exact Hbs|by intros ?? []]) Hdata). f_equal. unfold range_of.
  rewrite take_drop_commute. do 2 f_equal. lia.
Qed.

(** ** Properties *)

(** a range read of a committed, unexpired, valid manifest whose chunks
    Telegram still holds writes exactly the bytes [start, stop) of the object,
    for every range within the content length: no byte is lost, repeated or
    taken from a neighbouring chunk. *)
Theorem read_range_exact download decrypt_chunk sha256_hex
    (bkt k : string) (m : ObjectManifest) (bs : list (list byte)) (now start stop : Z)
    (Hty : manifest_typed m) (Hv : validate m = Ok tt)
    (Hcommitted : commit_state m = CommitState.Committed) (Hlive : is_expired m now = false)
    (Hn : Z.of_nat (length (chunks m)) <= U32_MAX + 1)
    (Hbs : Forall2 (fun c b => fits c b /\
                      chunk_available download decrypt_chunk sha256_hex m c b) (chunks m) bs)
    (Hrange : 0 <= start <= stop) (Hend : stop <= content_length m) :
  read_range_to_writer download decrypt_chunk sha256_hex bkt k (Some m) now start stop
  = Written (take (Z.to_nat (stop - start)) (drop (Z.to_nat start) (concat bs))).
Proof. by apply read_range_available. Qed.

(** whatever Telegram returns (altered, swapped or truncated documents),
    a range read that completes has written exactly the stored bytes: a chunk
    whose plaintext does not have the recorded checksum is never emitted. *)
Theorem read_range_integrity download decrypt_chunk sha256_hex
    (bkt k : string) (m : ObjectManifest) (bs : list (list byte)) (now start stop : Z) (out : list byte)
    (Hty : manifest_typed m) (Hv : validate m = Ok tt)
    (Hn : Z.of_nat (length (chunks m)) <= U32_MAX + 1)
    (Hbs : Forall2 (fun c b => fits c b /\ checksum_identifies sha256_hex c b) (chunks m) bs)
    (Hrange : 0 <= start)
    (Hout : read_range_to_writer download decrypt_chunk sha256_hex bkt k (Some m) now start stop
            = Written out) :
  out = take (Z.to_nat (stop - start)) (drop (Z.to_nat start) (concat bs)).
Proof.
  unfold read_range_to_writer in Hout. destruct (negb _); [done|]. destruct (is_expired m now); [done|].
  destruct (plan_read m start stop) as [plan|] eqn:Hplan; [|done].
  assert (0 <= start <= stop /\ stop <= content_length m) as [Hr He].
  { unfold plan_read in Hplan. crush_match. bool_hyps. lia. }
  assert (Forall2 fits (chunks m) bs) as HF by (eapply Forall2_impl; [exact Hbs|by intros ?? []]).
  destruct (wf_plan_read m bs start stop) as (plan' & Hplan' & Hdata); auto.
  apply (read_spans_out_integrity _ _ _ m bs) in Hout;
    [|eapply Forall2_impl; [exact Hbs|by intros ?? []]].
  assert (plan' = plan) as -> by congruence.
  rewrite Hdata in Hout. simplify_eq. unfold range_of. rewrite take_drop_commute. do 2 f_equal. lia.
Qed.

(** for every [u64] length and non-zero chunk size [plan_chunks] returns.
    When ceil(length/size) fits a [u32] the plan has exactly that many chunks;
    chunk [i] has order [i] and offset [i * size], no chunk is empty or larger
    than the chunk size, and the sizes sum to the length.  Otherwise the order
    counter overflows and the plan is refused. *)
Theorem plan_chunks_complete (cl sz : Z) (Hsz : 0 < sz) (Hcl : is_u64 cl) :
  if chunk_count cl sz <=? U32_MAX then
    exists ps, plan_chunks cl sz
      = Some (Ok {| cp_chunk_size := sz; cp_content_length := cl; cp_chunks := ps |}) /\
      Z.of_nat (length ps) = chunk_count cl sz /\ plan_sizes ps = cl /\
      forall i p, ps !! i = Some p ->
        p_order p = Z.of_nat i /\ p_offset p = Z.of_nat i * sz /\ 0 < p_size p <= sz
  else plan_chunks cl sz = Some (Err (ObjectFormatError.InvalidPlan "chunk order overflow")).
Proof.
  pose proof (plan_chunks_cases cl sz Hsz Hcl) as H.
  destruct (chunk_count cl sz <=? U32_MAX); [|done].
  destruct H as (ps & Hps & [Hc Ht Hp]). exists ps. split_and!; [done..|].
  intros i p Hi. destruct (Hp i p Hi) as (? & ? & _ & ?). auto.
Qed.

(** the chunks [plan_chunks] lays out, published with any non-blank
    checksums and peers, give a manifest [validate] accepts: an upload staged
    from a plan is never rejected for its layout. *)
Theorem planned_upload_validates (m : ObjectManifest) (cl sz : Z) (plan : ChunkPlan)
    (describe : PlannedChunk -> string * string * Z)
    (Hsz : 0 < sz <= U64_MAX) (Hcl : is_u64 cl) (Hplan : plan_chunks cl sz = Some (Ok plan))
    (Hh : header_wf m) (Hlen : content_length m = cl)
    (Hchunks : chunks m = planned_refs describe (cp_chunks plan))
    (Hd : forall p, trim_is_empty (describe p).1.1 = false /\ trim_is_empty (describe p).1.2 = false) :
  validate m = Ok tt.
Proof.
  pose proof (plan_chunks_cases cl sz ltac:(lia) Hcl) as H.
  destruct (Z.leb_spec (chunk_count cl sz) U32_MAX) as [Hle|]; [|congruence].
  destruct H as (ps & Hps & Hpre). rewrite Hps in Hplan. simplify_eq. simpl in Hchunks.
  assert (Forall (fun c => chunk_typed c /\ chunk_wf c) (chunks m)) as Hboth.
  { rewrite Hchunks. unfold planned_refs. apply Forall_forall. intros c Hc.
    apply list_elem_of_fmap in Hc as (p & -> & [i Hi]%list_elem_of_lookup).
    destruct (plan_prefix_bounds _ _ _ _ _ _ Hpre Hi) as (Hs & Ho & Hoff). destruct (Hd p) as [Hd1 Hd2].
    destruct (describe p) as [[ck peer] msg]. simpl in *. unfold chunk_typed, is_u32, is_u64 in *.
    simpl. split; [lia|]. split; simpl; try done; lia. }
  apply validate_wf.
  - split; [done|]. eapply Forall_impl; [exact Hboth|by intros ? []].
  - split; [done| | |].
    + eapply Forall_impl; [exact Hboth|by intros ? []].
    + rewrite Hchunks. by eapply planned_refs_tile.
    + rewrite Hchunks. destruct Hpre as [_ <- _]. unfold total_size, plan_sizes, planned_refs.
      clear. induction ps as [|q l IH]; simpl; [done|]. rewrite IH.
      by destruct (describe q) as [[? ?] ?].
Qed.

(** on a valid manifest [plan_read] fails exactly on the ranges that are
    reversed or end past the object. *)
Theorem plan_read_rejects_only_bad_ranges (m : ObjectManifest) (start stop : Z)
    (Hty : manifest_typed m) (Hv : validate m = Ok tt)
    (Hn : Z.of_nat (length (chunks m)) <= U32_MAX + 1) (Hs : 0 <= start) :
  is_ok (plan_read m start stop) = true <-> start <= stop <= content_length m.
Proof.
  split.
  - unfold plan_read. intros H. crush_match; bool_hyps; lia.
  - intros Hr. destruct (wf_plan_read m (map (fun c => replicate (Z.to_nat (size c)) Byte.x78) (chunks m))
      start stop) as (plan & -> & _); auto; try lia.
    apply Forall2_fmap_r, Forall_Forall2_diag, Forall_forall. intros c Hc. unfold fits.
    unfold compose. rewrite length_replicate. destruct Hty as [_ Hty]. rewrite Forall_forall in Hty.
    destruct (Hty c Hc) as (_ & _ & ?). unfold is_u64 in *. lia.
Qed.

(** ** Witnesses *)

Definition sample_data : list (list byte) :=
  [replicate 10 Byte.x61; replicate 10 Byte.x62; replicate 5 Byte.x63].

Definition committed_sample : ObjectManifest :=
  (sample_manifest "o" "b" "k") <| commit_state := CommitState.Committed |>.

(** A store that returns each chunk's bytes under its message id. *)
Definition sample_download (_ : string) (msg : Z) : Result (list byte) ObjectFormatError.t :=
  match sample_data !! Z.to_nat (msg - 10) with
  | Some b => Ok b
  | None => Err (ObjectFormatError.Io "no such message")
  end.

Definition no_decrypt (_ : Uuid) (_ : Z) (b : list byte) : Result (list byte) ObjectFormatError.t :=
  Ok b.

Lemma committed_sample_typed : manifest_typed committed_sample.
Proof. exact (sample_manifest_typed "o" "b" "k"). Qed.

Lemma read_range_exact_witness :
  read_range_to_writer sample_download no_decrypt (fun _ => "c0ffee") "b" "k" (Some committed_sample) 7 5 22
  = Written (replicate 5 Byte.x61 ++ replicate 10 Byte.x62 ++ replicate 2 Byte.x63).
Proof.
  rewrite (read_range_exact sample_download no_decrypt (fun _ => "c0ffee") "b" "k" committed_sample
             sample_data 7 5 22 committed_sample_typed); try reflexivity.
  - simpl. unfold U32_MAX. lia.
  - repeat constructor; simpl; unfold I32_MAX; try lia; eexists; split_and!; reflexivity.
  - lia.
  - change (22 <= 25). lia.
Defined.

(** A checksum that tells the three sample chunks apart from everything else. *)
Definition sample_sha (b : list byte) : string :=
  if bool_decide (b = replicate 10 Byte.x61) then "c0ffee" else "other".

Definition one_chunk_sample : ObjectManifest :=
  committed_sample <| content_length := 10 |> <| chunks := [sample_chunk 0 0 10] |>.

Lemma one_chunk_sample_typed : manifest_typed one_chunk_sample.
Proof.
  unfold manifest_typed, chunk_typed, is_u32, is_u64, U32_MAX, U64_MAX; simpl.
  repeat constructor; simpl; lia.
Qed.

Lemma read_range_integrity_witness :
  let out := replicate 4 Byte.x61 in
  read_range_to_writer sample_download no_decrypt sample_sha "b" "k" (Some one_chunk_sample) 7 2 6
    = Written out /\
  out = take 4 (drop 2 (replicate 10 Byte.x61)).
Proof.
  intros out. split; [reflexivity|].
  rewrite (read_range_integrity sample_download no_decrypt sample_sha "b" "k" one_chunk_sample
             [replicate 10 Byte.x61] 7 2 6 out one_chunk_sample_typed); try reflexivity; try done.
  constructor; [|constructor]. split; [reflexivity|]. intros p. unfold sample_sha. simpl.
  case_bool_decide; [done|discriminate].
Defined.

Lemma plan_chunks_complete_witness :
  exists ps, plan_chunks 25 10
    = Some (Ok {| cp_chunk_size := 10; cp_content_length := 25; cp_chunks := ps |}) /\
    Z.of_nat (length ps) = 3.
Proof.
  assert (0 < 10) as H1 by lia.
  assert (is_u64 25) as H2 by (unfold is_u64, U64_MAX; lia).
  destruct (plan_chunks_complete 25 10 H1 H2) as (ps & H & Hn & _). exists ps. split; [exact H|].
  exact Hn.
Defined.

Definition planned_25 : ChunkPlan :=
  {| cp_chunk_size := 10; cp_content_length := 25;
     cp_chunks := [{| p_order := 0; p_offset := 0; p_size := 10 |};
                   {| p_order := 1; p_offset := 10; p_size := 10 |};
                   {| p_order := 2; p_offset := 20; p_size := 5 |}] |}.

Lemma planned_upload_validates_witness :
  validate ((sample_manifest "o" "b" "k")
    <| chunks := planned_refs (fun _ => ("sum", "peer", 0)) (cp_chunks planned_25) |>) = Ok tt.
Proof.
  apply (planned_upload_validates _ 25 10 planned_25 (fun _ => ("sum", "peer", 0)));
    try reflexivity.
  - unfold U64_MAX. lia.
  - unfold is_u64, U64_MAX. lia.
  - split; try reflexivity; discriminate.
  - intros p. split; reflexivity.
Defined.

Lemma plan_read_rejects_only_bad_ranges_witness :
  is_ok (plan_read (sample_manifest "o" "b" "k") 3 26) = true <-> 3 <= 26 <= 25.
Proof.
  apply (plan_read_rejects_only_bad_ranges (sample_manifest "o" "b" "k") 3 26
           (sample_manifest_typed "o" "b" "k")); [reflexivity|simpl; unfold U32_MAX; lia|lia].
Defined.
