(* ===== verification/Schema.v ===== *)
(** * The metadata database ([src/src/metadata/schema.rs], [metadata.rs],
      [metadata/rows.rs], [multipart.rs])

    One record per table row and the record [Db] of all modelled tables, at
    schema version 25, with the error-and-state monad [M] in which the store's
    operations run.  A [TEXT] column that only ever holds one of a fixed set of
    literals is an inductive type; a JSON column holds the value it
    serialises.  A table keyed by its primary key and never scanned in row
    order is a [gmap]; a table scanned in row order is the list of its rows. *)

From S2P Require Import Prelude Errors Manifest.

Definition SCHEMA_VERSION : Z := 25.

(** ** Column types *)

Module OperationKind.
Inductive t : Type := Put | Delete | Rebuild | Repair | GarbageCollect.

Definition as_str (self : t) : string :=
  match self with
  | Put => "put"
  | Delete => "delete"
  | Rebuild => "rebuild"
  | Repair => "repair"
  | GarbageCollect => "garbage_collect"
  end.

Definition from_str (value : string) : Result t MetadataError :=
  if bool_decide (value = "put") then Ok Put
  else if bool_decide (value = "delete") then Ok Delete
  else if bool_decide (value = "rebuild") then Ok Rebuild
  else if bool_decide (value = "repair") then Ok Repair
  else if bool_decide (value = "garbage_collect") then Ok GarbageCollect
  else Err (InvalidOperationKind value).
End OperationKind.

(** [transfer_jobs.state] *)
Module JobState.
Inductive t : Type :=
| Receiving
| Queued
| RetryWait
| Uploading
| Committing
| RecoveryRequired
| Completed
| Cleaned
| Cancelled
| ReceptionFailed
| Superseded.

#[export] Instance t_eq_dec : EqDecision t.
Proof. solve_decision. Defined.
End JobState.
Export (hints) JobState.

(** [transfer_send_attempts.state] *)
Module AttemptState.
Inductive t : Type := Sending | Unknown | Checkpointed | Retryable.

#[export] Instance t_eq_dec : EqDecision t.
Proof. solve_decision. Defined.
End AttemptState.
Export (hints) AttemptState.

(** [cleanup_targets.state] and [cleanup_targets.target_kind] *)
Module CleanupState.
Inductive t : Type := Pending | Running | RetryWait | RecoveryRequired | Completed.

#[export] Instance t_eq_dec : EqDecision t.
Proof. solve_decision. Defined.
End CleanupState.
Export (hints) CleanupState.

Module TargetKind.
Inductive t : Type := Evidence | Message.

#[export] Instance t_eq_dec : EqDecision t.
Proof. solve_decision. Defined.
End TargetKind.
Export (hints) TargetKind.

(** [operation_journal.state] *)
Module JournalState.
Inductive t : Type := Staging | Committed | Tombstoned | Cancelled.

#[export] Instance t_eq_dec : EqDecision t.
Proof. solve_decision. Defined.
End JournalState.
Export (hints) JournalState.

(** [MultipartState] of [src/src/multipart.rs]. *)
Module MultipartState.
Inductive t : Type :=
| Initiated
| Uploading
| Completing
| Completed
| Aborted
| RecoveryRequired
| Quarantined.

Definition as_str (self : t) : string :=
  match self with
  | Initiated => "initiated"
  | Uploading => "uploading"
  | Completing => "completing"
  | Completed => "completed"
  | Aborted => "aborted"
  | RecoveryRequired => "recovery_required"
  | Quarantined => "quarantined"
  end.

#[export] Instance t_eq_dec : EqDecision t.
Proof. solve_decision. Defined.
End MultipartState.
Export (hints) MultipartState.

(** ** Values stored as JSON *)

Record TransferWriteConditionals : Type := {
  if_match : option string;
  if_none_match : option string
}.

Record JournalDetails : Type := {
  jd_operation_id : string;
  jd_object_id : string;
  jd_bucket : string;
  jd_object_key : string;
  jd_operation_kind : OperationKind.t;
  jd_state : JournalState.t;
  jd_reason : option string
}.

Record MultipartSession : Type := {
  ms_upload_id : Uuid;
  ms_bucket : string;
  ms_key : string;
  ms_version_id : option string;
  ms_content_type : string;
  ms_checksum_algorithm : string;
  ms_expires_at : option OffsetDateTime;
  ms_state : MultipartState.t;
  ms_created_at : OffsetDateTime;
  ms_updated_at : OffsetDateTime
}.

#[export] Instance eta_MultipartSession : Eta MultipartSession := fun r =>
  {| ms_upload_id := ms_upload_id r; ms_bucket := ms_bucket r; ms_key := ms_key r;
     ms_version_id := ms_version_id r; ms_content_type := ms_content_type r;
     ms_checksum_algorithm := ms_checksum_algorithm r; ms_expires_at := ms_expires_at r;
     ms_state := ms_state r; ms_created_at := ms_created_at r;
     ms_updated_at := ms_updated_at r |}.

Record MultipartPart : Type := {
  p_upload_id : Uuid;
  p_part_number : Z;
  part_size : Z;
  p_checksum : string;
  p_e_tag : string;
  p_telegram : TelegramLocation;
  p_manifest : option ObjectManifest;
  p_created_at : OffsetDateTime
}.

(** ** Rows *)

Record BucketRow : Type := {
  bk_connection_id : string;
  bk_created_at : string;
  bk_deleted_at : option string;
  bk_versioning_enabled : bool;
  bk_object_locking_enabled : bool
}.

#[export] Instance eta_BucketRow : Eta BucketRow := fun r =>
  {| bk_connection_id := bk_connection_id r; bk_created_at := bk_created_at r;
     bk_deleted_at := bk_deleted_at r; bk_versioning_enabled := bk_versioning_enabled r;
     bk_object_locking_enabled := bk_object_locking_enabled r |}.

Record ManifestRow : Type := {
  om_connection_id : string;
  om_bucket : string;
  om_object_key : string;
  om_version_id : option string;
  om_commit_state : CommitState.t;
  om_manifest : ObjectManifest;
  om_created_at : string;
  om_committed_at : option string;
  om_tombstoned_at : option string
}.

#[export] Instance eta_ManifestRow : Eta ManifestRow := fun r =>
  {| om_connection_id := om_connection_id r; om_bucket := om_bucket r;
     om_object_key := om_object_key r; om_version_id := om_version_id r;
     om_commit_state := om_commit_state r; om_manifest := om_manifest r;
     om_created_at := om_created_at r; om_committed_at := om_committed_at r;
     om_tombstoned_at := om_tombstoned_at r |}.

Record ActiveRow : Type := {
  ao_object_id : string;
  ao_updated_at : string
}.

Record JournalRow : Type := {
  oj_object_id : string;
  oj_bucket : string;
  oj_object_key : string;
  oj_operation_kind : OperationKind.t;
  oj_state : JournalState.t;
  oj_details : JournalDetails;
  oj_error : option string;
  oj_created_at : string;
  oj_updated_at : string
}.

#[export] Instance eta_JournalRow : Eta JournalRow := fun r =>
  {| oj_object_id := oj_object_id r; oj_bucket := oj_bucket r;
     oj_object_key := oj_object_key r; oj_operation_kind := oj_operation_kind r;
     oj_state := oj_state r; oj_details := oj_details r; oj_error := oj_error r;
     oj_created_at := oj_created_at r; oj_updated_at := oj_updated_at r |}.

(** [details_json] is a journal entry for a staging marker and verifier text
    for an object marker. *)
Inductive MarkerDetails : Type :=
| JournalMarker (details : JournalDetails)
| ObjectMarker (details : string).

Record MarkerRow : Type := {
  rm_object_id : string;
  rm_bucket : string;
  rm_object_key : string;
  rm_marker_state : string;
  rm_details : MarkerDetails;
  rm_created_at : string;
  rm_updated_at : string
}.

Record TransferRow : Type := {
  tj_sequence : Z;
  tj_id : string;
  tj_object_id : string;
  tj_connection_id : string;
  tj_operation_id : option string;
  tj_bucket : string;
  tj_object_key : string;
  tj_state : JobState.t;
  tj_bytes : Z;
  tj_chunks_done : Z;
  tj_chunks_total : Z;
  tj_attempts : Z;
  tj_next_retry : Z;
  tj_lease : option string;
  tj_lease_until : Z;
  tj_write_conditionals : option TransferWriteConditionals;
  tj_error : option string;
  tj_created_at : Z;
  tj_updated_at : Z
}.

#[export] Instance eta_TransferRow : Eta TransferRow := fun r =>
  {| tj_sequence := tj_sequence r; tj_id := tj_id r; tj_object_id := tj_object_id r;
     tj_connection_id := tj_connection_id r; tj_operation_id := tj_operation_id r;
     tj_bucket := tj_bucket r; tj_object_key := tj_object_key r; tj_state := tj_state r;
     tj_bytes := tj_bytes r; tj_chunks_done := tj_chunks_done r;
     tj_chunks_total := tj_chunks_total r; tj_attempts := tj_attempts r;
     tj_next_retry := tj_next_retry r; tj_lease := tj_lease r;
     tj_lease_until := tj_lease_until r; tj_write_conditionals := tj_write_conditionals r;
     tj_error := tj_error r; tj_created_at := tj_created_at r;
     tj_updated_at := tj_updated_at r |}.

Record ChunkRow : Type := {
  tc_job_id : string;
  tc_chunk_order : Z;
  tc_location : TelegramLocation
}.

Record AttemptRow : Type := {
  sa_job_id : string;
  sa_chunk_order : Z;
  sa_attempt_id : string;
  sa_attempt_token : string;
  sa_state : AttemptState.t;
  sa_started_at : Z;
  sa_finished_at : option Z;
  sa_location : option TelegramLocation;
  sa_error_kind : option string;
  sa_error : option string;
  sa_retryable : bool
}.

#[export] Instance eta_AttemptRow : Eta AttemptRow := fun r =>
  {| sa_job_id := sa_job_id r; sa_chunk_order := sa_chunk_order r;
     sa_attempt_id := sa_attempt_id r; sa_attempt_token := sa_attempt_token r;
     sa_state := sa_state r; sa_started_at := sa_started_at r;
     sa_finished_at := sa_finished_at r; sa_location := sa_location r;
     sa_error_kind := sa_error_kind r; sa_error := sa_error r;
     sa_retryable := sa_retryable r |}.

Record MultipartJobRow : Type := {
  mj_job_id : string;
  mj_upload_id : string;
  mj_part_number : Z;
  mj_expected_checksum : option string
}.

Record CleanupRow : Type := {
  ct_id : Z;
  ct_object_id : string;
  ct_peer_id : string;
  ct_message_id : Z;
  ct_connection_id : string;
  ct_target_kind : TargetKind.t;
  ct_due_at : Z;
  ct_state : CleanupState.t;
  ct_attempts : Z;
  ct_next_retry : Z;
  ct_lease : option string;
  ct_lease_until : Z;
  ct_error : option string;
  ct_evidence_location : option TelegramLocation;
  ct_evidence_attempt_token : option string;
  ct_evidence_attempt_started_at : option Z;
  ct_completed : bool
}.

#[export] Instance eta_CleanupRow : Eta CleanupRow := fun r =>
  {| ct_id := ct_id r; ct_object_id := ct_object_id r; ct_peer_id := ct_peer_id r;
     ct_message_id := ct_message_id r; ct_connection_id := ct_connection_id r;
     ct_target_kind := ct_target_kind r; ct_due_at := ct_due_at r; ct_state := ct_state r;
     ct_attempts := ct_attempts r; ct_next_retry := ct_next_retry r; ct_lease := ct_lease r;
     ct_lease_until := ct_lease_until r; ct_error := ct_error r;
     ct_evidence_location := ct_evidence_location r;
     ct_evidence_attempt_token := ct_evidence_attempt_token r;
     ct_evidence_attempt_started_at := ct_evidence_attempt_started_at r;
     ct_completed := ct_completed r |}.

Record UploadRow : Type := {
  mu_connection_id : string;
  mu_bucket : string;
  mu_object_key : string;
  mu_state : MultipartState.t;
  mu_session : MultipartSession;
  mu_created_at : string;
  mu_updated_at : string
}.

#[export] Instance eta_UploadRow : Eta UploadRow := fun r =>
  {| mu_connection_id := mu_connection_id r; mu_bucket := mu_bucket r;
     mu_object_key := mu_object_key r; mu_state := mu_state r; mu_session := mu_session r;
     mu_created_at := mu_created_at r; mu_updated_at := mu_updated_at r |}.

Record PartRow : Type := {
  mp_upload_id : string;
  mp_part_number : Z;
  mp_part : MultipartPart;
  mp_created_at : string
}.

Record AccountRow : Type := {
  ta_label : string;
  ta_bootstrap_json : string;
  ta_phone : option string;
  ta_download_enabled : bool;
  ta_quota_bytes : option Z;
  ta_state : string;
  ta_created_at : Z;
  ta_updated_at : Z
}.

#[export] Instance eta_AccountRow : Eta AccountRow := fun r =>
  {| ta_label := ta_label r; ta_bootstrap_json := ta_bootstrap_json r; ta_phone := ta_phone r;
     ta_download_enabled := ta_download_enabled r; ta_quota_bytes := ta_quota_bytes r;
     ta_state := ta_state r; ta_created_at := ta_created_at r; ta_updated_at := ta_updated_at r |}.

Record ReplicaRow : Type := {
  rl_object_id : string;
  rl_chunk_order : Z;
  rl_account_id : string;
  rl_mode : ReplicaMode.t;
  rl_peer_id : string;
  rl_message_id : Z;
  rl_document_id : option string;
  rl_state : string;
  rl_error : option string;
  rl_created_at : Z;
  rl_updated_at : Z
}.

(** [connection_removal_jobs.state] *)
Module RemovalState.
Inductive t : Type := Pending | Running | RemoteCleanupPending | Completed.

#[export] Instance t_eq_dec : EqDecision t.
Proof. solve_decision. Defined.
End RemovalState.
Export (hints) RemovalState.

Record RemovalJobRow : Type := {
  rj_id : string;
  rj_connection_id : string;
  rj_delete_uploaded_files : bool;
  rj_state : RemovalState.t;
  rj_object_count : Z;
  rj_requested_at : Z;
  rj_updated_at : Z;
  rj_completed_at : option Z;
  rj_error : option string
}.

#[export] Instance eta_RemovalJobRow : Eta RemovalJobRow := fun r =>
  {| rj_id := rj_id r; rj_connection_id := rj_connection_id r;
     rj_delete_uploaded_files := rj_delete_uploaded_files r; rj_state := rj_state r;
     rj_object_count := rj_object_count r; rj_requested_at := rj_requested_at r;
     rj_updated_at := rj_updated_at r; rj_completed_at := rj_completed_at r;
     rj_error := rj_error r |}.

Record RemovalObjectRow : Type := {
  ro_job_id : string;
  ro_object_id : string
}.

Record UserRow : Type := {
  us_id : string;
  us_username : string;
  us_password_hash : string;
  us_role : string;
  us_display_name : string;
  us_disabled : bool;
  us_token_version : Z;
  us_created_at : string;
  us_updated_at : string
}.

#[export] Instance eta_UserRow : Eta UserRow := fun r =>
  {| us_id := us_id r; us_username := us_username r; us_password_hash := us_password_hash r;
     us_role := us_role r; us_display_name := us_display_name r; us_disabled := us_disabled r;
     us_token_version := us_token_version r; us_created_at := us_created_at r;
     us_updated_at := us_updated_at r |}.

Record SessionRow : Type := {
  as_cookie_id : string;
  as_user_id : string;
  as_token_version : Z;
  as_issued_at : string;
  as_expires_at : string;
  as_created_ip : option string;
  as_revoked_at : option string
}.

#[export] Instance eta_SessionRow : Eta SessionRow := fun r =>
  {| as_cookie_id := as_cookie_id r; as_user_id := as_user_id r;
     as_token_version := as_token_version r; as_issued_at := as_issued_at r;
     as_expires_at := as_expires_at r; as_created_ip := as_created_ip r;
     as_revoked_at := as_revoked_at r |}.

Record ShareRow : Type := {
  sh_id : string;
  sh_token_hash : string;
  sh_token_ciphertext : option string;
  sh_object_id : string;
  sh_bucket : string;
  sh_object_key : string;
  sh_created_at : Z;
  sh_expires_at : option Z;
  sh_revoked_at : option Z;
  sh_description : string
}.

#[export] Instance eta_ShareRow : Eta ShareRow := fun r =>
  {| sh_id := sh_id r; sh_token_hash := sh_token_hash r;
     sh_token_ciphertext := sh_token_ciphertext r; sh_object_id := sh_object_id r;
     sh_bucket := sh_bucket r; sh_object_key := sh_object_key r;
     sh_created_at := sh_created_at r; sh_expires_at := sh_expires_at r;
     sh_revoked_at := sh_revoked_at r; sh_description := sh_description r |}.

Record ReplicationRow : Type := {
  rp_id : string;
  rp_source_account_id : string;
  rp_target_account_id : string;
  rp_bucket : string;
  rp_object_keys : list string;
  rp_mode : string;
  rp_access_mode : string;
  rp_state : string;
  rp_objects_total : Z;
  rp_objects_done : Z;
  rp_chunks_total : Z;
  rp_chunks_done : Z;
  rp_bytes_done : Z;
  rp_next_run : option Z;
  rp_last_run : option Z;
  rp_error : option string;
  rp_created_at : Z;
  rp_updated_at : Z
}.

#[export] Instance eta_ReplicationRow : Eta ReplicationRow := fun r =>
  {| rp_id := rp_id r; rp_source_account_id := rp_source_account_id r;
     rp_target_account_id := rp_target_account_id r; rp_bucket := rp_bucket r;
     rp_object_keys := rp_object_keys r; rp_mode := rp_mode r;
     rp_access_mode := rp_access_mode r; rp_state := rp_state r;
     rp_objects_total := rp_objects_total r; rp_objects_done := rp_objects_done r;
     rp_chunks_total := rp_chunks_total r; rp_chunks_done := rp_chunks_done r;
     rp_bytes_done := rp_bytes_done r; rp_next_run := rp_next_run r;
     rp_last_run := rp_last_run r; rp_error := rp_error r;
     rp_created_at := rp_created_at r; rp_updated_at := rp_updated_at r |}.

Record RechunkReplicaTarget : Type := {
  rt_account_id : string;
  rt_access_mode : ReplicaMode.t
}.

Record RechunkRow : Type := {
  rc_id : string;
  rc_bucket : string;
  rc_object_key : string;
  rc_object_id : string;
  rc_source_account_id : string;
  rc_new_chunk_size : Z;
  rc_apply_to_replicas : bool;
  rc_replica_targets : list RechunkReplicaTarget;
  rc_state : string;
  rc_chunks_total : Z;
  rc_chunks_done : Z;
  rc_bytes_done : Z;
  rc_error : option string;
  rc_created_at : Z;
  rc_updated_at : Z
}.

#[export] Instance eta_RechunkRow : Eta RechunkRow := fun r =>
  {| rc_id := rc_id r; rc_bucket := rc_bucket r; rc_object_key := rc_object_key r;
     rc_object_id := rc_object_id r; rc_source_account_id := rc_source_account_id r;
     rc_new_chunk_size := rc_new_chunk_size r; rc_apply_to_replicas := rc_apply_to_replicas r;
     rc_replica_targets := rc_replica_targets r; rc_state := rc_state r;
     rc_chunks_total := rc_chunks_total r; rc_chunks_done := rc_chunks_done r;
     rc_bytes_done := rc_bytes_done r; rc_error := rc_error r;
     rc_created_at := rc_created_at r; rc_updated_at := rc_updated_at r |}.

Record RechunkLockRow : Type := {
  lk_object_id : string;
  lk_job_id : string;
  lk_created_at : Z
}.

Record IntegrityRow : Type := {
  ie_issue_json : string;
  ie_state : string;
  ie_created_at : Z;
  ie_updated_at : Z
}.

(** ** The database *)

Record Db : Type := {
  app_settings : gmap string string;
  buckets : gmap string BucketRow;
  object_manifests : gmap string ManifestRow;
  active_objects : gmap (string * string) ActiveRow;
  operation_journal : gmap string JournalRow;
  recovery_markers : gmap string MarkerRow;
  transfer_jobs : list TransferRow;
  transfer_seq : Z;
  transfer_chunks : list ChunkRow;
  send_attempts : list AttemptRow;
  multipart_jobs : list MultipartJobRow;
  cleanup_targets : list CleanupRow;
  cleanup_seq : Z;
  multipart_uploads : gmap string UploadRow;
  multipart_parts : list PartRow;
  telegram_accounts : gmap string AccountRow;
  replica_locations : list ReplicaRow;
  connection_removal_jobs : list RemovalJobRow;
  connection_removal_objects : list RemovalObjectRow;
  users : list UserRow;
  admin_sessions : list SessionRow;
  share_links : list ShareRow;
  replication_jobs : list ReplicationRow;
  rechunk_jobs : list RechunkRow;
  rechunk_locks : list RechunkLockRow;
  traffic_totals : gmap string string;
  integrity_recovery_events : gmap string IntegrityRow
}.

#[export] Instance eta_Db : Eta Db := fun r =>
  {| app_settings := app_settings r; buckets := buckets r;
     object_manifests := object_manifests r; active_objects := active_objects r;
     operation_journal := operation_journal r; recovery_markers := recovery_markers r;
     transfer_jobs := transfer_jobs r; transfer_seq := transfer_seq r;
     transfer_chunks := transfer_chunks r; send_attempts := send_attempts r;
     multipart_jobs := multipart_jobs r; cleanup_targets := cleanup_targets r;
     cleanup_seq := cleanup_seq r; multipart_uploads := multipart_uploads r;
     multipart_parts := multipart_parts r; telegram_accounts := telegram_accounts r;
     replica_locations := replica_locations r;
     connection_removal_jobs := connection_removal_jobs r;
     connection_removal_objects := connection_removal_objects r;
     users := users r; admin_sessions := admin_sessions r; share_links := share_links r;
     replication_jobs := replication_jobs r; rechunk_jobs := rechunk_jobs r;
     rechunk_locks := rechunk_locks r; traffic_totals := traffic_totals r;
     integrity_recovery_events := integrity_recovery_events r |}.

(** A freshly migrated database: the tables are empty, the one row of
    [traffic_totals] is zero. *)
Definition empty_db : Db :=
  {| app_settings := ∅; buckets := ∅; object_manifests := ∅; active_objects := ∅;
     operation_journal := ∅; recovery_markers := ∅; transfer_jobs := []; transfer_seq := 0;
     transfer_chunks := []; send_attempts := []; multipart_jobs := []; cleanup_targets := [];
     cleanup_seq := 0; multipart_uploads := ∅; multipart_parts := [];
     telegram_accounts := ∅; replica_locations := []; connection_removal_jobs := [];
     connection_removal_objects := []; users := []; admin_sessions := []; share_links := [];
     replication_jobs := []; rechunk_jobs := []; rechunk_locks := [];
     traffic_totals := {[ "client_upload_bytes" := "0"; "client_download_bytes" := "0";
                          "telegram_upload_bytes" := "0"; "telegram_download_bytes" := "0" ]};
     integrity_recovery_events := ∅ |}.

(** What an operation reads from its surroundings: its [i]-th call of
    [durable::now()], of [timestamp_now()], of [OffsetDateTime::now_utc()] and
    of [Uuid::new_v4()].  A call made inside the [k]-th call of another
    operation is read through [under k]; the path of such positions names the
    call, so no two calls are forced to see the same value. *)
Record Env : Type := {
  now_of : list nat -> Z;
  timestamp_of : list nat -> string;
  now_utc_of : list nat -> OffsetDateTime;
  new_v4_of : list nat -> Uuid
}.

Definition now_at (E : Env) (i : nat) : Z := now_of E [i].

Definition timestamp_at (E : Env) (i : nat) : string := timestamp_of E [i].

Definition now_utc_at (E : Env) (i : nat) : OffsetDateTime := now_utc_of E [i].

Definition new_v4 (E : Env) (i : nat) : Uuid := new_v4_of E [i].

Definition under (k : nat) (E : Env) : Env :=
  {| now_of := fun p => now_of E (k :: p); timestamp_of := fun p => timestamp_of E (k :: p);
     now_utc_of := fun p => now_utc_of E (k :: p); new_v4_of := fun p => new_v4_of E (k :: p) |}.

(** Surroundings for the concrete runs of the witnesses. *)
Definition sample_env (now : Z) (fresh : string) : Env :=
  {| now_of := fun _ => now; timestamp_of := fun _ => "2026-01-01T00:00:00Z";
     now_utc_of := fun _ => now * 1000000000; new_v4_of := fun _ => fresh |}.

(** ** The store monad *)

Definition M (A : Type) : Type := Db -> Result A MetadataError * Db.

#[export] Instance M_ret : MRet M := fun A a db => (Ok a, db).

#[export] Instance M_bind : MBind M := fun A B f m db =>
  match m db with
  | (Ok a, db') => f a db'
  | (Err e, db') => (Err e, db')
  end.

Definition throw {A} (e : MetadataError) : M A := fun db => (Err e, db).

(** Run a query against the current database. *)
Definition query {A} (q : Db -> A) : M A := fun db => (Ok (q db), db).

(** Run a statement whose effect is [f] and whose row count is [n]. *)
Definition execute (n : Db -> Z) (f : Db -> Db) : M Z := fun db => (Ok (n db), f db).

Definition modify (f : Db -> Db) : M unit := fun db => (Ok tt, f db).

(** A transaction: an error rolls every statement back.  (The early
    [return Ok(..)] of the source without [commit] all happen before the first
    write of their transaction.) *)
Definition transaction {A} (m : M A) : M A := fun db =>
  match m db with
  | (Ok a, db') => (Ok a, db')
  | (Err e, _) => (Err e, db)
  end.

Definition ensure (b : bool) (e : MetadataError) : M unit :=
  if b then mret tt else throw e.

(** [ok_or_else] *)
Definition some_or {A} (o : option A) (e : MetadataError) : M A :=
  match o with Some a => mret a | None => throw e end.

(** A [for] loop in the monad. *)
Fixpoint for_each {A} (f : A -> M unit) (l : list A) : M unit :=
  match l with
  | [] => mret tt
  | a :: l' => f a ≫= fun _ => for_each f l'
  end.

(** [UPDATE] on one of the tables scanned in row order: the count of matching
    rows, and the table with them changed. *)
Definition update_jobs (p : Db -> TransferRow -> bool) (f : TransferRow -> TransferRow) : M Z :=
  execute (fun db => sql_count (p db) (transfer_jobs db))
          (fun db => db <| transfer_jobs ::= sql_update (p db) f |>).

Definition update_attempts (p : Db -> AttemptRow -> bool) (f : AttemptRow -> AttemptRow) : M Z :=
  execute (fun db => sql_count (p db) (send_attempts db))
          (fun db => db <| send_attempts ::= sql_update (p db) f |>).

Definition update_targets (p : Db -> CleanupRow -> bool) (f : CleanupRow -> CleanupRow) : M Z :=
  execute (fun db => sql_count (p db) (cleanup_targets db))
          (fun db => db <| cleanup_targets ::= sql_update (p db) f |>).

(** [active_connection_id]: the [app_settings] table exists at this schema
    version. *)
Definition active_connection_id (db : Db) : string :=
  match app_settings db !! "telegram_active_connection_id" with
  | Some value => value
  | None => "legacy"
  end.

Definition CLEANUP_RETENTION_SETTING : string := "telegram_cleanup_retention_secs".

Definition DEFAULT_CLEANUP_RETENTION_SECS : Z := 12 * 60 * 60.

Definition cleanup_retention_secs : M Z :=
  value ← query (fun db => app_settings db !! CLEANUP_RETENTION_SETTING);
  match value with
  | None => mret DEFAULT_CLEANUP_RETENTION_SECS
  | Some v => some_or (parse_i64 v) (InvalidManifest "invalid stored cleanup retention")
  end.

(** ** Tactics and lemmas *)

(** Unfold the monad's plumbing. *)
Ltac run_m :=
  cbn [mbind mret M_bind M_ret throw query execute modify ensure some_or
       update_jobs update_attempts update_targets] in *.

Lemma transaction_err {A} (m : M A) db e db' : transaction m db = (Err e, db') -> db' = db.
Proof. unfold transaction. destruct (m db) as [[a|e'] d]; intros H; simplify_eq; done. Qed.

Lemma transaction_ok {A} (m : M A) db a db' :
  transaction m db = (Ok a, db') <-> m db = (Ok a, db').
Proof. unfold transaction. destruct (m db) as [[?|?] ?]; split; intros H; simplify_eq; done. Qed.

Lemma bind_ok {A B} (m : M A) (f : A -> M B) db b db' :
  (m ≫= f) db = (Ok b, db') <-> exists a d, m db = (Ok a, d) /\ f a d = (Ok b, db').
Proof.
  unfold mbind, M_bind. destruct (m db) as [[a|e] d]; split.
  - intros H. eauto.
  - intros (a' & d' & ? & ?). by simplify_eq.
  - done.
  - by intros (a' & d' & ? & ?).
Qed.

Lemma ensure_ok b e db u db' : ensure b e db = (Ok u, db') <-> b = true /\ db' = db.
Proof. destruct b, u; simpl; unfold throw, mret, M_ret; split; [intros [= <-]|intros [_ ->]| |intros []]; done. Qed.

Lemma some_or_ok {A} (o : option A) e db a db' :
  some_or o e db = (Ok a, db') <-> o = Some a /\ db' = db.
Proof.
  destruct o; simpl; unfold throw, mret, M_ret; split;
    [intros [= -> ->]|intros [[= ->] ->]| |intros []]; done.
Qed.

(** Writing back what a table holds changes nothing. *)
Lemma set_targets_id db f : f (cleanup_targets db) = cleanup_targets db ->
  db <| cleanup_targets ::= f |> = db.
Proof. destruct db. unfold set. simpl. by intros ->. Qed.

Lemma set_jobs_id db f : f (transfer_jobs db) = transfer_jobs db ->
  db <| transfer_jobs ::= f |> = db.
Proof. destruct db. unfold set. simpl. by intros ->. Qed.

Lemma set_attempts_id db f : f (send_attempts db) = send_attempts db ->
  db <| send_attempts ::= f |> = db.
Proof. destruct db. unfold set. simpl. by intros ->. Qed.

(** ** Invariant preservation

    [preserves P m]: whatever [m] answers, it keeps [P].  The rules follow the
    structure of the monad; [preserve] applies them and leaves the statements
    that write. *)
Definition preserves (P : Db -> Prop) {A} (m : M A) : Prop := forall db, P db -> P (m db).2.

Section Preserves.
Context (P : Db -> Prop).

Lemma preserves_ret {A} (a : A) : preserves P (mret a).
Proof. by intros db. Qed.

Lemma preserves_throw {A} e : preserves P (throw (A:=A) e).
Proof. by intros db. Qed.

Lemma preserves_query {A} (q : Db -> A) : preserves P (query q).
Proof. by intros db. Qed.

Lemma preserves_ensure b e : preserves P (ensure b e).
Proof. by intros db; destruct b. Qed.

Lemma preserves_some_or {A} (o : option A) e : preserves P (some_or o e).
Proof. by intros db; destruct o. Qed.

Lemma preserves_execute n f : (forall db, P db -> P (f db)) -> preserves P (execute n f).
Proof. intros H db Hdb. by apply H. Qed.

Lemma preserves_modify f : (forall db, P db -> P (f db)) -> preserves P (modify f).
Proof. intros H db Hdb. by apply H. Qed.

Lemma preserves_bind {A B} (m : M A) (k : A -> M B) :
  preserves P m -> (forall a, preserves P (k a)) -> preserves P (m ≫= k).
Proof.
  intros Hm Hk db Hdb. unfold mbind, M_bind. specialize (Hm db Hdb).
  destruct (m db) as [[a|e] d]; simpl in *; [by apply Hk|done].
Qed.

Lemma preserves_transaction {A} (m : M A) : preserves P m -> preserves P (transaction m).
Proof.
  intros Hm db Hdb. unfold transaction. specialize (Hm db Hdb).
  by destruct (m db) as [[a|e] d].
Qed.

Lemma preserves_for_each {A} (f : A -> M unit) l :
  (forall a, In a l -> preserves P (f a)) -> preserves P (for_each f l).
Proof.
  induction l as [|a l IH]; simpl; intros H; [apply preserves_ret|].
  apply preserves_bind; auto.
Qed.
End Preserves.

(** [steps R m]: [m] only moves the database along the preorder [R]. *)
Definition steps (R : Db -> Db -> Prop) {A} (m : M A) : Prop := forall db, R db (m db).2.

Section Steps.
Context (R : Db -> Db -> Prop) `{!PreOrder R}.

Lemma steps_ret {A} (a : A) : steps R (mret a).
Proof. by intros db. Qed.

Lemma steps_throw {A} e : steps R (throw (A:=A) e).
Proof. by intros db. Qed.

Lemma steps_query {A} (q : Db -> A) : steps R (query q).
Proof. by intros db. Qed.

Lemma steps_ensure b e : steps R (ensure b e).
Proof. by intros db; destruct b. Qed.

Lemma steps_some_or {A} (o : option A) e : steps R (some_or o e).
Proof. by intros db; destruct o. Qed.

Lemma steps_execute n f : (forall db, R db (f db)) -> steps R (execute n f).
Proof. intros H db. apply H. Qed.

Lemma steps_modify f : (forall db, R db (f db)) -> steps R (modify f).
Proof. intros H db. apply H. Qed.

Lemma steps_bind {A B} (m : M A) (k : A -> M B) :
  steps R m -> (forall a, steps R (k a)) -> steps R (m ≫= k).
Proof.
  intros Hm Hk db. unfold mbind, M_bind. specialize (Hm db).
  destruct (m db) as [[a|e] d]; simpl in *; [|done]. etrans; [done|apply Hk].
Qed.

Lemma steps_transaction {A} (m : M A) : steps R m -> steps R (transaction m).
Proof. intros Hm db. unfold transaction. specialize (Hm db). by destruct (m db) as [[a|e] d]. Qed.

Lemma steps_for_each {A} (f : A -> M unit) l :
  (forall a, In a l -> steps R (f a)) -> steps R (for_each f l).
Proof.
  induction l as [|a l IH]; simpl; intros H; [apply steps_ret|].
  apply steps_bind; auto.
Qed.
End Steps.

(** The part [p] of the database is left as it was. *)
Definition same {T} (p : Db -> T) (db db' : Db) : Prop := p db' = p db.

#[export] Instance same_preorder {T} (p : Db -> T) : PreOrder (same p).
Proof. split; unfold same; [done|congruence]. Qed.

Lemma steps_same {T} (p : Db -> T) {A} (m : M A) db r db' :
  steps (same p) m -> m db = (r, db') -> p db' = p db.
Proof. intros H E. specialize (H db). by rewrite E in H. Qed.

(** A loop establishes for every element what an iteration establishes for its
    own element and the other iterations keep. *)
Lemma for_each_establishes {A} (Q : A -> Db -> Prop) (f : A -> M unit) l db u db' :
  (forall a db u db', In a l -> f a db = (Ok u, db') -> Q a db') ->
  (forall a b, In a l -> In b l -> preserves (Q a) (f b)) ->
  for_each f l db = (Ok u, db') -> forall a, In a l -> Q a db'.
Proof.
  revert db. induction l as [|x l IH]; simpl; intros db Hf Hk H a Ha; [done|].
  apply bind_ok in H as (v & d & Hx & Hl). destruct Ha as [<-|Ha].
  - assert (preserves (Q x) (for_each f l)) as Hp by (apply preserves_for_each; auto).
    specialize (Hp d (Hf _ _ _ _ (or_introl eq_refl) Hx)). by rewrite Hl in Hp.
  - eapply IH; eauto.
Qed.

(** Preservation at the first argument of a conjunction of invariants. *)
Lemma preserves_and P Q {A} (m : M A) :
  preserves P m -> preserves Q m -> preserves (fun db => P db /\ Q db) m.
Proof. intros HP HQ db [? ?]. split; auto. Qed.

Create HintDb preserves.
#[export] Hint Resolve preserves_ret preserves_throw preserves_query preserves_ensure
  preserves_some_or : preserves.

Ltac preserve :=
  repeat first
    [ solve [auto with preserves]
    | apply preserves_transaction
    | apply preserves_bind; [|intros ?]
    | apply preserves_for_each; intros ? ?
    | match goal with |- preserves _ (match ?x with _ => _ end) => destruct x eqn:? end ].

Ltac step_through :=
  repeat first
    [ solve [auto with preserves]
    | apply (steps_ret _) | apply (steps_throw _) | apply (steps_query _)
    | apply (steps_ensure _) | apply (steps_some_or _)
    | apply (steps_transaction _)
    | apply (steps_bind _); [|intros ?]
    | apply (steps_for_each _); intros ? ?
    | match goal with |- steps _ (match ?x with _ => _ end) => destruct x eqn:? end ].

(** Every statement of the operation leaves a part of the database alone. *)
Ltac frame_through :=
  step_through;
  try (first [apply steps_modify | apply steps_execute]; intros ?;
       first [ reflexivity
             | repeat match goal with |- same _ _ (match ?x with _ => _ end) => destruct x end;
               reflexivity ]).
