(* ===== verification/Cleanup.v ===== *)
(** * The cleanup outbox ([src/src/durable.rs])

    Deleting an object leaves rows in [cleanup_targets]: one [Evidence] row per
    object (a deletion record to publish) and one [Message] row per Telegram
    message to remove.  Workers claim rows under a lease.  The theorems: a
    message is never claimed, let alone deleted, before the deletion evidence
    of its object is durable; evidence whose acknowledgement is in doubt is
    never claimed again without reconciliation; a lease is needed for every
    completion and is used up by it. *)

From S2P Require Import Prelude Errors Manifest Schema.

Record CleanupTarget : Type := {
  cl_id : Z;
  cl_object_id : string;
  cl_connection_id : string;
  cl_peer_id : string;
  cl_message_id : Z;
  cl_kind : TargetKind.t;
  cl_lease : string
}.

Record CleanupEvidenceAttempt : Type := {
  ea_id : Z;
  ea_object_id : string;
  ea_connection_id : string;
  ea_token : string;
  ea_started_at : Z
}.

(** ** Enqueueing *)

(** [INSERT OR IGNORE INTO cleanup_targets(..) VALUES (..)]: the columns not
    named take their defaults, and [UNIQUE(peer_id, message_id)] makes a second
    insertion of a message a no-op. *)
Definition new_target (id : Z) (object_id connection_id peer : string) (message : Z)
    (kind : TargetKind.t) (due_at : Z) : CleanupRow :=
  {| ct_id := id; ct_object_id := object_id; ct_peer_id := peer; ct_message_id := message;
     ct_connection_id := connection_id; ct_target_kind := kind; ct_due_at := due_at;
     ct_state := CleanupState.Pending; ct_attempts := 0; ct_next_retry := 0; ct_lease := None;
     ct_lease_until := 0; ct_error := None; ct_evidence_location := None;
     ct_evidence_attempt_token := None; ct_evidence_attempt_started_at := None;
     ct_completed := false |}.

Definition same_message (peer : string) (message : Z) (r : CleanupRow) : bool :=
  bool_decide (ct_peer_id r = peer) && (ct_message_id r =? message).

Definition insert_or_ignore_target (object_id connection_id peer : string) (message : Z)
    (kind : TargetKind.t) (due_at : Z) : M unit := modify (fun db =>
  if sql_exists (same_message peer message) (cleanup_targets db) then db
  else db <| cleanup_targets ::= (fun t => t ++ [new_target (cleanup_seq db + 1) object_id
                                    connection_id peer message kind due_at]) |>
          <| cleanup_seq := cleanup_seq db + 1 |>).

Definition evidence_peer (object_id : string) : string := "evidence:" +:+ object_id.

Definition enqueue_manifest_cleanup_at (manifest : ObjectManifest) (due_at : Z) : M unit :=
  connection_id ← query active_connection_id;
  insert_or_ignore_target (object_id manifest) connection_id
    (evidence_peer (object_id manifest)) 0 TargetKind.Evidence due_at ;;
  for_each (fun chunk =>
    if 0 <? telegram_message_id chunk then
      insert_or_ignore_target (object_id manifest) connection_id
        (telegram_peer_id chunk) (telegram_message_id chunk) TargetKind.Message due_at
    else mret tt) (chunks manifest) ;;
  (if 0 <? message_id (telegram manifest) then
     insert_or_ignore_target (object_id manifest) connection_id
       (peer_id (telegram manifest)) (message_id (telegram manifest)) TargetKind.Message due_at
   else mret tt).

Definition enqueue_manifest_cleanup (now : Z) (manifest : ObjectManifest) : M unit :=
  enqueue_manifest_cleanup_at manifest now.

Definition chunk_location (c : ChunkRef) : TelegramLocation :=
  {| peer_id := telegram_peer_id c; message_id := telegram_message_id c;
     document_id := telegram_document_id c |}.

Definition enqueue_part_cleanup_preserving (E : Env) (part : MultipartPart)
    (retained_chunks : gset (string * Z)) : M unit :=
  connection_id ← query active_connection_id;
  retention_secs ← cleanup_retention_secs;
  let cleanup_object_id :=
    match p_manifest part with Some m => object_id m | None => p_upload_id part end in
  insert_or_ignore_target cleanup_object_id connection_id
    (evidence_peer cleanup_object_id) 0 TargetKind.Evidence (now_at E 0 + retention_secs) ;;
  let locations :=
    p_telegram part ::
    match p_manifest part with
    | None => []
    | Some m =>
        map chunk_location
          (List.filter (fun chunk =>
             negb (bool_decide ((telegram_peer_id chunk, telegram_message_id chunk)
                                ∈ retained_chunks))) (chunks m))
    end in
  for_each (fun '(i, l) =>
    insert_or_ignore_target cleanup_object_id connection_id (peer_id l) (message_id l)
      TargetKind.Message (now_at E (S i) + retention_secs)) (imap pair locations).

Definition enqueue_part_cleanup (E : Env) (part : MultipartPart) : M unit :=
  enqueue_part_cleanup_preserving E part ∅.

(** ** Claiming *)

Definition claimable_evidence (current : Z) (r : CleanupRow) : bool :=
  negb (ct_completed r) && bool_decide (ct_target_kind r = TargetKind.Evidence)
  && ((one_of (ct_state r) [CleanupState.Pending; CleanupState.RetryWait]
       && (ct_due_at r <=? current) && (ct_next_retry r <=? current))
      || (bool_decide (ct_state r = CleanupState.Running) && (ct_lease_until r <? current)
          && negb (is_some (ct_evidence_attempt_token r)))).

(** [EXISTS(SELECT 1 FROM cleanup_targets e WHERE e.object_id=t.object_id AND
    e.target_kind='evidence' AND e.completed=1)] *)
Definition evidence_completed (targets : list CleanupRow) (object_id : string) : bool :=
  sql_exists (fun e => bool_decide (ct_object_id e = object_id)
                       && bool_decide (ct_target_kind e = TargetKind.Evidence)
                       && ct_completed e) targets.

Definition claimable_message (current : Z) (targets : list CleanupRow) (r : CleanupRow) : bool :=
  negb (ct_completed r) && bool_decide (ct_target_kind r = TargetKind.Message)
  && ((one_of (ct_state r) [CleanupState.Pending; CleanupState.RetryWait]
       && (ct_due_at r <=? current) && (ct_next_retry r <=? current))
      || (bool_decide (ct_state r = CleanupState.Running) && (ct_lease_until r <? current)))
  && evidence_completed targets (ct_object_id r).

(** The row [claim_cleanup] picks: due evidence first, then due messages, each
    in [id] order. *)
Definition select_cleanup (current : Z) (targets : list CleanupRow) : option CleanupRow :=
  match sql_first (sql_where (claimable_evidence current) targets) with
  | Some r => Some r
  | None => sql_first (sql_where (claimable_message current targets) targets)
  end.

Definition claim_cleanup (E : Env) : M (option CleanupTarget) := transaction (
  let current := now_at E 0 in
  row ← query (fun db => select_cleanup current (cleanup_targets db));
  match row with
  | None => mret None
  | Some r =>
      let lease := new_v4 E 0 in
      update_targets (fun _ t => (ct_id t =? ct_id r) && negb (ct_completed t))
        (fun t => t <| ct_state := CleanupState.Running |> <| ct_lease := Some lease |>
                    <| ct_lease_until := current + 120 |> <| ct_attempts ::= Z.add 1 |>
                    <| ct_error := None |>) ;;
      mret (Some {| cl_id := ct_id r; cl_object_id := ct_object_id r;
                    cl_connection_id := ct_connection_id r; cl_peer_id := ct_peer_id r;
                    cl_message_id := ct_message_id r; cl_kind := ct_target_kind r;
                    cl_lease := lease |})
  end).

(** ** Evidence attempts *)

Definition cleanup_evidence_attempts (now : Z) (limit : nat) : M (list CleanupEvidenceAttempt) :=
  query (fun db =>
    omap (fun r =>
      match ct_evidence_attempt_token r, ct_evidence_attempt_started_at r with
      | Some token, Some started =>
          Some {| ea_id := ct_id r; ea_object_id := ct_object_id r;
                  ea_connection_id := ct_connection_id r; ea_token := token;
                  ea_started_at := started |}
      | _, _ => None
      end)
    (take limit (sql_where (fun r =>
      negb (ct_completed r) && bool_decide (ct_target_kind r = TargetKind.Evidence)
      && is_some (ct_evidence_attempt_token r) && is_some (ct_evidence_attempt_started_at r)
      && (bool_decide (ct_state r = CleanupState.RecoveryRequired)
          || (bool_decide (ct_state r = CleanupState.Running) && (ct_lease_until r <? now))))
      (cleanup_targets db)))).

(** [id=?1 AND lease=?2 AND state='running'] *)
Definition holds_cleanup_lease (id : Z) (lease : string) (r : CleanupRow) : bool :=
  (ct_id r =? id) && sql_eq (ct_lease r) lease
  && bool_decide (ct_state r = CleanupState.Running).

Definition begin_cleanup_evidence_attempt (E : Env) (id : Z) (lease object_id : string)
    : M (string * Z) :=
  let token := "telegram-s3-cleanup-" +:+ object_id +:+ "-" +:+ new_v4 E 0 +:+ ".json" in
  let started_at := now_at E 0 in
  updated ← update_targets (fun _ r => holds_cleanup_lease id lease r && negb (ct_completed r))
    (fun r => r <| ct_evidence_attempt_token := Some token |>
                <| ct_evidence_attempt_started_at := Some started_at |>);
  ensure (updated =? 1) (PreconditionFailed "cleanup evidence lease lost") ;;
  mret (token, started_at).

Definition open_evidence (id : Z) (r : CleanupRow) : bool :=
  (ct_id r =? id) && negb (ct_completed r)
  && bool_decide (ct_target_kind r = TargetKind.Evidence).

Definition resolve_cleanup_evidence (id : Z) (location : TelegramLocation) : M unit :=
  update_targets (fun _ => open_evidence id)
    (fun r => r <| ct_state := CleanupState.Completed |> <| ct_completed := true |>
                <| ct_lease := None |> <| ct_lease_until := 0 |> <| ct_error := None |>
                <| ct_evidence_location := Some location |>) ;;
  mret tt.

Definition retry_cleanup_evidence_after_reconciliation (now : Z) (id : Z) (message : string)
    : M unit :=
  update_targets (fun _ => open_evidence id)
    (fun r => r <| ct_state := CleanupState.Pending |> <| ct_due_at := now |>
                <| ct_next_retry := 0 |> <| ct_lease := None |> <| ct_lease_until := 0 |>
                <| ct_error := Some message |>) ;;
  mret tt.

(** ** Finishing *)

Definition complete_cleanup (id : Z) (lease : string) (location : option TelegramLocation)
    : M bool :=
  n ← update_targets (fun _ => holds_cleanup_lease id lease)
    (fun r => r <| ct_state := CleanupState.Completed |> <| ct_completed := true |>
                <| ct_lease := None |> <| ct_lease_until := 0 |> <| ct_error := None |>
                <| ct_evidence_location ::= (fun old =>
                     match location with Some l => Some l | None => old end) |>);
  mret (n =? 1).

Definition fail_cleanup (now : Z) (id : Z) (lease : string) (retry_after : Z) (message : string)
    : M unit :=
  update_targets (fun _ => holds_cleanup_lease id lease)
    (fun r => r <| ct_state := CleanupState.RetryWait |>
                <| ct_next_retry := i64_saturating_add now (u64_as_i64 retry_after) |>
                <| ct_lease := None |> <| ct_lease_until := 0 |>
                <| ct_error := Some message |>) ;;
  mret tt.

Definition quarantine_cleanup (id : Z) (lease message : string) : M unit :=
  update_targets (fun _ => holds_cleanup_lease id lease)
    (fun r => r <| ct_state := CleanupState.RecoveryRequired |> <| ct_lease := None |>
                <| ct_lease_until := 0 |> <| ct_error := Some message |>) ;;
  mret tt.

Definition cleanup_complete_for_object (object_id : string) : M bool :=
  query (fun db => negb (sql_exists (fun r =>
    bool_decide (ct_object_id r = object_id) && negb (ct_completed r)) (cleanup_targets db))).

Definition make_cleanup_due (now : Z) (object_id : string) : M unit :=
  update_targets (fun _ r => bool_decide (ct_object_id r = object_id) && negb (ct_completed r)
                   && one_of (ct_state r) [CleanupState.Pending; CleanupState.RetryWait])
    (fun r => r <| ct_due_at := now |> <| ct_next_retry := 0 |>) ;;
  mret tt.

(** [CASE WHEN state='running' THEN lease_until ELSE MAX(due_at,next_retry) END] *)
Definition wake_instant (r : CleanupRow) : Z :=
  if bool_decide (ct_state r = CleanupState.Running) then ct_lease_until r
  else Z.max (ct_due_at r) (ct_next_retry r).

Definition waiting_state (r : CleanupRow) : bool :=
  one_of (ct_state r) [CleanupState.Pending; CleanupState.RetryWait].

Definition cleanup_wake_delay_secs (current : Z) : M Z := query (fun db =>
  let targets := cleanup_targets db in
  let next_evidence := sql_min wake_instant (sql_where (fun r =>
    negb (ct_completed r) && bool_decide (ct_target_kind r = TargetKind.Evidence)
    && ((waiting_state r && (current <? ct_due_at r))
        || bool_decide (ct_state r = CleanupState.Running))) targets) in
  let next_message := sql_min wake_instant (sql_where (fun r =>
    negb (ct_completed r) && bool_decide (ct_target_kind r = TargetKind.Message)
    && ((waiting_state r && (current <? Z.max (ct_due_at r) (ct_next_retry r)))
        || bool_decide (ct_state r = CleanupState.Running))
    && evidence_completed targets (ct_object_id r)) targets) in
  let next :=
    match next_evidence, next_message with
    | Some a, Some b => Z.min a b
    | Some a, None => a
    | None, Some b => b
    | None, None => i64_saturating_add current 60
    end in
  Z.max 1 (Z.min 60 (i64_saturating_sub next current))).

(** ** The outbox invariant *)

(** A row's status columns agree. *)
Record row_coherent (r : CleanupRow) : Prop := {
  rc_completed : ct_completed r = true <-> ct_state r = CleanupState.Completed;
  rc_lease : is_some (ct_lease r) = true <-> ct_state r = CleanupState.Running
}.

(** Work on the row has begun: it is leased or done. *)
Definition begun (r : CleanupRow) : Prop :=
  ct_state r = CleanupState.Running \/ ct_completed r = true.

Definition target_key (r : CleanupRow) : string * Z := (ct_peer_id r, ct_message_id r).

Record outbox_wf (t : list CleanupRow) (seq : Z) : Prop := {
  ow_ids : List.NoDup (map ct_id t);
  ow_seq : forall r, In r t -> ct_id r <= seq;
  ow_keys : List.NoDup (map target_key t);
  ow_rows : forall r, In r t -> row_coherent r;
  ow_evidence_first : forall r, In r t -> ct_target_kind r = TargetKind.Message -> begun r ->
    evidence_completed t (ct_object_id r) = true
}.

Definition cleanup_wf (db : Db) : Prop := outbox_wf (cleanup_targets db) (cleanup_seq db).

(** The columns that name what a row is about. *)
Definition identity (r : CleanupRow) : Z * string * string * Z * TargetKind.t :=
  (ct_id r, ct_object_id r, ct_peer_id r, ct_message_id r, ct_target_kind r).

(** What an [UPDATE] of the outbox may do to a row. *)
Definition row_step (t : list CleanupRow) (r r' : CleanupRow) : Prop :=
  identity r' = identity r /\ row_coherent r' /\
  (ct_completed r = true -> ct_completed r' = true) /\
  (ct_target_kind r = TargetKind.Message -> begun r' ->
     begun r \/ evidence_completed t (ct_object_id r) = true).

Lemma evidence_completed_true t o :
  evidence_completed t o = true <->
  exists e, In e t /\ ct_object_id e = o /\ ct_target_kind e = TargetKind.Evidence /\
            ct_completed e = true.
Proof.
  unfold evidence_completed. rewrite sql_exists_true. split.
  - intros (e & He & H). bool_hyps. eauto.
  - intros (e & He & Ho & Hk & Hc). exists e. split; [done|].
    rewrite Hc, !bool_decide_eq_true_2 by done. done.
Qed.

(** Evidence, once completed, stays completed. *)
Lemma evidence_completed_mono t t' o :
  (forall r, In r t -> ct_target_kind r = TargetKind.Evidence -> ct_completed r = true ->
     exists r', In r' t' /\ identity r' = identity r /\ ct_completed r' = true) ->
  evidence_completed t o = true -> evidence_completed t' o = true.
Proof.
  rewrite !evidence_completed_true. intros H (e & He & Ho & Hk & Hc).
  destruct (H e He Hk Hc) as (e' & He' & Hid & Hc'). exists e'. injection Hid. intros; split_and!; congruence.
Qed.

Lemma outbox_wf_update t seq p f :
  outbox_wf t seq ->
  (forall r, In r t -> p r = true -> row_coherent r -> row_step t r (f r)) ->
  outbox_wf (sql_update p f t) seq.
Proof.
  intros Hwf Hf. destruct Hwf as [Hids Hseq Hkeys Hrows Hev].
  assert (forall r, In r t -> row_step t r (if p r then f r else r)) as Hstep.
  { intros r Hr. destruct (p r) eqn:Hp; [by apply Hf; auto|]. split; [done|]. auto. }
  assert (forall B (g : CleanupRow -> B), (forall r r', identity r = identity r' -> g r = g r') ->
            map g (sql_update p f t) = map g t) as Hmap.
  { intros B g Hg. unfold sql_update. rewrite map_map. apply map_ext_in. intros r Hr.
    apply Hg. by destruct (Hstep r Hr). }
  assert (forall o, evidence_completed t o = true -> evidence_completed (sql_update p f t) o = true)
    as Hmono.
  { intros o. apply evidence_completed_mono. intros r Hr _ Hc.
    destruct (Hstep r Hr) as (Hid & _ & Hcc & _).
    exists (if p r then f r else r). split; [|auto]. apply In_sql_update. eauto. }
  split.
  - rewrite Hmap; [done|]. unfold identity. by intros ? ? [=].
  - intros r' Hr'. apply In_sql_update in Hr' as (r & Hr & ->).
    destruct (Hstep r Hr) as (Hid & _). unfold identity in Hid. specialize (Hseq r Hr).
    injection Hid as ->. done.
  - rewrite Hmap; [done|]. unfold identity, target_key. intros ? ? [=]. by f_equal.
  - intros r' Hr'. apply In_sql_update in Hr' as (r & Hr & ->). by destruct (Hstep r Hr) as (_ & ? & _).
  - intros r' Hr' Hk Hb. apply In_sql_update in Hr' as (r & Hr & ->).
    destruct (Hstep r Hr) as (Hid & _ & _ & Hbeg). unfold identity in Hid. apply Hmono.
    assert (ct_object_id (if p r then f r else r) = ct_object_id r /\
            ct_target_kind (if p r then f r else r) = ct_target_kind r) as [-> Hk'] by (by injection Hid).
    rewrite Hk' in Hk. destruct (Hbeg Hk Hb) as [Hb'|?]; auto.
Qed.

Lemma outbox_wf_insert t seq o c p msg k due :
  outbox_wf t seq -> sql_exists (same_message p msg) t = false ->
  outbox_wf (t ++ [new_target (seq + 1) o c p msg k due]) (seq + 1).
Proof.
  intros [Hids Hseq Hkeys Hrows Hev] Hnew. rewrite sql_exists_false in Hnew. split.
  - rewrite map_app. simpl. apply NoDup_ListNoDup, NoDup_app. split_and!.
    + by apply NoDup_ListNoDup.
    + intros x Hx Hx'. apply list_elem_of_In, in_map_iff in Hx as (r & <- & Hr).
      apply list_elem_of_singleton in Hx'. specialize (Hseq r Hr). lia.
    + apply NoDup_singleton.
  - intros r [Hr|[<-|[]]]%in_app_or; simpl; [specialize (Hseq r Hr)|]; lia.
  - rewrite map_app. simpl. apply NoDup_ListNoDup, NoDup_app. split_and!.
    + by apply NoDup_ListNoDup.
    + intros x Hx Hx'. apply list_elem_of_In, in_map_iff in Hx as (r & <- & Hr).
      apply list_elem_of_singleton in Hx'. specialize (Hnew r Hr).
      unfold same_message, target_key in *. simpl in *. simplify_eq.
      rewrite bool_decide_eq_true_2, Z.eqb_refl in Hnew by done. done.
    + apply NoDup_singleton.
  - intros r [Hr|[<-|[]]]%in_app_or; [auto|]. by split.
  - intros r [Hr|[<-|[]]]%in_app_or Hk Hb; [|by destruct Hb].
    eapply evidence_completed_mono; [|by apply Hev]. intros e He _ Hc. exists e.
    split; [apply in_or_app; auto|done].
Qed.

Lemma insert_or_ignore_wf o c p msg k due :
  preserves cleanup_wf (insert_or_ignore_target o c p msg k due).
Proof.
  apply preserves_modify. intros db Hwf. unfold cleanup_wf in *.
  destruct (sql_exists _ _) eqn:E; [done|]. simpl. by apply outbox_wf_insert.
Qed.
#[export] Hint Resolve insert_or_ignore_wf : preserves.

Lemma update_targets_wf p f :
  (forall db r, cleanup_wf db -> In r (cleanup_targets db) -> p db r = true -> row_coherent r ->
     row_step (cleanup_targets db) r (f r)) ->
  preserves cleanup_wf (update_targets p f).
Proof.
  intros Hf. apply preserves_execute. intros db Hwf. unfold cleanup_wf in *. simpl.
  apply outbox_wf_update; eauto.
Qed.

(** ** Every outbox operation preserves the invariant *)

Ltac outbox_step :=
  unfold holds_cleanup_lease, open_evidence in *; bool_hyps;
  repeat match goal with H : sql_eq _ _ = true |- _ => apply sql_eq_true in H end;
  match goal with
  | Hc : ct_completed ?x = true <-> _, Hl : is_some (ct_lease ?x) = true <-> _ |- _ =>
      split_and!; simpl;
      [ reflexivity
      | split; simpl;
          first [ exact Hc | exact Hl | split; congruence
                | split; [intros Ht; apply Hc in Ht; congruence | congruence] ]
      | first [ done | congruence ]
      | intros Hk Hb; first [ congruence | left; left; assumption | left; exact Hb ] ]
  end.

Ltac outbox_op := preserve; apply update_targets_wf; intros db x Hwf Hx Hp [Hc Hl]; outbox_step.

Lemma begin_cleanup_evidence_attempt_wf E id lease o :
  preserves cleanup_wf (begin_cleanup_evidence_attempt E id lease o).
Proof. unfold begin_cleanup_evidence_attempt. outbox_op. Qed.

Lemma resolve_cleanup_evidence_wf id l : preserves cleanup_wf (resolve_cleanup_evidence id l).
Proof. unfold resolve_cleanup_evidence. outbox_op. Qed.

Lemma retry_cleanup_evidence_wf now id m :
  preserves cleanup_wf (retry_cleanup_evidence_after_reconciliation now id m).
Proof. unfold retry_cleanup_evidence_after_reconciliation. outbox_op. Qed.

Lemma complete_cleanup_wf id lease l : preserves cleanup_wf (complete_cleanup id lease l).
Proof. unfold complete_cleanup. outbox_op. Qed.

Lemma fail_cleanup_wf now id lease ra m : preserves cleanup_wf (fail_cleanup now id lease ra m).
Proof. unfold fail_cleanup. outbox_op. Qed.

Lemma quarantine_cleanup_wf id lease m : preserves cleanup_wf (quarantine_cleanup id lease m).
Proof. unfold quarantine_cleanup. outbox_op. Qed.

Lemma make_cleanup_due_wf now o : preserves cleanup_wf (make_cleanup_due now o).
Proof. unfold make_cleanup_due. outbox_op. Qed.

(** The row a claim picks: due or expired, not done, and a message only after
    the evidence of its object. *)
Lemma select_cleanup_spec now t r :
  select_cleanup now t = Some r ->
  In r t /\ ct_completed r = false /\
  (ct_target_kind r = TargetKind.Message -> evidence_completed t (ct_object_id r) = true) /\
  ((one_of (ct_state r) [CleanupState.Pending; CleanupState.RetryWait] = true /\
    ct_due_at r <= now /\ ct_next_retry r <= now) \/
   (ct_state r = CleanupState.Running /\ ct_lease_until r < now /\
    (ct_target_kind r = TargetKind.Evidence -> ct_evidence_attempt_token r = None))).
Proof.
  unfold select_cleanup. intros H.
  destruct (sql_first (sql_where (claimable_evidence now) t)) as [e|] eqn:Ee.
  - simplify_eq. apply sql_first_where in Ee as [Hin Hp]. unfold claimable_evidence in Hp.
    bool_hyps. split_and!; [done|done|congruence|].
    apply orb_prop in H0 as [H0|H0]; bool_hyps; [left; done|right].
    split_and!; try done. intros _. by destruct (ct_evidence_attempt_token r).
  - apply sql_first_where in H as [Hin Hp]. unfold claimable_message in Hp. bool_hyps.
    split_and!; [done..|]. apply orb_prop in H1 as [H1|H1]; bool_hyps; [left; done|right].
    split_and!; try done. congruence.
Qed.

Lemma claim_cleanup_wf E : preserves cleanup_wf (claim_cleanup E).
Proof.
  unfold claim_cleanup. apply preserves_transaction. intros db Hwf.
  unfold mbind, M_bind, query.
  destruct (select_cleanup (now_at E 0) (cleanup_targets db)) as [x|] eqn:Es; [|done].
  unfold cleanup_wf in *. simpl. apply outbox_wf_update; [done|].
  intros y Hy Hp [Hc Hl]. apply select_cleanup_spec in Es as (Hin & Hnc & Hm & _).
  bool_hyps. assert (y = x) as -> by (destruct Hwf; eapply (NoDup_map_inj ct_id); eauto).
  split_and!; simpl; [reflexivity| |done|auto].
  split; simpl; [rewrite Hnc|]; by split.
Qed.

Lemma enqueue_manifest_cleanup_at_wf m due :
  preserves cleanup_wf (enqueue_manifest_cleanup_at m due).
Proof. unfold enqueue_manifest_cleanup_at. preserve. Qed.

Lemma enqueue_part_cleanup_preserving_wf E part kept :
  preserves cleanup_wf (enqueue_part_cleanup_preserving E part kept).
Proof. unfold enqueue_part_cleanup_preserving, cleanup_retention_secs. preserve. Qed.

#[export] Hint Resolve begin_cleanup_evidence_attempt_wf resolve_cleanup_evidence_wf
  retry_cleanup_evidence_wf complete_cleanup_wf fail_cleanup_wf quarantine_cleanup_wf
  make_cleanup_due_wf claim_cleanup_wf enqueue_manifest_cleanup_at_wf
  enqueue_part_cleanup_preserving_wf : preserves.

(** ** Behaviour lemmas *)

Lemma insert_or_ignore_present o c p msg k due db :
  sql_exists (same_message p msg)
    (cleanup_targets (insert_or_ignore_target o c p msg k due db).2) = true.
Proof.
  unfold insert_or_ignore_target, modify. simpl.
  destruct (sql_exists (same_message p msg) (cleanup_targets db)) eqn:E; simpl; [done|].
  apply sql_exists_true. exists (new_target (cleanup_seq db + 1) o c p msg k due).
  split; [apply in_or_app; right; by left|]. unfold same_message. simpl.
  by rewrite bool_decide_eq_true_2, Z.eqb_refl.
Qed.

(** Rows are only appended: what is queued stays queued. *)
Lemma insert_or_ignore_keeps x o c p msg k due :
  preserves (fun db => In x (cleanup_targets db)) (insert_or_ignore_target o c p msg k due).
Proof.
  apply preserves_modify. intros db H. destruct (sql_exists _ _); simpl; [done|].
  apply in_or_app. by left.
Qed.

Lemma insert_or_ignore_keeps_present q n o c p msg k due :
  preserves (fun db => sql_exists (same_message q n) (cleanup_targets db) = true)
    (insert_or_ignore_target o c p msg k due).
Proof.
  intros db H. apply sql_exists_true in H as (r & Hr & Hs). apply sql_exists_true. exists r.
  split; [|done]. by apply insert_or_ignore_keeps.
Qed.
#[export] Hint Resolve insert_or_ignore_keeps insert_or_ignore_keeps_present : preserves.

Lemma insert_or_ignore_ok o c p msg k due db :
  insert_or_ignore_target o c p msg k due db
  = (Ok tt, (insert_or_ignore_target o c p msg k due db).2).
Proof. done. Qed.

Lemma for_each_total {A} (f : A -> M unit) l db :
  (forall a d, In a l -> exists d', f a d = (Ok tt, d')) -> exists db', for_each f l db = (Ok tt, db').
Proof.
  revert db. induction l as [|a l IH]; simpl; intros db H; [by exists db|].
  destruct (H a db (or_introl eq_refl)) as [d Hd]. unfold mbind, M_bind. rewrite Hd.
  apply IH. intros; apply H; auto.
Qed.

Lemma enqueue_manifest_cleanup_keeps x m due :
  preserves (fun db => In x (cleanup_targets db)) (enqueue_manifest_cleanup_at m due).
Proof. unfold enqueue_manifest_cleanup_at. preserve. Qed.

(** Every durable message of the manifest, and its evidence, has an outbox row. *)
Record manifest_covered (m : ObjectManifest) (t : list CleanupRow) : Prop := {
  mc_evidence : sql_exists (same_message (evidence_peer (object_id m)) 0) t = true;
  mc_chunks : forall c, In c (chunks m) -> 0 < telegram_message_id c ->
    sql_exists (same_message (telegram_peer_id c) (telegram_message_id c)) t = true;
  mc_document : 0 < message_id (telegram m) ->
    sql_exists (same_message (peer_id (telegram m)) (message_id (telegram m))) t = true
}.

Lemma enqueue_manifest_cleanup_at_covered (m : ObjectManifest) (due : Z) (db : Db) :
  exists db', enqueue_manifest_cleanup_at m due db = (Ok tt, db') /\
    (forall r, In r (cleanup_targets db) -> In r (cleanup_targets db')) /\
    manifest_covered m (cleanup_targets db').
Proof.
  destruct (enqueue_manifest_cleanup_at m due db) as [res db'] eqn:Hrun.
  pose proof (fun x => enqueue_manifest_cleanup_keeps x m due db) as Hkeep. rewrite Hrun in Hkeep.
  unfold enqueue_manifest_cleanup_at, mbind, M_bind, query in Hrun.
  rewrite insert_or_ignore_ok in Hrun.
  set (conn := active_connection_id db) in *.
  set (d1 := (insert_or_ignore_target _ _ _ _ _ _ db).2) in *.
  match type of Hrun with context [for_each ?f (chunks m) d1] =>
    destruct (for_each_total f (chunks m) d1) as [d2 Hd2]; [|set (g := f) in *] end.
  { intros a d _. destruct (0 <? telegram_message_id a); [eexists; apply insert_or_ignore_ok|by exists d]. }
  rewrite Hd2 in Hrun. set (last := if 0 <? message_id (telegram m) then _ else _) in Hrun.
  assert (forall q n, preserves (fun db => sql_exists (same_message q n) (cleanup_targets db) = true) last)
    as Hlast by (intros q n; unfold last; preserve).
  assert (last d2 = (Ok tt, (last d2).2)) as Hl by (unfold last; by destruct (0 <? _)).
  rewrite Hl in Hrun. injection Hrun as <- <-.
  exists (last d2).2. split; [done|]. split; [exact Hkeep|split].
  - apply Hlast. change d2 with ((Ok (A:=unit) (E:=MetadataError) tt, d2).2). rewrite <- Hd2.
    apply (preserves_for_each (fun db =>
      sql_exists (same_message (evidence_peer (object_id m)) 0) (cleanup_targets db) = true)).
    + intros a _. unfold g. preserve.
    + apply insert_or_ignore_present.
  - intros c Hc Hpos. apply Hlast.
    refine (for_each_establishes (fun c db => 0 < telegram_message_id c ->
      sql_exists (same_message (telegram_peer_id c) (telegram_message_id c)) (cleanup_targets db) = true)
      g (chunks m) d1 tt d2 _ _ Hd2 c Hc Hpos).
    + intros a d [] d' _ Hg Ha. unfold g in Hg. destruct (Z.ltb_spec 0 (telegram_message_id a)); [|lia].
      rewrite insert_or_ignore_ok in Hg. injection Hg as <-. apply insert_or_ignore_present.
    + intros a b _ _ d Ha Hpa. unfold g. destruct (0 <? telegram_message_id b); [|by apply Ha].
      apply insert_or_ignore_keeps_present. by apply Ha.
  - intros Hpos. unfold last. destruct (Z.ltb_spec 0 (message_id (telegram m))); [|lia].
    apply insert_or_ignore_present.
Qed.

Lemma lease_used_up id lease lease' f db :
  cleanup_wf db -> (forall r, ct_id (f r) = ct_id r) -> (forall r, ct_lease (f r) = None) ->
  sql_count (holds_cleanup_lease id lease) (cleanup_targets db) = 1 ->
  sql_exists (holds_cleanup_lease id lease')
    (sql_update (holds_cleanup_lease id lease) f (cleanup_targets db)) = false.
Proof.
  intros [Hids _ _ _ _] Hid Hl Hn. apply sql_exists_false. intros r' Hr'.
  apply In_sql_update in Hr' as (r & Hr & ->).
  destruct (holds_cleanup_lease id lease r) eqn:Ep.
  - unfold holds_cleanup_lease. rewrite Hl. simpl. by rewrite andb_false_r.
  - destruct (holds_cleanup_lease id lease' r) eqn:Ep'; [|done]. exfalso.
    assert (sql_exists (holds_cleanup_lease id lease) (cleanup_targets db) = true) as Hex.
    { destruct (sql_exists _ _) eqn:E; [done|]. apply sql_count_zero in E. lia. }
    apply sql_exists_true in Hex as (s & Hs & Hps).
    assert (s = r) as ->; [|congruence].
    eapply (NoDup_map_inj ct_id); eauto. unfold holds_cleanup_lease in *. bool_hyps. congruence.
Qed.

(** ** Properties *)

(** a successful [claim_cleanup] picks a row that is not done and is either
    due or left behind by an expired lease; a message row only when the
    deletion evidence of its object is already durable; an evidence row left
    behind by a worker only when that worker had not started to upload it.
    The row becomes [Running] under the fresh lease for 120 seconds and no
    other row changes. *)
Theorem claim_cleanup_safe (E : Env) (db db' : Db) (t : CleanupTarget)
    (Hwf : cleanup_wf db) (H : claim_cleanup E db = (Ok (Some t), db')) :
  exists r, In r (cleanup_targets db) /\ ct_id r = cl_id t /\ ct_completed r = false /\
    (cl_kind t = TargetKind.Message -> evidence_completed (cleanup_targets db) (cl_object_id t) = true) /\
    (ct_state r = CleanupState.Running -> ct_lease_until r < now_at E 0 /\
       (cl_kind t = TargetKind.Evidence -> ct_evidence_attempt_token r = None)) /\
    ct_state r <> CleanupState.RecoveryRequired /\
    cleanup_targets db' = sql_update (fun x => ct_id x =? cl_id t)
      (fun x => x <| ct_state := CleanupState.Running |> <| ct_lease := Some (cl_lease t) |>
                  <| ct_lease_until := now_at E 0 + 120 |> <| ct_attempts ::= Z.add 1 |>
                  <| ct_error := None |>) (cleanup_targets db).
Proof.
  unfold claim_cleanup in H. rewrite transaction_ok in H. unfold mbind, M_bind, query in H.
  destruct (select_cleanup (now_at E 0) (cleanup_targets db)) as [r|] eqn:Es;
    unfold update_targets, execute, mret, M_ret in H; simpl in H; [|done].
  injection H as <- <-. simpl.
  pose proof (select_cleanup_spec _ _ _ Es) as (Hin & Hnc & Hm & Hcase). exists r.
  split; [done|]. split; [done|]. split; [done|]. split; [done|]. split_and!.
  - intros Hrun. destruct Hcase as [[Hp _]|(_ & ? & ?)]; [|by split].
    apply one_of_In in Hp. rewrite Hrun in Hp. by destruct Hp as [|[|[]]].
  - intros Hrec. destruct Hcase as [[Hp _]|(? & _)]; [|congruence].
    apply one_of_In in Hp. rewrite Hrec in Hp. by destruct Hp as [|[|[]]].
  - unfold sql_update. apply map_ext_in. intros x Hx. destruct (Z.eqb_spec (ct_id x) (ct_id r)); simpl; [|done].
    assert (x = r) as -> by (destruct Hwf; eapply (NoDup_map_inj ct_id); eauto). by rewrite Hnc.
Qed.

(** a completion uses its lease up: after [complete_cleanup] answered
    [true], no worker can complete the row again, whatever lease it presents,
    and a late failure or quarantine report changes nothing. *)
Theorem complete_cleanup_once (db db' : Db) (id : Z) (lease : string)
    (location : option TelegramLocation) (Hwf : cleanup_wf db)
    (H : complete_cleanup id lease location db = (Ok true, db')) :
  forall lease', (forall location', complete_cleanup id lease' location' db' = (Ok false, db')) /\
    (forall now ra m, fail_cleanup now id lease' ra m db' = (Ok tt, db')) /\
    (forall m, quarantine_cleanup id lease' m db' = (Ok tt, db')).
Proof.
  intros lease'. unfold complete_cleanup in H. unfold mbind, M_bind, update_targets, execute, mret, M_ret in H.
  injection H as Hn Hdb. apply Z.eqb_eq in Hn.
  assert (sql_exists (holds_cleanup_lease id lease') (cleanup_targets db') = false) as Hex.
  { rewrite <- Hdb. simpl. by apply lease_used_up. }
  assert (forall f, (db' <| cleanup_targets ::= sql_update (holds_cleanup_lease id lease') f |>) = db')
    as Hid.
  { intros f. by apply set_targets_id, sql_update_none. }
  unfold complete_cleanup, fail_cleanup, quarantine_cleanup, mbind, M_bind, update_targets, execute,
    mret, M_ret. apply sql_count_zero in Hex as Hz. split_and!; intros; rewrite ?Hz, Hid; done.
Qed.

(** queueing the cleanup of a manifest leaves nothing behind: it always
    succeeds, the evidence row of the object and every durable Telegram message
    the manifest names (each published chunk and the manifest document) have an
    outbox row, and the rows queued before are still there. *)
Theorem enqueue_manifest_cleanup_covers (now : Z) (m : ObjectManifest) (db : Db) :
  exists db', enqueue_manifest_cleanup now m db = (Ok tt, db') /\
    (forall r, In r (cleanup_targets db) -> In r (cleanup_targets db')) /\
    manifest_covered m (cleanup_targets db').
Proof. apply enqueue_manifest_cleanup_at_covered. Qed.

(** the worker's pause is always between one and sixty seconds. *)
Theorem cleanup_wake_delay_bounds (current : Z) (db : Db) :
  exists d, cleanup_wake_delay_secs current db = (Ok d, db) /\ 1 <= d <= 60.
Proof. unfold cleanup_wake_delay_secs, query. eexists. split; [done|]. lia. Qed.

(** ** Witnesses *)

Lemma cleanup_wf_empty : cleanup_wf empty_db.
Proof. split; simpl; first [apply List.NoDup_nil | done]. Qed.

(** An outbox with the deletion of one three-chunk object queued. *)
Definition sample_outbox : Db := (enqueue_manifest_cleanup_at (sample_manifest "o" "b" "k") 5 empty_db).2.

Lemma sample_outbox_wf : cleanup_wf sample_outbox.
Proof. apply enqueue_manifest_cleanup_at_wf, cleanup_wf_empty. Qed.

(** The same outbox after the evidence row was claimed. *)
Definition sample_claimed : Db := (claim_cleanup (sample_env 10 "lease-1") sample_outbox).2.

Lemma sample_claimed_wf : cleanup_wf sample_claimed.
Proof. apply claim_cleanup_wf, sample_outbox_wf. Qed.

Lemma claim_cleanup_safe_witness :
  exists r, In r (cleanup_targets sample_outbox) /\ ct_id r = 1 /\ ct_completed r = false.
Proof.
  destruct (claim_cleanup_safe (sample_env 10 "lease-1") sample_outbox sample_claimed
    {| cl_id := 1; cl_object_id := "o"; cl_connection_id := "legacy"; cl_peer_id := "evidence:o";
       cl_message_id := 0; cl_kind := TargetKind.Evidence; cl_lease := "lease-1" |}
    sample_outbox_wf) as (r & Hin & Hid & Hc & _); [vm_compute; reflexivity|].
  exists r. exact (conj Hin (conj Hid Hc)).
Defined.

Lemma complete_cleanup_once_witness :
  let db' := (complete_cleanup 1 "lease-1" None sample_claimed).2 in
  complete_cleanup 1 "lease-1" None db' = (Ok false, db').
Proof.
  intros db'.
  exact (proj1 (complete_cleanup_once sample_claimed db' 1 "lease-1" None sample_claimed_wf
                  ltac:(vm_compute; reflexivity) "lease-1") None).
Defined.

(** The pause does not take the retry instant of evidence rows into account:
    with the only row an evidence row that is due and may be retried in five
    seconds, the worker sleeps a full minute. *)
Theorem cleanup_wake_delay_ignores_evidence_retry :
  let db := (fail_cleanup 10 1 "lease-1" 5 "timeout" sample_claimed).2 in
  cleanup_wake_delay_secs 11 db = (Ok 60, db) /\
  is_some (select_cleanup 11 (cleanup_targets db)) = false /\
  is_some (select_cleanup 15 (cleanup_targets db)) = true.
Proof. split_and!; vm_compute; reflexivity. Qed.
