(* ===== verification/Transfers.v ===== *)
(** * Transfer jobs and send attempts ([src/src/durable.rs])

    An upload is a row of [transfer_jobs] that moves from [Receiving] to a
    settled state; each attempt to send one of its chunks to Telegram is a row
    of [transfer_send_attempts].  This file holds the data, the operations and
    the lemmas that say how each operation moves a row; [TransferSafety.v]
    proves the invariants of the whole state machine from them. *)

From stdpp Require Import pretty.
From S2P Require Import Prelude Errors Manifest Schema Cleanup.

(** ** Row views *)

Record TransferJob : Type := {
  j_id : string;
  j_object_id : string;
  j_connection_id : string;
  j_operation_id : option string;
  j_bucket : string;
  j_key : string;
  j_state : JobState.t;
  j_bytes : Z;
  j_chunks_done : Z;
  j_chunks_total : Z;
  j_attempts : Z;
  j_next_retry : Z;
  j_lease : option string;
  j_write_conditionals : option TransferWriteConditionals;
  j_error : option string;
  j_created_at : Z;
  j_updated_at : Z
}.

Definition row_job (r : TransferRow) : TransferJob :=
  {| j_id := tj_id r; j_object_id := tj_object_id r; j_connection_id := tj_connection_id r;
     j_operation_id := tj_operation_id r; j_bucket := tj_bucket r; j_key := tj_object_key r;
     j_state := tj_state r; j_bytes := tj_bytes r; j_chunks_done := tj_chunks_done r;
     j_chunks_total := tj_chunks_total r; j_attempts := tj_attempts r;
     j_next_retry := tj_next_retry r; j_lease := tj_lease r;
     j_write_conditionals := tj_write_conditionals r; j_error := tj_error r;
     j_created_at := tj_created_at r; j_updated_at := tj_updated_at r |}.

Record SendAttempt : Type := {
  at_id : string;
  at_token : string;
  at_started_at : Z
}.

Record UnresolvedSendAttempt : Type := {
  ua_job_id : string;
  ua_order : Z;
  ua_id : string;
  ua_token : string;
  ua_started_at : Z
}.

(** ** Predicates of the statements *)

Definition has_id (id : string) (r : TransferRow) : bool := bool_decide (tj_id r = id).

Definition in_states (l : list JobState.t) (r : TransferRow) : bool := one_of (tj_state r) l.
#[global] Arguments in_states : simpl never.

(** [('uploading','committing')] *)
Definition live : list JobState.t := [JobState.Uploading; JobState.Committing].

(** [('completed','cleaned','cancelled','reception_failed','superseded')] *)
Definition settled : list JobState.t :=
  [JobState.Completed; JobState.Cleaned; JobState.Cancelled; JobState.ReceptionFailed;
   JobState.Superseded].

(** [bucket=.. AND object_key=..] *)
Definition same_key (a b : TransferRow) : bool :=
  bool_decide (tj_bucket a = tj_bucket b) && bool_decide (tj_object_key a = tj_object_key b).

(** [EXISTS(SELECT 1 FROM transfer_send_attempts WHERE job_id=.. AND state IN ..)] *)
Definition has_attempt (states : list AttemptState.t) (db : Db) (id : string) : bool :=
  sql_exists (fun a => bool_decide (sa_job_id a = id) && one_of (sa_state a) states)
    (send_attempts db).

Definition ambiguous : Db -> string -> bool :=
  has_attempt [AttemptState.Sending; AttemptState.Unknown].

(** [a.state='retryable' AND a.error_kind='telegram_flood_wait'] *)
Definition has_flood_wait (db : Db) (id : string) : bool :=
  sql_exists (fun a => bool_decide (sa_job_id a = id)
                       && bool_decide (sa_state a = AttemptState.Retryable)
                       && sql_eq (sa_error_kind a) "telegram_flood_wait") (send_attempts db).

(** [id=?1 AND lease=?2 AND state IN ('uploading','committing')] *)
Definition holds_lease (id lease : string) (r : TransferRow) : bool :=
  has_id id r && sql_eq (tj_lease r) lease && in_states live r.

Definition find_job (id : string) (db : Db) : option TransferRow :=
  sql_first (sql_where (has_id id) (transfer_jobs db)).

(** ** Reception *)

Definition new_job (seq : Z) (id connection bucket key : string) (now : Z) : TransferRow :=
  {| tj_sequence := seq; tj_id := id; tj_object_id := id; tj_connection_id := connection;
     tj_operation_id := None; tj_bucket := bucket; tj_object_key := key;
     tj_state := JobState.Receiving; tj_bytes := 0; tj_chunks_done := 0; tj_chunks_total := 0;
     tj_attempts := 0; tj_next_retry := 0; tj_lease := None; tj_lease_until := now + 120;
     tj_write_conditionals := None; tj_error := None; tj_created_at := now;
     tj_updated_at := now |}.

(** [EXISTS(SELECT 1 FROM buckets WHERE name=?2 AND deleted_at IS NULL)] *)
Definition bucket_exists (name : string) (db : Db) : bool :=
  match buckets db !! name with Some b => negb (is_some (bk_deleted_at b)) | None => false end.

Definition begin_transfer (E : Env) (object_id : Uuid) (bucket key : string) : M string :=
  ok ← query (bucket_exists bucket);
  ensure ok (BucketNotFound bucket) ;;
  taken ← query (fun db => sql_exists (has_id object_id) (transfer_jobs db));
  ensure (negb taken) (Sqlite "UNIQUE constraint failed: transfer_jobs.id") ;;
  modify (fun db =>
    db <| transfer_jobs ::= (fun t => t ++ [new_job (transfer_seq db + 1) object_id
                               (active_connection_id db) bucket key (now_at E 0)]) |>
       <| transfer_seq := transfer_seq db + 1 |>) ;;
  mret object_id.

Definition renew_receiving (E : Env) (id : string) : M bool :=
  n ← update_jobs (fun _ r => has_id id r && in_states [JobState.Receiving] r)
    (fun r => r <| tj_lease_until := now_at E 0 + 120 |> <| tj_updated_at := now_at E 0 |>);
  mret (n =? 1).

(** The bytes that count against the staging budget. *)
Definition staged_bytes (db : Db) : Z :=
  sql_sum tj_bytes (sql_where (fun r => negb (in_states [JobState.Completed; JobState.Cleaned] r))
                      (transfer_jobs db)).

(** [bytes] is a [u64] that must fit SQLite's [i64]. *)
Definition reserve_staging (E : Env) (id : string) (bytes budget : Z) : M unit := transaction (
  used ← query staged_bytes;
  ensure (u64_saturating_add used bytes <=? budget) (InvalidManifest "staging capacity exhausted") ;;
  ensure (bytes <=? I64_MAX) (Sqlite "out of range integral type conversion") ;;
  n ← update_jobs (fun _ r => has_id id r && in_states [JobState.Receiving] r)
    (fun r => r <| tj_bytes ::= Z.add bytes |> <| tj_updated_at := now_at E 0 |>
                <| tj_lease_until := now_at E 0 + 120 |>);
  ensure (n =? 1) (InvalidManifest "upload is no longer receiving")).

Definition set_transfer_conditionals (E : Env) (id : string)
    (conditionals : option TransferWriteConditionals) : M unit :=
  n ← update_jobs (fun _ r => has_id id r && in_states [JobState.Receiving] r)
    (fun r => r <| tj_write_conditionals := conditionals |> <| tj_updated_at := now_at E 0 |>);
  ensure (n =? 1) (InvalidManifest "transfer conditionals could not be recorded").

Definition queue_transfer (E : Env) (id : string) (operation : Uuid) (chunks : Z) : M unit :=
  n ← update_jobs (fun _ r => has_id id r && in_states [JobState.Receiving] r)
    (fun r => r <| tj_operation_id := Some operation |> <| tj_chunks_total := u64_as_i64 chunks |>
                <| tj_state := JobState.Queued |> <| tj_updated_at := now_at E 0 |>
                <| tj_lease_until := 0 |>);
  ensure (n =? 1) (InvalidManifest "upload cannot be queued").

(** The three statements that forget what an unpublished object staged. *)
Definition discard_staged (id : string) : M unit := modify (fun db =>
  db <| recovery_markers ::= filter (fun '(_, m) => rm_object_id m <> id) |>
     <| operation_journal ::= filter (fun '(_, j) =>
          ~ (oj_object_id j = id /\ oj_state j = JournalState.Staging)) |>
     <| object_manifests ::= filter (fun '(o, m) =>
          ~ (o = id /\ om_commit_state m = CommitState.Staging)) |>
     <| active_objects ::= filter (fun '(_, a) =>
          ~ (ao_object_id a = id /\
             (om_commit_state <$> object_manifests db !! id) = Some CommitState.Staging)) |>).

Definition fail_reception (E : Env) (id : string) (files_removed : bool) (message : string)
    : M bool := transaction (
  n ← update_jobs (fun _ r => has_id id r && in_states [JobState.Receiving] r)
    (fun r => r <| tj_state := if files_removed then JobState.ReceptionFailed
                               else JobState.RecoveryRequired |>
                <| tj_bytes ::= (fun b => if files_removed then 0 else b) |>
                <| tj_lease := None |> <| tj_lease_until := 0 |> <| tj_error := Some message |>
                <| tj_updated_at := now_at E 0 |>);
  (if n =? 1 then discard_staged id else mret tt) ;;
  mret (n =? 1)).

Definition reject_transfer_for_quota (E : Env) (id message : string) : M bool := transaction (
  n ← update_jobs (fun _ r => has_id id r && in_states live r)
    (fun r => r <| tj_state := JobState.ReceptionFailed |> <| tj_bytes := 0 |>
                <| tj_lease := None |> <| tj_lease_until := 0 |> <| tj_error := Some message |>
                <| tj_updated_at := now_at E 0 |>);
  (if n =? 1 then discard_staged id else mret tt) ;;
  mret (n =? 1)).

(** ** Queries *)

Definition transfer (id : string) : M (option TransferJob) :=
  query (fun db => row_job <$> find_job id db).

(** The jobs of the active connection that no removal in progress hides, newest
    first. *)
Definition being_removed (db : Db) (object_id : string) : bool :=
  sql_exists (fun o => bool_decide (ro_object_id o = object_id) &&
    sql_exists (fun j => bool_decide (rj_id j = ro_job_id o) &&
      one_of (rj_state j) [RemovalState.Pending; RemovalState.Running;
                           RemovalState.RemoteCleanupPending]) (connection_removal_jobs db))
    (connection_removal_objects db).

Definition transfers (limit offset : Z) : M (list TransferJob) := query (fun db =>
  map row_job (take (Z.to_nat (Z.min limit 100)) (drop (Z.to_nat offset)
    (rev (sql_where (fun r => bool_decide (tj_connection_id r = active_connection_id db)
                              && negb (being_removed db (tj_object_id r)))
                    (transfer_jobs db)))))).

Definition transfers_for_local_cleanup (limit : Z) : M (list TransferJob) := query (fun db =>
  map row_job (take (Z.to_nat (Z.min limit 100))
    (sql_where (in_states [JobState.Completed; JobState.Cancelled; JobState.ReceptionFailed;
                           JobState.Superseded]) (transfer_jobs db)))).

Definition multipart_job (id : string) : M (option (string * Z)) := query (fun db =>
  match sql_first (sql_where (fun m => bool_decide (mj_job_id m = id)) (multipart_jobs db)) with
  | Some m => Some (mj_upload_id m, mj_part_number m)
  | None => None
  end).

Definition active_multipart_part_transfer (upload_id : Uuid) (part_number : Z)
    : M (option TransferJob) := query (fun db =>
  row_job <$> sql_first (sql_where (fun j =>
    in_states [JobState.Receiving; JobState.Queued; JobState.RetryWait; JobState.Uploading;
               JobState.Committing; JobState.RecoveryRequired] j
    && sql_exists (fun m => bool_decide (mj_job_id m = tj_id j)
         && bool_decide (mj_upload_id m = upload_id) && (mj_part_number m =? part_number))
         (multipart_jobs db)) (transfer_jobs db))).

(** ** Claiming: the statements of [claim_transfer], in order *)

Definition expire_receptions (now : Z) : M Z :=
  update_jobs (fun _ r => in_states [JobState.Receiving] r && (tj_lease_until r <? now))
    (fun r => r <| tj_state := JobState.RecoveryRequired |>
                <| tj_error := Some "Reception interrupted; upload the source file again" |>).

Definition quarantine_ambiguous (now : Z) : M Z :=
  update_jobs (fun db r => in_states live r && (tj_lease_until r <? now)
                           && ambiguous db (tj_id r))
    (fun r => r <| tj_state := JobState.RecoveryRequired |> <| tj_lease := None |>
                <| tj_lease_until := 0 |>
                <| tj_error := Some
       "Telegram acknowledgement is unknown; automatic reconciliation is pending" |>).

(** No worker can still report on the attempts of this job. *)
Definition abandoned (now : Z) (r : TransferRow) : bool :=
  (in_states [JobState.RecoveryRequired] r && negb (is_some (tj_lease r)))
  || (in_states live r && (tj_lease_until r <? now)).

Definition normalize_attempts (now : Z) : M Z :=
  update_attempts (fun db a =>
      bool_decide (sa_state a = AttemptState.Sending)
      && sql_exists (fun r => has_id (sa_job_id a) r && abandoned now r) (transfer_jobs db))
    (fun a => a <| sa_state := AttemptState.Unknown |> <| sa_error_kind := Some "lease_expired" |>
                <| sa_error := Some "Worker lease expired before Telegram acknowledgement" |>
                <| sa_finished_at := Some now |>).

(** The job belongs to a multipart session that no longer takes its part. *)
Definition session_closed (db : Db) (id : string) : bool :=
  sql_exists (fun p => bool_decide (mj_job_id p = id) &&
    match multipart_uploads db !! mj_upload_id p with
    | None => false
    | Some u =>
        ((mj_part_number p =? 0) && negb (one_of (mu_state u)
           [MultipartState.Initiated; MultipartState.Uploading; MultipartState.Completing]))
        || ((0 <? mj_part_number p) && negb (one_of (mu_state u)
           [MultipartState.Initiated; MultipartState.Uploading]))
    end) (multipart_jobs db).

Definition cancel_closed_sessions : M Z :=
  update_jobs (fun db r => session_closed db (tj_id r)
      && in_states [JobState.Queued; JobState.RetryWait; JobState.RecoveryRequired] r)
    (fun r => r <| tj_state := JobState.Cancelled |> <| tj_lease := None |>
                <| tj_lease_until := 0 |>
                <| tj_error := Some "Multipart session closed before transfer publication" |>).

Definition newer_published (db : Db) (r : TransferRow) : bool :=
  sql_exists (fun newer => same_key newer r && (tj_sequence r <? tj_sequence newer)
      && in_states [JobState.Completed; JobState.Cleaned] newer) (transfer_jobs db).

Definition supersede_older : M Z :=
  update_jobs (fun db old => in_states [JobState.Queued; JobState.RetryWait; JobState.Uploading;
                 JobState.Committing; JobState.RecoveryRequired] old && newer_published db old)
    (fun r => r <| tj_state := JobState.Superseded |> <| tj_lease := None |>
                <| tj_lease_until := 0 |>
                <| tj_error := Some "Superseded by a newer committed write" |>).

Definition older_pending (db : Db) (candidate : TransferRow) : bool :=
  sql_exists (fun older => same_key older candidate
      && (tj_sequence older <? tj_sequence candidate) && negb (in_states settled older))
    (transfer_jobs db).

Definition claimable (now : Z) (db : Db) (candidate : TransferRow) : bool :=
  ((in_states [JobState.Queued; JobState.RetryWait] candidate
    && (tj_next_retry candidate <=? now))
   || (in_states live candidate && (tj_lease_until candidate <? now)))
  && negb (ambiguous db (tj_id candidate))
  && negb (older_pending db candidate).

Definition select_transfer (now : Z) (db : Db) : option TransferRow :=
  sql_first (sql_where (claimable now db) (transfer_jobs db)).

Definition take_lease (now : Z) (id lease : string) : M Z :=
  update_jobs (fun _ => has_id id)
    (fun r => r <| tj_state := JobState.Uploading |> <| tj_lease := Some lease |>
                <| tj_lease_until := now + 120 |> <| tj_attempts ::= Z.add 1 |>
                <| tj_updated_at := now |>).

(** The durable recovery work that precedes every claim. *)
Definition recover_transfers (E : Env) : M unit :=
  expire_receptions (now_at E 0) ;;
  quarantine_ambiguous (now_at E 1) ;;
  normalize_attempts (now_at E 2) ;;
  cancel_closed_sessions ;;
  supersede_older ;;
  mret tt.

Definition claim_transfer (E : Env) : M (option TransferJob) := transaction (
  recover_transfers E ;;
  row ← query (select_transfer (now_at E 3));
  match row with
  | None => mret None
  | Some r =>
      take_lease (now_at E 4) (tj_id r) (new_v4 E 0) ;;
      job ← query (find_job (tj_id r));
      job ← some_or job (Sqlite "Query returned no rows");
      mret (Some (row_job job))
  end).

Definition renew_transfer (E : Env) (id lease : string) : M bool :=
  n ← update_jobs (fun _ => holds_lease id lease)
    (fun r => r <| tj_lease_until := now_at E 0 + 120 |> <| tj_updated_at := now_at E 0 |>);
  mret (n =? 1).

(** ** Send attempts *)

(** The fence of both ends of a send: the caller still holds a live lease. *)
Definition lease_valid (id lease : string) (now : Z) (db : Db) : bool :=
  sql_exists (fun r => holds_lease id lease r && (now <=? tj_lease_until r)) (transfer_jobs db).

(** [job_id=?1 AND chunk_order=?2 AND attempt_id=?3] *)
Definition is_attempt (id : string) (order : Z) (attempt : string) (a : AttemptRow) : bool :=
  bool_decide (sa_job_id a = id) && (sa_chunk_order a =? order)
  && bool_decide (sa_attempt_id a = attempt).

Definition new_attempt (id : string) (order : Z) (attempt token : string) (started : Z)
    : AttemptRow :=
  {| sa_job_id := id; sa_chunk_order := order; sa_attempt_id := attempt;
     sa_attempt_token := token; sa_state := AttemptState.Sending; sa_started_at := started;
     sa_finished_at := None; sa_location := None; sa_error_kind := None; sa_error := None;
     sa_retryable := false |}.

Definition insert_attempt (row : AttemptRow) : M unit :=
  taken ← query (fun db => sql_exists
    (is_attempt (sa_job_id row) (sa_chunk_order row) (sa_attempt_id row)) (send_attempts db));
  ensure (negb taken) (Sqlite "UNIQUE constraint failed: transfer_send_attempts") ;;
  parent ← query (fun db => sql_exists (has_id (sa_job_id row)) (transfer_jobs db));
  ensure parent (Sqlite "FOREIGN KEY constraint failed") ;;
  modify (fun db => db <| send_attempts ::= (fun t => t ++ [row]) |>).

Definition begin_send_attempt (E : Env) (id lease : string) (order : Z) : M SendAttempt :=
  let attempt := new_v4 E 0 in
  let token := "telegram-s3-" +:+ id +:+ "-" +:+ pretty order +:+ "-" +:+ attempt in
  let started_at := now_at E 0 in
  transaction (
    valid ← query (lease_valid id lease (now_at E 1));
    ensure valid (InvalidManifest "transfer lease lost") ;;
    insert_attempt (new_attempt id order attempt token started_at)) ;;
  mret {| at_id := attempt; at_token := token; at_started_at := started_at |}.

(** [INSERT INTO transfer_chunks .. ON CONFLICT(job_id,chunk_order) DO UPDATE] *)
Definition is_chunk (id : string) (order : Z) (c : ChunkRow) : bool :=
  bool_decide (tc_job_id c = id) && (tc_chunk_order c =? order).

Definition upsert_chunk (id : string) (order : Z) (location : TelegramLocation) : M unit :=
  parent ← query (fun db => sql_exists (has_id id) (transfer_jobs db));
  ensure parent (Sqlite "FOREIGN KEY constraint failed") ;;
  let row := {| tc_job_id := id; tc_chunk_order := order; tc_location := location |} in
  modify (fun db => db <| transfer_chunks ::= (fun t =>
    if sql_exists (is_chunk id order) t then sql_update (is_chunk id order) (fun _ => row) t
    else t ++ [row]) |>).

(** The published chunks of a job; [u32::MAX] is the manifest document. *)
Definition chunks_published (id : string) (db : Db) : Z :=
  sql_count (fun c => bool_decide (tc_job_id c = id) && (tc_chunk_order c <? 4294967295))
    (transfer_chunks db).

Definition count_chunks (now : Z) (id : string) : M Z :=
  execute (fun db => sql_count (has_id id) (transfer_jobs db))
    (fun db => db <| transfer_jobs ::= sql_update (has_id id)
       (fun r => r <| tj_chunks_done := chunks_published id db |> <| tj_updated_at := now |>) |>).

Definition finish_send_attempt (E : Env) (id lease : string) (order : Z) (attempt : string)
    (location : TelegramLocation) : M unit := transaction (
  valid ← query (lease_valid id lease (now_at E 0));
  ensure valid (InvalidManifest "transfer lease lost") ;;
  n ← update_attempts (fun _ a => is_attempt id order attempt a
                                 && bool_decide (sa_state a = AttemptState.Sending))
    (fun a => a <| sa_state := AttemptState.Checkpointed |> <| sa_location := Some location |>
                <| sa_finished_at := Some (now_at E 1) |> <| sa_error_kind := None |>
                <| sa_error := None |> <| sa_retryable := false |>);
  ensure (n =? 1) (InvalidManifest "send attempt fence lost") ;;
  upsert_chunk id order location ;;
  count_chunks (now_at E 2) id ;;
  mret tt).

Definition job_leased (id lease : string) (db : Db) : bool :=
  sql_exists (holds_lease id lease) (transfer_jobs db).

Definition mark_send_attempt_unknown (E : Env) (id lease : string) (order : Z)
    (attempt error_kind error : string) : M unit :=
  n ← update_attempts (fun db a => is_attempt id order attempt a
        && bool_decide (sa_state a = AttemptState.Sending) && job_leased id lease db)
    (fun a => a <| sa_state := AttemptState.Unknown |> <| sa_error_kind := Some error_kind |>
                <| sa_error := Some error |> <| sa_finished_at := Some (now_at E 0) |>
                <| sa_retryable := false |>);
  ensure (n =? 1) (InvalidManifest "send attempt could not be marked unknown").

Definition mark_send_attempt_retryable (E : Env) (id lease : string) (order : Z)
    (attempt error_kind error : string) : M unit :=
  n ← update_attempts (fun db a => is_attempt id order attempt a
        && bool_decide (sa_state a = AttemptState.Sending) && job_leased id lease db)
    (fun a => a <| sa_state := AttemptState.Retryable |> <| sa_error_kind := Some error_kind |>
                <| sa_error := Some error |> <| sa_finished_at := Some (now_at E 0) |>
                <| sa_retryable := true |>);
  ensure (n =? 1) (InvalidManifest "send attempt could not be marked retryable").

(** [UPPER(COALESCE(error,'')) LIKE '%FLOOD_WAIT%'] *)
Definition mentions_flood_wait (a : AttemptRow) : bool :=
  sql_like "%FLOOD_WAIT%" (sql_upper (match sa_error a with Some e => e | None => "" end)).

Definition reclassify_flood_wait_attempts (E : Env) (retry_after : Z) : M Z := transaction (
  let timestamp := now_at E 0 in
  let retry_at := i64_saturating_add timestamp (u64_as_i64 (Z.max retry_after 1)) in
  changed ← update_attempts (fun _ a => bool_decide (sa_state a = AttemptState.Unknown)
                                       && mentions_flood_wait a)
    (fun a => a <| sa_state := AttemptState.Retryable |>
                <| sa_error_kind := Some "telegram_flood_wait" |>
                <| sa_finished_at ::= (fun f => match f with Some t => Some t
                                                        | None => Some timestamp end) |>
                <| sa_retryable := true |>);
  update_jobs (fun db r => in_states [JobState.RecoveryRequired] r && has_flood_wait db (tj_id r))
    (fun r => r <| tj_next_retry ::= Z.max retry_at |> <| tj_updated_at := timestamp |>) ;;
  update_jobs (fun db r => in_states [JobState.RecoveryRequired] r
                           && negb (ambiguous db (tj_id r)) && has_flood_wait db (tj_id r))
    (fun r => r <| tj_state := JobState.RetryWait |>
                <| tj_error := Some "Telegram rate limit detected; retry scheduled" |>
                <| tj_next_retry ::= Z.max retry_at |> <| tj_lease := None |>
                <| tj_lease_until := 0 |> <| tj_updated_at := timestamp |>) ;;
  mret changed).

(** [ORDER BY chunk_order] over the rows of the primary key, whose next column
    is the attempt id. *)
Definition attempt_le (a b : AttemptRow) : Prop :=
  sa_chunk_order a < sa_chunk_order b \/
  (sa_chunk_order a = sa_chunk_order b /\ text_le (sa_attempt_id a) (sa_attempt_id b) = true).

#[export] Instance attempt_le_dec : RelDecision attempt_le.
Proof. intros a b. unfold attempt_le. apply _. Defined.

Definition unresolved_send_attempts (id : string) : M (list UnresolvedSendAttempt) :=
  query (fun db =>
    map (fun a => {| ua_job_id := sa_job_id a; ua_order := sa_chunk_order a;
                     ua_id := sa_attempt_id a; ua_token := sa_attempt_token a;
                     ua_started_at := sa_started_at a |})
      (merge_sort attempt_le (sql_where (fun a => bool_decide (sa_job_id a = id)
         && bool_decide (sa_state a = AttemptState.Unknown)) (send_attempts db)))).

Definition resolve_send_attempt (E : Env) (attempt : UnresolvedSendAttempt)
    (location : option TelegramLocation) (error : option string) : M unit := transaction (
  n ← update_attempts (fun _ a => is_attempt (ua_job_id attempt) (ua_order attempt) (ua_id attempt) a
                                 && bool_decide (sa_state a = AttemptState.Unknown))
    (fun a => a <| sa_state := match location with Some _ => AttemptState.Checkpointed
                                              | None => AttemptState.Retryable end |>
                <| sa_location ::= (fun old => match location with Some l => Some l
                                                              | None => old end) |>
                <| sa_error_kind := match location with Some _ => None
                                       | None => Some "reconciliation_absent" end |>
                <| sa_error := error |> <| sa_finished_at := Some (now_at E 0) |>
                <| sa_retryable := negb (is_some location) |>);
  ensure (n =? 1) (InvalidManifest "send attempt resolution fence lost") ;;
  match location with
  | Some l => upsert_chunk (ua_job_id attempt) (ua_order attempt) l
  | None => mret tt
  end ;;
  count_chunks (now_at E 1) (ua_job_id attempt) ;;
  mret tt).

Definition queue_after_reconciliation (E : Env) (id : string) : M bool :=
  let now := now_at E 0 in
  n ← execute (fun db => sql_count (fun r => has_id id r && in_states [JobState.RecoveryRequired] r
                                             && negb (ambiguous db id)) (transfer_jobs db))
    (fun db => db <| transfer_jobs ::= sql_update
       (fun r => has_id id r && in_states [JobState.RecoveryRequired] r && negb (ambiguous db id))
       (fun r =>
          let wait := has_flood_wait db (tj_id r) && (now <? tj_next_retry r) in
          r <| tj_state := if wait then JobState.RetryWait else JobState.Queued |>
            <| tj_error := Some (if wait then "Telegram rate limit detected; retry scheduled"
                                 else "Automatic reconciliation completed; retry scheduled") |>
            <| tj_next_retry ::= (fun t => if wait then t else 0) |>
            <| tj_updated_at := now |>) |>);
  mret (n =? 1).

(** How many values a statement expects: a bare [?] takes the number after the
    largest one before it, [?n] names its own. *)
Fixpoint parameter_count (largest : Z) (params : list (option Z)) : Z :=
  match params with
  | [] => largest
  | None :: ps => parameter_count (largest + 1) ps
  | Some n :: ps => parameter_count (Z.max largest n) ps
  end.

(** [UPDATE transfer_jobs SET error=?,updated_at=?2 WHERE id=?1 AND ..] with the
    three values [params![id, message, now()]]; rusqlite refuses to run a
    statement with a different number of values.  (Were the counts equal, the
    bare [?] would be [?1].) *)
Definition set_transfer_error (E : Env) (id message : string) : M bool :=
  ensure (parameter_count 0 [None; Some 2; Some 1] =? 3)
    (Sqlite "Wrong number of parameters passed to query") ;;
  n ← update_jobs (fun _ r => has_id id r && in_states [JobState.RecoveryRequired] r)
    (fun r => r <| tj_error := Some id |> <| tj_updated_at := now_at E 0 |>);
  mret (n =? 1).

Definition checkpoint_location (id : string) (order : Z) : M (option TelegramLocation) :=
  query (fun db => tc_location <$> sql_first (sql_where (is_chunk id order) (transfer_chunks db))).

(** ** Outcomes *)

Definition transfer_failed (E : Env) (id lease : string) (retry_after : option Z) (message : string)
    : M unit :=
  amb ← query (fun db => ambiguous db id);
  let state := if (amb : bool) then JobState.RecoveryRequired
               else if is_some retry_after then JobState.RetryWait
               else JobState.RecoveryRequired in
  let error := if amb then "Telegram acknowledgement is unknown; automatic reconciliation is pending"
               else message in
  let delay := match retry_after with Some s => s | None => 0 end in
  update_jobs (fun _ => holds_lease id lease)
    (fun r => r <| tj_state := state |> <| tj_error := Some error |>
                <| tj_next_retry := i64_saturating_add (now_at E 0) (u64_as_i64 delay) |>
                <| tj_lease := None |> <| tj_lease_until := 0 |>
                <| tj_updated_at := now_at E 1 |>) ;;
  mret tt.

Definition parked : list JobState.t :=
  [JobState.Queued; JobState.RetryWait; JobState.RecoveryRequired].

Definition retry_transfer (id : string) : M bool :=
  n ← update_jobs (fun db r => has_id id r
         && in_states [JobState.RetryWait; JobState.RecoveryRequired] r
         && is_some (tj_operation_id r) && negb (ambiguous db id))
    (fun r => r <| tj_state := JobState.Queued |> <| tj_error := None |> <| tj_next_retry := 0 |>);
  mret (n =? 1).

Definition cancel_transfer (E : Env) (id : string) : M bool := transaction (
  row ← query (fun db => sql_first (sql_where (fun r => has_id id r && in_states parked r)
                                      (transfer_jobs db)));
  match row with
  | None => mret false
  | Some r =>
      let object_id := tj_object_id r in
      connection_id ← query active_connection_id;
      locations ← query (fun db => map tc_location
        (sql_where (fun c => bool_decide (tc_job_id c = id)) (transfer_chunks db)));
      match locations with
      | [] => mret tt
      | _ =>
          insert_or_ignore_target object_id connection_id (evidence_peer object_id) 0
            TargetKind.Evidence (now_at E 0) ;;
          for_each (fun '(i, l) =>
            insert_or_ignore_target object_id connection_id (peer_id l) (message_id l)
              TargetKind.Message (now_at E (S i))) (imap pair locations)
      end ;;
      n ← update_jobs (fun _ r => has_id id r && in_states parked r)
        (fun r => r <| tj_state := JobState.Cancelled |>
                    <| tj_error := Some "Cancelled; staged data queued for local discard" |>
                    <| tj_lease := None |> <| tj_lease_until := 0 |>
                    <| tj_updated_at := now_at E (S (length locations)) |>);
      mret (n =? 1)
  end).

Definition transfer_action (E : Env) (id action : string) : M bool :=
  if bool_decide (action = "retry") then retry_transfer id
  else if negb (bool_decide (action = "cancel")) then mret false
  else cancel_transfer E id.

(** The publication fence of [publish_transfer]. *)
Definition publication_fence (E : Env) (id lease : string) : M unit :=
  n ← update_jobs (fun _ r => has_id id r && sql_eq (tj_lease r) lease
                             && in_states [JobState.Uploading] r && (now_at E 0 <=? tj_lease_until r))
    (fun r => r <| tj_state := JobState.Committing |>);
  ensure (n =? 1) (InvalidManifest "publication fence lost").

(** The database statement of [cleanup_completed_staging], once the staged
    files of the job are gone. *)
Definition mark_cleaned (id : string) : M unit :=
  update_jobs (fun _ r => has_id id r && in_states [JobState.Completed; JobState.Cancelled;
                            JobState.ReceptionFailed; JobState.Superseded] r)
    (fun r => r <| tj_state := JobState.Cleaned |> <| tj_bytes := 0 |>) ;;
  mret tt.

Definition purge_connection_operations (connection_id : string) : M unit := modify (fun db =>
  let of_connection (id : string) :=
    sql_exists (fun r => has_id id r && bool_decide (tj_connection_id r = connection_id))
      (transfer_jobs db) in
  let upload_of_connection (id : string) :=
    match multipart_uploads db !! id with
    | Some u => bool_decide (mu_connection_id u = connection_id)
    | None => false
    end in
  db <| send_attempts ::= sql_delete (fun a => of_connection (sa_job_id a)) |>
     <| transfer_chunks ::= sql_delete (fun c => of_connection (tc_job_id c)) |>
     <| multipart_jobs ::= sql_delete (fun m => of_connection (mj_job_id m)) |>
     <| transfer_jobs ::= sql_delete (fun r => bool_decide (tj_connection_id r = connection_id)) |>
     <| multipart_parts ::= sql_delete (fun p => upload_of_connection (mp_upload_id p)) |>
     <| multipart_uploads ::= filter (fun '(_, u) => mu_connection_id u <> connection_id) |>).
