(* ===== verification/TransferSafety.v ===== *)
(** * Safety of the transfer state machine ([src/src/durable.rs])

    The lifecycle graph of an upload, the invariant of the transfer tables and,
    for every operation of [Transfers.v], the fact that it keeps the invariant
    and moves jobs along the graph only.  The properties: one publication at a
    time and in order per key, no chunk sent again while the outcome of an
    earlier send is in doubt, leases fence every report of a worker, and the
    staging budget is never exceeded. *)

From S2P Require Import Prelude Errors Manifest Schema Cleanup Transfers.

(** ** The lifecycle *)

(** What the code moves a job to from each state.  A worker that lost its lease
    while committing is replaced by one that uploads again; deletion, abort and
    removal of the connection may cancel a job that has not been published. *)
Definition may_become (s : JobState.t) : list JobState.t :=
  match s with
  | JobState.Receiving =>
      [JobState.Queued; JobState.RecoveryRequired; JobState.ReceptionFailed;
       JobState.Cancelled; JobState.Superseded]
  | JobState.Queued => [JobState.Uploading; JobState.Cancelled; JobState.Superseded]
  | JobState.RetryWait =>
      [JobState.Queued; JobState.Uploading; JobState.Cancelled; JobState.Superseded]
  | JobState.Uploading =>
      [JobState.Committing; JobState.Completed; JobState.RetryWait; JobState.RecoveryRequired;
       JobState.ReceptionFailed; JobState.Cancelled; JobState.Superseded]
  | JobState.Committing =>
      [JobState.Uploading; JobState.Completed; JobState.RetryWait; JobState.RecoveryRequired;
       JobState.ReceptionFailed; JobState.Cancelled; JobState.Superseded]
  | JobState.RecoveryRequired =>
      [JobState.Queued; JobState.RetryWait; JobState.Cancelled; JobState.Superseded]
  | JobState.Completed => [JobState.Cleaned]
  | JobState.Cancelled => [JobState.Cleaned; JobState.Superseded]
  | JobState.ReceptionFailed => [JobState.Cleaned; JobState.Cancelled; JobState.Superseded]
  | JobState.Superseded => [JobState.Cleaned; JobState.Cancelled]
  | JobState.Cleaned => []
  end.

Definition edge (s s' : JobState.t) : Prop := In s' (may_become s).

Definition job_identity (r : TransferRow) : Z * string * string * string * string * string :=
  (tj_sequence r, tj_id r, tj_object_id r, tj_connection_id r, tj_bucket r, tj_object_key r).

(** Every job of [db'] is a job of [db] moved along the lifecycle, or a new job
    behind all of those. *)
Record jobs_evolve (db db' : Db) : Prop := {
  je_seq : transfer_seq db <= transfer_seq db';
  je_jobs : forall r', In r' (transfer_jobs db') ->
    (exists r, In r (transfer_jobs db) /\ job_identity r' = job_identity r /\
               rtc edge (tj_state r) (tj_state r')) \/
    (transfer_seq db < tj_sequence r' /\ rtc edge JobState.Receiving (tj_state r'))
}.

(** ** The invariant *)

(** States from which a worker may start, or continue, without reconciling. *)
Definition waiting : list JobState.t :=
  [JobState.Receiving; JobState.Queued; JobState.RetryWait].

Definition attempt_key (a : AttemptRow) : string * Z * string :=
  (sa_job_id a, sa_chunk_order a, sa_attempt_id a).

Record transfers_wf (db : Db) : Prop := {
  tw_ids : List.NoDup (map tj_id (transfer_jobs db));
  tw_sorted : StronglySorted Z.lt (map tj_sequence (transfer_jobs db));
  tw_seq : forall r, In r (transfer_jobs db) -> tj_sequence r <= transfer_seq db;
  tw_lease : forall r, In r (transfer_jobs db) -> is_some (tj_lease r) = in_states live r;
  tw_operation : forall r o, In r (transfer_jobs db) -> tj_operation_id r = Some o -> o = tj_id r;
  tw_bytes : forall r, In r (transfer_jobs db) -> 0 <= tj_bytes r;
  tw_order : forall r, In r (transfer_jobs db) -> in_states live r = true ->
    older_pending db r = false;
  tw_quiet : forall r, In r (transfer_jobs db) -> in_states waiting r = true ->
    ambiguous db (tj_id r) = false;
  tw_attempts : List.NoDup (map attempt_key (send_attempts db));
  tw_owner : forall a, In a (send_attempts db) ->
    exists r, In r (transfer_jobs db) /\ tj_id r = sa_job_id a
}.

Definition sound (db db' : Db) : Prop :=
  transfers_wf db -> transfers_wf db' /\ jobs_evolve db db'.

#[export] Instance jobs_evolve_preorder : PreOrder jobs_evolve.
Proof.
  split.
  - intros db. split; [lia|]. intros r Hr. left. exists r. split_and!; [done|done|apply rtc_refl].
  - intros d1 d2 d3 [Hs1 Hj1] [Hs2 Hj2]. split; [lia|]. intros r3 Hr3.
    destruct (Hj2 r3 Hr3) as [(r2 & Hr2 & Hi2 & He2)|[Hn He]]; [|right; split; [lia|done]].
    destruct (Hj1 r2 Hr2) as [(r1 & Hr1 & Hi1 & He1)|[Hn He]].
    + left. exists r1. split_and!; [done|congruence|by etrans].
    + right. injection Hi2 as ? ? ? ? ? ?. split; [congruence|by etrans].
Qed.

#[export] Instance sound_preorder : PreOrder sound.
Proof.
  split.
  - intros db H. by split.
  - intros d1 d2 d3 H12 H23 H1. destruct (H12 H1) as [H2 E12]. destruct (H23 H2) as [H3 E23].
    split; [done|by etrans].
Qed.

(** ** The shape of a sound statement *)

(** What an [UPDATE] may do to a job. *)
Record job_step (db : Db) (r r' : TransferRow) : Prop := {
  js_identity : job_identity r' = job_identity r;
  js_edge : tj_state r' = tj_state r \/ edge (tj_state r) (tj_state r');
  js_operation : tj_operation_id r' = tj_operation_id r \/ tj_operation_id r' = Some (tj_id r);
  js_lease : is_some (tj_lease r) = in_states live r -> is_some (tj_lease r') = in_states live r';
  js_live : in_states live r' = true -> in_states live r = true \/ older_pending db r = false;
  js_quiet : in_states waiting r' = true ->
    in_states waiting r = true \/ ambiguous db (tj_id r) = false;
  js_bytes : 0 <= tj_bytes r -> 0 <= tj_bytes r'
}.

(** What an [UPDATE] may do to an attempt: it never brings doubt back. *)
Definition attempt_step (a a' : AttemptRow) : Prop :=
  attempt_key a' = attempt_key a /\
  (one_of (sa_state a') [AttemptState.Sending; AttemptState.Unknown] = true ->
   one_of (sa_state a) [AttemptState.Sending; AttemptState.Unknown] = true).

Lemma settled_edge s s' : one_of s settled = true -> edge s s' -> one_of s' settled = true.
Proof. destruct s; try done; unfold edge; simpl; intros _; intuition subst; done. Qed.

Lemma settled_rtc s s' : one_of s settled = true -> rtc edge s s' -> one_of s' settled = true.
Proof. intros Hs Hr. induction Hr; eauto using settled_edge. Qed.

Lemma job_step_settled db r r' :
  job_step db r r' -> in_states settled r = true -> in_states settled r' = true.
Proof.
  intros [_ [He|He] _ _ _ _ _] Hs; unfold in_states in *; [by rewrite He|].
  by eapply settled_edge.
Qed.

Lemma job_step_refl db r : job_step db r r.
Proof. split; auto. Qed.

Lemma older_pending_false db r :
  older_pending db r = false <->
  forall o, In o (transfer_jobs db) -> same_key o r = true -> tj_sequence o < tj_sequence r ->
    in_states settled o = true.
Proof.
  unfold older_pending. rewrite sql_exists_false. split.
  - intros H o Ho Hk Hs. specialize (H o Ho). rewrite Hk in H.
    apply Z.ltb_lt in Hs. rewrite Hs in H. simpl in H. by apply negb_false_iff in H.
  - intros H o Ho. destruct (same_key o r) eqn:Ek; [|done].
    destruct (Z.ltb_spec (tj_sequence o) (tj_sequence r)) as [Hlt|]; [|done].
    by rewrite (H o Ho Ek Hlt).
Qed.

Lemma same_key_identity o o' r r' :
  job_identity o' = job_identity o -> job_identity r' = job_identity r ->
  same_key o' r' = same_key o r.
Proof. unfold job_identity, same_key. intros [= _ _ _ _ -> ->] [= _ _ _ _ -> ->]. done. Qed.

(** The publication order of [r'] follows from that of [r]. *)
Lemma older_pending_step db db' r r' :
  (forall o', In o' (transfer_jobs db') ->
     exists o, In o (transfer_jobs db) /\ job_identity o' = job_identity o /\
       (in_states settled o = true -> in_states settled o' = true)) ->
  job_identity r' = job_identity r ->
  older_pending db r = false -> older_pending db' r' = false.
Proof.
  intros Hback Hid Hr. rewrite older_pending_false in *. intros o' Ho' Hk Hs.
  destruct (Hback o' Ho') as (o & Ho & Hio & Hset). apply Hset. apply (Hr o Ho).
  - by rewrite <- (same_key_identity o o' r r').
  - unfold job_identity in *. congruence.
Qed.

Lemma ambiguous_false db id :
  ambiguous db id = false <->
  forall a, In a (send_attempts db) -> sa_job_id a = id ->
    one_of (sa_state a) [AttemptState.Sending; AttemptState.Unknown] = false.
Proof.
  unfold ambiguous, has_attempt. rewrite sql_exists_false. split.
  - intros H a Ha <-. specialize (H a Ha). by rewrite bool_decide_eq_true_2 in H.
  - intros H a Ha. destruct (bool_decide_reflect (sa_job_id a = id)); [by apply H|done].
Qed.

Lemma sound_update_jobs db p f :
  (forall r, transfers_wf db -> In r (transfer_jobs db) -> p r = true -> job_step db r (f r)) ->
  sound db (db <| transfer_jobs ::= sql_update p f |>).
Proof.
  intros Hf Hwf. set (db' := db <| transfer_jobs ::= _ |>).
  assert (forall r', In r' (transfer_jobs db') ->
    exists r, In r (transfer_jobs db) /\ job_step db r r') as Hrow.
  { intros r' Hr'. apply In_sql_update in Hr' as (r & Hr & ->). exists r. split; [done|].
    destruct (p r) eqn:Ep; [by apply Hf|apply job_step_refl]. }
  assert (forall o', In o' (transfer_jobs db') -> exists o, In o (transfer_jobs db) /\
    job_identity o' = job_identity o /\ (in_states settled o = true -> in_states settled o' = true))
    as Hback.
  { intros o' Ho'. destruct (Hrow o' Ho') as (o & Ho & Hs). exists o.
    split_and!; [done|apply Hs|by eapply job_step_settled]. }
  assert (map job_identity (transfer_jobs db') = map job_identity (transfer_jobs db)) as Hids.
  { unfold db', sql_update. simpl. unfold sql_update. rewrite map_map. apply map_ext_in. intros r Hr.
    destruct (p r) eqn:Ep; [|done]. by apply Hf. }
  destruct Hwf as [W1 W2 W3 W4 W5 W6 W7 W8 W9 W10]. split; [split|split].
  - replace (map tj_id (transfer_jobs db')) with (map tj_id (transfer_jobs db)); [done|].
    apply (f_equal (map (fun i : Z * string * string * string * string * string => let '(_, x, _, _, _, _) := i in x))) in Hids.
    rewrite !map_map in Hids. done.
  - replace (map tj_sequence (transfer_jobs db')) with (map tj_sequence (transfer_jobs db)); [done|].
    apply (f_equal (map (fun i : Z * string * string * string * string * string => let '(x, _, _, _, _, _) := i in x))) in Hids.
    rewrite !map_map in Hids. done.
  - intros r' Hr'. destruct (Hrow r' Hr') as (r & Hr & [Hi _ _ _ _ _ _]).
    injection Hi as -> _ _ _ _ _. by apply W3.
  - intros r' Hr'. destruct (Hrow r' Hr') as (r & Hr & Hs). apply Hs. by apply W4.
  - intros r' o Hr' Ho. destruct (Hrow r' Hr') as (r & Hr & [Hi _ Hop _ _ _ _]).
    injection Hi as _ -> _ _ _ _. destruct Hop as [Hop|Hop]; rewrite Hop in Ho; [by eauto|by simplify_eq].
  - intros r' Hr'. destruct (Hrow r' Hr') as (r & Hr & Hs). apply Hs. by apply W6.
  - intros r' Hr' Hl. destruct (Hrow r' Hr') as (r & Hr & Hs).
    eapply older_pending_step; [exact Hback|apply Hs|].
    destruct (js_live _ _ _ Hs Hl) as [?|?]; [by apply W7|done].
  - intros r' Hr' Hw. destruct (Hrow r' Hr') as (r & Hr & Hs).
    pose proof (js_identity _ _ _ Hs) as Hi. injection Hi as _ -> _ _ _ _.
    destruct (js_quiet _ _ _ Hs Hw) as [?|?]; [by apply W8|done].
  - done.
  - intros a Ha. destruct (W10 a Ha) as (r & Hr & He). exists (if p r then f r else r). split.
    + apply In_sql_update. eauto.
    + destruct (p r) eqn:Ep; [|done]. destruct (Hf r ltac:(by split) Hr Ep) as [Hi _ _ _ _ _ _].
      injection Hi as _ -> _ _ _ _. done.
  - simpl. lia.
  - intros r' Hr'. left. destruct (Hrow r' Hr') as (r & Hr & [Hi He _ _ _ _ _]). exists r.
    split_and!; [done|done|]. destruct He as [->|He]; [done|by apply rtc_once].
Qed.

(** A statement that leaves the transfer tables alone. *)
Lemma sound_frame db db' :
  transfer_jobs db' = transfer_jobs db -> transfer_seq db' = transfer_seq db ->
  send_attempts db' = send_attempts db -> sound db db'.
Proof.
  intros Hj Hs Ha [W1 W2 W3 W4 W5 W6 W7 W8 W9 W10].
  assert (forall r, older_pending db' r = older_pending db r) as Hop
    by (intros r; unfold older_pending; by rewrite Hj).
  assert (forall id, ambiguous db' id = ambiguous db id) as Ham
    by (intros id; unfold ambiguous, has_attempt; by rewrite Ha).
  split; [split|split]; rewrite ?Hj, ?Hs, ?Ha; try done; try lia.
  - intros r. rewrite Hop. apply W7.
  - intros r. rewrite Ham. apply W8.
  - intros r Hr. left. exists r. split_and!; [done|done|apply rtc_refl].
Qed.

Lemma sound_update_attempts db p f :
  (forall a, In a (send_attempts db) -> p a = true -> attempt_step a (f a)) ->
  sound db (db <| send_attempts ::= sql_update p f |>).
Proof.
  intros Hf [W1 W2 W3 W4 W5 W6 W7 W8 W9 W10]. set (db' := db <| send_attempts ::= _ |>).
  assert (forall a', In a' (send_attempts db') ->
    exists a, In a (send_attempts db) /\ attempt_step a a') as Hrow.
  { intros a' Ha'. apply In_sql_update in Ha' as (a & Ha & ->). exists a. split; [done|].
    destruct (p a) eqn:Ep; [by apply Hf|done]. }
  split; [split|split]; try done.
  - intros r Hr Hw. apply ambiguous_false. intros a' Ha' Hj.
    destruct (Hrow a' Ha') as (a & Ha & [Hk Hs]). specialize (W8 r Hr Hw).
    rewrite ambiguous_false in W8. injection Hk as Hk _ _.
    destruct (one_of (sa_state a') _) eqn:Eo; [|done]. rewrite W8 in Hs by congruence.
    by specialize (Hs eq_refl).
  - replace (map attempt_key (send_attempts db')) with (map attempt_key (send_attempts db)); [done|].
    unfold db', sql_update. simpl. unfold sql_update. rewrite map_map. apply map_ext_in.
    intros a Ha. destruct (p a) eqn:Ep; [|done]. destruct (Hf a Ha Ep) as [Hk _]. by rewrite Hk.
  - intros a' Ha'. destruct (Hrow a' Ha') as (a & Ha & [Hk _]). injection Hk as -> _ _. by apply W10.
  - intros r Hr. left. exists r. split_and!; [done|done|apply rtc_refl].
Qed.

Lemma StronglySorted_snoc l x :
  StronglySorted Z.lt l -> (forall y, In y l -> y < x) -> StronglySorted Z.lt (l ++ [x]).
Proof.
  induction 1 as [|a l Hs IH Hf]; simpl; intros H; [repeat constructor|].
  constructor; [apply IH; auto|]. apply Forall_app. split; [done|]. repeat constructor. auto.
Qed.

Lemma NoDup_snoc {A} (l : list A) x : List.NoDup l -> ~ In x l -> List.NoDup (l ++ [x]).
Proof.
  induction 1 as [|a l Hn Hd IH]; simpl; intros H; [repeat constructor; auto|].
  constructor; [|apply IH; auto]. rewrite in_app_iff. intros [?|[->|[]]]; auto.
Qed.

Lemma map_key_fresh {A B} (g : A -> B) (l : list A) x :
  (forall r, In r l -> g r <> g x) -> ~ In (g x) (map g l).
Proof. intros H Hin. apply in_map_iff in Hin as (r & Hr & Hl). by eapply H. Qed.

(** A new job is behind every job of its key and has no attempts. *)
Lemma sound_insert_job db id conn bkt k now :
  sql_exists (has_id id) (transfer_jobs db) = false ->
  sound db (db <| transfer_jobs ::= (fun t => t ++ [new_job (transfer_seq db + 1) id conn bkt k now]) |>
               <| transfer_seq := transfer_seq db + 1 |>).
Proof.
  intros Hfresh [W1 W2 W3 W4 W5 W6 W7 W8 W9 W10]. rewrite sql_exists_false in Hfresh.
  set (x := new_job _ _ _ _ _ _). set (db' := db <| transfer_jobs ::= _ |> <| transfer_seq := _ |>).
  assert (forall r, In r (transfer_jobs db') -> In r (transfer_jobs db) \/ r = x) as Hin.
  { intros r Hr. apply in_app_or in Hr as [?|[<-|[]]]; auto. }
  assert (forall r, In r (transfer_jobs db) -> tj_id r <> id) as Hid.
  { intros r Hr He. specialize (Hfresh r Hr). unfold has_id in Hfresh.
    by rewrite bool_decide_eq_true_2 in Hfresh. }
  split; [split|split].
  - change (List.NoDup (map tj_id (transfer_jobs db ++ [x]))). rewrite map_app.
    apply NoDup_snoc; [done|]. apply map_key_fresh. exact Hid.
  - change (StronglySorted Z.lt (map tj_sequence (transfer_jobs db ++ [x]))). rewrite map_app.
    apply StronglySorted_snoc; [done|]. intros y Hy. apply in_map_iff in Hy as (r & <- & Hr).
    specialize (W3 r Hr). simpl. lia.
  - intros r Hr. destruct (Hin r Hr) as [H| ->]; [specialize (W3 r H)|]; simpl; lia.
  - intros r Hr. destruct (Hin r Hr) as [H| ->]; [by apply W4|done].
  - intros r o Hr Ho. destruct (Hin r Hr) as [H| ->]; [by eapply W5|done].
  - intros r Hr. destruct (Hin r Hr) as [H| ->]; [by apply W6|done].
  - intros r Hr Hl. destruct (Hin r Hr) as [H| ->]; [|done].
    specialize (W7 r H Hl). specialize (W3 r H). rewrite older_pending_false in *.
    intros o Ho Hk Hs. destruct (Hin o Ho) as [Ho'| ->]; [by apply W7|]. simpl in Hs. lia.
  - intros r Hr Hw. destruct (Hin r Hr) as [H| ->]; [by apply W8|].
    apply ambiguous_false. intros a Ha Hj. destruct (W10 a Ha) as (r & Hr' & He).
    exfalso. apply (Hid r Hr'). by rewrite He, Hj.
  - done.
  - intros a Ha. destruct (W10 a Ha) as (r & Hr & He). exists r. split; [|done].
    apply in_or_app. by left.
  - simpl. lia.
  - intros r Hr. destruct (Hin r Hr) as [H| ->].
    + left. exists r. split_and!; [done|done|apply rtc_refl].
    + right. split; [simpl; lia|apply rtc_refl].
Qed.

(** Only the owner of a live job may begin an attempt. *)
Lemma sound_insert_attempt db a :
  (forall b, In b (send_attempts db) -> attempt_key b <> attempt_key a) ->
  (exists r, In r (transfer_jobs db) /\ tj_id r = sa_job_id a /\ in_states live r = true) ->
  sound db (db <| send_attempts ::= (fun t => t ++ [a]) |>).
Proof.
  intros Hfresh (j & Hj & Hid & Hlive) [W1 W2 W3 W4 W5 W6 W7 W8 W9 W10].
  split; [split|split]; try done.
  - intros r Hr Hw. specialize (W8 r Hr Hw). rewrite ambiguous_false in *.
    intros b Hb Hjb. apply in_app_or in Hb as [Hb|[<-|[]]]; [by apply W8|].
    assert (r = j) as -> by (eapply (NoDup_map_inj tj_id); eauto; congruence).
    unfold in_states in *. by destruct (tj_state j).
  - change (List.NoDup (map attempt_key (send_attempts db ++ [a]))). rewrite map_app.
    apply NoDup_snoc; [done|by apply map_key_fresh].
  - intros b Hb. apply in_app_or in Hb as [Hb|[<-|[]]]; [by apply W10|]. eauto.
  - intros r Hr. left. exists r. split_and!; [done|done|apply rtc_refl].
Qed.

Lemma StronglySorted_filter {A} (g : A -> Z) p (l : list A) :
  StronglySorted Z.lt (map g l) -> StronglySorted Z.lt (map g (sql_where p l)).
Proof.
  unfold sql_where. induction l as [|a l IH]; simpl; [done|]. intros H.
  inversion H as [|? ? Hs Hf]; subst. destruct (p a); simpl; [|by apply IH].
  constructor; [by apply IH|]. rewrite Forall_forall in *. intros x Hx. apply Hf.
  apply list_elem_of_In in Hx. apply in_map_iff in Hx as (y & <- & Hy).
  apply filter_In in Hy as [Hy _]. apply list_elem_of_In, in_map_iff. eauto.
Qed.

(** Jobs may go, together with their attempts. *)
Lemma sound_delete_jobs db p q :
  (forall a r, In a (send_attempts db) -> q a = false -> In r (transfer_jobs db) ->
     tj_id r = sa_job_id a -> p r = false) ->
  sound db (db <| send_attempts ::= sql_delete q |> <| transfer_jobs ::= sql_delete p |>).
Proof.
  intros Hpq [W1 W2 W3 W4 W5 W6 W7 W8 W9 W10].
  set (db' := db <| send_attempts ::= _ |> <| transfer_jobs ::= _ |>).
  assert (forall r, In r (transfer_jobs db') -> In r (transfer_jobs db) /\ p r = false) as Hin
    by (intros r Hr; by apply In_sql_delete in Hr).
  assert (forall a, In a (send_attempts db') -> In a (send_attempts db) /\ q a = false) as Hat
    by (intros r Hr; by apply In_sql_delete in Hr).
  split; [split|split].
  - by apply NoDup_map_filter.
  - by apply StronglySorted_filter.
  - intros r Hr. apply Hin in Hr as [Hr _]. by apply W3.
  - intros r Hr. apply Hin in Hr as [Hr _]. by apply W4.
  - intros r o Hr. apply Hin in Hr as [Hr _]. by apply W5.
  - intros r Hr. apply Hin in Hr as [Hr _]. by apply W6.
  - intros r Hr Hl. apply Hin in Hr as [Hr _]. specialize (W7 r Hr Hl).
    rewrite older_pending_false in *. intros o Ho. apply Hin in Ho as [Ho _]. by apply W7.
  - intros r Hr Hw. apply Hin in Hr as [Hr _]. specialize (W8 r Hr Hw).
    rewrite ambiguous_false in *. intros a Ha. apply Hat in Ha as [Ha _]. by apply W8.
  - by apply NoDup_map_filter.
  - intros a Ha. apply Hat in Ha as [Ha Hq]. destruct (W10 a Ha) as (r & Hr & He). exists r.
    split; [|done]. apply In_sql_delete. split; [done|by eapply Hpq].
  - simpl. lia.
  - intros r Hr. apply Hin in Hr as [Hr _]. left. exists r. split_and!; [done|done|apply rtc_refl].
Qed.

(** ** Every operation is sound *)

Lemma update_jobs_sound p f :
  (forall db r, transfers_wf db -> In r (transfer_jobs db) -> p db r = true -> job_step db r (f r)) ->
  steps sound (update_jobs p f).
Proof. intros H. apply steps_execute. intros db. apply sound_update_jobs. auto. Qed.

Lemma update_attempts_sound p f :
  (forall db a, p db a = true -> attempt_step a (f a)) -> steps sound (update_attempts p f).
Proof. intros H. apply steps_execute. intros db. apply sound_update_attempts. eauto. Qed.

Lemma modify_frame_sound f :
  (forall db, transfer_jobs (f db) = transfer_jobs db /\ transfer_seq (f db) = transfer_seq db /\
              send_attempts (f db) = send_attempts db) ->
  steps sound (modify f).
Proof. intros H. apply steps_modify. intros db. destruct (H db) as (? & ? & ?). by apply sound_frame. Qed.

(** Decide a [job_step] by the state of the row. *)
Ltac job_step_cases :=
  unfold holds_lease, has_id, in_states, parked in *; bool_hyps;
  repeat match goal with H : tj_id _ = ?x |- _ => is_var x; subst x end;
  match goal with
  | |- job_step _ ?r _ =>
      destruct (tj_state r) eqn:Est; try discriminate;
      (split; unfold edge, in_states; simpl; rewrite ?Est; simpl;
       try solve [ auto | tauto | lia | discriminate | intros; bool_hyps; auto
                 | repeat match goal with |- context [if ?b then _ else _] => destruct b end;
                   simpl; auto; try tauto; try lia; discriminate ])
  end.

Ltac transfer_op :=
  step_through;
  first [ apply update_jobs_sound; intros ? ? ? ? ?; job_step_cases
        | apply update_attempts_sound; intros ? ? ?; bool_hyps; split; simpl;
          [ done
          | first [ discriminate
                  | match goal with H : sa_state _ = _ |- _ => rewrite H end; done
                  | idtac ] ] ].

Lemma renew_receiving_sound E id : steps sound (renew_receiving E id).
Proof. unfold renew_receiving. transfer_op. Qed.

Lemma set_transfer_conditionals_sound E id c : steps sound (set_transfer_conditionals E id c).
Proof. unfold set_transfer_conditionals. transfer_op. Qed.

Lemma renew_transfer_sound E id lease : steps sound (renew_transfer E id lease).
Proof. unfold renew_transfer. transfer_op. Qed.

Lemma queue_transfer_sound E id n : steps sound (queue_transfer E id id n).
Proof. unfold queue_transfer. transfer_op. Qed.

Lemma begin_transfer_sound E o b k : steps sound (begin_transfer E o b k).
Proof.
  intros db. unfold begin_transfer, mbind, M_bind, query, ensure, modify.
  destruct (bucket_exists b db); [|done].
  destruct (sql_exists (has_id o) (transfer_jobs db)) eqn:Ex; simpl; rewrite Ex; simpl; [done|].
  by apply sound_insert_job.
Qed.

Lemma reserve_staging_sound E id n budget : 0 <= n -> steps sound (reserve_staging E id n budget).
Proof. intros Hn. unfold reserve_staging. transfer_op. Qed.

Lemma discard_staged_sound id : steps sound (discard_staged id).
Proof. by apply modify_frame_sound. Qed.
#[export] Hint Resolve discard_staged_sound : preserves.

Lemma fail_reception_sound E id removed m : steps sound (fail_reception E id removed m).
Proof. unfold fail_reception. transfer_op. Qed.

Lemma reject_transfer_for_quota_sound E id m : steps sound (reject_transfer_for_quota E id m).
Proof. unfold reject_transfer_for_quota. transfer_op. Qed.

Lemma expire_receptions_sound now : steps sound (expire_receptions now).
Proof. unfold expire_receptions. transfer_op. Qed.

Lemma quarantine_ambiguous_sound now : steps sound (quarantine_ambiguous now).
Proof. unfold quarantine_ambiguous. transfer_op. Qed.

Lemma normalize_attempts_sound now : steps sound (normalize_attempts now).
Proof. unfold normalize_attempts. transfer_op. Qed.

Lemma cancel_closed_sessions_sound : steps sound cancel_closed_sessions.
Proof. unfold cancel_closed_sessions. transfer_op. Qed.

Lemma supersede_older_sound : steps sound supersede_older.
Proof. unfold supersede_older. transfer_op. Qed.
#[export] Hint Resolve expire_receptions_sound quarantine_ambiguous_sound normalize_attempts_sound
  cancel_closed_sessions_sound supersede_older_sound : preserves.

Lemma recover_transfers_sound E : steps sound (recover_transfers E).
Proof. unfold recover_transfers. step_through. Qed.

Lemma select_transfer_spec now db r :
  select_transfer now db = Some r ->
  In r (transfer_jobs db) /\
  ((in_states [JobState.Queued; JobState.RetryWait] r = true /\ tj_next_retry r <= now) \/
   (in_states live r = true /\ tj_lease_until r < now)) /\
  ambiguous db (tj_id r) = false /\ older_pending db r = false.
Proof.
  unfold select_transfer. intros H. apply sql_first_where in H as [Hin Hp].
  unfold claimable in Hp. bool_hyps. split_and!; try done.
  apply orb_prop in H as [H|H]; bool_hyps; [left|right]; done.
Qed.

(** Taking the lease of the selected job. *)
Lemma take_lease_step db now now' lease r :
  select_transfer now db = Some r ->
  sound db (take_lease now' (tj_id r) lease db).2.
Proof.
  intros Hs. unfold take_lease, update_jobs, execute. simpl. apply sound_update_jobs.
  intros x [Hids _ _ _ _ _ _ _ _ _] Hx Hp.
  apply select_transfer_spec in Hs as (Hr & Hcase & Ham & Hold).
  unfold has_id in Hp. bool_hyps.
  assert (x = r) as -> by (eapply (NoDup_map_inj tj_id); eauto).
  assert (one_of (tj_state r) [JobState.Queued; JobState.RetryWait; JobState.Uploading;
                               JobState.Committing] = true) as Hst.
  { unfold in_states in Hcase. by destruct (tj_state r), Hcase as [[? _]|[? _]]. }
  split; unfold edge, in_states; simpl; auto.
  destruct (tj_state r); simpl; auto; discriminate.
Qed.

Lemma claim_transfer_sound E : steps sound (claim_transfer E).
Proof.
  unfold claim_transfer. apply (steps_transaction _). apply (steps_bind _); [apply recover_transfers_sound|].
  intros _ db. unfold mbind, M_bind, query.
  destruct (select_transfer (now_at E 3) db) as [r|] eqn:Es; [|done].
  pose proof (take_lease_step db _ (now_at E 4) (new_v4 E 0) r Es) as Hs.
  unfold take_lease, update_jobs, execute in *. simpl in *.
  by destruct (find_job (tj_id r) _).
Qed.

Lemma lease_valid_live id lease now db :
  lease_valid id lease now db = true ->
  exists r, In r (transfer_jobs db) /\ tj_id r = id /\ tj_lease r = Some lease /\
    in_states live r = true /\ now <= tj_lease_until r.
Proof.
  unfold lease_valid, holds_lease, has_id. intros H. apply sql_exists_true in H as (r & Hr & H).
  bool_hyps. exists r. split_and!; try done. by apply sql_eq_true.
Qed.

Lemma begin_send_attempt_sound E id lease n : steps sound (begin_send_attempt E id lease n).
Proof.
  unfold begin_send_attempt. apply (steps_bind _); [|intros ?; apply (steps_ret _)].
  apply (steps_transaction _). intros db. unfold mbind, M_bind, query.
  destruct (lease_valid id lease (now_at E 1) db) eqn:El; simpl; [|done].
  unfold insert_attempt, mbind, M_bind, query. simpl.
  destruct (sql_exists (is_attempt id n (new_v4 E 0)) (send_attempts db)) eqn:Ex; simpl; [done|].
  apply lease_valid_live in El as (r & Hr & Hid & _ & Hl & _).
  destruct (sql_exists (has_id id) (transfer_jobs db)); simpl; [|done].
  apply sound_insert_attempt; [|by exists r].
  rewrite sql_exists_false in Ex. intros b Hb Hk. specialize (Ex b Hb).
  unfold is_attempt in Ex. injection Hk as H1 H2 H3. rewrite H1, H2, H3 in Ex.
  by rewrite !bool_decide_eq_true_2, Z.eqb_refl in Ex.
Qed.

Lemma upsert_chunk_sound id n l : steps sound (upsert_chunk id n l).
Proof. unfold upsert_chunk. step_through. by apply modify_frame_sound. Qed.

Lemma count_chunks_sound now id : steps sound (count_chunks now id).
Proof.
  apply steps_execute. intros db. apply sound_update_jobs. intros r _ Hr Hp. split; simpl; auto.
Qed.
#[export] Hint Resolve upsert_chunk_sound count_chunks_sound : preserves.

Lemma finish_send_attempt_sound E id lease n a l :
  steps sound (finish_send_attempt E id lease n a l).
Proof. unfold finish_send_attempt. transfer_op. Qed.

Lemma mark_send_attempt_unknown_sound E id lease n a k e :
  steps sound (mark_send_attempt_unknown E id lease n a k e).
Proof. unfold mark_send_attempt_unknown. transfer_op. Qed.

Lemma mark_send_attempt_retryable_sound E id lease n a k e :
  steps sound (mark_send_attempt_retryable E id lease n a k e).
Proof. unfold mark_send_attempt_retryable. transfer_op. Qed.

Lemma reclassify_flood_wait_attempts_sound E ra : steps sound (reclassify_flood_wait_attempts E ra).
Proof. unfold reclassify_flood_wait_attempts. transfer_op. Qed.

Lemma resolve_send_attempt_sound E a l e : steps sound (resolve_send_attempt E a l e).
Proof. unfold resolve_send_attempt. transfer_op. Qed.

Lemma queue_after_reconciliation_sound E id : steps sound (queue_after_reconciliation E id).
Proof.
  unfold queue_after_reconciliation. step_through. apply steps_execute. intros db.
  apply sound_update_jobs. intros r _ Hr Hp. job_step_cases.
Qed.

Lemma set_transfer_error_sound E id m : steps sound (set_transfer_error E id m).
Proof. unfold set_transfer_error. transfer_op. Qed.

Lemma transfer_failed_sound E id lease ra m : steps sound (transfer_failed E id lease ra m).
Proof.
  intros db. unfold transfer_failed, mbind, M_bind, query, update_jobs, execute. simpl.
  apply sound_update_jobs. intros r _ Hr Hp.
  destruct (ambiguous db id) eqn:Ea; [job_step_cases|].
  destruct (is_some ra); job_step_cases.
Qed.

Lemma retry_transfer_sound id : steps sound (retry_transfer id).
Proof. unfold retry_transfer. transfer_op. Qed.

Lemma insert_or_ignore_sound o c p msg k due :
  steps sound (insert_or_ignore_target o c p msg k due).
Proof. apply modify_frame_sound. intros db. by destruct (sql_exists _ _). Qed.
#[export] Hint Resolve retry_transfer_sound insert_or_ignore_sound : preserves.

Lemma cancel_transfer_sound E id : steps sound (cancel_transfer E id).
Proof. unfold cancel_transfer. transfer_op. Qed.
#[export] Hint Resolve cancel_transfer_sound : preserves.

Lemma transfer_action_sound E id a : steps sound (transfer_action E id a).
Proof. unfold transfer_action. step_through. Qed.

Lemma publication_fence_sound E id lease : steps sound (publication_fence E id lease).
Proof. unfold publication_fence. transfer_op. Qed.

Lemma mark_cleaned_sound id : steps sound (mark_cleaned id).
Proof. unfold mark_cleaned. transfer_op. Qed.

Lemma purge_connection_operations_sound c : steps sound (purge_connection_operations c).
Proof.
  intros db. unfold purge_connection_operations, modify. simpl.
  set (gone := fun r => bool_decide (tj_connection_id r = c)).
  set (of_conn := fun id => sql_exists (fun r => has_id id r && gone r) (transfer_jobs db)).
  transitivity (db <| send_attempts ::= sql_delete (fun a => of_conn (sa_job_id a)) |>
                   <| transfer_jobs ::= sql_delete gone |>); [|by apply sound_frame].
  apply sound_delete_jobs. intros a r Ha Hq Hr He. unfold of_conn in Hq.
  rewrite sql_exists_false in Hq. specialize (Hq r Hr). unfold has_id in Hq.
  by rewrite bool_decide_eq_true_2 in Hq.
Qed.

#[export] Hint Resolve begin_transfer_sound renew_receiving_sound set_transfer_conditionals_sound
  queue_transfer_sound fail_reception_sound reject_transfer_for_quota_sound claim_transfer_sound
  renew_transfer_sound begin_send_attempt_sound finish_send_attempt_sound
  mark_send_attempt_unknown_sound mark_send_attempt_retryable_sound
  reclassify_flood_wait_attempts_sound resolve_send_attempt_sound
  queue_after_reconciliation_sound set_transfer_error_sound transfer_failed_sound
  transfer_action_sound publication_fence_sound mark_cleaned_sound
  purge_connection_operations_sound : preserves.

Lemma transfers_wf_empty : transfers_wf empty_db.
Proof. split; simpl; try done; constructor. Qed.

(** ** Consequences of the invariant *)

Lemma job_unique db r r' :
  transfers_wf db -> In r (transfer_jobs db) -> In r' (transfer_jobs db) -> tj_id r = tj_id r' -> r = r'.
Proof. intros [H _ _ _ _ _ _ _ _ _]. by apply NoDup_map_inj. Qed.

Lemma NoDup_sorted (l : list Z) : StronglySorted Z.lt l -> List.NoDup l.
Proof.
  induction 1 as [|a l Hs IH Hf]; constructor; [|done]. intros Hin.
  rewrite Forall_forall in Hf. apply list_elem_of_In in Hin. specialize (Hf a Hin). lia.
Qed.

(** Two live jobs of a key are the same job. *)
Lemma live_unique db r r' :
  transfers_wf db -> In r (transfer_jobs db) -> In r' (transfer_jobs db) ->
  same_key r r' = true -> in_states live r = true -> in_states live r' = true -> r = r'.
Proof.
  intros Hwf Hr Hr' Hk Hl Hl'.
  assert (forall x y, In x (transfer_jobs db) -> In y (transfer_jobs db) -> same_key x y = true ->
    in_states live x = true -> in_states live y = true -> tj_sequence x < tj_sequence y -> False) as Hno.
  { intros x y Hx Hy Hxy Hlx Hly Hlt. pose proof (tw_order db Hwf y Hy Hly) as Ho.
    rewrite older_pending_false in Ho. specialize (Ho x Hx Hxy Hlt).
    unfold in_states in *. by destruct (tj_state x). }
  assert (same_key r' r = true) as Hk'.
  { unfold same_key in *. bool_hyps. by rewrite !bool_decide_eq_true_2. }
  destruct (Z.lt_trichotomy (tj_sequence r) (tj_sequence r')) as [Hlt|[He|Hlt]].
  - destruct (Hno r r'); auto.
  - eapply (NoDup_map_inj tj_sequence); eauto. apply NoDup_sorted, Hwf.
  - destruct (Hno r' r); auto.
Qed.

(** ** Properties *)

(** [reserve_staging] enforces the staging budget: it succeeds only when
    the bytes already staged and the new ones together fit and the job is still
    receiving, and then the staged total is their sum, within the budget;
    otherwise it says why and nothing changes. *)
Theorem reserve_staging_within_budget (E : Env) (db : Db) (id : string) (bytes budget : Z)
    (Hwf : transfers_wf db) (Hbytes : 0 <= bytes <= I64_MAX) (Hbudget : 0 <= budget < U64_MAX) :
  match reserve_staging E id bytes budget db with
  | (Ok _, db') => staged_bytes db' = staged_bytes db + bytes /\ staged_bytes db' <= budget
  | (Err e, db') => db' = db /\
      (e = InvalidManifest "staging capacity exhausted" /\ budget < staged_bytes db + bytes \/
       e = InvalidManifest "upload is no longer receiving" /\
       forall r, In r (transfer_jobs db) -> tj_id r = id -> tj_state r <> JobState.Receiving)
  end.
Proof.
  unfold reserve_staging, transaction, mbind, M_bind, query, update_jobs, execute, u64_saturating_add.
  set (p := fun r => has_id id r && in_states [JobState.Receiving] r).
  destruct (Z.leb_spec (Z.min (staged_bytes db + bytes) U64_MAX) budget) as [Hle|Hgt]; simpl;
    [|split; [done|left; split; [done|lia]]].
  assert ((bytes <=? I64_MAX) = true) as -> by lia. simpl.
  assert (sql_count p (transfer_jobs db) <= 1) as Hle1.
  { apply (sql_count_key_le1 tj_id id); [apply Hwf|]. intros r _ Hp. unfold p, has_id in Hp. by bool_hyps. }
  destruct (Z.eqb_spec (sql_count p (transfer_jobs db)) 1) as [Hn|Hn]; simpl.
  - unfold staged_bytes. simpl. rewrite (sql_sum_where_update _ bytes).
    + unfold staged_bytes in Hle. lia.
    + intros r Hp. unfold p, in_states in *. simpl. bool_hyps. destruct (tj_state r); try done.
      split_and!; [done|done|lia].
  - split; [done|right]. split; [done|]. intros r Hr Hid Hst.
    assert (sql_count p (transfer_jobs db) = 0) as Hz by (pose proof (sql_count_nonneg p (transfer_jobs db)); lia).
    apply sql_count_zero in Hz. rewrite sql_exists_false in Hz. specialize (Hz r Hr).
    unfold p, has_id, in_states in Hz. by rewrite bool_decide_eq_true_2, Hst in Hz.
Qed.

(** ** Claiming *)

Definition leased_row (now : Z) (lease : string) (r : TransferRow) : TransferRow :=
  r <| tj_state := JobState.Uploading |> <| tj_lease := Some lease |>
    <| tj_lease_until := now + 120 |> <| tj_attempts ::= Z.add 1 |> <| tj_updated_at := now |>.

Lemma find_job_unique db r :
  transfers_wf db -> In r (transfer_jobs db) -> find_job (tj_id r) db = Some r.
Proof.
  intros Hwf Hr. unfold find_job. destruct (sql_first _) as [x|] eqn:Ef.
  - apply sql_first_where in Ef as [Hx Hp]. unfold has_id in Hp. bool_hyps.
    by rewrite (job_unique db x r).
  - apply sql_first_none in Ef. rewrite sql_exists_false in Ef. specialize (Ef r Hr).
    unfold has_id in Ef. by rewrite bool_decide_eq_true_2 in Ef.
Qed.

(** What recovery does to a job: nothing, or park or settle it. *)
Definition recovered (db db' : Db) : Prop :=
  forall r', In r' (transfer_jobs db') -> In r' (transfer_jobs db) \/
    in_states [JobState.RecoveryRequired; JobState.Cancelled; JobState.Superseded] r' = true.

#[local] Instance recovered_preorder : PreOrder recovered.
Proof.
  split; [intros db r Hr; by left|]. intros d1 d2 d3 H12 H23 r Hr.
  destruct (H23 r Hr) as [H2|H2]; [by apply H12|by right].
Qed.

Lemma update_jobs_recovered p f :
  (forall r, in_states [JobState.RecoveryRequired; JobState.Cancelled; JobState.Superseded] (f r) = true) ->
  steps recovered (update_jobs p f).
Proof.
  intros H. apply steps_execute. intros db r' Hr'. apply In_sql_update in Hr' as (r & Hr & ->).
  destruct (p db r); auto.
Qed.

Lemma recover_transfers_recovered E : steps recovered (recover_transfers E).
Proof.
  unfold recover_transfers. step_through;
    try (apply update_jobs_recovered; done). apply steps_execute. intros db r Hr. by left.
Qed.

(** [claim_transfer], after the recovery statements. *)
Lemma claim_transfer_run E db :
  transfers_wf db ->
  let d := (recover_transfers E db).2 in
  claim_transfer E db =
    match select_transfer (now_at E 3) d with
    | None => (Ok None, d)
    | Some r => (Ok (Some (row_job (leased_row (now_at E 4) (new_v4 E 0) r))),
                 (take_lease (now_at E 4) (tj_id r) (new_v4 E 0) d).2)
    end.
Proof.
  intros Hwf d. pose proof (recover_transfers_sound E db Hwf) as [Hwd _]. fold d in Hwd.
  assert (recover_transfers E db = (Ok tt, d)) as Hrec by done.
  unfold claim_transfer, transaction. unfold mbind at 1, M_bind at 1. rewrite Hrec.
  unfold mbind at 1, M_bind at 1, query at 1.
  destruct (select_transfer (now_at E 3) d) as [r|] eqn:Es; [|done].
  pose proof (take_lease_step d _ (now_at E 4) (new_v4 E 0) r Es Hwd) as [Hwt _].
  set (d' := (take_lease (now_at E 4) (tj_id r) (new_v4 E 0) d).2) in *.
  apply select_transfer_spec in Es as (Hr & _).
  assert (find_job (tj_id r) d' = Some (leased_row (now_at E 4) (new_v4 E 0) r)) as Hf.
  { apply (find_job_unique d' (leased_row (now_at E 4) (new_v4 E 0) r) Hwt).
    apply In_sql_update. exists r. split; [done|]. unfold has_id.
    by rewrite bool_decide_eq_true_2. }
  unfold mbind, M_bind, query, take_lease, update_jobs, execute.
  simpl. unfold d', take_lease, update_jobs, execute in Hf. simpl in Hf.
  by rewrite Hf.
Qed.

Lemma rows_before E db r :
  In r (transfer_jobs (recover_transfers E db).2) ->
  in_states [JobState.Queued; JobState.RetryWait; JobState.Uploading; JobState.Committing] r = true ->
  In r (transfer_jobs db).
Proof.
  intros Hr Hs. destruct (recover_transfers_recovered E db r Hr) as [?|Hb]; [done|].
  unfold in_states in *. by destruct (tj_state r).
Qed.

(** [claim_transfer] never fails, and when it hands out a job: the job was
    due (or its worker's lease had expired); it is now [Uploading] under the
    fresh lease; no send of any of its chunks is in doubt; and every older job
    of the same key is settled, so no other job of that key is live. *)
Theorem claim_transfer_safe (E : Env) (db db' : Db) (j : TransferJob)
    (Hwf : transfers_wf db) (H : claim_transfer E db = (Ok (Some j), db')) :
  transfers_wf db' /\
  exists r r', In r (transfer_jobs db) /\ In r' (transfer_jobs db') /\
    tj_id r' = tj_id r /\ row_job r' = j /\
    ((in_states [JobState.Queued; JobState.RetryWait] r = true /\ tj_next_retry r <= now_at E 3) \/
     (in_states live r = true /\ tj_lease_until r < now_at E 3)) /\
    tj_state r' = JobState.Uploading /\ tj_lease r' = Some (new_v4 E 0) /\
    tj_lease_until r' = now_at E 4 + 120 /\
    ambiguous db' (tj_id r') = false /\ older_pending db' r' = false /\
    (forall o, In o (transfer_jobs db') -> same_key o r' = true -> in_states live o = true -> o = r').
Proof.
  rewrite claim_transfer_run in H by done.
  pose proof (recover_transfers_sound E db Hwf) as [Hwd _].
  set (d := (recover_transfers E db).2) in *.
  destruct (select_transfer (now_at E 3) d) as [r|] eqn:Es; [|done].
  pose proof (f_equal snd H) as Hdb'. cbn [snd] in Hdb'. injection H as Hj _.
  pose proof (take_lease_step d _ (now_at E 4) (new_v4 E 0) r Es Hwd) as [Hwt _].
  rewrite Hdb' in Hwt. split; [done|].
  apply select_transfer_spec in Es as (Hr & Hcase & Ham & _).
  exists r, (leased_row (now_at E 4) (new_v4 E 0) r).
  assert (In (leased_row (now_at E 4) (new_v4 E 0) r) (transfer_jobs db')) as Hin.
  { rewrite <- Hdb'. apply In_sql_update. exists r. unfold has_id. by rewrite bool_decide_eq_true_2. }
  assert (in_states live (leased_row (now_at E 4) (new_v4 E 0) r) = true) as Hlive by done.
  split_and!; try done.
  - apply (rows_before E); [done|]. unfold in_states in *.
    by destruct (tj_state r), Hcase as [[? _]|[? _]].
  - rewrite <- Hdb'. exact Ham.
  - by apply Hwt.
  - intros o Ho Hk Hl. by apply (live_unique db').
Qed.

(** when [claim_transfer] answers that there is nothing to do, the recovery
    work is kept and no job of the queue could have been claimed: each job that
    is due or abandoned has a send in doubt or waits for an older job of its
    key. *)
Theorem claim_transfer_none_means_blocked (E : Env) (db db' : Db)
    (Hwf : transfers_wf db) (H : claim_transfer E db = (Ok None, db')) :
  db' = (recover_transfers E db).2 /\
  forall r, In r (transfer_jobs db') ->
    ((in_states [JobState.Queued; JobState.RetryWait] r = true /\ tj_next_retry r <= now_at E 3) \/
     (in_states live r = true /\ tj_lease_until r < now_at E 3)) ->
    ambiguous db' (tj_id r) = true \/
    exists o, In o (transfer_jobs db') /\ same_key o r = true /\ tj_sequence o < tj_sequence r /\
      in_states settled o = false.
Proof.
  rewrite claim_transfer_run in H by done.
  destruct (select_transfer _ _) as [r|] eqn:Es in H; [done|].
  pose proof (f_equal snd H) as Hdb. cbn [snd] in Hdb. rewrite <- Hdb. clear H Hdb. split; [done|].
  set (d := (recover_transfers E db).2) in *. intros r Hr Hcase.
  unfold select_transfer in Es. apply sql_first_none in Es. rewrite sql_exists_false in Es.
  specialize (Es r Hr). unfold claimable in Es.
  destruct (ambiguous d (tj_id r)); [by left|right].
  destruct (older_pending d r) eqn:Eo.
  - unfold older_pending in Eo. apply sql_exists_true in Eo as (o & Ho & Hp). bool_hyps. eauto.
  - exfalso. rewrite !andb_true_r in Es. apply orb_false_iff in Es as [E1 E2].
    destruct Hcase as [[H1 H2]|[H1 H2]].
    + apply Z.leb_le in H2. by rewrite H1, H2 in E1.
    + apply Z.ltb_lt in H2. by rewrite H1, H2 in E2.
Qed.

(** No [Sending] attempt is left behind on a job that waits for recovery. *)
Definition no_stale_sending (db : Db) : Prop :=
  forall r a, In r (transfer_jobs db) -> In a (send_attempts db) -> sa_job_id a = tj_id r ->
    tj_state r = JobState.RecoveryRequired -> sa_state a <> AttemptState.Sending.

Lemma normalize_attempts_clears now db :
  transfers_wf db -> no_stale_sending (normalize_attempts now db).2.
Proof.
  intros Hwf r a' Hr Ha' Hid Hst Hs. apply In_sql_update in Ha' as (a & Ha & ->).
  destruct (bool_decide (sa_state a = AttemptState.Sending) && _) eqn:Ep; [done|].
  rewrite Hs, bool_decide_eq_true_2 in Ep by done. simpl in Ep.
  rewrite sql_exists_false in Ep. specialize (Ep r Hr).
  pose proof (tw_lease db Hwf r Hr) as Hl. unfold has_id, abandoned, in_states in *.
  rewrite Hst in *. rewrite bool_decide_eq_true_2 in Ep by done. simpl in *. by rewrite Hl in Ep.
Qed.

Lemma update_jobs_no_stale p f :
  (forall r, tj_id (f r) = tj_id r) -> (forall r, tj_state (f r) <> JobState.RecoveryRequired) ->
  preserves no_stale_sending (update_jobs p f).
Proof.
  intros Hid Hst. apply preserves_execute. intros db H r' a Hr' Ha He Hrec.
  apply In_sql_update in Hr' as (r & Hr & ->). destruct (p db r); [by destruct (Hst r)|].
  by apply (H r a).
Qed.

Lemma recover_transfers_no_stale E db :
  transfers_wf db -> no_stale_sending (recover_transfers E db).2.
Proof.
  intros Hwf. unfold recover_transfers.
  set (tail := normalize_attempts (now_at E 2) ;; cancel_closed_sessions ;; supersede_older ;; mret tt).
  pose proof (expire_receptions_sound (now_at E 0) db Hwf) as [H1 _].
  set (d1 := (expire_receptions (now_at E 0) db).2) in *.
  pose proof (quarantine_ambiguous_sound (now_at E 1) d1 H1) as [H2 _].
  set (d2 := (quarantine_ambiguous (now_at E 1) d1).2) in *.
  change (no_stale_sending ((cancel_closed_sessions ;; supersede_older ;; mret tt)
            (normalize_attempts (now_at E 2) d2).2).2).
  assert (preserves no_stale_sending (cancel_closed_sessions ;; supersede_older ;; mret tt)) as Hp.
  { preserve; by apply update_jobs_no_stale. }
  by apply Hp, normalize_attempts_clears.
Qed.

(** a poll of the queue leaves no attempt stuck: whether or not a job is
    claimed, afterwards no job that waits for recovery has an attempt still
    recorded as [Sending], so reconciliation sees every attempt in doubt. *)
Theorem claim_transfer_normalizes (E : Env) (db : Db) (Hwf : transfers_wf db) :
  exists answer db', claim_transfer E db = (Ok answer, db') /\ no_stale_sending db'.
Proof.
  rewrite claim_transfer_run by done. pose proof (recover_transfers_no_stale E db Hwf) as Hd.
  set (d := (recover_transfers E db).2) in *.
  destruct (select_transfer (now_at E 3) d) as [r|]; eexists _, _; split; try done.
  by apply update_jobs_no_stale.
Qed.

(** ** Leases fence workers *)

Lemma lease_valid_leased id lease now db :
  lease_valid id lease now db = true -> job_leased id lease db = true.
Proof.
  unfold lease_valid, job_leased. rewrite !sql_exists_true. intros (r & Hr & Hp). bool_hyps. eauto.
Qed.

Lemma not_leased_valid id lease now db :
  job_leased id lease db = false -> lease_valid id lease now db = false.
Proof.
  intros H. destruct (lease_valid id lease now db) eqn:El; [|done].
  apply lease_valid_leased in El. congruence.
Qed.

(** An update that needs a lease nobody holds changes nothing. *)
Lemma holds_lease_noop db id lease p f :
  job_leased id lease db = false -> (forall r, p r = true -> holds_lease id lease r = true) ->
  sql_count p (transfer_jobs db) = 0 /\ db <| transfer_jobs ::= sql_update p f |> = db.
Proof.
  unfold job_leased. intros H Hp.
  assert (sql_exists p (transfer_jobs db) = false) as Hn.
  { rewrite sql_exists_false in *. intros r Hr. specialize (H r Hr).
    destruct (p r) eqn:E; [|done]. rewrite Hp in H by done. done. }
  split; [by apply sql_count_zero|]. by apply set_jobs_id, sql_update_none.
Qed.

(** What a worker without the lease gets: refusals, and a database it cannot
    change. *)
Lemma unleased_worker_refused db id lease :
  job_leased id lease db = false ->
  (forall E, renew_transfer E id lease db = (Ok false, db)) /\
  (forall E n, begin_send_attempt E id lease n db = (Err (InvalidManifest "transfer lease lost"), db)) /\
  (forall E n a l, finish_send_attempt E id lease n a l db = (Err (InvalidManifest "transfer lease lost"), db)) /\
  (forall E, publication_fence E id lease db = (Err (InvalidManifest "publication fence lost"), db)) /\
  (forall E ra m, transfer_failed E id lease ra m db = (Ok tt, db)).
Proof.
  intros H. split_and!; intros.
  - unfold renew_transfer, mbind, M_bind, update_jobs, execute.
    match goal with |- context [sql_update ?p ?f] =>
      destruct (holds_lease_noop db id lease p f H) as [Hz He]; [done|] end.
    by rewrite Hz, He.
  - unfold begin_send_attempt, transaction, mbind, M_bind, query.
    by rewrite not_leased_valid.
  - unfold finish_send_attempt, transaction, mbind, M_bind, query.
    by rewrite not_leased_valid.
  - unfold publication_fence, mbind, M_bind, update_jobs, execute.
    match goal with |- context [sql_update ?p ?f] =>
      destruct (holds_lease_noop db id lease p f H) as [Hz He] end.
    { intros r Hp. unfold holds_lease, in_states in *. apply andb_prop in Hp as [Hp _].
      apply andb_prop in Hp as [Hp Hst]. rewrite Hp. by destruct (tj_state r). }
    by rewrite Hz, He.
  - unfold transfer_failed, mbind, M_bind, query, update_jobs, execute.
    match goal with |- context [sql_update ?p ?f] =>
      destruct (holds_lease_noop db id lease p f H) as [Hz He]; [done|] end.
    by rewrite He.
Qed.

(** once a job has been claimed again, the worker that held it before can
    do nothing to it: its lease renewals answer [false], its sends and
    checkpoints are refused, it cannot pass the publication fence, and its
    failure report changes nothing. *)
Theorem claim_fences_previous_worker (E : Env) (db db' : Db) (j : TransferJob) (stale : string)
    (Hwf : transfers_wf db) (H : claim_transfer E db = (Ok (Some j), db'))
    (Hstale : stale <> new_v4 E 0) :
  (forall E', renew_transfer E' (j_id j) stale db' = (Ok false, db')) /\
  (forall E' n, begin_send_attempt E' (j_id j) stale n db'
                = (Err (InvalidManifest "transfer lease lost"), db')) /\
  (forall E' n a l, finish_send_attempt E' (j_id j) stale n a l db'
                = (Err (InvalidManifest "transfer lease lost"), db')) /\
  (forall E', publication_fence E' (j_id j) stale db'
                = (Err (InvalidManifest "publication fence lost"), db')) /\
  (forall E' ra m, transfer_failed E' (j_id j) stale ra m db' = (Ok tt, db')).
Proof.
  apply unleased_worker_refused. pose proof (claim_transfer_sound E db Hwf) as [Hwf' _].
  rewrite H in Hwf'. rewrite claim_transfer_run in H by done.
  set (d := (recover_transfers E db).2) in *.
  destruct (select_transfer (now_at E 3) d) as [r|] eqn:Es; [|done].
  pose proof (f_equal snd H) as Hdb'. cbn [snd] in Hdb'. injection H as <- _.
  apply select_transfer_spec in Es as (Hr & _).
  apply sql_exists_false. intros x Hx. destruct (holds_lease _ stale x) eqn:Eh; [|done]. exfalso.
  unfold holds_lease, has_id in Eh. bool_hyps.
  match goal with Hl : sql_eq _ stale = true |- _ => apply sql_eq_true in Hl; rename Hl into Hlease end.
  assert (In (leased_row (now_at E 4) (new_v4 E 0) r) (transfer_jobs db')) as Hin.
  { rewrite <- Hdb'. apply In_sql_update. exists r. unfold has_id. by rewrite bool_decide_eq_true_2. }
  assert (x = leased_row (now_at E 4) (new_v4 E 0) r) as -> by (by apply (job_unique db')).
  simpl in Hlease. congruence.
Qed.

(** ** Checkpoints *)

Lemma upsert_chunk_run id n l db :
  sql_exists (has_id id) (transfer_jobs db) = true ->
  upsert_chunk id n l db = (Ok tt, (upsert_chunk id n l db).2) /\
  checkpoint_location id n (upsert_chunk id n l db).2 = (Ok (Some l), (upsert_chunk id n l db).2).
Proof.
  intros Hp. unfold upsert_chunk, mbind, M_bind, query. simpl. rewrite Hp. simpl. split; [done|].
  unfold checkpoint_location, query, modify. simpl.
  set (row := {| tc_job_id := id; tc_chunk_order := n; tc_location := l |}).
  assert (is_chunk id n row = true) as Hrow.
  { unfold is_chunk. simpl. by rewrite bool_decide_eq_true_2, Z.eqb_refl. }
  f_equal. f_equal. destruct (sql_exists (is_chunk id n) (transfer_chunks db)) eqn:Ex.
  - destruct (sql_first _) as [c|] eqn:Ec.
    + apply sql_first_where in Ec as [Hc Hpc]. apply In_sql_update in Hc as (c0 & _ & ->).
      destruct (is_chunk id n c0) eqn:E0; [done|congruence].
    + apply sql_first_none in Ec. apply sql_exists_true in Ex as (c & Hc & Hpc).
      rewrite sql_exists_false in Ec. specialize (Ec row). rewrite Hrow in Ec.
      discriminate Ec. apply In_sql_update. exists c. by rewrite Hpc.
  - destruct (sql_first _) as [c|] eqn:Ec.
    + apply sql_first_where in Ec as [Hc Hpc]. apply in_app_or in Hc as [Hc|[<-|[]]]; [|done].
      rewrite sql_exists_false in Ex. rewrite Ex in Hpc by done. done.
    + apply sql_first_none in Ec. rewrite sql_exists_false in Ec. specialize (Ec row).
      rewrite Hrow in Ec. discriminate Ec. apply in_or_app. right. by left.
Qed.

Definition checkpointed_row (E : Env) (l : TelegramLocation) (a : AttemptRow) : AttemptRow :=
  a <| sa_state := AttemptState.Checkpointed |> <| sa_location := Some l |>
    <| sa_finished_at := Some (now_at E 1) |> <| sa_error_kind := None |>
    <| sa_error := None |> <| sa_retryable := false |>.

(** a worker's acknowledged send is durable: [finish_send_attempt] either
    refuses and changes nothing, or it found the attempt still [Sending], and
    afterwards the chunk's location is what [checkpoint_location] answers, that
    attempt alone is [Checkpointed], and the job's progress counter is the
    number of its published chunks. *)
Theorem finish_send_attempt_durable (E : Env) (db : Db) (id lease : string) (order : Z)
    (attempt : string) (l : TelegramLocation) :
  let (res, db') := finish_send_attempt E id lease order attempt l db in
  match res with
  | Err e => db' = db /\
      (e = InvalidManifest "transfer lease lost" \/ e = InvalidManifest "send attempt fence lost")
  | Ok _ =>
      lease_valid id lease (now_at E 0) db = true /\
      checkpoint_location id order db' = (Ok (Some l), db') /\
      send_attempts db' = sql_update (fun a => is_attempt id order attempt a
          && bool_decide (sa_state a = AttemptState.Sending)) (checkpointed_row E l) (send_attempts db) /\
      (forall r, In r (transfer_jobs db') -> tj_id r = id -> tj_chunks_done r = chunks_published id db')
  end.
Proof.
  unfold finish_send_attempt, transaction. unfold mbind at 1, M_bind at 1, query at 1.
  destruct (lease_valid id lease (now_at E 0) db) eqn:El; [|simpl; auto].
  unfold mbind at 1, M_bind at 1. unfold ensure at 1, mret at 1, M_ret at 1.
  unfold mbind at 1, M_bind at 1, update_attempts, execute at 1.
  destruct (_ =? 1); [|simpl; auto].
  unfold mbind at 1, M_bind at 1. unfold ensure at 1, mret at 1, M_ret at 1.
  set (d := db <| send_attempts ::= _ |>).
  apply lease_valid_live in El as (r & Hr & Hid & _).
  assert (sql_exists (has_id id) (transfer_jobs d) = true) as Hp.
  { apply sql_exists_true. exists r. split; [done|]. by apply bool_decide_eq_true_2. }
  destruct (upsert_chunk_run id order l d Hp) as [Hu Hc].
  assert (send_attempts (upsert_chunk id order l d).2 = send_attempts d) as Hsa.
  { unfold upsert_chunk, mbind, M_bind, query. rewrite Hp. done. }
  unfold mbind at 1, M_bind at 1. rewrite Hu. set (d' := (upsert_chunk id order l d).2) in *.
  unfold mbind, M_bind, count_chunks, execute, mret, M_ret.
  split; [done|]. split_and!.
  - injection Hc as Hc. unfold checkpoint_location, query. simpl. by rewrite Hc.
  - simpl. rewrite Hsa. done.
  - intros x Hx Hxid. apply In_sql_update in Hx as (x0 & Hx0 & ->).
    destruct (has_id id x0) eqn:Eh; [done|]. unfold has_id in Eh. by rewrite bool_decide_eq_true_2 in Eh.
Qed.

(** ** Witnesses and recorded defects *)

Definition run {A} (m : M A) (db : Db) : Db := (m db).2.

Lemma run_wf {A} (m : M A) db : steps sound m -> transfers_wf db -> transfers_wf (run m db).
Proof. intros Hs Hwf. by apply (Hs db). Qed.

Definition sample_bucket : BucketRow :=
  {| bk_connection_id := "legacy"; bk_created_at := "2026-01-01T00:00:00Z"; bk_deleted_at := None;
     bk_versioning_enabled := false; bk_object_locking_enabled := false |}.

Definition sample_store : Db := empty_db <| buckets := {[ "b" := sample_bucket ]} |>.

Lemma sample_store_wf : transfers_wf sample_store.
Proof. by apply (sound_frame empty_db sample_store), transfers_wf_empty. Qed.

(** An upload of [b/k] being received. *)
Definition sample_receiving : Db :=
  run (begin_transfer (sample_env 10 "u") "o1" "b" "k") sample_store.

Lemma sample_receiving_wf : transfers_wf sample_receiving.
Proof. apply run_wf; [auto with preserves|apply sample_store_wf]. Qed.

(** .. and queued. *)
Definition sample_queued : Db := run (queue_transfer (sample_env 11 "u") "o1" "o1" 3) sample_receiving.

Lemma sample_queued_wf : transfers_wf sample_queued.
Proof. apply run_wf; [auto with preserves|apply sample_receiving_wf]. Qed.

(** .. and claimed by a worker. *)
Definition sample_uploading : Db := run (claim_transfer (sample_env 20 "lease-1")) sample_queued.

Lemma sample_uploading_wf : transfers_wf sample_uploading.
Proof. apply run_wf; [auto with preserves|apply sample_queued_wf]. Qed.

Definition sample_job (state : JobState.t) (attempts updated : Z) (lease : option string) : TransferJob :=
  {| j_id := "o1"; j_object_id := "o1"; j_connection_id := "legacy"; j_operation_id := Some "o1";
     j_bucket := "b"; j_key := "k"; j_state := state; j_bytes := 0; j_chunks_done := 0;
     j_chunks_total := 3; j_attempts := attempts; j_next_retry := 0; j_lease := lease;
     j_write_conditionals := None; j_error := None; j_created_at := 10; j_updated_at := updated |}.

Lemma reserve_staging_within_budget_witness :
  staged_bytes (run (reserve_staging (sample_env 12 "u") "o1" 700 1000) sample_receiving) = 700.
Proof.
  pose proof (reserve_staging_within_budget (sample_env 12 "u") sample_receiving "o1" 700 1000
    sample_receiving_wf ltac:(unfold I64_MAX; lia) ltac:(unfold U64_MAX; lia)) as H.
  vm_compute in H. destruct H as [H _]. vm_compute. exact H.
Defined.

Lemma claim_transfer_safe_witness :
  exists r', In r' (transfer_jobs sample_uploading) /\ tj_state r' = JobState.Uploading /\
    older_pending sample_uploading r' = false.
Proof.
  destruct (claim_transfer_safe (sample_env 20 "lease-1") sample_queued sample_uploading
    (sample_job JobState.Uploading 1 20 (Some "lease-1")) sample_queued_wf
    ltac:(vm_compute; reflexivity)) as (_ & r & r' & _ & Hr' & _ & _ & _ & Hst & _ & _ & _ & Ho & _).
  exists r'. exact (conj Hr' (conj Hst Ho)).
Defined.

(** A second upload of the same key waits for the first. *)
Definition sample_two : Db :=
  run (queue_transfer (sample_env 21 "u") "o2" "o2" 1)
    (run (begin_transfer (sample_env 21 "u") "o2" "b" "k") sample_uploading).

Lemma sample_two_wf : transfers_wf sample_two.
Proof.
  apply run_wf; [auto with preserves|]. apply run_wf; [auto with preserves|].
  apply sample_uploading_wf.
Qed.

Lemma claim_transfer_none_means_blocked_witness :
  run (claim_transfer (sample_env 30 "lease-2")) sample_two
  = (recover_transfers (sample_env 30 "lease-2") sample_two).2.
Proof.
  apply (claim_transfer_none_means_blocked (sample_env 30 "lease-2") sample_two _ sample_two_wf).
  vm_compute. reflexivity.
Defined.

Lemma claim_transfer_normalizes_witness :
  exists answer db', claim_transfer (sample_env 30 "lease-2") sample_two = (Ok answer, db') /\
    no_stale_sending db'.
Proof. apply (claim_transfer_normalizes (sample_env 30 "lease-2") sample_two sample_two_wf). Defined.

Lemma claim_fences_previous_worker_witness :
  let db' := run (claim_transfer (sample_env 200 "lease-2")) sample_uploading in
  renew_transfer (sample_env 201 "u") "o1" "lease-1" db' = (Ok false, db').
Proof.
  intros db'.
  exact (proj1 (claim_fences_previous_worker (sample_env 200 "lease-2") sample_uploading db'
    (sample_job JobState.Uploading 2 200 (Some "lease-2")) "lease-1" sample_uploading_wf
    ltac:(vm_compute; reflexivity) ltac:(vm_compute; discriminate)) (sample_env 201 "u")).
Defined.

(** [set_transfer_error] never records anything: its statement has two
    parameters and is given three values, so every call is refused. *)
Theorem set_transfer_error_never_runs (E : Env) (id message : string) (db : Db) :
  set_transfer_error E id message db = (Err (Sqlite "Wrong number of parameters passed to query"), db).
Proof. reflexivity. Qed.

(** a failed upload whose staging was discarded counts as a published write:
    with the first upload of a key queued, a second one that fails reception
    and is cleaned makes the next poll supersede the first, although nothing
    newer was ever published for the key. *)
Theorem cleaned_failure_supersedes_queued_write :
  let second := run (mark_cleaned "o2") (run (fail_reception (sample_env 22 "u") "o2" true "client gone")
                  (run (begin_transfer (sample_env 21 "u") "o2" "b" "k") sample_queued)) in
  map tj_state (transfer_jobs second) = [JobState.Queued; JobState.Cleaned] /\
  claim_transfer (sample_env 30 "lease") second
    = (Ok None, run (claim_transfer (sample_env 30 "lease")) second) /\
  map tj_state (transfer_jobs (run (claim_transfer (sample_env 30 "lease")) second))
    = [JobState.Superseded; JobState.Cleaned].
Proof. split_and!; vm_compute; reflexivity. Qed.
