(* ===== verification/ManifestStore.v ===== *)
(** * The manifest store ([src/src/metadata/manifests.rs], [rows.rs],
      [recovery.rs], [accounts.rs], [auth.rs])

    Staging, committing and deleting object versions, and the index of active
    objects: one manifest row per version, one journal row per operation, and
    one active row per key that names the version clients see.  The operations
    are here; [ManifestSafety.v] proves what they guarantee. *)

From stdpp Require Import pretty.
From S2P Require Import Prelude Errors Manifest Schema Cleanup Transfers.

(** ** Types of the [s3s] crate the store takes *)

Inductive ETag : Type :=
| Strong (value : string)
| Weak (value : string).

Inductive ETagCondition : Type :=
| AnyETag
| IsETag (etag : ETag).

Definition as_strong (e : ETag) : option string :=
  match e with Strong v => Some v | Weak _ => None end.

Definition as_weak (e : ETag) : option string :=
  match e with Weak v => Some v | Strong _ => None end.

(** ** Loading rows *)

Definition load_manifest_by_object_id (object_id : string) : M (option ObjectManifest) :=
  row ← query (fun db => object_manifests db !! object_id);
  match row with
  | None => mret None
  | Some r =>
      match validate (om_manifest r) with
      | Err e => throw (InvalidManifest e)
      | Ok _ => mret (Some (om_manifest r))
      end
  end.

Definition load_journal_entry (operation_id : string) : M (option JournalDetails) :=
  query (fun db => oj_details <$> operation_journal db !! operation_id).

Definition manifest_json_with_state (m : ObjectManifest) (s : CommitState.t) : ObjectManifest :=
  m <| commit_state := s |>.

Definition staging_marker (operation_id : string) : string := "staging:" +:+ operation_id.

Definition object_marker (object_id : string) : string := "object:" +:+ object_id.

(** ** Statements shared by several operations *)

(** [INSERT INTO active_objects .. ON CONFLICT(bucket,object_key) DO UPDATE]; the
    object must have a manifest row. *)
Definition set_active (bucket key object_id updated_at : string) : M unit :=
  parent ← query (fun db => is_some (object_manifests db !! object_id));
  ensure parent (Sqlite "FOREIGN KEY constraint failed") ;;
  modify (fun db => db <| active_objects ::=
    <[(bucket, key) := {| ao_object_id := object_id; ao_updated_at := updated_at |}]> |>).

Definition upsert_marker (marker_key object_id bucket key state : string) (details : MarkerDetails)
    (now : string) : M unit := modify (fun db =>
  let created := match recovery_markers db !! marker_key with
                 | Some old => rm_created_at old
                 | None => now
                 end in
  db <| recovery_markers ::= <[marker_key :=
    {| rm_object_id := object_id; rm_bucket := bucket; rm_object_key := key;
       rm_marker_state := state; rm_details := details; rm_created_at := created;
       rm_updated_at := now |}]> |>).

(** [DELETE FROM recovery_markers WHERE object_id=?1] *)
Definition delete_markers_of (object_id : string) : M unit := modify (fun db =>
  db <| recovery_markers ::= filter (fun '(_, m) => rm_object_id m <> object_id) |>).

(** [UPDATE operation_journal SET state='tombstoned', error, updated_at WHERE object_id=?1] *)
Definition tombstone_journal (object_id reason now : string) : M unit := modify (fun db =>
  db <| operation_journal ::= fmap (fun j =>
    if bool_decide (oj_object_id j = object_id)
    then j <| oj_state := JournalState.Tombstoned |> <| oj_error := Some reason |>
           <| oj_updated_at := now |>
    else j) |>).

(** ** Staging *)

Definition ensure_recovery_marker (E : Env) (details : JournalDetails) : M unit :=
  upsert_marker (staging_marker (jd_operation_id details)) (jd_object_id details)
    (jd_bucket details) (jd_object_key details) "staging" (JournalMarker details)
    (timestamp_at E 0).

Definition stage_manifest (E : Env) (operation_kind : OperationKind.t) (manifest : ObjectManifest)
    : M Uuid :=
  match validate manifest with
  | Err e => throw (InvalidManifest e)
  | Ok _ =>
      let operation_id := object_id manifest in
      let created := timestamp_at E 0 in
      let details :=
        {| jd_operation_id := operation_id; jd_object_id := object_id manifest;
           jd_bucket := bucket manifest; jd_object_key := key manifest;
           jd_operation_kind := operation_kind; jd_state := JournalState.Staging;
           jd_reason := None |} in
      transaction (
        modify (fun db => db <| object_manifests ::= <[object_id manifest :=
          {| om_connection_id := active_connection_id db; om_bucket := bucket manifest;
             om_object_key := key manifest; om_version_id := version_id manifest;
             om_commit_state := CommitState.Staging;
             om_manifest := manifest_json_with_state manifest CommitState.Staging;
             om_created_at := created; om_committed_at := None; om_tombstoned_at := None |}]> |>) ;;
        modify (fun db =>
          let created_at := match operation_journal db !! operation_id with
                            | Some old => oj_created_at old
                            | None => created
                            end in
          db <| operation_journal ::= <[operation_id :=
            {| oj_object_id := object_id manifest; oj_bucket := bucket manifest;
               oj_object_key := key manifest; oj_operation_kind := operation_kind;
               oj_state := JournalState.Staging; oj_details := details; oj_error := None;
               oj_created_at := created_at; oj_updated_at := created |}]> |>)) ;;
      ensure_recovery_marker (under 0 E) details ;;
      mret operation_id
  end.

(** ** Conditional requests *)

Definition etag_condition_matches (condition : ETagCondition) (actual : string) : bool :=
  match condition with
  | AnyETag => true
  | IsETag etag =>
      bool_decide (as_strong etag = Some actual) || bool_decide (as_weak etag = Some actual)
  end.

Section Conditionals.
(** [ETagCondition::from_str] of the [s3s] crate. *)
Context (etag_from_str : string -> option ETagCondition).

Definition enforce_write_conditionals_snapshot (conditionals : TransferWriteConditionals)
    (current_manifest : option ObjectManifest) : Result unit MetadataError :=
  match current_manifest with
  | None =>
      if is_some (if_match conditionals)
      then Err (InvalidManifest "if-match precondition failed") else Ok tt
  | Some manifest =>
      let current_etag := whole_object (m_checksum manifest) in
      match if_match conditionals with
      | Some raw =>
          match etag_from_str raw with
          | None => Err (InvalidManifest "invalid stored if-match condition")
          | Some condition =>
              if negb (etag_condition_matches condition current_etag)
              then Err (InvalidManifest "if-match precondition failed") else Ok tt
          end
      | None =>
          match if_none_match conditionals with
          | Some raw =>
              match etag_from_str raw with
              | None => Err (InvalidManifest "invalid stored if-none-match condition")
              | Some condition =>
                  if etag_condition_matches condition current_etag
                  then Err (InvalidManifest "if-none-match precondition failed") else Ok tt
              end
          | None => Ok tt
          end
      end
  end.
End Conditionals.

Record DeleteConditionals : Type := {
  d_if_match : option ETagCondition;
  d_if_match_last_modified_time : option OffsetDateTime;
  d_if_match_size : option Z
}.

Definition no_conditionals : DeleteConditionals :=
  {| d_if_match := None; d_if_match_last_modified_time := None; d_if_match_size := None |}.

Definition enforce_delete_conditionals_snapshot (c : DeleteConditionals) (manifest : ObjectManifest)
    : Result unit MetadataError :=
  let current_etag := whole_object (m_checksum manifest) in
  if match d_if_match c with
     | Some condition => negb (etag_condition_matches condition current_etag)
     | None => false
     end
  then Err (PreconditionFailed "if-match precondition failed")
  else if match d_if_match_last_modified_time c with
          | Some expected => negb (created_at manifest =? expected)
          | None => false
          end
  then Err (PreconditionFailed "if-match-last-modified-time precondition failed")
  else if match d_if_match_size c with
          | Some condition => negb (u64_as_i64 (content_length manifest) =? condition)
          | None => false
          end
  then Err (PreconditionFailed "if-match-size precondition failed")
  else Ok tt.

Definition lift {A} (r : Result A MetadataError) : M A :=
  match r with Ok a => mret a | Err e => throw e end.

(** ** Account quotas *)

Definition enforce_quota (label : string) (quota_bytes : option Z) (used_bytes additional_bytes : Z)
    : Result unit MetadataError :=
  match quota_bytes with
  | None => Ok tt
  | Some quota =>
      if quota <? u64_saturating_add used_bytes additional_bytes
      then Err (QuotaExceeded ("account " +:+ label +:+ " has " +:+ pretty used_bytes +:+ " used of "
             +:+ pretty quota +:+ " and cannot receive " +:+ pretty additional_bytes
             +:+ " more bytes"))
      else Ok tt
  end.

(** The committed manifest an active row names, for one account. *)
Definition active_manifest_of (db : Db) (account_id : string) (a : ActiveRow) : option ObjectManifest :=
  match object_manifests db !! ao_object_id a with
  | Some m =>
      if bool_decide (om_connection_id m = account_id)
         && bool_decide (om_commit_state m = CommitState.Committed)
      then Some (om_manifest m) else None
  | None => None
  end.

(** The bytes of the account's active objects. *)
Definition active_bytes (db : Db) (account_id : string) : Z :=
  sql_sum (fun '(_, a) => match active_manifest_of db account_id a with
                          | Some m => content_length m
                          | None => 0
                          end) (map_to_list (active_objects db)).

(** The bytes of the ready replicas the account holds of active objects. *)
Definition replica_bytes (db : Db) (account_id : string) : Z :=
  sql_sum (fun r =>
    match object_manifests db !! rl_object_id r with
    | Some m =>
        if bool_decide (om_commit_state m = CommitState.Committed) then
          sql_sum (fun _ => match chunks (om_manifest m) !! Z.to_nat (rl_chunk_order r) with
                            | Some c => size c
                            | None => 0
                            end)
            (List.filter (fun '(_, a) => bool_decide (ao_object_id a = rl_object_id r))
               (map_to_list (active_objects db)))
        else 0
    | None => 0
    end)
    (sql_where (fun r => bool_decide (rl_account_id r = account_id)
                  && bool_decide (rl_mode r = ReplicaMode.Replica)
                  && bool_decide (rl_state r = "ready")) (replica_locations db)).

Definition used_bytes (db : Db) (account_id : string) : Z :=
  active_bytes db account_id + replica_bytes db account_id.

(** The length of the version a write of this key replaces. *)
Definition current_length (db : Db) (bucket key account_id : string) : Z :=
  match active_objects db !! (bucket, key) with
  | Some a => match active_manifest_of db account_id a with
              | Some m => Z.max (content_length m) 0
              | None => 0
              end
  | None => 0
  end.

Definition enforce_account_quota_in_transaction (account_id bucket key : string)
    (content_length : Z) : M unit :=
  account ← query (fun db => telegram_accounts db !! account_id);
  match account with
  | None => mret tt
  | Some a =>
      used ← query (fun db => used_bytes db account_id);
      current ← query (fun db => current_length db bucket key account_id);
      lift (enforce_quota (ta_label a) (Z.max 0 <$> ta_quota_bytes a) (Z.max used 0)
              (u64_saturating_sub content_length current))
  end.

(** ** Committing: the steps of [commit_manifest_inner], in order *)

(** The manifest to publish: the staged one, or the worker's version of it. *)
Definition published_manifest (journal : JournalDetails) (staged : ObjectManifest)
    (published : option ObjectManifest) : M ObjectManifest :=
  match published with
  | None => mret staged
  | Some p =>
      match validate p with
      | Err e => throw (InvalidManifest e)
      | Ok _ =>
          ensure (bool_decide (object_id p = jd_object_id journal)
                  && bool_decide (bucket p = jd_bucket journal)
                  && bool_decide (key p = jd_object_key journal))
            (InvalidManifest "published manifest identity changed") ;;
          mret p
      end
  end.

(** The publication fence and the per-key order of a worker's commit. *)
Definition check_publication_fence (now : Z) (operation_id job_id lease : string) : M unit :=
  row ← query (find_job job_id);
  match row with
  | None => throw (InvalidManifest "transfer job missing")
  | Some r =>
      ensure (bool_decide (tj_state r = JobState.Committing)
              && bool_decide (tj_lease r = Some lease)
              && negb (tj_lease_until r <? now)
              && bool_decide (tj_operation_id r = Some operation_id))
        (InvalidManifest "publication fence lost") ;;
      older ← query (fun db => older_pending db r);
      newer ← query (fun db => newer_published db r);
      ensure (negb (older || newer)) (InvalidManifest "per-key publication order changed")
  end.

(** A commit without a worker: the job of the operation, if any, must be live. *)
Definition has_operation (operation_id : string) (r : TransferRow) : bool :=
  sql_eq (tj_operation_id r) operation_id.

Definition check_untracked_commit (operation_id : string) : M unit :=
  row ← query (fun db => sql_first (sql_where (has_operation operation_id) (transfer_jobs db)));
  match row with
  | None => mret tt
  | Some r => ensure (in_states live r) (InvalidManifest "transfer cannot commit in current state")
  end.

Definition load_current (bucket key : string) : M (option ObjectManifest) :=
  row ← query (fun db => active_objects db !! (bucket, key));
  match row with
  | Some a => load_manifest_by_object_id (ao_object_id a)
  | None => mret None
  end.

Section Commit.
Context (etag_from_str : string -> option ETagCondition).

Definition check_write_conditionals (job_id : string) (current : option ObjectManifest) : M unit :=
  row ← query (find_job job_id);
  row ← some_or row (Sqlite "Query returned no rows");
  match tj_write_conditionals row with
  | None => mret tt
  | Some conditionals =>
      lift (enforce_write_conditionals_snapshot etag_from_str conditionals current)
  end.

(** [EXISTS(SELECT 1 FROM multipart_jobs WHERE job_id=?1 AND part_number>0)] *)
Definition is_multipart_part (job_id : string) (db : Db) : bool :=
  sql_exists (fun m => bool_decide (mj_job_id m = job_id) && (0 <? mj_part_number m))
    (multipart_jobs db).

Definition check_quota (journal : JournalDetails) (manifest : ObjectManifest)
    (completion_job : string) : M unit :=
  part ← query (is_multipart_part completion_job);
  if (part : bool) then mret tt
  else
    row ← query (fun db => object_manifests db !! jd_object_id journal);
    row ← some_or row (Sqlite "Query returned no rows");
    enforce_account_quota_in_transaction (om_connection_id row) (bucket manifest) (key manifest)
      (content_length manifest).

(** The session a completion job closes. *)
Definition completion_upload (job_id : string) (db : Db) : option string :=
  mj_upload_id <$> sql_first (sql_where (fun m =>
    bool_decide (mj_job_id m = job_id) && (mj_part_number m =? 0)) (multipart_jobs db)).

Definition session_open (upload : string) (db : Db) : bool :=
  match multipart_uploads db !! upload with
  | Some u => one_of (mu_state u) [MultipartState.Initiated; MultipartState.Uploading;
                                   MultipartState.Completing]
  | None => false
  end.

Definition check_completion (completion : option string) : M unit :=
  match completion with
  | None => mret tt
  | Some upload =>
      active ← query (session_open upload);
      ensure active (InvalidManifest "multipart completion session is closed")
  end.

(** The statements that make the version visible. *)
Definition publish_version (operation_id committed_at : string) (journal : JournalDetails)
    (manifest : ObjectManifest) : M unit :=
  modify (fun db => db <| object_manifests ::= alter (fun r =>
    r <| om_commit_state := CommitState.Committed |> <| om_manifest := manifest |>
      <| om_committed_at := Some committed_at |> <| om_tombstoned_at := None |>)
    (object_id manifest) |>) ;;
  set_active (bucket manifest) (key manifest) (object_id manifest) committed_at ;;
  modify (fun db => db <| recovery_markers ::= delete (staging_marker (jd_operation_id journal)) |>) ;;
  modify (fun db => db <| operation_journal ::= alter (fun j =>
    j <| oj_state := JournalState.Committed |> <| oj_updated_at := committed_at |>) operation_id |>).

Definition complete_row (now : Z) (r : TransferRow) : TransferRow :=
  r <| tj_state := JobState.Completed |> <| tj_error := None |> <| tj_lease := None |>
    <| tj_lease_until := 0 |> <| tj_updated_at := now |>.

Definition complete_job (now : Z) (operation_id : string) (transfer : option (string * string))
    : M unit :=
  match transfer with
  | Some (job_id, lease) =>
      n ← update_jobs (fun _ r => has_id job_id r && sql_eq (tj_lease r) lease
                                 && in_states [JobState.Committing] r) (complete_row now);
      ensure (n =? 1) (InvalidManifest "publication fence lost")
  | None =>
      update_jobs (fun _ => has_operation operation_id) (complete_row now) ;; mret tt
  end.

(** Close the completed session and queue what its parts no longer need. *)
Definition retained_chunks (manifest : ObjectManifest) : gset (string * Z) :=
  list_to_set (map (fun c => (telegram_peer_id c, telegram_message_id c)) (chunks manifest)).

Definition parts_of (upload : string) (db : Db) : list PartRow :=
  sql_where (fun p => bool_decide (mp_upload_id p = upload)) (multipart_parts db).

Definition close_session (upload : string) : M unit :=
  active ← query (session_open upload);
  ensure active (InvalidManifest "multipart completion session is closed") ;;
  modify (fun db => db <| multipart_uploads ::= alter (fun u =>
    u <| mu_state := MultipartState.Completed |>
      <| mu_session ::= (fun s => s <| ms_state := MultipartState.Completed |>) |>) upload |>).

Definition finish_completion (E : Env) (manifest : ObjectManifest) (completion : option string)
    : M unit :=
  match completion with
  | None => mret tt
  | Some upload =>
      parts ← query (parts_of upload);
      for_each (fun '(i, p) =>
        enqueue_part_cleanup_preserving (under i E) (mp_part p) (retained_chunks manifest))
        (imap pair parts) ;;
      close_session upload ;;
      modify (fun db => db <| multipart_parts ::=
        sql_delete (fun p => bool_decide (mp_upload_id p = upload)) |>)
  end.

Definition commit_manifest_inner (E : Env) (operation_id : Uuid)
    (transfer : option (string * string)) (published : option ObjectManifest)
    : M ObjectManifest := transaction (
  journal ← load_journal_entry operation_id;
  journal ← some_or journal (JournalNotFound operation_id);
  staged ← load_manifest_by_object_id (jd_object_id journal);
  staged ← some_or staged (ManifestNotFound (jd_object_id journal));
  if bool_decide (jd_state journal = JournalState.Committed)
     && bool_decide (commit_state staged = CommitState.Committed)
  then mret staged
  else
    manifest ← published_manifest journal staged published;
    match transfer with
    | Some (job_id, lease) => check_publication_fence (now_at E 0) operation_id job_id lease
    | None => check_untracked_commit operation_id
    end ;;
    current ← load_current (jd_bucket journal) (jd_object_key journal);
    match transfer with
    | Some (job_id, _) => check_write_conditionals job_id current
    | None => mret tt
    end ;;
    let completion_job := match transfer with Some (j, _) => j | None => jd_object_id journal end in
    check_quota journal manifest completion_job ;;
    completion ← query (completion_upload completion_job);
    check_completion completion ;;
    let manifest := manifest <| commit_state := CommitState.Committed |> in
    publish_version operation_id (timestamp_at E 0) journal manifest ;;
    complete_job (now_at E 1) operation_id transfer ;;
    finish_completion E manifest completion ;;
    mret manifest).

Definition commit_manifest (E : Env) (operation_id : Uuid) : M ObjectManifest :=
  commit_manifest_inner E operation_id None None.

Definition commit_transfer_manifest (E : Env) (operation_id : Uuid) (job_id lease : string)
    (published : ObjectManifest) : M ObjectManifest :=
  commit_manifest_inner E operation_id (Some (job_id, lease)) (Some published).
End Commit.

(** ** Other writes *)

Definition update_manifest (manifest : ObjectManifest) : M ObjectManifest :=
  modify (fun db => db <| object_manifests ::= alter (fun r =>
    r <| om_commit_state := commit_state manifest |> <| om_manifest := manifest |>)
    (object_id manifest) |>) ;;
  mret manifest.


Definition tombstone_manifest_with_conditionals (E : Env) (obj : Uuid) (reason : string)
    (c : DeleteConditionals) : M ObjectManifest := transaction (
  manifest ← load_manifest_by_object_id obj;
  manifest ← some_or manifest (ManifestNotFound obj);
  lift (enforce_delete_conditionals_snapshot c manifest) ;;
  let manifest := manifest <| commit_state := CommitState.Tombstoned |> in
  enqueue_manifest_cleanup (now_at E 0) manifest ;;
  modify (fun db => db <| object_manifests ::= alter (fun r =>
    r <| om_commit_state := CommitState.Tombstoned |> <| om_manifest := manifest |>
      <| om_tombstoned_at := Some (timestamp_at E 0) |>) obj |>) ;;
  modify (fun db => db <| active_objects ::= filter (fun '(k, a) =>
    ~ (k = (bucket manifest, key manifest) /\ ao_object_id a = object_id manifest)) |>) ;;
  delete_markers_of (object_id manifest) ;;
  tombstone_journal (object_id manifest) reason (timestamp_at E 0) ;;
  mret manifest).

Definition tombstone_manifest (E : Env) (obj : Uuid) (reason : string) : M ObjectManifest :=
  tombstone_manifest_with_conditionals E obj reason no_conditionals.

(** The object ids of the active, committed objects of the active connection. *)
Definition expiry_candidates (db : Db) : list (string * ObjectManifest) :=
  omap (fun '(_, a) => (fun m => (ao_object_id a, m)) <$>
                       active_manifest_of db (active_connection_id db) a)
    (map_to_list (active_objects db)).

(** One iteration of the expiry loop. *)
Definition expire_object (E : Env) (obj : string) (manifest : ObjectManifest) : M unit :=
  let manifest := manifest <| commit_state := CommitState.Tombstoned |> in
  enqueue_manifest_cleanup (now_at E 0) manifest ;;
  modify (fun db => db <| object_manifests ::= alter (fun r =>
    if bool_decide (om_commit_state r = CommitState.Committed)
    then r <| om_commit_state := CommitState.Tombstoned |> <| om_manifest := manifest |>
           <| om_tombstoned_at := Some (timestamp_at E 0) |>
    else r) obj |>) ;;
  modify (fun db => db <| active_objects ::= filter (fun '(_, a) => ao_object_id a <> obj) |>) ;;
  delete_markers_of obj ;;
  tombstone_journal obj "object expired" (timestamp_at E 0).

Definition tombstone_expired_active_manifests (E : Env) (now : OffsetDateTime) : M Z := transaction (
  candidates ← query expiry_candidates;
  let expired := List.filter (fun '(_, m) => is_expired m now) candidates in
  for_each (fun '(i, (obj, m)) => expire_object (under i E) obj m) (imap pair expired) ;;
  mret (Z.of_nat (length expired))).

Definition update_manifest_state (E : Env) (obj : Uuid) (s : CommitState.t) : M ObjectManifest :=
  transaction (
  manifest ← load_manifest_by_object_id obj;
  manifest ← some_or manifest (ManifestNotFound obj);
  let manifest := manifest <| commit_state := s |> in
  modify (fun db => db <| object_manifests ::= alter (fun r =>
    r <| om_commit_state := s |> <| om_manifest := manifest |>) obj |>) ;;
  (if bool_decide (s = CommitState.Committed)
   then set_active (bucket manifest) (key manifest) obj (timestamp_at E 0)
   else modify (fun db => db <| active_objects ::= filter (fun '(_, a) => ao_object_id a <> obj) |>)) ;;
  (if bool_decide (s = CommitState.RecoveryRequired) then mret tt
   else modify (fun db => db <| recovery_markers ::= delete (object_marker obj) |>)) ;;
  mret manifest).

Definition set_object_recovery_marker (E : Env) (obj : Uuid) (bucket key details : string) : M unit :=
  upsert_marker (object_marker obj) obj bucket key "recovery_required" (ObjectMarker details)
    (timestamp_at E 0).

(** ** Deleting a key ([auth.rs]) *)

Definition key_job (bucket key : string) (r : TransferRow) : bool :=
  bool_decide (tj_bucket r = bucket) && bool_decide (tj_object_key r = key).

Definition delete_active_key_in_transaction (E : Env) (bkt k reason : string)
    (c : DeleteConditionals) : M (option ObjectManifest) :=
  busy ← query (fun db => sql_exists (fun r => key_job bkt k r && in_states live r) (transfer_jobs db));
  ensure (negb busy) (InvalidManifest "object publication in progress; retry delete") ;;
  update_jobs (fun _ r => key_job bkt k r && in_states [JobState.Receiving; JobState.Queued;
                 JobState.RetryWait; JobState.RecoveryRequired] r)
    (fun r => r <| tj_state := JobState.Cancelled |> <| tj_lease := None |> <| tj_lease_until := 0 |>
                <| tj_error := Some "Superseded by deletion" |> <| tj_updated_at := now_at E 0 |>) ;;
  active ← query (fun db => active_objects db !! (bkt, k));
  match active with
  | None => mret None
  | Some a =>
      let obj := ao_object_id a in
      manifest ← load_manifest_by_object_id obj;
      manifest ← some_or manifest (ManifestNotFound obj);
      lift (enforce_delete_conditionals_snapshot c manifest) ;;
      let manifest := manifest <| commit_state := CommitState.Tombstoned |> in
      enqueue_manifest_cleanup (now_at E 1) manifest ;;
      modify (fun db => db <| object_manifests ::= alter (fun r =>
        r <| om_commit_state := CommitState.Tombstoned |> <| om_manifest := manifest |>
          <| om_tombstoned_at := Some (timestamp_at E 0) |>) obj |>) ;;
      modify (fun db => db <| active_objects ::= filter (fun '(key, a) =>
        ~ (key = (bkt, k) /\ ao_object_id a = obj)) |>) ;;
      delete_markers_of obj ;;
      tombstone_journal obj reason (timestamp_at E 0) ;;
      mret (Some manifest)
  end.

Definition delete_active_key (E : Env) (bkt k reason : string) (c : DeleteConditionals)
    : M (option ObjectManifest) :=
  transaction (delete_active_key_in_transaction E bkt k reason c).

(** [instr(object_key, ?2)=1 AND object_key<>?2] *)
Definition proper_prefix (p s : string) : bool :=
  String.prefix p s && negb (bool_decide (s = p)).

Fixpoint ends_with_slash (s : string) : bool :=
  match s with
  | EmptyString => false
  | String c EmptyString => Ascii.eqb c (Ascii.ascii_of_N 47)
  | String _ s' => ends_with_slash s'
  end.

Definition delete_empty_folder (E : Env) (bkt folder reason : string) : M (option ObjectManifest) :=
  if negb (ends_with_slash folder) then throw (InvalidManifest "folder key must end with '/'")
  else transaction (
    children ← query (fun db => existsb (fun '(b, k) => bool_decide (b = bkt) && proper_prefix folder k)
                                  (map fst (map_to_list (active_objects db))));
    pending ← query (fun db => sql_exists (fun r => bool_decide (tj_bucket r = bkt)
        && proper_prefix folder (tj_object_key r)
        && negb (in_states [JobState.Completed; JobState.Cancelled; JobState.Cleaned] r))
        (transfer_jobs db));
    ensure (negb (children || pending)) (FolderNotEmpty folder) ;;
    delete_active_key_in_transaction E bkt folder reason no_conditionals).

(** ** Reading *)

Definition get_manifest (obj : Uuid) : M (option ObjectManifest) := load_manifest_by_object_id obj.

Definition get_active_manifest (bkt k : string) : M (option ObjectManifest) :=
  row ← query (fun db =>
    match active_objects db !! (bkt, k) with
    | Some a =>
        match object_manifests db !! ao_object_id a with
        | Some m => if bool_decide (om_connection_id m = active_connection_id db)
                    then Some (ao_object_id a) else None
        | None => None
        end
    | None => None
    end);
  match row with
  | Some obj => load_manifest_by_object_id obj
  | None => mret None
  end.

(** ** Rebuilding and verifying the index ([recovery.rs]) *)

(** [ORDER BY committed_at ASC, object_id ASC]; NULL sorts first. *)
Definition committed_at_le (a b : option string) : bool :=
  match a, b with
  | None, _ => true
  | Some _, None => false
  | Some x, Some y => text_le x y
  end.

Definition manifest_le (a b : string * ManifestRow) : Prop :=
  (if bool_decide (om_committed_at a.2 = om_committed_at b.2) then text_le a.1 b.1
   else committed_at_le (om_committed_at a.2) (om_committed_at b.2)) = true.

#[export] Instance manifest_le_dec : RelDecision manifest_le.
Proof. intros a b. unfold manifest_le. apply _. Defined.

Definition ordered_manifests (db : Db) : list (string * ManifestRow) :=
  merge_sort manifest_le (map_to_list (object_manifests db)).

Definition is_committed (e : string * ManifestRow) : bool :=
  bool_decide (om_commit_state e.2 = CommitState.Committed).

(** [ORDER BY created_at ASC, operation_id ASC] *)
Definition journal_le (a b : string * JournalRow) : Prop :=
  (if bool_decide (oj_created_at a.2 = oj_created_at b.2) then text_le a.1 b.1
   else text_le (oj_created_at a.2) (oj_created_at b.2)) = true.

#[export] Instance journal_le_dec : RelDecision journal_le.
Proof. intros a b. unfold journal_le. apply _. Defined.

Definition staging_entries (db : Db) : list (string * JournalRow) :=
  List.filter (fun e => bool_decide (oj_state e.2 = JournalState.Staging))
    (merge_sort journal_le (map_to_list (operation_journal db))).

Record RebuildReport : Type := {
  rr_committed_rows : Z;
  rr_active_rows : Z;
  rr_staged_rows : Z;
  rr_recovery_markers : Z
}.

Definition remark_staging (E : Env) (e : string * JournalRow) : M unit :=
  let j := e.2 in
  upsert_marker (staging_marker e.1) (oj_object_id j) (oj_bucket j) (oj_object_key j) "staging"
    (JournalMarker {| jd_operation_id := e.1; jd_object_id := oj_object_id j;
                      jd_bucket := oj_bucket j; jd_object_key := oj_object_key j;
                      jd_operation_kind := oj_operation_kind j; jd_state := oj_state j;
                      jd_reason := Some "pending startup reconciliation" |})
    (timestamp_at E 0).

Definition rebuild_index_internal (E : Env) : M RebuildReport := transaction (
  modify (fun db => db <| active_objects := ∅ |>) ;;
  staging ← query staging_entries;
  for_each (fun '(i, e) => remark_staging (under i (under 0 E)) e) (imap pair staging) ;;
  committed ← query (fun db => List.filter is_committed (ordered_manifests db));
  for_each (fun '(i, e) => set_active (om_bucket e.2) (om_object_key e.2) e.1
                             (timestamp_at (under i (under 1 E)) 0)) (imap pair committed) ;;
  active_rows ← query (fun db => Z.of_nat (length (map_to_list (active_objects db))));
  mret {| rr_committed_rows := Z.of_nat (length committed); rr_active_rows := active_rows;
          rr_staged_rows := Z.of_nat (length staging);
          rr_recovery_markers := Z.of_nat (length staging) |}).

Record VerifyReport : Type := {
  vr_expected_active_rows : Z;
  vr_actual_active_rows : Z;
  vr_mismatched_rows : Z;
  vr_staged_rows : Z
}.

(** The index the committed manifests call for: the last one of each key. *)
Definition expected_index (db : Db) : gmap (string * string) string :=
  fold_left (fun acc e => if is_committed e then <[(om_bucket e.2, om_object_key e.2) := e.1]> acc
                          else acc) (ordered_manifests db) ∅.

Definition actual_index (db : Db) : gmap (string * string) string :=
  ao_object_id <$> active_objects db.

Definition verify_index_internal : M VerifyReport := query (fun db =>
  let expected := expected_index db in
  let actual := actual_index db in
  let missing := List.filter (fun '(k, o) => negb (bool_decide (actual !! k = Some o)))
                   (map_to_list expected) in
  let extra := List.filter (fun '(k, _) => negb (is_some (expected !! k))) (map_to_list actual) in
  {| vr_expected_active_rows := Z.of_nat (length (map_to_list expected));
     vr_actual_active_rows := Z.of_nat (length (map_to_list actual));
     vr_mismatched_rows := Z.of_nat (length missing + length extra);
     vr_staged_rows := sql_count (fun e => bool_decide (om_commit_state e.2 = CommitState.Staging))
                         (map_to_list (object_manifests db)) |}).
