(* ===== verification/ManifestSafety.v ===== *)
(** * Safety of the manifest store

    What a commit, a deletion, an expiry sweep and an index rebuild guarantee:
    a commit publishes exactly the checked version and completes exactly its
    job, within its fence, its preconditions and its account's quota; a delete
    hides the key at once and queues every message of the version; a rebuilt
    index is the one the committed manifests call for. *)

From S2P Require Import Prelude Errors Manifest Schema Cleanup Transfers TransferSafety.
From S2P Require Import ManifestStore.

(** ** Read-only steps *)

(** [steps eq m]: [m] reads only. *)
Lemma reads_inv {A} (m : M A) db r d : steps eq m -> m db = (r, d) -> d = db.
Proof. intros H E. specialize (H db). by rewrite E in H. Qed.

Lemma lift_reads {A} (r : Result A MetadataError) : steps eq (lift r).
Proof. by destruct r. Qed.
#[export] Hint Resolve lift_reads : preserves.

Lemma load_manifest_reads o : steps eq (load_manifest_by_object_id o).
Proof. unfold load_manifest_by_object_id. step_through. Qed.

Lemma load_journal_reads o : steps eq (load_journal_entry o).
Proof. unfold load_journal_entry. step_through. Qed.

Lemma published_manifest_reads j s p : steps eq (published_manifest j s p).
Proof. unfold published_manifest. step_through. Qed.

Lemma check_publication_fence_reads now o j l : steps eq (check_publication_fence now o j l).
Proof. unfold check_publication_fence. step_through. Qed.

Lemma check_untracked_commit_reads o : steps eq (check_untracked_commit o).
Proof. unfold check_untracked_commit. step_through. Qed.
#[export] Hint Resolve load_manifest_reads load_journal_reads published_manifest_reads
  check_publication_fence_reads check_untracked_commit_reads : preserves.

Lemma load_current_reads b k : steps eq (load_current b k).
Proof. unfold load_current. step_through. Qed.

Lemma check_write_conditionals_reads p j c : steps eq (check_write_conditionals p j c).
Proof. unfold check_write_conditionals. step_through. Qed.

Lemma enforce_account_quota_reads a b k n : steps eq (enforce_account_quota_in_transaction a b k n).
Proof. unfold enforce_account_quota_in_transaction. step_through. Qed.
#[export] Hint Resolve load_current_reads check_write_conditionals_reads
  enforce_account_quota_reads : preserves.

Lemma check_quota_reads j m c : steps eq (check_quota j m c).
Proof. unfold check_quota. step_through. Qed.

Lemma check_completion_reads c : steps eq (check_completion c).
Proof. unfold check_completion. step_through. Qed.
#[export] Hint Resolve check_quota_reads check_completion_reads : preserves.

Lemma get_active_manifest_reads b k : steps eq (get_active_manifest b k).
Proof. unfold get_active_manifest. step_through. Qed.

(** Peel a successful bind of a reading step. *)
Ltac peel H x Hx :=
  let d := fresh "d" in
  apply bind_ok in H as (x & d & Hx & H);
  let Hd := fresh "Hd" in
  pose proof (fun pf => reads_inv _ _ _ _ pf Hx) as Hd;
  specialize (Hd ltac:(step_through)); subst d.

(** ** What a successful commit went through *)

Definition commit_trace (etag_from_str : string -> option ETagCondition) (E : Env) (op : Uuid)
    (transfer : option (string * string)) (published : option ObjectManifest)
    (db : Db) (m : ObjectManifest) (db' : Db) : Prop :=
  exists journal staged manifest current d1 d2,
    let job := match transfer with Some (j, _) => j | None => jd_object_id journal end in
    let completion := completion_upload job db in
    m = manifest <| commit_state := CommitState.Committed |> /\
    load_journal_entry op db = (Ok (Some journal), db) /\
    load_manifest_by_object_id (jd_object_id journal) db = (Ok (Some staged), db) /\
    published_manifest journal staged published db = (Ok manifest, db) /\
    match transfer with
    | Some (j, l) => check_publication_fence (now_at E 0) op j l db
    | None => check_untracked_commit op db
    end = (Ok tt, db) /\
    load_current (jd_bucket journal) (jd_object_key journal) db = (Ok current, db) /\
    match transfer with
    | Some (j, _) => check_write_conditionals etag_from_str j current db
    | None => (mret tt : M unit) db
    end = (Ok tt, db) /\
    check_quota journal manifest job db = (Ok tt, db) /\
    check_completion completion db = (Ok tt, db) /\
    publish_version op (timestamp_at E 0) journal m db = (Ok tt, d1) /\
    complete_job (now_at E 1) op transfer d1 = (Ok tt, d2) /\
    finish_completion E m completion d2 = (Ok tt, db').

Lemma commit_inner_inv etag E op transfer published db m db' :
  commit_manifest_inner etag E op transfer published db = (Ok m, db') ->
  (exists j, load_journal_entry op db = (Ok (Some j), db) /\ jd_state j = JournalState.Committed /\
             db' = db) \/
  commit_trace etag E op transfer published db m db'.
Proof.
  unfold commit_manifest_inner. rewrite transaction_ok. intros H.
  peel H oj Hoj. peel H journal Hj. apply some_or_ok in Hj as [-> _].
  peel H os Hos. peel H staged Hs. apply some_or_ok in Hs as [-> _].
  destruct (bool_decide (jd_state journal = JournalState.Committed) && _) eqn:Eg.
  { left. bool_hyps. exists journal. injection H as _ <-. done. }
  right. peel H manifest Hm. peel H u1 Hf. peel H current Hc. peel H u2 Hw. peel H u3 Hq.
  peel H comp Hcu. peel H u4 Hcc.
  apply bind_ok in H as (u5 & d1 & Hp & H). apply bind_ok in H as (u6 & d2 & Hcj & H).
  apply bind_ok in H as (u7 & d3 & Hfc & H). injection H as <- <-. injection Hcu as <-.
  destruct u1, u2, u3, u4, u5, u6, u7.
  exists journal, staged, manifest, current, d1, d2. destruct transfer as [[j l]|]; split_and!; done.
Qed.

(** ** Frames *)

Definition transfer_tables (db : Db) := (transfer_jobs db, transfer_seq db, send_attempts db).

Definition store_tables (db : Db) :=
  (object_manifests db, active_objects db, operation_journal db, recovery_markers db,
   app_settings db).

Lemma insert_or_ignore_frame {T} (p : Db -> T) o c q n k due :
  (forall db t s, p (db <| cleanup_targets ::= t |> <| cleanup_seq := s |>) = p db) ->
  steps (same p) (insert_or_ignore_target o c q n k due).
Proof.
  intros H. apply steps_modify. intros db. unfold same. destruct (sql_exists _ _); [done|]. apply H.
Qed.

Lemma insert_or_ignore_transfers o c q n k due :
  steps (same transfer_tables) (insert_or_ignore_target o c q n k due).
Proof. by apply insert_or_ignore_frame. Qed.

Lemma insert_or_ignore_store o c q n k due :
  steps (same store_tables) (insert_or_ignore_target o c q n k due).
Proof. by apply insert_or_ignore_frame. Qed.
#[export] Hint Resolve insert_or_ignore_transfers insert_or_ignore_store : preserves.

Lemma enqueue_manifest_transfers m due : steps (same transfer_tables) (enqueue_manifest_cleanup_at m due).
Proof. unfold enqueue_manifest_cleanup_at. frame_through. Qed.

Lemma enqueue_manifest_store m due : steps (same store_tables) (enqueue_manifest_cleanup_at m due).
Proof. unfold enqueue_manifest_cleanup_at. frame_through. Qed.

Lemma enqueue_part_transfers E p r :
  steps (same transfer_tables) (enqueue_part_cleanup_preserving E p r).
Proof. unfold enqueue_part_cleanup_preserving, cleanup_retention_secs. frame_through. Qed.

Lemma enqueue_part_store E p r :
  steps (same store_tables) (enqueue_part_cleanup_preserving E p r).
Proof. unfold enqueue_part_cleanup_preserving, cleanup_retention_secs. frame_through. Qed.
#[export] Hint Resolve enqueue_manifest_transfers enqueue_manifest_store enqueue_part_transfers
  enqueue_part_store : preserves.

Lemma publish_version_transfers op ts j m : steps (same transfer_tables) (publish_version op ts j m).
Proof. unfold publish_version, set_active. frame_through. Qed.

Lemma finish_completion_transfers E m c : steps (same transfer_tables) (finish_completion E m c).
Proof. unfold finish_completion, close_session. frame_through. Qed.

Lemma finish_completion_store E m c : steps (same store_tables) (finish_completion E m c).
Proof. unfold finish_completion, close_session. frame_through. Qed.

Lemma complete_job_store now op t : steps (same store_tables) (complete_job now op t).
Proof. unfold complete_job. frame_through. Qed.

Lemma sound_same db db' : same transfer_tables db db' -> sound db db'.
Proof. intros [= Hj Hs Ha]. by apply sound_frame. Qed.

Lemma steps_sound_same {A} (m : M A) : steps (same transfer_tables) m -> steps sound m.
Proof. intros H db. apply sound_same, H. Qed.

(** ** Commits keep the transfer invariant *)

Lemma operation_unique db r r' o :
  transfers_wf db -> In r (transfer_jobs db) -> In r' (transfer_jobs db) ->
  tj_operation_id r = Some o -> tj_operation_id r' = Some o -> r = r'.
Proof.
  intros Hwf Hr Hr' Ho Ho'. apply (job_unique db); try done.
  rewrite <- (tw_operation db Hwf r o Hr Ho). by apply (tw_operation db Hwf r' o).
Qed.

Lemma check_untracked_live op db r :
  transfers_wf db -> check_untracked_commit op db = (Ok tt, db) ->
  In r (transfer_jobs db) -> has_operation op r = true -> in_states live r = true.
Proof.
  intros Hwf H Hr Ho. unfold check_untracked_commit in H. peel H row Hrow. injection Hrow as <-.
  destruct (sql_first _) as [x|] eqn:Ex.
  - apply ensure_ok in H as [Hl _]. apply sql_first_where in Ex as [Hx Hox].
    apply sql_eq_true in Ho. apply sql_eq_true in Hox.
    by rewrite (operation_unique db r x op).
  - apply sql_first_none in Ex. rewrite sql_exists_false in Ex. rewrite Ex in Ho; done.
Qed.

Lemma complete_row_step db now r :
  in_states live r = true -> job_step db r (complete_row now r).
Proof.
  intros Hl. unfold in_states in Hl. split; unfold edge, in_states; simpl; auto; try done.
  destruct (tj_state r); simpl; auto; done.
Qed.

Lemma complete_job_sound now op transfer d db u d' :
  transfer_jobs d = transfer_jobs db -> transfers_wf db ->
  match transfer with None => check_untracked_commit op db = (Ok tt, db) | Some _ => True end ->
  complete_job now op transfer d = (Ok u, d') -> sound d d'.
Proof.
  intros Hj Hwf Hcheck H. destruct transfer as [[job lease]|]; simpl in H.
  - apply bind_ok in H as (n & d1 & Hu & H). apply ensure_ok in H as [_ ->].
    injection Hu as _ <-. apply sound_update_jobs. intros r _ Hr Hp. apply complete_row_step.
    unfold in_states in *. bool_hyps. by destruct (tj_state r).
  - apply bind_ok in H as (n & d1 & Hu & H). injection H as _ <-. injection Hu as _ <-.
    apply sound_update_jobs. intros r _ Hr Hp. apply complete_row_step.
    rewrite Hj in Hr. by eapply check_untracked_live.
Qed.

Lemma commit_manifest_inner_sound etag E op transfer published :
  steps sound (commit_manifest_inner etag E op transfer published).
Proof.
  intros db. destruct (commit_manifest_inner etag E op transfer published db) as [[m|e] db'] eqn:H; simpl.
  2: { apply transaction_err in H as ->. reflexivity. }
  apply commit_inner_inv in H as [(j & _ & _ & ->)|H]; [reflexivity|].
  destruct H as (j & s & man & cur & d1 & d2 & _ & _ & _ & _ & Hf & _ & _ & _ & _ & Hp & Hc & Hfin).
  apply (steps_same transfer_tables) in Hp; [|apply publish_version_transfers].
  apply (steps_same transfer_tables) in Hfin; [|apply finish_completion_transfers].
  intros Hwf. assert (transfer_jobs d1 = transfer_jobs db) as Hj by by injection Hp.
  assert (sound d1 d2) as Hs.
  { eapply complete_job_sound; [exact Hj|done| |exact Hc]. by destruct transfer as [[? ?]|]. }
  assert (sound db db') as Hall; [|by apply Hall].
  transitivity d1; [by apply sound_same|]. transitivity d2; [done|by apply sound_same].
Qed.

Lemma stage_manifest_sound E k m : steps sound (stage_manifest E k m).
Proof.
  apply steps_sound_same. unfold stage_manifest, ensure_recovery_marker, upsert_marker. frame_through.
Qed.

Lemma update_manifest_sound m : steps sound (update_manifest m).
Proof. apply steps_sound_same. unfold update_manifest. frame_through. Qed.

Lemma enqueue_manifest_cleanup_transfers now m :
  steps (same transfer_tables) (enqueue_manifest_cleanup now m).
Proof. apply enqueue_manifest_transfers. Qed.

Lemma delete_markers_transfers o : steps (same transfer_tables) (delete_markers_of o).
Proof. by apply steps_modify. Qed.

Lemma tombstone_journal_transfers o r n : steps (same transfer_tables) (tombstone_journal o r n).
Proof. by apply steps_modify. Qed.

Lemma lift_same {T} (p : Db -> T) {A} (r : Result A MetadataError) : steps (same p) (lift r).
Proof. by destruct r. Qed.

Lemma load_manifest_same {T} (p : Db -> T) o : steps (same p) (load_manifest_by_object_id o).
Proof. unfold load_manifest_by_object_id. step_through. Qed.
#[export] Hint Resolve enqueue_manifest_cleanup_transfers delete_markers_transfers
  tombstone_journal_transfers lift_same load_manifest_same : preserves.

Lemma tombstone_manifest_sound E o r c : steps sound (tombstone_manifest_with_conditionals E o r c).
Proof. apply steps_sound_same. unfold tombstone_manifest_with_conditionals. frame_through. Qed.

Lemma expire_object_transfers E o m : steps (same transfer_tables) (expire_object E o m).
Proof. unfold expire_object. frame_through. Qed.
#[export] Hint Resolve expire_object_transfers : preserves.

Lemma tombstone_expired_sound E now : steps sound (tombstone_expired_active_manifests E now).
Proof. apply steps_sound_same. unfold tombstone_expired_active_manifests. frame_through. Qed.

Lemma update_manifest_state_sound E o s : steps sound (update_manifest_state E o s).
Proof. apply steps_sound_same. unfold update_manifest_state, set_active. frame_through. Qed.

Lemma set_object_recovery_marker_sound E o b k d : steps sound (set_object_recovery_marker E o b k d).
Proof. apply steps_sound_same. by apply steps_modify. Qed.

Lemma rebuild_index_sound E : steps sound (rebuild_index_internal E).
Proof.
  apply steps_sound_same. unfold rebuild_index_internal, remark_staging, upsert_marker, set_active.
  frame_through.
Qed.

Lemma delete_active_key_in_transaction_sound E bkt k reason c :
  steps sound (delete_active_key_in_transaction E bkt k reason c).
Proof.
  unfold delete_active_key_in_transaction. step_through; try (apply steps_sound_same; frame_through; fail).
  apply update_jobs_sound. intros db r _ _ Hp. unfold key_job in Hp. job_step_cases.
Qed.
#[export] Hint Resolve delete_active_key_in_transaction_sound : preserves.

Lemma delete_active_key_sound E b k r c : steps sound (delete_active_key E b k r c).
Proof. unfold delete_active_key. step_through. Qed.

Lemma delete_empty_folder_sound E b f r : steps sound (delete_empty_folder E b f r).
Proof. unfold delete_empty_folder. step_through. Qed.

#[export] Hint Resolve commit_manifest_inner_sound stage_manifest_sound update_manifest_sound
  tombstone_manifest_sound tombstone_expired_sound update_manifest_state_sound
  set_object_recovery_marker_sound rebuild_index_sound delete_active_key_sound
  delete_empty_folder_sound : preserves.

(** ** Publication *)

(** The journal's JSON column is written once, when the operation is staged. *)
Definition details_staging (db : Db) : Prop :=
  forall op j, operation_journal db !! op = Some j ->
    jd_state (oj_details j) = JournalState.Staging /\ jd_operation_id (oj_details j) = op.

Lemma validate_state m s : validate (m <| commit_state := s |>) = validate m.
Proof. reflexivity. Qed.

Lemma load_manifest_ok o db m :
  load_manifest_by_object_id o db = (Ok (Some m), db) <->
  exists r, object_manifests db !! o = Some r /\ om_manifest r = m /\ validate m = Ok tt.
Proof.
  unfold load_manifest_by_object_id, mbind, M_bind, query.
  destruct (object_manifests db !! o) as [r|]; [|split; [done|intros (? & ? & _); done]].
  destruct (validate (om_manifest r)) as [[]|e] eqn:Ev; split.
  - intros [= <-]. eauto.
  - intros (r' & [= <-] & <- & _). done.
  - done.
  - intros (r' & [= <-] & <- & H). congruence.
Qed.

Lemma load_journal_ok op db j :
  load_journal_entry op db = (Ok (Some j), db) <->
  exists row, operation_journal db !! op = Some row /\ oj_details row = j.
Proof.
  unfold load_journal_entry, query. destruct (operation_journal db !! op) as [row|]; simpl; split.
  - intros [= <-]. eauto.
  - intros (x & [= <-] & <-). done.
  - done.
  - by intros (x & ? & _).
Qed.

Lemma published_manifest_some journal staged p db man :
  published_manifest journal staged (Some p) db = (Ok man, db) ->
  man = p /\ validate p = Ok tt /\ object_id p = jd_object_id journal /\
  bucket p = jd_bucket journal /\ key p = jd_object_key journal.
Proof.
  unfold published_manifest. destruct (validate p) as [[]|e]; [|done]. intros H.
  apply bind_ok in H as (u & d & He & H). apply ensure_ok in He as [He ->]. injection H as <-.
  bool_hyps. done.
Qed.

Lemma check_fence_ok now op job lease db :
  check_publication_fence now op job lease db = (Ok tt, db) ->
  exists r, find_job job db = Some r /\ tj_state r = JobState.Committing /\
    tj_lease r = Some lease /\ now <= tj_lease_until r /\ tj_operation_id r = Some op /\
    older_pending db r = false /\ newer_published db r = false.
Proof.
  unfold check_publication_fence. intros H. peel H row Hrow. injection Hrow as <-.
  destruct (find_job job db) as [r|]; [|done]. exists r.
  peel H u Hu. apply ensure_ok in Hu as [Hu _]. bool_hyps.
  peel H older Ho. injection Ho as <-. peel H newer Hn. injection Hn as <-.
  apply ensure_ok in H as [Hon _]. bool_hyps. done.
Qed.

(** What the statements of [publish_version] leave behind. *)
Lemma publish_version_effect op ts j m db u d :
  publish_version op ts j m db = (Ok u, d) ->
  object_manifests d = alter (fun r =>
      r <| om_commit_state := CommitState.Committed |> <| om_manifest := m |>
        <| om_committed_at := Some ts |> <| om_tombstoned_at := None |>)
      (object_id m) (object_manifests db) /\
  active_objects d = <[(bucket m, key m) := {| ao_object_id := object_id m; ao_updated_at := ts |}]>
                       (active_objects db) /\
  recovery_markers d = delete (staging_marker (jd_operation_id j)) (recovery_markers db) /\
  operation_journal d = alter (fun x =>
      x <| oj_state := JournalState.Committed |> <| oj_updated_at := ts |>) op (operation_journal db) /\
  app_settings d = app_settings db.
Proof.
  unfold publish_version. intros H. apply bind_ok in H as (u1 & d1 & H1 & H). injection H1 as _ <-.
  apply bind_ok in H as (u2 & d2 & H2 & H). unfold set_active in H2.
  peel H2 par Hpar. peel H2 u3 Hen. injection H2 as _ <-.
  apply bind_ok in H as (u4 & d4 & H4 & H). injection H4 as _ <-. injection H as _ <-. done.
Qed.

Lemma find_job_spec job db r : find_job job db = Some r -> In r (transfer_jobs db) /\ tj_id r = job.
Proof. unfold find_job. intros H. apply sql_first_where in H as [? Hp]. unfold has_id in Hp. by bool_hyps. Qed.

(** Among distinct rows the fence's predicate selects the row it found. *)
Lemma complete_job_effect now op job lease d r db' :
  transfers_wf d -> In r (transfer_jobs d) -> tj_id r = job ->
  complete_job now op (Some (job, lease)) d = (Ok tt, db') ->
  transfer_jobs db' = sql_update (has_id job) (complete_row now) (transfer_jobs d).
Proof.
  intros Hwf Hr Hid H. simpl in H. apply bind_ok in H as (n & d1 & Hu & H).
  apply ensure_ok in H as [Hn ->]. unfold update_jobs, execute in Hu. injection Hu as <- <-. simpl.
  set (p := fun x => has_id job x && sql_eq (tj_lease x) lease && in_states [JobState.Committing] x) in *.
  assert (sql_exists p (transfer_jobs d) = true) as Hex.
  { destruct (sql_exists p (transfer_jobs d)) eqn:Ex; [done|]. apply sql_count_zero in Ex.
    apply Z.eqb_eq in Hn. unfold p in *. lia. }
  apply sql_exists_true in Hex as (x & Hx & Hp).
  assert (tj_id x = job) as Hxid by (unfold p, has_id in Hp; by bool_hyps).
  assert (x = r) as -> by (apply (job_unique d); congruence).
  unfold sql_update. apply map_ext_in. intros y Hy. destruct (has_id job y) eqn:Ey.
  - unfold has_id in Ey. bool_hyps. assert (y = r) as -> by (apply (job_unique d); congruence).
    by rewrite Hp.
  - unfold p. by rewrite Ey.
Qed.

(** C38: a worker's commit publishes exactly what it checked.  When
    [commit_transfer_manifest] succeeds, the job held the publication fence,
    every older job of the key was settled and no newer one published; the key
    then resolves to the published manifest and every other key to what it
    resolved to before; the job (and no other) is completed; the staging marker
    is gone and the journal entry is committed. *)
Theorem commit_transfer_publishes (etag_from_str : string -> option ETagCondition) (E : Env)
    (op : Uuid) (job lease : string) (published m : ObjectManifest) (db db' : Db)
    (Hwf : transfers_wf db) (Hdetails : details_staging db)
    (H : commit_transfer_manifest etag_from_str E op job lease published db = (Ok m, db')) :
  m = published <| commit_state := CommitState.Committed |> /\
  (exists r, In r (transfer_jobs db) /\ tj_id r = job /\ tj_state r = JobState.Committing /\
     tj_lease r = Some lease /\ tj_operation_id r = Some op /\
     older_pending db r = false /\ newer_published db r = false) /\
  load_manifest_by_object_id (object_id m) db' = (Ok (Some m), db') /\
  active_objects db' = <[(bucket m, key m) :=
      {| ao_object_id := object_id m; ao_updated_at := timestamp_at E 0 |}]> (active_objects db) /\
  transfer_jobs db' = sql_update (has_id job) (complete_row (now_at E 1)) (transfer_jobs db) /\
  recovery_markers db' !! staging_marker op = None /\
  (forall j, operation_journal db' !! op = Some j -> oj_state j = JournalState.Committed).
Proof.
  apply commit_inner_inv in H as [(j & Hj & Hst & _)|H].
  { apply load_journal_ok in Hj as (row & Hrow & <-).
    destruct (Hdetails op row Hrow) as [Hd _]. congruence. }
  destruct H as (j & s & man & cur & d1 & d2 & -> & Hj & Hs & Hpub & Hf & _ & _ & _ & _ & Hp & Hc & Hfin).
  apply published_manifest_some in Hpub as (-> & Hv & Hoid & _).
  apply check_fence_ok in Hf as (r & Hr & Hst & Hl & _ & Hop & Hold & Hnew).
  apply find_job_spec in Hr as [Hr Hid].
  pose proof (steps_same transfer_tables _ _ _ _ (publish_version_transfers _ _ _ _) Hp) as T1.
  pose proof (steps_same store_tables _ _ _ _ (complete_job_store _ _ _) Hc) as S2.
  pose proof (steps_same store_tables _ _ _ _ (finish_completion_store _ _ _) Hfin) as S3.
  pose proof (steps_same transfer_tables _ _ _ _ (finish_completion_transfers _ _ _) Hfin) as T3.
  apply publish_version_effect in Hp as (Om & Ac & Rm & Jo & _).
  injection S2 as Om2 Ac2 Jo2 Rm2 _. injection S3 as Om3 Ac3 Jo3 Rm3 _.
  apply load_journal_ok in Hj as (jrow & Hjrow & <-). destruct (Hdetails op jrow Hjrow) as [_ Hjop].
  injection T1 as Tj Ts Ta. injection T3 as Tj3 _ _.
  assert (transfers_wf d1) as Hwf1 by (by apply (sound_frame db d1)).
  split_and!; [done|exists r; split_and!; done| | | | |].
  - apply load_manifest_ok in Hs as (row & Hrow & _). apply load_manifest_ok.
    rewrite Om3, Om2, Om. simpl. rewrite Hoid, lookup_alter, decide_True by done. rewrite Hrow.
    eexists. split; [done|]. by rewrite validate_state.
  - by rewrite Ac3, Ac2, Ac.
  - rewrite Tj3, <- Tj. rewrite <- Tj in Hr. by eapply complete_job_effect.
  - rewrite Rm3, Rm2, Rm, Hjop. apply lookup_delete_eq.
  - intros x Hx. rewrite Jo3, Jo2, Jo in Hx. rewrite lookup_alter, decide_True in Hx by done.
    destruct (operation_journal db !! op); simplify_eq/=. done.
Qed.

(** The version a conditional request is checked against. *)
Definition current_version (db : Db) (bkt k : string) : option ObjectManifest :=
  match active_objects db !! (bkt, k) with
  | Some a => om_manifest <$> object_manifests db !! ao_object_id a
  | None => None
  end.

Lemma load_current_ok b k db c : load_current b k db = (Ok c, db) -> c = current_version db b k.
Proof.
  unfold load_current, current_version. intros H. peel H row Hrow. injection Hrow as <-.
  destruct (active_objects db !! (b, k)) as [a|]; [|by injection H].
  unfold load_manifest_by_object_id in H. peel H row Hrow. injection Hrow as <-.
  destruct (object_manifests db !! ao_object_id a) as [r|]; simpl; [|by injection H].
  destruct (validate (om_manifest r)); [|done]. by injection H.
Qed.

Lemma write_conditionals_ok etag c cur :
  enforce_write_conditionals_snapshot etag c cur = Ok tt ->
  (forall raw, if_match c = Some raw ->
     exists m cond, cur = Some m /\ etag raw = Some cond /\
       etag_condition_matches cond (whole_object (m_checksum m)) = true) /\
  (forall raw, if_match c = None -> if_none_match c = Some raw ->
     cur = None \/ exists m cond, cur = Some m /\ etag raw = Some cond /\
       etag_condition_matches cond (whole_object (m_checksum m)) = false).
Proof.
  unfold enforce_write_conditionals_snapshot. intros H.
  destruct cur as [m|]; destruct (if_match c) as [raw1|] eqn:E1; simpl in H; try done.
  - destruct (etag raw1) as [cond|] eqn:Ec; [|done].
    destruct (etag_condition_matches cond _) eqn:Em; [|done].
    split; intros raw Hraw; simplify_eq. eauto.
  - split; [done|]. intros raw _ Hn. rewrite Hn in H. destruct (etag raw) as [cond|] eqn:Ec; [|done].
    destruct (etag_condition_matches cond _) eqn:Em; [done|]. right. eauto.
  - split; [done|]. by left.
Qed.

(** conditional writes are checked at the moment of publication.  When a
    worker's commit succeeds and its job carries conditions, an [If-Match] held
    of the version the key resolved to just before, and an [If-None-Match]
    (without [If-Match]) did not hold of it or the key had no version. *)
Theorem commit_respects_preconditions (etag_from_str : string -> option ETagCondition) (E : Env)
    (op : Uuid) (job lease : string) (published m : ObjectManifest) (db db' : Db) (r : TransferRow)
    (c : TransferWriteConditionals) (Hwf : transfers_wf db) (Hdetails : details_staging db)
    (Hr : In r (transfer_jobs db)) (Hid : tj_id r = job) (Hc : tj_write_conditionals r = Some c)
    (H : commit_transfer_manifest etag_from_str E op job lease published db = (Ok m, db')) :
  let current := current_version db (bucket m) (key m) in
  (forall raw, if_match c = Some raw ->
     exists v cond, current = Some v /\ etag_from_str raw = Some cond /\
       etag_condition_matches cond (whole_object (m_checksum v)) = true) /\
  (forall raw, if_match c = None -> if_none_match c = Some raw ->
     current = None \/ exists v cond, current = Some v /\ etag_from_str raw = Some cond /\
       etag_condition_matches cond (whole_object (m_checksum v)) = false).
Proof.
  apply commit_inner_inv in H as [(j & Hj & Hst & _)|H].
  { apply load_journal_ok in Hj as (row & Hrow & <-).
    destruct (Hdetails op row Hrow) as [Hd _]. congruence. }
  destruct H as (j & s & man & cur & d1 & d2 & -> & _ & _ & Hpub & _ & Hcur & Hw & _).
  apply published_manifest_some in Hpub as (-> & _ & _ & Hb & Hk).
  apply load_current_ok in Hcur as ->. simpl. rewrite Hb, Hk.
  apply write_conditionals_ok.
  unfold check_write_conditionals in Hw. peel Hw row Hrow. injection Hrow as <-.
  rewrite <- Hid, (find_job_unique db r) in Hw by done. peel Hw row Hrow. injection Hrow as <-.
  rewrite Hc in Hw. destruct (enforce_write_conditionals_snapshot _ _ _) as [[]|]; done.
Qed.

(** a commit never takes an account over its quota: when a worker's commit
    of a whole object succeeds and the owning account has a quota, the bytes
    the account uses plus the growth of the key are within the quota. *)
Theorem commit_within_quota (etag_from_str : string -> option ETagCondition) (E : Env)
    (op : Uuid) (job lease : string) (published m : ObjectManifest) (db db' : Db)
    (row : ManifestRow) (account : AccountRow) (quota : Z)
    (Hdetails : details_staging db) (Hpart : is_multipart_part job db = false)
    (Hrow : object_manifests db !! object_id m = Some row)
    (Haccount : telegram_accounts db !! om_connection_id row = Some account)
    (Hquota : ta_quota_bytes account = Some quota) (Hrange : 0 <= quota < U64_MAX)
    (H : commit_transfer_manifest etag_from_str E op job lease published db = (Ok m, db')) :
  let owner := om_connection_id row in
  Z.max (used_bytes db owner) 0
    + Z.max (content_length m - current_length db (bucket m) (key m) owner) 0 <= quota.
Proof.
  apply commit_inner_inv in H as [(j & Hj & Hst & _)|H].
  { apply load_journal_ok in Hj as (jr & Hjr & <-).
    destruct (Hdetails op jr Hjr) as [Hd _]. congruence. }
  destruct H as (j & s & man & cur & d1 & d2 & -> & _ & _ & Hpub & _ & _ & _ & Hq & _).
  apply published_manifest_some in Hpub as (-> & _ & Hoid & _). simpl in *. rewrite Hoid in Hrow.
  unfold check_quota in Hq. peel Hq part Hp. injection Hp as <-. rewrite Hpart in Hq.
  peel Hq r0 Hr0. injection Hr0 as <-. rewrite Hrow in Hq. peel Hq r1 Hr1. injection Hr1 as <-.
  unfold enforce_account_quota_in_transaction in Hq. peel Hq acc Hacc. injection Hacc as <-.
  rewrite Haccount in Hq. peel Hq used Hu. injection Hu as <-. peel Hq now Hn. injection Hn as <-.
  rewrite Hquota in Hq. unfold enforce_quota in Hq. simpl in Hq.
  destruct (Z.ltb_spec (Z.max 0 quota) (u64_saturating_add (Z.max (used_bytes db (om_connection_id row)) 0)
    (u64_saturating_sub (content_length published)
       (current_length db (bucket published) (key published) (om_connection_id row))))) as [|Hle]; [done|].
  unfold u64_saturating_add, u64_saturating_sub in Hle. lia.
Qed.

(** ** Deletion *)

(** The settling statement of a delete. *)
Lemma cancelled_by_delete b k now db :
  sql_exists (fun r => key_job b k r && in_states live r) (transfer_jobs db) = false ->
  forall r, In r (sql_update (fun r => key_job b k r && in_states [JobState.Receiving; JobState.Queued;
                 JobState.RetryWait; JobState.RecoveryRequired] r)
    (fun r => r <| tj_state := JobState.Cancelled |> <| tj_lease := None |> <| tj_lease_until := 0 |>
                <| tj_error := Some "Superseded by deletion" |> <| tj_updated_at := now |>)
    (transfer_jobs db)) ->
  key_job b k r = true -> in_states settled r = true.
Proof.
  intros Hb r Hr Hk. rewrite sql_exists_false in Hb. apply In_sql_update in Hr as (x & Hx & ->).
  specialize (Hb x Hx). destruct (key_job b k x) eqn:Ekx; simpl in *; [|by rewrite Ekx in Hk].
  unfold in_states in *. destruct (tj_state x) eqn:Est; simpl in *; rewrite ?Est; done.
Qed.

(** What the tail of a delete leaves behind. *)
Lemma delete_tail_effect E b k obj reason m a db res db' :
  active_objects db !! (b, k) = Some a -> ao_object_id a = obj ->
  (enqueue_manifest_cleanup (now_at E 1) m ;;
   modify (fun db => db <| object_manifests ::= alter (fun r =>
     r <| om_commit_state := CommitState.Tombstoned |> <| om_manifest := m |>
       <| om_tombstoned_at := Some (timestamp_at E 0) |>) obj |>) ;;
   modify (fun db => db <| active_objects ::= filter (fun '(key, a) =>
     ~ (key = (b, k) /\ ao_object_id a = obj)) |>) ;;
   delete_markers_of obj ;;
   tombstone_journal obj reason (timestamp_at E 0) ;;
   mret (Some m)) db = (Ok res, db') ->
  res = Some m /\ transfer_jobs db' = transfer_jobs db /\
  manifest_covered m (cleanup_targets db') /\
  active_objects db' = delete (b, k) (active_objects db).
Proof.
  intros Ha Hobj H. apply bind_ok in H as (u & d & He & H).
  destruct (enqueue_manifest_cleanup_at_covered m (now_at E 1) db) as (d0 & Hd0 & _ & Hcov).
  assert (d0 = d) as -> by (unfold enqueue_manifest_cleanup in He; congruence).
  pose proof (steps_same transfer_tables _ _ _ _ (enqueue_manifest_transfers _ _) He) as Ht.
  pose proof (steps_same store_tables _ _ _ _ (enqueue_manifest_store _ _) He) as Hs.
  injection Ht as Ht _ _. injection Hs as _ Hact _ _ _.
  unfold mbind, M_bind, modify, delete_markers_of, tombstone_journal, mret, M_ret in H. simpl in H.
  injection H as <- <-. simpl. split_and!; [done|done|done|]. rewrite Hact.
  apply map_eq. intros key. rewrite map_lookup_filter, lookup_delete.
  case_decide as Hkey.
  - subst key. rewrite Ha. simpl. rewrite option_guard_False; [done|]. intros Hn. apply Hn. done.
  - destruct (active_objects db !! key) as [x|]; simpl; [|done].
    rewrite option_guard_True; [done|]. intros [-> _]. done.
Qed.

(** What a delete does. *)
Lemma delete_active_key_effect (E : Env) (b k reason : string) (c : DeleteConditionals) (db : Db) :
  match delete_active_key E b k reason c db with
  | (Err _, db') => db' = db
  | (Ok res, db') =>
      active_objects db' = delete (b, k) (active_objects db) /\
      get_active_manifest b k db' = (Ok None, db') /\
      (forall r, In r (transfer_jobs db') -> key_job b k r = true -> in_states settled r = true) /\
      match res with
      | None => active_objects db !! (b, k) = None
      | Some m => commit_state m = CommitState.Tombstoned /\ manifest_covered m (cleanup_targets db') /\
          exists v, current_version db b k = Some v /\
            m = v <| commit_state := CommitState.Tombstoned |> /\
            enforce_delete_conditionals_snapshot c v = Ok tt
      end
  end.
Proof.
  destruct (delete_active_key E b k reason c db) as [[res|e] db'] eqn:H; [|by apply transaction_err in H].
  unfold delete_active_key in H. rewrite transaction_ok in H. unfold delete_active_key_in_transaction in H.
  peel H busy Hb. injection Hb as <-. peel H u1 Hu1. apply ensure_ok in Hu1 as [Hbusy _].
  apply negb_true_iff in Hbusy.
  apply bind_ok in H as (n & d & Hu & H). pose proof (f_equal snd Hu) as Hd. simpl in Hd. clear Hu.
  pose proof (cancelled_by_delete b k (now_at E 0) db Hbusy) as Hset.
  assert (transfer_jobs d = _) as Hdj by (by rewrite <- Hd). cbn in Hdj. rewrite <- Hdj in Hset.
  assert (active_objects d = active_objects db /\ object_manifests d = object_manifests db) as [Hda Hdm]
    by (by rewrite <- Hd).
  peel H act Hact. injection Hact as <-.
  assert (forall x, active_objects x !! (b, k) = None -> get_active_manifest b k x = (Ok None, x)) as Hnone.
  { intros x Hx. unfold get_active_manifest, mbind, M_bind, query. by rewrite Hx. }
  destruct (active_objects d !! (b, k)) as [a|] eqn:Ea.
  - peel H om Hom. peel H m0 Hm0. apply some_or_ok in Hm0 as [-> _].
    peel H u2 Hcond. apply (delete_tail_effect E b k (ao_object_id a) reason _ a) in H as (-> & Ht & Hcov & Hao); [|done|done].
    rewrite Ht. rewrite Hda in Hao. split_and!; try done.
    + apply Hnone. rewrite Hao. apply lookup_delete_eq.
    + exists m0. apply load_manifest_ok in Hom as (row & Hrow & <- & _).
      split_and!; [|done|].
      * unfold current_version. rewrite <- Hda, Ea, <- Hdm, Hrow. done.
      * destruct (enforce_delete_conditionals_snapshot c _) as [[]|]; [done|by inversion Hcond].
  - injection H as <- <-. split_and!; try done.
    + rewrite Hda in *. by rewrite delete_id.
    + by apply Hnone.
    + by rewrite <- Hda.
Qed.

(** a delete takes effect at once and completely.  When [delete_active_key]
    succeeds, the key no longer resolves and every other key resolves as
    before; every upload of the key that was still pending is settled, so none
    can bring the key back; and if a version was deleted, its preconditions
    held and every Telegram message it names is queued for cleanup behind its
    deletion evidence.  A failed delete changes nothing. *)
Theorem delete_active_key_hides (E : Env) (b k reason : string) (c : DeleteConditionals) (db : Db) :
  match delete_active_key E b k reason c db with
  | (Err _, db') => db' = db
  | (Ok res, db') =>
      active_objects db' = delete (b, k) (active_objects db) /\
      get_active_manifest b k db' = (Ok None, db') /\
      (forall r, In r (transfer_jobs db') -> key_job b k r = true -> in_states settled r = true) /\
      match res with
      | None => active_objects db !! (b, k) = None
      | Some m => commit_state m = CommitState.Tombstoned /\ manifest_covered m (cleanup_targets db') /\
          exists v, current_version db b k = Some v /\
            m = v <| commit_state := CommitState.Tombstoned |> /\
            enforce_delete_conditionals_snapshot c v = Ok tt
      end
  end.
Proof. exact (delete_active_key_effect E b k reason c db). Qed.

(** ** Expiry *)

(** The sweep only drops active rows and only rewrites the rows of [ids]. *)
Record swept (ids : list string) (db db' : Db) : Prop := {
  sp_settings : app_settings db' = app_settings db;
  sp_active : active_objects db' ⊆ active_objects db;
  sp_manifests : forall o, ~ In o ids -> object_manifests db' !! o = object_manifests db !! o;
  sp_kept : forall key a, active_objects db !! key = Some a -> ~ In (ao_object_id a) ids ->
    active_objects db' !! key = Some a
}.

#[local] Instance swept_preorder ids : PreOrder (swept ids).
Proof.
  split; [intros db; by split|]. intros d1 d2 d3 [A1 B1 C1 D1] [A2 B2 C2 D2]. split.
  - congruence.
  - by etrans.
  - intros o Ho. rewrite C2 by done. by apply C1.
  - intros key a Ha Hn. apply D2; [|done]. by apply D1.
Qed.

Lemma swept_store ids db db' : same store_tables db db' -> swept ids db db'.
Proof. intros [= Hm Ha _ _ Hs]. split; rewrite ?Hm, ?Ha, ?Hs; done. Qed.

Lemma expire_object_swept ids E o m : In o ids -> steps (swept ids) (expire_object E o m).
Proof.
  intros Hin. unfold expire_object.
  apply (steps_bind _); [intros db; apply swept_store; apply enqueue_manifest_store|intros _].
  apply (steps_bind _).
  { apply steps_modify. intros db. split; simpl; try done. intros x Hx.
    rewrite lookup_alter_ne; [done|]. intros ->. done. }
  intros _. apply (steps_bind _).
  { apply steps_modify. intros db. split; simpl; try done.
    - apply map_filter_subseteq.
    - intros key a Ha Hn. apply map_lookup_filter_Some. split; [done|]. intros <-. done. }
  intros _. step_through; apply steps_modify; intros db; by split.
Qed.

Lemma expire_object_gone E o m db u db' :
  expire_object E o m db = (Ok u, db') ->
  forall key a, active_objects db' !! key = Some a -> ao_object_id a <> o.
Proof.
  unfold expire_object. intros H key a Ha. apply bind_ok in H as (u1 & d1 & _ & H).
  unfold mbind, M_bind, modify, delete_markers_of, tombstone_journal in H. simpl in H.
  injection H as _ <-. simpl in Ha. by apply map_lookup_filter_Some in Ha as [_ ?].
Qed.

Lemma expire_object_total E o m db : exists d, expire_object E o m db = (Ok tt, d).
Proof.
  unfold expire_object. unfold mbind at 1, M_bind at 1.
  destruct (enqueue_manifest_cleanup_at_covered (m <| commit_state := CommitState.Tombstoned |>)
              (now_at E 0) db) as (d & Hd & _).
  unfold enqueue_manifest_cleanup. rewrite Hd. eexists. reflexivity.
Qed.

(** The loop over the expired objects [l] always succeeds, drops each of them
    from the index and touches nothing else. *)
Lemma expire_loop E (l : list (string * ObjectManifest)) db :
  exists db', for_each (fun '(i, (obj, m)) => expire_object (under i E) obj m) (imap pair l) db
              = (Ok tt, db') /\
    swept (map fst l) db db' /\
    (forall key a, active_objects db' !! key = Some a -> ~ In (ao_object_id a) (map fst l)).
Proof.
  set (f := fun '(i, (obj, m)) => expire_object (under i E) obj m).
  destruct (for_each_total f (imap pair l) db) as [db' Hrun].
  { intros [i [o m]] d _. apply expire_object_total. }
  exists db'. split; [assumption|]. split.
  - assert (steps (swept (map fst l)) (for_each f (imap pair l))) as Hs.
    { apply (steps_for_each _). intros [i [o m]] Hx. apply expire_object_swept.
      apply list_elem_of_In, elem_of_lookup_imap in Hx as (n & y & [= <- <-] & Hl).
      apply in_map_iff. exists (o, m). split; [done|]. by eapply list_elem_of_In, list_elem_of_lookup_2. }
    specialize (Hs db). by rewrite Hrun in Hs.
  - intros key a Ha Hin. apply in_map_iff in Hin as ([o m] & Ho & Hin).
    apply list_elem_of_In, list_elem_of_lookup in Hin as [i Hi].
    refine (for_each_establishes (fun '(_, (o, _)) db => forall key a,
      active_objects db !! key = Some a -> ao_object_id a <> o) f _ db tt db' _ _ Hrun (i, (o, m)) _
      key a Ha (eq_sym Ho)).
    + intros [j [o' m']] d u d' _ Hd. by eapply expire_object_gone.
    + intros [j [o1 m1]] [j2 [o2 m2]] _ _ d Hd k' a' Ha'.
      pose proof (expire_object_swept [o2] (under j2 E) o2 m2 (or_introl eq_refl) d) as [_ Hsub _ _].
      apply (Hd k'). by eapply lookup_weaken.
    + apply list_elem_of_In, elem_of_lookup_imap. eauto.
Qed.

Lemma In_expiry_candidates db o m :
  In (o, m) (expiry_candidates db) <->
  exists key a, active_objects db !! key = Some a /\ ao_object_id a = o /\
    active_manifest_of db (active_connection_id db) a = Some m.
Proof.
  unfold expiry_candidates. rewrite <- list_elem_of_In, list_elem_of_omap. split.
  - intros ([key a] & Hin & Heq). apply elem_of_map_to_list in Hin.
    destruct (active_manifest_of db (active_connection_id db) a) as [m'|] eqn:Em; [|done].
    simplify_eq/=. eauto.
  - intros (key & a & Ha & <- & Hm). exists (key, a). split; [by apply elem_of_map_to_list|].
    cbn. by rewrite Hm.
Qed.

(** an expiry sweep is complete and touches nothing else: it always
    succeeds, afterwards no committed active object of the connection is
    expired at the sweep's instant, and every active object that is not one of
    the expired ones is still active. *)
Theorem expiry_sweep_complete (E : Env) (now : OffsetDateTime) (db : Db) :
  exists n db', tombstone_expired_active_manifests E now db = (Ok n, db') /\
    (forall key a m, active_objects db' !! key = Some a ->
       active_manifest_of db' (active_connection_id db') a = Some m -> is_expired m now = false) /\
    (forall key a, active_objects db !! key = Some a ->
       (forall key' a' m, active_objects db !! key' = Some a' -> ao_object_id a' = ao_object_id a ->
          active_manifest_of db (active_connection_id db) a' = Some m -> is_expired m now = false) ->
       active_objects db' !! key = Some a).
Proof.
  set (expired := List.filter (fun '(_, m) => is_expired m now) (expiry_candidates db)).
  destruct (expire_loop E expired db) as (db' & Hrun & Hsw & Hgone).
  exists (Z.of_nat (length expired)), db'. split; [|split].
  - unfold tombstone_expired_active_manifests, transaction, mbind at 1, M_bind at 1, query at 1.
    fold expired. unfold mbind, M_bind. by rewrite Hrun.
  - intros key a m Ha Hm. destruct (is_expired m now) eqn:Ex; [exfalso|done].
    pose proof (Hgone key a Ha) as Hnot. destruct Hsw as [Hset Hsub Hman _].
    apply Hnot, in_map_iff. exists (ao_object_id a, m). split; [done|].
    apply filter_In. split; [|done]. apply In_expiry_candidates. exists key, a.
    split; [by eapply lookup_weaken|]. split; [done|].
    unfold active_manifest_of, active_connection_id in *. by rewrite <- Hman, <- Hset.
  - intros key a Ha Hne. apply Hsw; [done|]. intros Hin.
    apply in_map_iff in Hin as ([o m] & Ho & Hin). cbn in Ho. apply filter_In in Hin as [Hin Hex].
    apply In_expiry_candidates in Hin as (key' & a' & Ha' & Ho' & Hm).
    rewrite (Hne key' a' m) in Hex; [done|assumption|congruence|assumption].
Qed.

(** ** The journal's details are written once *)

Lemma details_same {A} (m : M A) : steps (same operation_journal) m -> preserves details_staging m.
Proof. intros Hs db H op j. rewrite (Hs db). apply H. Qed.

Lemma details_alter (f : JournalRow -> JournalRow) :
  (forall j, oj_details (f j) = oj_details j) -> forall (t : gmap string JournalRow) k,
  (forall op j, t !! op = Some j -> jd_state (oj_details j) = JournalState.Staging /\
                                    jd_operation_id (oj_details j) = op) ->
  forall op j, alter f k t !! op = Some j -> jd_state (oj_details j) = JournalState.Staging /\
                                             jd_operation_id (oj_details j) = op.
Proof.
  intros Hf t k H op j Hj. rewrite lookup_alter in Hj. case_decide; [|by apply H].
  apply fmap_Some in Hj as (j0 & E0 & ->). rewrite !Hf. subst. by apply H.
Qed.

Lemma tombstone_journal_details o r n : preserves details_staging (tombstone_journal o r n).
Proof.
  apply preserves_modify. intros db H op j Hj. simpl in Hj. rewrite lookup_fmap in Hj.
  destruct (operation_journal db !! op) as [j0|] eqn:E0; simplify_eq/=.
  destruct (bool_decide _); by apply (H op j0).
Qed.

Lemma upsert_marker_details k o b key s d n : preserves details_staging (upsert_marker k o b key s d n).
Proof. apply details_same. by apply steps_modify. Qed.

Lemma insert_or_ignore_details o c q n k due :
  preserves details_staging (insert_or_ignore_target o c q n k due).
Proof. apply details_same. by apply insert_or_ignore_frame. Qed.

Lemma discard_staged_details id : preserves details_staging (discard_staged id).
Proof.
  apply preserves_modify. intros db H op j Hj. simpl in Hj.
  apply map_lookup_filter_Some in Hj as [Hj _]. by apply H.
Qed.
#[export] Hint Resolve tombstone_journal_details upsert_marker_details insert_or_ignore_details
  discard_staged_details : preserves.

Lemma enqueue_manifest_details m due : preserves details_staging (enqueue_manifest_cleanup_at m due).
Proof. unfold enqueue_manifest_cleanup_at. preserve. Qed.

Lemma enqueue_part_details E p r : preserves details_staging (enqueue_part_cleanup_preserving E p r).
Proof. unfold enqueue_part_cleanup_preserving, cleanup_retention_secs. preserve. Qed.
#[export] Hint Resolve enqueue_manifest_details enqueue_part_details : preserves.

Lemma load_manifest_details o : preserves details_staging (load_manifest_by_object_id o).
Proof. apply details_same, load_manifest_same. Qed.

Lemma lift_details {A} (r : Result A MetadataError) : preserves details_staging (lift r).
Proof. by destruct r; intros db. Qed.
#[export] Hint Resolve load_manifest_details lift_details : preserves.

(** A read-only step keeps every invariant. *)
Lemma preserves_reads P {A} (m : M A) : steps eq m -> preserves P m.
Proof. intros H db HP. by rewrite <- (H db). Qed.

Ltac keep_details :=
  preserve;
  repeat first
    [ solve [apply preserves_reads; auto with preserves]
    | apply details_same; first [apply steps_modify | apply steps_execute]; intros ?; reflexivity ].

Lemma stage_manifest_details E k m : preserves details_staging (stage_manifest E k m).
Proof.
  unfold stage_manifest, ensure_recovery_marker. keep_details.
  apply preserves_modify. intros db H op j Hj. simpl in Hj. rewrite lookup_insert in Hj.
  case_decide as He; [|by apply H]. by simplify_eq/=.
Qed.

Lemma publish_version_details op ts j m : preserves details_staging (publish_version op ts j m).
Proof.
  unfold publish_version, set_active. keep_details.
  apply preserves_modify. intros db H o x Hx. simpl in Hx.
  refine (details_alter _ _ (operation_journal db) op H o x Hx). done.
Qed.
#[export] Hint Resolve stage_manifest_details publish_version_details : preserves.

Lemma commit_manifest_details etag E op t p : preserves details_staging (commit_manifest_inner etag E op t p).
Proof.
  unfold commit_manifest_inner, complete_job, finish_completion, close_session. keep_details.
Qed.

Lemma tombstone_manifest_details E o r c :
  preserves details_staging (tombstone_manifest_with_conditionals E o r c).
Proof. unfold tombstone_manifest_with_conditionals, enqueue_manifest_cleanup, delete_markers_of. keep_details. Qed.

Lemma tombstone_expired_details E now : preserves details_staging (tombstone_expired_active_manifests E now).
Proof.
  unfold tombstone_expired_active_manifests, expire_object, enqueue_manifest_cleanup, delete_markers_of.
  keep_details.
Qed.

Lemma update_manifest_details m : preserves details_staging (update_manifest m).
Proof. unfold update_manifest. keep_details. Qed.

Lemma update_manifest_state_details E o s : preserves details_staging (update_manifest_state E o s).
Proof. unfold update_manifest_state, set_active. keep_details. Qed.

Lemma delete_key_details E b k r c : preserves details_staging (delete_active_key_in_transaction E b k r c).
Proof. unfold delete_active_key_in_transaction, enqueue_manifest_cleanup, delete_markers_of. keep_details. Qed.

Lemma rebuild_index_details E : preserves details_staging (rebuild_index_internal E).
Proof. unfold rebuild_index_internal, remark_staging, set_active. keep_details. Qed.

#[export] Hint Resolve commit_manifest_details tombstone_manifest_details tombstone_expired_details
  update_manifest_details update_manifest_state_details delete_key_details rebuild_index_details : preserves.

Lemma details_staging_empty : details_staging empty_db.
Proof. by intros op j Hj. Qed.
