(* ===== verification/IndexSafety.v ===== *)
(** * Rebuilding and verifying the index ([src/src/metadata/recovery.rs])

    The index of active objects is derived data: a rebuild recomputes it from
    the committed manifests.  A rebuilt index verifies without mismatches, and
    it resolves each key to the committed version that is last in the order the
    code uses.  That order and the fact that overwritten versions stay
    committed have consequences, recorded at the end: a deleted key can come
    back, and the textual order of the timestamps is not their order in time. *)

From S2P Require Import Prelude Errors Manifest Schema Cleanup Transfers TransferSafety.
From S2P Require Import ManifestStore ManifestSafety.

(** ** The order of versions *)

Lemma committed_at_le_total a b : committed_at_le a b = true \/ committed_at_le b a = true.
Proof. destruct a, b; simpl; auto. apply text_le_total. Qed.

Lemma committed_at_le_trans a b c :
  committed_at_le a b = true -> committed_at_le b c = true -> committed_at_le a c = true.
Proof. destruct a, b, c; simpl; try done. apply text_le_trans. Qed.

Lemma committed_at_le_antisym a b :
  committed_at_le a b = true -> committed_at_le b a = true -> a = b.
Proof. destruct a, b; simpl; try done. intros. f_equal. by apply text_le_antisym. Qed.

#[export] Instance manifest_le_total : Total manifest_le.
Proof.
  intros a b. unfold manifest_le. case_bool_decide as He.
  - rewrite bool_decide_eq_true_2 by done. apply text_le_total.
  - rewrite bool_decide_eq_false_2 by done. apply committed_at_le_total.
Qed.

#[export] Instance manifest_le_trans : Transitive manifest_le.
Proof.
  intros a b c. unfold manifest_le. intros Hab Hbc.
  repeat case_bool_decide; try congruence.
  - by eapply text_le_trans.
  - exfalso. assert (om_committed_at a.2 = om_committed_at b.2); [|done].
    apply committed_at_le_antisym; [done|]. by replace (om_committed_at a.2) with (om_committed_at c.2).
  - by eapply committed_at_le_trans.
Qed.

(** ** The rebuilt index *)

Definition index_key (e : string * ManifestRow) : string * string := (om_bucket e.2, om_object_key e.2).

Definition index_insert (acc : gmap (string * string) string) (e : string * ManifestRow) :=
  <[index_key e := e.1]> acc.

(** The index the entries of [l] call for, the last one of a key winning. *)
Definition index_of (l : list (string * ManifestRow)) (acc : gmap (string * string) string) :=
  fold_left index_insert l acc.

Lemma expected_index_filter db :
  expected_index db = index_of (List.filter is_committed (ordered_manifests db)) ∅.
Proof.
  unfold expected_index, index_of. generalize (∅ : gmap (string * string) string).
  induction (ordered_manifests db) as [|e l IH]; intros acc; simpl; [done|].
  destruct (is_committed e); simpl; apply IH.
Qed.

Definition committed_entries (db : Db) : list (string * ManifestRow) :=
  List.filter is_committed (ordered_manifests db).

Lemma In_committed_entries db o r :
  In (o, r) (committed_entries db) <->
  object_manifests db !! o = Some r /\ om_commit_state r = CommitState.Committed.
Proof.
  unfold committed_entries, ordered_manifests, is_committed. rewrite filter_In. simpl.
  rewrite bool_decide_eq_true, <- list_elem_of_In, merge_sort_Permutation, elem_of_map_to_list. done.
Qed.

(** The loop that fills the index. *)
Lemma set_active_loop (ts : nat -> string) l db :
  (forall e, In e (map snd l) -> is_some (object_manifests db !! e.1) = true) ->
  exists db', for_each (fun '(i, e) => set_active (om_bucket e.2) (om_object_key e.2) e.1 (ts i)) l db
              = (Ok tt, db') /\
    actual_index db' = index_of (map snd l) (actual_index db) /\
    object_manifests db' = object_manifests db.
Proof.
  revert db. induction l as [|[i e] l IH]; intros db Hp; simpl; [by exists db|].
  unfold mbind at 1, M_bind at 1. unfold set_active at 1, mbind, M_bind, query.
  rewrite (Hp e) by (by left). simpl.
  set (d := db <| active_objects ::= _ |>).
  destruct (IH d) as (db' & Hr & Ha & Hm); [intros x Hx; apply Hp; by right|].
  exists db'. split_and!; [exact Hr| |done]. rewrite Ha. f_equal.
  unfold actual_index, index_insert, index_key. simpl. by rewrite fmap_insert.
Qed.

Lemma map_snd_imap {A} (l : list A) : map snd (imap pair l) = l.
Proof.
  apply list_eq. intros i. rewrite list_lookup_fmap, list_lookup_imap.
  by destruct (l !! i).
Qed.

Lemma remark_staging_frame E e : steps (same (fun db => (object_manifests db, active_objects db))) (remark_staging E e).
Proof. by apply steps_modify. Qed.

Lemma remark_loop_total E l db :
  exists d, for_each (fun '(i, e) => remark_staging (under i E) e) l db = (Ok tt, d) /\
    object_manifests d = object_manifests db /\ active_objects d = active_objects db.
Proof.
  destruct (for_each_total (fun '(i, e) => remark_staging (under i E) e) l db) as [d Hd].
  { intros [i e] x _. eexists. reflexivity. }
  exists d. split; [done|].
  assert (steps (same (fun db => (object_manifests db, active_objects db)))
            (for_each (fun '(i, e) => remark_staging (under i E) e) l)) as Hs.
  { apply (steps_for_each _). intros [i e] _. apply remark_staging_frame. }
  pose proof (steps_same _ _ _ _ _ Hs Hd) as [= -> ->]. done.
Qed.

Lemma rebuild_index_run E db :
  exists rep db', rebuild_index_internal E db = (Ok rep, db') /\
    actual_index db' = expected_index db /\ object_manifests db' = object_manifests db /\
    rr_active_rows rep = Z.of_nat (length (map_to_list (active_objects db'))).
Proof.
  unfold rebuild_index_internal, transaction. unfold mbind at 1, M_bind at 1, modify at 1.
  set (d0 := db <| active_objects := ∅ |>).
  unfold mbind at 1, M_bind at 1, query at 1.
  destruct (remark_loop_total (under 0 E) (imap pair (staging_entries d0)) d0) as (d1 & Hd1 & Hm1 & Ha1).
  unfold mbind at 1, M_bind at 1. rewrite Hd1.
  unfold mbind at 1, M_bind at 1, query at 1. fold (committed_entries d1).
  destruct (set_active_loop (fun i => timestamp_at (under i (under 1 E)) 0)
              (imap pair (committed_entries d1)) d1) as (d2 & Hd2 & Ha2 & Hm2).
  { intros [o r] Hin. rewrite map_snd_imap in Hin. apply In_committed_entries in Hin as [Hin _].
    simpl. by rewrite Hin. }
  unfold mbind at 1, M_bind at 1. rewrite Hd2. unfold mbind, M_bind, query, mret, M_ret.
  eexists _, d2. split; [reflexivity|]. split_and!; [|by rewrite Hm2, Hm1|done].
  rewrite Ha2, map_snd_imap. unfold actual_index. rewrite Ha1. unfold d0. simpl. rewrite fmap_empty.
  rewrite expected_index_filter. unfold committed_entries, ordered_manifests. by rewrite Hm1.
Qed.

(** a rebuilt index always verifies: a rebuild succeeds whatever the
    database holds, leaves the manifests alone, and the verifier then reports
    no mismatch, with as many active rows as the rebuild counted. *)
Theorem rebuild_index_verifies (E : Env) (db : Db) :
  exists rep v db', rebuild_index_internal E db = (Ok rep, db') /\
    object_manifests db' = object_manifests db /\
    verify_index_internal db' = (Ok v, db') /\
    vr_mismatched_rows v = 0 /\ vr_expected_active_rows v = vr_actual_active_rows v /\
    vr_actual_active_rows v = rr_active_rows rep.
Proof.
  destruct (rebuild_index_run E db) as (rep & db' & Hr & Ha & Hm & Hn).
  assert (expected_index db' = actual_index db') as Hexp.
  { rewrite Ha. unfold expected_index, ordered_manifests. by rewrite Hm. }
  eexists rep, _, db'. split; [done|]. split; [done|]. split; [reflexivity|]. simpl. rewrite Hexp.
  assert (forall l, (forall p, In p l -> actual_index db' !! p.1 = Some p.2) ->
    length (List.filter (fun '(k, o) => negb (bool_decide (actual_index db' !! k = Some o))) l) = 0%nat /\
    length (List.filter (fun '(k, _) => negb (is_some (actual_index db' !! k))) l) = 0%nat) as Hz.
  { induction l as [|[k o] l IH]; intros Hl; simpl; [done|].
    pose proof (Hl (k, o) (or_introl eq_refl)) as Hk. simpl in Hk.
    rewrite bool_decide_eq_true_2, Hk by done. simpl. apply IH. intros p Hp. apply Hl. by right. }
  destruct (Hz (map_to_list (actual_index db'))) as [Hz1 Hz2].
  { intros [k o] Hin. by apply list_elem_of_In, elem_of_map_to_list in Hin. }
  rewrite Hz1, Hz2. split_and!; [done|done|]. rewrite Hn. unfold actual_index.
  rewrite map_to_list_fmap, length_fmap. done.
Qed.

Lemma index_of_lookup l acc k o :
  index_of l acc !! k = Some o ->
  (exists l1 e l2, l = l1 ++ e :: l2 /\ index_key e = k /\ e.1 = o /\
     forall x, In x l2 -> index_key x <> k) \/
  (acc !! k = Some o /\ forall x, In x l -> index_key x <> k).
Proof.
  revert acc. induction l as [|e l IH]; intros acc H; simpl in H; [by right|].
  apply IH in H as [(l1 & x & l2 & -> & Hk & Ho & Hn)|[Ha Hn]].
  - left. exists (e :: l1), x, l2. done.
  - unfold index_insert in Ha. destruct (decide (index_key e = k)) as [He|He].
    + left. exists [], e, l. rewrite He, lookup_insert_eq in Ha. simplify_eq. done.
    + right. rewrite lookup_insert_ne in Ha by done. split; [done|]. intros x [<-|Hx]; auto.
Qed.

Lemma StronglySorted_mid {A} (R : A -> A -> Prop) l1 x l2 y :
  StronglySorted R (l1 ++ x :: l2) -> In y l1 -> R y x.
Proof.
  induction l1 as [|a l1 IH]; simpl; [done|]. intros Hs [<-|Hy]; inversion Hs as [|? ? Hs' Hf]; subst.
  - rewrite Forall_forall in Hf. apply Hf, list_elem_of_In, in_or_app. right. by left.
  - by apply IH.
Qed.

Lemma StronglySorted_list_filter {A} (R : A -> A -> Prop) p (l : list A) :
  StronglySorted R l -> StronglySorted R (List.filter p l).
Proof.
  induction 1 as [|a l Hs IH Hf]; simpl; [constructor|]. destruct (p a); [|done].
  constructor; [done|]. rewrite Forall_forall in *. intros x Hx. apply Hf.
  apply list_elem_of_In in Hx. apply filter_In in Hx as [Hx _]. by apply list_elem_of_In.
Qed.

(** a rebuilt index resolves a key to its last committed version in the
    order of commit timestamps (compared as text) and object ids: the version
    is committed and recorded for that key, and every committed version of the
    key comes before it. *)
Theorem rebuilt_index_is_latest (E : Env) (db db' : Db) (rep : RebuildReport) (b k : string)
    (a : ActiveRow) (H : rebuild_index_internal E db = (Ok rep, db'))
    (Ha : active_objects db' !! (b, k) = Some a) :
  exists row, object_manifests db !! ao_object_id a = Some row /\
    om_commit_state row = CommitState.Committed /\ om_bucket row = b /\ om_object_key row = k /\
    forall o r, object_manifests db !! o = Some r -> om_commit_state r = CommitState.Committed ->
      om_bucket r = b -> om_object_key r = k -> manifest_le (o, r) (ao_object_id a, row).
Proof.
  destruct (rebuild_index_run E db) as (rep' & d & Hr & Hidx & _). rewrite H in Hr. simplify_eq.
  assert (actual_index d !! (b, k) = Some (ao_object_id a)) as Hl.
  { unfold actual_index. by rewrite lookup_fmap, Ha. }
  rewrite Hidx, expected_index_filter in Hl. fold (committed_entries db) in Hl.
  apply index_of_lookup in Hl as [(l1 & [o row] & l2 & Hsplit & Hk & Ho & Hlast)|[Hl _]];
    [|by rewrite lookup_empty in Hl].
  simpl in Ho. subst o. injection Hk as Hb Hkk. exists row.
  assert (In (ao_object_id a, row) (committed_entries db)) as Hin.
  { rewrite Hsplit. apply in_or_app. right. by left. }
  apply In_committed_entries in Hin as [Hrow Hst]. split_and!; try done.
  intros o r Hor Hc Hb' Hk'.
  assert (In (o, r) (committed_entries db)) as Hin by (by apply In_committed_entries).
  assert (StronglySorted manifest_le (committed_entries db)) as Hs.
  { apply StronglySorted_list_filter. apply (StronglySorted_merge_sort manifest_le). }
  rewrite Hsplit in Hin, Hs. apply in_app_or in Hin as [Hin|[Hin|Hin]].
  - by eapply StronglySorted_mid.
  - injection Hin as -> ->. unfold manifest_le. rewrite bool_decide_eq_true_2 by done. apply text_le_refl.
  - exfalso. apply (Hlast _ Hin). unfold index_key. simpl. congruence.
Qed.

(** ** Witnesses: one upload, from staging to publication *)

(** The parser of conditions, for the concrete runs: an asterisk or a strong tag. *)
Definition sample_etag (raw : string) : option ETagCondition :=
  Some (if bool_decide (raw = "*") then AnyETag else IsETag (Strong raw)).

Definition sample_published (id : string) : ObjectManifest := sample_manifest id "b" "k".

(** The database in which job [o1] was received with conditions [c], queued,
    claimed, has staged its manifest and passed the publication fence. *)
Definition sample_fence_with (c : option TransferWriteConditionals) : Db :=
  run (publication_fence (sample_env 21 "u") "o1" "lease-1")
    (run (stage_manifest (sample_env 20 "u") OperationKind.Put (sample_published "o1"))
       (run (claim_transfer (sample_env 20 "lease-1"))
          (run (queue_transfer (sample_env 11 "u") "o1" "o1" 3)
             (run (set_transfer_conditionals (sample_env 11 "u") "o1" c) sample_receiving)))).

Lemma sample_fence_with_wf c : transfers_wf (sample_fence_with c).
Proof. unfold sample_fence_with. do 5 (apply run_wf; [auto with preserves|]). apply sample_receiving_wf. Qed.

Lemma sample_fence_with_details c : details_staging (sample_fence_with c).
Proof.
  assert (preserves details_staging (publication_fence (sample_env 21 "u") "o1" "lease-1")) as H1
    by (unfold publication_fence; keep_details).
  assert (preserves details_staging (claim_transfer (sample_env 20 "lease-1"))) as H2.
  { unfold claim_transfer, recover_transfers, take_lease. keep_details. }
  assert (preserves details_staging (queue_transfer (sample_env 11 "u") "o1" "o1" 3)) as H3
    by (unfold queue_transfer; keep_details).
  assert (preserves details_staging (set_transfer_conditionals (sample_env 11 "u") "o1" c)) as H4
    by (unfold set_transfer_conditionals; keep_details).
  assert (preserves details_staging (begin_transfer (sample_env 10 "u") "o1" "b" "k")) as H5
    by (unfold begin_transfer; keep_details).
  apply H1, stage_manifest_details, H2, H3, H4, H5, details_staging_empty.
Qed.

Definition sample_fenced : Db := sample_fence_with None.

Definition sample_commit : M ObjectManifest :=
  commit_transfer_manifest sample_etag (sample_env 22 "u") "o1" "o1" "lease-1" (sample_published "o1").

Definition sample_published_db : Db := run sample_commit sample_fenced.

Definition sample_committed : ObjectManifest :=
  (sample_published "o1") <| commit_state := CommitState.Committed |>.

Lemma sample_commit_ok :
  commit_transfer_manifest sample_etag (sample_env 22 "u") "o1" "o1" "lease-1" (sample_published "o1")
    sample_fenced = (Ok sample_committed, sample_published_db).
Proof. vm_compute. reflexivity. Qed.

Lemma commit_transfer_publishes_witness :
  load_manifest_by_object_id (object_id sample_committed) sample_published_db = (Ok (Some sample_committed), sample_published_db).
Proof.
  exact (proj1 (proj2 (proj2 (commit_transfer_publishes sample_etag (sample_env 22 "u") "o1" "o1" "lease-1"
    (sample_published "o1") sample_committed sample_fenced sample_published_db
    (sample_fence_with_wf None) (sample_fence_with_details None) sample_commit_ok)))).
Defined.

(** The same database with an [If-None-Match: *] recorded on the job. *)
Definition sample_conditions : TransferWriteConditionals :=
  {| if_match := None; if_none_match := Some "*" |}.

Definition sample_conditional : Db := sample_fence_with (Some sample_conditions).

Lemma sample_conditional_row : exists r, In r (transfer_jobs sample_conditional) /\ tj_id r = "o1" /\
  tj_write_conditionals r = Some sample_conditions.
Proof. vm_compute. eexists. split; [left; reflexivity|]. split; reflexivity. Qed.

Lemma sample_conditional_commit :
  commit_transfer_manifest sample_etag (sample_env 22 "u") "o1" "o1" "lease-1" (sample_published "o1")
    sample_conditional = (Ok sample_committed, run sample_commit sample_conditional).
Proof. vm_compute. reflexivity. Qed.

Lemma commit_respects_preconditions_witness :
  current_version sample_conditional (bucket sample_committed) (key sample_committed) = None \/
  exists v cond, current_version sample_conditional (bucket sample_committed) (key sample_committed)
      = Some v /\ sample_etag "*" = Some cond /\
    etag_condition_matches cond (whole_object (m_checksum v)) = false.
Proof.
  destruct sample_conditional_row as (r & Hr & Hid & Hc).
  exact (proj2 (commit_respects_preconditions sample_etag (sample_env 22 "u") "o1" "o1" "lease-1"
    (sample_published "o1") sample_committed sample_conditional (run sample_commit sample_conditional)
    r sample_conditions (sample_fence_with_wf _) (sample_fence_with_details _) Hr Hid Hc
    sample_conditional_commit) "*" eq_refl eq_refl).
Defined.

(** The same database with an account that may hold 25 bytes. *)
Definition sample_account : AccountRow :=
  {| ta_label := "Primary account"; ta_bootstrap_json := "{}"; ta_phone := None; ta_download_enabled := true;
     ta_quota_bytes := Some 25; ta_state := "configured"; ta_created_at := 0; ta_updated_at := 0 |}.

Definition sample_add_account : M unit :=
  modify (fun db => db <| telegram_accounts := {[ "legacy" := sample_account ]} |>).

Definition sample_accounted : Db := run sample_add_account sample_fenced.

Lemma sample_accounted_details : details_staging sample_accounted.
Proof.
  assert (preserves details_staging sample_add_account) as H by (apply details_same; by apply steps_modify).
  apply H, (sample_fence_with_details None).
Qed.

Definition sample_row : ManifestRow :=
  {| om_connection_id := "legacy"; om_bucket := "b"; om_object_key := "k"; om_version_id := None;
     om_commit_state := CommitState.Staging; om_manifest := sample_published "o1";
     om_created_at := "2026-01-01T00:00:00Z"; om_committed_at := None; om_tombstoned_at := None |}.

Lemma sample_accounted_commit :
  commit_transfer_manifest sample_etag (sample_env 22 "u") "o1" "o1" "lease-1" (sample_published "o1")
    sample_accounted = (Ok sample_committed, run sample_commit sample_accounted) /\
  is_multipart_part "o1" sample_accounted = false /\
  object_manifests sample_accounted !! "o1" = Some sample_row /\
  telegram_accounts sample_accounted !! "legacy" = Some sample_account.
Proof. split_and!; vm_compute; reflexivity. Qed.

Lemma commit_within_quota_witness :
  Z.max (used_bytes sample_accounted (om_connection_id sample_row)) 0
    + Z.max (content_length sample_committed - current_length sample_accounted (bucket sample_committed)
               (key sample_committed) (om_connection_id sample_row)) 0 <= 25.
Proof.
  destruct sample_accounted_commit as (Hc & Hp & Hr & Ha).
  exact (commit_within_quota sample_etag (sample_env 22 "u") "o1" "o1" "lease-1"
    (sample_published "o1") sample_committed sample_accounted (run sample_commit sample_accounted)
    sample_row sample_account 25 sample_accounted_details Hp Hr Ha eq_refl
    ltac:(unfold U64_MAX; lia) Hc).
Defined.

Lemma rebuilt_index_is_latest_witness :
  exists row, object_manifests sample_published_db !! "o1" = Some row /\
    om_commit_state row = CommitState.Committed.
Proof.
  destruct (rebuilt_index_is_latest (sample_env 40 "u") sample_published_db
    (run (rebuild_index_internal (sample_env 40 "u")) sample_published_db)
    {| rr_committed_rows := 1; rr_active_rows := 1; rr_staged_rows := 0; rr_recovery_markers := 0 |}
    "b" "k" {| ao_object_id := "o1"; ao_updated_at := "2026-01-01T00:00:00Z" |}
    ltac:(vm_compute; reflexivity) ltac:(vm_compute; reflexivity)) as (row & Hr & Hs & _).
  exists row. exact (conj Hr Hs).
Defined.

(** ** Recorded defects *)

Definition put_untracked (id : string) (db : Db) : Db :=
  run (commit_manifest sample_etag (sample_env 50 "u") id)
    (run (stage_manifest (sample_env 50 "u") OperationKind.Put (sample_published id)) db).

(** deleting an overwritten key does not survive a rebuild.  Overwriting a
    key leaves the old version committed; after put, overwrite, delete, the key
    does not resolve, but rebuilding the index makes the first version visible
    again. *)
Theorem rebuild_resurrects_overwritten_version :
  let v2 := put_untracked "o2" (put_untracked "o1" sample_store) in
  let gone := run (delete_active_key (sample_env 60 "u") "b" "k" "user" no_conditionals) v2 in
  let rebuilt := run (rebuild_index_internal (sample_env 70 "u")) gone in
  get_active_manifest "b" "k" gone = (Ok None, gone) /\
  exists m, get_active_manifest "b" "k" rebuilt = (Ok (Some m), rebuilt) /\ object_id m = "o1".
Proof.
  split; [vm_compute; reflexivity|]. exists sample_committed. split; vm_compute; reflexivity.
Qed.

(** committing an operation twice is not idempotent: the guard compares the
    state recorded inside the journal's JSON, which stays at its staging value,
    so committing the first version again, after a second one was published,
    makes the first one current. *)
Theorem recommit_reactivates_old_version :
  let v2 := put_untracked "o2" (put_untracked "o1" sample_store) in
  let again := run (commit_manifest sample_etag (sample_env 60 "u") "o1") v2 in
  (ao_object_id <$> active_objects v2 !! ("b", "k")) = Some "o2" /\
  (oj_state <$> operation_journal v2 !! "o1") = Some JournalState.Committed /\
  (ao_object_id <$> active_objects again !! ("b", "k")) = Some "o1".
Proof. split_and!; vm_compute; reflexivity. Qed.

(** commit timestamps are compared as text, and their fractional part has no
    fixed width: a version committed 50 ms after another can sort before it. *)
Theorem commit_timestamps_order_as_text :
  committed_at_le (Some "2026-01-01T00:00:00.15Z") (Some "2026-01-01T00:00:00.1Z") = true /\
  committed_at_le (Some "2026-01-01T00:00:00.1Z") (Some "2026-01-01T00:00:00.15Z") = false.
Proof. split; reflexivity. Qed.
