(* ===== verification/MultipartStore.v ===== *)
(** * Multipart uploads ([src/src/metadata/multipart.rs], [src/src/multipart.rs],
      [src/src/durable.rs])

    Sessions, their parts and the transfer jobs that publish them.  A part is a
    transfer job of its own; a completion is one more job, whose commit closes
    the session.  The theorems: a session has at most one completion that can
    still publish; an abort settles every job of the session and queues every
    stored part; publishing a part replaces the old one without losing track of
    its messages. *)

From S2P Require Import Prelude Errors Manifest Schema Cleanup Transfers TransferSafety.
From S2P Require Import ManifestStore ManifestSafety.

(** ** Sessions *)

Definition create_multipart_session (E : Env) (session : MultipartSession) : M MultipartSession :=
  let now := timestamp_at E 0 in
  modify (fun db =>
    let created := match multipart_uploads db !! ms_upload_id session with
                   | Some old => mu_created_at old
                   | None => now
                   end in
    db <| multipart_uploads ::= <[ms_upload_id session :=
      {| mu_connection_id := active_connection_id db; mu_bucket := ms_bucket session;
         mu_object_key := ms_key session; mu_state := ms_state session; mu_session := session;
         mu_created_at := created; mu_updated_at := now |}]> |>) ;;
  mret session.

Definition get_multipart_session (upload_id : Uuid) : M (option MultipartSession) :=
  query (fun db => mu_session <$> multipart_uploads db !! upload_id).

(** [ORDER BY object_key ASC, upload_id ASC] *)
Definition session_le (a b : string * UploadRow) : Prop :=
  (if bool_decide (mu_object_key a.2 = mu_object_key b.2) then text_le a.1 b.1
   else text_le (mu_object_key a.2) (mu_object_key b.2)) = true.

#[export] Instance session_le_dec : RelDecision session_le.
Proof. intros a b. unfold session_le. apply _. Defined.

Definition list_multipart_sessions (bucket prefix : option string) : M (list MultipartSession) :=
  query (fun db => map (fun e => mu_session e.2) (merge_sort session_le (List.filter (fun e =>
    one_of (mu_state e.2) [MultipartState.Initiated; MultipartState.Uploading;
                           MultipartState.Completing; MultipartState.RecoveryRequired]
    && match bucket with Some b => bool_decide (mu_bucket e.2 = b) | None => true end
    && match prefix with Some p => sql_like (p +:+ "%") (mu_object_key e.2) | None => true end)
    (map_to_list (multipart_uploads db))))).

Definition update_multipart_session_state (E : Env) (upload_id : Uuid) (state : MultipartState.t)
    : M MultipartSession := transaction (
  row ← query (fun db => multipart_uploads db !! upload_id);
  row ← some_or row (MultipartSessionNotFound upload_id);
  let session := (mu_session row) <| ms_state := state |> <| ms_updated_at := now_utc_at E 0 |> in
  modify (fun db => db <| multipart_uploads ::= alter (fun u =>
    u <| mu_state := state |> <| mu_session := session |> <| mu_updated_at := timestamp_at E 0 |>)
    upload_id |>) ;;
  mret session).

Definition of_upload (upload_id : string) (p : PartRow) : bool := bool_decide (mp_upload_id p = upload_id).

(** The parts go with their session ([ON DELETE CASCADE]). *)
Definition delete_multipart_session (upload_id : Uuid) : M unit := modify (fun db =>
  db <| multipart_uploads ::= delete upload_id |>
     <| multipart_parts ::= sql_delete (of_upload upload_id) |>).

(** ** Parts *)

Definition is_part (upload_id : string) (number : Z) (p : PartRow) : bool :=
  of_upload upload_id p && (mp_part_number p =? number).

(** [INSERT INTO multipart_parts .. ON CONFLICT(upload_id,part_number) DO UPDATE];
    [touch] says whether the conflict clause also writes [created_at]. *)
Definition upsert_part (upload_id : string) (number : Z) (part : MultipartPart) (created_at : string)
    (touch : bool) : M unit :=
  parent ← query (fun db => is_some (multipart_uploads db !! upload_id));
  ensure parent (Sqlite "FOREIGN KEY constraint failed") ;;
  modify (fun db => db <| multipart_parts ::= (fun t =>
    if sql_exists (is_part upload_id number) t then
      sql_update (is_part upload_id number) (fun old =>
        {| mp_upload_id := upload_id; mp_part_number := number; mp_part := part;
           mp_created_at := if touch then created_at else mp_created_at old |}) t
    else t ++ [{| mp_upload_id := upload_id; mp_part_number := number; mp_part := part;
                  mp_created_at := created_at |}]) |>).

Definition put_multipart_part (E : Env) (part : MultipartPart) : M MultipartPart := transaction (
  upsert_part (p_upload_id part) (p_part_number part) part (timestamp_at E 0) false ;;
  modify (fun db => db <| multipart_uploads ::= alter (fun u =>
    u <| mu_state ::= (fun s => if bool_decide (s = MultipartState.Initiated)
                                then MultipartState.Uploading else s) |>
      <| mu_updated_at := timestamp_at E 1 |>) (p_upload_id part) |>) ;;
  mret part).

Definition part_le (a b : PartRow) : Prop := mp_part_number a <= mp_part_number b.

#[export] Instance part_le_dec : RelDecision part_le.
Proof. intros a b. unfold part_le. apply _. Defined.

Definition list_multipart_parts (upload_id : Uuid) : M (list MultipartPart) :=
  query (fun db => map mp_part (merge_sort part_le (sql_where (of_upload upload_id) (multipart_parts db)))).

Definition get_multipart_part (upload_id : Uuid) (number : Z) : M (option MultipartPart) :=
  query (fun db => mp_part <$> sql_first (sql_where (is_part upload_id number) (multipart_parts db))).

Definition delete_multipart_parts (upload_id : Uuid) : M unit := modify (fun db =>
  db <| multipart_parts ::= sql_delete (of_upload upload_id) |>).

Definition insert_multipart_job (job_id : string) (upload_id : Uuid) (number : Z)
    (checksum : option string) : M unit :=
  taken ← query (fun db => sql_exists (fun m => bool_decide (mj_job_id m = job_id)) (multipart_jobs db));
  ensure (negb taken) (Sqlite "UNIQUE constraint failed: multipart_jobs.job_id") ;;
  parent ← query (fun db => sql_exists (has_id job_id) (transfer_jobs db));
  ensure parent (Sqlite "FOREIGN KEY constraint failed") ;;
  modify (fun db => db <| multipart_jobs ::= (fun t => t ++
    [{| mj_job_id := job_id; mj_upload_id := upload_id; mj_part_number := number;
        mj_expected_checksum := checksum |}]) |>).

(** ** Jobs of a session *)

(** The job is a row of [multipart_jobs] for this upload that [q] selects. *)
Definition job_of_upload (db : Db) (upload_id : string) (q : Z -> bool) (id : string) : bool :=
  sql_exists (fun m => bool_decide (mj_job_id m = id) && bool_decide (mj_upload_id m = upload_id)
                       && q (mj_part_number m)) (multipart_jobs db).

Definition multipart_part_progress (upload_id : Uuid) : M (Z * Z) := query (fun db =>
  let numbers := remove_dups (map mj_part_number (List.filter (fun m =>
    bool_decide (mj_upload_id m = upload_id) && (0 <? mj_part_number m)) (multipart_jobs db))) in
  let stored n := sql_exists (is_part upload_id n) (multipart_parts db) in
  (Z.of_nat (length numbers), Z.of_nat (length (List.filter stored numbers)))).

(** [ORDER BY j.sequence DESC LIMIT 1] *)
Definition latest_completion (upload_id : string) (db : Db) : option TransferRow :=
  last (sql_where (fun j => job_of_upload db upload_id (Z.eqb 0) (tj_id j)) (transfer_jobs db)).

Definition multipart_completion_job (upload_id : Uuid) : M (option string) :=
  query (fun db => tj_id <$> latest_completion upload_id db).

(** A part that is not stored yet and whose job is in one of [states]. *)
Definition unstored_part_in (states : list JobState.t) (upload_id : string) (db : Db) : bool :=
  sql_exists (fun m => bool_decide (mj_upload_id m = upload_id) && (0 <? mj_part_number m)
      && negb (sql_exists (is_part upload_id (mj_part_number m)) (multipart_parts db))
      && sql_exists (fun j => has_id (mj_job_id m) j && in_states states j) (transfer_jobs db))
    (multipart_jobs db).

Definition part_activity (upload_id : string) (db : Db) : option string :=
  if unstored_part_in [JobState.RecoveryRequired; JobState.ReceptionFailed] upload_id db
  then Some "recovery_required"
  else if unstored_part_in [JobState.Receiving] upload_id db then Some "receiving"
  else if unstored_part_in [JobState.RetryWait] upload_id db then Some "retry_wait"
  else if unstored_part_in [JobState.Queued; JobState.Uploading; JobState.Committing] upload_id db
  then Some "uploading"
  else None.

Definition multipart_activity_state (upload_id : Uuid) : M (option string) := query (fun db =>
  match latest_completion upload_id db with
  | Some j =>
      if in_states [JobState.RecoveryRequired; JobState.ReceptionFailed] j
      then Some "recovery_required"
      else if in_states [JobState.Receiving; JobState.Queued; JobState.RetryWait;
                         JobState.Uploading; JobState.Committing] j
      then Some "completing"
      else part_activity upload_id db
  | None => part_activity upload_id db
  end).

(** ** Completing *)

(** Another completion of the session may have reached, or still reach, Telegram. *)
Definition unsafe_prior (db : Db) (upload_id job_id : string) : bool :=
  sql_exists (fun j => job_of_upload db upload_id (Z.eqb 0) (tj_id j)
      && negb (bool_decide (tj_id j = job_id))
      && (in_states live j
          || (in_states [JobState.RecoveryRequired] j && ambiguous db (tj_id j))))
    (transfer_jobs db).

Definition supersede_completions (now : Z) (upload_id job_id : string) : M Z :=
  update_jobs (fun db j => job_of_upload db upload_id (Z.eqb 0) (tj_id j)
      && negb (bool_decide (tj_id j = job_id))
      && (in_states [JobState.Receiving; JobState.Queued; JobState.RetryWait;
                     JobState.ReceptionFailed; JobState.Cancelled] j
          || (in_states [JobState.RecoveryRequired] j && negb (ambiguous db (tj_id j)))))
    (fun j => j <| tj_state := JobState.Superseded |> <| tj_lease := None |> <| tj_lease_until := 0 |>
                <| tj_error := Some "Superseded by metadata-only multipart completion" |>
                <| tj_updated_at := now |>).

Definition queue_multipart_completion (E : Env) (job_id : string) (operation_id upload_id : Uuid)
    : M unit := transaction (
  row ← query (fun db => multipart_uploads db !! upload_id);
  row ← some_or row (MultipartSessionNotFound upload_id);
  let session := mu_session row in
  ensure (one_of (ms_state session) [MultipartState.Initiated; MultipartState.Uploading;
                                     MultipartState.Completing])
    (InvalidManifest "multipart completion session is closed") ;;
  prior ← query (fun db => unsafe_prior db upload_id job_id);
  ensure (negb prior)
    (InvalidManifest "an earlier multipart completion still needs Telegram reconciliation") ;;
  supersede_completions (now_at E 0) upload_id job_id ;;
  n ← update_jobs (fun _ r => has_id job_id r && in_states [JobState.Receiving] r)
    (fun r => r <| tj_operation_id := Some operation_id |> <| tj_chunks_total := 0 |>
                <| tj_state := JobState.Queued |> <| tj_updated_at := now_at E 1 |>
                <| tj_lease_until := 0 |>);
  ensure (n =? 1) (InvalidManifest "multipart completion cannot be queued") ;;
  insert_multipart_job job_id upload_id 0 None ;;
  let session := session <| ms_state := MultipartState.Completing |>
                         <| ms_updated_at := now_utc_at E 0 |> in
  modify (fun db => db <| multipart_uploads ::= alter (fun u =>
    u <| mu_state := MultipartState.Completing |> <| mu_session := session |>
      <| mu_updated_at := timestamp_at E 0 |>) upload_id |>)).

(** ** Publishing a part *)

Definition part_superseded_row (now : Z) (j : TransferRow) : TransferRow :=
  j <| tj_state := JobState.Superseded |> <| tj_lease := None |> <| tj_lease_until := 0 |>
    <| tj_error := Some "Superseded by successful multipart part publication" |>
    <| tj_updated_at := now |>.

(** Duplicates of the part that have sent nothing to Telegram. *)
Definition supersede_part_duplicates (now : Z) (upload : string) (number : Z) (id : string) : M Z :=
  update_jobs (fun db j => job_of_upload db upload (Z.eqb number) (tj_id j)
      && negb (bool_decide (tj_id j = id))
      && in_states [JobState.Receiving; JobState.Queued; JobState.RetryWait;
                    JobState.RecoveryRequired] j
      && negb (has_attempt [AttemptState.Sending; AttemptState.Unknown; AttemptState.Checkpointed]
                 db (tj_id j)))
    (part_superseded_row now).

(** [DELETE FROM recovery_markers / operation_journal / object_manifests WHERE
    object_id ..]; the active row of a deleted manifest goes with it. *)
Definition forget_objects (gone : Db -> string -> bool) : M unit := modify (fun db =>
  db <| recovery_markers ::= filter (fun '(_, m) => gone db (rm_object_id m) = false) |>
     <| operation_journal ::= filter (fun '(_, j) => gone db (oj_object_id j) = false) |>
     <| object_manifests ::= filter (fun '(o, _) => gone db o = false) |>
     <| active_objects ::= filter (fun '(_, a) => gone db (ao_object_id a) = false) |>).

Definition superseded_duplicate (upload : string) (number : Z) (id : string) (db : Db) (obj : string)
    : bool :=
  sql_exists (fun j => bool_decide (tj_object_id j = obj)
      && job_of_upload db upload (Z.eqb number) (tj_id j) && negb (bool_decide (tj_id j = id))
      && in_states [JobState.Superseded] j) (transfer_jobs db).

Section PartJobs.
Context (etag_from_str : string -> option ETagCondition).
(** [Uuid::parse_str] of the [uuid] crate. *)
Context (parse_uuid : string -> option Uuid).

Definition finish_completion_job (E : Env) (id : string) : M unit :=
  job ← transfer id;
  operation ← some_or (job ≫= j_operation_id) (InvalidManifest "completion operation missing");
  operation ← some_or (parse_uuid operation) (InvalidManifest "invalid operation id");
  commit_manifest etag_from_str E operation ;;
  mret tt.

Definition publish_part (E : Env) (id lease upload : string) (number : Z) : M unit := transaction (
  row ← query (fun db => object_manifests db !! id);
  row ← some_or row (Sqlite "Query returned no rows");
  let manifest := om_manifest row in
  active ← query (fun db => match multipart_uploads db !! upload with
                            | Some u => one_of (mu_state u) [MultipartState.Initiated;
                                                             MultipartState.Uploading]
                            | None => false
                            end);
  ensure active (InvalidManifest "multipart session is closed") ;;
  old ← query (fun db => sql_first (sql_where (is_part upload number) (multipart_parts db)));
  match old with
  | Some p => enqueue_part_cleanup (under 0 E) (mp_part p)
  | None => mret tt
  end ;;
  upload_uuid ← some_or (parse_uuid upload) (InvalidManifest "invalid upload id");
  let part := {| p_upload_id := upload_uuid; p_part_number := number;
                 part_size := content_length manifest;
                 p_checksum := whole_object (m_checksum manifest);
                 p_e_tag := whole_object (m_checksum manifest);
                 p_telegram := telegram manifest; p_manifest := Some manifest;
                 p_created_at := now_utc_at E 0 |} in
  upsert_part upload number part (timestamp_at E 0) true ;;
  n ← update_jobs (fun _ r => has_id id r && sql_eq (tj_lease r) lease
                             && in_states [JobState.Committing] r)
    (fun r => r <| tj_state := JobState.Completed |> <| tj_lease := None |> <| tj_error := None |>);
  ensure (n =? 1) (InvalidManifest "part lease lost") ;;
  supersede_part_duplicates (now_at E 0) upload number id ;;
  forget_objects (superseded_duplicate upload number id) ;;
  forget_objects (fun _ obj => bool_decide (obj = id))).

Definition finish_part_job (E : Env) (id lease upload : string) (number : Z) : M unit :=
  if number =? 0 then finish_completion_job E id else publish_part E id lease upload number.
End PartJobs.

(** ** Aborting *)

Definition abort_parts (E : Env) (upload : Uuid) : M unit := transaction (
  busy ← query (fun db => sql_exists (fun j => in_states live j
             && job_of_upload db upload (fun _ => true) (tj_id j)) (transfer_jobs db));
  ensure (negb busy) (InvalidManifest "multipart publication in progress; retry abort") ;;
  parts ← query (parts_of upload);
  for_each (fun '(i, p) => enqueue_part_cleanup (under i E) (mp_part p)) (imap pair parts) ;;
  update_jobs (fun db j => job_of_upload db upload (fun _ => true) (tj_id j)
                 && negb (in_states [JobState.Completed; JobState.Cleaned] j))
    (fun j => j <| tj_state := JobState.Cancelled |> <| tj_lease := None |>) ;;
  modify (fun db => db <| multipart_parts ::= sql_delete (of_upload upload) |>) ;;
  modify (fun db => db <| multipart_uploads ::= delete upload |>)).

(** ** Soundness for the transfer invariant *)

Lemma create_multipart_session_sound E s : steps sound (create_multipart_session E s).
Proof. apply steps_sound_same. unfold create_multipart_session. frame_through. Qed.

Lemma update_multipart_session_state_sound E u s : steps sound (update_multipart_session_state E u s).
Proof. apply steps_sound_same. unfold update_multipart_session_state. frame_through. Qed.

Lemma delete_multipart_session_sound u : steps sound (delete_multipart_session u).
Proof. apply steps_sound_same. by apply steps_modify. Qed.

Lemma upsert_part_transfers u n p c t : steps (same transfer_tables) (upsert_part u n p c t).
Proof. unfold upsert_part. frame_through. Qed.
#[export] Hint Resolve upsert_part_transfers : preserves.

Lemma put_multipart_part_sound E p : steps sound (put_multipart_part E p).
Proof. apply steps_sound_same. unfold put_multipart_part. frame_through. Qed.

Lemma delete_multipart_parts_sound u : steps sound (delete_multipart_parts u).
Proof. apply steps_sound_same. by apply steps_modify. Qed.

Lemma insert_multipart_job_sound j u n c : steps sound (insert_multipart_job j u n c).
Proof. apply steps_sound_same. unfold insert_multipart_job. frame_through. Qed.

Lemma enqueue_part_cleanup_sound E p : steps sound (enqueue_part_cleanup E p).
Proof. apply steps_sound_same. unfold enqueue_part_cleanup. apply (enqueue_part_transfers E p). Qed.

Lemma forget_objects_sound g : steps sound (forget_objects g).
Proof. apply steps_sound_same. by apply steps_modify. Qed.

Lemma upsert_part_sound u n p c t : steps sound (upsert_part u n p c t).
Proof. apply steps_sound_same, upsert_part_transfers. Qed.
#[export] Hint Resolve create_multipart_session_sound update_multipart_session_state_sound
  delete_multipart_session_sound put_multipart_part_sound delete_multipart_parts_sound
  insert_multipart_job_sound enqueue_part_cleanup_sound forget_objects_sound upsert_part_sound : preserves.

(** Statements on the sessions only. *)
Lemma modify_uploads_sound f : steps sound (modify (fun db => db <| multipart_uploads ::= f |>)).
Proof. by apply steps_sound_same, steps_modify. Qed.

Lemma modify_parts_sound f : steps sound (modify (fun db => db <| multipart_parts ::= f |>)).
Proof. by apply steps_sound_same, steps_modify. Qed.
#[export] Hint Resolve modify_uploads_sound modify_parts_sound : preserves.

(** Superseding from a state the lifecycle allows it from. *)
Ltac settle_step :=
  unfold in_states in *; bool_hyps;
  match goal with |- job_step _ ?r _ => destruct (tj_state r) eqn:Est; try discriminate;
    (split; unfold edge, in_states; simpl; rewrite ?Est; simpl; auto; try done; try tauto) end.

Lemma supersede_completions_sound now u j : steps sound (supersede_completions now u j).
Proof.
  unfold supersede_completions. apply update_jobs_sound. intros db r _ _ Hp. settle_step.
Qed.

Lemma supersede_part_duplicates_sound now u n id : steps sound (supersede_part_duplicates now u n id).
Proof. unfold supersede_part_duplicates. apply update_jobs_sound. intros db r _ _ Hp. settle_step. Qed.
#[export] Hint Resolve supersede_completions_sound supersede_part_duplicates_sound : preserves.

(** A completion is queued under its own id as operation. *)
Lemma queue_multipart_completion_sound E job u : steps sound (queue_multipart_completion E job job u).
Proof. unfold queue_multipart_completion. transfer_op. Qed.

Lemma transfer_sound id : steps sound (transfer id).
Proof. unfold transfer. step_through. Qed.

Lemma commit_manifest_sound etag E op : steps sound (commit_manifest etag E op).
Proof. unfold commit_manifest. apply commit_manifest_inner_sound. Qed.
#[export] Hint Resolve transfer_sound commit_manifest_sound : preserves.

Lemma publish_part_sound parse E id lease u n : steps sound (publish_part parse E id lease u n).
Proof. unfold publish_part. transfer_op. Qed.

Lemma finish_part_job_sound etag parse E id lease u n :
  steps sound (finish_part_job etag parse E id lease u n).
Proof.
  unfold finish_part_job, finish_completion_job. destruct (n =? 0); [step_through|apply publish_part_sound].
Qed.

Lemma abort_parts_sound E u : steps sound (abort_parts E u).
Proof.
  unfold abort_parts. step_through. apply update_jobs_sound. intros db r _ _ Hp. settle_step.
Qed.
#[export] Hint Resolve queue_multipart_completion_sound finish_part_job_sound abort_parts_sound : preserves.

(** ** One completion at a time *)

Lemma other_completions_settled now upload job db r :
  unsafe_prior db upload job = false ->
  In r (transfer_jobs (supersede_completions now upload job db).2) -> tj_id r <> job ->
  job_of_upload db upload (Z.eqb 0) (tj_id r) = true -> in_states settled r = true.
Proof.
  intros Hprior Hr Hne Hof. apply In_sql_update in Hr as (x & Hx & ->).
  unfold unsafe_prior in Hprior. rewrite sql_exists_false in Hprior. specialize (Hprior x Hx).
  revert Hne Hof.
  match goal with |- context [if ?c then _ else x] => destruct c eqn:Ec end; [done|intros Hne Hof].
  rewrite Hof, bool_decide_eq_false_2 in Ec, Hprior by done. simpl in *. unfold in_states in *.
  destruct (tj_state x) eqn:Est; simpl in *; try done. by rewrite Hprior in Ec.
Qed.

Lemma job_of_upload_snoc db t m upload q id :
  multipart_jobs db = t ++ [m] -> mj_job_id m <> id ->
  job_of_upload db upload q id = true ->
  sql_exists (fun m => bool_decide (mj_job_id m = id) && bool_decide (mj_upload_id m = upload)
                       && q (mj_part_number m)) t = true.
Proof.
  unfold job_of_upload. intros -> Hne H. apply sql_exists_true in H as (x & Hx & Hp).
  apply sql_exists_true. apply in_app_or in Hx as [Hx|[<-|[]]]; [eauto|]. bool_hyps. done.
Qed.

(** a session has at most one completion that can still publish: when
    [queue_multipart_completion] succeeds, the session is [Completing], the new
    completion is queued, and every other completion job of the session is
    settled. *)
Theorem queue_multipart_completion_exclusive (E : Env) (job op upload : string) (db db' : Db)
    (H : queue_multipart_completion E job op upload db = (Ok tt, db')) :
  (mu_state <$> multipart_uploads db' !! upload) = Some MultipartState.Completing /\
  (exists r, In r (transfer_jobs db') /\ tj_id r = job /\ tj_state r = JobState.Queued) /\
  forall r, In r (transfer_jobs db') -> tj_id r <> job ->
    job_of_upload db' upload (Z.eqb 0) (tj_id r) = true -> in_states settled r = true.
Proof.
  unfold queue_multipart_completion in H. rewrite transaction_ok in H.
  peel H row Hrow. injection Hrow as <-. peel H u Hu. apply some_or_ok in Hu as [Hup _].
  peel H u1 Hu1. peel H prior Hpr. injection Hpr as <-. peel H u2 Hu2.
  apply ensure_ok in Hu2 as [Hprior _]. apply negb_true_iff in Hprior.
  apply bind_ok in H as (n1 & d1 & Hs & H). apply (f_equal snd) in Hs. cbn [snd] in Hs.
  apply bind_ok in H as (n2 & d2 & Hq & H).
  peel H u3 Hn. apply ensure_ok in Hn as [Hn _]. apply Z.eqb_eq in Hn.
  apply bind_ok in H as (u4 & d4 & Hins & H). unfold insert_multipart_job in Hins.
  peel Hins tk Htk. peel Hins u5 Hu5. peel Hins pa Hpa. peel Hins u6 Hu6. clear Htk Hu5 Hpa Hu6.
  unfold update_jobs, execute in Hq. injection Hq as Hcount Hd2.
  apply (f_equal snd) in Hins, H. cbn [snd] in Hins, H.
  assert (multipart_uploads d1 = multipart_uploads db /\ multipart_jobs d1 = multipart_jobs db)
    as [Hu1' Hm1] by (rewrite <- Hs; done).
  subst d2 d4 db'. simpl. split_and!.
  - rewrite lookup_alter, decide_True, Hu1' by done. by rewrite Hup.
  - assert (sql_exists (fun r => has_id job r && in_states [JobState.Receiving] r) (transfer_jobs d1) = true)
      as Hex.
    { destruct (sql_exists _ _) eqn:Ex; [done|]. apply sql_count_zero in Ex. lia. }
    apply sql_exists_true in Hex as (r & Hr & Hp). eexists. split; [|split].
    + apply In_sql_update. exists r. split; [exact Hr|]. by rewrite Hp.
    + unfold has_id in Hp. by bool_hyps.
    + done.
  - intros r' Hr' Hne Hof. apply In_sql_update in Hr' as (r & Hr & ->).
    destruct (has_id job r && in_states [JobState.Receiving] r) eqn:Ep.
    { unfold has_id in Ep. bool_hyps. by destruct Hne. }
    rewrite <- Hs in Hr. eapply other_completions_settled; try done.
    eapply job_of_upload_snoc in Hof; [|simpl; by rewrite Hm1|done]. exact Hof.
Qed.

(** ** Parts are never lost track of *)

Definition part_object (part : MultipartPart) : string :=
  match p_manifest part with Some m => object_id m | None => p_upload_id part end.

(** Evidence, the part's document and every chunk of the part have an outbox row. *)
Record part_covered (part : MultipartPart) (t : list CleanupRow) : Prop := {
  pc_evidence : sql_exists (same_message (evidence_peer (part_object part)) 0) t = true;
  pc_document : sql_exists (same_message (peer_id (p_telegram part)) (message_id (p_telegram part))) t = true;
  pc_chunks : forall m c, p_manifest part = Some m -> In c (chunks m) ->
    sql_exists (same_message (telegram_peer_id c) (telegram_message_id c)) t = true
}.

Lemma part_covered_mono part t t' :
  (forall r, In r t -> In r t') -> part_covered part t -> part_covered part t'.
Proof.
  intros Hsub [H1 H2 H3].
  assert (forall p, sql_exists p t = true -> sql_exists p t' = true) as Hm.
  { intros p. rewrite !sql_exists_true. intros (r & Hr & Hp). eauto. }
  split; eauto.
Qed.

Lemma enqueue_part_keeps x E part kept :
  preserves (fun db => In x (cleanup_targets db)) (enqueue_part_cleanup_preserving E part kept).
Proof. unfold enqueue_part_cleanup_preserving, cleanup_retention_secs. preserve. Qed.
#[export] Hint Resolve enqueue_part_keeps : preserves.

Lemma enqueue_part_cleanup_keeps x E part :
  preserves (fun db => In x (cleanup_targets db)) (enqueue_part_cleanup E part).
Proof. unfold enqueue_part_cleanup. apply enqueue_part_keeps. Qed.

Lemma In_imap_pair {A} (l : list A) x : In x l -> exists i, In (i, x) (imap pair l).
Proof.
  intros H. apply list_elem_of_In, list_elem_of_lookup in H as [i Hi]. exists i.
  apply list_elem_of_In, elem_of_lookup_imap. eauto.
Qed.

Lemma enqueue_part_cleanup_covered E part db u db' :
  enqueue_part_cleanup E part db = (Ok u, db') -> part_covered part (cleanup_targets db').
Proof.
  unfold enqueue_part_cleanup, enqueue_part_cleanup_preserving. intros H.
  apply bind_ok in H as (conn & d0 & _ & H). apply bind_ok in H as (ret & d1 & _ & H).
  apply bind_ok in H as (u1 & d2 & Hev & H). fold (part_object part) in *.
  set (ls := p_telegram part :: _) in H.
  assert (forall l, In l ls -> sql_exists (same_message (peer_id l) (message_id l)) (cleanup_targets db') = true)
    as Hall.
  { intros l Hl. apply In_imap_pair in Hl as [i Hi].
    refine (for_each_establishes (fun '(_, l) db => sql_exists (same_message (peer_id l) (message_id l))
      (cleanup_targets db) = true) _ _ _ _ _ _ _ H (i, l) Hi).
    - intros [j l'] d v d' _ Hd. rewrite insert_or_ignore_ok in Hd. injection Hd as _ <-.
      apply insert_or_ignore_present.
    - intros [j l1] [j2 l2] _ _. apply insert_or_ignore_keeps_present. }
  split.
  - assert (preserves (fun db => sql_exists (same_message (evidence_peer (part_object part)) 0)
              (cleanup_targets db) = true) (for_each (fun '(i, l) =>
              insert_or_ignore_target (part_object part) conn (peer_id l) (message_id l)
                TargetKind.Message (now_at E (S i) + ret)) (imap pair ls))) as Hp.
    { apply preserves_for_each. intros [i l] _. apply insert_or_ignore_keeps_present. }
    specialize (Hp d2). rewrite H in Hp. apply Hp.
    rewrite insert_or_ignore_ok in Hev. injection Hev as _ <-. apply insert_or_ignore_present.
  - apply Hall. by left.
  - intros m c Hm Hc. apply (Hall (chunk_location c)). right. rewrite Hm. apply in_map.
    apply filter_In. split; [done|]. by rewrite bool_decide_eq_false_2 by set_solver.
Qed.

(** an abort is complete.  When [abort_parts] succeeds, the session and its
    parts are gone, every transfer job of the session is settled, so nothing
    can publish into it any more, and every stored part had its document and
    all its chunks queued for cleanup.  It refuses, changing nothing, while a
    job of the session is publishing. *)
Theorem abort_parts_complete (E : Env) (upload : Uuid) (db : Db) :
  match abort_parts E upload db with
  | (Err _, db') => db' = db
  | (Ok _, db') =>
      multipart_uploads db' = delete upload (multipart_uploads db) /\
      multipart_parts db' = sql_delete (of_upload upload) (multipart_parts db) /\
      (forall r, In r (transfer_jobs db') -> job_of_upload db' upload (fun _ => true) (tj_id r) = true ->
         in_states settled r = true) /\
      (forall p, In p (multipart_parts db) -> of_upload upload p = true ->
         part_covered (mp_part p) (cleanup_targets db'))
  end.
Proof.
  destruct (abort_parts E upload db) as [[u|e] db'] eqn:H; [|by apply transaction_err in H].
  unfold abort_parts in H. rewrite transaction_ok in H.
  peel H busy Hb. injection Hb as <-. peel H u1 Hu1. apply ensure_ok in Hu1 as [Hbusy _].
  apply negb_true_iff in Hbusy. peel H parts Hparts. injection Hparts as <-.
  apply bind_ok in H as (u2 & d & Hloop & H).
  assert (forall p, In p (multipart_parts db) -> of_upload upload p = true ->
            part_covered (mp_part p) (cleanup_targets d)) as Hcov.
  { intros p Hp Hof. destruct (In_imap_pair (parts_of upload db) p) as [i Hi]; [by apply In_sql_where|].
    refine (for_each_establishes (fun '(_, p) db => part_covered (mp_part p) (cleanup_targets db))
      _ _ _ _ _ _ _ Hloop (i, p) Hi).
    - intros [j q] d0 v d1 _ Hd. by eapply enqueue_part_cleanup_covered.
    - intros [j q] [j2 q2] _ _ d0. apply part_covered_mono. intros r Hr.
      by apply enqueue_part_cleanup_keeps. }
  assert (same (fun db => (transfer_jobs db, multipart_jobs db, multipart_uploads db, multipart_parts db)) db d)
    as [= Hj Hmj Hmu Hmp].
  { eapply steps_same; [|exact Hloop]. apply (steps_for_each _). intros [i p] _.
    unfold enqueue_part_cleanup, enqueue_part_cleanup_preserving, cleanup_retention_secs.
    step_through; by apply insert_or_ignore_frame. }
  apply bind_ok in H as (n & d1 & Hu & H). unfold update_jobs, execute in Hu.
  apply (f_equal snd) in Hu. cbn [snd] in Hu. apply (f_equal snd) in H. cbn in H.
  subst d1 db'. simpl. split_and!; [by rewrite Hmu|by rewrite Hmp| |exact Hcov].
  intros r' Hr' Hof. unfold job_of_upload in Hof. simpl in Hof. apply In_sql_update in Hr' as (r & Hr & ->).
  rewrite Hj in Hr. rewrite sql_exists_false in Hbusy. specialize (Hbusy r Hr).
  revert Hof. match goal with |- context [if ?c then _ else r] => destruct c eqn:Ec end; [done|intros Hof].
  unfold job_of_upload in Ec, Hbusy. rewrite Hof in Ec. rewrite Hmj in Hof. rewrite Hof in Hbusy.
  unfold in_states in *. rewrite andb_true_r in Hbusy. by destruct (tj_state r).
Qed.

Lemma upsert_part_get upload n part c touch db u db' :
  upsert_part upload n part c touch db = (Ok u, db') ->
  (mp_part <$> sql_first (sql_where (is_part upload n) (multipart_parts db'))) = Some part /\
  cleanup_targets db' = cleanup_targets db /\ transfer_jobs db' = transfer_jobs db.
Proof.
  unfold upsert_part. intros H. peel H par Hpar. peel H u1 Hu1. apply (f_equal snd) in H. cbn in H.
  subst db'. simpl. split_and!; [|done|done].
  assert (forall x, mp_upload_id x = upload -> mp_part_number x = n -> is_part upload n x = true) as Hp.
  { intros x <- <-. unfold is_part, of_upload. by rewrite bool_decide_eq_true_2, Z.eqb_refl. }
  destruct (sql_first _) as [x|] eqn:Ex.
  - apply sql_first_where in Ex as [Hx Hpx]. simpl. f_equal.
    destruct (sql_exists (is_part upload n) (multipart_parts db)) eqn:Eo.
    + apply In_sql_update in Hx as (y & Hy & ->). destruct (is_part upload n y) eqn:Ey; [done|congruence].
    + apply in_app_or in Hx as [Hx|[<-|[]]]; [|done]. rewrite sql_exists_false in Eo.
      by rewrite Eo in Hpx.
  - exfalso. apply sql_first_none in Ex. rewrite sql_exists_false in Ex.
    destruct (sql_exists (is_part upload n) (multipart_parts db)) eqn:Eo.
    + apply sql_exists_true in Eo as (y & Hy & Hpy).
      specialize (Ex {| mp_upload_id := upload; mp_part_number := n; mp_part := part;
                        mp_created_at := if touch then c else mp_created_at y |}).
      rewrite Hp in Ex by done. discriminate Ex. apply In_sql_update. exists y. by rewrite Hpy.
    + specialize (Ex {| mp_upload_id := upload; mp_part_number := n; mp_part := part; mp_created_at := c |}).
      rewrite Hp in Ex by done. discriminate Ex. apply in_or_app. right. by left.
Qed.

(** publishing a part makes it the part of its number and keeps track of
    what it replaces.  When [publish_part] succeeds, the session's part of that
    number is the one built from the staged manifest, the job was committing
    under the caller's lease, the staged manifest is gone, and a part of that
    number stored before had its document and chunks queued for cleanup. *)
Theorem publish_part_durable (parse_uuid : string -> option Uuid) (E : Env) (id lease upload : string)
    (number : Z) (db db' : Db)
    (H : publish_part parse_uuid E id lease upload number db = (Ok tt, db')) :
  exists row part, object_manifests db !! id = Some row /\
    p_manifest part = Some (om_manifest row) /\ part_size part = content_length (om_manifest row) /\
    get_multipart_part upload number db' = (Ok (Some part), db') /\
    object_manifests db' !! id = None /\
    (forall old, sql_first (sql_where (is_part upload number) (multipart_parts db)) = Some old ->
       part_covered (mp_part old) (cleanup_targets db')) /\
    (exists r, In r (transfer_jobs db) /\ tj_id r = id /\ tj_lease r = Some lease /\
       tj_state r = JobState.Committing).
Proof.
  unfold publish_part in H. rewrite transaction_ok in H.
  peel H orow Horow. injection Horow as <-. peel H row Hrow. apply some_or_ok in Hrow as [Hrow _].
  peel H act Hact. peel H u1 Hu1. peel H old Hold. injection Hold as <-.
  apply bind_ok in H as (u2 & d1 & Henq & H). peel H uu Huu. apply bind_ok in H as (u3 & d2 & Hup & H).
  apply bind_ok in H as (n & d3 & Hjob & H). peel H u4 Hn. apply ensure_ok in Hn as [Hn _].
  apply Z.eqb_eq in Hn. set (part := {| p_upload_id := uu |}) in Hup. exists row, part.
  apply upsert_part_get in Hup as (Hget & Hct & Htj).
  unfold update_jobs, execute in Hjob. injection Hjob as Hcount Hd3.
  apply bind_ok in H as (n5 & d5 & Hdup & H). apply bind_ok in H as (u6 & d6 & Hfo & H).
  apply (f_equal snd) in Hdup, Hfo, H. cbn [snd] in Hdup, Hfo, H.
  split_and!; [done|done|done| | | |].
  - unfold get_multipart_part, query. subst d3 d5 d6 db'. simpl. by rewrite Hget.
  - subst db'. simpl. apply map_lookup_filter_None. right. intros x _. by rewrite bool_decide_eq_true_2.
  - intros o Ho. rewrite Ho in Henq. apply enqueue_part_cleanup_covered in Henq.
    subst d3 d5 d6 db'. simpl. by rewrite Hct.
  - assert (sql_exists (fun r => has_id id r && sql_eq (tj_lease r) lease && in_states [JobState.Committing] r)
              (transfer_jobs d2) = true) as Hex.
    { destruct (sql_exists _ _) eqn:Ex; [done|]. apply sql_count_zero in Ex. lia. }
    apply sql_exists_true in Hex as (r & Hr & Hp). exists r. rewrite Htj in Hr.
    assert (transfer_jobs d1 = transfer_jobs db) as Hsame.
    { assert (steps (same transfer_tables) (match sql_first (sql_where (is_part upload number) (multipart_parts db))
        with Some p => enqueue_part_cleanup (under 0 E) (mp_part p) | None => mret tt end)) as Hst.
      { destruct (sql_first _); [unfold enqueue_part_cleanup|]; frame_through. }
      apply (steps_same _ _ _ _ _ Hst) in Henq. by injection Henq. }
    rewrite Hsame in Hr. unfold has_id, in_states in Hp. bool_hyps.
    split_and!; [done|done|by apply sql_eq_true|by destruct (tj_state r)].
Qed.

(** ** Witnesses *)

Definition sample_session : MultipartSession :=
  {| ms_upload_id := "up"; ms_bucket := "b"; ms_key := "k"; ms_version_id := None;
     ms_content_type := "text/plain"; ms_checksum_algorithm := "sha256"; ms_expires_at := None;
     ms_state := MultipartState.Initiated; ms_created_at := 0; ms_updated_at := 0 |}.

Definition sample_open : Db := run (create_multipart_session (sample_env 5 "u") sample_session) sample_store.

(** The completion of the session received but not yet queued. *)
Definition sample_completing : Db := run (begin_transfer (sample_env 10 "u") "c1" "b" "k") sample_open.

Lemma queue_multipart_completion_exclusive_witness :
  exists db', queue_multipart_completion (sample_env 11 "u") "c1" "c1" "up" sample_completing = (Ok tt, db') /\
    (mu_state <$> multipart_uploads db' !! "up") = Some MultipartState.Completing.
Proof.
  set (db' := run (queue_multipart_completion (sample_env 11 "u") "c1" "c1" "up") sample_completing).
  assert (queue_multipart_completion (sample_env 11 "u") "c1" "c1" "up" sample_completing = (Ok tt, db')) as H
    by (vm_compute; reflexivity).
  exists db'. split; [exact H|].
  exact (proj1 (queue_multipart_completion_exclusive (sample_env 11 "u") "c1" "c1" "up"
                  sample_completing db' H)).
Defined.

(** Part 1 of the session staged, claimed and past the publication fence. *)
Definition sample_part_fenced : Db :=
  run (publication_fence (sample_env 21 "u") "o1" "lease-1")
    (run (stage_manifest (sample_env 20 "u") OperationKind.Put (sample_manifest "o1" "b" "k"))
       (run (claim_transfer (sample_env 20 "lease-1"))
          (run (insert_multipart_job "o1" "up" 1 None)
             (run (queue_transfer (sample_env 11 "u") "o1" "o1" 3)
                (run (begin_transfer (sample_env 10 "u") "o1" "b" "k") sample_open))))).

Lemma publish_part_durable_witness :
  exists row part db',
    publish_part Some (sample_env 22 "u") "o1" "lease-1" "up" 1 sample_part_fenced = (Ok tt, db') /\
    object_manifests sample_part_fenced !! "o1" = Some row /\ p_manifest part = Some (om_manifest row) /\
    get_multipart_part "up" 1 db' = (Ok (Some part), db').
Proof.
  set (db' := run (publish_part Some (sample_env 22 "u") "o1" "lease-1" "up" 1) sample_part_fenced).
  assert (publish_part Some (sample_env 22 "u") "o1" "lease-1" "up" 1 sample_part_fenced = (Ok tt, db')) as H
    by (vm_compute; reflexivity).
  destruct (publish_part_durable Some (sample_env 22 "u") "o1" "lease-1" "up" 1 sample_part_fenced db' H)
    as (row & part & Hrow & Hm & _ & Hg & _).
  exists row, part, db'. exact (conj H (conj Hrow (conj Hm Hg))).
Defined.
