(* ===== verification/Buckets.v ===== *)
(** * Buckets ([src/src/metadata/buckets.rs], [rows.rs])

    Creating, listing and deleting buckets, and listing the active objects of
    one.  The theorems: names are unique among live buckets and a created
    bucket can be read back; a bucket can be deleted only when nothing in it is
    visible, recoverable or still on its way; a prefix listing returns every
    object under the prefix (and, because the prefix is used as a pattern, may
    return others). *)

From Stdlib Require Import Strings.Ascii.
From S2P Require Import Prelude Errors Manifest Schema Cleanup Transfers TransferSafety.
From S2P Require Import ManifestStore ManifestSafety IndexSafety.

Record BucketRecord : Type := {
  b_name : string;
  b_created_at : OffsetDateTime;
  b_deleted_at : option OffsetDateTime;
  b_versioning_enabled : bool;
  b_object_locking_enabled : bool
}.

Section Buckets.
(** [OffsetDateTime::parse(.., &Rfc3339)] of the [time] crate. *)
Context (parse_rfc3339 : string -> option OffsetDateTime).

Definition parse_timestamp (s : string) : M OffsetDateTime :=
  some_or (parse_rfc3339 s) (Sqlite ("Conversion error from type Text: " +:+ s)).

Definition load_bucket_record (name : string) (include_deleted : bool) : M (option BucketRecord) :=
  row ← query (fun db =>
    match buckets db !! name with
    | Some b => if (include_deleted || negb (is_some (bk_deleted_at b)))
                   && bool_decide (bk_connection_id b = active_connection_id db)
                then Some b else None
    | None => None
    end);
  match row with
  | None => mret None
  | Some b =>
      created ← parse_timestamp (bk_created_at b);
      deleted ← match bk_deleted_at b with
                | Some v => d ← parse_timestamp v; mret (Some d)
                | None => mret None
                end;
      mret (Some {| b_name := name; b_created_at := created; b_deleted_at := deleted;
                    b_versioning_enabled := bk_versioning_enabled b;
                    b_object_locking_enabled := bk_object_locking_enabled b |})
  end.

Definition get_bucket (name : string) : M (option BucketRecord) := load_bucket_record name false.

Definition create_bucket (E : Env) (bucket : BucketRecord) : M BucketRecord :=
  if trim_is_empty (b_name bucket) then throw (InvalidManifest "bucket name is required")
  else
    let name := b_name bucket in
    let now := timestamp_at E 0 in
    transaction (
      existing ← query (fun db => buckets db !! name);
      ensure (match existing with Some b => is_some (bk_deleted_at b) | None => true end)
        (BucketAlreadyExists name) ;;
      modify (fun db => db <| buckets ::= <[name :=
        {| bk_connection_id := active_connection_id db; bk_created_at := now;
           bk_deleted_at := None; bk_versioning_enabled := b_versioning_enabled bucket;
           bk_object_locking_enabled := b_object_locking_enabled bucket |}]> |>)) ;;
    created ← parse_timestamp now;
    mret {| b_name := name; b_created_at := created; b_deleted_at := None;
            b_versioning_enabled := b_versioning_enabled bucket;
            b_object_locking_enabled := b_object_locking_enabled bucket |}.

(** [ORDER BY name ASC] *)
Definition bucket_le (a b : string * BucketRow) : Prop := text_le a.1 b.1 = true.

#[local] Instance bucket_le_dec : RelDecision bucket_le.
Proof. intros a b. unfold bucket_le. apply _. Defined.

Definition visible_buckets (db : Db) : list (string * BucketRow) :=
  merge_sort bucket_le (List.filter (fun e => negb (is_some (bk_deleted_at e.2))
      && bool_decide (bk_connection_id e.2 = active_connection_id db)) (map_to_list (buckets db))).

Fixpoint load_buckets (l : list (string * BucketRow)) : M (list BucketRecord) :=
  match l with
  | [] => mret []
  | (name, b) :: l' =>
      created ← parse_timestamp (bk_created_at b);
      rest ← load_buckets l';
      mret ({| b_name := name; b_created_at := created; b_deleted_at := None;
               b_versioning_enabled := bk_versioning_enabled b;
               b_object_locking_enabled := bk_object_locking_enabled b |} :: rest)
  end.

Definition list_buckets : M (list BucketRecord) :=
  rows ← query visible_buckets;
  load_buckets rows.

Definition bucket_exists_for (name : string) : M bool :=
  b ← get_bucket name;
  mret (is_some b).
End Buckets.

Definition pending_in_bucket (name : string) (db : Db) : bool :=
  sql_exists (fun r => bool_decide (tj_bucket r = name)
      && negb (in_states [JobState.Completed; JobState.Cancelled; JobState.Cleaned] r))
    (transfer_jobs db).

Definition active_in_bucket (name : string) (db : Db) : Z :=
  sql_count (fun e => bool_decide (fst (fst e) = name)) (map_to_list (active_objects db)).

Definition manifests_in_bucket (name : string) (db : Db) : Z :=
  sql_count (fun e => bool_decide (om_bucket (snd e) = name)
      && one_of (om_commit_state (snd e)) [CommitState.Committed; CommitState.Staging;
           CommitState.Orphaned; CommitState.RecoveryRequired]) (map_to_list (object_manifests db)).

Definition deletable (db : Db) (b : BucketRow) : bool :=
  negb (is_some (bk_deleted_at b)) && bool_decide (bk_connection_id b = active_connection_id db).

Definition delete_bucket (E : Env) (name : string) : M unit := transaction (
  pending ← query (pending_in_bucket name);
  ensure (negb pending) (BucketNotEmpty name) ;;
  active ← query (active_in_bucket name);
  manifests ← query (manifests_in_bucket name);
  ensure (negb ((0 <? active) || (0 <? manifests))) (BucketNotEmpty name) ;;
  updated ← query (fun db => match buckets db !! name with Some b => deletable db b | None => false end);
  ensure updated (BucketNotFound name) ;;
  modify (fun db => db <| buckets ::= alter (fun b =>
    b <| bk_deleted_at := Some (timestamp_at E 0) |>) name |>)).

(** ** Listing the active objects of a bucket *)

(** [ORDER BY a.object_key ASC, a.object_id ASC] *)
Definition listed_le (a b : (string * string) * ActiveRow) : Prop :=
  (if bool_decide (a.1.2 = b.1.2) then text_le (ao_object_id a.2) (ao_object_id b.2)
   else text_le a.1.2 b.1.2) = true.

#[export] Instance listed_le_dec : RelDecision listed_le.
Proof. intros a b. unfold listed_le. apply _. Defined.

(** [a.object_key LIKE ?2 || '%'] *)
Definition under_prefix (prefix : option string) (key : string) : bool :=
  match prefix with Some p => sql_like (p +:+ "%") key | None => true end.

Definition listed_rows (bkt : string) (prefix : option string) (db : Db)
    : list ((string * string) * ActiveRow) :=
  merge_sort listed_le (List.filter (fun e => bool_decide (fst (fst e) = bkt)
      && under_prefix prefix (snd (fst e))
      && match object_manifests db !! ao_object_id (snd e) with
         | Some m => bool_decide (om_connection_id m = active_connection_id db)
         | None => false
         end) (map_to_list (active_objects db))).

Fixpoint load_listed (db : Db) (l : list ((string * string) * ActiveRow))
    : Result (list ObjectManifest) MetadataError :=
  match l with
  | [] => Ok []
  | e :: l' =>
      match object_manifests db !! ao_object_id e.2 with
      | None => load_listed db l'
      | Some m =>
          match validate (om_manifest m) with
          | Err msg => Err (InvalidManifest msg)
          | Ok _ => match load_listed db l' with
                    | Ok ms => Ok (om_manifest m :: ms)
                    | Err e' => Err e'
                    end
          end
      end
  end.

Definition list_bucket_manifests (bkt : string) (prefix : option string) : M (list ObjectManifest) :=
  r ← query (fun db => load_listed db (listed_rows bkt prefix db));
  lift r.

(** ** Properties *)

(** bucket names are unique and creation is durable: [create_bucket] of a
    usable name succeeds exactly when no live bucket has the name, and the
    bucket can then be read back; a name that is taken, by any connection, is
    refused without effect.  The clock's text is assumed readable. *)
Theorem create_bucket_roundtrip (parse_rfc3339 : string -> option OffsetDateTime) (E : Env)
    (b : BucketRecord) (t : OffsetDateTime) (db : Db)
    (Hname : trim_is_empty (b_name b) = false) (Hclock : parse_rfc3339 (timestamp_at E 0) = Some t) :
  match create_bucket parse_rfc3339 E b db with
  | (Ok r, db') => bucket_exists (b_name b) db = false /\ bucket_exists (b_name b) db' = true /\
      get_bucket parse_rfc3339 (b_name b) db' = (Ok (Some r), db') /\
      (forall n, n <> b_name b -> buckets db' !! n = buckets db !! n)
  | (Err e, db') => e = BucketAlreadyExists (b_name b) /\ bucket_exists (b_name b) db = true /\ db' = db
  end.
Proof.
  unfold create_bucket. rewrite Hname. unfold transaction, mbind, M_bind, query, ensure.
  destruct (match buckets db !! b_name b with Some x => is_some (bk_deleted_at x) | None => true end) eqn:Eg.
  - simpl. unfold parse_timestamp. rewrite Hclock. simpl. split_and!.
    + unfold bucket_exists. destruct (buckets db !! b_name b); [|done]. by rewrite Eg.
    + unfold bucket_exists. simpl. by rewrite lookup_insert_eq.
    + unfold get_bucket, load_bucket_record, parse_timestamp, mbind, M_bind, query. simpl.
      rewrite lookup_insert_eq. simpl. rewrite bool_decide_eq_true_2 by done. simpl. by rewrite Hclock.
    + intros n Hn. by rewrite lookup_insert_ne.
  - simpl. split_and!; [done| |done]. unfold bucket_exists. destruct (buckets db !! b_name b); [|done].
    by rewrite Eg.
Qed.

(** a bucket is deleted only when it is empty: when [delete_bucket]
    succeeds, the bucket no longer exists, no object of it was active, every
    version of it was tombstoned, and every transfer job of it was completed,
    cancelled or cleaned; otherwise nothing changes. *)
Theorem delete_bucket_only_empty (E : Env) (name : string) (db : Db) :
  match delete_bucket E name db with
  | (Err _, db') => db' = db
  | (Ok _, db') =>
      bucket_exists name db' = false /\
      (forall k, active_objects db !! (name, k) = None) /\
      (forall o m, object_manifests db !! o = Some m -> om_bucket m = name ->
         om_commit_state m = CommitState.Tombstoned) /\
      (forall r, In r (transfer_jobs db) -> tj_bucket r = name -> in_states settled r = true)
  end.
Proof.
  destruct (delete_bucket E name db) as [[u|e] db'] eqn:H; [|by apply transaction_err in H].
  unfold delete_bucket in H. rewrite transaction_ok in H.
  peel H p Hp. injection Hp as <-. peel H u1 Hu1. apply ensure_ok in Hu1 as [Hpend _].
  peel H a Ha. injection Ha as <-. peel H m Hm. injection Hm as <-. peel H u2 Hu2.
  apply ensure_ok in Hu2 as [Hempty _]. peel H ok Hok. peel H u3 Hu3.
  apply (f_equal snd) in H. cbn in H. subst db'. bool_hyps.
  assert (0 <= active_in_bucket name db /\ 0 <= manifests_in_bucket name db) as [Ha1 Hm1]
    by (split; apply sql_count_nonneg).
  assert (active_in_bucket name db = 0) as Ha0 by lia.
  assert (manifests_in_bucket name db = 0) as Hm0 by lia.
  unfold active_in_bucket in Ha0. rewrite sql_count_zero, sql_exists_false in Ha0.
  unfold manifests_in_bucket in Hm0. rewrite sql_count_zero, sql_exists_false in Hm0. split_and!.
  - unfold bucket_exists. simpl. rewrite lookup_alter, decide_True by done.
    by destruct (buckets db !! name).
  - intros k. destruct (active_objects db !! (name, k)) as [x|] eqn:Ex; [|done].
    specialize (Ha0 ((name, k), x)). rewrite bool_decide_eq_true_2 in Ha0 by done.
    discriminate Ha0. by apply list_elem_of_In, elem_of_map_to_list.
  - intros o x Hx Hb. specialize (Hm0 (o, x)). simpl in Hm0. rewrite bool_decide_eq_true_2 in Hm0 by done.
    destruct (om_commit_state x) eqn:Es; try done;
      (discriminate Hm0; by apply list_elem_of_In, elem_of_map_to_list).
  - intros r Hr Hb. unfold pending_in_bucket in *.
    match goal with Hs : sql_exists _ (transfer_jobs db) = false |- _ =>
      rewrite sql_exists_false in Hs; specialize (Hs r Hr); rewrite bool_decide_eq_true_2 in Hs by done end.
    unfold in_states in *. by destruct (tj_state r).
Qed.

(** ** The prefix pattern *)

Lemma some_rest_empty s : some_rest is_empty s = true.
Proof. induction s as [|c s IH]; simpl; [done|]. by rewrite IH, orb_true_r. Qed.

(** ASCII text other than the two wildcards. *)
Definition plain (c : Ascii.ascii) : bool :=
  negb (Ascii.eqb c "%"%char) && negb (Ascii.eqb c "_"%char).

Lemma sql_like_cons c p d s :
  plain c = true -> sql_like (String c p) (String d s)
                    = Ascii.eqb (ascii_upper c) (ascii_upper d) && sql_like p s.
Proof. destruct c as [[] [] [] [] [] [] [] []]; done. Qed.

(** A byte that a single-character wildcard can consume on its own. *)
Definition single_byte (c : Ascii.ascii) : bool := (Ascii.N_of_ascii c <? 128)%N.

Fixpoint all_single (s : string) : bool :=
  match s with EmptyString => true | String c s' => single_byte c && all_single s' end.

Lemma single_not_continuation c : single_byte c = true -> is_continuation c = false.
Proof.
  unfold single_byte, is_continuation. intros H. apply N.ltb_lt in H.
  destruct (N.leb_spec 128 (Ascii.N_of_ascii c)); [lia|done].
Qed.

Lemma some_rest_here f s :
  all_single s = true -> f s = true -> some_rest f s = true.
Proof.
  intros Hs Hf. destruct s as [|c s]; simpl in *; [done|]. bool_hyps.
  rewrite single_not_continuation, Hf by done. done.
Qed.

(** A key under the prefix matches the pattern made of it. *)
Lemma sql_like_prefix p s : all_single (p +:+ s) = true -> sql_like (p +:+ "%") (p +:+ s) = true.
Proof.
  induction p as [|c p IH]; intros Hs.
  - simpl. apply some_rest_empty.
  - simpl in Hs. bool_hyps. specialize (IH H0). destruct (plain c) eqn:Ep.
    + change ((String c p) +:+ "%") with (String c (p +:+ "%")).
      change ((String c p) +:+ s) with (String c (p +:+ s)).
      rewrite sql_like_cons by done. rewrite IH. by rewrite Ascii.eqb_refl.
    + unfold plain in Ep. apply andb_false_iff in Ep as [Ep|Ep]; bool_hyps; apply Ascii.eqb_eq in Ep as ->.
      * change (some_rest (sql_like (p +:+ "%")) (String "%" (p +:+ s)) = true). simpl.
        rewrite some_rest_here by done. by rewrite orb_true_r.
      * change (sql_like (p +:+ "%") (p +:+ s) = true). exact IH.
Qed.

Lemma load_listed_spec db l ms :
  load_listed db l = Ok ms ->
  forall m, In m ms <-> exists e row, In e l /\ object_manifests db !! ao_object_id e.2 = Some row /\
                                       om_manifest row = m.
Proof.
  revert ms. induction l as [|e l IH]; intros ms H m; simpl in H.
  - simplify_eq. split; [done|]. by intros (e & row & [] & _).
  - destruct (object_manifests db !! ao_object_id e.2) as [row|] eqn:Er.
    + destruct (validate (om_manifest row)); [|done]. destruct (load_listed db l) as [ms'|] eqn:El; [|done].
      simplify_eq. simpl. rewrite (IH ms' eq_refl m). split.
      * intros [<-|(x & r & Hx & Hr & Hm)]; 
          [exists e, row; split; [by left|done]|exists x, r; split; [by right|done]].
      * intros (x & r & [<-|Hx] & Hr & Hm); [left; congruence|right; eauto].
    + rewrite (IH ms H m). split.
      * intros (x & r & Hx & Hr & Hm). exists x, r. split; [by right|done].
      * intros (x & r & [<-|Hx] & Hr & Hm); [congruence|eauto].
Qed.

Lemma In_listed_rows b p db e :
  In e (listed_rows b p db) <->
  active_objects db !! e.1 = Some e.2 /\ e.1.1 = b /\ under_prefix p e.1.2 = true /\
  exists m, object_manifests db !! ao_object_id e.2 = Some m /\ om_connection_id m = active_connection_id db.
Proof.
  unfold listed_rows. rewrite <- list_elem_of_In, merge_sort_Permutation, list_elem_of_In, filter_In.
  rewrite <- list_elem_of_In, elem_of_map_to_list'. split.
  - intros [Ha Hp]. bool_hyps. split_and!; try done.
    destruct (object_manifests db !! ao_object_id e.2) as [m|]; [|done]. bool_hyps. eauto.
  - intros (Ha & Hb & Hp & m & Hm & Hc). split; [done|].
    rewrite bool_decide_eq_true_2, Hp, Hm, bool_decide_eq_true_2 by done. done.
Qed.

(** a prefix listing misses nothing: every active object of the bucket (on
    the active connection) whose key extends the prefix is in the result of
    [list_bucket_manifests], for ASCII keys; and everything in the result is
    the manifest of an active object of that bucket. *)
Theorem list_bucket_manifests_complete (b p : string) (ms : list ObjectManifest) (db db' : Db)
    (H : list_bucket_manifests b (Some p) db = (Ok ms, db')) :
  (forall s a row, active_objects db !! (b, p +:+ s) = Some a -> all_single (p +:+ s) = true ->
     object_manifests db !! ao_object_id a = Some row -> om_connection_id row = active_connection_id db ->
     In (om_manifest row) ms) /\
  (forall m, In m ms -> exists k a row, active_objects db !! (b, k) = Some a /\
     object_manifests db !! ao_object_id a = Some row /\ om_manifest row = m).
Proof.
  unfold list_bucket_manifests in H. peel H r Hr. injection Hr as <-.
  destruct (load_listed db (listed_rows b (Some p) db)) as [l|e] eqn:El; [|done]. injection H as -> _.
  split.
  - intros s a row Ha Hs Hrow Hc. apply (load_listed_spec _ _ _ El). exists ((b, p +:+ s), a), row.
    split; [|done]. apply In_listed_rows. simpl. split_and!; [done|done|by apply sql_like_prefix|eauto].
  - intros m Hm. apply (load_listed_spec _ _ _ El) in Hm as ([[b' k] a] & row & He & Hrow & Hmr).
    apply In_listed_rows in He as (Ha & Hb & _). simpl in *. subst b'. by exists k, a, row.
Qed.

(** the prefix is a pattern, not text: its underscores match any character
    and letters match in either case, so a listing under [my_dir/] contains the
    objects of [myXdir/] and of [MY_DIR/]. *)
Theorem prefix_listing_is_a_pattern :
  under_prefix (Some "my_dir/") "myXdir/a" = true /\ under_prefix (Some "my_dir/") "MY_DIR/a" = true /\
  String.prefix "my_dir/" "myXdir/a" = false /\ String.prefix "my_dir/" "MY_DIR/a" = false.
Proof. split_and!; reflexivity. Qed.

(** ** Witnesses *)

Definition sample_record : BucketRecord :=
  {| b_name := "b"; b_created_at := 0; b_deleted_at := None; b_versioning_enabled := false;
     b_object_locking_enabled := false |}.

Lemma create_bucket_roundtrip_witness :
  bucket_exists "b" (run (create_bucket (fun _ => Some 7) (sample_env 1 "u") sample_record) empty_db) = true.
Proof.
  exact (proj1 (proj2 (create_bucket_roundtrip (fun _ => Some 7) (sample_env 1 "u") sample_record 7 empty_db
    eq_refl eq_refl))).
Defined.

Lemma sample_listing :
  list_bucket_manifests "b" (Some "k") sample_published_db = (Ok [sample_committed], sample_published_db) /\
  (exists row, object_manifests sample_published_db !! "o1" = Some row /\ om_manifest row = sample_committed /\
     om_connection_id row = active_connection_id sample_published_db) /\
  active_objects sample_published_db !! ("b", "k" +:+ "")
    = Some {| ao_object_id := "o1"; ao_updated_at := "2026-01-01T00:00:00Z" |}.
Proof.
  split_and!; [vm_compute; reflexivity| |vm_compute; reflexivity].
  eexists. split; [vm_compute; reflexivity|]. split; vm_compute; reflexivity.
Qed.

Lemma list_bucket_manifests_complete_witness :
  exists row, object_manifests sample_published_db !! "o1" = Some row /\ In (om_manifest row) [sample_committed].
Proof.
  destruct sample_listing as (Hl & (row & Hrow & _ & Hc) & Ha). exists row. split; [exact Hrow|].
  exact (proj1 (list_bucket_manifests_complete "b" "k" _ sample_published_db sample_published_db Hl)
           "" _ row Ha eq_refl Hrow Hc).
Defined.
