(* ===== verification/ConnectionRemoval.v ===== *)
(** * Removing a storage connection ([src/src/metadata/connection_removal.rs],
      [src/src/object_format/workflow.rs])

    Detaching a Telegram connection hides its whole namespace in one
    transaction and records what the worker has to clean up.  The theorem: once
    [begin_connection_removal] succeeds, nothing of the connection is visible
    or can still be published, and, when the uploaded files are to go too,
    every message of every version is in the cleanup outbox. *)

From stdpp Require Import pretty.
From S2P Require Import Prelude Errors Manifest Schema Cleanup Transfers TransferSafety.
From S2P Require Import ManifestStore ManifestSafety MultipartStore.

Record ConnectionRemovalJob : Type := {
  cr_id : string;
  cr_connection_id : string;
  cr_delete_uploaded_files : bool;
  cr_state : RemovalState.t;
  cr_object_count : Z;
  cr_requested_at : Z;
  cr_updated_at : Z;
  cr_completed_at : option Z;
  cr_error : option string
}.

Definition removal_active : list RemovalState.t :=
  [RemovalState.Pending; RemovalState.Running; RemovalState.RemoteCleanupPending].

Definition connection_removal_in_progress : M bool := query (fun db =>
  sql_exists (fun j => one_of (rj_state j) removal_active) (connection_removal_jobs db)).

(** ** The steps of [begin_connection_removal] *)

Definition insert_removal_job (row : RemovalJobRow) : M unit :=
  taken ← query (fun db => sql_exists (fun j => bool_decide (rj_id j = rj_id row))
                             (connection_removal_jobs db));
  ensure (negb taken) (Sqlite "UNIQUE constraint failed: connection_removal_jobs.id") ;;
  modify (fun db => db <| connection_removal_jobs ::= (fun t => t ++ [row]) |>).

Definition removal_listed (job obj : string) (db : Db) : bool :=
  sql_exists (fun o => bool_decide (ro_job_id o = job) && bool_decide (ro_object_id o = obj))
    (connection_removal_objects db).

Definition add_removal_object (job obj : string) : M unit := modify (fun db =>
  db <| connection_removal_objects ::= (fun t => t ++ [{| ro_job_id := job; ro_object_id := obj |}]) |>).

(** [INSERT] and [INSERT OR IGNORE] into [connection_removal_objects]. *)
Definition insert_removal_object (job obj : string) : M unit :=
  taken ← query (removal_listed job obj);
  ensure (negb taken) (Sqlite "UNIQUE constraint failed: connection_removal_objects") ;;
  add_removal_object job obj.

Definition insert_or_ignore_removal_object (job obj : string) : M unit :=
  taken ← query (removal_listed job obj);
  if (taken : bool) then mret tt else add_removal_object job obj.

(** [ORDER BY object_id] *)
Definition object_id_le (a b : string * ManifestRow) : Prop := text_le a.1 b.1 = true.

#[export] Instance object_id_le_dec : RelDecision object_id_le.
Proof. intros a b. unfold object_id_le. apply _. Defined.

Definition removable_manifests (connection_id : string) (db : Db) : list (string * ManifestRow) :=
  merge_sort object_id_le (List.filter (fun e => bool_decide (om_connection_id e.2 = connection_id)
    && negb (bool_decide (om_commit_state e.2 = CommitState.Tombstoned)))
    (map_to_list (object_manifests db))).

Definition check_manifest (e : string * ManifestRow) : M unit :=
  match validate (om_manifest e.2) with Ok _ => mret tt | Err m => throw (InvalidManifest m) end.

Definition remove_manifest (job : string) (requested_at : Z) (delete_files : bool) (tombstoned_at : string)
    (e : string * ManifestRow) : M unit :=
  let manifest := (om_manifest e.2) <| commit_state := CommitState.Tombstoned |> in
  (if delete_files then enqueue_manifest_cleanup_at manifest requested_at else mret tt) ;;
  insert_removal_object job e.1 ;;
  modify (fun db => db <| object_manifests ::= alter (fun r =>
    r <| om_commit_state := CommitState.Tombstoned |> <| om_manifest := manifest |>
      <| om_tombstoned_at := Some tombstoned_at |>) e.1 |>) ;;
  delete_markers_of e.1.

(** The stored locations of a job: its checkpoints and those of its attempts. *)
Definition job_locations (job_id : string) (db : Db) : list TelegramLocation :=
  map tc_location (sql_where (fun c => bool_decide (tc_job_id c = job_id)) (transfer_chunks db))
  ++ omap sa_location (sql_where (fun a => bool_decide (sa_job_id a = job_id)) (send_attempts db)).

Definition remove_transfer (job connection_id : string) (requested_at : Z) (delete_files : bool)
    (r : TransferRow) : M unit :=
  insert_or_ignore_removal_object job (tj_object_id r) ;;
  if delete_files then
    insert_or_ignore_target (tj_object_id r) connection_id (evidence_peer (tj_object_id r)) 0
      TargetKind.Evidence requested_at ;;
    locations ← query (job_locations (tj_id r));
    for_each (fun l =>
      if 0 <? message_id l then
        insert_or_ignore_target (tj_object_id r) connection_id (peer_id l) (message_id l)
          TargetKind.Message requested_at
      else mret tt) locations
  else mret tt.

Definition upload_id_le (a b : string * UploadRow) : Prop := text_le a.1 b.1 = true.

#[export] Instance upload_id_le_dec : RelDecision upload_id_le.
Proof. intros a b. unfold upload_id_le. apply _. Defined.

Definition open_uploads (connection_id : string) (db : Db) : list string :=
  map fst (merge_sort upload_id_le (List.filter (fun e =>
    bool_decide (mu_connection_id e.2 = connection_id)
    && negb (one_of (mu_state e.2) [MultipartState.Completed; MultipartState.Aborted]))
    (map_to_list (multipart_uploads db)))).

Definition remove_upload (job connection_id : string) (requested_at : Z) (delete_files : bool)
    (upload : string) : M unit :=
  insert_removal_object job upload ;;
  if delete_files then
    insert_or_ignore_target upload connection_id (evidence_peer upload) 0 TargetKind.Evidence
      requested_at ;;
    parts ← list_multipart_parts upload;
    for_each (fun p =>
      if 0 <? message_id (p_telegram p) then
        insert_or_ignore_target upload connection_id (peer_id (p_telegram p))
          (message_id (p_telegram p)) TargetKind.Message requested_at
      else mret tt) parts
  else mret tt.

(** [DELETE FROM active_objects WHERE object_id IN (SELECT object_id FROM
    object_manifests WHERE connection_id=?1)] *)
Definition owned_by (connection_id : string) (db : Db) (obj : string) : bool :=
  match object_manifests db !! obj with
  | Some m => bool_decide (om_connection_id m = connection_id)
  | None => false
  end.

Definition hide_namespace (connection_id deleted_at : string) : M unit :=
  modify (fun db => db <| active_objects ::= filter (fun '(_, a) =>
    owned_by connection_id db (ao_object_id a) = false) |>) ;;
  modify (fun db => db <| buckets ::= fmap (fun b =>
    if bool_decide (bk_connection_id b = connection_id) && negb (is_some (bk_deleted_at b))
    then b <| bk_deleted_at := Some deleted_at |> else b) |>).

Definition cancel_connection_jobs (connection_id : string) (requested_at : Z) : M Z :=
  update_jobs (fun _ r => bool_decide (tj_connection_id r = connection_id)
      && negb (in_states [JobState.Completed; JobState.Cancelled; JobState.Cleaned] r))
    (fun r => r <| tj_state := JobState.Cancelled |> <| tj_lease := None |> <| tj_lease_until := 0 |>
                <| tj_error := Some "connection removed" |> <| tj_updated_at := requested_at |>).

Definition abort_connection_uploads (connection_id updated_at : string) : M unit := modify (fun db =>
  db <| multipart_uploads ::= fmap (fun u =>
    if bool_decide (mu_connection_id u = connection_id)
       && negb (one_of (mu_state u) [MultipartState.Completed; MultipartState.Aborted])
    then u <| mu_state := MultipartState.Aborted |> <| mu_updated_at := updated_at |> else u) |>).

(** The journal's [updated_at] column receives the integer [requested_at], which
    SQLite stores as its decimal text. *)
Definition cancel_connection_journal (job updated_at : string) : M unit := modify (fun db =>
  db <| operation_journal ::= fmap (fun j =>
    if removal_listed job (oj_object_id j) db && bool_decide (oj_state j = JournalState.Staging)
    then j <| oj_state := JournalState.Cancelled |> <| oj_error := Some "connection removed" |>
           <| oj_updated_at := updated_at |>
    else j) |>).

Definition delete_removed_markers (job : string) : M unit := modify (fun db =>
  db <| recovery_markers ::= filter (fun '(_, m) => removal_listed job (rm_object_id m) db = false) |>).

Definition count_removal_objects (job : string) (requested_at : Z) : M Z :=
  count ← query (fun db => sql_count (fun o => bool_decide (ro_job_id o = job))
                             (connection_removal_objects db));
  modify (fun db => db <| connection_removal_jobs ::= sql_update (fun j => bool_decide (rj_id j = job))
    (fun j => j <| rj_object_count := count |> <| rj_updated_at := requested_at |>) |>) ;;
  mret count.

(** The statements after the loops. *)
Definition close_connection (E : Env) (id connection_id : string) (requested_at : Z) : M Z :=
  hide_namespace connection_id (timestamp_at E 0) ;;
  cancel_connection_jobs connection_id requested_at ;;
  abort_connection_uploads connection_id (timestamp_at E 1) ;;
  cancel_connection_journal id (pretty requested_at) ;;
  delete_removed_markers id ;;
  count_removal_objects id requested_at.

Definition begin_connection_removal (E : Env) (delete_uploaded_files : bool)
    : M ConnectionRemovalJob := transaction (
  connection_id ← query active_connection_id;
  active ← connection_removal_in_progress;
  ensure (negb active) ConnectionRemovalInProgress ;;
  let id := new_v4 E 0 in
  let requested_at := now_at E 0 in
  insert_removal_job {| rj_id := id; rj_connection_id := connection_id;
    rj_delete_uploaded_files := delete_uploaded_files; rj_state := RemovalState.Pending;
    rj_object_count := 0; rj_requested_at := requested_at; rj_updated_at := requested_at;
    rj_completed_at := None; rj_error := None |} ;;
  manifests ← query (removable_manifests connection_id);
  for_each check_manifest manifests ;;
  for_each (fun '(i, e) => remove_manifest id requested_at delete_uploaded_files
              (timestamp_at (under i E) 0) e) (imap pair manifests) ;;
  jobs ← query (fun db => sql_where (fun r => bool_decide (tj_connection_id r = connection_id))
                            (transfer_jobs db));
  for_each (remove_transfer id connection_id requested_at delete_uploaded_files) jobs ;;
  uploads ← query (open_uploads connection_id);
  for_each (remove_upload id connection_id requested_at delete_uploaded_files) uploads ;;
  object_count ← close_connection E id connection_id requested_at;
  mret {| cr_id := id; cr_connection_id := connection_id;
          cr_delete_uploaded_files := delete_uploaded_files; cr_state := RemovalState.Pending;
          cr_object_count := object_count; cr_requested_at := requested_at;
          cr_updated_at := requested_at; cr_completed_at := None; cr_error := None |}).

(** ** Following the removal *)

Definition connection_removal_cleanup_pending (job : string) : M bool := query (fun db =>
  sql_exists (fun o => bool_decide (ro_job_id o = job) &&
    sql_exists (fun c => bool_decide (ct_object_id c = ro_object_id o) && negb (ct_completed c))
      (cleanup_targets db)) (connection_removal_objects db)).

Definition finish_connection_removal (E : Env) (job : string) (state : RemovalState.t)
    (error : option string) : M unit := modify (fun db =>
  db <| connection_removal_jobs ::= sql_update (fun j => bool_decide (rj_id j = job)
      && negb (one_of (rj_state j) [RemovalState.Completed]))
    (fun j => j <| rj_state := state |> <| rj_updated_at := now_at E 0 |>
                <| rj_completed_at ::= (fun c => if bool_decide (state = RemovalState.Completed)
                                                 then Some (now_at E 0) else c) |>
                <| rj_error := error |>) |>).

(** ** Soundness *)

Lemma insert_removal_job_frame {T} (p : Db -> T) row :
  (forall db t, p (db <| connection_removal_jobs ::= t |>) = p db) -> steps (same p) (insert_removal_job row).
Proof. intros H. unfold insert_removal_job. step_through. apply steps_modify. intros db. apply H. Qed.

Lemma insert_removal_object_frame {T} (p : Db -> T) j o :
  (forall db t, p (db <| connection_removal_objects ::= t |>) = p db) -> steps (same p) (insert_removal_object j o).
Proof. intros H. unfold insert_removal_object. step_through. apply steps_modify. intros db. apply H. Qed.

Lemma insert_or_ignore_removal_frame {T} (p : Db -> T) j o :
  (forall db t, p (db <| connection_removal_objects ::= t |>) = p db) ->
  steps (same p) (insert_or_ignore_removal_object j o).
Proof. intros H. unfold insert_or_ignore_removal_object. step_through. apply steps_modify. intros db. apply H. Qed.

Lemma check_manifest_same {T} (p : Db -> T) e : steps (same p) (check_manifest e).
Proof. unfold check_manifest. step_through. Qed.
#[export] Hint Resolve check_manifest_same : preserves.

(** The tables the enqueueing loops over jobs and uploads leave alone. *)
Definition namespace_tables (db : Db) :=
  (object_manifests db, active_objects db, buckets db, transfer_jobs db, transfer_seq db, send_attempts db,
   app_settings db).

Lemma insert_or_ignore_namespace o c q n k due :
  steps (same namespace_tables) (insert_or_ignore_target o c q n k due).
Proof. by apply insert_or_ignore_frame. Qed.

Lemma insert_removal_object_namespace j o : steps (same namespace_tables) (insert_removal_object j o).
Proof. by apply insert_removal_object_frame. Qed.

Lemma insert_or_ignore_removal_namespace j o :
  steps (same namespace_tables) (insert_or_ignore_removal_object j o).
Proof. by apply insert_or_ignore_removal_frame. Qed.
#[export] Hint Resolve insert_or_ignore_namespace insert_removal_object_namespace
  insert_or_ignore_removal_namespace : preserves.

Lemma list_parts_same {T} (p : Db -> T) u : steps (same p) (list_multipart_parts u).
Proof. unfold list_multipart_parts. step_through. Qed.
#[export] Hint Resolve list_parts_same : preserves.

Lemma remove_transfer_namespace j c t f r : steps (same namespace_tables) (remove_transfer j c t f r).
Proof. unfold remove_transfer. step_through. Qed.

Lemma remove_upload_namespace j c t f u : steps (same namespace_tables) (remove_upload j c t f u).
Proof. unfold remove_upload. step_through. Qed.

Lemma remove_manifest_transfers j t f ts e : steps (same transfer_tables) (remove_manifest j t f ts e).
Proof.
  unfold remove_manifest, insert_removal_object, add_removal_object. frame_through.
Qed.
#[export] Hint Resolve remove_transfer_namespace remove_upload_namespace remove_manifest_transfers : preserves.

Lemma steps_same_weaken {T U} (p : Db -> T) (q : Db -> U) {A} (m : M A) :
  (forall d d', p d' = p d -> q d' = q d) -> steps (same p) m -> steps (same q) m.
Proof. intros H Hs db. apply H, Hs. Qed.

Lemma begin_connection_removal_sound E f : steps sound (begin_connection_removal E f).
Proof.
  unfold begin_connection_removal, close_connection, connection_removal_in_progress, hide_namespace,
    count_removal_objects.
  step_through; try (apply steps_sound_same; frame_through; fail).
  unfold cancel_connection_jobs. apply update_jobs_sound. intros db r _ _ Hp. settle_step.
Qed.

Lemma finish_connection_removal_sound E j s e : steps sound (finish_connection_removal E j s e).
Proof. apply steps_sound_same. by apply steps_modify. Qed.
#[export] Hint Resolve begin_connection_removal_sound finish_connection_removal_sound : preserves.

(** ** The namespace is gone *)

(** Manifest rows keep their owner, and a tombstone stays. *)
Definition tombstoning (db db' : Db) : Prop :=
  forall o r', object_manifests db' !! o = Some r' ->
    exists r, object_manifests db !! o = Some r /\ om_connection_id r' = om_connection_id r /\
      (om_commit_state r = CommitState.Tombstoned -> om_commit_state r' = CommitState.Tombstoned).

#[local] Instance tombstoning_preorder : PreOrder tombstoning.
Proof.
  split.
  - intros db o r Hr. by exists r.
  - intros d1 d2 d3 H12 H23 o r3 H3. destruct (H23 o r3 H3) as (r2 & H2 & C2 & T2).
    destruct (H12 o r2 H2) as (r1 & H1 & C1 & T1). exists r1. split_and!; [done|congruence|auto].
Qed.

Lemma tombstoning_same {A} (m : M A) : steps (same object_manifests) m -> steps tombstoning m.
Proof. intros H db o r' Hr. rewrite (H db) in Hr. by exists r'. Qed.

Definition tombstoned (o : string) (db : Db) : Prop :=
  forall r, object_manifests db !! o = Some r -> om_commit_state r = CommitState.Tombstoned.

Lemma enqueue_manifests_same m due : steps (same object_manifests) (enqueue_manifest_cleanup_at m due).
Proof.
  eapply (steps_same_weaken store_tables); [|apply enqueue_manifest_store].
  by intros d d' [= ? ? ? ? ?].
Qed.

Lemma remove_manifest_tombstoning j t f ts e : steps tombstoning (remove_manifest j t f ts e).
Proof.
  unfold remove_manifest. apply (steps_bind _).
  { apply tombstoning_same. destruct f; [apply enqueue_manifests_same|step_through]. }
  intros _. apply (steps_bind _); [apply tombstoning_same; by apply insert_removal_object_frame|intros _].
  apply (steps_bind _); [|intros _; apply tombstoning_same; by apply steps_modify].
  apply steps_modify. intros db o r' Hr'. simpl in Hr'. rewrite lookup_alter in Hr'.
  case_decide; [|by exists r']. apply fmap_Some in Hr' as (r & Hr & ->). subst. by exists r.
Qed.

Lemma remove_manifest_tombstoned j t f ts e db u db' :
  remove_manifest j t f ts e db = (Ok u, db') -> tombstoned e.1 db'.
Proof.
  unfold remove_manifest. intros H r Hr. apply bind_ok in H as (u1 & d1 & _ & H).
  apply bind_ok in H as (u2 & d2 & _ & H). apply (f_equal snd) in H. cbn in H. subst db'. simpl in Hr.
  rewrite lookup_alter, decide_True in Hr by done. by apply fmap_Some in Hr as (x & _ & ->).
Qed.

Lemma tombstoned_kept o db db' : tombstoning db db' -> tombstoned o db -> tombstoned o db'.
Proof. intros H Ht r' Hr'. destruct (H o r' Hr') as (r & Hr & _ & Hk). auto. Qed.

Lemma remove_manifest_covered j t ts e db u db' :
  remove_manifest j t true ts e db = (Ok u, db') ->
  manifest_covered ((om_manifest e.2) <| commit_state := CommitState.Tombstoned |>) (cleanup_targets db').
Proof.
  unfold remove_manifest. intros H. apply bind_ok in H as (u1 & d1 & He & H).
  destruct (enqueue_manifest_cleanup_at_covered ((om_manifest e.2) <| commit_state := CommitState.Tombstoned |>)
              t db) as (d & Hd & _ & Hc). assert (d = d1) as -> by congruence.
  apply bind_ok in H as (u2 & d2 & Hi & H). apply (f_equal snd) in H. cbn in H. subst db'. simpl.
  assert (steps (same cleanup_targets) (insert_removal_object j e.1)) as Hs by (by apply insert_removal_object_frame).
  by rewrite (steps_same _ _ _ _ _ Hs Hi).
Qed.

Lemma manifest_covered_mono m t t' :
  (forall r, In r t -> In r t') -> manifest_covered m t -> manifest_covered m t'.
Proof.
  intros Hsub [H1 H2 H3].
  assert (forall p, sql_exists p t = true -> sql_exists p t' = true) as Hm.
  { intros p. rewrite !sql_exists_true. intros (r & Hr & Hp). eauto. }
  split; eauto.
Qed.

(** Outbox rows are only added. *)
Definition outbox_grows (db db' : Db) : Prop :=
  forall r, In r (cleanup_targets db) -> In r (cleanup_targets db').

#[local] Instance outbox_grows_preorder : PreOrder outbox_grows.
Proof. split; unfold outbox_grows; auto. Qed.

Lemma insert_or_ignore_grows o c q n k due : steps outbox_grows (insert_or_ignore_target o c q n k due).
Proof. intros db r Hr. by apply insert_or_ignore_keeps. Qed.

Lemma grows_same {A} (m : M A) : steps (same cleanup_targets) m -> steps outbox_grows m.
Proof. intros H db r Hr. by rewrite (H db). Qed.

Lemma insert_removal_object_grows j o : steps outbox_grows (insert_removal_object j o).
Proof. apply grows_same. by apply insert_removal_object_frame. Qed.

Lemma insert_or_ignore_removal_grows j o : steps outbox_grows (insert_or_ignore_removal_object j o).
Proof. apply grows_same. by apply insert_or_ignore_removal_frame. Qed.

Lemma list_parts_grows u : steps outbox_grows (list_multipart_parts u).
Proof. apply grows_same, list_parts_same. Qed.
#[local] Hint Resolve insert_or_ignore_grows insert_removal_object_grows insert_or_ignore_removal_grows
  list_parts_grows : preserves.

Lemma remove_manifest_grows j t f ts e : steps outbox_grows (remove_manifest j t f ts e).
Proof.
  unfold remove_manifest, enqueue_manifest_cleanup_at. step_through;
    apply grows_same; by apply steps_modify.
Qed.

Lemma remove_transfer_grows j c t f r : steps outbox_grows (remove_transfer j c t f r).
Proof. unfold remove_transfer. step_through. Qed.

Lemma remove_upload_grows j c t f u : steps outbox_grows (remove_upload j c t f u).
Proof. unfold remove_upload. step_through. Qed.

Lemma In_removable c db o r :
  In (o, r) (removable_manifests c db) <->
  object_manifests db !! o = Some r /\ om_connection_id r = c /\ om_commit_state r <> CommitState.Tombstoned.
Proof.
  unfold removable_manifests. rewrite <- list_elem_of_In, merge_sort_Permutation, list_elem_of_In, filter_In.
  rewrite <- list_elem_of_In, elem_of_map_to_list. simpl. split.
  - intros [Hr Hp]. bool_hyps. done.
  - intros (Hr & Hc & Ht). split; [done|]. by rewrite bool_decide_eq_true_2, bool_decide_eq_false_2.
Qed.

(** What the loop over the connection's manifests leaves behind. *)
Lemma remove_manifests_loop E job t f c db0 db u db' :
  object_manifests db = object_manifests db0 ->
  for_each (fun '(i, e) => remove_manifest job t f (timestamp_at (under i E) 0) e)
    (imap pair (removable_manifests c db0)) db = (Ok u, db') ->
  (forall o r, object_manifests db' !! o = Some r -> om_connection_id r = c ->
     om_commit_state r = CommitState.Tombstoned) /\
  (f = true -> forall o r, In (o, r) (removable_manifests c db0) ->
     manifest_covered ((om_manifest r) <| commit_state := CommitState.Tombstoned |>) (cleanup_targets db')).
Proof.
  intros Hm0 H. set (g := fun '(i, e) => remove_manifest job t f (timestamp_at (under i E) 0) e) in H.
  assert (steps tombstoning (for_each g (imap pair (removable_manifests c db0)))) as Hts.
  { apply (steps_for_each _). intros [i e] _. apply remove_manifest_tombstoning. }
  specialize (Hts db). rewrite H in Hts. simpl in Hts. split.
  - intros o r' Hr' Hc. destruct (Hts o r' Hr') as (r & Hr & Hconn & Hk).
    destruct (decide (om_commit_state r = CommitState.Tombstoned)) as [|Hn]; [auto|].
    assert (In (o, r) (removable_manifests c db0)) as Hin.
    { apply In_removable. rewrite <- Hm0. split_and!; [done|congruence|done]. }
    apply In_imap_pair in Hin as [i Hi].
    refine (for_each_establishes (fun '(_, e) db => tombstoned e.1 db) g _ _ _ _ _ _ H (i, (o, r)) Hi r' Hr').
    + intros [k e] d v d' _ Hd. by eapply remove_manifest_tombstoned.
    + intros [k e] [k2 e2] _ _ d. apply tombstoned_kept, remove_manifest_tombstoning.
  - intros -> o r Hin. apply In_imap_pair in Hin as [i Hi].
    refine (for_each_establishes (fun '(_, e) db => manifest_covered
      ((om_manifest e.2) <| commit_state := CommitState.Tombstoned |>) (cleanup_targets db)) g _ _ _ _ _ _ H
      (i, (o, r)) Hi).
    + intros [k e] d v d' _ Hd. by eapply remove_manifest_covered.
    + intros [k e] [k2 e2] _ _ d. apply manifest_covered_mono, remove_manifest_grows.
Qed.

(** What the closing statements leave behind. *)
Lemma close_connection_effect E id c t db n db' :
  close_connection E id c t db = (Ok n, db') ->
  object_manifests db' = object_manifests db /\ cleanup_targets db' = cleanup_targets db /\
  (forall key a, active_objects db' !! key = Some a -> owned_by c db (ao_object_id a) = false) /\
  (forall k b, buckets db' !! k = Some b -> bk_connection_id b = c -> bk_deleted_at b <> None) /\
  (forall r, In r (transfer_jobs db') -> tj_connection_id r = c -> in_states settled r = true).
Proof.
  intros H. apply (f_equal snd) in H. cbn [snd] in H. rewrite <- H. clear H.
  split; [reflexivity|]. split; [reflexivity|]. split_and!.
  - intros key a Ha. by apply map_lookup_filter_Some in Ha as [_ Ha].
  - intros k b Hb Hc. change (buckets _) with ((fun b => if bool_decide (bk_connection_id b = c)
      && negb (is_some (bk_deleted_at b)) then b <| bk_deleted_at := Some (timestamp_at E 0) |> else b)
      <$> buckets db) in Hb. rewrite lookup_fmap in Hb. apply fmap_Some in Hb as (x & _ & ->).
    destruct (bool_decide (bk_connection_id x = c) && _) eqn:Eb; [done|].
    rewrite bool_decide_eq_true_2 in Eb by done. simpl in Eb. by destruct (bk_deleted_at x).
  - intros r Hr Hc. apply In_sql_update in Hr as (x & Hx & ->).
    destruct (bool_decide (tj_connection_id x = c) && _) eqn:Ex; [done|].
    rewrite bool_decide_eq_true_2 in Ex by done. unfold in_states in *. by destruct (tj_state x).
Qed.

(** The loops over the jobs and the uploads leave the manifests alone and only
    add to the outbox. *)
Lemma remove_rest_frame job c requested delete_files (js : list TransferRow) (us : list string)
    d3 u5 d4 u6 d5 :
  for_each (remove_transfer job c requested delete_files) js d3 = (Ok u5, d4) ->
  for_each (remove_upload job c requested delete_files) us d4 = (Ok u6, d5) ->
  object_manifests d5 = object_manifests d3 /\ outbox_grows d3 d5.
Proof.
  intros Hjobs Hups.
  assert (steps outbox_grows (for_each (remove_transfer job c requested delete_files) js)) as Hs1
    by (apply (steps_for_each _); intros; apply remove_transfer_grows).
  assert (steps outbox_grows (for_each (remove_upload job c requested delete_files) us)) as Hs2
    by (apply (steps_for_each _); intros; apply remove_upload_grows).
  assert (same namespace_tables d3 d4) as [= Om4 _ _ _ _ _ _].
  { eapply steps_same; [|exact Hjobs]. apply (steps_for_each _). intros; apply remove_transfer_namespace. }
  assert (same namespace_tables d4 d5) as [= Om5 _ _ _ _ _ _].
  { eapply steps_same; [|exact Hups]. apply (steps_for_each _). intros; apply remove_upload_namespace. }
  split; [congruence|]. specialize (Hs1 d3). specialize (Hs2 d4).
  rewrite Hjobs in Hs1. rewrite Hups in Hs2. by transitivity d4.
Qed.

(** removing a connection hides it completely and at once.  When
    [begin_connection_removal] succeeds, no other removal was in progress; every
    version of the connection is tombstoned, none of its objects is active, all
    its buckets are deleted and every transfer job of it is settled, so nothing
    can be published into it any more; and when the uploaded files are to go
    too, every Telegram message of every version that was still live is queued
    for cleanup.  A refused removal changes nothing. *)
Theorem connection_removal_hides (E : Env) (delete_files : bool) (db : Db) :
  let c := active_connection_id db in
  match begin_connection_removal E delete_files db with
  | (Err _, db') => db' = db
  | (Ok job, db') =>
      cr_connection_id job = c /\ connection_removal_in_progress db = (Ok false, db) /\
      (forall o m, object_manifests db' !! o = Some m -> om_connection_id m = c ->
         om_commit_state m = CommitState.Tombstoned) /\
      (forall key a m, active_objects db' !! key = Some a ->
         object_manifests db' !! ao_object_id a = Some m -> om_connection_id m <> c) /\
      (forall n b, buckets db' !! n = Some b -> bk_connection_id b = c -> bk_deleted_at b <> None) /\
      (forall r, In r (transfer_jobs db') -> tj_connection_id r = c -> in_states settled r = true) /\
      (delete_files = true -> forall o m, object_manifests db !! o = Some m -> om_connection_id m = c ->
         om_commit_state m <> CommitState.Tombstoned ->
         manifest_covered ((om_manifest m) <| commit_state := CommitState.Tombstoned |>) (cleanup_targets db'))
  end.
Proof.
  intros c. destruct (begin_connection_removal E delete_files db) as [[job|e] db'] eqn:H;
    [|by apply transaction_err in H].
  unfold begin_connection_removal in H. rewrite transaction_ok in H.
  peel H conn Hconn. injection Hconn as <-. fold c in H.
  unfold connection_removal_in_progress in H. peel H act Hact. injection Hact as <-.
  peel H u1 Hu1. apply ensure_ok in Hu1 as [Hfree _]. apply negb_true_iff in Hfree.
  apply bind_ok in H as (u2 & d1 & Hins & H).
  assert (object_manifests d1 = object_manifests db) as Hm1.
  { eapply steps_same; [|exact Hins]. by apply insert_removal_job_frame. }
  apply bind_ok in H as (ms & d1' & Hq & H). injection Hq as <- <-.
  apply bind_ok in H as (u3 & d2 & Hchk & H).
  assert (d2 = d1) as -> by (eapply reads_inv; [|exact Hchk]; apply (steps_for_each _); intros x _;
    unfold check_manifest; step_through).
  apply bind_ok in H as (u4 & d3 & Hloop & H).
  pose proof (remove_manifests_loop E _ _ _ c d1 d1 _ d3 eq_refl Hloop) as [Htomb Hcov].
  apply bind_ok in H as (js & d3' & Hq & H). injection Hq as <- <-.
  apply bind_ok in H as (u5 & d4 & Hjobs & H).
  apply bind_ok in H as (us & d4' & Hq & H). injection Hq as <- <-.
  apply bind_ok in H as (u6 & d5 & Hups & H).
  destruct (remove_rest_frame _ _ _ _ _ _ _ _ _ _ _ Hjobs Hups) as [Om5 Hgrow].
  apply bind_ok in H as (n & d6 & Hclose & H). injection H as <- <-.
  apply close_connection_effect in Hclose as (Om6 & Ct6 & Ha6 & Hb6 & Hj6).
  split; [done|]. split; [unfold connection_removal_in_progress, query; do 2 f_equal; exact Hfree|].
  split_and!; [| |exact Hb6|exact Hj6|].
  - intros o m Hm. rewrite Om6, Om5 in Hm. by apply (Htomb o).
  - intros key a m Ha Hm Hc. apply Ha6 in Ha. unfold owned_by in Ha. rewrite <- Om6, Hm in Ha.
    by rewrite bool_decide_eq_true_2 in Ha.
  - intros Hf o m Hm Hc Hn. rewrite Ct6. eapply manifest_covered_mono; [exact Hgrow|]. apply (Hcov Hf o).
    apply In_removable. by rewrite Hm1.
Qed.
