(* ===== verification/Requests.v ===== *)
(** * S3 requests ([src/src/s3_server.rs])

    What the request handlers decide before and around the store: byte ranges,
    expiry headers, conditional requests, copy sources and the S3 error an
    internal error becomes.  The theorems: an accepted range always lies within
    the object and the printed forms of a range mean what HTTP says they mean;
    the conditions checked at request time are the ones the store checks again
    at commit time. *)

From stdpp Require Import pretty.
From Stdlib Require Import Strings.Ascii.
From S2P Require Import Prelude Errors Manifest Schema ManifestStore.

(** ** Errors *)

Module S3ErrorCode.
Inductive t : Type :=
| BucketAlreadyOwnedByYou | BucketNotEmpty | EntityTooLarge | InternalError | InvalidArgument
| InvalidBucketName | InvalidPart | InvalidRange | NoSuchBucket | NoSuchKey | NoSuchUpload
| NotModified | PreconditionFailed.

#[export] Instance t_eq_dec : EqDecision t.
Proof. solve_decision. Defined.
End S3ErrorCode.
Export (hints) S3ErrorCode.

Record S3Error : Type := {
  s3_code : S3ErrorCode.t;
  s3_message : string
}.

Definition s3_error (c : S3ErrorCode.t) (m : string) : S3Error :=
  {| s3_code := c; s3_message := m |}.

Definition map_object_error (error : ObjectFormatError.t) : S3Error :=
  match error with
  | ObjectFormatError.Metadata (BucketNotFound b) => s3_error S3ErrorCode.NoSuchBucket b
  | ObjectFormatError.Metadata (BucketAlreadyExists b) =>
      s3_error S3ErrorCode.BucketAlreadyOwnedByYou b
  | ObjectFormatError.InvalidBucketName m => s3_error S3ErrorCode.InvalidBucketName m
  | ObjectFormatError.Metadata (BucketNotEmpty b) => s3_error S3ErrorCode.BucketNotEmpty b
  | ObjectFormatError.Metadata (ManifestNotFound _) =>
      s3_error S3ErrorCode.NoSuchKey "object does not exist"
  | ObjectFormatError.Metadata (PreconditionFailed m) =>
      s3_error S3ErrorCode.PreconditionFailed m
  | ObjectFormatError.Metadata (QuotaExceeded m) => s3_error S3ErrorCode.EntityTooLarge m
  | other => s3_error S3ErrorCode.InternalError (ObjectFormatError.to_string other)
  end.

(** ** Headers

    [HeaderValue::to_str] succeeds on visible ASCII and tabs only. *)
Abbreviation HeaderMap := (gmap string string) (only parsing).

Definition visible (c : Ascii.ascii) : bool :=
  let n := Ascii.N_of_ascii c in ((32 <=? n) && (n <=? 126) || (n =? 9))%N.

Fixpoint all_visible (s : string) : bool :=
  match s with EmptyString => true | String c s' => visible c && all_visible s' end.

Definition header (headers : HeaderMap) (name : string) : option string :=
  match headers !! name with
  | Some value => if all_visible value then Some value else None
  | None => None
  end.

(** [str::split_once] *)
Fixpoint split_once (sep : Ascii.ascii) (s : string) : option (string * string) :=
  match s with
  | EmptyString => None
  | String c s' =>
      if Ascii.eqb c sep then Some (EmptyString, s')
      else match split_once sep s' with
           | Some (a, b) => Some (String c a, b)
           | None => None
           end
  end.

(** ** Byte ranges

    [x + 1] on a [u64] wraps around in a release build. *)
Definition u64_add_one (n : Z) : Z := (n + 1) mod (U64_MAX + 1).

Definition invalid_range {A} (m : string) : Result A S3Error :=
  Err (s3_error S3ErrorCode.InvalidRange m).

Definition content_range_text (start stop content_length : Z) : string :=
  "bytes " +:+ pretty start +:+ "-" +:+ pretty (u64_saturating_sub stop 1) +:+ "/"
  +:+ pretty content_length.

Definition object_range (headers : HeaderMap) (content_length : Z)
    : Result ((Z * Z) * option string) S3Error :=
  match header headers "range" with
  | None => Ok ((0, content_length), None)
  | Some range_header =>
      match strip_prefix "bytes=" range_header with
      | None => invalid_range "unsupported range header"
      | Some value =>
          match split_once "-"%char value with
          | None => invalid_range "unsupported range header"
          | Some (start, stop) =>
              if is_empty start then
                match parse_u64 stop with
                | None => invalid_range "invalid suffix range"
                | Some suffix_len =>
                    let first := u64_saturating_sub content_length suffix_len in
                    Ok ((first, content_length),
                        Some (content_range_text first content_length content_length))
                end
              else
                match parse_u64 start with
                | None => invalid_range "invalid range start"
                | Some first =>
                    let last := if is_empty stop then Some content_length
                                else match parse_u64 stop with
                                     | Some n => Some (u64_add_one n)
                                     | None => None
                                     end in
                    match last with
                    | None => invalid_range "invalid range end"
                    | Some last =>
                        if (last <? first) || (content_length <? last)
                        then invalid_range "requested range is invalid"
                        else Ok ((first, last),
                                 Some (content_range_text first last content_length))
                    end
                end
          end
      end
  end.

Definition parse_byte_range (value : string) (content_length : Z) : Result (Z * Z) S3Error :=
  match strip_prefix "bytes=" value with
  | None => invalid_range "unsupported range header"
  | Some value =>
      match split_once "-"%char value with
      | None => invalid_range "invalid range header"
      | Some (start, stop) =>
          match parse_u64 start with
          | None => invalid_range "invalid range start"
          | Some first =>
              let last := if is_empty stop then Some content_length
                          else match parse_u64 stop with
                               | Some n => Some (u64_add_one n)
                               | None => None
                               end in
              match last with
              | None => invalid_range "invalid range end"
              | Some last =>
                  if (last <? first) || (content_length <? last)
                  then invalid_range "requested range is invalid"
                  else Ok (first, last)
              end
          end
      end
  end.

(** ** Expiry headers

    [now + Duration::seconds(n)] panics when the result is later than the last
    instant the [time] crate represents; [None] is that panic. *)
Definition EXPIRY_AT_HEADER : string := "x-amz-meta-telegram-s3-expires-at".
Definition EXPIRY_IN_HEADER : string := "x-amz-meta-telegram-s3-expires-in".

Definition invalid_argument {A} (m : string) : Result A S3Error :=
  Err (s3_error S3ErrorCode.InvalidArgument m).

Section Expiry.
Context (parse_rfc3339 : string -> option OffsetDateTime).
Context (last_instant : OffsetDateTime).

Definition add_seconds (now : OffsetDateTime) (seconds : Z) : option OffsetDateTime :=
  let t := now + seconds * 1000000000 in
  if t <=? last_instant then Some t else None.

Definition in_the_future (now expires_at : OffsetDateTime) : Result (option OffsetDateTime) S3Error :=
  if expires_at <=? now then invalid_argument "object expiry must be in the future"
  else Ok (Some expires_at).

Definition parse_expiry_headers (now : OffsetDateTime) (headers : HeaderMap)
    : option (Result (option OffsetDateTime) S3Error) :=
  match header headers EXPIRY_AT_HEADER, header headers EXPIRY_IN_HEADER with
  | Some _, Some _ =>
      Some (invalid_argument "set only one of x-amz-meta-telegram-s3-expires-at and x-amz-meta-telegram-s3-expires-in")
  | Some value, None =>
      Some match parse_rfc3339 value with
           | None => invalid_argument "invalid object expiry timestamp"
           | Some t => in_the_future now t
           end
  | None, Some value =>
      match parse_i64 value with
      | None => Some (invalid_argument "invalid object expiry seconds")
      | Some seconds =>
          if seconds <=? 0 then Some (invalid_argument "object expiry seconds must be positive")
          else match add_seconds now seconds with
               | None => None
               | Some t => Some (in_the_future now t)
               end
      end
  | None, None => Some (Ok None)
  end.
End Expiry.

(** ** Conditional requests *)

Definition failed {A} (m : string) : Result A S3Error :=
  Err (s3_error S3ErrorCode.PreconditionFailed m).

Definition not_modified {A} : Result A S3Error :=
  Err (s3_error S3ErrorCode.NotModified "object not modified").

Definition enforce_read_conditionals (if_match if_none_match : option ETagCondition)
    (if_modified_since if_unmodified_since : option OffsetDateTime) (manifest : ObjectManifest)
    : Result unit S3Error :=
  let current_etag := whole_object (m_checksum manifest) in
  match if_match with
  | Some condition =>
      if negb (etag_condition_matches condition current_etag)
      then failed "if-match precondition failed" else Ok tt
  | None =>
      if match if_unmodified_since with
         | Some since => since <? created_at manifest
         | None => false
         end
      then failed "if-unmodified-since precondition failed"
      else if match if_none_match with
              | Some condition => etag_condition_matches condition current_etag
              | None => false
              end
      then not_modified
      else match if_modified_since with
           | Some since => if created_at manifest <=? since then not_modified else Ok tt
           | None => Ok tt
           end
  end.

Definition enforce_write_conditionals (if_match if_none_match : option ETagCondition)
    (current_manifest : option ObjectManifest) : Result unit S3Error :=
  match current_manifest with
  | None => if is_some if_match then failed "if-match precondition failed" else Ok tt
  | Some manifest =>
      let current_etag := whole_object (m_checksum manifest) in
      match if_match with
      | Some condition =>
          if negb (etag_condition_matches condition current_etag)
          then failed "if-match precondition failed" else Ok tt
      | None =>
          match if_none_match with
          | Some condition =>
              if etag_condition_matches condition current_etag
              then failed "if-none-match precondition failed" else Ok tt
          | None => Ok tt
          end
      end
  end.

(** [ETagCondition::to_http_header] of the [s3s] crate, as text. *)
Definition write_conditionals_snapshot (to_http_header : ETagCondition -> string)
    (if_match if_none_match : option ETagCondition) : option TransferWriteConditionals :=
  match if_match, if_none_match with
  | None, None => None
  | _, _ => Some {| if_match := to_http_header <$> if_match;
                    if_none_match := to_http_header <$> if_none_match |}
  end.

Definition enforce_copy_source_conditionals (if_match if_none_match : option ETagCondition)
    (if_modified_since if_unmodified_since : option OffsetDateTime) (manifest : ObjectManifest)
    : Result unit S3Error :=
  let current_etag := whole_object (m_checksum manifest) in
  match if_match with
  | Some condition =>
      if negb (etag_condition_matches condition current_etag)
      then failed "copy-source if-match precondition failed" else Ok tt
  | None =>
      if match if_unmodified_since with
         | Some since => since <? created_at manifest
         | None => false
         end
      then failed "copy-source if-unmodified-since precondition failed"
      else if match if_none_match with
              | Some condition => etag_condition_matches condition current_etag
              | None => false
              end
      then failed "copy-source if-none-match precondition failed"
      else match if_modified_since with
           | Some since =>
               if created_at manifest <=? since
               then failed "copy-source if-modified-since precondition failed" else Ok tt
           | None => Ok tt
           end
  end.

Definition enforce_delete_conditionals (c : DeleteConditionals) (manifest : ObjectManifest)
    : Result unit S3Error :=
  let current_etag := whole_object (m_checksum manifest) in
  if match d_if_match c with
     | Some condition => negb (etag_condition_matches condition current_etag)
     | None => false
     end
  then failed "if-match precondition failed"
  else if match d_if_match_last_modified_time c with
          | Some expected => negb (created_at manifest =? expected)
          | None => false
          end
  then failed "if-match-last-modified-time precondition failed"
  else if match d_if_match_size c with
          | Some size => negb (u64_as_i64 (content_length manifest) =? size)
          | None => false
          end
  then failed "if-match-size precondition failed"
  else Ok tt.

(** ** Numbers in headers *)

Lemma parse_digits_nonneg s acc n : 0 <= acc -> parse_digits acc s = Some n -> 0 <= n.
Proof.
  revert acc. induction s as [|c s IH]; intros acc Ha; cbn; [by intros [= <-]|].
  destruct (digit_value c) as [d|] eqn:Ed; [|done]. apply IH. unfold digit_value in Ed.
  repeat case_match; simplify_eq; bool_hyps; lia.
Qed.

Lemma parse_u64_range s n : parse_u64 s = Some n -> is_u64 n.
Proof.
  unfold parse_u64, parse_magnitude. repeat case_match; intros; simplify_eq; bool_hyps;
    split; try lia; by eapply parse_digits_nonneg; [|eassumption].
Qed.

Lemma digit_value_pretty (d : N) : (d < 10)%N -> digit_value (pretty_N_char d) = Some (Z.of_N d).
Proof.
  intros H. do 10 (destruct d as [|d] using N.peano_ind; [reflexivity|clear IHd]). lia.
Qed.

Lemma parse_digits_pretty (x : N) s : parse_digits 0 (pretty_N_go x s) = parse_digits (Z.of_N x) s.
Proof.
  revert s. induction (N.lt_wf_0 x) as [x _ IH]. intros s.
  destruct (decide (x = 0%N)) as [->|Hx]; [by rewrite pretty_N_go_0|].
  rewrite pretty_N_go_step by lia. rewrite IH by (apply N.div_lt; lia).
  cbn [parse_digits]. rewrite digit_value_pretty by (apply N.mod_lt; lia).
  f_equal. pose proof (N.div_mod x 10). lia.
Qed.

Lemma pretty_N_head (x : N) s :
  (0 < x)%N -> exists c r, pretty_N_go x s = String c r /\ is_Some (digit_value c).
Proof.
  revert s. induction (N.lt_wf_0 x) as [x _ IH]. intros s Hx. rewrite pretty_N_go_step by lia.
  destruct (decide (x / 10 = 0)%N) as [->|Hd].
  - rewrite pretty_N_go_0. eexists _, _. split; [done|].
    rewrite digit_value_pretty; [done|]. apply N.mod_lt. lia.
  - apply IH; [apply N.div_lt; lia|]. apply N.neq_0_lt_0. exact Hd.
Qed.

(** A printed number starts with a digit and reads back. *)
Lemma pretty_head (n : Z) :
  0 <= n -> exists c r, pretty n = String c r /\ is_Some (digit_value c).
Proof.
  intros Hn. destruct n as [|p|p]; [by eexists _, _| |lia].
  change (pretty (Z.pos p)) with (pretty_N_go (N.pos p) ""). by apply pretty_N_head.
Qed.

Lemma parse_u64_pretty (n : Z) : is_u64 n -> parse_u64 (pretty n) = Some n.
Proof.
  intros [Hn Hm]. assert (parse_magnitude (pretty n) = Some n) as Hp.
  { destruct n as [|p|p]; [reflexivity| |lia].
    change (pretty (Z.pos p)) with (pretty_N_go (N.pos p) "").
    destruct (pretty_N_head (N.pos p) "" eq_refl) as (c & r & He & _).
    unfold parse_magnitude. rewrite He. cbn [is_empty]. rewrite <- He.
    by rewrite parse_digits_pretty. }
  destruct (pretty_head n Hn) as (c & r & He & Hd). unfold parse_u64.
  assert (match pretty n with String "+"%char r => r | _ => pretty n end = pretty n) as ->.
  { rewrite He. destruct c as [[] [] [] [] [] [] [] []]; try reflexivity.
    destruct Hd as [d Hd]. discriminate Hd. }
  rewrite Hp. by rewrite (proj2 (Z.leb_le _ _) Hm).
Qed.

Lemma split_once_digits (s t : string) :
  (forall a b, split_once "-"%char s <> Some (a, b)) ->
  split_once "-"%char (s +:+ String "-"%char t) = Some (s, t).
Proof.
  induction s as [|c s IH]; intros H; [reflexivity|]. rewrite append_cons. cbn [split_once] in *.
  destruct (Ascii.eqb c "-"%char); [by destruct (H "" s)|].
  rewrite IH; [done|]. intros a b Hs. destruct (H (String c a) b). by rewrite Hs.
Qed.

Lemma pretty_N_no_dash (x : N) s :
  split_once "-"%char s = None -> split_once "-"%char (pretty_N_go x s) = None.
Proof.
  revert s. induction (N.lt_wf_0 x) as [x _ IH]. intros s Hs.
  destruct (decide (x = 0%N)) as [->|Hx]; [by rewrite pretty_N_go_0|].
  rewrite pretty_N_go_step by lia. apply IH; [apply N.div_lt; lia|].
  cbn [split_once]. destruct (Ascii.eqb_spec (pretty_N_char (x mod 10)) "-"%char) as [He|_].
  - pose proof (digit_value_pretty (x mod 10)%N ltac:(apply N.mod_lt; lia)) as Hd.
    rewrite He in Hd. discriminate Hd.
  - by rewrite Hs.
Qed.

Lemma pretty_no_dash (n : Z) : 0 <= n -> split_once "-"%char (pretty n) = None.
Proof.
  intros Hn. destruct n as [|p|p]; [reflexivity| |lia].
  change (pretty (Z.pos p)) with (pretty_N_go (N.pos p) ""). by apply pretty_N_no_dash.
Qed.

Lemma pretty_nonempty (n : Z) : 0 <= n -> is_empty (pretty n) = false.
Proof. intros Hn. by destruct (pretty_head n Hn) as (c & r & -> & _). Qed.

(** ** Ranges *)

Lemma u64_add_one_range n : is_u64 n -> is_u64 (u64_add_one n).
Proof.
  intros _. unfold u64_add_one, is_u64. pose proof (Z.mod_pos_bound (n + 1) (U64_MAX + 1) ltac:(done)). lia.
Qed.

(** an accepted range lies within the object: whatever the header says, the
    handler reads [start, stop) with [0 <= start <= stop <= content_length], so
    the announced length is its size and never underflows. *)
Theorem object_range_within (headers : HeaderMap) (cl start stop : Z) (text : option string)
    (Hcl : is_u64 cl) (H : object_range headers cl = Ok ((start, stop), text)) :
  0 <= start <= stop /\ stop <= cl.
Proof.
  unfold object_range, invalid_range in H. unfold is_u64 in Hcl.
  repeat case_match; simplify_eq; bool_hyps; unfold u64_saturating_sub;
    repeat match goal with Hp : parse_u64 _ = Some _ |- _ => apply parse_u64_range in Hp end;
    unfold is_u64 in *; try lia.
Qed.

Lemma all_visible_app s t : all_visible (s +:+ t) = all_visible s && all_visible t.
Proof. induction s as [|c s IH]; [done|]. rewrite append_cons. cbn. by rewrite IH, andb_assoc. Qed.

Lemma all_visible_pretty_N (x : N) s : all_visible s = true -> all_visible (pretty_N_go x s) = true.
Proof.
  revert s. induction (N.lt_wf_0 x) as [x _ IH]. intros s Hs.
  destruct (decide (x = 0%N)) as [->|Hx]; [by rewrite pretty_N_go_0|].
  rewrite pretty_N_go_step by lia. apply IH; [apply N.div_lt; lia|].
  cbn [all_visible]. rewrite Hs, andb_true_r.
  pose proof (digit_value_pretty (x mod 10)%N ltac:(apply N.mod_lt; lia)) as Hd.
  unfold digit_value in Hd. case_match; [|done]. bool_hyps. unfold visible.
  apply orb_true_iff. left. apply andb_true_iff. split; apply N.leb_le; lia.
Qed.

Lemma all_visible_pretty (n : Z) : 0 <= n -> all_visible (pretty n) = true.
Proof.
  intros Hn. destruct n as [|p|p]; [reflexivity| |lia].
  change (pretty (Z.pos p)) with (pretty_N_go (N.pos p) ""). by apply all_visible_pretty_N.
Qed.

Definition range_header (value : string) : HeaderMap := {[ "range" := "bytes=" +:+ value ]}.

Lemma header_range value : all_visible value = true ->
  header (range_header value) "range" = Some ("bytes=" +:+ value).
Proof.
  intros H. unfold header, range_header. rewrite lookup_singleton_eq, all_visible_app, H. reflexivity.
Qed.

Lemma object_range_value value cl a b :
  all_visible value = true -> split_once "-"%char value = Some (a, b) ->
  object_range (range_header value) cl =
  if is_empty a then
    match parse_u64 b with
    | None => invalid_range "invalid suffix range"
    | Some n => let first := u64_saturating_sub cl n in
                Ok ((first, cl), Some (content_range_text first cl cl))
    end
  else
    match parse_u64 a with
    | None => invalid_range "invalid range start"
    | Some first =>
        match (if is_empty b then Some cl
               else match parse_u64 b with Some n => Some (u64_add_one n) | None => None end) with
        | None => invalid_range "invalid range end"
        | Some last => if (last <? first) || (cl <? last)
                       then invalid_range "requested range is invalid"
                       else Ok ((first, last), Some (content_range_text first last cl))
        end
    end.
Proof.
  intros Hv Hs. unfold object_range. rewrite header_range, strip_prefix_app by assumption.
  by rewrite Hs.
Qed.

(** the three printed forms of a byte range mean what HTTP says: [a-b] within
    the object is the bytes from [a] to [b] inclusive, [a-] is the rest of the
    object from [a], and [-n] is its last [n] bytes (all of it when it is
    shorter); the [Content-Range] names the range that is sent. *)
Theorem printed_range_reads (cl first last n : Z) (Hcl : is_u64 cl)
    (Hrange : 0 <= first <= last) (Hlast : last < cl) (Hn : is_u64 n) :
  object_range (range_header (pretty first +:+ "-" +:+ pretty last)) cl
    = Ok ((first, last + 1), Some (content_range_text first (last + 1) cl)) /\
  object_range (range_header (pretty first +:+ "-")) cl
    = Ok ((first, cl), Some (content_range_text first cl cl)) /\
  object_range (range_header ("-" +:+ pretty n)) cl
    = Ok ((Z.max (cl - n) 0, cl), Some (content_range_text (Z.max (cl - n) 0) cl cl)).
Proof.
  unfold is_u64 in *. assert (forall s, split_once "-"%char (pretty first +:+ String "-"%char s)
    = Some (pretty first, s)) as Hsplit.
  { intros s. apply split_once_digits. intros a b. by rewrite pretty_no_dash by lia. }
  split_and!.
  - rewrite (object_range_value _ _ (pretty first) (pretty last)) by
      (first [apply Hsplit | rewrite ?all_visible_app, ?all_visible_pretty by lia; reflexivity | reflexivity]).
    rewrite !pretty_nonempty, !parse_u64_pretty by (unfold is_u64; lia).
    assert (u64_add_one last = last + 1) as -> by (unfold u64_add_one; apply Z.mod_small; lia).
    by rewrite !(proj2 (Z.ltb_ge _ _)) by lia.
  - rewrite (object_range_value _ _ (pretty first) "") by
      (first [apply Hsplit | rewrite ?all_visible_app, ?all_visible_pretty by lia; reflexivity | reflexivity]).
    rewrite !pretty_nonempty, !parse_u64_pretty by (unfold is_u64; lia).
    cbn [is_empty]. by rewrite !(proj2 (Z.ltb_ge _ _)) by lia.
  - rewrite (object_range_value _ _ "" (pretty n)) by
      (first [apply Hsplit | rewrite ?all_visible_app, ?all_visible_pretty by lia; reflexivity | reflexivity]).
    cbn [is_empty]. by rewrite parse_u64_pretty by (unfold is_u64; lia).
Qed.

Lemma printed_range_reads_witness :
  object_range (range_header (pretty 2 +:+ "-" +:+ pretty 5)) 10
    = Ok ((2, 6), Some "bytes 2-5/10").
Proof. apply (printed_range_reads 10 2 5 3); vm_compute; done. Defined.

Lemma object_range_within_witness : 0 <= 7 <= 10 /\ 10 <= 10.
Proof. apply (object_range_within (range_header "-3") 10 7 10 (Some "bytes 7-9/10")); vm_compute; done. Defined.

(** a range whose last position is the largest [u64] wraps around: the whole
    object asked for as [0-18446744073709551615] comes back as an empty range
    with the [Content-Range] of one byte. *)
Theorem largest_range_end_wraps (cl : Z) (Hcl : is_u64 cl) :
  object_range (range_header "0-18446744073709551615") cl
  = Ok ((0, 0), Some ("bytes 0-0/" +:+ pretty cl)).
Proof.
  rewrite (object_range_value _ _ "0" "18446744073709551615") by reflexivity.
  cbn [is_empty]. change (parse_u64 "0") with (Some 0).
  change (parse_u64 "18446744073709551615") with (Some 18446744073709551615).
  cbv beta iota. change (u64_add_one 18446744073709551615) with 0. unfold is_u64 in Hcl. by rewrite !(proj2 (Z.ltb_ge _ _)) by lia.
Qed.

(** a range that ends beyond the object is refused instead of being cut at the
    last byte. *)
Theorem range_beyond_end_refused (cl first last : Z) (Hcl : is_u64 cl)
    (Hrange : 0 <= first <= last) (Hlast : cl <= last < U64_MAX) :
  object_range (range_header (pretty first +:+ "-" +:+ pretty last)) cl
  = invalid_range "requested range is invalid".
Proof.
  unfold is_u64 in *. rewrite (object_range_value _ _ (pretty first) (pretty last)).
  - rewrite !pretty_nonempty, !parse_u64_pretty by (unfold is_u64; lia).
    assert (u64_add_one last = last + 1) as -> by (unfold u64_add_one; apply Z.mod_small; lia).
    by rewrite (proj2 (Z.ltb_lt cl _)), orb_true_r by lia.
  - by rewrite !all_visible_app, !all_visible_pretty by lia.
  - apply split_once_digits. intros a b. by rewrite pretty_no_dash by lia.
Qed.

Lemma largest_range_end_wraps_witness :
  object_range (range_header "0-18446744073709551615") 10 = Ok ((0, 0), Some "bytes 0-0/10").
Proof. apply (largest_range_end_wraps 10). vm_compute. done. Defined.

Lemma range_beyond_end_refused_witness :
  object_range (range_header (pretty 0 +:+ "-" +:+ pretty 1023)) 10
  = invalid_range "requested range is invalid".
Proof. apply (range_beyond_end_refused 10 0 1023); vm_compute; done. Defined.

(** ** Conditions *)

Definition accepts {A E} (r : Result A E) : bool :=
  match r with Ok _ => true | Err _ => false end.

(** the conditions recorded with an upload are the ones of the request: at
    commit time the store accepts a version exactly when the request-time check
    would accept it, provided the [s3s] crate reads its own rendering of a
    condition back. *)
Theorem commit_rechecks_request_conditions (to_http_header : ETagCondition -> string)
    (etag_from_str : string -> option ETagCondition)
    (Hcrate : forall c, etag_from_str (to_http_header c) = Some c)
    (if_match if_none_match : option ETagCondition) (current : option ObjectManifest) :
  match write_conditionals_snapshot to_http_header if_match if_none_match with
  | None => enforce_write_conditionals if_match if_none_match current = Ok tt
  | Some snapshot =>
      accepts (enforce_write_conditionals_snapshot etag_from_str snapshot current)
      = accepts (enforce_write_conditionals if_match if_none_match current)
  end.
Proof.
  destruct if_match as [c|], if_none_match as [c'|], current as [m|]; cbn; rewrite ?Hcrate;
    repeat case_match; done.
Qed.

(** a rendering of conditions that reads back, for the witnesses. *)
Definition render_condition (c : ETagCondition) : string :=
  match c with
  | AnyETag => "*"
  | IsETag (Strong e) => "S" +:+ e
  | IsETag (Weak e) => "W" +:+ e
  end.

Definition read_condition (s : string) : option ETagCondition :=
  match s with
  | String "*"%char EmptyString => Some AnyETag
  | String "S"%char e => Some (IsETag (Strong e))
  | String "W"%char e => Some (IsETag (Weak e))
  | _ => None
  end.

Lemma read_render_condition c : read_condition (render_condition c) = Some c.
Proof. by destruct c as [|[]]. Qed.

Lemma commit_rechecks_request_conditions_witness :
  accepts (enforce_write_conditionals_snapshot read_condition
             {| if_match := None; if_none_match := Some "*" |} None)
  = accepts (enforce_write_conditionals None (Some AnyETag) None).
Proof.
  exact (commit_rechecks_request_conditions render_condition read_condition read_render_condition
           None (Some AnyETag) None).
Defined.

(** the check a delete makes at request time is the one its transaction makes
    again, and both refusals reach the client as the same S3 error. *)
Theorem delete_rechecks_request_conditions (c : DeleteConditionals) (m : ObjectManifest) :
  enforce_delete_conditionals c m =
  match enforce_delete_conditionals_snapshot c m with
  | Ok u => Ok u
  | Err e => Err (map_object_error (ObjectFormatError.Metadata e))
  end.
Proof.
  unfold enforce_delete_conditionals, enforce_delete_conditionals_snapshot, failed.
  repeat case_match; done.
Qed.

(** what a conditional read promises: it is served exactly when [If-Match], if
    given, holds of the object, and otherwise when the object was not modified
    after [If-Unmodified-Since], does not match [If-None-Match] and was modified
    after [If-Modified-Since]; a refusal for the last two is [304 Not Modified],
    any other one [412 Precondition Failed]. *)
Theorem read_conditionals_decide (if_match if_none_match : option ETagCondition)
    (if_modified_since if_unmodified_since : option OffsetDateTime) (m : ObjectManifest) :
  let matches c := etag_condition_matches c (whole_object (m_checksum m)) = true in
  match enforce_read_conditionals if_match if_none_match if_modified_since if_unmodified_since m with
  | Ok _ =>
      match if_match with
      | Some c => matches c
      | None => (forall t, if_unmodified_since = Some t -> created_at m <= t) /\
                (forall c, if_none_match = Some c -> ~ matches c) /\
                (forall t, if_modified_since = Some t -> t < created_at m)
      end
  | Err e =>
      (s3_code e = S3ErrorCode.PreconditionFailed /\
       ((exists c, if_match = Some c /\ ~ matches c) \/
        (if_match = None /\ exists t, if_unmodified_since = Some t /\ t < created_at m))) \/
      (s3_code e = S3ErrorCode.NotModified /\ if_match = None /\
       ((exists c, if_none_match = Some c /\ matches c) \/
        (exists t, if_modified_since = Some t /\ created_at m <= t)))
  end.
Proof.
  cbv zeta. unfold enforce_read_conditionals, failed, not_modified.
  destruct if_match as [c|].
  - destruct (etag_condition_matches c _) eqn:E; cbn; [done|]. left. split; [done|]. left. exists c.
    by rewrite E.
  - destruct if_unmodified_since as [u|]; [destruct (u <? created_at m) eqn:Eu|];
      [left; split; [done|]; right; split; [done|]; exists u; bool_hyps; auto| |];
      (destruct if_none_match as [n|]; [destruct (etag_condition_matches n _) eqn:En|];
         [right; split_and!; [done..|]; left; by exists n| |]);
      (destruct if_modified_since as [t|]; [destruct (created_at m <=? t) eqn:Et|]);
      bool_hyps; try (right; split_and!; [done..|]; right; exists t; auto; done);
      split_and!; intros; simplify_eq; try congruence; lia.
Qed.

(** ** Expiry *)

(** an accepted expiry is in the future: at the requested instant, or the
    requested number of seconds from now. *)
Theorem expiry_in_the_future (parse_rfc3339 : string -> option OffsetDateTime)
    (last_instant now t : OffsetDateTime) (headers : HeaderMap)
    (H : parse_expiry_headers parse_rfc3339 last_instant now headers = Some (Ok (Some t))) :
  now < t /\
  ((exists v, header headers EXPIRY_AT_HEADER = Some v /\ parse_rfc3339 v = Some t) \/
   (exists v n, header headers EXPIRY_IN_HEADER = Some v /\ parse_i64 v = Some n /\
      0 < n /\ t = now + n * 1000000000)).
Proof.
  unfold parse_expiry_headers, add_seconds, in_the_future, invalid_argument in H.
  repeat case_match; simplify_eq; bool_hyps; split; try lia; [left; eauto|].
  right. eexists _, _. split_and!; eauto; lia.
Qed.

(** a number of seconds that passes every check can still take the handler
    down: when the instant is not representable the addition panics. *)
Theorem expiry_seconds_can_panic (parse_rfc3339 : string -> option OffsetDateTime)
    (last_instant now : OffsetDateTime)
    (Hlast : last_instant < now + I64_MAX * 1000000000) :
  parse_expiry_headers parse_rfc3339 last_instant now
    {[ EXPIRY_IN_HEADER := "9223372036854775807" ]} = None.
Proof.
  unfold parse_expiry_headers.
  assert (header {[ EXPIRY_IN_HEADER := "9223372036854775807" ]} EXPIRY_AT_HEADER = None) as -> by reflexivity.
  assert (header {[ EXPIRY_IN_HEADER := "9223372036854775807" ]} EXPIRY_IN_HEADER
          = Some "9223372036854775807") as -> by reflexivity.
  change (parse_i64 "9223372036854775807") with (Some I64_MAX). cbv iota beta.
  rewrite (proj2 (Z.leb_gt _ _)) by done. unfold add_seconds. by rewrite (proj2 (Z.leb_gt _ _)).
Qed.

Definition sample_rfc3339 (s : string) : option OffsetDateTime :=
  if bool_decide (s = "2026-01-01T00:00:00Z") then Some 1767225600000000000 else None.

(** The last instant of the year 9999. *)
Definition year_9999 : OffsetDateTime := 253402300799999999999.

Lemma expiry_in_the_future_witness : 1767225600000000000 < 1767225660000000000.
Proof.
  apply (expiry_in_the_future sample_rfc3339 year_9999 1767225600000000000 1767225660000000000
           {[ EXPIRY_IN_HEADER := "60" ]}). vm_compute. reflexivity.
Defined.

Lemma expiry_seconds_can_panic_witness :
  parse_expiry_headers sample_rfc3339 year_9999 1767225600000000000
    {[ EXPIRY_IN_HEADER := "9223372036854775807" ]} = None.
Proof. apply (expiry_seconds_can_panic sample_rfc3339 year_9999 1767225600000000000). vm_compute. done. Defined.
