(* ===== verification/Config.v ===== *)
(** * Configuration ([src/src/config.rs])

    The settings of the process come from the environment as text; each is
    parsed and checked against its bounds where it is used, and [validate]
    checks all of them before anything is started.  The settings of the storage
    account come from the metadata store and pass
    [validate_telegram_bootstrap_settings].

    The theorems: after [validate] no accessor fails and each value is within
    its bounds, the paths go through no parent directory and no symbolic link,
    and the administration API listens on a loopback address only; a storage
    chat id is normalised to a negative number, and normalising it again
    changes nothing.

    The environment, the file system and the peer ids of the Telegram library
    are parameters. *)

From Stdlib Require Import Ascii.
From stdpp Require Import pretty.
From S2P Require Import Prelude Errors Requests.

Module ConfigError.
Inductive t : Type :=
| Missing (field : string)
| Invalid (field : string)
| Parse (field value : string)
| PathUnsafe (field path reason : string)
| UnsafePermissions (field path reason : string).

Definition to_string (e : t) : string :=
  match e with
  | Missing field => field
  | Invalid field => "invalid value for " +:+ field
  | Parse field value => "invalid value for " +:+ field +:+ ": " +:+ value
  | PathUnsafe field path reason => "path " +:+ path +:+ " is unsafe for " +:+ field +:+ ": " +:+ reason
  | UnsafePermissions field path reason =>
      "path " +:+ path +:+ " has unsafe permissions for " +:+ field +:+ ": " +:+ reason
  end.
End ConfigError.

Definition DEFAULT_METADATA_PATH : string := "data/metadata.sqlite".
Definition DEFAULT_DATA_DIR : string := "data".
Definition MIN_CHUNK_SIZE : Z := 1.
Definition MAX_CHUNK_SIZE : Z := 2000000000.
Definition DEFAULT_CHUNK_SIZE : Z := 1048576.
Definition MIN_DOWNLOAD_PREFETCH_CHUNKS : Z := 0.
Definition MAX_DOWNLOAD_PREFETCH_CHUNKS : Z := 4.
Definition MIN_DOWNLOAD_ACCOUNT_CONNECTIONS : Z := 1.
Definition MAX_DOWNLOAD_ACCOUNT_CONNECTIONS : Z := 5.
Definition MIN_DOWNLOAD_FAILOVER_RETRIES : Z := 0.
Definition MAX_DOWNLOAD_FAILOVER_RETRIES : Z := 8.
Definition MIN_RECOVERY_VERIFY_INTERVAL_SECS : Z := 60.
Definition MAX_RECOVERY_VERIFY_INTERVAL_SECS : Z := 7 * 24 * 60 * 60.
Definition DEFAULT_RECOVERY_VERIFY_INTERVAL_SECS : Z := 300.
Definition MIN_RECOVERY_VERIFY_CHUNKS : Z := 1.
Definition MAX_RECOVERY_VERIFY_CHUNKS : Z := 1024.
Definition DEFAULT_RECOVERY_VERIFY_CHUNKS : Z := 1.
Definition MIN_CLEANUP_RETENTION_SECS : Z := 60 * 60.
Definition MAX_CLEANUP_RETENTION_SECS : Z := 30 * 24 * 60 * 60.

(** ** Data *)

Record AppConfig : Type := {
  telegram_metadata_path : option string;
  telegram_data_dir : option string;
  telegram_session_path : option string;
  telegram_chunk_size : option string;
  telegram_recovery_verify_enabled : option string;
  telegram_recovery_verify_startup : option string;
  telegram_recovery_verify_interval_secs : option string;
  telegram_recovery_verify_chunks : option string;
  telegram_staging_max_bytes : option string;
  telegram_connection_timeout_secs : option string;
  telegram_request_timeout_secs : option string;
  telegram_transfer_timeout_secs : option string;
  telegram_retry_count : option string;
  telegram_retry_backoff_ms : option string;
  telegram_respect_flood_wait : option string;
  telegram_s3_master_key : option string;
  rustfs_access_key : option string;
  rustfs_secret_key : option string;
  telegram_admin_bootstrap_secret : option string;
  telegram_admin_ui_dist_dir : option string;
  telegram_s3_bind_addr : option string;
  telegram_admin_bind_addr : option string
}.

(** [TelegramBootstrapSettings] of the metadata store. *)
Record TelegramBootstrapSettings : Type := {
  tb_api_id : option string;
  tb_api_hash : option string;
  tb_session_path : option string;
  tb_storage_chat_id : option string;
  tb_proxy_url : option string;
  tb_proxy_username : option string;
  tb_proxy_password : option string;
  tb_proxy_mode : option string
}.

Record ResolvedTelegramBootstrap : Type := {
  rb_api_id : string;
  rb_api_hash : string;
  rb_session_path : string;
  rb_storage_chat_id : string;
  rb_proxy_url : option string;
  rb_proxy_username : option string;
  rb_proxy_password : option string;
  rb_proxy_mode : string
}.

(** [?] *)
Definition and_then {A B E} (r : Result A E) (f : A -> Result B E) : Result B E :=
  match r with Ok a => f a | Err e => Err e end.

Notation "'let?' x := r 'in' k" := (and_then r (fun x => k))
  (at level 200, x name, r at level 100, k at level 200).
Notation "r ?; k" := (and_then r (fun _ => k)) (at level 100, k at level 200, right associativity).

(** ** Parsing *)

Definition parse_in_range (parse : string -> option Z) (field : string) (value : option string)
    (min max default : Z) : Result Z ConfigError.t :=
  match value with
  | Some value =>
      match parse value with
      | None => Err (ConfigError.Parse field value)
      | Some parsed =>
          if (parsed <? min) || (max <? parsed) then Err (ConfigError.Invalid field) else Ok parsed
      end
  | None => Ok default
  end.

(** [str::parse::<u32>] and [str::parse::<i32>]. *)
Definition str_parse_u32 (s : string) : option Z :=
  match parse_u64 s with Some n => if n <=? U32_MAX then Some n else None | None => None end.

Definition str_parse_i32 (s : string) : option Z :=
  match parse_i64 s with
  | Some n => if (- I32_MAX - 1 <=? n) && (n <=? I32_MAX) then Some n else None
  | None => None
  end.

Definition parse_u64_setting := parse_in_range parse_u64.

Definition parse_u32_setting := parse_in_range str_parse_u32.

Definition parse_bool_text (value : string) : option bool :=
  if one_of value ["true"; "1"; "yes"; "on"] then Some true
  else if one_of value ["false"; "0"; "no"; "off"] then Some false
  else None.

Definition parse_bool (field : string) (value : option string) (default : bool)
    : Result bool ConfigError.t :=
  match value with
  | Some value =>
      match parse_bool_text value with
      | Some b => Ok b
      | None => Err (ConfigError.Parse field value)
      end
  | None => Ok default
  end.

Definition within (min max value : Z) : bool := (min <=? value) && (value <=? max).

Definition validate_range (field : string) (min max value : Z) : Result Z ConfigError.t :=
  if negb (within min max value) then Err (ConfigError.Invalid field) else Ok value.

Definition validate_chunk_size :=
  validate_range "TELEGRAM_CHUNK_SIZE" MIN_CHUNK_SIZE MAX_CHUNK_SIZE.

Definition validate_download_prefetch_chunks :=
  validate_range "TELEGRAM_DOWNLOAD_PREFETCH_CHUNKS" MIN_DOWNLOAD_PREFETCH_CHUNKS
    MAX_DOWNLOAD_PREFETCH_CHUNKS.

Definition validate_download_prefetch_mode (value : string) : Result unit ConfigError.t :=
  if negb (one_of value ["adaptive"; "sequential"])
  then Err (ConfigError.Invalid "TELEGRAM_DOWNLOAD_PREFETCH_MODE") else Ok tt.

Definition validate_download_account_connections :=
  validate_range "TELEGRAM_DOWNLOAD_ACCOUNT_CONNECTIONS" MIN_DOWNLOAD_ACCOUNT_CONNECTIONS
    MAX_DOWNLOAD_ACCOUNT_CONNECTIONS.

Definition validate_download_failover_retries :=
  validate_range "TELEGRAM_DOWNLOAD_FAILOVER_RETRIES" MIN_DOWNLOAD_FAILOVER_RETRIES
    MAX_DOWNLOAD_FAILOVER_RETRIES.

Definition validate_recovery_verify_interval_secs :=
  validate_range "TELEGRAM_RECOVERY_VERIFY_INTERVAL_SECS" MIN_RECOVERY_VERIFY_INTERVAL_SECS
    MAX_RECOVERY_VERIFY_INTERVAL_SECS.

Definition validate_recovery_verify_chunks :=
  validate_range "TELEGRAM_RECOVERY_VERIFY_CHUNKS" MIN_RECOVERY_VERIFY_CHUNKS
    MAX_RECOVERY_VERIFY_CHUNKS.

Definition validate_cleanup_retention_secs :=
  validate_range "TELEGRAM_CLEANUP_RETENTION_SECS" MIN_CLEANUP_RETENTION_SECS
    MAX_CLEANUP_RETENTION_SECS.

(** ** Accessors *)

Definition metadata_path (c : AppConfig) : string := default DEFAULT_METADATA_PATH (telegram_metadata_path c).

Definition data_dir (c : AppConfig) : string := default DEFAULT_DATA_DIR (telegram_data_dir c).

Definition staging_budget (c : AppConfig) : Result Z ConfigError.t :=
  parse_u64_setting "TELEGRAM_STAGING_MAX_BYTES" (telegram_staging_max_bytes c) 1 I64_MAX
    (10 * 1024 * 1024 * 1024).

Definition chunk_size (c : AppConfig) : Result Z ConfigError.t :=
  parse_u64_setting "TELEGRAM_CHUNK_SIZE" (telegram_chunk_size c) MIN_CHUNK_SIZE MAX_CHUNK_SIZE
    DEFAULT_CHUNK_SIZE.

Definition recovery_verify_interval_secs (c : AppConfig) : Result Z ConfigError.t :=
  parse_u64_setting "TELEGRAM_RECOVERY_VERIFY_INTERVAL_SECS" (telegram_recovery_verify_interval_secs c)
    MIN_RECOVERY_VERIFY_INTERVAL_SECS MAX_RECOVERY_VERIFY_INTERVAL_SECS
    DEFAULT_RECOVERY_VERIFY_INTERVAL_SECS.

Definition recovery_verify_enabled (c : AppConfig) : Result bool ConfigError.t :=
  parse_bool "TELEGRAM_RECOVERY_VERIFY_ENABLED" (telegram_recovery_verify_enabled c) true.

Definition recovery_verify_startup (c : AppConfig) : Result bool ConfigError.t :=
  parse_bool "TELEGRAM_RECOVERY_VERIFY_STARTUP" (telegram_recovery_verify_startup c) true.

Definition recovery_verify_chunks (c : AppConfig) : Result Z ConfigError.t :=
  parse_u64_setting "TELEGRAM_RECOVERY_VERIFY_CHUNKS" (telegram_recovery_verify_chunks c)
    MIN_RECOVERY_VERIFY_CHUNKS MAX_RECOVERY_VERIFY_CHUNKS DEFAULT_RECOVERY_VERIFY_CHUNKS.

Definition connection_timeout_secs (c : AppConfig) : Result Z ConfigError.t :=
  parse_u64_setting "TELEGRAM_CONNECTION_TIMEOUT_SECS" (telegram_connection_timeout_secs c) 1 86400 30.

Definition request_timeout_secs (c : AppConfig) : Result Z ConfigError.t :=
  parse_u64_setting "TELEGRAM_REQUEST_TIMEOUT_SECS" (telegram_request_timeout_secs c) 1 86400 30.

Definition transfer_timeout_secs (c : AppConfig) : Result Z ConfigError.t :=
  parse_u64_setting "TELEGRAM_TRANSFER_TIMEOUT_SECS" (telegram_transfer_timeout_secs c) 1 86400 900.

Definition retry_count (c : AppConfig) : Result Z ConfigError.t :=
  parse_u32_setting "TELEGRAM_RETRY_COUNT" (telegram_retry_count c) 1 1000 5.

Definition retry_backoff_ms (c : AppConfig) : Result Z ConfigError.t :=
  parse_u64_setting "TELEGRAM_RETRY_BACKOFF_MS" (telegram_retry_backoff_ms c) 1 600000 500.

Definition respect_flood_wait (c : AppConfig) : Result bool ConfigError.t :=
  parse_bool "TELEGRAM_FLOOD_WAIT_RESPECT" (telegram_respect_flood_wait c) true.

Definition admin_ui_dist_dir (c : AppConfig) : string :=
  default "frontend/dist" (telegram_admin_ui_dist_dir c).

Definition validate_runtime_settings (c : AppConfig) : Result unit ConfigError.t :=
  chunk_size c ?;
  recovery_verify_enabled c ?;
  recovery_verify_startup c ?;
  recovery_verify_interval_secs c ?;
  recovery_verify_chunks c ?;
  connection_timeout_secs c ?;
  request_timeout_secs c ?;
  transfer_timeout_secs c ?;
  retry_count c ?;
  retry_backoff_ms c ?;
  respect_flood_wait c ?;
  Ok tt.

(** ** Addresses ([std::net::SocketAddr]) *)

Inductive IpAddr : Type :=
| V4 (octets : list Z)
| V6 (segments : list Z).

Record SocketAddr : Type := { sa_ip : IpAddr; sa_port : Z }.

Definition is_loopback (ip : IpAddr) : bool :=
  match ip with
  | V4 octets => match octets with a :: _ => a =? 127 | [] => false end
  | V6 segments => bool_decide (segments = [0; 0; 0; 0; 0; 0; 0; 1])
  end.

Definition hex_value (c : Ascii.ascii) : option Z :=
  let n := Z.of_N (Ascii.N_of_ascii c) in
  if (48 <=? n) && (n <=? 57) then Some (n - 48)
  else if (97 <=? n) && (n <=? 102) then Some (n - 87)
  else if (65 <=? n) && (n <=? 70) then Some (n - 55)
  else None.

(** Digits are read while there are any and at most [max] of them may come; a
    number needs one at least, stays within [limit], and may not start with a
    superfluous zero unless [zeros]. *)
Fixpoint read_digits (digit : Ascii.ascii -> option Z) (radix limit acc : Z) (max : option nat) (s : string)
    : option (Z * nat * string) :=
  match s with
  | String c r =>
      match digit c with
      | None => Some (acc, O, s)
      | Some d =>
          if limit <? radix * acc + d then None
          else
            match max with
            | Some O => None
            | _ =>
                match read_digits digit radix limit (radix * acc + d) (Nat.pred <$> max) r with
                | Some (n, k, rest) => Some (n, S k, rest)
                | None => None
                end
            end
      end
  | EmptyString => Some (acc, O, s)
  end.

Definition starts_with_zero (s : string) : bool :=
  match s with String c _ => Ascii.eqb c "0"%char | EmptyString => false end.

Definition read_number (digit : Ascii.ascii -> option Z) (radix limit : Z) (max : option nat) (zeros : bool)
    (s : string) : option (Z * string) :=
  match read_digits digit radix limit 0 max s with
  | Some (n, k, rest) =>
      if (k =? 0)%nat || (negb zeros && starts_with_zero s && (1 <? k)%nat) then None else Some (n, rest)
  | None => None
  end.

Definition read_char (c : Ascii.ascii) (s : string) : option string :=
  match s with String d r => if Ascii.eqb c d then Some r else None | EmptyString => None end.

(** [n] octets, the later ones each after a dot. *)
Fixpoint read_octets (n : nat) (first : bool) (s : string) : option (list Z * string) :=
  match n with
  | O => Some ([], s)
  | S n =>
      match (if first then Some s else read_char "."%char s) with
      | None => None
      | Some s =>
          match read_number digit_value 10 255 (Some 3%nat) false s with
          | Some (octet, s) =>
              match read_octets n false s with
              | Some (octets, s) => Some (octet :: octets, s)
              | None => None
              end
          | None => None
          end
      end
  end.

Definition read_ipv4 (s : string) : option (list Z * string) := read_octets 4 true s.

(** Up to [n] groups, the later ones each after a colon; the last two may be
    given as an IPv4 address, which ends the groups. *)
Fixpoint read_groups (n : nat) (first : bool) (s : string) : list Z * bool * string :=
  match n with
  | O => ([], false, s)
  | S n' =>
      match (if first then Some s else read_char ":"%char s) with
      | None => ([], false, s)
      | Some t =>
          match (if (1 <=? n')%nat then read_ipv4 t else None) with
          | Some ([a; b; c; d], rest) => ([256 * a + b; 256 * c + d], true, rest)
          | _ =>
              match read_number hex_value 16 65535 (Some 4%nat) true t with
              | Some (group, rest) =>
                  let '(groups, v4, rest) := read_groups n' false rest in (group :: groups, v4, rest)
              | None => ([], false, s)
              end
          end
      end
  end.

Definition read_ipv6 (s : string) : option (list Z * string) :=
  let '(head, head_v4, rest) := read_groups 8 true s in
  if (length head =? 8)%nat then Some (head, rest)
  else if head_v4 then None
  else
    match strip_prefix "::" rest with
    | None => None
    | Some rest =>
        let limit := (8 - (length head + 1))%nat in
        let '(tail, _, rest) := read_groups limit true rest in
        Some (head ++ replicate (8 - length head - length tail) 0 ++ tail, rest)
    end.

Definition read_port (s : string) : option (Z * string) :=
  match read_char ":"%char s with
  | Some s => read_number digit_value 10 65535 None true s
  | None => None
  end.

(** [%] and a scope number. *)
Definition read_scope (s : string) : option string :=
  match read_char "%"%char s with
  | Some t => snd <$> read_number digit_value 10 U32_MAX None true t
  | None => Some s
  end.

Definition read_v6_socket (s : string) : option (SocketAddr * string) :=
  match read_char "["%char s with
  | None => None
  | Some s =>
      match read_ipv6 s with
      | None => None
      | Some (segments, s) =>
          match read_scope s with
          | None => None
          | Some s =>
              match read_char "]"%char s with
              | None => None
              | Some s =>
                  match read_port s with
                  | Some (port, rest) => Some ({| sa_ip := V6 segments; sa_port := port |}, rest)
                  | None => None
                  end
              end
          end
      end
  end.

Definition read_v4_socket (s : string) : option (SocketAddr * string) :=
  match read_ipv4 s with
  | None => None
  | Some (octets, s) =>
      match read_port s with
      | Some (port, rest) => Some ({| sa_ip := V4 octets; sa_port := port |}, rest)
      | None => None
      end
  end.

Definition parse_socket_addr (s : string) : option SocketAddr :=
  match (match read_v4_socket s with Some r => Some r | None => read_v6_socket s end) with
  | Some (addr, rest) => if is_empty rest then Some addr else None
  | None => None
  end.

Definition bind_addr (field : string) (value : string) : Result SocketAddr ConfigError.t :=
  match parse_socket_addr value with
  | Some addr => Ok addr
  | None => Err (ConfigError.Parse field value)
  end.

Definition s3_bind_addr (c : AppConfig) : Result SocketAddr ConfigError.t :=
  bind_addr "TELEGRAM_S3_BIND_ADDR" (default "127.0.0.1:9000" (telegram_s3_bind_addr c)).

Definition admin_bind_addr (c : AppConfig) : Result SocketAddr ConfigError.t :=
  bind_addr "TELEGRAM_ADMIN_BIND_ADDR" (default "127.0.0.1:9001" (telegram_admin_bind_addr c)).

(** ** Paths *)

(** The text between the slashes. *)
Fixpoint segments (s : string) : list string :=
  match s with
  | EmptyString => [""]
  | String c r =>
      if Ascii.eqb c "/"%char then "" :: segments r
      else match segments r with
           | seg :: rest => String c seg :: rest
           | [] => [String c ""]
           end
  end.

Definition has_parent_dir_component (path : string) : bool :=
  existsb (fun seg => bool_decide (seg = "..")) (segments path).

(** [Path::parent] drops the last component and the separators before it; empty
    segments and [.] are no components, except a [.] at the start.  The
    segments come in reverse. *)
Fixpoint drop_trivial (segs : list string) : list string :=
  match segs with
  | x :: rest =>
      match rest with
      | [] => segs
      | _ :: _ => if one_of x [""; "."] then drop_trivial rest else segs
      end
  | [] => []
  end.

Definition parent (path : string) : option string :=
  match drop_trivial (rev (segments path)) with
  | [] => None
  | [x] => if is_empty x then None else Some ""
  | _ :: rest =>
      match drop_trivial rest with
      | [x] => if is_empty x then Some "/" else Some x
      | rest => Some (String.concat "/" (rev rest))
      end
  end.

(** [Path::join] with a relative path. *)
Definition path_join (dir file : string) : string :=
  if is_empty dir then file
  else match rev (segments dir) with
       | "" :: _ => dir +:+ file
       | _ => dir +:+ "/" +:+ file
       end.

Definition default_session_path (metadata_path : string) : string :=
  match parent metadata_path with
  | Some p => path_join p "telegram.session"
  | None => "telegram.session"
  end.

(** What [fs::symlink_metadata] reports. *)
Record FileMetadata : Type := {
  fm_is_symlink : bool;
  fm_is_dir : bool;
  fm_is_file : bool;
  fm_mode : Z
}.

Definition validate_permissions (field path : string) (m : FileMetadata) (directory : bool)
    : Result unit ConfigError.t :=
  let unsafe_bits := if directory then 2 else 63 in
  if negb (Z.land (fm_mode m) unsafe_bits =? 0)
  then Err (ConfigError.UnsafePermissions field path "group or other access is too permissive")
  else Ok tt.

Section Checks.
(** The operating system. *)
Context (symlink_metadata : string -> option FileMetadata).

Definition validate_path_setting (field path : string) (directory : bool) : Result unit ConfigError.t :=
  if has_parent_dir_component path
  then Err (ConfigError.PathUnsafe field path "parent directory traversal is not allowed")
  else
    match symlink_metadata path with
    | Some m =>
        if fm_is_symlink m
        then Err (ConfigError.PathUnsafe field path "symbolic links are not allowed")
        else if directory && negb (fm_is_dir m)
        then Err (ConfigError.PathUnsafe field path "expected a directory path")
        else if negb directory && negb (fm_is_file m)
        then Err (ConfigError.PathUnsafe field path "expected a file path")
        else validate_permissions field path m directory
    | None =>
        match parent path with
        | Some p =>
            match symlink_metadata p with
            | Some m =>
                if fm_is_symlink m
                then Err (ConfigError.PathUnsafe field p "parent directory is a symbolic link")
                else Ok tt
            | None => Ok tt
            end
        | None => Ok tt
        end
    end.

(** [is_none_or(str::is_empty)] *)
Definition missing (value : option string) : bool :=
  match value with Some v => is_empty v | None => true end.

Definition validate (c : AppConfig) : Result unit ConfigError.t :=
  if missing (telegram_s3_master_key c) then Err (ConfigError.Missing "TELEGRAM_S3_MASTER_KEY")
  else if missing (rustfs_access_key c) then Err (ConfigError.Missing "RUSTFS_ACCESS_KEY")
  else if missing (rustfs_secret_key c) then Err (ConfigError.Missing "RUSTFS_SECRET_KEY")
  else if missing (telegram_admin_bootstrap_secret c)
  then Err (ConfigError.Missing "TELEGRAM_ADMIN_BOOTSTRAP_SECRET")
  else
    staging_budget c ?;
    validate_runtime_settings c ?;
    validate_path_setting "TELEGRAM_METADATA_PATH" (metadata_path c) false ?;
    validate_path_setting "TELEGRAM_DATA_DIR" (data_dir c) true ?;
    let? addr := admin_bind_addr c in
    if negb (is_loopback (sa_ip addr)) then Err (ConfigError.Invalid "TELEGRAM_ADMIN_BIND_ADDR") else Ok tt.
End Checks.

(** ** The environment *)

Section Environment.
Context (env_var : string -> option string).

Definition read (name : string) : option string :=
  match env_var name with
  | Some value => if trim_is_empty value then None else Some value
  | None => None
  end.

Definition from_env : AppConfig :=
  {| telegram_metadata_path := read "TELEGRAM_METADATA_PATH";
     telegram_data_dir := read "TELEGRAM_DATA_DIR";
     telegram_session_path := read "TELEGRAM_SESSION_PATH";
     telegram_chunk_size := read "TELEGRAM_CHUNK_SIZE";
     telegram_recovery_verify_enabled := read "TELEGRAM_RECOVERY_VERIFY_ENABLED";
     telegram_recovery_verify_startup := read "TELEGRAM_RECOVERY_VERIFY_STARTUP";
     telegram_recovery_verify_interval_secs := read "TELEGRAM_RECOVERY_VERIFY_INTERVAL_SECS";
     telegram_recovery_verify_chunks := read "TELEGRAM_RECOVERY_VERIFY_CHUNKS";
     telegram_staging_max_bytes := read "TELEGRAM_STAGING_MAX_BYTES";
     telegram_connection_timeout_secs := read "TELEGRAM_CONNECTION_TIMEOUT_SECS";
     telegram_request_timeout_secs := read "TELEGRAM_REQUEST_TIMEOUT_SECS";
     telegram_transfer_timeout_secs := read "TELEGRAM_TRANSFER_TIMEOUT_SECS";
     telegram_retry_count := read "TELEGRAM_RETRY_COUNT";
     telegram_retry_backoff_ms := read "TELEGRAM_RETRY_BACKOFF_MS";
     telegram_respect_flood_wait := read "TELEGRAM_FLOOD_WAIT_RESPECT";
     telegram_s3_master_key := read "TELEGRAM_S3_MASTER_KEY";
     rustfs_access_key := read "RUSTFS_ACCESS_KEY";
     rustfs_secret_key := read "RUSTFS_SECRET_KEY";
     telegram_admin_bootstrap_secret := read "TELEGRAM_ADMIN_BOOTSTRAP_SECRET";
     telegram_admin_ui_dist_dir := read "TELEGRAM_ADMIN_UI_DIST_DIR";
     telegram_s3_bind_addr := read "TELEGRAM_S3_BIND_ADDR";
     telegram_admin_bind_addr := read "TELEGRAM_ADMIN_BIND_ADDR" |}.
End Environment.

(** ** The storage account *)

Definition required_bootstrap_value (value : option string) (field : string) : Result string ConfigError.t :=
  match value with
  | Some value => if trim_is_empty value then Err (ConfigError.Missing field) else Ok value
  | None => Err (ConfigError.Missing field)
  end.

Definition starts_with (prefix s : string) : bool :=
  match strip_prefix prefix s with Some _ => true | None => false end.

Definition validate_proxy_setting (proxy_url proxy_mode : option string) : Result unit ConfigError.t :=
  let mode := default "auto" proxy_mode in
  if negb (one_of mode ["auto"; "direct"; "socks5"]) then Err (ConfigError.Invalid "telegram proxy mode")
  else
    let url := default "" proxy_url in
    if negb (is_empty url) && negb (starts_with "socks5://" url) && negb (starts_with "http://" url)
       && negb (starts_with "https://" url)
    then Err (ConfigError.Invalid "telegram proxy url")
    else if bool_decide (mode = "direct") && negb (is_empty url)
    then Err (ConfigError.Invalid "telegram proxy mode")
    else Ok tt.

Section Bootstrap.
(** [PeerId::from_bot_api_dialog_id] followed by [bot_api_dialog_id_unchecked]. *)
Context (dialog_id : Z -> option Z).
Context (symlink_metadata : string -> option FileMetadata).

Definition normalize_telegram_storage_chat_id (value : option string) : Result string ConfigError.t :=
  let? storage_chat_id := required_bootstrap_value value "telegram storage chat id" in
  match parse_i64 storage_chat_id with
  | None => Err (ConfigError.Parse "telegram storage chat id" storage_chat_id)
  | Some parsed =>
      match dialog_id parsed with
      | None => Err (ConfigError.Parse "telegram storage chat id" storage_chat_id)
      | Some peer =>
          if parsed =? 0 then Err (ConfigError.Invalid "telegram storage chat id")
          else if 0 <? parsed then Ok (pretty (- parsed)) else Ok (pretty peer)
      end
  end.

Definition validate_telegram_bootstrap_settings (settings : TelegramBootstrapSettings)
    : Result unit ConfigError.t :=
  let? api_id := required_bootstrap_value (tb_api_id settings) "telegram api id" in
  match str_parse_i32 api_id with
  | None => Err (ConfigError.Parse "telegram api id" api_id)
  | Some parsed_api_id =>
      if parsed_api_id <=? 0 then Err (ConfigError.Invalid "telegram api id")
      else
        required_bootstrap_value (tb_api_hash settings) "telegram api hash" ?;
        normalize_telegram_storage_chat_id (tb_storage_chat_id settings) ?;
        validate_proxy_setting (tb_proxy_url settings) (tb_proxy_mode settings)
  end.

(** [persisted]: the result of [telegram_bootstrap_settings] of the store. *)
Definition resolve_telegram_bootstrap {E} (c : AppConfig)
    (persisted : Result (option TelegramBootstrapSettings) E)
    : Result ResolvedTelegramBootstrap ConfigError.t :=
  match persisted with
  | Err _ => Err (ConfigError.Invalid "TELEGRAM_BOOTSTRAP_SETTINGS")
  | Ok None => Err (ConfigError.Missing "TELEGRAM_BOOTSTRAP_SETTINGS")
  | Ok (Some merged) =>
      validate_telegram_bootstrap_settings merged ?;
      match tb_api_id merged, tb_api_hash merged with
      | None, _ => Err (ConfigError.Missing "telegram api id")
      | Some _, None => Err (ConfigError.Missing "telegram api hash")
      | Some api_id, Some api_hash =>
          let? chat := normalize_telegram_storage_chat_id (tb_storage_chat_id merged) in
          let session_path :=
            match tb_session_path merged, telegram_session_path c with
            | Some p, _ => p
            | None, Some p => p
            | None, None => default_session_path (metadata_path c)
            end in
          if is_empty session_path then Err (ConfigError.Missing "telegram session path")
          else
            validate_path_setting symlink_metadata "telegram session path" session_path false ?;
            Ok {| rb_api_id := api_id; rb_api_hash := api_hash; rb_session_path := session_path;
                  rb_storage_chat_id := chat; rb_proxy_url := tb_proxy_url merged;
                  rb_proxy_username := tb_proxy_username merged;
                  rb_proxy_password := tb_proxy_password merged;
                  rb_proxy_mode := default "auto" (tb_proxy_mode merged) |}
      end
  end.
End Bootstrap.

(** ** What a validated configuration guarantees *)

Lemma and_then_ok {A B E} (r : Result A E) (f : A -> Result B E) b :
  and_then r f = Ok b <-> exists a, r = Ok a /\ f a = Ok b.
Proof. destruct r; cbn; naive_solver. Qed.

Definition in_range (r : Result Z ConfigError.t) (min max : Z) : Prop :=
  exists n, r = Ok n /\ min <= n <= max.

Lemma parse_in_range_bounds parse field value min max d n :
  min <= d <= max -> parse_in_range parse field value min max d = Ok n ->
  in_range (parse_in_range parse field value min max d) min max.
Proof.
  intros Hd. unfold parse_in_range, in_range. destruct value as [v|]; [|eauto].
  destruct (parse v) as [k|]; [|done]. destruct (_ || _) eqn:E; [done|]. intros _.
  apply orb_false_iff in E as [? ?]. exists k. split; [done|lia].
Qed.

(** A path setting that is safe to open. *)
Definition safe_path (symlink_metadata : string -> option FileMetadata) (path : string) (directory : bool)
    : Prop :=
  has_parent_dir_component path = false /\
  match symlink_metadata path with
  | Some m => fm_is_symlink m = false /\ (if directory then fm_is_dir m else fm_is_file m) = true /\
      Z.land (fm_mode m) (if directory then 2 else 63) = 0
  | None => forall p m, parent path = Some p -> symlink_metadata p = Some m -> fm_is_symlink m = false
  end.

Lemma validate_path_safe fs field path directory :
  validate_path_setting fs field path directory = Ok tt -> safe_path fs path directory.
Proof.
  unfold validate_path_setting, safe_path, validate_permissions.
  destruct (has_parent_dir_component path); [done|]. intros H. split; [done|].
  destruct (fs path) as [m|].
  - destruct (fm_is_symlink m); [done|].
    destruct directory, (fm_is_dir m), (fm_is_file m); cbn in *; try done;
      destruct (Z.eqb_spec (Z.land (fm_mode m) 2) 0); destruct (Z.eqb_spec (Z.land (fm_mode m) 63) 0); done.
  - intros p m Hp Hm. rewrite Hp, Hm in H. by destruct (fm_is_symlink m).
Qed.

(** Everything the process reads from its configuration later on. *)
Record usable (symlink_metadata : string -> option FileMetadata) (c : AppConfig) : Prop := {
  us_secrets : Forall (fun v => missing v = false)
    [telegram_s3_master_key c; rustfs_access_key c; rustfs_secret_key c; telegram_admin_bootstrap_secret c];
  us_staging : in_range (staging_budget c) 1 I64_MAX;
  us_chunk : in_range (chunk_size c) MIN_CHUNK_SIZE MAX_CHUNK_SIZE;
  us_interval : in_range (recovery_verify_interval_secs c) MIN_RECOVERY_VERIFY_INTERVAL_SECS
                  MAX_RECOVERY_VERIFY_INTERVAL_SECS;
  us_chunks : in_range (recovery_verify_chunks c) MIN_RECOVERY_VERIFY_CHUNKS MAX_RECOVERY_VERIFY_CHUNKS;
  us_connect : in_range (connection_timeout_secs c) 1 86400;
  us_request : in_range (request_timeout_secs c) 1 86400;
  us_transfer : in_range (transfer_timeout_secs c) 1 86400;
  us_retries : in_range (retry_count c) 1 1000;
  us_backoff : in_range (retry_backoff_ms c) 1 600000;
  us_enabled : is_ok (recovery_verify_enabled c) = true;
  us_startup : is_ok (recovery_verify_startup c) = true;
  us_flood : is_ok (respect_flood_wait c) = true;
  us_metadata : safe_path symlink_metadata (metadata_path c) false;
  us_data : safe_path symlink_metadata (data_dir c) true;
  us_admin : exists addr, admin_bind_addr c = Ok addr /\ is_loopback (sa_ip addr) = true
}.

(** A configuration that passes [validate] is usable: no accessor that is
    called later can fail, each number is within the bounds of its setting (a
    chunk is never empty and never over 2,000,000,000 bytes), the four secrets
    are there, the metadata file and the data directory are reached through no
    parent-directory component and are no symbolic link, not accessible to
    others, and the administration API is bound to a loopback address. *)
Theorem validated_config_usable symlink_metadata c :
  validate symlink_metadata c = Ok tt -> usable symlink_metadata c.
Proof.
  unfold validate. destruct (missing (telegram_s3_master_key c)) eqn:E1; [done|].
  destruct (missing (rustfs_access_key c)) eqn:E2; [done|].
  destruct (missing (rustfs_secret_key c)) eqn:E3; [done|].
  destruct (missing (telegram_admin_bootstrap_secret c)) eqn:E4; [done|].
  intros H. apply and_then_ok in H as (budget & Hb & H). apply and_then_ok in H as ([] & Hr & H).
  apply and_then_ok in H as ([] & Hm & H). apply and_then_ok in H as ([] & Hd & H).
  apply and_then_ok in H as (addr & Ha & H). unfold validate_runtime_settings in Hr.
  repeat (apply and_then_ok in Hr as (? & ? & Hr)).
  split; try (eapply parse_in_range_bounds; [|eassumption]; done); try (by apply validate_path_safe in Hm);
    try (by apply validate_path_safe in Hd); try (match goal with H : ?r = Ok _ |- is_ok ?r = true => by rewrite H end).
  - by repeat constructor.
  - exists addr. split; [done|]. by destruct (is_loopback (sa_ip addr)).
Qed.

Definition sample_config : AppConfig :=
  {| telegram_metadata_path := None; telegram_data_dir := None; telegram_session_path := None;
     telegram_chunk_size := Some "65536"; telegram_recovery_verify_enabled := Some "off";
     telegram_recovery_verify_startup := None; telegram_recovery_verify_interval_secs := None;
     telegram_recovery_verify_chunks := None; telegram_staging_max_bytes := None;
     telegram_connection_timeout_secs := None; telegram_request_timeout_secs := None;
     telegram_transfer_timeout_secs := None; telegram_retry_count := Some "3";
     telegram_retry_backoff_ms := None; telegram_respect_flood_wait := None;
     telegram_s3_master_key := Some "m"; rustfs_access_key := Some "a"; rustfs_secret_key := Some "s";
     telegram_admin_bootstrap_secret := Some "b"; telegram_admin_ui_dist_dir := None;
     telegram_s3_bind_addr := Some "0.0.0.0:9000"; telegram_admin_bind_addr := Some "[::1]:9001" |}.

Definition sample_files (path : string) : option FileMetadata :=
  if bool_decide (path = "data")
  then Some {| fm_is_symlink := false; fm_is_dir := true; fm_is_file := false; fm_mode := 493 |} else None.

Lemma validated_config_usable_witness :
  validate sample_files sample_config = Ok tt /\ chunk_size sample_config = Ok 65536 /\
  in_range (chunk_size sample_config) MIN_CHUNK_SIZE MAX_CHUNK_SIZE.
Proof.
  split_and!; [vm_compute; reflexivity..|].
  exact (us_chunk _ _ (validated_config_usable sample_files sample_config ltac:(vm_compute; reflexivity))).
Defined.

(** ** The storage chat *)

Lemma parse_i64_pretty (n : Z) : is_i64 n -> parse_i64 (pretty n) = Some n.
Proof.
  intros [Hlo Hhi]. destruct n as [|p|p].
  - reflexivity.
  - destruct (pretty_head (Z.pos p) ltac:(lia)) as (c & r & He & Hd).
    assert (parse_magnitude (pretty (Z.pos p)) = Some (Z.pos p)) as Hp.
    { pose proof (parse_u64_pretty (Z.pos p)) as H. unfold is_u64, U64_MAX, I64_MAX in *.
      specialize (H ltac:(lia)). unfold parse_u64 in H. rewrite He in *.
      assert (match String c r with String "+"%char r => r | _ => String c r end = String c r) as Hs.
      { destruct c as [[] [] [] [] [] [] [] []]; try reflexivity. by destruct Hd. }
      rewrite Hs in H. destruct (parse_magnitude (String c r)) as [k|]; [|done].
      destruct (k <=? _); congruence. }
    unfold parse_i64. rewrite He in *.
    destruct c as [[] [] [] [] [] [] [] []]; try (by destruct Hd); rewrite Hp;
      by rewrite (proj2 (Z.leb_le _ _) Hhi).
  - change (pretty (Z.neg p)) with (String "-" (pretty_N_go (N.pos p) "")).
    destruct (pretty_N_head (N.pos p) "" eq_refl) as (c & r & He & _).
    cbn [parse_i64]. unfold parse_magnitude. rewrite He. cbn [is_empty]. rewrite <- He, parse_digits_pretty.
    cbn [parse_digits Z.of_N]. change (- Z.pos p) with (Z.neg p). by rewrite (proj2 (Z.leb_le _ _) Hlo).
Qed.

Lemma parse_i64_range s n : parse_i64 s = Some n -> is_i64 n.
Proof.
  unfold is_i64. intros H.
  assert (exists m, 0 <= m /\ ((n = m /\ m <= I64_MAX) \/ (n = - m /\ I64_MIN <= - m))) as (m & ? & ?).
  { assert (forall t m, parse_magnitude t = Some m -> 0 <= m) as Hpos.
    { intros t m. unfold parse_magnitude. destruct (is_empty t); [done|]. by apply parse_digits_nonneg. }
    unfold parse_i64 in H. repeat case_match; simplify_eq; bool_hyps; eauto 10. }
  unfold I64_MAX, I64_MIN in *. lia.
Qed.

Lemma pretty_not_blank (n : Z) : trim_is_empty (pretty n) = false.
Proof.
  assert (forall c r, is_Some (digit_value c) -> trim_is_empty (String c r) = false) as Hd.
  { intros c r [d H]. destruct c as [[] [] [] [] [] [] [] []]; try discriminate H; by destruct r as [|? [|? ?]]. }
  destruct n as [|p|p]; [reflexivity|..].
  - destruct (pretty_head (Z.pos p) ltac:(lia)) as (c & r & -> & H). by apply Hd.
  - change (pretty (Z.neg p)) with (String "-" (pretty_N_go (N.pos p) "")).
    destruct (pretty_N_head (N.pos p) "" eq_refl) as (c & r & -> & _). by destruct r as [|? [|? ?]].
Qed.

(** Normalising a storage chat id is sound: the result is the decimal
    text of a negative number (a group or a channel, never a user or zero), the
    number the operator gave or its negation, and normalising the result again
    returns it unchanged whenever the Telegram library still knows the peer. *)
Theorem chat_id_normalized dialog_id value s :
  (forall n peer, dialog_id n = Some peer -> peer = n) ->
  normalize_telegram_storage_chat_id dialog_id (Some value) = Ok s ->
  exists n, parse_i64 value = Some n /\ n <> 0 /\ s = pretty (- Z.abs n) /\
    (is_Some (dialog_id (- Z.abs n)) -> normalize_telegram_storage_chat_id dialog_id (Some s) = Ok s).
Proof.
  intros Hid. unfold normalize_telegram_storage_chat_id, required_bootstrap_value.
  destruct (trim_is_empty value); [done|]. cbn [and_then].
  destruct (parse_i64 value) as [n|] eqn:Ep; [|done]. destruct (dialog_id n) as [peer|] eqn:Ed; [|done].
  destruct (Z.eqb_spec n 0) as [|Hn]; [done|]. intros Hs. exists n. split_and!; [done..| |].
  - destruct (Z.ltb_spec 0 n); injection Hs as <-; [f_equal; lia|]. rewrite (Hid _ _ Ed). f_equal. lia.
  - assert (s = pretty (- Z.abs n)) as ->.
    { destruct (Z.ltb_spec 0 n); injection Hs as <-; [f_equal; lia|]. rewrite (Hid _ _ Ed). f_equal. lia. }
    intros [peer' Hp]. rewrite pretty_not_blank. cbn [and_then]. apply parse_i64_range in Ep.
    rewrite parse_i64_pretty by (unfold is_i64, I64_MIN, I64_MAX in *; lia).
    rewrite Hp. rewrite (Hid _ _ Hp).
    destruct (Z.eqb_spec (- Z.abs n) 0); [lia|]. destruct (Z.ltb_spec 0 (- Z.abs n)); [lia|done].
Qed.

Lemma chat_id_normalized_witness :
  normalize_telegram_storage_chat_id Some (Some "1001234567890") = Ok "-1001234567890" /\
  exists n, parse_i64 "1001234567890" = Some n /\ n <> 0.
Proof.
  split; [vm_compute; reflexivity|].
  destruct (chat_id_normalized Some "1001234567890" "-1001234567890" ltac:(congruence)
    ltac:(vm_compute; reflexivity)) as (n & Hp & Hn & _). by exists n.
Defined.
