(* ===== verification/Listing.v ===== *)
(** * Listing objects ([src/src/s3_server.rs])

    [list_bucket_page] turns the active objects of a bucket into one page of a
    listing: keys that contain the delimiter after the prefix are rolled up into
    common prefixes, objects and prefixes are merged in key order, and a page is
    cut at [max_keys] with the last key as the marker of the next one.  The
    theorems: following the markers visits every object and every common prefix
    exactly once, in order, and ends; a page never exceeds [max_keys]. *)

From Stdlib Require Import Strings.Ascii.
From S2P Require Import Prelude Errors Manifest Schema ManifestStore Buckets Requests.

(** ** Pages *)

(** The listed attributes of an object; the storage class is always
    [STANDARD]. *)
Record Object : Type := {
  ob_key : string;
  ob_last_modified : OffsetDateTime;
  ob_size : Z;
  ob_e_tag : ETag
}.

Record ListedBucketPage : Type := {
  pg_objects : list Object;
  pg_common_prefixes : list string;
  pg_is_truncated : bool;
  pg_next_marker : option string;
  pg_key_count : nat
}.

Definition object_of (manifest : ObjectManifest) : Object :=
  {| ob_key := key manifest; ob_last_modified := created_at manifest;
     ob_size := u64_as_i64 (content_length manifest);
     ob_e_tag := Strong (whole_object (m_checksum manifest)) |}.

(** [a < b] on [str]. *)
Definition text_lt (a b : string) : bool := negb (text_le b a).

(** [left.key.cmp(&right.key).then(left.object_id.cmp(&right.object_id))] *)
Definition manifest_key_le (a b : ObjectManifest) : Prop :=
  (if bool_decide (key a = key b) then text_le (object_id a) (object_id b)
   else text_le (key a) (key b)) = true.

#[export] Instance manifest_key_le_dec : RelDecision manifest_key_le.
Proof. intros a b. unfold manifest_key_le. apply _. Defined.

(** The text up to and including the first occurrence of [p] in [s]:
    [&s[..s.find(p)? + p.len()]]. *)
Fixpoint find_through (p s : string) : option string :=
  match strip_prefix p s with
  | Some _ => Some p
  | None => match s with
            | EmptyString => None
            | String c s' => match find_through p s' with
                             | Some r => Some (String c r)
                             | None => None
                             end
            end
  end.

(** [relative = key.strip_prefix(prefix).unwrap_or(key)] *)
Definition relative_key (prefix key : string) : string :=
  match strip_prefix prefix key with Some r => r | None => key end.

Definition common_prefix (prefix : string) (delimiter : option string) (key : string)
    : option string :=
  match delimiter with
  | None => None
  | Some d => match find_through d (relative_key prefix key) with
              | Some r => Some (prefix +:+ r)
              | None => None
              end
  end.

(** [BTreeSet::insert], the set as the list of its elements in order. *)
Fixpoint btree_insert (x : string) (l : list string) : list string :=
  match l with
  | [] => [x]
  | y :: l' => if bool_decide (x = y) then l
               else if text_le x y then x :: l
               else y :: btree_insert x l'
  end.

(** The loop over the sorted manifests. *)
Fixpoint roll_up (prefix : string) (delimiter : option string) (manifests : list ObjectManifest)
    (objects : list Object) (common_prefixes : list string) : list Object * list string :=
  match manifests with
  | [] => (objects, common_prefixes)
  | manifest :: rest =>
      match common_prefix prefix delimiter (key manifest) with
      | Some p => roll_up prefix delimiter rest objects (btree_insert p common_prefixes)
      | None => roll_up prefix delimiter rest (objects ++ [object_of manifest]) common_prefixes
      end
  end.

Definition non_empty (s : option string) : option string :=
  match s with
  | Some v => if is_empty v then None else Some v
  | None => None
  end.

(** The state of the merge loop: what is left of the two lists ([object_index]
    and [prefix_index] count what is gone), the page so far and its last key. *)
Record Merge : Type := {
  mg_objects : list Object;
  mg_prefixes : list string;
  mg_result_objects : list Object;
  mg_result_prefixes : list string;
  mg_total_count : nat;
  mg_last_key : option string
}.

Definition take_object (o : Object) (rest : list Object) (s : Merge) : Merge :=
  {| mg_objects := rest; mg_prefixes := mg_prefixes s;
     mg_result_objects := mg_result_objects s ++ [o];
     mg_result_prefixes := mg_result_prefixes s;
     mg_total_count := S (mg_total_count s); mg_last_key := Some (ob_key o) |}.

Definition take_prefix (p : string) (rest : list string) (s : Merge) : Merge :=
  {| mg_objects := mg_objects s; mg_prefixes := rest;
     mg_result_objects := mg_result_objects s;
     mg_result_prefixes := mg_result_prefixes s ++ [p];
     mg_total_count := S (mg_total_count s); mg_last_key := Some p |}.

(** [while total_count < max_keys]; [budget] is [max_keys - total_count]. *)
Fixpoint merge_loop (budget : nat) (s : Merge) : Merge :=
  match budget with
  | O => s
  | S budget' =>
      match mg_objects s, mg_prefixes s with
      | o :: objects, p :: prefixes =>
          if text_lt (ob_key o) p then merge_loop budget' (take_object o objects s)
          else merge_loop budget' (take_prefix p prefixes s)
      | o :: objects, [] => merge_loop budget' (take_object o objects s)
      | [], p :: prefixes => merge_loop budget' (take_prefix p prefixes s)
      | [], [] => s
      end
  end.

Definition is_nil {A} (l : list A) : bool := match l with [] => true | _ => false end.

Definition page_of (manifests : list ObjectManifest) (prefix : string)
    (delimiter resume_after : option string) (max_keys : nat) : ListedBucketPage :=
  let sorted := merge_sort manifest_key_le manifests in
  let (objects, common_prefixes) := roll_up prefix (non_empty delimiter) sorted [] [] in
  let (objects, common_prefixes) :=
    match non_empty resume_after with
    | Some marker => (List.filter (fun o => text_lt marker (ob_key o)) objects,
                      List.filter (fun p => text_lt marker p) common_prefixes)
    | None => (objects, common_prefixes)
    end in
  let s := merge_loop max_keys
    {| mg_objects := objects; mg_prefixes := common_prefixes; mg_result_objects := [];
       mg_result_prefixes := []; mg_total_count := 0; mg_last_key := None |} in
  let is_truncated := (0 <? max_keys)%nat
                      && negb (is_nil (mg_objects s) && is_nil (mg_prefixes s)) in
  let next_marker :=
    if is_truncated then
      match mg_last_key s with
      | Some k => Some k
      | None =>
          match head (mg_objects s), head (mg_prefixes s) with
          | Some o, Some p => Some (if text_lt (ob_key o) p then ob_key o else p)
          | Some o, None => Some (ob_key o)
          | None, p => p
          end
      end
    else None in
  {| pg_objects := mg_result_objects s; pg_common_prefixes := mg_result_prefixes s;
     pg_is_truncated := is_truncated; pg_next_marker := next_marker;
     pg_key_count := mg_total_count s |}.

(** ** Handlers *)

(** A computation on the store that fails with an [E]. *)
Definition IO (E A : Type) : Type := Db -> Result A E * Db.

#[export] Instance IO_ret E : MRet (IO E) | 20 := fun A a db => (Ok a, db).

#[export] Instance IO_bind E : MBind (IO E) | 20 := fun A B f m db =>
  match m db with
  | (Ok a, db') => f a db'
  | (Err e, db') => (Err e, db')
  end.

Definition raise {E A} (e : E) : IO E A := fun db => (Err e, db).

Definition map_err {E F A} (f : E -> F) (m : IO E A) : IO F A := fun db =>
  match m db with
  | (Ok a, db') => (Ok a, db')
  | (Err e, db') => (Err (f e), db')
  end.

(** A store operation called by the object-format service. *)
Definition service {A} (m : M A) : IO ObjectFormatError.t A := map_err ObjectFormatError.Metadata m.

(** .. and an S3 handler's call of the service. *)
Definition handler {A} (m : IO ObjectFormatError.t A) : IO S3Error A := map_err map_object_error m.

(** The clock is read for each manifest: [E] gives the [i]-th reading. *)
Fixpoint unexpired (E : Env) (i : nat) (l : list ObjectManifest) : list ObjectManifest :=
  match l with
  | [] => []
  | m :: l' => if is_expired m (now_utc_at E i) then unexpired E (S i) l'
               else m :: unexpired E (S i) l'
  end.

Definition service_list_bucket_manifests (E : Env) (bkt : string) (prefix : option string)
    : IO ObjectFormatError.t (list ObjectManifest) :=
  ms ← service (list_bucket_manifests bkt prefix);
  mret (unexpired E 0 ms).

Definition list_bucket_page (E : Env) (bkt prefix : string) (delimiter resume_after : option string)
    (max_keys : nat) : IO ObjectFormatError.t ListedBucketPage :=
  manifests ← service_list_bucket_manifests E bkt (Some prefix);
  mret (page_of manifests prefix delimiter resume_after max_keys).

Section Handlers.
Context (parse_rfc3339 : string -> option OffsetDateTime).

(** [input.max_keys.unwrap_or(1000).clamp(0, 1000) as usize] *)
Definition page_size (max_keys : option Z) : nat :=
  let n := match max_keys with Some n => n | None => 1000 end in
  Z.to_nat (Z.min (Z.max n 0) 1000).

Definition require_bucket (bkt : string) : IO S3Error unit :=
  found ← handler (service (bucket_exists_for parse_rfc3339 bkt));
  if (found : bool) then mret tt
  else raise (s3_error S3ErrorCode.NoSuchBucket "bucket does not exist").

Record ListObjectsInput : Type := {
  li_bucket : string;
  li_prefix : option string;
  li_delimiter : option string;
  li_marker : option string;
  li_max_keys : option Z
}.

Definition or_empty (s : option string) : string := match s with Some v => v | None => EmptyString end.

Definition list_objects (E : Env) (input : ListObjectsInput) : IO S3Error ListedBucketPage :=
  require_bucket (li_bucket input) ;;
  handler (list_bucket_page E (li_bucket input) (or_empty (li_prefix input)) (li_delimiter input)
             (li_marker input) (page_size (li_max_keys input))).

Record ListObjectsV2Input : Type := {
  l2_bucket : string;
  l2_prefix : option string;
  l2_delimiter : option string;
  l2_continuation_token : option string;
  l2_start_after : option string;
  l2_max_keys : option Z
}.

Definition resume_point (continuation_token start_after : option string) : option string :=
  match continuation_token, start_after with
  | Some c, Some s => Some (if text_le c s then s else c)
  | Some c, None => Some c
  | None, Some s => Some s
  | None, None => None
  end.

Definition list_objects_v2 (E : Env) (input : ListObjectsV2Input) : IO S3Error ListedBucketPage :=
  require_bucket (l2_bucket input) ;;
  handler (list_bucket_page E (l2_bucket input) (or_empty (l2_prefix input)) (l2_delimiter input)
             (resume_point (l2_continuation_token input) (l2_start_after input))
             (page_size (l2_max_keys input))).

(** ** Versions *)

(** [ORDER BY created_at ASC, object_id ASC] *)
Definition stored_le (a b : string * ManifestRow) : Prop :=
  (if bool_decide (om_created_at a.2 = om_created_at b.2) then text_le a.1 b.1
   else text_le (om_created_at a.2) (om_created_at b.2)) = true.

#[export] Instance stored_le_dec : RelDecision stored_le.
Proof. intros a b. unfold stored_le. apply _. Defined.

Fixpoint load_rows (l : list (string * ManifestRow)) : Result (list ObjectManifest) MetadataError :=
  match l with
  | [] => Ok []
  | e :: l' =>
      match validate (om_manifest e.2) with
      | Err msg => Err (InvalidManifest msg)
      | Ok _ => match load_rows l' with
                | Ok ms => Ok (om_manifest e.2 :: ms)
                | Err e' => Err e'
                end
      end
  end.

Definition list_manifests : M (list ObjectManifest) :=
  r ← query (fun db => load_rows (merge_sort stored_le (List.filter (fun e =>
    bool_decide (om_connection_id e.2 = active_connection_id db)) (map_to_list (object_manifests db)))));
  lift r.

Record ObjectVersion : Type := {
  ov_key : string;
  ov_is_latest : bool;
  ov_version_id : string;
  ov_object : Object
}.

Record DeleteMarkerEntry : Type := {
  dm_key : string;
  dm_last_modified : OffsetDateTime;
  dm_is_latest : bool;
  dm_version_id : string
}.

(** [sort_by_key(|m| Reverse(m.created_at))], a stable sort. *)
Definition newer_first (a b : ObjectManifest) : Prop := created_at b <= created_at a.

#[export] Instance newer_first_dec : RelDecision newer_first.
Proof. intros a b. unfold newer_first. apply _. Defined.

Definition latest_keys (manifests : list ObjectManifest) : gmap string string :=
  foldl (fun latest m => match latest !! key m with
                         | Some _ => latest
                         | None => <[key m := object_id m]> latest
                         end) ∅ manifests.

Fixpoint classify (latest : gmap string string) (manifests : list ObjectManifest)
    : list ObjectVersion * list DeleteMarkerEntry :=
  match manifests with
  | [] => ([], [])
  | m :: rest =>
      let (versions, markers) := classify latest rest in
      let is_latest := bool_decide (latest !! key m = Some (object_id m)) in
      match commit_state m with
      | CommitState.Committed =>
          ({| ov_key := key m; ov_is_latest := is_latest; ov_version_id := object_id m;
              ov_object := object_of m |} :: versions, markers)
      | CommitState.Tombstoned =>
          (versions, {| dm_key := key m; dm_last_modified := created_at m;
                        dm_is_latest := is_latest; dm_version_id := object_id m |} :: markers)
      | _ => (versions, markers)
      end
  end.

Definition list_object_versions (E : Env) (bkt : string) (prefix : option string)
    : IO S3Error (list ObjectVersion * list DeleteMarkerEntry) :=
  require_bucket bkt ;;
  let prefix := or_empty prefix in
  stored ← handler (service list_manifests);
  let manifests := merge_sort newer_first (unexpired E 0 (List.filter (fun m =>
    bool_decide (bucket m = bkt) && (is_empty prefix || is_some (strip_prefix prefix (key m)))) stored)) in
  mret (classify (latest_keys manifests) manifests).
End Handlers.

(** ** The order of keys *)

Lemma text_lt_irrefl a : text_lt a a = false.
Proof. unfold text_lt. by rewrite text_le_refl. Qed.

Lemma text_lt_trans a b c : text_lt a b = true -> text_lt b c = true -> text_lt a c = true.
Proof.
  unfold text_lt. rewrite !negb_true_iff. intros Hab Hbc. apply not_true_iff_false. intros Hca.
  apply not_true_iff_false in Hab. apply Hab. apply text_le_trans with c; [|done].
  by destruct (text_le_total b c) as [H|H]; [|rewrite H in Hbc].
Qed.

Lemma text_lt_total a b : a <> b -> text_lt a b = true \/ text_lt b a = true.
Proof.
  intros Hne. unfold text_lt. rewrite !negb_true_iff.
  destruct (text_le a b) eqn:E1, (text_le b a) eqn:E2; auto.
  by destruct Hne; apply text_le_antisym.
Qed.

Lemma text_le_lt a b : text_le a b = true -> a <> b -> text_lt a b = true.
Proof.
  intros H Hne. unfold text_lt. apply negb_true_iff, not_true_iff_false. intros Hb.
  by apply Hne, text_le_antisym.
Qed.

(** ** Entries: what a page lists *)

Inductive Entry : Type :=
| Listed (o : Object)
| Rolled (p : string).

Definition entry_key (e : Entry) : string :=
  match e with Listed o => ob_key o | Rolled p => p end.

Definition listed (e : Entry) : option Object :=
  match e with Listed o => Some o | Rolled _ => None end.

Definition rolled (e : Entry) : option string :=
  match e with Listed _ => None | Rolled p => Some p end.

Definition before (e f : Entry) : Prop := text_lt (entry_key e) (entry_key f) = true.

#[local] Instance before_dec : RelDecision before.
Proof. intros e f. unfold before. apply _. Defined.

#[local] Instance before_antisymm : AntiSymm (=) before.
Proof.
  intros e f H1 H2. unfold before in *. pose proof (text_lt_trans _ _ _ H1 H2) as H.
  by rewrite text_lt_irrefl in H.
Qed.

#[local] Instance before_transitive : Transitive before.
Proof. intros e f g. unfold before. apply text_lt_trans. Qed.

(** The merged listing. *)
Definition entries (objects : list Object) (prefixes : list string) : list Entry :=
  list_merge before (Listed <$> objects) (Rolled <$> prefixes).

Lemma entries_perm os ps : entries os ps ≡ₚ (Listed <$> os) ++ (Rolled <$> ps).
Proof. apply merge_Permutation. Qed.

Lemma entries_nil_r os : entries os [] = Listed <$> os.
Proof. by destruct os. Qed.

Lemma entries_nil_l ps : entries [] ps = Rolled <$> ps.
Proof. by destruct ps. Qed.

Lemma entries_cons o os p ps :
  entries (o :: os) (p :: ps) =
  if text_lt (ob_key o) p then Listed o :: entries os (p :: ps)
  else Rolled p :: entries (o :: os) ps.
Proof.
  unfold entries. cbn. case_decide as H; unfold before in H; cbn in H.
  - by rewrite H.
  - by apply not_true_iff_false in H as ->.
Qed.

Lemma omap_listed (os : list Object) : omap listed (Listed <$> os) = os.
Proof. induction os; cbn; congruence. Qed.

Lemma omap_listed_rolled (ps : list string) : omap listed (Rolled <$> ps) = [].
Proof. by induction ps. Qed.

Lemma omap_rolled (ps : list string) : omap rolled (Rolled <$> ps) = ps.
Proof. induction ps; cbn; congruence. Qed.

Lemma omap_rolled_listed (os : list Object) : omap rolled (Listed <$> os) = [].
Proof. by induction os. Qed.

Lemma entries_listed os ps : omap listed (entries os ps) = os.
Proof.
  revert ps. induction os as [|o os IH]; intros ps.
  - by rewrite entries_nil_l, omap_listed_rolled.
  - induction ps as [|p ps IHp]; [by rewrite entries_nil_r, omap_listed|].
    rewrite entries_cons. case_match; [|exact IHp].
    change (o :: omap listed (entries os (p :: ps)) = o :: os). by rewrite IH.
Qed.

Lemma entries_rolled os ps : omap rolled (entries os ps) = ps.
Proof.
  revert ps. induction os as [|o os IH]; intros ps.
  - by rewrite entries_nil_l, omap_rolled.
  - induction ps as [|p ps IHp]; [by rewrite entries_nil_r, omap_rolled_listed|].
    rewrite entries_cons. case_match; [exact (IH (p :: ps))|].
    change (p :: omap rolled (entries (o :: os) ps) = p :: ps). by rewrite IHp.
Qed.

(** Two strictly increasing lists with no key in common merge into one. *)
Lemma entries_sorted os ps :
  StronglySorted before (Listed <$> os) -> StronglySorted before (Rolled <$> ps) ->
  (forall o, In o os -> ~ In (ob_key o) ps) -> StronglySorted before (entries os ps).
Proof.
  revert ps. induction os as [|o os IH]; intros ps Ho Hp Hd; [by rewrite entries_nil_l|].
  induction ps as [|p ps IHp]; [by rewrite entries_nil_r|].
  rewrite !fmap_cons in *. apply StronglySorted_inv in Ho as Ho'. destruct Ho' as [Ho1 Ho2].
  apply StronglySorted_inv in Hp as Hp'. destruct Hp' as [Hp1 Hp2].
  rewrite entries_cons. destruct (text_lt (ob_key o) p) eqn:E.
  - constructor.
    + apply IH; [done|rewrite fmap_cons; done|]. intros o' Hin. apply Hd. by right.
    + rewrite entries_perm. apply Forall_app_2; [done|]. rewrite fmap_cons. constructor; [done|].
      eapply Forall_impl; [exact Hp2|]. intros e. apply transitivity. exact E.
  - assert (before (Rolled p) (Listed o)) as Hb.
    { unfold before; cbn. destruct (text_lt_total (ob_key o) p) as [H|H]; [|congruence|done].
      intros He. apply (Hd o); [by left|]. left. by rewrite He. }
    constructor.
    + apply IHp; [done|]. intros o' Hin H. apply (Hd o' Hin). by right.
    + rewrite entries_perm. apply Forall_app_2; [|done]. rewrite fmap_cons. constructor; [done|].
      eapply Forall_impl; [exact Ho2|]. intros e. by apply transitivity.
Qed.

(** ** The merge loop *)

(** What [s'] is when the loop has taken [n] entries from [s]. *)
Definition advanced (n : nat) (s s' : Merge) : Prop :=
  let all := entries (mg_objects s) (mg_prefixes s) in
  mg_result_objects s' = mg_result_objects s ++ omap listed (take n all) /\
  mg_result_prefixes s' = mg_result_prefixes s ++ omap rolled (take n all) /\
  entries (mg_objects s') (mg_prefixes s') = drop n all /\
  mg_total_count s' = (mg_total_count s + length (take n all))%nat /\
  mg_last_key s' = match last (take n all) with
                   | Some e => Some (entry_key e)
                   | None => mg_last_key s
                   end.

Lemma advanced_step n s s1 s' e rest :
  entries (mg_objects s) (mg_prefixes s) = e :: rest ->
  entries (mg_objects s1) (mg_prefixes s1) = rest ->
  mg_result_objects s1 = mg_result_objects s ++ omap listed [e] ->
  mg_result_prefixes s1 = mg_result_prefixes s ++ omap rolled [e] ->
  mg_total_count s1 = S (mg_total_count s) -> mg_last_key s1 = Some (entry_key e) ->
  advanced n s1 s' -> advanced (S n) s s'.
Proof.
  intros Hall Hrest Hro Hrp Hc Hk (H1 & H2 & H3 & H4 & H5). unfold advanced.
  rewrite Hrest in *. rewrite H1, H2, H3, H4, H5, Hro, Hrp, Hc, Hk, Hall.
  cbn [take drop firstn skipn length]. rewrite <- !app_assoc, <- !omap_app. split_and!; try done; [lia|].
  destruct (take n rest) as [|x t] eqn:Et; [done|].
  rewrite last_cons_cons. by destruct (last (x :: t)) eqn:El; [|by apply last_None in El].
Qed.

Lemma merge_loop_advances n s : advanced n s (merge_loop n s).
Proof.
  revert s. induction n as [|n IH]; intros s.
  { unfold advanced. cbn [merge_loop]. rewrite !take_0, !drop_0. cbn. by rewrite !app_nil_r, Nat.add_0_r. }
  cbn [merge_loop]. destruct (mg_objects s) as [|o os] eqn:Eo, (mg_prefixes s) as [|p ps] eqn:Ep.
  - unfold advanced. rewrite Eo, Ep. cbn. by rewrite !app_nil_r, Nat.add_0_r.
  - apply (advanced_step _ _ (take_prefix p ps s) _ (Rolled p) (Rolled <$> ps));
      [rewrite Eo, Ep; apply entries_nil_l
      |cbn [take_prefix mg_objects mg_prefixes]; rewrite Eo; apply entries_nil_l
      |cbn; by rewrite ?app_nil_r..|apply IH].
  - apply (advanced_step _ _ (take_object o os s) _ (Listed o) (Listed <$> os));
      [rewrite Eo, Ep; apply entries_nil_r
      |cbn [take_object mg_objects mg_prefixes]; rewrite Ep; apply entries_nil_r
      |cbn; by rewrite ?app_nil_r..|apply IH].
  - destruct (text_lt (ob_key o) p) eqn:El.
    + apply (advanced_step _ _ (take_object o os s) _ (Listed o) (entries os (p :: ps)));
        [by rewrite Eo, Ep, entries_cons, El|cbn [take_object mg_objects mg_prefixes]; by rewrite Ep
        |cbn; by rewrite ?app_nil_r..|apply IH].
    + apply (advanced_step _ _ (take_prefix p ps s) _ (Rolled p) (entries (o :: os) ps));
        [by rewrite Eo, Ep, entries_cons, El|cbn [take_prefix mg_objects mg_prefixes]; by rewrite Eo
        |cbn; by rewrite ?app_nil_r..|apply IH].
Qed.

(** ** One page *)

(** The objects and common prefixes of a whole listing. *)
Definition listing (manifests : list ObjectManifest) (prefix : string) (delimiter : option string)
    : list Object * list string :=
  roll_up prefix (non_empty delimiter) (merge_sort manifest_key_le manifests) [] [].

Definition after (marker : option string) (e : Entry) : bool :=
  match non_empty marker with Some m => text_lt m (entry_key e) | None => true end.

Definition all_entries (manifests : list ObjectManifest) (prefix : string)
    (delimiter : option string) : list Entry :=
  let (objects, prefixes) := listing manifests prefix delimiter in entries objects prefixes.

Lemma StronglySorted_List_filter {A} (R : A -> A -> Prop) (f : A -> bool) (l : list A) :
  StronglySorted R l -> StronglySorted R (List.filter f l).
Proof.
  induction 1 as [|x l Hl IH Hx]; cbn; [constructor|].
  destruct (f x); [|done]. constructor; [done|].
  rewrite Forall_forall in *. intros y Hy. apply Hx. rewrite list_elem_of_In in *.
  by apply filter_In in Hy as [].
Qed.

Lemma filter_perm {A} (f : A -> bool) (l l' : list A) :
  l ≡ₚ l' -> List.filter f l ≡ₚ List.filter f l'.
Proof.
  induction 1 as [|x l l' _ IH|x y l|l l' l'' _ IH1 _ IH2]; cbn; [done| | |by etransitivity].
  - by destruct (f x); rewrite IH.
  - destruct (f x), (f y); try reflexivity. apply Permutation_swap.
Qed.

Lemma filter_true_id {A} (f : A -> bool) (l : list A) :
  (forall x, In x l -> f x = true) -> List.filter f l = l.
Proof.
  induction l as [|x l IH]; cbn; intros H; [done|]. rewrite (H x) by auto. f_equal. apply IH. auto.
Qed.

Lemma filter_false_nil {A} (f : A -> bool) (l : list A) :
  (forall x, In x l -> f x = false) -> List.filter f l = [].
Proof.
  induction l as [|x l IH]; cbn; intros H; [done|]. rewrite (H x) by auto. apply IH. auto.
Qed.

Lemma filter_fmap_listed (f : Entry -> bool) (os : list Object) :
  List.filter f (Listed <$> os) = Listed <$> List.filter (fun o => f (Listed o)) os.
Proof. induction os as [|o os IH]; cbn; [done|]. case_match; cbn; by rewrite IH. Qed.

Lemma filter_fmap_rolled (f : Entry -> bool) (ps : list string) :
  List.filter f (Rolled <$> ps) = Rolled <$> List.filter (fun p => f (Rolled p)) ps.
Proof. induction ps as [|o os IH]; cbn; [done|]. case_match; cbn; by rewrite IH. Qed.

(** Filtering the two lists filters the merged one. *)
Lemma entries_filter (f : Entry -> bool) os ps :
  StronglySorted before (Listed <$> os) -> StronglySorted before (Rolled <$> ps) ->
  (forall o, In o os -> ~ In (ob_key o) ps) ->
  entries (List.filter (fun o => f (Listed o)) os) (List.filter (fun p => f (Rolled p)) ps)
  = List.filter f (entries os ps).
Proof.
  intros Ho Hp Hd. apply (StronglySorted_unique before).
  - apply entries_sorted.
    + rewrite <- filter_fmap_listed. by apply StronglySorted_List_filter.
    + rewrite <- filter_fmap_rolled. by apply StronglySorted_List_filter.
    + intros o [Hin _]%filter_In [Hk _]%filter_In. by apply (Hd o).
  - by apply StronglySorted_List_filter, entries_sorted.
  - rewrite entries_perm, (filter_perm f _ _ (entries_perm os ps)), List.filter_app.
    by rewrite filter_fmap_listed, filter_fmap_rolled.
Qed.

(** ** Rolling up *)

Lemma append_nil_r (s : string) : s +:+ "" = s.
Proof. induction s as [|c s IH]; [done|]. rewrite append_cons. by rewrite IH. Qed.

Lemma find_through_unfold p s :
  find_through p s =
  match strip_prefix p s with
  | Some _ => Some p
  | None => match s with
            | EmptyString => None
            | String c s' => match find_through p s' with
                             | Some r => Some (String c r)
                             | None => None
                             end
            end
  end.
Proof. by destruct s. Qed.

Lemma find_through_self p : find_through p p = Some p.
Proof.
  rewrite find_through_unfold. assert (strip_prefix p p = Some "") as ->; [|done].
  rewrite <- (append_nil_r p) at 2. apply strip_prefix_app.
Qed.

Lemma find_through_again p s r : find_through p s = Some r -> is_Some (find_through p r).
Proof.
  revert r. induction s as [|c s IH]; intros r; rewrite find_through_unfold;
    (destruct (strip_prefix p _) eqn:E; [intros [= <-]|]).
  - rewrite find_through_self. eauto.
  - done.
  - rewrite find_through_self. eauto.
  - destruct (find_through p s) as [r'|] eqn:Er; [|done]. intros [= <-].
    rewrite find_through_unfold. destruct (strip_prefix p (String c r')); [eauto|].
    destruct (IH r' eq_refl) as [x ->]. eauto.
Qed.

(** A common prefix is never the key of a listed object. *)
Lemma common_prefix_fresh prefix d k p :
  common_prefix prefix d k = Some p -> common_prefix prefix d p <> None.
Proof.
  unfold common_prefix. destruct d as [d|]; [|done].
  destruct (find_through d (relative_key prefix k)) as [r|] eqn:E; [|done]. intros [= <-].
  unfold relative_key. rewrite strip_prefix_app.
  by destruct (find_through_again _ _ _ E) as [x ->].
Qed.

Definition rolls (prefix : string) (d : option string) (m : ObjectManifest) : option string :=
  common_prefix prefix d (key m).

Definition stays (prefix : string) (d : option string) (m : ObjectManifest) : bool :=
  negb (is_some (rolls prefix d m)).

Lemma roll_up_spec prefix d ms os ps :
  roll_up prefix d ms os ps =
  (os ++ (object_of <$> List.filter (stays prefix d) ms),
   foldl (fun l p => btree_insert p l) ps (omap (rolls prefix d) ms)).
Proof.
  revert os ps. induction ms as [|m ms IH]; intros os ps; cbn [roll_up List.filter omap list_omap foldl].
  - cbn. by rewrite app_nil_r.
  - change (common_prefix prefix d (key m)) with (rolls prefix d m). unfold stays at 1.
    destruct (rolls prefix d m) eqn:E; cbn; rewrite IH; [by rewrite ?E|]; rewrite ?E. by rewrite <- app_assoc.
Qed.

Definition text_before (a b : string) : Prop := text_lt a b = true.

Lemma In_btree_insert x y l : In y (btree_insert x l) <-> y = x \/ In y l.
Proof.
  induction l as [|z l IH]; cbn; [intuition|].
  case_bool_decide as Hz; [subst; cbn; intuition congruence|].
  destruct (text_le x z); cbn; [intuition congruence|]. rewrite IH. intuition.
Qed.

Lemma btree_insert_sorted x l :
  StronglySorted text_before l -> StronglySorted text_before (btree_insert x l).
Proof.
  induction 1 as [|y l Hl IH Hy]; cbn; [by repeat constructor|].
  case_bool_decide as Hxy; [by constructor|]. destruct (text_le x y) eqn:E.
  - assert (text_before x y) by by apply text_le_lt. constructor; [by constructor|].
    constructor; [done|]. eapply Forall_impl; [exact Hy|]. intros z. by apply text_lt_trans.
  - constructor; [done|]. rewrite Forall_forall in *. intros z Hz.
    apply list_elem_of_In, In_btree_insert in Hz as [->|Hz].
    + unfold text_before, text_lt. by rewrite E.
    + apply Hy. by apply list_elem_of_In.
Qed.

Lemma btree_foldl_sorted l ps :
  StronglySorted text_before l -> StronglySorted text_before (foldl (fun l p => btree_insert p l) l ps).
Proof. revert l. induction ps as [|p ps IH]; intros l Hl; [done|]. cbn. by apply IH, btree_insert_sorted. Qed.

Lemma In_btree_foldl l ps y :
  In y (foldl (fun l p => btree_insert p l) l ps) <-> In y l \/ In y ps.
Proof.
  revert l. induction ps as [|p ps IH]; intros l; cbn; [intuition|].
  rewrite IH, In_btree_insert. intuition.
Qed.

(** ** The order of a listing *)

#[local] Instance manifest_key_le_total : Total manifest_key_le.
Proof.
  intros a b. unfold manifest_key_le.
  destruct (decide (key a = key b)) as [E|E].
  - rewrite !bool_decide_eq_true_2 by done. apply text_le_total.
  - rewrite !bool_decide_eq_false_2 by auto. apply text_le_total.
Qed.

#[local] Instance manifest_key_le_trans : Transitive manifest_key_le.
Proof.
  intros a b c. unfold manifest_key_le. intros Hab Hbc.
  destruct (decide (key a = key b)) as [E1|E1], (decide (key b = key c)) as [E2|E2];
    rewrite ?(bool_decide_eq_true_2 _ E1), ?(bool_decide_eq_false_2 _ E1) in Hab;
    rewrite ?(bool_decide_eq_true_2 _ E2), ?(bool_decide_eq_false_2 _ E2) in Hbc.
  - rewrite bool_decide_eq_true_2 by congruence. by eapply text_le_trans.
  - rewrite bool_decide_eq_false_2 by congruence. by rewrite E1.
  - rewrite bool_decide_eq_false_2 by congruence. by rewrite <- E2.
  - destruct (decide (key a = key c)) as [E3|E3].
    + destruct E1. apply text_le_antisym; [done|]. by rewrite E3.
    + rewrite bool_decide_eq_false_2 by done. by eapply text_le_trans.
Qed.

Lemma sorted_objects (f : ObjectManifest -> bool) (l : list ObjectManifest) :
  StronglySorted manifest_key_le l -> NoDup (key <$> l) ->
  StronglySorted before (Listed <$> (object_of <$> List.filter f l)).
Proof.
  induction 1 as [|m l Hl IH Hm]; [constructor|]. rewrite fmap_cons. intros [Hn Hnd]%NoDup_cons.
  cbn [List.filter]. destruct (f m); [|by apply IH]. rewrite !fmap_cons. constructor; [by apply IH|].
  rewrite !Forall_fmap, Forall_forall in *. intros m' Hin.
  assert (m' ∈ l) as Hin' by (apply list_elem_of_In in Hin; apply filter_In in Hin as [Hin _];
    by apply list_elem_of_In).
  specialize (Hm m' Hin'). unfold before; cbn. unfold manifest_key_le in Hm.
  assert (key m <> key m') as Hne.
  { intros He. apply Hn. rewrite He. apply list_elem_of_fmap. eauto. }
  rewrite bool_decide_eq_false_2 in Hm by done. by apply text_le_lt.
Qed.

Lemma sorted_prefixes (ps : list string) :
  StronglySorted text_before ps -> StronglySorted before (Rolled <$> ps).
Proof.
  induction 1 as [|p l Hl IH Hp]; [constructor|]. rewrite fmap_cons. constructor; [done|].
  by rewrite Forall_fmap.
Qed.

Section Listing.
Context (manifests : list ObjectManifest) (prefix : string) (delimiter : option string).
Context (Hkeys : NoDup (key <$> manifests)) (Hnonempty : Forall (fun m => key m <> "") manifests).

Let sorted := merge_sort manifest_key_le manifests.
Let d := non_empty delimiter.

Lemma sorted_perm : sorted ≡ₚ manifests.
Proof using. apply merge_sort_Permutation. Qed.

Lemma listing_objects : (listing manifests prefix delimiter).1
  = object_of <$> List.filter (stays prefix d) sorted.
Proof using. unfold listing. by rewrite roll_up_spec. Qed.

Lemma listing_prefixes_sorted : StronglySorted text_before (listing manifests prefix delimiter).2.
Proof using. unfold listing. rewrite roll_up_spec. apply btree_foldl_sorted. constructor. Qed.

Lemma In_listing_prefixes p : In p (listing manifests prefix delimiter).2 <->
  exists m, In m manifests /\ rolls prefix d m = Some p.
Proof using.
  unfold listing. rewrite roll_up_spec. cbn [snd]. rewrite In_btree_foldl, <- !list_elem_of_In.
  rewrite list_elem_of_omap. setoid_rewrite <- list_elem_of_In. fold sorted d. split.
  - intros [[]%not_elem_of_nil|(m & Hm & H)]. exists m. by rewrite <- sorted_perm.
  - intros (m & Hm & H). right. exists m. by rewrite sorted_perm.
Qed.

Lemma listing_objects_sorted :
  StronglySorted before (Listed <$> (listing manifests prefix delimiter).1).
Proof using Hkeys.
  rewrite listing_objects. apply sorted_objects.
  - apply Sorted_StronglySorted; [apply _|]. apply Sorted_merge_sort, _.
  - by rewrite sorted_perm.
Qed.

Lemma listing_disjoint o :
  In o (listing manifests prefix delimiter).1 -> ~ In (ob_key o) (listing manifests prefix delimiter).2.
Proof using.
  rewrite listing_objects, <- list_elem_of_In, list_elem_of_fmap.
  intros (m & -> & Hm%list_elem_of_In). apply filter_In in Hm as [_ Hm]. unfold stays in Hm.
  rewrite In_listing_prefixes. intros (m' & _ & Hr). unfold rolls in *. cbn in Hr.
  apply common_prefix_fresh in Hr. by destruct (common_prefix prefix d (key m)).
Qed.

Lemma all_entries_eq : all_entries manifests prefix delimiter
  = entries (listing manifests prefix delimiter).1 (listing manifests prefix delimiter).2.
Proof using. unfold all_entries. by destruct (listing manifests prefix delimiter). Qed.

Lemma all_entries_sorted : StronglySorted before (all_entries manifests prefix delimiter).
Proof using Hkeys.
  rewrite all_entries_eq. apply entries_sorted; [apply listing_objects_sorted| |apply listing_disjoint].
  apply sorted_prefixes, listing_prefixes_sorted.
Qed.

Definition rest_after (marker : option string) : list Entry :=
  List.filter (after marker) (all_entries manifests prefix delimiter).

Lemma is_nil_entries os ps : is_nil os && is_nil ps = is_nil (entries os ps).
Proof using.
  destruct os as [|o os]; [by rewrite entries_nil_l; destruct ps|].
  destruct ps as [|p ps]; [done|]. rewrite entries_cons. by destruct (text_lt _ _).
Qed.

Lemma page_of_spec (marker : option string) (n : nat) :
  let rest := rest_after marker in
  let page := page_of manifests prefix delimiter marker n in
  pg_objects page = omap listed (take n rest) /\
  pg_common_prefixes page = omap rolled (take n rest) /\
  pg_key_count page = length (take n rest) /\
  pg_is_truncated page = (0 <? n)%nat && negb (is_nil (drop n rest)) /\
  (pg_is_truncated page = true -> pg_next_marker page = entry_key <$> last (take n rest)).
Proof using Hkeys.
  cbv zeta. unfold page_of, rest_after. fold sorted d. rewrite all_entries_eq.
  pose proof listing_objects_sorted as Hos. pose proof listing_prefixes_sorted as Hps.
  pose proof listing_disjoint as Hdis. unfold listing in Hos, Hps, Hdis |- *.
  fold sorted d in Hos, Hps, Hdis |- *.
  destruct (roll_up prefix d sorted [] []) as [os ps]. cbn [fst snd] in *.
  rewrite <- (entries_filter (after marker) os ps) by auto using sorted_prefixes.
  unfold after. set (os' := List.filter _ os). set (ps' := List.filter _ ps).
  assert (match non_empty marker with
          | Some m => (List.filter (fun o => text_lt m (ob_key o)) os, List.filter (fun p => text_lt m p) ps)
          | None => (os, ps) end = (os', ps')) as ->.
  { unfold os', ps'. destruct (non_empty marker); [done|]. by rewrite !filter_true_id. }
  destruct (merge_loop_advances n {| mg_objects := os'; mg_prefixes := ps'; mg_result_objects := [];
    mg_result_prefixes := []; mg_total_count := 0; mg_last_key := None |}) as (H1 & H2 & H3 & H4 & H5).
  cbn [mg_objects mg_prefixes mg_result_objects mg_result_prefixes mg_total_count mg_last_key
       app Nat.add] in H1, H2, H3, H4, H5.
  cbn [pg_objects pg_common_prefixes pg_key_count pg_is_truncated pg_next_marker].
  rewrite H1, H2, H4, H5, is_nil_entries, H3. split_and!; try done. intros Ht. rewrite Ht.
  apply andb_true_iff in Ht as [Hn Ht]. destruct (last (take n (entries os' ps'))) eqn:El; [done|].
  apply last_None in El. destruct n as [|n]; [done|].
  destruct (entries os' ps'); [done|]. discriminate El.
Qed.

(** A page lists at most [max_keys] entries and counts them. *)
Lemma page_within_limit (marker : option string) (n : nat) :
  let page := page_of manifests prefix delimiter marker n in
  (pg_key_count page <= n)%nat.
Proof using Hkeys.
  cbv zeta. destruct (page_of_spec marker n) as (_ & _ & Hc & _). rewrite Hc, length_take. lia.
Qed.

Lemma find_through_nonempty p s r : p <> "" -> find_through p s = Some r -> r <> "".
Proof using.
  intros Hp. rewrite find_through_unfold. destruct (strip_prefix p s); [by intros [= <-]|].
  destruct s; [done|]. by destruct (find_through p s); intros [= <-].
Qed.

Lemma entry_key_nonempty e : In e (all_entries manifests prefix delimiter) -> entry_key e <> "".
Proof using Hnonempty.
  rewrite all_entries_eq, <- list_elem_of_In, entries_perm, elem_of_app, !list_elem_of_fmap.
  intros [(o & -> & Ho)|(p & -> & Hp)]; cbn.
  - rewrite listing_objects in Ho. apply list_elem_of_fmap in Ho as (m & -> & Hm). cbn.
    apply list_elem_of_In, filter_In in Hm as [Hm _]. rewrite Forall_forall in Hnonempty.
    apply Hnonempty. rewrite <- sorted_perm. by apply list_elem_of_In.
  - apply list_elem_of_In, In_listing_prefixes in Hp as (m & _ & Hm). unfold rolls, common_prefix in Hm.
    destruct d as [x|] eqn:Ed; [|done].
    destruct (find_through x (relative_key prefix (key m))) as [r|] eqn:Er; [|done].
    injection Hm as <-. apply find_through_nonempty in Er; [by destruct prefix|].
    unfold d, non_empty in Ed. destruct delimiter as [[|]|]; by simplify_eq/=.
Qed.

(** The marker of an entry resumes right behind it. *)
Lemma rest_after_entry (i : nat) e :
  all_entries manifests prefix delimiter !! i = Some e ->
  rest_after (Some (entry_key e)) = drop (S i) (all_entries manifests prefix delimiter).
Proof using Hkeys Hnonempty.
  intros Hi. pose proof (entry_key_nonempty e) as Hne. pose proof all_entries_sorted as Hs.
  assert (non_empty (Some (entry_key e)) = Some (entry_key e)) as He.
  { cbn. destruct (entry_key e) eqn:E; [|done].
    destruct Hne; [|done]. apply list_elem_of_In, list_elem_of_lookup. eauto. }
  unfold rest_after. set (M := all_entries manifests prefix delimiter) in *.
  rewrite <- (take_drop_middle M i e Hi) at 1. rewrite List.filter_app. cbn [List.filter].
  unfold after. rewrite !He, text_lt_irrefl.
  rewrite <- (take_drop_middle M i e Hi) in Hs. apply StronglySorted_app in Hs as (Hlt & _ & Hr).
  apply StronglySorted_inv in Hr as [_ Hr].
  rewrite filter_false_nil, filter_true_id; [done| |].
  - rewrite Forall_forall in Hr. intros x Hx. apply Hr. by apply list_elem_of_In.
  - intros x Hx. apply not_true_iff_false. intros Hc.
    specialize (Hlt x e). pose proof (Hlt ltac:(by apply list_elem_of_In) ltac:(left)) as Hb.
    pose proof (text_lt_trans _ _ _ Hc Hb) as H. by rewrite text_lt_irrefl in H.
Qed.

Lemma btree_insert_length x l : (length (btree_insert x l) <= S (length l))%nat.
Proof using. induction l as [|y l IH]; cbn; [lia|]. repeat case_match; cbn in *; lia. Qed.

Lemma btree_foldl_length l ps :
  (length (foldl (fun l p => btree_insert p l) l ps) <= length l + length ps)%nat.
Proof using.
  revert l. induction ps as [|p ps IH]; intros l; cbn; [lia|].
  specialize (IH (btree_insert p l)). pose proof (btree_insert_length p l). lia.
Qed.

Lemma omap_filter_length (l : list ObjectManifest) :
  (length (List.filter (stays prefix d) l) + length (omap (rolls prefix d) l) = length l)%nat.
Proof using.
  induction l as [|m l IH]; [done|]. cbn [List.filter omap list_omap]. unfold stays at 1.
  destruct (rolls prefix d m); cbn in *; lia.
Qed.

(** A listing has at most as many entries as there are objects. *)
Lemma all_entries_length : (length (all_entries manifests prefix delimiter) <= length manifests)%nat.
Proof using.
  rewrite all_entries_eq, entries_perm, length_app, !length_fmap, listing_objects, length_fmap.
  unfold listing. rewrite roll_up_spec. cbn [snd]. fold sorted d.
  pose proof (btree_foldl_length [] (omap (rolls prefix d) sorted)).
  pose proof (omap_filter_length sorted). rewrite (Permutation_length sorted_perm) in *. cbn in *. lia.
Qed.

(** A client that follows the markers. *)
Fixpoint follow (fuel : nat) (page : option string -> ListedBucketPage) (marker : option string)
    : option (list Object * list string) :=
  match fuel with
  | O => None
  | S fuel' =>
      let p := page marker in
      if pg_is_truncated p then
        match follow fuel' page (pg_next_marker p) with
        | Some (os, ps) => Some (pg_objects p ++ os, pg_common_prefixes p ++ ps)
        | None => None
        end
      else Some (pg_objects p, pg_common_prefixes p)
  end.

Lemma follow_from (n fuel i : nat) (marker : option string) :
  (0 < n)%nat -> rest_after marker = drop i (all_entries manifests prefix delimiter) ->
  (length (rest_after marker) < fuel)%nat ->
  follow fuel (fun marker => page_of manifests prefix delimiter marker n) marker
  = Some (omap listed (rest_after marker), omap rolled (rest_after marker)).
Proof using Hkeys Hnonempty.
  intros Hn. revert i marker. induction fuel as [|fuel IH]; intros i marker Hr Hf; [lia|].
  cbn [follow]. destruct (page_of_spec marker n) as (H1 & H2 & _ & H4 & H5).
  destruct (pg_is_truncated _) eqn:Et.
  - rewrite (H5 eq_refl). symmetry in H4. apply andb_true_iff in H4 as [_ H4].
    set (rest := rest_after marker) in *.
    assert (n < length rest)%nat as Hl.
    { destruct (decide (n < length rest)%nat); [done|]. by rewrite drop_ge in H4 by lia. }
    destruct (lookup_lt_is_Some_2 rest (n - 1)) as [e He]; [lia|].
    assert (last (take n rest) = Some e) as ->.
    { rewrite last_lookup, length_take. replace (Init.Nat.pred (n `min` length rest)) with (n - 1)%nat by lia.
      by rewrite lookup_take_lt by lia. }
    cbn [fmap option_fmap option_map]. rewrite Hr, lookup_drop in He.
    pose proof (rest_after_entry _ e He) as Hnext.
    replace (S (i + (n - 1))) with (i + n)%nat in Hnext by lia.
    rewrite (IH (i + n)%nat) by (rewrite Hnext; try done; rewrite <- drop_drop, <- Hr, length_drop; lia).
    rewrite Hnext, <- drop_drop, <- Hr, H1, H2, <- !omap_app, take_drop. done.
  - rewrite H1, H2. destruct n as [|n]; [lia|]. cbn [Nat.ltb Nat.leb andb] in H4.
    symmetry in H4. apply negb_false_iff in H4.
    destruct (drop (S n) (rest_after marker)) eqn:Ed; [|done].
    assert (take (S n) (rest_after marker) = rest_after marker) as ->; [|done].
    rewrite <- (take_drop (S n) (rest_after marker)) at 2. by rewrite Ed, app_nil_r.
Qed.
End Listing.

(** ** Properties of listings *)

(** C15: following the markers of a listing visits everything once and in order:
    with pages of at least one entry and enough requests (one more than there
    are entries), the collected objects are exactly the objects that are not
    rolled up, in strictly increasing key order, and the collected prefixes are
    exactly the common prefixes of the others, each once, in increasing order. *)
Theorem listing_pages_complete (manifests : list ObjectManifest) (prefix : string)
    (delimiter : option string) (n fuel : nat) (Hn : (0 < n)%nat)
    (Hkeys : NoDup (key <$> manifests)) (Hnonempty : Forall (fun m => key m <> "") manifests)
    (Hfuel : (length manifests < fuel)%nat) :
  let group m := common_prefix prefix (non_empty delimiter) (key m) in
  exists objects prefixes,
    follow fuel (fun marker => page_of manifests prefix delimiter marker n) None
      = Some (objects, prefixes) /\
    objects ≡ₚ object_of <$> List.filter (fun m => negb (is_some (group m))) manifests /\
    StronglySorted text_before (ob_key <$> objects) /\
    StronglySorted text_before prefixes /\
    forall p, In p prefixes <-> exists m, In m manifests /\ group m = Some p.
Proof.
  cbv zeta. exists (listing manifests prefix delimiter).1, (listing manifests prefix delimiter).2.
  assert (rest_after manifests prefix delimiter None = all_entries manifests prefix delimiter) as Hall.
  { unfold rest_after. by apply filter_true_id. }
  split_and!.
  - rewrite (follow_from _ _ _ Hkeys Hnonempty n fuel 0 None Hn); [|by rewrite Hall|].
    2: { rewrite Hall. eapply Nat.le_lt_trans; [apply all_entries_length|exact Hfuel]. }
    rewrite Hall, all_entries_eq, entries_listed, entries_rolled. done.
  - rewrite listing_objects. apply fmap_Permutation, filter_perm, sorted_perm.
  - pose proof (listing_objects_sorted manifests prefix delimiter Hkeys) as Hs.
    revert Hs. generalize (listing manifests prefix delimiter).1. intros os.
    induction os as [|o os IH]; [constructor|]. rewrite !fmap_cons. intros [Hs Ho]%StronglySorted_inv.
    constructor; [by apply IH|]. by rewrite !Forall_fmap in *.
  - apply listing_prefixes_sorted.
  - apply In_listing_prefixes.
Qed.

(** a page never lists more than [max_keys] objects and prefixes together, and
    reports their number; the handlers never ask for more than 1000. *)
Theorem page_size_bounded (manifests : list ObjectManifest) (prefix : string)
    (delimiter marker : option string) (max_keys : option Z)
    (Hkeys : NoDup (key <$> manifests)) :
  let page := page_of manifests prefix delimiter marker (page_size max_keys) in
  pg_key_count page = (length (pg_objects page) + length (pg_common_prefixes page))%nat /\
  (pg_key_count page <= page_size max_keys)%nat /\ (page_size max_keys <= 1000)%nat.
Proof.
  cbv zeta. destruct (page_of_spec _ prefix delimiter Hkeys marker (page_size max_keys))
    as (H1 & H2 & H3 & _). split_and!.
  - rewrite H1, H2, H3. generalize (take (page_size max_keys) (rest_after manifests prefix delimiter marker)).
    intros l. induction l as [|[o|p] l IH]; cbn in *; lia.
  - by apply page_within_limit.
  - unfold page_size. destruct max_keys; lia.
Qed.

Lemma latest_keys_spec (ms : list ObjectManifest) (latest : gmap string string) k :
  foldl (fun latest m => match latest !! key m with
                         | Some _ => latest
                         | None => <[key m := object_id m]> latest
                         end) latest ms !! k
  = match latest !! k with
    | Some i => Some i
    | None => object_id <$> head (List.filter (fun m => bool_decide (key m = k)) ms)
    end.
Proof.
  revert latest. induction ms as [|m ms IH]; intros latest; [cbn; by destruct (latest !! k)|].
  cbn [foldl List.filter]. rewrite IH. case_bool_decide as E.
  - subst k. destruct (latest !! key m) eqn:El; rewrite ?El; [done|]. by rewrite lookup_insert_eq.
  - destruct (latest !! key m); [done|]. by rewrite lookup_insert_ne.
Qed.

Lemma classify_version latest ms v :
  In v (classify latest ms).1 -> ov_is_latest v = true ->
  exists m, In m ms /\ object_id m = ov_version_id v /\ key m = ov_key v /\
    commit_state m = CommitState.Committed /\ latest !! key m = Some (object_id m).
Proof.
  induction ms as [|m ms IH]; cbn [classify]; [done|].
  destruct (classify latest ms) as [vs mk]. cbn [fst] in IH.
  intros Hin Hl. destruct (commit_state m) eqn:Ec; cbn [fst] in Hin;
    try (destruct (IH Hin Hl) as (m' & ? & ?); exists m'; split; [by right|done]).
  destruct Hin as [<-|Hin].
  - exists m. cbn in *. bool_hyps. split_and!; auto.
  - destruct (IH Hin Hl) as (m' & ? & ?). exists m'. split; [by right|done].
Qed.

Lemma newer_first_head (ms : list ObjectManifest) m f :
  StronglySorted newer_first ms -> head (List.filter f ms) = Some m ->
  In m ms /\ f m = true /\ forall m', In m' ms -> f m' = true -> created_at m' <= created_at m.
Proof.
  induction 1 as [|x l Hl IH Hx]; cbn [List.filter]; [done|]. destruct (f x) eqn:Ef.
  - cbn. intros [= ->]. split_and!; auto. intros m' [->|Hin] _; [lia|].
    rewrite Forall_forall in Hx. apply Hx. by apply list_elem_of_In.
  - intros Hh. destruct (IH Hh) as (? & ? & Hm). split_and!; auto; [by right|].
    intros m' [->|Hin] Hf; [congruence|by apply Hm].
Qed.

#[local] Instance newer_first_total : Total newer_first.
Proof. intros a b. unfold newer_first. lia. Qed.

#[local] Instance newer_first_trans : Transitive newer_first.
Proof. intros a b c. unfold newer_first. lia. Qed.

(** the version a listing marks as latest is committed and no version of its
    key is newer; so two versions marked latest for one key are the same. *)
Theorem latest_version_is_newest (ms : list ObjectManifest) (v : ObjectVersion)
    (Hids : NoDup (object_id <$> ms))
    (Hv : In v (classify (latest_keys (merge_sort newer_first ms)) (merge_sort newer_first ms)).1)
    (Hl : ov_is_latest v = true) :
  exists m, In m ms /\ object_id m = ov_version_id v /\ key m = ov_key v /\
    commit_state m = CommitState.Committed /\
    forall m', In m' ms -> key m' = key m -> created_at m' <= created_at m.
Proof.
  destruct (classify_version _ _ _ Hv Hl) as (m & Hin & Hid & Hk & Hc & Hlk).
  assert (forall x, In x (merge_sort newer_first ms) <-> In x ms) as Hperm.
  { intros x. rewrite <- !list_elem_of_In. by rewrite merge_sort_Permutation. }
  exists m. split_and!; auto; [by apply Hperm|]. unfold latest_keys in Hlk.
  rewrite latest_keys_spec, lookup_empty in Hlk. apply fmap_Some in Hlk as (m0 & Hh & He).
  destruct (newer_first_head _ _ _ ltac:(apply Sorted_StronglySorted; [apply _|];
    apply Sorted_merge_sort, _) Hh) as (Hin0 & Hk0 & Hmax).
  assert (m0 = m) as ->.
  { apply Hperm in Hin0, Hin. apply list_elem_of_In, list_elem_of_lookup in Hin0 as [i Hi], Hin as [j Hj].
    rewrite NoDup_alt in Hids. assert (i = j) as ->; [|congruence].
    apply (Hids i j (object_id m)); rewrite list_lookup_fmap, ?Hi, ?Hj; cbn; congruence. }
  intros m' Hm' Hkm. apply Hmax; [by apply Hperm|]. by rewrite bool_decide_eq_true_2.
Qed.

(** ** Samples *)

Definition sample_listed (id k : string) (at_ : Z) (state : CommitState.t) : ObjectManifest :=
  (sample_manifest id "b" k) <| created_at := at_ |> <| commit_state := state |>.

Definition sample_objects : list ObjectManifest :=
  [sample_listed "o4" "c/1" 4 CommitState.Committed; sample_listed "o1" "a/1" 1 CommitState.Committed;
   sample_listed "o3" "b" 3 CommitState.Committed; sample_listed "o2" "a/2" 2 CommitState.Committed].

Lemma listing_pages_complete_witness :
  (exists objects prefixes,
     follow 5 (fun marker => page_of sample_objects "" (Some "/") marker 1) None
       = Some (objects, prefixes) /\
     objects ≡ₚ object_of <$> List.filter (fun m =>
       negb (is_some (common_prefix "" (Some "/") (key m)))) sample_objects /\
     StronglySorted text_before (ob_key <$> objects) /\
     StronglySorted text_before prefixes /\
     forall p, In p prefixes <->
       exists m, In m sample_objects /\ common_prefix "" (Some "/") (key m) = Some p) /\
  follow 5 (fun marker => page_of sample_objects "" (Some "/") marker 1) None
    = Some ([object_of (sample_listed "o3" "b" 3 CommitState.Committed)], ["a/"; "c/"]).
Proof.
  split; [|vm_compute; reflexivity].
  apply (listing_pages_complete sample_objects "" (Some "/") 1 5).
  - lia.
  - apply (bool_decide_unpack _). vm_compute. exact I.
  - repeat constructor; discriminate.
  - cbn. lia.
Defined.

Lemma page_size_bounded_witness :
  pg_key_count (page_of sample_objects "" None None (page_size (Some 2))) = 2%nat.
Proof.
  destruct (page_size_bounded sample_objects "" None None (Some 2)) as [-> _].
  - apply (bool_decide_unpack _). vm_compute. exact I.
  - vm_compute. reflexivity.
Defined.

(** An object overwritten once. *)
Definition sample_versions : list ObjectManifest :=
  [sample_listed "o1" "k" 1 CommitState.Committed; sample_listed "o2" "k" 2 CommitState.Committed].

Lemma latest_version_is_newest_witness :
  exists m, In m sample_versions /\ object_id m = "o2" /\ key m = "k" /\
    commit_state m = CommitState.Committed /\
    forall m', In m' sample_versions -> key m' = key m -> created_at m' <= created_at m.
Proof.
  apply (latest_version_is_newest sample_versions
    {| ov_key := "k"; ov_is_latest := true; ov_version_id := "o2";
       ov_object := object_of (sample_listed "o2" "k" 2 CommitState.Committed) |}).
  - apply (bool_decide_unpack _). vm_compute. exact I.
  - vm_compute. left. reflexivity.
  - reflexivity.
Defined.

(** an upload in progress takes the mark away: while a newer version of the key
    is still staged, no version and no delete marker of the key is listed as
    the latest. *)
Theorem staged_upload_hides_latest :
  let ms := merge_sort newer_first
    (sample_versions ++ [sample_listed "o3" "k" 3 CommitState.Staging]) in
  let (versions, markers) := classify (latest_keys ms) ms in
  map ov_version_id versions = ["o2"; "o1"] /\ map ov_is_latest versions = [false; false] /\
  markers = [].
Proof. vm_compute. auto. Qed.
