(* ===== verification/Settings.v ===== *)
(** * Settings ([src/src/metadata/settings.rs], and what
      [src/src/object_format.rs] and [src/src/admin.rs] do with them)

    The operator's settings live as text in [app_settings] and, parsed and
    checked, in the running service.  Opening the service reads each setting,
    or stores the default of the configuration when there is none; the settings
    page checks a whole request, then writes each value to the store and to the
    running service.

    The theorems: whatever is opened is within its bounds, and a request keeps
    it so on every branch; a saved request is what the service finds when it is
    opened again, whatever the environment says by then; saving the account
    settings keeps the connection they belong to and gives it everything that
    had no connection; and the traffic totals lose an increment when two of them
    interleave. *)

From stdpp Require Import pretty.
From S2P Require Import Prelude Errors Manifest Schema ManifestStore Requests Listing Config.

Definition CHUNK_SIZE_SETTING : string := "telegram_chunk_size".
Definition DOWNLOAD_PREFETCH_CHUNKS_SETTING : string := "telegram_download_prefetch_chunks".
Definition DOWNLOAD_PREFETCH_MODE_SETTING : string := "telegram_download_prefetch_mode".
Definition DOWNLOAD_ACCOUNT_CONNECTIONS_SETTING : string := "telegram_download_account_connections".
Definition DOWNLOAD_FAILOVER_RETRIES_SETTING : string := "telegram_download_failover_retries".
Definition RECOVERY_VERIFY_ENABLED_SETTING : string := "telegram_recovery_verify_enabled".
Definition RECOVERY_VERIFY_STARTUP_SETTING : string := "telegram_recovery_verify_startup".
Definition RECOVERY_VERIFY_INTERVAL_SETTING : string := "telegram_recovery_verify_interval_secs".
Definition RECOVERY_VERIFY_CHUNKS_SETTING : string := "telegram_recovery_verify_chunks".
Definition TELEGRAM_ACCOUNT_PHONE_SETTING : string := "telegram_account_phone".
Definition ACTIVE_CONNECTION_SETTING : string := "telegram_active_connection_id".
Definition BOOTSTRAP_SETTING : string := "telegram_bootstrap".

(** ** Text in the store *)

Definition read_text_setting (k : string) : M (option string) := query (fun db => app_settings db !! k).

Definition set_text_setting (k value : string) : M unit :=
  modify (fun db => db <| app_settings ::= <[k := value]> |>).

(** [message]: what a value that does not parse is reported as. *)
Definition read_parsed {A} (parse : string -> option A) (message k : string) : M (option A) :=
  value ← read_text_setting k;
  match value with
  | None => mret None
  | Some v => a ← some_or (parse v) (InvalidManifest message); mret (Some a)
  end.

Definition read_numeric_setting (k : string) : M (option Z) :=
  read_parsed parse_u64 ("invalid stored setting " +:+ k) k.

Definition read_bool_setting (k : string) : M (option bool) :=
  read_parsed parse_bool_text ("invalid stored setting " +:+ k) k.

Definition set_numeric_setting (k : string) (value : Z) : M unit := set_text_setting k (pretty value).

Definition bool_text (b : bool) : string := if b then "true" else "false".

Definition set_bool_setting (k : string) (value : bool) : M unit := set_text_setting k (bool_text value).

Definition read_chunk_size : M (option Z) :=
  read_parsed parse_u64 "invalid stored chunk size" CHUNK_SIZE_SETTING.

(** ** The running service *)

(** The cells of the service, and the time the verifier runs next. *)
Record Runtime : Type := {
  rt_chunk_size : Z;
  rt_prefetch_chunks : Z;
  rt_prefetch_mode : string;
  rt_connections : Z;
  rt_retries : Z;
  rt_verify_enabled : bool;
  rt_verify_startup : bool;
  rt_verify_interval : Z;
  rt_verify_chunks : Z;
  rt_next_run_at : option Z
}.

#[export] Instance eta_Runtime : Eta Runtime := fun r =>
  {| rt_chunk_size := rt_chunk_size r; rt_prefetch_chunks := rt_prefetch_chunks r;
     rt_prefetch_mode := rt_prefetch_mode r; rt_connections := rt_connections r;
     rt_retries := rt_retries r; rt_verify_enabled := rt_verify_enabled r;
     rt_verify_startup := rt_verify_startup r; rt_verify_interval := rt_verify_interval r;
     rt_verify_chunks := rt_verify_chunks r; rt_next_run_at := rt_next_run_at r |}.

Definition invalid_plan {A} (r : Result A ConfigError.t) : Result A ObjectFormatError.t :=
  match r with Ok a => Ok a | Err e => Err (ObjectFormatError.InvalidPlan (ConfigError.to_string e)) end.

Definition set_checked {A} (checked : Result A ConfigError.t) (update : Runtime -> Runtime) (r : Runtime)
    : Result Runtime ObjectFormatError.t :=
  match invalid_plan checked with Ok _ => Ok (update r) | Err e => Err e end.

Definition set_chunk_size (value : Z) : Runtime -> Result Runtime ObjectFormatError.t :=
  set_checked (validate_chunk_size value) (fun r => r <| rt_chunk_size := value |>).

Definition set_download_prefetch_chunks (value : Z) : Runtime -> Result Runtime ObjectFormatError.t :=
  set_checked (validate_download_prefetch_chunks value) (fun r => r <| rt_prefetch_chunks := value |>).

Definition set_download_prefetch_mode (mode : string) : Runtime -> Result Runtime ObjectFormatError.t :=
  set_checked (validate_download_prefetch_mode mode) (fun r => r <| rt_prefetch_mode := mode |>).

Definition set_download_account_connections (value : Z) : Runtime -> Result Runtime ObjectFormatError.t :=
  set_checked (validate_download_account_connections value) (fun r => r <| rt_connections := value |>).

Definition set_download_failover_retries (value : Z) : Runtime -> Result Runtime ObjectFormatError.t :=
  set_checked (validate_download_failover_retries value) (fun r => r <| rt_retries := value |>).

Definition unix_timestamp (t : OffsetDateTime) : Z := t / 1000000000.

(** [unix_timestamp().saturating_add(interval as i64)] *)
Definition next_run (now : OffsetDateTime) (interval : Z) : Z :=
  Z.max I64_MIN (Z.min I64_MAX
    (unix_timestamp now + (if I64_MAX <? interval then interval - U64_MAX - 1 else interval))).

Definition set_recovery_verifier_enabled (now : OffsetDateTime) (enabled : bool) (r : Runtime) : Runtime :=
  r <| rt_verify_enabled := enabled |>
    <| rt_next_run_at := if enabled then Some (next_run now (rt_verify_interval r)) else None |>.

Definition schedule_recovery_verification (now : OffsetDateTime) (r : Runtime) : Runtime :=
  if negb (rt_verify_enabled r) then r
  else match rt_next_run_at r with
       | None => r <| rt_next_run_at := Some (next_run now (rt_verify_interval r)) |>
       | Some _ => r
       end.

Definition set_recovery_verify_startup (now : OffsetDateTime) (enabled : bool) (r : Runtime) : Runtime :=
  let r := r <| rt_verify_startup := enabled |> in
  if negb enabled then schedule_recovery_verification now r else r.

Definition set_recovery_verification_settings (now : OffsetDateTime) (interval chunks : Z) (r : Runtime)
    : Result Runtime ObjectFormatError.t :=
  match invalid_plan (validate_recovery_verify_interval_secs interval) with
  | Err e => Err e
  | Ok _ =>
      match invalid_plan (validate_recovery_verify_chunks chunks) with
      | Err e => Err e
      | Ok _ =>
          let r := r <| rt_verify_interval := interval |> in
          let r := match rt_next_run_at r with
                   | Some _ => r <| rt_next_run_at := Some (next_run now interval) |>
                   | None => r
                   end in
          Ok (r <| rt_verify_chunks := chunks |>)
      end
  end.

(** ** Opening the service *)

Definition of_config {A} (r : Result A ConfigError.t) : IO ObjectFormatError.t A := fun db =>
  (match r with Ok a => Ok a | Err e => Err (ObjectFormatError.Config (ConfigError.to_string e)) end, db).

Definition of_result {A} (r : Result A ObjectFormatError.t) : IO ObjectFormatError.t A := fun db => (r, db).

(** The stored value, checked, or else the initial one, which is stored. *)
Definition load_or_store {A} (read : M (option A)) (check : A -> Result unit ConfigError.t)
    (initial : Result A ConfigError.t) (store : A -> M unit) : IO ObjectFormatError.t A :=
  stored ← service read;
  match stored with
  | Some value => of_config (check value) ;; mret value
  | None =>
      value ← of_config initial;
      service (store value) ;;
      mret value
  end.

Definition checked {A B} (f : A -> Result B ConfigError.t) (a : A) : Result unit ConfigError.t :=
  match f a with Ok _ => Ok tt | Err e => Err e end.

Definition accept {A} (_ : A) : Result unit ConfigError.t := Ok tt.

Definition load_numeric (k : string) (check : Z -> Result Z ConfigError.t)
    (initial : Result Z ConfigError.t) : IO ObjectFormatError.t Z :=
  load_or_store (read_numeric_setting k) (checked check) initial (set_numeric_setting k).

Definition load_bool (k : string) (initial : Result bool ConfigError.t) : IO ObjectFormatError.t bool :=
  load_or_store (read_bool_setting k) accept initial (set_bool_setting k).

(** The settings of [open_with_transport_manager]; [new] starts the verifier's
    cells at their defaults. *)
Definition open_settings (symlink_metadata : string -> option FileMetadata) (E : Env) (c : AppConfig)
    : IO ObjectFormatError.t Runtime :=
  of_config (Config.validate symlink_metadata c) ;;
  size ← load_or_store read_chunk_size (checked validate_chunk_size) (Config.chunk_size c)
           (set_numeric_setting CHUNK_SIZE_SETTING);
  prefetch ← load_numeric DOWNLOAD_PREFETCH_CHUNKS_SETTING validate_download_prefetch_chunks (Ok 1);
  mode ← load_or_store (read_text_setting DOWNLOAD_PREFETCH_MODE_SETTING)
           validate_download_prefetch_mode (Ok "adaptive") (set_text_setting DOWNLOAD_PREFETCH_MODE_SETTING);
  connections ← load_numeric DOWNLOAD_ACCOUNT_CONNECTIONS_SETTING validate_download_account_connections (Ok 5);
  retries ← load_numeric DOWNLOAD_FAILOVER_RETRIES_SETTING validate_download_failover_retries (Ok 1);
  interval ← load_numeric RECOVERY_VERIFY_INTERVAL_SETTING validate_recovery_verify_interval_secs
               (Config.recovery_verify_interval_secs c);
  enabled ← load_bool RECOVERY_VERIFY_ENABLED_SETTING (Config.recovery_verify_enabled c);
  startup ← load_bool RECOVERY_VERIFY_STARTUP_SETTING (Config.recovery_verify_startup c);
  chunks ← load_numeric RECOVERY_VERIFY_CHUNKS_SETTING validate_recovery_verify_chunks
             (Config.recovery_verify_chunks c);
  r ← of_result (set_recovery_verification_settings (now_utc_at E 0) interval chunks
        {| rt_chunk_size := size; rt_prefetch_chunks := prefetch; rt_prefetch_mode := mode;
           rt_connections := connections; rt_retries := retries; rt_verify_enabled := true;
           rt_verify_startup := true; rt_verify_interval := DEFAULT_RECOVERY_VERIFY_INTERVAL_SECS;
           rt_verify_chunks := DEFAULT_RECOVERY_VERIFY_CHUNKS; rt_next_run_at := None |});
  mret (set_recovery_verify_startup (now_utc_at E 2) startup
          (set_recovery_verifier_enabled (now_utc_at E 1) enabled r)).

(** ** The settings page *)

Record StorageSettingsRequest : Type := {
  sr_chunk_size : option Z;
  sr_prefetch_chunks : option Z;
  sr_prefetch_mode : option string;
  sr_connections : option Z;
  sr_retries : option Z;
  sr_verify_enabled : option bool;
  sr_verify_startup : option bool;
  sr_verify_interval : option Z;
  sr_verify_chunks : option Z;
  sr_cleanup_retention : option Z
}.

(** A handler of the administration API: the status and text of an error
    response, or the value of a response with status 200. *)
Definition Reply (A : Type) : Type := Result A (Z * string).

Definition BAD_REQUEST : Z := 400.
Definition INTERNAL_SERVER_ERROR : Z := 500.

(** Handlers read and write the cells of the service and the store. *)
Definition Svc (A : Type) : Type := Runtime * Db -> Reply A * (Runtime * Db).

#[export] Instance Svc_ret : MRet Svc := fun A a s => (Ok a, s).

#[export] Instance Svc_bind : MBind Svc := fun A B f m s =>
  match m s with
  | (Ok a, s') => f a s'
  | (Err e, s') => (Err e, s')
  end.

Definition bad_request {A} (r : Result A ConfigError.t) : Svc unit := fun s =>
  (match r with Ok _ => Ok tt | Err e => Err (BAD_REQUEST, ConfigError.to_string e) end, s).

Definition reply_error {A} (status : Z) (message : string) : Svc A := fun s => (Err (status, message), s).

Definition cells : Svc Runtime := fun s => (Ok s.1, s).

Definition store {A} (m : M A) : Svc A := fun s =>
  match m s.2 with
  | (Ok a, db) => (Ok a, (s.1, db))
  | (Err e, db) => (Err (INTERNAL_SERVER_ERROR, metadata_text e), (s.1, db))
  end.

Definition update (f : Runtime -> Result Runtime ObjectFormatError.t) : Svc unit := fun s =>
  match f s.1 with
  | Ok r => (Ok tt, (r, s.2))
  | Err e => (Err (INTERNAL_SERVER_ERROR, ObjectFormatError.to_string e), s)
  end.

Definition stored_retention : Svc Z := fun s =>
  (Ok (match (read_numeric_setting CLEANUP_RETENTION_SETTING s.2).1 with
       | Ok (Some n) => n
       | _ => DEFAULT_CLEANUP_RETENTION_SECS
       end), s).

(** What the request asks for, the current values where it is silent. *)
Record Requested : Type := {
  rq_runtime : Runtime;
  rq_retention : Z
}.

Definition check_request (request : StorageSettingsRequest) : Svc Requested :=
  size ← (match sr_chunk_size request with
          | Some n => mret n
          | None => reply_error BAD_REQUEST "chunk_size is required"
          end);
  bad_request (validate_chunk_size size) ;;
  r ← cells;
  let prefetch := default (rt_prefetch_chunks r) (sr_prefetch_chunks request) in
  bad_request (validate_download_prefetch_chunks prefetch) ;;
  let mode := default (rt_prefetch_mode r) (sr_prefetch_mode request) in
  bad_request (validate_download_prefetch_mode mode) ;;
  let connections := default (rt_connections r) (sr_connections request) in
  bad_request (validate_download_account_connections connections) ;;
  let retries := default (rt_retries r) (sr_retries request) in
  bad_request (validate_download_failover_retries retries) ;;
  let interval := default (rt_verify_interval r) (sr_verify_interval request) in
  let enabled := default (rt_verify_enabled r) (sr_verify_enabled request) in
  let startup := default (rt_verify_startup r) (sr_verify_startup request) in
  let chunks := default (rt_verify_chunks r) (sr_verify_chunks request) in
  retention ← (match sr_cleanup_retention request with Some n => mret n | None => stored_retention end);
  bad_request (validate_recovery_verify_interval_secs interval) ;;
  bad_request (validate_recovery_verify_chunks chunks) ;;
  bad_request (validate_cleanup_retention_secs retention) ;;
  mret {| rq_runtime :=
            {| rt_chunk_size := size; rt_prefetch_chunks := prefetch; rt_prefetch_mode := mode;
               rt_connections := connections; rt_retries := retries; rt_verify_enabled := enabled;
               rt_verify_startup := startup; rt_verify_interval := interval; rt_verify_chunks := chunks;
               rt_next_run_at := rt_next_run_at r |};
          rq_retention := retention |}.

Definition apply_request (E : Env) (q : Requested) : Svc unit :=
  let r := rq_runtime q in
  store (set_numeric_setting CHUNK_SIZE_SETTING (rt_chunk_size r)) ;;
  update (set_chunk_size (rt_chunk_size r)) ;;
  store (set_numeric_setting DOWNLOAD_PREFETCH_CHUNKS_SETTING (rt_prefetch_chunks r)) ;;
  update (set_download_prefetch_chunks (rt_prefetch_chunks r)) ;;
  store (set_text_setting DOWNLOAD_PREFETCH_MODE_SETTING (rt_prefetch_mode r)) ;;
  update (set_download_prefetch_mode (rt_prefetch_mode r)) ;;
  store (set_numeric_setting DOWNLOAD_ACCOUNT_CONNECTIONS_SETTING (rt_connections r)) ;;
  update (set_download_account_connections (rt_connections r)) ;;
  store (set_numeric_setting DOWNLOAD_FAILOVER_RETRIES_SETTING (rt_retries r)) ;;
  update (set_download_failover_retries (rt_retries r)) ;;
  store (set_bool_setting RECOVERY_VERIFY_ENABLED_SETTING (rt_verify_enabled r)) ;;
  store (set_bool_setting RECOVERY_VERIFY_STARTUP_SETTING (rt_verify_startup r)) ;;
  store (set_numeric_setting RECOVERY_VERIFY_INTERVAL_SETTING (rt_verify_interval r)) ;;
  store (set_numeric_setting RECOVERY_VERIFY_CHUNKS_SETTING (rt_verify_chunks r)) ;;
  store (set_numeric_setting CLEANUP_RETENTION_SETTING (rq_retention q)) ;;
  update (set_recovery_verification_settings (now_utc_at E 0) (rt_verify_interval r) (rt_verify_chunks r)) ;;
  update (fun c => Ok (set_recovery_verifier_enabled (now_utc_at E 1) (rt_verify_enabled r) c)) ;;
  update (fun c => Ok (set_recovery_verify_startup (now_utc_at E 2) (rt_verify_startup r) c)).

(** [None]: the body is not the JSON of a request. *)
Definition telegram_save_storage_settings (E : Env) (body : option StorageSettingsRequest) : Svc Runtime :=
  match body with
  | None => reply_error BAD_REQUEST "invalid storage settings payload"
  | Some request =>
      q ← check_request request;
      apply_request E q ;;
      cells
  end.

(** ** The account *)

(** [serde_json] on [TelegramBootstrapSettings]. *)
Class BootstrapJson := {
  to_json : TelegramBootstrapSettings -> string;
  from_json : string -> Result TelegramBootstrapSettings string;
  from_to_json s : from_json (to_json s) = Ok s
}.

Definition normalize_phone (phone : string) : string :=
  String.string_of_list_ascii (List.filter (fun c => match digit_value c with Some _ => true | None => false end)
    (String.list_ascii_of_string phone)).

(** [trim]: [str::trim]. *)
Definition set_telegram_account_phone (trim : string -> string) (phone : string) : M unit :=
  let phone := trim phone in
  if is_empty phone then throw (InvalidManifest "telegram account phone is required")
  else transaction (
    set_text_setting TELEGRAM_ACCOUNT_PHONE_SETTING phone ;;
    modify (fun db => db <| app_settings ::= delete "telegram_account_phone_hash" |>)).

Definition telegram_account_phone : M (option string) := read_text_setting TELEGRAM_ACCOUNT_PHONE_SETTING.

Definition telegram_account_phone_matches (phone : string) : M bool :=
  stored ← telegram_account_phone;
  mret (match stored with
        | Some value => bool_decide (normalize_phone value = normalize_phone phone)
        | None => false
        end).

Section Bootstrap.
Context `{BootstrapJson}.

Definition telegram_bootstrap_settings : M (option TelegramBootstrapSettings) :=
  json ← read_text_setting BOOTSTRAP_SETTING;
  match json with
  | None => mret None
  | Some json =>
      match from_json json with
      | Ok settings => mret (Some settings)
      | Err e => throw (Serde e)
      end
  end.

(** [INSERT INTO telegram_accounts .. ON CONFLICT(id) DO UPDATE]; a phone that is
    not known leaves the stored one. *)
Definition upsert_primary_account (id json : string) (phone : option string) (now : Z) : M unit :=
  modify (fun db => db <| telegram_accounts ::= (fun t =>
    <[id := match t !! id with
            | None => {| ta_label := "Primary account"; ta_bootstrap_json := json; ta_phone := phone;
                         ta_download_enabled := true; ta_quota_bytes := None; ta_state := "configured";
                         ta_created_at := now; ta_updated_at := now |}
            | Some a => a <| ta_bootstrap_json := json |>
                          <| ta_phone ::= (fun old => match phone with Some p => Some p | None => old end) |>
                          <| ta_state := "configured" |> <| ta_updated_at := now |>
            end]> t) |>).

Definition adopt (from to : string) (c : string) : string := if bool_decide (c = from) then to else c.

(** Everything of the connection [legacy] goes to [id]. *)
Definition adopt_legacy (id : string) : M unit := modify (fun db =>
  db <| buckets ::= fmap (fun b => b <| bk_connection_id ::= adopt "legacy" id |>) |>
     <| object_manifests ::= fmap (fun m => m <| om_connection_id ::= adopt "legacy" id |>) |>
     <| multipart_uploads ::= fmap (fun u => u <| mu_connection_id ::= adopt "legacy" id |>) |>
     <| transfer_jobs ::= map (fun j => j <| tj_connection_id ::= adopt "legacy" id |>) |>).

Definition set_telegram_bootstrap_settings (E : Env) (settings : TelegramBootstrapSettings) : M unit :=
  let json := to_json settings in
  transaction (
    stored ← read_text_setting ACTIVE_CONNECTION_SETTING;
    id ← (match stored with
          | Some id => mret id
          | None => set_text_setting ACTIVE_CONNECTION_SETTING (new_v4 E 0) ;; mret (new_v4 E 0)
          end);
    adopt_legacy id ;;
    set_text_setting BOOTSTRAP_SETTING json ;;
    phone ← telegram_account_phone;
    upsert_primary_account id json phone (now_at E 0)).

Definition clear_telegram_bootstrap_settings : M unit :=
  modify (fun db => db <| app_settings ::= delete BOOTSTRAP_SETTING |>).

Definition clear_active_connection_id : M unit :=
  modify (fun db => db <| app_settings ::= delete ACTIVE_CONNECTION_SETTING |>).
End Bootstrap.

(** ** Traffic totals *)

Module TrafficCounterKind.
Inductive t : Type := ClientUpload | ClientDownload | TelegramUpload | TelegramDownload.

Definition column (self : t) : string :=
  match self with
  | ClientUpload => "client_upload_bytes"
  | ClientDownload => "client_download_bytes"
  | TelegramUpload => "telegram_upload_bytes"
  | TelegramDownload => "telegram_download_bytes"
  end.
End TrafficCounterKind.

Definition parse_traffic_total (name value : string) : Result Z MetadataError :=
  match parse_u64 value with
  | Some n => Ok n
  | None => Err (InvalidManifest ("invalid stored traffic total " +:+ name))
  end.

(** The two statements of [increment_traffic_total], which no transaction
    holds together. *)
Definition read_traffic_total (kind : TrafficCounterKind.t) : M Z :=
  let column := TrafficCounterKind.column kind in
  current ← query (fun db => traffic_totals db !! column);
  current ← some_or current (Sqlite "Query returned no rows");
  lift (parse_traffic_total column current).

Definition write_traffic_total (kind : TrafficCounterKind.t) (current bytes : Z) : M unit :=
  let column := TrafficCounterKind.column kind in
  next ← some_or (u64_checked_add current bytes)
           (InvalidManifest ("traffic total overflow for " +:+ column));
  modify (fun db => db <| traffic_totals ::= <[column := pretty next]> |>).

Definition increment_traffic_total (kind : TrafficCounterKind.t) (bytes : Z) : M unit :=
  current ← read_traffic_total kind;
  write_traffic_total kind current bytes.

Record TrafficTotals : Type := {
  tt_client_upload : Z;
  tt_client_download : Z;
  tt_telegram_upload : Z;
  tt_telegram_download : Z
}.

Definition read_traffic_totals : M TrafficTotals :=
  a ← read_traffic_total TrafficCounterKind.ClientUpload;
  b ← read_traffic_total TrafficCounterKind.ClientDownload;
  c ← read_traffic_total TrafficCounterKind.TelegramUpload;
  d ← read_traffic_total TrafficCounterKind.TelegramDownload;
  mret {| tt_client_upload := a; tt_client_download := b; tt_telegram_upload := c;
          tt_telegram_download := d |}.

(** ** Bounds *)

Record runtime_ok (r : Runtime) : Prop := {
  ro_size : within MIN_CHUNK_SIZE MAX_CHUNK_SIZE (rt_chunk_size r) = true;
  ro_prefetch : within MIN_DOWNLOAD_PREFETCH_CHUNKS MAX_DOWNLOAD_PREFETCH_CHUNKS (rt_prefetch_chunks r) = true;
  ro_mode : one_of (rt_prefetch_mode r) ["adaptive"; "sequential"] = true;
  ro_connections : within MIN_DOWNLOAD_ACCOUNT_CONNECTIONS MAX_DOWNLOAD_ACCOUNT_CONNECTIONS
                     (rt_connections r) = true;
  ro_retries : within MIN_DOWNLOAD_FAILOVER_RETRIES MAX_DOWNLOAD_FAILOVER_RETRIES (rt_retries r) = true;
  ro_interval : within MIN_RECOVERY_VERIFY_INTERVAL_SECS MAX_RECOVERY_VERIFY_INTERVAL_SECS
                  (rt_verify_interval r) = true;
  ro_chunks : within MIN_RECOVERY_VERIFY_CHUNKS MAX_RECOVERY_VERIFY_CHUNKS (rt_verify_chunks r) = true
}.

Lemma io_ok {E A B} (m : IO E A) (f : A -> IO E B) db b db' :
  (m ≫= f) db = (Ok b, db') <-> exists a d, m db = (Ok a, d) /\ f a d = (Ok b, db').
Proof.
  unfold mbind, IO_bind. destruct (m db) as [[a|e] d].
  - split; [eauto|]. intros (a' & d' & [= <- <-] & H). exact H.
  - split; [done|]. intros (a' & d' & [=] & _).
Qed.

Lemma of_config_ok {A} (r : Result A ConfigError.t) db a db' :
  of_config r db = (Ok a, db') <-> r = Ok a /\ db' = db.
Proof. unfold of_config. destruct r; split; [intros [= <- <-]|intros [[= ->] ->]|..]; naive_solver. Qed.

(** What is loaded passed the check, or is the initial value. *)
Lemma load_or_store_ok {A} read check initial (store : A -> M unit) db a db' :
  load_or_store read check initial store db = (Ok a, db') -> check a = Ok tt \/ initial = Ok a.
Proof.
  intros H. apply io_ok in H as (stored & d & _ & H). destruct stored as [v|].
  - apply io_ok in H as ([] & d' & Hc & H). apply of_config_ok in Hc as [Hc ->]. injection H as <- <-. by left.
  - apply io_ok in H as (v & d' & Hc & H). apply of_config_ok in Hc as [Hc ->].
    apply io_ok in H as ([] & d'' & _ & H). injection H as <- <-. by right.
Qed.

Lemma validate_range_ok field min max value n :
  validate_range field min max value = Ok n -> within min max value = true.
Proof. unfold validate_range. by destruct (within min max value). Qed.

Lemma load_numeric_ok k field min max initial db n db' :
  load_numeric k (validate_range field min max) initial db = (Ok n, db') ->
  (forall v, initial = Ok v -> within min max v = true) -> within min max n = true.
Proof.
  intros H Hi. apply load_or_store_ok in H as [H|H]; [|by apply Hi].
  unfold checked in H. destruct (validate_range field min max n) eqn:E; [|done]. by apply validate_range_ok in E.
Qed.

Lemma parse_in_range_within parse field value min max d v :
  within min max d = true -> parse_in_range parse field value min max d = Ok v -> within min max v = true.
Proof.
  intros Hd H. unfold within in *.
  assert (min <= d <= max) as Hd' by (bool_hyps; lia).
  destruct (parse_in_range_bounds _ _ _ _ _ _ _ Hd' H) as (n & Hn & ?).
  rewrite H in Hn. injection Hn as <-. apply andb_true_iff. lia.
Qed.

Lemma verification_settings_ok now interval chunks r r' :
  set_recovery_verification_settings now interval chunks r = Ok r' ->
  within MIN_RECOVERY_VERIFY_INTERVAL_SECS MAX_RECOVERY_VERIFY_INTERVAL_SECS interval = true /\
  within MIN_RECOVERY_VERIFY_CHUNKS MAX_RECOVERY_VERIFY_CHUNKS chunks = true /\
  exists next, r' = r <| rt_verify_interval := interval |> <| rt_verify_chunks := chunks |>
                      <| rt_next_run_at := next |>.
Proof.
  unfold set_recovery_verification_settings, validate_recovery_verify_interval_secs,
    validate_recovery_verify_chunks, validate_range, invalid_plan.
  destruct (within _ _ interval); [|done]. destruct (within _ _ chunks); [|done]. cbn.
  intros [= <-]. do 2 (split; [done|]). destruct r as [? ? ? ? ? ? ? ? ? [|]]; by eexists.
Qed.

Lemma startup_fields now enabled r :
  exists next, set_recovery_verify_startup now enabled r =
    r <| rt_verify_startup := enabled |> <| rt_next_run_at := next |>.
Proof.
  unfold set_recovery_verify_startup, schedule_recovery_verification. destruct r as [? ? ? ? ? e ? ? ? n].
  destruct enabled, e, n; cbn; by eexists.
Qed.

(** The service never runs with a setting out of its bounds: whatever text
    the store and the environment hold, opening either fails or yields a chunk
    size, a prefetch window and mode, a connection and a retry count, and a
    verification interval and sample size within the bounds of
    [config.rs]. *)
Theorem opened_settings_in_bounds symlink_metadata E c db r db' :
  open_settings symlink_metadata E c db = (Ok r, db') -> runtime_ok r.
Proof.
  intros H. apply io_ok in H as ([] & d0 & _ & H).
  apply io_ok in H as (size & d1 & H1 & H). apply io_ok in H as (prefetch & d2 & H2 & H).
  apply io_ok in H as (mode & d3 & H3 & H). apply io_ok in H as (connections & d4 & H4 & H).
  apply io_ok in H as (retries & d5 & H5 & H). apply io_ok in H as (interval & d6 & H6 & H).
  apply io_ok in H as (enabled & d7 & _ & H). apply io_ok in H as (startup & d8 & _ & H).
  apply io_ok in H as (chunks & d9 & H9 & H). apply io_ok in H as (r0 & d10 & H10 & H).
  injection H as <- <-. injection H10 as H10 <-.
  apply verification_settings_ok in H10 as (Hi & Hc & next & ->).
  destruct (startup_fields (now_utc_at E 2) startup
    (set_recovery_verifier_enabled (now_utc_at E 1) enabled
      ({| rt_chunk_size := size; rt_prefetch_chunks := prefetch; rt_prefetch_mode := mode;
           rt_connections := connections; rt_retries := retries; rt_verify_enabled := true;
           rt_verify_startup := true; rt_verify_interval := DEFAULT_RECOVERY_VERIFY_INTERVAL_SECS;
           rt_verify_chunks := DEFAULT_RECOVERY_VERIFY_CHUNKS; rt_next_run_at := None |}
         <| rt_verify_interval := interval |> <| rt_verify_chunks := chunks |>
         <| rt_next_run_at := next |>))) as [next' ->].
  split; cbn -[one_of within].
  - apply load_or_store_ok in H1 as [H1|H1].
    + unfold checked in H1. destruct (validate_chunk_size size) eqn:Ev; [|done].
      by apply validate_range_ok in Ev.
    + by apply parse_in_range_within in H1.
  - eapply load_numeric_ok; [exact H2|]. by intros v [= <-].
  - apply load_or_store_ok in H3 as [H3|[= <-]]; [|done].
    unfold validate_download_prefetch_mode in H3. by destruct (one_of mode _).
  - eapply load_numeric_ok; [exact H4|]. by intros v [= <-].
  - eapply load_numeric_ok; [exact H5|]. by intros v [= <-].
  - done.
  - done.
Qed.

(** ** The settings page *)

Definition kept (P : Runtime -> Prop) {A} (m : Svc A) : Prop :=
  forall s, P s.1 -> P (m s).2.1.

Lemma kept_bind P {A B} (m : Svc A) (f : A -> Svc B) :
  kept P m -> (forall a, kept P (f a)) -> kept P (m ≫= f).
Proof.
  intros Hm Hf s Hs. unfold mbind, Svc_bind. specialize (Hm s Hs). destruct (m s) as [[a|e] s']; [|done].
  by apply Hf.
Qed.

Lemma kept_ret P {A} (a : A) : kept P (mret a).
Proof. by intros s. Qed.

Lemma kept_store P {A} (m : M A) : kept P (store m).
Proof. intros s Hs. unfold store. by destruct (m s.2) as [[]]. Qed.

Lemma kept_update (P : Runtime -> Prop) f :
  (forall r r', P r -> f r = Ok r' -> P r') -> kept P (update f).
Proof. intros Hf s Hs. unfold update. destruct (f s.1) eqn:E; [|done]. by eapply Hf. Qed.

Lemma kept_bad_request P {A} (r : Result A ConfigError.t) : kept P (bad_request r).
Proof. by intros s. Qed.

Lemma kept_cells P : kept P cells.
Proof. by intros s. Qed.

Lemma check_request_kept P request : kept P (check_request request).
Proof.
  unfold check_request. repeat first
    [ apply kept_bind; [|intros ?] | apply kept_ret | apply kept_bad_request | apply kept_cells
    | match goal with |- kept _ (match ?x with _ => _ end) => destruct x end | by intros s ].
Qed.

Lemma set_checked_ok {A} (checked : Result A ConfigError.t) f r r' :
  set_checked checked f r = Ok r' -> is_ok checked = true /\ r' = f r.
Proof. unfold set_checked, invalid_plan. destruct checked; [|done]. by intros [= <-]. Qed.

Lemma is_ok_range field min max value :
  is_ok (validate_range field min max value) = true -> within min max value = true.
Proof. unfold validate_range. by destruct (within min max value). Qed.

Lemma is_ok_mode mode :
  is_ok (validate_download_prefetch_mode mode) = true -> one_of mode ["adaptive"; "sequential"] = true.
Proof. unfold validate_download_prefetch_mode. by destruct (one_of mode _). Qed.

(** A request to the settings page keeps the running service within its
    bounds on every branch: when it is refused, when it is accepted, and when
    the store fails half way. *)
Theorem settings_page_keeps_bounds E body r db :
  runtime_ok r -> runtime_ok (telegram_save_storage_settings E body (r, db)).2.1.
Proof.
  intros Hr. cut (kept runtime_ok (telegram_save_storage_settings E body)); [intros H; exact (H (r, db) Hr)|].
  destruct body as [request|]; [|by intros s].
  apply kept_bind; [apply check_request_kept|intros q]. apply kept_bind; [|intros _; apply kept_cells].
  unfold apply_request. repeat (apply kept_bind; [|intros _]); first [apply kept_store|apply kept_update];
    intros c c' Hc H.
  1-5: apply set_checked_ok in H as [H ->]; first [apply is_ok_range in H|apply is_ok_mode in H];
    by destruct Hc; split.
  - apply verification_settings_ok in H as (? & ? & next & ->). by destruct Hc; split.
  - injection H as <-. by destruct Hc; split.
  - injection H as <-.
    destruct (startup_fields (now_utc_at E 2) (rt_verify_startup (rq_runtime q)) c) as [next ->].
    by destruct Hc; split.
Qed.

(** ** Opening again *)

(** The settings that [db] holds as text are those of [r]. *)
Record persisted (r : Runtime) (db : Db) : Prop := {
  pe_size : app_settings db !! CHUNK_SIZE_SETTING = Some (pretty (rt_chunk_size r));
  pe_prefetch : app_settings db !! DOWNLOAD_PREFETCH_CHUNKS_SETTING = Some (pretty (rt_prefetch_chunks r));
  pe_mode : app_settings db !! DOWNLOAD_PREFETCH_MODE_SETTING = Some (rt_prefetch_mode r);
  pe_connections : app_settings db !! DOWNLOAD_ACCOUNT_CONNECTIONS_SETTING = Some (pretty (rt_connections r));
  pe_retries : app_settings db !! DOWNLOAD_FAILOVER_RETRIES_SETTING = Some (pretty (rt_retries r));
  pe_interval : app_settings db !! RECOVERY_VERIFY_INTERVAL_SETTING = Some (pretty (rt_verify_interval r));
  pe_enabled : app_settings db !! RECOVERY_VERIFY_ENABLED_SETTING = Some (bool_text (rt_verify_enabled r));
  pe_startup : app_settings db !! RECOVERY_VERIFY_STARTUP_SETTING = Some (bool_text (rt_verify_startup r));
  pe_chunks : app_settings db !! RECOVERY_VERIFY_CHUNKS_SETTING = Some (pretty (rt_verify_chunks r))
}.

(** Equal up to the time of the next verification. *)
Definition same_settings (r r' : Runtime) : Prop := r <| rt_next_run_at := None |> = r' <| rt_next_run_at := None |>.

Lemma within_u64 min max n : within min max n = true -> 0 <= min -> max <= U64_MAX -> is_u64 n.
Proof. unfold within, is_u64. intros H. bool_hyps. lia. Qed.

Lemma load_stored {A} parse message k check initial (store : A -> M unit) db text a :
  app_settings db !! k = Some text -> parse text = Some a -> check a = Ok tt ->
  load_or_store (read_parsed parse message k) check initial store db = (Ok a, db).
Proof.
  intros Hk Hp Hc. unfold load_or_store, service, map_err, read_parsed, read_text_setting, query.
  unfold mbind, IO_bind, M_bind. rewrite Hk, Hp. cbn. by rewrite Hc.
Qed.

Lemma load_text k check initial (store : string -> M unit) db text :
  app_settings db !! k = Some text -> check text = Ok tt ->
  load_or_store (read_text_setting k) check initial store db = (Ok text, db).
Proof.
  intros Hk Hc. unfold load_or_store, service, map_err, read_text_setting, query, mbind, IO_bind.
  rewrite Hk. cbn. by rewrite Hc.
Qed.

Lemma checked_range field min max n :
  within min max n = true -> checked (validate_range field min max) n = Ok tt.
Proof. intros H. unfold checked, validate_range. by rewrite H. Qed.

Lemma load_persisted k field min max initial db n :
  app_settings db !! k = Some (pretty n) -> within min max n = true -> 0 <= min -> max <= U64_MAX ->
  load_numeric k (validate_range field min max) initial db = (Ok n, db).
Proof.
  intros Hk Hn Hlo Hhi. eapply load_stored; [exact Hk| |by apply checked_range].
  apply parse_u64_pretty. by eapply within_u64.
Qed.

Lemma load_bool_persisted k initial db b :
  app_settings db !! k = Some (bool_text b) -> load_bool k initial db = (Ok b, db).
Proof. intros Hk. eapply load_stored; [exact Hk| |done]. by destruct b. Qed.

Lemma open_persisted fs E c r db :
  runtime_ok r -> persisted r db -> Config.validate fs c = Ok tt ->
  exists r', open_settings fs E c db = (Ok r', db) /\ same_settings r' r.
Proof.
  intros Hr Hp Hc. unfold open_settings, mbind, IO_bind. unfold of_config at 1. rewrite Hc.
  unfold read_chunk_size, validate_chunk_size, validate_download_prefetch_chunks,
    validate_download_account_connections, validate_download_failover_retries,
    validate_recovery_verify_interval_secs, validate_recovery_verify_chunks.
  rewrite (load_stored _ _ _ _ _ _ db _ (rt_chunk_size r) (pe_size _ _ Hp)); cycle 1.
  { apply parse_u64_pretty. by eapply within_u64; [apply Hr|..]. }
  { apply checked_range, Hr. }
  rewrite (load_persisted _ _ _ _ _ db (rt_prefetch_chunks r) (pe_prefetch _ _ Hp)) by (done || apply Hr).
  rewrite (load_text _ _ _ _ db (rt_prefetch_mode r) (pe_mode _ _ Hp)); cycle 1.
  { unfold validate_download_prefetch_mode. by rewrite (ro_mode _ Hr). }
  rewrite (load_persisted _ _ _ _ _ db (rt_connections r) (pe_connections _ _ Hp)) by (done || apply Hr).
  rewrite (load_persisted _ _ _ _ _ db (rt_retries r) (pe_retries _ _ Hp)) by (done || apply Hr).
  rewrite (load_persisted _ _ _ _ _ db (rt_verify_interval r) (pe_interval _ _ Hp)) by (done || apply Hr).
  rewrite (load_bool_persisted _ _ db (rt_verify_enabled r) (pe_enabled _ _ Hp)).
  rewrite (load_bool_persisted _ _ db (rt_verify_startup r) (pe_startup _ _ Hp)).
  rewrite (load_persisted _ _ _ _ _ db (rt_verify_chunks r) (pe_chunks _ _ Hp)) by (done || apply Hr).
  unfold of_result, set_recovery_verification_settings, validate_recovery_verify_interval_secs,
    validate_recovery_verify_chunks, validate_range.
  rewrite (ro_interval _ Hr), (ro_chunks _ Hr). cbn [negb invalid_plan].
  eexists. split; [reflexivity|].
  match goal with |- same_settings (set_recovery_verify_startup ?t ?b ?r0) _ =>
    destruct (startup_fields t b r0) as [next ->] end.
  by destruct r.
Qed.

Lemma svc_ok {A B} (m : Svc A) (f : A -> Svc B) s b s' :
  (m ≫= f) s = (Ok b, s') <-> exists a s1, m s = (Ok a, s1) /\ f a s1 = (Ok b, s').
Proof.
  unfold mbind, Svc_bind. destruct (m s) as [[a|e] d].
  - split; [eauto|]. intros (a' & d' & [= <- <-] & H). exact H.
  - split; [done|]. intros (a' & d' & [=] & _).
Qed.

Lemma bad_request_ok {A} (r : Result A ConfigError.t) s u s' :
  bad_request r s = (Ok u, s') -> is_ok r = true /\ s' = s.
Proof. unfold bad_request. destruct r; [|done]. by intros [= <- <-]. Qed.

Lemma check_request_ok request s q s' :
  check_request request s = (Ok q, s') -> s' = s /\ runtime_ok (rq_runtime q).
Proof.
  intros H. apply svc_ok in H as (size & s1 & H1 & H).
  assert (s1 = s) as -> by (destruct (sr_chunk_size request); [by injection H1|done]).
  cbv zeta in H.
  apply svc_ok in H as (? & ? & Hb1 & H). apply bad_request_ok in Hb1 as [Hb1 ->].
  apply svc_ok in H as (r & ? & Hr & H). injection Hr as <- <-.
  do 4 (let Hb := fresh "Hb" in
        apply svc_ok in H as (? & ? & Hb & H); apply bad_request_ok in Hb as [Hb ->]).
  apply svc_ok in H as (retention & s1 & Hret & H).
  assert (s1 = s) as -> by (destruct (sr_cleanup_retention request); by injection Hret). clear Hret.
  do 3 (let Hb := fresh "Hb" in
        apply svc_ok in H as (? & ? & Hb & H); apply bad_request_ok in Hb as [Hb ->]).
  injection H as <- <-. split; [done|].
  split; cbn -[one_of within]; first [by eapply is_ok_range|by apply is_ok_mode].
Qed.

Lemma update_ok f s u s' : update f s = (Ok u, s') -> exists r, f s.1 = Ok r /\ s' = (r, s.2).
Proof. unfold update. destruct (f s.1) eqn:E; [|done]. intros [= <- <-]. eauto. Qed.

Ltac absent_keys := rewrite ?lookup_insert_ne by done; by rewrite lookup_insert_eq.

Lemma apply_request_ok E q s u s' :
  apply_request E q s = (Ok u, s') -> same_settings s'.1 (rq_runtime q) /\ persisted s'.1 s'.2.
Proof.
  intros H. unfold apply_request in H. cbv zeta in H.
  do 5 (let Hs := fresh in let Hu := fresh in
        apply svc_ok in H as (? & ? & Hs & H); injection Hs as _ <-;
        apply svc_ok in H as (? & ? & Hu & H); apply update_ok in Hu as (? & Hu & ->);
        apply set_checked_ok in Hu as [_ ->]).
  do 5 (let Hs := fresh in apply svc_ok in H as (? & ? & Hs & H); injection Hs as _ <-).
  apply svc_ok in H as (? & ? & Hu & H). apply update_ok in Hu as (r1 & Hu & ->).
  apply verification_settings_ok in Hu as (_ & _ & next & ->).
  apply svc_ok in H as (? & ? & Hu & H). apply update_ok in Hu as (r2 & [= <-] & ->).
  apply update_ok in H as (r3 & [= <-] & ->). cbn [fst snd].
  match goal with |- same_settings (set_recovery_verify_startup ?t ?b ?r0) _ /\ _ =>
    destruct (startup_fields t b r0) as [next' ->] end.
  split; [by destruct s as [[] ?]; destruct q as [[] ?]|].
  split; cbn [fst snd app_settings]; cbn -[lookup insert pretty bool_text].
  all: absent_keys.
Qed.

(** Saved settings are durable: once the settings page has accepted a
    request, opening the service on that store with any valid configuration
    succeeds, changes nothing in the store and yields the settings the running
    service has, whatever the environment says by then. *)
Theorem settings_survive_restart symlink_metadata E E' body c r db reply r' db' :
  telegram_save_storage_settings E body (r, db) = (Ok reply, (r', db')) ->
  Config.validate symlink_metadata c = Ok tt ->
  reply = r' /\
  exists opened, open_settings symlink_metadata E' c db' = (Ok opened, db') /\ same_settings opened r'.
Proof.
  intros H Hc. destruct body as [request|]; [|done].
  apply svc_ok in H as (q & s1 & Hq & H). apply check_request_ok in Hq as [-> Hq].
  apply svc_ok in H as (u & s2 & Ha & H). injection H as <- ->. split; [done|].
  apply apply_request_ok in Ha as [Hs Hp]. cbn [fst snd] in *.
  apply open_persisted; [|done..]. unfold same_settings in Hs.
  destruct r' as [? ? ? ? ? ? ? ? ? n'], q as [[? ? ? ? ? ? ? ? ? n] ?]. cbn in *.
  injection Hs as -> -> -> -> -> -> -> -> ->. by destruct Hq; split.
Qed.

Definition sample_runtime : Runtime :=
  {| rt_chunk_size := 1048576; rt_prefetch_chunks := 1; rt_prefetch_mode := "adaptive"; rt_connections := 5;
     rt_retries := 1; rt_verify_enabled := true; rt_verify_startup := true; rt_verify_interval := 300;
     rt_verify_chunks := 1; rt_next_run_at := None |}.

Definition sample_request : StorageSettingsRequest :=
  {| sr_chunk_size := Some 4194304; sr_prefetch_chunks := Some 4; sr_prefetch_mode := Some "sequential";
     sr_connections := None; sr_retries := Some 0; sr_verify_enabled := Some false;
     sr_verify_startup := None; sr_verify_interval := None; sr_verify_chunks := None;
     sr_cleanup_retention := None |}.

Definition sample_saved := telegram_save_storage_settings (sample_env 5 "u") (Some sample_request)
  (sample_runtime, empty_db).

Lemma sample_runtime_ok : runtime_ok sample_runtime.
Proof. by split. Qed.

Lemma opened_settings_in_bounds_witness :
  exists r db', open_settings sample_files (sample_env 5 "u") sample_config empty_db = (Ok r, db') /\
    rt_chunk_size r = 65536 /\ runtime_ok r.
Proof.
  destruct (open_settings sample_files (sample_env 5 "u") sample_config empty_db) as [[r|e] db'] eqn:E.
  - exists r, db'. split; [done|]. split; [|by eapply opened_settings_in_bounds; exact E].
    vm_compute in E. injection E as <- _. reflexivity.
  - vm_compute in E. discriminate E.
Defined.

Lemma settings_page_keeps_bounds_witness :
  rt_prefetch_chunks sample_saved.2.1 = 4 /\ runtime_ok sample_saved.2.1.
Proof.
  split; [vm_compute; reflexivity|].
  exact (settings_page_keeps_bounds (sample_env 5 "u") (Some sample_request) sample_runtime empty_db
    sample_runtime_ok).
Defined.

Lemma settings_survive_restart_witness :
  exists opened, open_settings sample_files (sample_env 9 "v") sample_config sample_saved.2.2 =
    (Ok opened, sample_saved.2.2) /\ same_settings opened sample_saved.2.1.
Proof.
  refine (proj2 (settings_survive_restart sample_files (sample_env 5 "u") (sample_env 9 "v")
    (Some sample_request) sample_config sample_runtime empty_db sample_saved.2.1 sample_saved.2.1
    sample_saved.2.2 _ _)); vm_compute; reflexivity.
Defined.

(** ** The account settings *)

(** Saving the account settings never changes which connection is active:
    the stored connection is kept, or a new one is made when there is none.
    The settings read back as they were saved, everything recorded for the
    connection [legacy] is handed to the active connection and nothing else
    moves, and its account row carries the settings. *)
Theorem account_settings_keep_connection `{BootstrapJson} E settings db :
  let db' := (set_telegram_bootstrap_settings E settings db).2 in
  exists id, app_settings db' !! ACTIVE_CONNECTION_SETTING = Some id /\
    id = default (new_v4 E 0) (app_settings db !! ACTIVE_CONNECTION_SETTING) /\
    (telegram_bootstrap_settings db').1 = Ok (Some settings) /\
    (forall o row, object_manifests db !! o = Some row ->
       object_manifests db' !! o = Some (row <| om_connection_id ::= adopt "legacy" id |>)) /\
    (id <> "legacy" -> forall o row, object_manifests db' !! o = Some row -> om_connection_id row <> "legacy") /\
    exists a, telegram_accounts db' !! id = Some a /\ ta_bootstrap_json a = to_json settings.
Proof.
  intros db'.
  assert (exists id phone, id = default (new_v4 E 0) (app_settings db !! ACTIVE_CONNECTION_SETTING) /\
    app_settings db' !! ACTIVE_CONNECTION_SETTING = Some id /\
    app_settings db' !! BOOTSTRAP_SETTING = Some (to_json settings) /\
    object_manifests db' = (fun m => m <| om_connection_id ::= adopt "legacy" id |>) <$> object_manifests db /\
    telegram_accounts db' = telegram_accounts (upsert_primary_account id (to_json settings) phone (now_at E 0) db).2)
    as (id & phone & -> & Hid & Hb & Hm & Ha).
  { subst db'. unfold set_telegram_bootstrap_settings, transaction, read_text_setting, query, mbind, M_bind.
    destruct (app_settings db !! ACTIVE_CONNECTION_SETTING) as [c|] eqn:Ec; eexists _, _;
      (split; [reflexivity|]).
    - split_and!; [|apply lookup_insert_eq|done|reflexivity]. transitivity (app_settings db !! ACTIVE_CONNECTION_SETTING); [by apply lookup_insert_ne|done].
    - split_and!; [|apply lookup_insert_eq|done|reflexivity].
      etransitivity; [by apply lookup_insert_ne|apply lookup_insert_eq]. }
  eexists. split; [exact Hid|]. split; [done|]. split.
  { unfold telegram_bootstrap_settings, read_text_setting, query, mbind, M_bind. rewrite Hb.
    by rewrite from_to_json. }
  rewrite Hm, Ha. split; [|split].
  - intros o row Ho. by rewrite lookup_fmap, Ho.
  - intros Hne o row Ho. rewrite lookup_fmap in Ho. destruct (object_manifests db !! o) as [row0|]; [|done].
    injection Ho as <-. cbn. unfold adopt. by case_bool_decide.
  - cbn. rewrite lookup_insert_eq. eexists. split; [done|]. by case_match.
Qed.

(** ** Lost increments *)

(** The two statements of [increment_traffic_total] are separate transactions,
    so two increments that interleave, on two connections of the pool, count
    once. *)
Theorem traffic_increments_can_be_lost :
  let kind := TrafficCounterKind.ClientUpload in
  (read_traffic_total kind (write_traffic_total kind 0 5 (write_traffic_total kind 0 7 empty_db).2).2).1
    = Ok 5 /\
  (read_traffic_total kind (increment_traffic_total kind 5 (increment_traffic_total kind 7 empty_db).2).2).1
    = Ok 12 /\
  (read_traffic_total kind empty_db).1 = Ok 0.
Proof. split_and!; vm_compute; reflexivity. Qed.
