(* ===== verification/Retry.v ===== *)
(** * Telegram retry policy and the two download retry loops

    [src/src/telegram/retry.rs] and the loops of [src/src/object_format.rs]
    that drive it: [retry_telegram_read], which gives up after
    [max_attempts] calls, and [retry_telegram_read_for_stream], which gives up
    when a recovery window closes.

    A [Duration] is a number of nanoseconds and an [Instant] a point on the
    same line.  What the loops observe of the outside world is a parameter:
    the result of the [i]-th call of the read closure, how long that call
    takes, and how much later than requested the [i]-th sleep returns. *)

From stdpp Require Import pretty.
From S2P Require Import Prelude Errors.

(** ** Durations *)

Definition Duration : Type := Z.

Definition MILLI : Z := 1000000.

Definition from_secs (s : Z) : Duration := s * 1000 * MILLI.

Definition from_millis (ms : Z) : Duration := ms * MILLI.

Definition as_millis (d : Duration) : Z := d / MILLI.

Definition as_micros (d : Duration) : Z := d / 1000.

Definition U128_MAX : Z := 2 ^ 128 - 1.

(** ** The policy *)

Module RetryDecision.
Inductive t : Type :=
| RetryAfter (delay : Duration)
| RespectFloodWait (delay : Duration)
| GiveUp.
End RetryDecision.

Record RetryPolicy : Type := {
  max_attempts : Z;
  base_backoff : Duration;
  respect_flood_wait : bool
}.

Definition new_policy (attempts : Z) (base : Duration) (respect : bool) : RetryPolicy :=
  {| max_attempts := Z.max attempts 1; base_backoff := base; respect_flood_wait := respect |}.

Definition default_policy : RetryPolicy := new_policy 5 (from_millis 500) true.

Definition backoff_for_attempt (self : RetryPolicy) (attempt : Z) : Duration :=
  if attempt <=? 1 then base_backoff self
  else
    let multiplier := Z.shiftl 1 (Z.min (Z.max (attempt - 1) 0) 20) in
    let millis := Z.min (as_millis (base_backoff self) * multiplier) U128_MAX in
    let capped := Z.min millis (as_millis (from_secs 10)) in
    from_millis (capped mod (U64_MAX + 1)).

Definition retry_decision (self : RetryPolicy) (attempt : Z) (flood_wait_seconds : option Z)
  : RetryDecision.t :=
  match flood_wait_seconds, respect_flood_wait self with
  | Some seconds, true => RetryDecision.RespectFloodWait (from_secs (Z.max seconds 1))
  | _, _ =>
      if max_attempts self <=? attempt then RetryDecision.GiveUp
      else RetryDecision.RetryAfter (backoff_for_attempt self (attempt + 1))
  end.

(** ** Reading the flood wait out of an error text *)

Definition is_ascii_digit (c : Ascii.ascii) : bool :=
  match digit_value c with Some _ => true | None => false end.

Fixpoint take_digits (s : string) : string :=
  match s with
  | String c s' => if is_ascii_digit c then String c (take_digits s') else EmptyString
  | EmptyString => EmptyString
  end.

Definition seconds_after (p error : string) : option Z :=
  match find_after p error with
  | Some tail => parse_u64 (take_digits tail)
  | None => None
  end.

Definition parse_flood_wait_seconds (error : string) : option Z :=
  match seconds_after "FLOOD_WAIT_" error with
  | Some value => Some value
  | None => seconds_after "(value: " error
  end.

Definition is_flood_wait_error (error : string) : bool :=
  let error := sql_upper error in
  contains "FLOOD_WAIT" error || contains "RPC ERROR 420" error.

(** ** The bounded loop *)

Definition is_retryable_telegram_read_error (e : ObjectFormatError.t) : bool :=
  match e with
  | ObjectFormatError.Telegram (TelegramTransportError.Rpc _) => true
  | ObjectFormatError.Telegram (TelegramTransportError.Io _) => true
  | ObjectFormatError.Telegram (TelegramTransportError.Proxy (ProxyError.BridgeFailed _)) => true
  | _ => false
  end.

Section Loops.
Context {bytes : Type}.
Context (retry_policy : RetryPolicy).
Context (read : nat -> Result bytes ObjectFormatError.t).

(** [retry_telegram_read]: the loop from its [call]-th call on; the value is
    the result and the delays slept, [None] when the fuel runs out.  The
    attempt counter is a [u32]. *)
Fixpoint retry_read_loop (fuel : nat) (call : nat) (attempt : Z)
  : option (Result bytes ObjectFormatError.t * list Duration) :=
  match fuel with
  | O => None
  | S fuel' =>
      match read call with
      | Ok b => Some (Ok b, [])
      | Err error =>
          if negb (is_retryable_telegram_read_error error) then Some (Err error, [])
          else
            let error_text := ObjectFormatError.to_string error in
            match retry_decision retry_policy attempt (parse_flood_wait_seconds error_text) with
            | RetryDecision.RetryAfter delay | RetryDecision.RespectFloodWait delay =>
                match retry_read_loop fuel' (S call) (as_u32 (attempt + 1)) with
                | Some (r, delays) => Some (r, delay :: delays)
                | None => None
                end
            | RetryDecision.GiveUp => Some (Err error, [])
            end
      end
  end.

Definition retry_telegram_read (fuel : nat) := retry_read_loop fuel 0 1.

(** ** The loop of a stream *)

Record TelegramRetryResult : Type := {
  rr_bytes : bytes;
  rr_retries : Z;
  rr_retry_wait_us : Z
}.

Definition recovery_window_expired (message_id : Z) : ObjectFormatError.t :=
  ObjectFormatError.Telegram (TelegramTransportError.Io
    ("Telegram chunk download recovery window expired for message " +:+ pretty message_id)).

Definition stream_delay (error_text : string) (attempt : Z) : Duration :=
  match parse_flood_wait_seconds error_text, respect_flood_wait retry_policy with
  | Some seconds, true => from_secs (Z.max seconds 1)
  | _, _ => backoff_for_attempt retry_policy (Z.min (attempt + 1) U32_MAX)
  end.

Context (message_id : Z) (took late : nat -> Duration).

(** The value also carries the instant at which the loop returns. *)
Fixpoint retry_stream_loop (fuel : nat) (deadline : Z) (call : nat)
    (now attempt retries retry_wait_us : Z)
  : option (Result TelegramRetryResult ObjectFormatError.t * Z) :=
  match fuel with
  | O => None
  | S fuel' =>
      let remaining := Z.max (deadline - now) 0 in
      if remaining =? 0 then Some (Err (recovery_window_expired message_id), now)
      else if remaining <? took call then
        Some (Err (recovery_window_expired message_id), now + remaining)
      else
        let now := now + took call in
        match read call with
        | Ok b => Some (Ok {| rr_bytes := b; rr_retries := retries;
                              rr_retry_wait_us := retry_wait_us |}, now)
        | Err error =>
            if negb (is_retryable_telegram_read_error error) then Some (Err error, now)
            else
              let delay := stream_delay (ObjectFormatError.to_string error) attempt in
              let remaining := Z.max (deadline - now) 0 in
              if remaining =? 0 then Some (Err error, now)
              else
                let wait := Z.min delay remaining in
                let now := now + wait + late call in
                let retries := u64_saturating_add retries 1 in
                let retry_wait_us :=
                  u64_saturating_add retry_wait_us (as_micros wait mod (U64_MAX + 1)) in
                if remaining <=? wait then Some (Err error, now)
                else retry_stream_loop fuel' deadline (S call) now
                       (Z.min (attempt + 1) U32_MAX) retries retry_wait_us
        end
  end.

Definition retry_telegram_read_for_stream (fuel : nat) (started recovery_window : Z) :=
  retry_stream_loop fuel (started + recovery_window) 0 started 1 0 0.

End Loops.

Arguments TelegramRetryResult : clear implicits.

(** ** Account failover *)

(** [None]: the remainder by zero panics. *)
Definition account_failover_candidate_index
    (selected candidate_count attempts_per_account attempt : Z) : option Z :=
  if candidate_count =? 0 then None
  else Some ((selected + attempt / Z.max attempts_per_account 1) mod candidate_count).

Definition effective_download_connection_limit
    (configured prefetch_window eligible_accounts : Z) : Z :=
  Z.min (Z.min (Z.max configured 1) (Z.max prefetch_window 1)) (Z.max eligible_accounts 1).

(** ** Backoff *)

Lemma capped_millis (p : RetryPolicy) (attempt : Z) :
  0 <= base_backoff p -> 1 < attempt ->
  backoff_for_attempt p attempt =
  from_millis (Z.min (as_millis (base_backoff p) * 2 ^ Z.min (attempt - 1) 20) 10000).
Proof.
  intros Hb Ha. unfold backoff_for_attempt.
  destruct (Z.leb_spec attempt 1) as [|_]; [lia|].
  rewrite (Z.max_l (attempt - 1)), Z.shiftl_1_l by lia.
  change (as_millis (from_secs 10)) with 10000.
  assert (0 <= as_millis (base_backoff p)) as Hm by (apply Z.div_pos; [lia|reflexivity]).
  assert (0 < 2 ^ Z.min (attempt - 1) 20) by (apply Z.pow_pos_nonneg; lia).
  set (x := as_millis (base_backoff p) * 2 ^ Z.min (attempt - 1) 20).
  assert (0 <= x) by (subst x; nia).
  rewrite Z.mod_small by (unfold U128_MAX, U64_MAX; lia).
  f_equal. unfold U128_MAX. lia.
Qed.

Lemma backoff_nonneg (p : RetryPolicy) (attempt : Z) :
  0 <= base_backoff p -> 0 <= backoff_for_attempt p attempt.
Proof.
  intros Hb. destruct (Z.le_gt_cases attempt 1) as [Ha|Ha].
  - unfold backoff_for_attempt. destruct (Z.leb_spec attempt 1); lia.
  - rewrite capped_millis by lia. unfold from_millis, MILLI.
    assert (0 <= as_millis (base_backoff p)) by (apply Z.div_pos; [lia|reflexivity]).
    assert (0 < 2 ^ Z.min (attempt - 1) 20) by (apply Z.pow_pos_nonneg; lia). nia.
Qed.

Lemma backoff_at_least_milli (p : RetryPolicy) (attempt : Z) :
  MILLI <= base_backoff p -> 1 < attempt -> MILLI <= backoff_for_attempt p attempt.
Proof.
  intros Hb Ha. rewrite capped_millis by (unfold MILLI in Hb; lia).
  assert (1 <= as_millis (base_backoff p)) by (apply Z.div_le_lower_bound; [reflexivity|lia]).
  assert (0 < 2 ^ Z.min (attempt - 1) 20) by (apply Z.pow_pos_nonneg; lia).
  unfold from_millis, MILLI. nia.
Qed.

(** the delay before a retry never shrinks from one attempt to the next
    and never exceeds ten seconds, whatever the configured base. *)
Theorem backoff_monotone_capped (p : RetryPolicy) (a b : Z)
    (Hbase : 0 <= base_backoff p) (Hab : 1 < a <= b) :
  0 <= backoff_for_attempt p a <= backoff_for_attempt p b /\
  backoff_for_attempt p b <= from_secs 10.
Proof.
  split; [split; [apply backoff_nonneg; lia|]|]; rewrite !capped_millis by lia;
    unfold from_millis, from_secs, MILLI; [|lia].
  assert (0 <= as_millis (base_backoff p)) by (apply Z.div_pos; [lia|reflexivity]).
  assert (2 ^ Z.min (a - 1) 20 <= 2 ^ Z.min (b - 1) 20) by (apply Z.pow_le_mono_r; lia).
  nia.
Qed.

Lemma backoff_monotone_capped_witness :
  0 <= backoff_for_attempt default_policy 2 <= backoff_for_attempt default_policy 3 /\
  backoff_for_attempt default_policy 3 <= from_secs 10.
Proof. apply (backoff_monotone_capped default_policy 2 3); [by vm_compute|lia]. Defined.

(** ** The bounded loop *)

Section BoundedLoop.
Context {bytes : Type} (policy : RetryPolicy).
Context (read : nat -> Result bytes ObjectFormatError.t).

(** The policy sees no flood wait in an error. *)
Definition plain_error (e : ObjectFormatError.t) : Prop :=
  respect_flood_wait policy = true ->
  parse_flood_wait_seconds (ObjectFormatError.to_string e) = None.

(** The call settles the read: bytes, or an error that is not retried. *)
Definition final (r : Result bytes ObjectFormatError.t) : bool :=
  match r with Ok _ => true | Err e => negb (is_retryable_telegram_read_error e) end.

Lemma plain_decision (attempt : Z) (e : ObjectFormatError.t) :
  plain_error e ->
  retry_decision policy attempt (parse_flood_wait_seconds (ObjectFormatError.to_string e)) =
  if max_attempts policy <=? attempt then RetryDecision.GiveUp
  else RetryDecision.RetryAfter (backoff_for_attempt policy (attempt + 1)).
Proof.
  unfold plain_error, retry_decision. intros Hp.
  destruct (respect_flood_wait policy); [rewrite Hp by reflexivity|]; reflexivity || by case_match.
Qed.

Definition loop_outcome (call n : nat) (out : Result bytes ObjectFormatError.t * list Duration)
  : Prop :=
  exists k, (call <= k < n)%nat /\ out.1 = read k /\ length out.2 = (k - call)%nat /\
    Forall (fun d => d <= from_secs 10) out.2 /\
    (forall i, (call <= i < k)%nat -> final (read i) = false) /\
    (S k = n \/ final (read k) = true).

Lemma outcome_here (call n : nat) r :
  (call < n)%nat -> r = read call -> (S call = n \/ final r = true) ->
  loop_outcome call n (r, []).
Proof.
  intros Hn -> Hf. exists call. cbn. repeat split; try lia; [constructor|assumption].
Qed.

Lemma retry_read_loop_outcome (n : nat) :
  max_attempts policy = Z.of_nat n -> Z.of_nat n <= U32_MAX -> 0 <= base_backoff policy ->
  (forall i e, (i < n)%nat -> read i = Err e -> plain_error e) ->
  forall m call fuel, (n - call = m)%nat -> (call < n)%nat -> (m <= fuel)%nat ->
  exists out, retry_read_loop policy read fuel call (Z.of_nat call + 1) = Some out /\
              loop_outcome call n out.
Proof.
  intros Hmax Hn Hb Hplain. induction m as [|m IH]; intros call fuel Hm Hcall Hfuel; [lia|].
  destruct fuel as [|fuel]; [lia|]. cbn [retry_read_loop].
  destruct (read call) as [b|e] eqn:Hr.
  { eexists. split; [reflexivity|]. apply outcome_here; auto. }
  destruct (is_retryable_telegram_read_error e) eqn:Hre; cbn [negb].
  2: { eexists. split; [reflexivity|]. apply outcome_here; [lia|auto|]. right. cbn. by rewrite Hre. }
  rewrite (plain_decision _ e) by (eapply Hplain; eauto).
  destruct (Z.leb_spec (max_attempts policy) (Z.of_nat call + 1)) as [Hg|Hg].
  { eexists. split; [reflexivity|]. apply outcome_here; [lia|auto|]. left. lia. }
  destruct (IH (S call) fuel ltac:(lia) ltac:(lia) ltac:(lia)) as ([r ds] & Hl & k & Hk & Hout).
  replace (as_u32 (Z.of_nat call + 1 + 1)) with (Z.of_nat (S call) + 1)
    by (unfold as_u32; rewrite Z.mod_small; unfold U32_MAX in *; lia).
  rewrite Hl. eexists. split; [reflexivity|]. exists k. cbn in *.
  destruct Hout as (Hrk & Hlen & Hall & Hbefore & Hend).
  repeat split; auto; try lia.
  - constructor; [|assumption]. rewrite capped_millis by lia.
    unfold from_millis, from_secs, MILLI. lia.
  - intros i Hi. destruct (decide (i = call)) as [->|]; [|apply Hbefore; lia].
    rewrite Hr. cbn. by rewrite Hre.
Qed.

(** a chunk download that meets no flood wait ends: with a policy of [n]
    attempts it returns the result of its [k]-th call for some [k < n], where
    every earlier call failed with a retryable error, the [k]-th either settled
    the read or was the last one allowed, and each of the [k] sleeps between
    was at most ten seconds. *)
Theorem retry_telegram_read_terminates (n fuel : nat)
    (Hmax : max_attempts policy = Z.of_nat n) (Hn : 1 <= Z.of_nat n <= U32_MAX)
    (Hbase : 0 <= base_backoff policy)
    (Hplain : forall i e, (i < n)%nat -> read i = Err e -> plain_error e)
    (Hfuel : (n <= fuel)%nat) :
  exists k delays, (k < n)%nat /\
    retry_telegram_read policy read fuel = Some (read k, delays) /\
    length delays = k /\ Forall (fun d => d <= from_secs 10) delays /\
    (forall i, (i < k)%nat -> final (read i) = false) /\
    (S k = n \/ final (read k) = true).
Proof.
  destruct (retry_read_loop_outcome n Hmax ltac:(lia) Hbase Hplain n 0 fuel
              ltac:(lia) ltac:(lia) Hfuel) as ([r ds] & Hl & k & Hk & Hr & Hlen & Hall & Hb & He).
  cbn in *. exists k, ds. subst r. repeat split; auto; try lia.
  intros i Hi. apply Hb. lia.
Qed.

Lemma retry_read_loop_flood (fuel call i : nat) (attempt : Z) r delays d e s :
  respect_flood_wait policy = true ->
  retry_read_loop policy read fuel call attempt = Some (r, delays) ->
  delays !! i = Some d -> read (call + i)%nat = Err e ->
  parse_flood_wait_seconds (ObjectFormatError.to_string e) = Some s ->
  d = from_secs (Z.max s 1).
Proof.
  intros Hrespect Hrun Hd He Hs. revert call i attempt delays Hrun Hd He.
  induction fuel as [|fuel IH]; intros call i attempt delays Hrun Hd He; [done|].
  cbn [retry_read_loop] in Hrun.
  destruct (read call) as [b|e'] eqn:Hc; [simplify_eq; done|].
  destruct (is_retryable_telegram_read_error e'); cbn [negb] in Hrun; [|simplify_eq; done].
  destruct (retry_decision _ _ _) as [d'|d'|] eqn:Hdec; [| |simplify_eq; done];
  (destruct (retry_read_loop _ _ _ _ _) as [[r' ds]|] eqn:Hl; [|done]);
  simplify_eq; (destruct i as [|i]; cbn in Hd; simplify_eq;
    [ rewrite Nat.add_0_r, Hc in He; injection He as <-; unfold retry_decision in Hdec;
      rewrite Hs, Hrespect in Hdec; by simplify_eq
    | eapply IH; [exact Hl|exact Hd|]; by rewrite <- He, Nat.add_succ_comm ]).
Qed.

(** when the policy respects flood waits, a download that returns has
    slept after every flood-wait error exactly the seconds Telegram asked
    for, and at least one. *)
Theorem retry_telegram_read_honours_flood_waits (fuel : nat) r delays
    (Hrespect : respect_flood_wait policy = true)
    (Hrun : retry_telegram_read policy read fuel = Some (r, delays)) :
  forall i d e s, delays !! i = Some d -> read i = Err e ->
    parse_flood_wait_seconds (ObjectFormatError.to_string e) = Some s ->
    d = from_secs (Z.max s 1).
Proof. intros i d e s. by apply (retry_read_loop_flood fuel 0 i 1 r). Qed.

End BoundedLoop.

(** ** The loop of a stream *)

Section StreamLoop.
Context {bytes : Type} (policy : RetryPolicy).
Context (read : nat -> Result bytes ObjectFormatError.t) (message_id : Z).
Context (took late : nat -> Duration) (slack : Z).
Context (Hbase : MILLI <= base_backoff policy).
Context (Htook : forall i, 0 <= took i) (Hlate : forall i, 0 <= late i <= slack).

Lemma stream_delay_at_least_milli (text : string) (attempt : Z) :
  1 <= attempt <= U32_MAX -> MILLI <= stream_delay policy text attempt.
Proof using Hbase.
  intros Ha. unfold stream_delay.
  assert (MILLI <= backoff_for_attempt policy (Z.min (attempt + 1) U32_MAX)).
  { apply backoff_at_least_milli; [assumption|]. unfold U32_MAX in *. lia. }
  repeat case_match; auto. unfold from_secs, MILLI. lia.
Qed.

(** What a returning run from the [call]-th call on has done. *)
Definition stream_outcome (deadline : Z) (call : nat)
    (out : Result (TelegramRetryResult bytes) ObjectFormatError.t * Z) : Prop :=
  out.2 <= deadline + slack /\
  exists k, (call <= k)%nat /\
    (forall i, (call <= i < k)%nat -> final (read i) = false) /\
    match out.1 with
    | Ok res => read k = Ok (rr_bytes res)
    | Err e => (read k = Err e /\ final (read k) = true) \/ deadline <= out.2
    end.

Lemma stream_outcome_later (deadline : Z) (call : nat) out :
  final (read call) = false -> stream_outcome deadline (S call) out ->
  stream_outcome deadline call out.
Proof using.
  intros Hf (Ht & k & Hk & Hb & Ho). split; [assumption|]. exists k.
  split; [lia|]. split; [|assumption]. intros i Hi.
  destruct (decide (i = call)) as [->|]; [assumption|apply Hb; lia].
Qed.

Lemma stream_outcome_here (deadline : Z) (call : nat) r t :
  t <= deadline + slack ->
  match r with
  | Ok res => read call = Ok (rr_bytes res)
  | Err e => (read call = Err e /\ final (read call) = true) \/ deadline <= t
  end ->
  stream_outcome deadline call (r, t).
Proof using. intros Ht Hr. split; [assumption|]. exists call. split; [lia|]. split; [lia|assumption]. Qed.

Lemma retry_stream_loop_outcome (fuel : nat) (deadline : Z) :
  forall call now attempt retries us,
  1 <= attempt <= U32_MAX -> now <= deadline + slack ->
  deadline - now <= MILLI * (Z.of_nat fuel - 1) -> (1 <= fuel)%nat ->
  exists out, retry_stream_loop policy read message_id took late fuel deadline call now
                attempt retries us = Some out /\ stream_outcome deadline call out.
Proof using Hbase Htook Hlate.
  induction fuel as [|fuel IH]; intros call now attempt retries us Ha Hnow Hf H1; [lia|].
  cbn [retry_stream_loop]. pose proof (Htook call). pose proof (Hlate call).
  destruct (Z.eqb_spec (Z.max (deadline - now) 0) 0) as [Hz|Hz].
  { eexists. split; [reflexivity|]. apply stream_outcome_here; [lia|]. right. lia. }
  destruct (Z.ltb_spec (Z.max (deadline - now) 0) (took call)) as [Hl|Hl].
  { eexists. split; [reflexivity|]. apply stream_outcome_here; [lia|]. right. lia. }
  destruct (read call) as [b|e] eqn:Hr.
  { eexists. split; [reflexivity|]. apply stream_outcome_here; [lia|assumption]. }
  destruct (is_retryable_telegram_read_error e) eqn:Hre; cbn [negb].
  2: { eexists. split; [reflexivity|]. apply stream_outcome_here; [lia|]. left.
       rewrite Hr. cbn. by rewrite Hre. }
  destruct (Z.eqb_spec (Z.max (deadline - (now + took call)) 0) 0) as [Hz'|Hz'].
  { eexists. split; [reflexivity|]. apply stream_outcome_here; [lia|]. right. lia. }
  pose proof (stream_delay_at_least_milli (ObjectFormatError.to_string e) attempt Ha).
  destruct (Z.leb_spec (Z.max (deadline - (now + took call)) 0)
              (Z.min (stream_delay policy (ObjectFormatError.to_string e) attempt)
                 (Z.max (deadline - (now + took call)) 0))) as [Hw|Hw].
  { eexists. split; [reflexivity|]. apply stream_outcome_here; [lia|]. right. lia. }
  assert (0 < MILLI) by reflexivity.
  edestruct (IH (S call)) as (out & Ho & Hout); [| | | |exists out; split; [exact Ho|]];
    unfold U32_MAX in *; try nia.
  apply stream_outcome_later; [|assumption]. rewrite Hr. cbn. by rewrite Hre.
Qed.

(** C40: a streaming chunk read always returns, no later than the recovery
    window plus the lateness of one sleep, even through flood waits of any
    length; the bytes it returns are those of a call all of whose predecessors
    failed retryably, and it gives up on a retryable error only once the
    window has closed. *)
Theorem retry_stream_read_within_window (fuel : nat) (started window : Z)
    (Hslack : 0 <= slack) (Hwindow : 0 <= window)
    (Hfuel : window <= MILLI * (Z.of_nat fuel - 1)) :
  exists out, retry_telegram_read_for_stream policy read message_id took late fuel
                started window = Some out /\
              stream_outcome (started + window) 0 out.
Proof using Hbase Htook Hlate.
  unfold retry_telegram_read_for_stream. assert (0 < MILLI) by reflexivity.
  apply retry_stream_loop_outcome; unfold U32_MAX; nia.
Qed.

End StreamLoop.

(** ** Flood-wait texts *)

Fixpoint all_digits (s : string) : bool :=
  match s with EmptyString => true | String c s' => is_ascii_digit c && all_digits s' end.

Definition starts_with_digit (s : string) : bool :=
  match s with String c _ => is_ascii_digit c | EmptyString => false end.

Lemma take_digits_app (d s : string) :
  all_digits d = true -> starts_with_digit s = false -> take_digits (d +:+ s) = d.
Proof.
  intros Hd Hs. induction d as [|c d IH].
  - destruct s as [|c s]; [done|]. cbn [starts_with_digit] in Hs.
    change (take_digits (String c s) = EmptyString). cbn [take_digits]. by rewrite Hs.
  - rewrite append_cons. cbn [all_digits take_digits] in *.
    apply andb_prop in Hd as [-> Hd]. by rewrite IH.
Qed.

(** No proper nonempty suffix of [p] found in [rest] starts [p] again. *)
Fixpoint borderless (p rest : string) : bool :=
  match rest with
  | EmptyString => true
  | String _ q =>
      (is_empty q || match strip_prefix q p with Some _ => false | None => true end)
      && borderless p q
  end.

Lemma borderless_suffix (p u q : string) :
  borderless p (u +:+ q) = true -> u <> EmptyString -> q <> EmptyString ->
  strip_prefix q p = None.
Proof.
  induction u as [|c u IH]; intros Hb Hu Hq; [done|].
  rewrite append_cons in Hb. cbn [borderless] in Hb. apply andb_prop in Hb as [Hb Hr].
  destruct (decide (u = EmptyString)) as [->|Hne]; [|auto].
  change (EmptyString +:+ q) with q in Hb. destruct q as [|d q]; [done|]. cbn [is_empty orb] in Hb.
  by destruct (strip_prefix (String d q) p).
Qed.

(** A prefix of [u +:+ v] is a prefix of [u], or [u] and a prefix of [v]. *)
Lemma strip_prefix_split (p u v r : string) :
  strip_prefix p (u +:+ v) = Some r ->
  is_Some (strip_prefix p u) \/
  exists q, p = u +:+ q /\ q <> EmptyString /\ strip_prefix q v = Some r.
Proof.
  revert u. induction p as [|c p IH]; intros u H; [left; by destruct u|].
  destruct u as [|d u].
  - right. exists (String c p). done.
  - rewrite append_cons in H. cbn [strip_prefix] in *.
    destruct (Ascii.eqb_spec c d) as [<-|]; [|done].
    destruct (IH u H) as [Hs|(q & -> & Hq & Hr)]; [by left|]. right. by exists q.
Qed.

Lemma strip_prefix_shorter (q p t r : string) :
  strip_prefix q (p +:+ t) = Some r -> (String.length q <= String.length p)%nat ->
  is_Some (strip_prefix q p).
Proof.
  revert p. induction q as [|c q IH]; intros p H Hl; [by destruct p|].
  destruct p as [|d p]; [cbn in Hl; lia|].
  rewrite append_cons in H. cbn [strip_prefix] in *. destruct (Ascii.eqb c d); [|done].
  apply (IH p H). cbn in Hl. lia.
Qed.

Lemma no_occurrence_across (p u t r : string) :
  borderless p p = true -> u <> EmptyString -> strip_prefix p u = None ->
  strip_prefix p (u +:+ p +:+ t) = Some r -> False.
Proof.
  intros Hb Hu Hn H. apply strip_prefix_split in H as [Hs|(q & Hp & Hq & Hr)].
  { rewrite Hn in Hs. by destruct Hs. }
  apply strip_prefix_shorter in Hr.
  - rewrite (borderless_suffix p u q) in Hr; [by destruct Hr| |assumption..]. by rewrite <- Hp.
  - rewrite Hp, string_length_app. lia.
Qed.

Lemma find_after_first (p s t : string) :
  borderless p p = true -> find_after p s = None -> find_after p (s +:+ p +:+ t) = Some t.
Proof.
  intros Hb. induction s as [|c s IH]; intros Hs.
  - change (EmptyString +:+ p +:+ t) with (p +:+ t).
    pose proof (strip_prefix_app p t) as Hp. revert Hp. generalize (p +:+ t) as u.
    intros [|c u] Hp; cbn [find_after]; by rewrite Hp.
  - cbn [find_after] in Hs. destruct (strip_prefix p (String c s)) eqn:Hp; [done|].
    rewrite append_cons. cbn [find_after]. rewrite <- append_cons.
    destruct (strip_prefix p (String c s +:+ p +:+ t)) eqn:H; [|by apply IH].
    destruct (no_occurrence_across p (String c s) t s0); auto.
Qed.

(** the seconds of a [FLOOD_WAIT_n] text, or of the client library's
    [(value: n)] form, are read back exactly: for any text before the first
    marker and any text after the digits. *)
Theorem parse_flood_wait_reads (before digits after : string) (n : Z)
    (Hmark : contains "FLOOD_WAIT_" before = false)
    (Hdigits : all_digits digits = true) (Hvalue : parse_u64 digits = Some n)
    (Hafter : starts_with_digit after = false) :
  parse_flood_wait_seconds (before +:+ "FLOOD_WAIT_" +:+ digits +:+ after) = Some n /\
  (contains "(value: " before = false ->
   contains "FLOOD_WAIT_" (before +:+ "(value: " +:+ digits +:+ after) = false ->
   parse_flood_wait_seconds (before +:+ "(value: " +:+ digits +:+ after) = Some n).
Proof.
  unfold parse_flood_wait_seconds, seconds_after, contains in *. split.
  - rewrite find_after_first by (done || by case_match).
    by rewrite take_digits_app, Hvalue.
  - intros Hv Hf.
    destruct (find_after "FLOOD_WAIT_" (before +:+ "(value: " +:+ digits +:+ after)); [done|].
    rewrite find_after_first by (done || by case_match).
    by rewrite take_digits_app, Hvalue.
Qed.

Lemma parse_flood_wait_reads_witness :
  parse_flood_wait_seconds ("Telegram RPC error: " +:+ "FLOOD_WAIT_" +:+ "31" +:+ " (caused by x)")
  = Some 31.
Proof. apply (parse_flood_wait_reads "Telegram RPC error: " "31" " (caused by x)" 31); reflexivity. Defined.

(** ** Account failover *)

(** over the attempts of one chunk read every eligible account gets
    exactly [attempts_per_account] consecutive attempts, beginning with the
    selected account and proceeding in order. *)
Theorem account_failover_covers (selected count per_account candidate attempt : Z)
    (Hcount : 0 < count) (Hper : 1 <= per_account) (Hsel : 0 <= selected < count)
    (Hcand : 0 <= candidate < count) (Hatt : 0 <= attempt < per_account * count) :
  let turn := (candidate - selected) mod count in
  account_failover_candidate_index selected count per_account attempt = Some candidate <->
  turn * per_account <= attempt < (turn + 1) * per_account.
Proof.
  intros turn. unfold account_failover_candidate_index.
  destruct (Z.eqb_spec count 0); [lia|]. rewrite Z.max_l by lia.
  pose proof (Z.div_mod attempt per_account ltac:(lia)).
  pose proof (Z.mod_pos_bound attempt per_account ltac:(lia)).
  assert (0 <= attempt / per_account < count) as Hq.
  { split; [apply Z.div_pos; lia|]. apply Z.div_lt_upper_bound; lia. }
  assert (0 <= turn < count) by (apply Z.mod_pos_bound; lia).
  assert (Some ((selected + attempt / per_account) mod count) = Some candidate <->
          attempt / per_account = turn) as ->; [|nia].
  subst turn. split.
  - intros [= <-]. rewrite Zminus_mod_idemp_l.
    replace (selected + attempt / per_account - selected) with (attempt / per_account) by lia.
    by rewrite Z.mod_small.
  - intros ->. rewrite Zplus_mod_idemp_r.
    replace (selected + (candidate - selected)) with candidate by lia. by rewrite Z.mod_small.
Qed.

Lemma account_failover_covers_witness :
  account_failover_candidate_index 1 3 2 4 = Some 0.
Proof. apply (account_failover_covers 1 3 2 0 4); [lia..|]. vm_compute. split; congruence. Defined.

(** ** Instances *)

Definition sample_reads (i : nat) : Result Z ObjectFormatError.t :=
  match i with
  | O => Err (ObjectFormatError.Telegram (TelegramTransportError.Io "connection reset"))
  | S O => Err (ObjectFormatError.Telegram (TelegramTransportError.Rpc "rpc error 420: FLOOD_WAIT (value: 7)"))
  | _ => Ok 42
  end.

Definition sample_plain_reads (i : nat) : Result Z ObjectFormatError.t :=
  match i with
  | O => Err (ObjectFormatError.Telegram (TelegramTransportError.Io "connection reset"))
  | _ => Ok 42
  end.

Lemma retry_telegram_read_terminates_witness :
  exists k delays, (k < 5)%nat /\
    retry_telegram_read default_policy sample_plain_reads 5 = Some (sample_plain_reads k, delays) /\
    length delays = k /\ Forall (fun d => d <= from_secs 10) delays /\
    (forall i, (i < k)%nat -> final (sample_plain_reads i) = false) /\
    (S k = 5%nat \/ final (sample_plain_reads k) = true).
Proof.
  apply (retry_telegram_read_terminates default_policy sample_plain_reads 5 5);
    [reflexivity|unfold U32_MAX; lia|by vm_compute| |lia].
  intros [|i] e Hi He; cbn in He; [|done]. injection He as <-. intros _. reflexivity.
Defined.

Lemma retry_telegram_read_honours_flood_waits_witness :
  retry_telegram_read default_policy sample_reads 5 = Some (Ok 42, [from_secs 1; from_secs 7]) /\
  from_secs 7 = from_secs (Z.max 7 1).
Proof.
  split; [reflexivity|].
  refine (retry_telegram_read_honours_flood_waits default_policy sample_reads 5 (Ok 42)
            [from_secs 1; from_secs 7] _ _ 1%nat (from_secs 7) _ 7 _ _ _); reflexivity.
Defined.

Lemma retry_stream_read_within_window_witness :
  exists out, retry_telegram_read_for_stream default_policy sample_reads 9
                (fun _ => from_millis 3) (fun _ => 5) 101 0 (from_millis 100) = Some out /\
              stream_outcome sample_reads 5 (0 + from_millis 100) 0 out.
Proof.
  apply (retry_stream_read_within_window default_policy sample_reads 9 (fun _ => from_millis 3)
           (fun _ => 5) 5); [by vm_compute|intros _; by vm_compute|lia|lia|by vm_compute|].
  unfold from_millis, MILLI. lia.
Defined.
