(* ===== verification/Streaming.v ===== *)
(** * The streaming reader

    [src/src/object_format.rs]: [read_stream_span] fetches, decrypts and
    verifies one chunk with account failover; [AdaptiveReadWindow] and
    [SequentialReadAhead] prefetch spans concurrently; [ReadPipeline] fetches
    the first span alone and hands the rest to one of the two;
    [read_spans_to_stream_for_client] turns the pipeline into the response
    body.

    Concurrency is explicit: [FuturesUnordered::next] may return any future in
    flight, so the order of completions is an oracle ([pick]), and the worker
    of the sequential reader may run ahead of its consumer by any amount the
    channel's capacity allows ([ahead]).  The theorems hold for every oracle.
    Metrics, pins and the admission permits are not part of the model: they
    delay a read, they do not change what it emits. *)

From Stdlib Require Import Floats.SpecFloat.
From stdpp Require Import pretty.
From S2P Require Import Prelude Errors Manifest Chunks Schema Retry.

(** ** One span *)

(** [std::io::Error]: its kind and its text. *)
Inductive ErrorKind : Type := NotFound | InvalidData | UnexpectedEof | Other.

Record io_error : Type := { kind : ErrorKind; text : string }.

Record TelegramStreamRead : Type := {
  tr_bytes : list byte;
  tr_retries : Z;
  tr_retry_wait_us : Z;
  tr_telegram_us : Z
}.

Record ReadSpanResult : Type := {
  sr_account_id : string;
  sr_chunk_order : Z;
  sr_length : Z;
  sr_bytes : list byte;
  sr_telegram_bytes : Z;
  sr_telegram_retries : Z;
  sr_telegram_us : Z;
  sr_retry_wait_us : Z;
  sr_decrypt_us : Z;
  sr_verify_us : Z
}.

Definition telegram_account_download_enabled (id : string) (db : Db) : bool :=
  match telegram_accounts db !! id with Some a => ta_download_enabled a | None => false end.

(** An account that may serve the chunk: its id, where it holds the chunk,
    whether it is the primary. *)
Definition Candidate : Type := string * TelegramLocation * bool.

Definition replica_location (r : ChunkReplica) : TelegramLocation :=
  {| peer_id := cr_telegram_peer_id r; message_id := cr_telegram_message_id r;
     document_id := cr_telegram_document_id r |}.

Definition candidates (db : Db) (chunk : ChunkRef) : list Candidate :=
  let primary_account := app_settings db !! "telegram_active_connection_id" in
  let primary_enabled :=
    match primary_account with
    | Some account_id => telegram_account_download_enabled account_id db
    | None => true
    end in
  (if primary_enabled
   then [(default "primary" primary_account,
          {| peer_id := telegram_peer_id chunk; message_id := telegram_message_id chunk;
             document_id := telegram_document_id chunk |}, true)]
   else [])
  ++ map (fun r => (cr_account_id r, replica_location r, false))
       (List.filter (fun r => telegram_account_download_enabled (cr_account_id r) db)
          (replicas chunk)).

Section Span.
(** The limiter's answer and the account's answer to the [i]-th attempt:
    [acquire_account_download_permit], then the download through the primary
    transport or through the account's own. *)
Context (permit : nat -> string -> Result unit io_error).
Context (download_message_bytes_for_stream : nat -> Candidate -> Result TelegramStreamRead io_error).
Context (decrypt_chunk : Uuid -> Z -> list byte -> Result (list byte) ObjectFormatError.t).
Context (sha256_hex : list byte -> string).
Context (download_failover_retries : Z) (decrypt_us verify_us : Z).

Definition out_of_i32 (x : Z) : bool := (x <? - I32_MAX - 1) || (I32_MAX <? x).

(** One attempt on a candidate. *)
Definition try_candidate (order : Z) (attempt : nat) (c : Candidate)
  : Result (string * TelegramStreamRead) io_error :=
  let '(account_id, location, _) := c in
  if out_of_i32 (message_id location)
  then Err {| kind := InvalidData;
              text := "telegram message id out of range for chunk " +:+ pretty order
                      +:+ ": out of range integral type conversion attempted" |}
  else
    match permit attempt account_id with
    | Err error => Err error
    | Ok _ =>
        match download_message_bytes_for_stream attempt c with
        | Ok telegram => Ok (account_id, telegram)
        | Err error => Err error
        end
    end.

(** [for attempt in 0..total_attempts]: the first success, or the last error.
    An index out of the candidates panics; [None] is that case. *)
Fixpoint failover_loop (order selected per_account : Z) (cs : list Candidate)
    (attempt remaining : nat) (last_error : option io_error)
  : option (Result (string * TelegramStreamRead) io_error) :=
  match remaining with
  | O => Some (Err (default {| kind := Other; text := "all Telegram account read attempts failed" |}
                      last_error))
  | S remaining' =>
      match account_failover_candidate_index selected (Z.of_nat (length cs)) per_account
              (Z.of_nat attempt) with
      | None => None
      | Some index =>
          match cs !! Z.to_nat index with
          | None => None
          | Some c =>
              match try_candidate order attempt c with
              | Ok found => Some (Ok found)
              | Err error =>
                  failover_loop order selected per_account cs (S attempt) remaining' (Some error)
              end
          end
      end
  end.

Definition attempts_per_account : Z := u64_saturating_add download_failover_retries 1.

Definition total_attempts (count : nat) : nat :=
  Z.to_nat (Z.min (attempts_per_account * Z.of_nat count) U64_MAX).

(** After the download: decryption, the checksum, and the slice. *)
Definition verify_span (manifest : ObjectManifest) (chunk : ChunkRef) (span : ReadSpan)
    (account_id : string) (telegram : TelegramStreamRead) : Result ReadSpanResult io_error :=
  match (if enabled (encryption manifest)
         then let (o, n) := payload_identity chunk (object_id manifest) in
              decrypt_chunk o n (tr_bytes telegram)
         else Ok (tr_bytes telegram)) with
  | Err error => Err {| kind := InvalidData; text := ObjectFormatError.to_string error |}
  | Ok plaintext =>
      let actual_checksum := sha256_hex plaintext in
      if negb (bool_decide (actual_checksum = s_checksum span))
      then Err {| kind := InvalidData;
                  text := "checksum mismatch for chunk " +:+ pretty (s_order span)
                          +:+ ": expected " +:+ s_checksum span +:+ ", got " +:+ actual_checksum |}
      else
        let start := offset_within_chunk span in
        let stop := start + length_ span in
        if Z.of_nat (length plaintext) <? stop
        then Err {| kind := UnexpectedEof;
                    text := "chunk " +:+ pretty (s_order span)
                            +:+ " shorter than planned span (len "
                            +:+ pretty (Z.of_nat (length plaintext)) +:+ ", need "
                            +:+ pretty start +:+ "-" +:+ pretty stop +:+ ")" |}
        else Ok {| sr_account_id := account_id;
                   sr_chunk_order := s_order span;
                   sr_length := length_ span;
                   sr_bytes := take (Z.to_nat (stop - start)) (drop (Z.to_nat start) plaintext);
                   sr_telegram_bytes := Z.of_nat (length (tr_bytes telegram));
                   sr_telegram_retries := tr_retries telegram;
                   sr_telegram_us := tr_telegram_us telegram;
                   sr_retry_wait_us := tr_retry_wait_us telegram;
                   sr_decrypt_us := decrypt_us;
                   sr_verify_us := verify_us |}
  end.

(** [None]: the task panics. *)
Definition read_stream_span (db : Db) (manifest : ObjectManifest) (span : ReadSpan)
  : option (Result ReadSpanResult io_error) :=
  match chunks manifest !! Z.to_nat (s_order span) with
  | None => Some (Err {| kind := NotFound; text := "missing chunk " +:+ pretty (s_order span) |})
  | Some chunk =>
      let cs := candidates db chunk in
      if (length cs =? 0)%nat
      then Some (Err {| kind := NotFound;
                        text := "no Telegram account enabled for downloading this object" |})
      else
        let selected := s_order span mod Z.of_nat (length cs) in
        match failover_loop (s_order span) selected attempts_per_account cs 0
                (total_attempts (length cs)) None with
        | None => None
        | Some (Err error) => Some (Err error)
        | Some (Ok (account_id, telegram)) =>
            Some (verify_span manifest chunk span account_id telegram)
        end
  end.
End Span.

(** ** The prefetchers

    [fetch i] is what [read_stream_span] yields for the [i]-th span. *)

Definition Item : Type := Result ReadSpanResult io_error.

(** [f64]: IEEE binary64, round to nearest even. *)
Module F64.
Definition t : Type := spec_float.
Definition of_Z (n : Z) : t := binary_normalize 53 1024 n 0 false.
Definition div : t -> t -> t := SFdiv 53 1024.
Definition mul : t -> t -> t := SFmul 53 1024.
Definition add : t -> t -> t := SFadd 53 1024.
Definition ltb : t -> t -> bool := SFltb.
(** The literals [0.70], [0.8] and [0.2]. *)
Definition c070 : t := div (of_Z 7) (of_Z 10).
Definition c08 : t := div (of_Z 8) (of_Z 10).
Definition c02 : t := div (of_Z 2) (of_Z 10).
End F64.

Record AdaptiveReadWindow : Type := {
  next_to_schedule : nat;
  next_to_emit : nat;
  pending : list nat;
  ready : gmap nat Item;
  window : Z;
  max_window : Z;
  clean_streak : Z;
  throughput_ewma : option F64.t;
  polls : nat  (* completions so far: the position in the oracle *)
}.

#[export] Instance eta_AdaptiveReadWindow : Eta AdaptiveReadWindow := fun r =>
  {| next_to_schedule := next_to_schedule r; next_to_emit := next_to_emit r;
     pending := pending r; ready := ready r; window := window r; max_window := max_window r;
     clean_streak := clean_streak r; throughput_ewma := throughput_ewma r; polls := polls r |}.

Definition new_window (max : Z) : AdaptiveReadWindow :=
  {| next_to_schedule := 0; next_to_emit := 0; pending := []; ready := ∅;
     window := Z.max 1 (Z.min max 2); max_window := max; clean_streak := 0;
     throughput_ewma := None; polls := 0 |}.

Definition in_flight (self : AdaptiveReadWindow) : nat :=
  (length (pending self) + base.size (ready self))%nat.

(** [fill]: [room] is the number of spans not yet scheduled. *)
Fixpoint fill_loop (room : nat) (self : AdaptiveReadWindow) : AdaptiveReadWindow :=
  match room with
  | O => self
  | S room' =>
      if Z.of_nat (in_flight self) <? window self
      then fill_loop room'
             (self <| pending := pending self ++ [next_to_schedule self] |>
                   <| next_to_schedule := S (next_to_schedule self) |>)
      else self
  end.

Definition fill (spans : nat) (self : AdaptiveReadWindow) : AdaptiveReadWindow :=
  fill_loop (spans - next_to_schedule self) self.

Definition shrink_to (w : Z) (self : AdaptiveReadWindow) : AdaptiveReadWindow :=
  self <| window := Z.max w 1 |> <| clean_streak := 0 |>.

Definition throughput (result : ReadSpanResult) : option F64.t :=
  if sr_telegram_us result =? 0 then None
  else Some (F64.div (F64.of_Z (sr_telegram_bytes result)) (F64.of_Z (sr_telegram_us result))).

Definition slowed_down (current : option F64.t) (self : AdaptiveReadWindow) : bool :=
  match current, throughput_ewma self with
  | Some current, Some baseline =>
      (1 <? window self) && F64.ltb current (F64.mul baseline F64.c070)
  | _, _ => false
  end.

Definition grow (self : AdaptiveReadWindow) : AdaptiveReadWindow :=
  let self := self <| clean_streak := Z.min (clean_streak self + 1) 255 |> in
  if (2 <=? clean_streak self) && (window self <? max_window self)
  then self <| window := window self + 1 |> <| clean_streak := 0 |>
  else self.

Definition observe (item : Item) (self : AdaptiveReadWindow) : AdaptiveReadWindow :=
  match item with
  | Err _ => shrink_to (window self / 2) self
  | Ok result =>
      if 0 <? sr_telegram_retries result then shrink_to (Z.max (window self - 1) 0) self
      else
        let current := throughput result in
        let self :=
          if slowed_down current self then shrink_to (window self / 2) self else grow self in
        match current with
        | Some c =>
            self <| throughput_ewma :=
              Some (match throughput_ewma self with
                    | Some previous => F64.add (F64.mul previous F64.c08) (F64.mul c F64.c02)
                    | None => c
                    end) |>
        | None => self
        end
  end.

Section Pipeline.
Context (fetch : nat -> Item) (spans : nat).
Context (pick : nat -> nat) (ahead : nat -> nat).

(** [pending.next().await] completes the [pick]-th future in flight. *)
Definition complete_one (self : AdaptiveReadWindow) : option AdaptiveReadWindow :=
  match pending self !! (pick (polls self) mod length (pending self))%nat with
  | Some sequence =>
      Some (self <| pending := delete (pick (polls self) mod length (pending self))%nat
                                 (pending self) |>
                 <| ready := <[sequence := fetch sequence]> (ready self) |>
                 <| polls := S (polls self) |>)
  | None => None
  end.

(** The [loop] of [next]; [waiting] futures are in flight. *)
Fixpoint await_next (waiting : nat) (self : AdaptiveReadWindow)
  : option Item * AdaptiveReadWindow :=
  match ready self !! next_to_emit self with
  | Some result =>
      (Some result,
       fill spans (observe result
         (self <| ready := delete (next_to_emit self) (ready self) |>
               <| next_to_emit := S (next_to_emit self) |>)))
  | None =>
      match waiting, complete_one self with
      | S waiting', Some self' => await_next waiting' self'
      | _, _ => (None, self)
      end
  end.

Definition next_adaptive (self : AdaptiveReadWindow) : option Item * AdaptiveReadWindow :=
  let self := fill spans self in await_next (length (pending self)) self.

(** [SequentialReadAhead]: [receiver = None] reads on demand; otherwise the
    worker has sent [queue] and continues with span [worker], unless it has
    stopped. *)
Record SequentialReadAhead : Type := {
  next_to_read : nat;
  receiver : option nat;  (* the channel's capacity *)
  queue : list Item;
  worker : nat;
  stopped : bool;
  receives : nat
}.

Definition new_read_ahead (max : Z) : SequentialReadAhead :=
  let prefetch := Z.max (max - 1) 0 in
  {| next_to_read := 0;
     receiver := if prefetch =? 0 then None else Some (Z.to_nat prefetch);
     queue := []; worker := 0; stopped := false; receives := 0 |}.

(** One iteration of the worker: a failed read is sent and ends it. *)
Definition worker_step (self : SequentialReadAhead) : SequentialReadAhead :=
  if stopped self || (spans <=? worker self)%nat then
    {| next_to_read := next_to_read self; receiver := receiver self; queue := queue self;
       worker := worker self; stopped := true; receives := receives self |}
  else
    {| next_to_read := next_to_read self; receiver := receiver self;
       queue := queue self ++ [fetch (worker self)]; worker := S (worker self);
       stopped := negb (is_ok (fetch (worker self))); receives := receives self |}.

(** The worker runs until the channel is full or it has done [steps] spans. *)
Fixpoint run_ahead (steps capacity : nat) (self : SequentialReadAhead) : SequentialReadAhead :=
  match steps with
  | O => self
  | S steps' =>
      if (length (queue self) <? capacity)%nat
      then run_ahead steps' capacity (worker_step self)
      else self
  end.

(** [receiver.recv().await] waits for the worker when the channel is empty. *)
Definition recv (capacity : nat) (self : SequentialReadAhead)
  : option Item * SequentialReadAhead :=
  let self := run_ahead (ahead (receives self)) capacity self in
  let self := match queue self with [] => worker_step self | _ => self end in
  match queue self with
  | item :: rest =>
      (Some item,
       {| next_to_read := next_to_read self; receiver := receiver self; queue := rest;
          worker := worker self; stopped := stopped self; receives := S (receives self) |})
  | [] => (None, self)
  end.

Definition next_sequential (self : SequentialReadAhead) : option Item * SequentialReadAhead :=
  match receiver self with
  | Some capacity => recv capacity self
  | None =>
      if (next_to_read self <? spans)%nat
      then (Some (fetch (next_to_read self)),
            {| next_to_read := S (next_to_read self); receiver := None; queue := queue self;
               worker := worker self; stopped := stopped self; receives := receives self |})
      else (None, self)
  end.
End Pipeline.

(** ** The pipeline and the response stream *)

Inductive ReadPipelineTail : Type :=
| Adaptive (window : AdaptiveReadWindow)
| Sequential (read_ahead : SequentialReadAhead).

Record ReadPipeline : Type := {
  first : bool;  (* the future of the first span, not yet awaited *)
  remaining : option ReadPipelineTail
}.

Definition new_pipeline (spans : nat) : ReadPipeline :=
  {| first := (0 <? spans)%nat; remaining := None |}.

Section Stream.
Context (fetch : nat -> Item) (spans : nat).
Context (pick ahead : nat -> nat).
Context (mode : string) (max : Z).

Definition new_tail : ReadPipelineTail :=
  if bool_decide (mode = "sequential") then Sequential (new_read_ahead max)
  else Adaptive (new_window max).

(** The tail reads the spans after the first. *)
Definition next_tail (tail : ReadPipelineTail) : option Item * ReadPipelineTail :=
  let later := fun i => fetch (S i) in
  match tail with
  | Adaptive w => let (item, w') := next_adaptive later (spans - 1) pick w in (item, Adaptive w')
  | Sequential s =>
      let (item, s') := next_sequential later (spans - 1) ahead s in (item, Sequential s')
  end.

Definition next (self : ReadPipeline) : option Item * ReadPipeline :=
  if first self then
    let result := fetch 0 in
    (Some result, {| first := false; remaining := if is_ok result then Some new_tail else None |})
  else
    match remaining self with
    | None => (None, self)
    | Some tail => let (item, tail') := next_tail tail in
                   (item, {| first := false; remaining := Some tail' |})
    end.

(** The items of [futures::stream::unfold]: the stream ends after the first
    error or when the pipeline does.  [None]: the fuel ran out first. *)
Fixpoint stream_items (fuel : nat) (done : bool) (self : ReadPipeline)
  : option (list (Result (list byte) io_error)) :=
  match fuel with
  | O => None
  | S fuel' =>
      if done then Some []
      else
        match next self with
        | (Some (Ok result), self') => cons (Ok (sr_bytes result)) <$> stream_items fuel' false self'
        | (Some (Err error), self') => cons (Err error) <$> stream_items fuel' true self'
        | (None, _) => Some []
        end
  end.
End Stream.

Definition read_spans_to_stream_for_client (fetch : nat -> Item) (spans : nat)
    (pick ahead : nat -> nat) (mode : string) (download_prefetch_chunks : Z) (fuel : nat)
  : option (list (Result (list byte) io_error)) :=
  let max_window := Z.max (u64_saturating_add download_prefetch_chunks 1) 1 in
  stream_items fetch spans pick ahead mode max_window fuel false (new_pipeline spans).

(** ** What a reader promises

    The reference: the spans one after the other, up to the first error. *)
Fixpoint until_error (fetch : nat -> Item) (i n : nat) : list (Result (list byte) io_error) :=
  match n with
  | O => []
  | S n' =>
      match fetch i with
      | Ok result => Ok (sr_bytes result) :: until_error fetch (S i) n'
      | Err error => [Err error]
      end
  end.

(** A reader delivers [fetch 0], [fetch 1], ... in order, each when asked, as
    long as they succeed, and then the end; [delivered i s] says that [s] has
    delivered the first [i]. *)
Class Delivers {S : Type} (step : S -> option Item * S) (fetch : nat -> Item) (n : nat) := {
  delivered : nat -> S -> Prop;
  deliver_next : forall i s, delivered i s -> (i < n)%nat ->
    exists s', step s = (Some (fetch i), s') /\ (is_ok (fetch i) = true -> delivered (Datatypes.S i) s');
  deliver_end : forall s, delivered n s -> exists s', step s = (None, s')
}.

(** *** The adaptive window *)

Section AdaptiveFacts.
Context (fetch : nat -> Item) (spans : nat) (pick : nat -> nat).

Record window_inv (i : nat) (w : AdaptiveReadWindow) : Prop := {
  wi_emit : next_to_emit w = i;
  wi_order : (i <= next_to_schedule w <= spans)%nat;
  wi_nodup : NoDup (pending w);
  wi_pending : forall j, j ∈ pending w <-> (i <= j < next_to_schedule w)%nat /\ ready w !! j = None;
  wi_ready : forall j r, ready w !! j = Some r -> r = fetch j /\ (i <= j < next_to_schedule w)%nat;
  wi_window : 1 <= window w <= Z.max 1 (max_window w);
  wi_bounded : Z.of_nat (in_flight w) <= Z.max 1 (max_window w)
}.

Lemma schedule_one i w :
  window_inv i w -> (next_to_schedule w < spans)%nat -> Z.of_nat (in_flight w) < window w ->
  window_inv i (w <| pending := pending w ++ [next_to_schedule w] |>
                  <| next_to_schedule := S (next_to_schedule w) |>).
Proof.
  intros [He Ho Hn Hp Hr Hw Hb] Hs Hf. split; cbn in *; auto.
  - lia.
  - apply NoDup_app. split_and!; auto using NoDup_singleton.
    intros j Hj Hj'. apply list_elem_of_singleton in Hj'. subst j. apply Hp in Hj. lia.
  - intros j. rewrite elem_of_app, list_elem_of_singleton, Hp. split.
    + intros [[? ?]| ->]; [split; [lia|done]|]. split; [lia|].
      destruct (ready w !! next_to_schedule w) eqn:E; [|done]. apply Hr in E. lia.
    + intros [? ?]. destruct (decide (j = next_to_schedule w)); [by right|left; split; [lia|done]].
  - intros j r Hj. apply Hr in Hj as [-> ?]. split; [done|lia].
  - unfold in_flight in *. cbn. rewrite length_app. cbn. lia.
Qed.

Lemma fill_inv i w :
  window_inv i w ->
  window_inv i (fill spans w) /\
  ((i < spans)%nat -> (i < next_to_schedule (fill spans w))%nat).
Proof.
  unfold fill. remember (spans - next_to_schedule w)%nat as room eqn:Hroom.
  revert w Hroom. induction room as [|room IH]; intros w Hroom Hw; cbn [fill_loop].
  { split; [assumption|]. destruct Hw. lia. }
  destruct (Z.ltb_spec (Z.of_nat (in_flight w)) (window w)) as [Hf|Hf].
  - apply IH; cbn; [lia|]. apply schedule_one; [assumption|lia|assumption].
  - split; [assumption|]. intros Hi. destruct Hw as [He Ho Hn Hp Hr Hwin Hb].
    destruct (decide (i = next_to_schedule w)) as [->|]; [|lia]. exfalso.
    assert (pending w = []) as Hpn.
    { destruct (pending w) as [|j l] eqn:E; [done|]. rewrite <- E in Hp.
      destruct (Hp j) as [Hj _]. rewrite E in Hj. specialize (Hj ltac:(left)). lia. }
    assert (ready w = ∅) as Hrn.
    { apply map_eq. intros j. rewrite lookup_empty. destruct (ready w !! j) eqn:E; [|done].
      apply Hr in E. lia. }
    unfold in_flight in Hf. rewrite Hpn, Hrn, map_size_empty in Hf. cbn in Hf. lia.
Qed.

Lemma complete_one_inv i w :
  window_inv i w -> pending w <> [] ->
  exists w', complete_one fetch pick w = Some w' /\ window_inv i w' /\
    length (pending w') = pred (length (pending w)) /\
    next_to_schedule w' = next_to_schedule w.
Proof.
  intros [He Ho Hn Hp Hr Hw Hb] Hne. unfold complete_one.
  set (k := (pick (polls w) mod length (pending w))%nat).
  assert (k < length (pending w))%nat as Hk.
  { apply Nat.mod_upper_bound. by destruct (pending w). }
  destruct (lookup_lt_is_Some_2 _ _ Hk) as [q Hq]. rewrite Hq.
  pose proof (delete_Permutation _ _ _ Hq) as Hperm.
  rewrite Hperm in Hn. apply NoDup_cons in Hn as [Hqd Hn].
  assert (forall j, j ∈ pending w <-> j = q \/ j ∈ delete k (pending w)) as Hmem.
  { intros j. rewrite Hperm at 1. by rewrite elem_of_cons. }
  destruct (proj1 (Hp q)) as [Hqr Hqn]; [apply Hmem; by left|].
  eexists. split; [reflexivity|].
  split_and!; [|cbn; rewrite length_delete by eauto; lia|done].
  split; cbn [set pending ready next_to_emit next_to_schedule window max_window]; auto.
  - intros j. rewrite lookup_insert_None. specialize (Hp j). rewrite Hmem in Hp.
    split; [intros Hj; split; [|split]|]; try apply Hp; auto; try congruence.
    intros (Hj & Hjn & Hjq). destruct (proj2 Hp) as [->|]; auto; done.
  - intros j r Hj. apply lookup_insert_Some in Hj as [[<- <-]|[Hjq Hj]]; [by split|by apply Hr].
  - unfold in_flight in *. cbn. rewrite length_delete, map_size_insert_None by eauto. lia.
Qed.

Lemma observe_fields item w :
  pending (observe item w) = pending w /\ ready (observe item w) = ready w /\
  next_to_emit (observe item w) = next_to_emit w /\
  next_to_schedule (observe item w) = next_to_schedule w /\
  max_window (observe item w) = max_window w.
Proof. unfold observe, grow, shrink_to. repeat case_match; done. Qed.

Lemma observe_window item w :
  1 <= window w <= Z.max 1 (max_window w) ->
  1 <= window (observe item w) <= Z.max 1 (max_window w).
Proof.
  intros Hw. assert (0 <= window w / 2 <= window w) by
    (split; [apply Z.div_pos|apply Z.div_le_upper_bound]; lia).
  assert (1 <= window (grow w) <= Z.max 1 (max_window w)).
  { unfold grow. cbn. destruct (_ && _) eqn:E; cbn; [|lia]. apply andb_prop in E as [_ E].
    apply Z.ltb_lt in E. lia. }
  unfold observe. repeat case_match; cbn; try lia.
Qed.

Lemma emit_inv i r w :
  window_inv i w -> ready w !! i = Some r ->
  window_inv (S i)
    (observe r (w <| ready := delete i (ready w) |> <| next_to_emit := S i |>)).
Proof.
  intros [He Ho Hn Hp Hr Hw Hb] Hi.
  set (w' := w <| ready := delete i (ready w) |> <| next_to_emit := S i |>).
  destruct (observe_fields r w') as (Hep & Her & Hee & Hes & Hem).
  pose proof (observe_window r w' Hw) as Hwin. destruct (Hr i r Hi) as [_ Hi'].
  split; unfold in_flight; rewrite ?Hep, ?Her, ?Hee, ?Hes, ?Hem; subst w'; cbn; auto.
  - lia.
  - intros j. rewrite Hp, lookup_delete_None. split.
    + intros [? ?]. destruct (decide (j = i)) as [->|]; [congruence|]. split; [lia|by right].
    + intros [? [<-|?]]; [lia|]. split; [lia|done].
  - intros j x Hj. apply lookup_delete_Some in Hj as [Hji Hj]. apply Hr in Hj as [-> ?].
    split; [done|lia].
  - unfold in_flight in Hb. rewrite map_size_delete_Some by eauto. lia.
Qed.

Lemma await_next_item i waiting w :
  window_inv i w -> (i < next_to_schedule w)%nat -> length (pending w) = waiting ->
  exists w', await_next fetch spans pick waiting w = (Some (fetch i), w') /\ window_inv (S i) w'.
Proof.
  revert w. induction waiting as [|waiting IH]; intros w Hw Hs Hl; cbn [await_next];
    rewrite (wi_emit _ _ Hw); destruct (ready w !! i) as [r|] eqn:Hi.
  1,3: destruct (wi_ready _ _ Hw _ _ Hi) as [-> _]; eexists; split; [reflexivity|];
       apply fill_inv; by apply emit_inv.
  all: assert (i ∈ pending w) as Hin by (apply (wi_pending _ _ Hw); split; [lia|done]).
  { apply length_zero_iff_nil in Hl. rewrite Hl in Hin. by apply not_elem_of_nil in Hin. }
  destruct (complete_one_inv i w Hw) as (w' & -> & Hw' & Hl' & Hs').
  { intros Hnil. rewrite Hnil in Hin. by apply not_elem_of_nil in Hin. }
  apply IH; [assumption|lia|lia].
Qed.

Lemma await_next_end waiting w :
  window_inv spans w -> exists w', await_next fetch spans pick waiting w = (None, w').
Proof.
  intros Hw. pose proof (wi_order _ _ Hw).
  destruct waiting; cbn [await_next]; rewrite (wi_emit _ _ Hw);
    (destruct (ready w !! spans) as [r|] eqn:Hi; [apply (wi_ready _ _ Hw) in Hi; lia|]); [eauto|].
  assert (pending w = []) as Hnil.
  { destruct (pending w) as [|j l] eqn:E; [done|].
    destruct (proj1 (wi_pending _ _ Hw j)) as [? _]; [rewrite E; by left|lia]. }
  unfold complete_one. rewrite Hnil. eauto.
Qed.

#[export] Instance adaptive_delivers :
  Delivers (next_adaptive fetch spans pick) fetch spans.
Proof.
  refine {| delivered := window_inv |}.
  - intros i w Hw Hi. destruct (fill_inv i w Hw) as [Hf Hs].
    destruct (await_next_item i _ _ Hf (Hs Hi) eq_refl) as (w' & Ha & Hw').
    exists w'. auto.
  - intros w Hw. destruct (fill_inv spans w Hw) as [Hf _]. by apply await_next_end.
Defined.

Lemma new_window_inv max : window_inv 0 (new_window max).
Proof.
  split; unfold in_flight; cbn; [done|lia|apply NoDup_nil_2| |done|lia|].
  2: { rewrite map_size_empty. lia. }
  intros j. split; [|lia]. intros Hj. by apply not_elem_of_nil in Hj.
Qed.
End AdaptiveFacts.

(** *** The sequential reader *)

Section SequentialFacts.
Context (fetch : nat -> Item) (spans : nat) (ahead : nat -> nat).

(** The channel holds the results from [i] on, and the worker stops only at
    the end or behind an error. *)
Record channel_inv (i : nat) (s : SequentialReadAhead) : Prop := {
  ci_worker : (i <= worker s <= spans)%nat;
  ci_queue : queue s = map fetch (seq i (worker s - i));
  ci_stopped : stopped s = true ->
    worker s = spans \/ (i < worker s)%nat /\ is_ok (fetch (pred (worker s))) = false
}.

Definition read_ahead_inv (i : nat) (s : SequentialReadAhead) : Prop :=
  match receiver s with
  | Some _ => channel_inv i s
  | None => next_to_read s = i /\ (i <= spans)%nat
  end.

Lemma worker_step_inv i s : channel_inv i s -> channel_inv i (worker_step fetch spans s).
Proof.
  intros [Hw Hq Hs]. unfold worker_step. destruct (stopped s) eqn:Es; cbn [orb].
  { split; auto. }
  destruct (Nat.leb_spec spans (worker s)) as [Hl|Hl]; split; cbn; auto; try lia.
  - rewrite Hq. replace (S (worker s) - i)%nat with (worker s - i + 1)%nat by lia.
    rewrite seq_app, map_app. cbn. by replace (i + (worker s - i))%nat with (worker s) by lia.
  - intros Hf. right. split; [lia|]. by apply negb_true_iff.
Qed.

Lemma worker_step_receiver s : receiver (worker_step fetch spans s) = receiver s.
Proof. unfold worker_step. by case_match. Qed.

Lemma run_ahead_inv i steps cap s :
  channel_inv i s -> channel_inv i (run_ahead fetch spans steps cap s).
Proof.
  revert s. induction steps as [|steps IH]; intros s Hs; cbn [run_ahead]; [assumption|].
  case_match; auto using worker_step_inv.
Qed.

Lemma run_ahead_receiver steps cap s :
  receiver (run_ahead fetch spans steps cap s) = receiver s.
Proof.
  revert s. induction steps as [|steps IH]; intros s; cbn [run_ahead]; [done|].
  case_match; [by rewrite IH, worker_step_receiver|done].
Qed.

(** The worker has sent something unless there is nothing left to send. *)
Lemma awaited_queue i s :
  channel_inv i s -> (i < spans)%nat ->
  (i < worker (match queue s with [] => worker_step fetch spans s | _ => s end))%nat.
Proof.
  intros [Hw Hq Hs] Hi. destruct (queue s) as [|x q] eqn:Eq.
  - assert (worker s = i) as Hwi.
    { apply (f_equal length) in Hq. rewrite length_map, length_seq in Hq. cbn in Hq. lia. }
    unfold worker_step. destruct (stopped s); [specialize (Hs eq_refl); lia|]. cbn [orb].
    destruct (Nat.leb_spec spans (worker s)); cbn; lia.
  - apply (f_equal length) in Hq. rewrite length_map, length_seq in Hq. cbn in Hq. lia.
Qed.

Lemma recv_item i cap s :
  channel_inv i s -> receiver s = Some cap -> (i < spans)%nat ->
  exists s', recv fetch spans ahead cap s = (Some (fetch i), s') /\
    (is_ok (fetch i) = true -> read_ahead_inv (S i) s').
Proof.
  intros Hs Hc Hi. unfold recv. set (s1 := run_ahead _ _ _ _ s).
  assert (channel_inv i s1) as H1 by by apply run_ahead_inv.
  pose proof (awaited_queue i s1 H1 Hi) as Hlt.
  set (s2 := match queue s1 with [] => _ | _ => _ end) in *.
  assert (channel_inv i s2) as [Hw Hq Hst]
    by (subst s2; case_match; auto using worker_step_inv).
  assert (receiver s2 = Some cap) as Hc2
    by (subst s2 s1; case_match; by rewrite ?worker_step_receiver, run_ahead_receiver).
  replace (worker s2 - i)%nat with (S (worker s2 - S i)) in Hq by lia. cbn in Hq.
  rewrite Hq. eexists. split; [reflexivity|]. intros Hok.
  unfold read_ahead_inv. cbn. rewrite Hc2. split; cbn; [lia|done|].
  intros Hstop. destruct (Hst Hstop) as [?|[? Herr]]; [by left|]. right. split; [|done].
  destruct (decide (worker s2 = S i)) as [E|]; [|lia]. rewrite E in Herr. cbn in Herr. congruence.
Qed.

Lemma recv_end cap s :
  channel_inv spans s -> exists s', recv fetch spans ahead cap s = (None, s').
Proof.
  intros Hs. unfold recv. set (s1 := run_ahead _ _ _ _ s).
  assert (channel_inv spans s1) as H1 by by apply run_ahead_inv.
  assert (forall t, channel_inv spans t -> queue t = []) as Hnil.
  { intros t [Hw Hq _]. rewrite Hq. by replace (worker t - spans)%nat with 0%nat by lia. }
  rewrite (Hnil _ H1), (Hnil _ (worker_step_inv _ _ H1)). eauto.
Qed.

#[export] Instance sequential_delivers :
  Delivers (next_sequential fetch spans ahead) fetch spans.
Proof.
  refine {| delivered := read_ahead_inv |}; unfold read_ahead_inv, next_sequential.
  - intros i s Hs Hi. destruct (receiver s) as [cap|] eqn:Hc; [by apply recv_item|].
    destruct Hs as [-> _]. destruct (Nat.ltb_spec i spans); [|lia].
    eexists. split; [reflexivity|]. cbn. intros _. split; [done|lia].
  - intros s Hs. destruct (receiver s) as [cap|]; [by apply recv_end|].
    destruct Hs as [-> _]. rewrite Nat.ltb_irrefl. eauto.
Defined.

Lemma new_read_ahead_inv max : read_ahead_inv 0 (new_read_ahead max).
Proof.
  unfold read_ahead_inv, new_read_ahead. cbn.
  destruct (_ =? 0); [split; [done|lia]|].
  split; cbn; [lia|done|done].
Qed.
End SequentialFacts.

(** *** The pipeline *)

Section PipelineFacts.
Context (fetch : nat -> Item) (spans : nat).
Context (pick ahead : nat -> nat) (mode : string) (max : Z).

Let later (i : nat) : Item := fetch (S i).

Definition tail_inv (i : nat) (t : ReadPipelineTail) : Prop :=
  match t with
  | Adaptive w => window_inv later (spans - 1) i w
  | Sequential s => read_ahead_inv later (spans - 1) i s
  end.

#[export] Instance tail_delivers : Delivers (next_tail fetch spans pick ahead) later (spans - 1).
Proof.
  refine {| delivered := tail_inv |}.
  - intros i [w|s] Ht Hi; cbn in *.
    + destruct (@deliver_next _ _ _ _ (adaptive_delivers later (spans - 1) pick) i w Ht Hi)
        as (w' & Hn & Hok). unfold later in Hn. rewrite Hn.
      eexists. split; [reflexivity|exact Hok].
    + destruct (@deliver_next _ _ _ _ (sequential_delivers later (spans - 1) ahead) i s Ht Hi)
        as (s' & Hn & Hok). unfold later in Hn. rewrite Hn.
      eexists. split; [reflexivity|exact Hok].
  - intros [w|s] Ht; cbn in *.
    + destruct (@deliver_end _ _ _ _ (adaptive_delivers later (spans - 1) pick) w Ht) as (w' & Hn).
      unfold later in Hn. rewrite Hn. eauto.
    + destruct (@deliver_end _ _ _ _ (sequential_delivers later (spans - 1) ahead) s Ht) as (s' & Hn).
      unfold later in Hn. rewrite Hn. eauto.
Defined.

Definition pipeline_inv (i : nat) (p : ReadPipeline) : Prop :=
  match i with
  | O => p = new_pipeline spans
  | S i' => first p = false /\ exists t, remaining p = Some t /\ tail_inv i' t
  end.

Lemma pipeline_inv_start i p : i = 0%nat -> pipeline_inv i p -> p = new_pipeline spans.
Proof. by intros ->. Qed.

Lemma pipeline_inv_later i p :
  i <> 0%nat -> pipeline_inv i p ->
  first p = false /\ exists t, remaining p = Some t /\ tail_inv (pred i) t.
Proof. by destruct i. Qed.

#[export] Instance pipeline_delivers : Delivers (next fetch spans pick ahead mode max) fetch spans.
Proof.
  refine {| delivered := pipeline_inv |}; unfold next.
  - intros [|i] p Hp Hi; cbn in Hp.
    + rewrite Hp. cbn [new_pipeline first]. destruct (Nat.ltb_spec 0 spans); [|lia].
      eexists. split; [reflexivity|]. intros ->. split; [done|]. eexists. split; [done|].
      unfold new_tail. case_bool_decide; cbn; [apply new_read_ahead_inv|apply new_window_inv].
    + destruct Hp as (-> & t & -> & Ht).
      destruct (@deliver_next _ _ _ _ tail_delivers i t Ht ltac:(lia)) as (t' & -> & Hok).
      eexists. split; [reflexivity|]. intros H. split; [done|].
      exists t'. split; [done|exact (Hok H)].
  - intros p Hp. destruct (Nat.eq_dec spans 0) as [E|E].
    + rewrite (pipeline_inv_start _ _ E Hp). cbn [new_pipeline first remaining].
      destruct (Nat.ltb_spec 0 spans); [lia|]. eauto.
    + destruct (pipeline_inv_later _ _ E Hp) as (-> & t & -> & Ht).
      replace (pred spans) with (spans - 1)%nat in Ht by lia.
      destruct (@deliver_end _ _ _ _ tail_delivers t Ht) as (t' & ->). eauto.
Defined.

Lemma stream_items_until_error i p :
  (i <= spans)%nat -> pipeline_inv i p ->
  forall fuel, (spans - i + 2 <= fuel)%nat ->
  stream_items fetch spans pick ahead mode max fuel false p =
  Some (until_error fetch i (spans - i)).
Proof.
  remember (spans - i)%nat as m eqn:Hm. revert i p Hm.
  induction m as [|m IH]; intros i p Hm Hi Hp fuel Hf; (destruct fuel as [|fuel]; [lia|]);
    cbn [stream_items].
  - replace i with spans in Hp by lia.
    destruct (@deliver_end _ _ _ _ pipeline_delivers p Hp) as (p' & ->). done.
  - destruct (@deliver_next _ _ _ _ pipeline_delivers i p Hp ltac:(lia)) as (p' & -> & Hok).
    cbn [until_error]. destruct (fetch i) as [r|e].
    + rewrite (IH (S i)); [done|lia|lia|by apply Hok|lia].
    + destruct fuel as [|fuel]; [lia|]. done.
Qed.
End PipelineFacts.

(** ** One span: failover and verification *)

Lemma candidate_index_in_range selected count per_account attempt :
  0 < count ->
  exists k, account_failover_candidate_index selected count per_account attempt = Some k /\
            0 <= k < count.
Proof.
  intros Hc. unfold account_failover_candidate_index. destruct (Z.eqb_spec count 0); [lia|].
  eexists. split; [reflexivity|]. apply Z.mod_pos_bound. lia.
Qed.

Section SpanFacts.
Context (permit : nat -> string -> Result unit io_error).
Context (download : nat -> Candidate -> Result TelegramStreamRead io_error).
Context (decrypt_chunk : Uuid -> Z -> list byte -> Result (list byte) ObjectFormatError.t).
Context (sha256_hex : list byte -> string).
Context (retries decrypt_us verify_us : Z).

(** The candidate an attempt asks. *)
Definition asked (selected per_account : Z) (cs : list Candidate) (attempt : nat)
  : option Candidate :=
  k ← account_failover_candidate_index selected (Z.of_nat (length cs)) per_account
        (Z.of_nat attempt);
  cs !! Z.to_nat k.

Lemma asked_some selected per_account cs attempt :
  cs <> [] -> is_Some (asked selected per_account cs attempt).
Proof using.
  intros Hcs. assert (0 < Z.of_nat (length cs)) as Hl by (destruct cs; [done|cbn; lia]).
  destruct (candidate_index_in_range selected _ per_account (Z.of_nat attempt) Hl)
    as (k & Hk & Hr). unfold asked. rewrite Hk. apply lookup_lt_is_Some_2. lia.
Qed.

Lemma failover_loop_asked order selected per_account cs attempt n last :
  failover_loop permit download order selected per_account cs attempt (S n) last =
  c ← asked selected per_account cs attempt;
  match try_candidate permit download order attempt c with
  | Ok found => Some (Ok found)
  | Err e => failover_loop permit download order selected per_account cs (S attempt) n (Some e)
  end.
Proof using.
  cbn [failover_loop]. unfold asked.
  destruct (account_failover_candidate_index _ _ _ _) as [k|]; [|done]. cbn.
  by destruct (cs !! Z.to_nat k).
Qed.

(** Attempt [j] asks a candidate that answers [found]. *)
Definition answers order selected per_account cs (j : nat) found : Prop :=
  exists c, asked selected per_account cs j = Some c /\
            try_candidate permit download order j c = Ok found.

(** The loop never panics; what it finds is an attempt's answer, and it finds
    something as soon as one attempt answers. *)
Lemma failover_loop_outcome order selected per_account cs attempt remaining last :
  cs <> [] ->
  exists r, failover_loop permit download order selected per_account cs attempt remaining last
            = Some r /\
    (forall found, r = Ok found -> exists j, answers order selected per_account cs j found) /\
    ((exists j found, (attempt <= j < attempt + remaining)%nat /\
       answers order selected per_account cs j found) -> is_ok r = true).
Proof using.
  intros Hcs. revert attempt last. induction remaining as [|n IH]; intros attempt last.
  { eexists. split; [reflexivity|]. split; [done|]. intros (j & f & Hj & _). lia. }
  rewrite failover_loop_asked.
  destruct (asked_some selected per_account cs attempt Hcs) as [c Hc]. rewrite Hc. cbn [mbind option_bind].
  destruct (try_candidate permit download order attempt c) as [found|e] eqn:Ht.
  { eexists. split; [reflexivity|]. split; [|done]. intros f [= <-]. exists attempt, c. done. }
  destruct (IH (S attempt) (Some e)) as (r & Hr & Hf & Ha). exists r. split; [assumption|].
  split; [assumption|]. intros (j & f & Hj & Hans). apply Ha. exists j, f. split; [|assumption].
  destruct (decide (j = attempt)) as [->|]; [|lia].
  destruct Hans as (c' & Hc' & Hok). congruence.
Qed.

Abbreviation read_span_of :=
  (read_stream_span permit download decrypt_chunk sha256_hex retries decrypt_us verify_us).

(** The verified part: whichever account answered, the slice is cut from a
    plaintext with the planned checksum. *)
Lemma read_stream_span_verified db m sp r :
  0 <= length_ sp ->
  read_span_of db m sp = Some (Ok r) ->
  exists p, sha256_hex p = s_checksum sp /\
    slice p (offset_within_chunk sp) (offset_within_chunk sp + length_ sp) = Some (sr_bytes r).
Proof using.
  intros Hlen. unfold read_stream_span.
  destruct (chunks m !! _) as [c|]; [|done]. destruct (_ =? 0)%nat; [done|].
  destruct (failover_loop _ _ _ _ _ _ _ _ _) as [[[a t]|]|]; [|done..].
  unfold verify_span. intros [= H].
  match type of H with match ?x with _ => _ end = _ => destruct x as [p|]; [|done] end.
  case_bool_decide as Hsum; [|done]. cbn [negb] in H.
  destruct (Z.ltb_spec (Z.of_nat (length p)) (offset_within_chunk sp + length_ sp)); [done|].
  injection H as <-. exists p. split; [assumption|]. cbn. unfold slice.
  destruct (Z.leb_spec (offset_within_chunk sp) (offset_within_chunk sp + length_ sp)); [|lia].
  destruct (Z.leb_spec (offset_within_chunk sp + length_ sp) (Z.of_nat (length p))); [|lia].
  done.
Qed.

(** one account is enough.  If an enabled account's turn contains an
    attempt that answers, and every answer decrypts to the chunk's content
    [b], the span is read and its bytes are the planned slice of [b] - however
    many of the other attempts fail. *)
Theorem read_stream_span_fails_over db m sp c b j found
    (Hchunk : chunks m !! Z.to_nat (s_order sp) = Some c)
    (Hturn : (j < total_attempts retries (length (candidates db c)))%nat)
    (Hanswer : answers (s_order sp) (s_order sp mod Z.of_nat (length (candidates db c)))
                 (attempts_per_account retries) (candidates db c) j found)
    (Hgood : forall i acc t,
       answers (s_order sp) (s_order sp mod Z.of_nat (length (candidates db c)))
         (attempts_per_account retries) (candidates db c) i (acc, t) ->
       (if enabled (encryption m)
        then let (o, n) := payload_identity c (object_id m) in decrypt_chunk o n (tr_bytes t)
        else Ok (tr_bytes t)) = Ok b)
    (Hsum : sha256_hex b = s_checksum sp)
    (Hfit : 0 <= length_ sp /\ offset_within_chunk sp + length_ sp <= Z.of_nat (length b)) :
  exists r, read_span_of db m sp = Some (Ok r) /\
    slice b (offset_within_chunk sp) (offset_within_chunk sp + length_ sp) = Some (sr_bytes r).
Proof using.
  unfold read_stream_span. rewrite Hchunk.
  assert (candidates db c <> []) as Hne
    by (intros E; rewrite E in Hanswer; destruct Hanswer as (? & Ha & _); done).
  destruct (Nat.eqb_spec (length (candidates db c)) 0) as [E|_];
    [by apply length_zero_iff_nil in E|].
  destruct (failover_loop_outcome (s_order sp) (s_order sp mod Z.of_nat (length (candidates db c)))
              (attempts_per_account retries) (candidates db c) 0
              (total_attempts retries (length (candidates db c))) None Hne)
    as (r & -> & Hf & Hok).
  specialize (Hok ltac:(exists j, found; split; [lia|exact Hanswer])).
  destruct r as [[acc t]|]; [|done]. destruct (Hf _ eq_refl) as [i Hi].
  unfold verify_span. rewrite (Hgood i acc t Hi), Hsum, bool_decide_eq_true_2 by done. cbn [negb].
  destruct (Z.ltb_spec (Z.of_nat (length b)) (offset_within_chunk sp + length_ sp)); [lia|].
  eexists. split; [reflexivity|]. unfold slice. cbn.
  destruct (Z.leb_spec (offset_within_chunk sp) (offset_within_chunk sp + length_ sp)); [|lia].
  by destruct (Z.leb_spec (offset_within_chunk sp + length_ sp) (Z.of_nat (length b))); [|lia].
Qed.
End SpanFacts.

(** ** The whole download *)

Lemma read_spans_chunk cs start stop spans sp :
  start <= stop -> Forall (fun c => 0 < size c) cs ->
  read_spans cs start stop = Ok spans -> sp ∈ spans ->
  exists i c, cs !! i = Some c /\ s_order sp = order c /\ s_checksum sp = checksum c /\
              0 <= length_ sp.
Proof.
  intros Hr HF. revert spans. induction HF as [|c cs Hc HF IH]; intros spans Hsp Hin; cbn in Hsp.
  { simplify_eq. by apply not_elem_of_nil in Hin. }
  destruct (u64_checked_add _ _) as [e|] eqn:He; [|done].
  destruct (read_spans cs start stop) as [rest|] eqn:Hrest; [|done].
  destruct (_ || _) eqn:Eskip; injection Hsp as <-.
  - destruct (IH rest eq_refl Hin) as (i & d & Hi & Hd). by exists (S i), d.
  - apply elem_of_cons in Hin as [->|Hin].
    + exists 0%nat, c. cbn. split_and!; try done. unfold u64_checked_add in He.
      destruct (_ <=? U64_MAX); simplify_eq. apply orb_false_iff in Eskip as [E1 E2].
      apply Z.leb_gt in E1, E2. lia.
    + destruct (IH rest eq_refl Hin) as (i & d & Hi & Hd). by exists (S i), d.
Qed.

Lemma planned_span_chunk m start stop plan sp :
  manifest_typed m -> validate m = Ok tt -> Z.of_nat (length (chunks m)) <= U32_MAX + 1 ->
  plan_read m start stop = Ok plan -> sp ∈ rp_chunks plan ->
  exists c, chunks m !! Z.to_nat (s_order sp) = Some c /\ s_checksum sp = checksum c /\
            0 <= length_ sp.
Proof.
  intros Hty Hv Hn Hplan Hin. apply validate_wf in Hv as [_ Hw Htile _]; [|done].
  unfold plan_read in Hplan. destruct (Z.ltb_spec stop start); [done|].
  destruct (_ <? stop); [done|]. destruct (read_spans _ _ _) as [spans|] eqn:Hsp; simplify_eq.
  destruct (read_spans_chunk (chunks m) start stop spans sp) as (i & c & Hi & Ho & Hck & Hl); auto.
  { destruct Hty as [_ Hty]. rewrite Forall_forall in *. intros c Hc. apply wf_size_pos; auto. }
  exists c. split_and!; [|done|done]. pose proof (lookup_lt_Some _ _ _ Hi).
  rewrite Ho. destruct (Htile i c Hi) as [-> _]. rewrite as_u32_small by lia. by rewrite Nat2Z.id.
Qed.

(** The bytes of the successful items. *)
Fixpoint ok_bytes (items : list (Result (list byte) io_error)) : list byte :=
  match items with
  | [] => []
  | Ok b :: rest => b ++ ok_bytes rest
  | Err _ :: rest => ok_bytes rest
  end.

Lemma until_error_data fetch bs i spans out :
  spans_data bs spans = Some out ->
  (forall j sp r, spans !! j = Some sp -> fetch (i + j)%nat = Ok r ->
     exists b, bs !! Z.to_nat (s_order sp) = Some b /\
       slice b (offset_within_chunk sp) (offset_within_chunk sp + length_ sp) = Some (sr_bytes r)) ->
  exists rest, out = ok_bytes (until_error fetch i (length spans)) ++ rest /\
    (Forall (fun x => is_ok x = true) (until_error fetch i (length spans)) -> rest = []).
Proof.
  revert i out. induction spans as [|sp spans IH]; intros i out Hd Hf; cbn in Hd.
  { simplify_eq. by exists []. }
  destruct (bs !! Z.to_nat (s_order sp)) as [b|] eqn:Eb; cbn in Hd; [|done].
  destruct (slice b _ _) as [x|] eqn:Ex; cbn in Hd; [|done].
  destruct (spans_data bs spans) as [y|] eqn:Ey; cbn in Hd; [|done]. simplify_eq.
  cbn [length until_error]. destruct (fetch i) as [r|e] eqn:Hi.
  - destruct (Hf 0%nat sp r eq_refl) as (b' & Hb & Hs); [by rewrite Nat.add_0_r|].
    destruct (IH (S i) y eq_refl) as (rest & -> & Hall).
    { intros j sp' r' Hj Hr. apply (Hf (S j) sp' r' Hj). by rewrite <- Nat.add_succ_comm. }
    exists rest. cbn. assert (sr_bytes r = x) as -> by congruence. split; [by rewrite app_assoc|].
    intros HF. apply Hall. by inversion HF.
  - exists (x ++ y). split; [done|]. intros HF. by inversion HF.
Qed.

(** C6: the response body of a download.  Whatever the prefetch mode and
    window, the order in which concurrent chunk reads complete and how far the
    worker runs ahead, the stream ends and its items are the spans' results in
    order up to and including the first failure. *)
Theorem stream_emits_in_order (fetch : nat -> Item) (spans : nat) (pick ahead : nat -> nat)
    (mode : string) (download_prefetch_chunks : Z) (fuel : nat) (Hfuel : (spans + 2 <= fuel)%nat) :
  read_spans_to_stream_for_client fetch spans pick ahead mode download_prefetch_chunks fuel
  = Some (until_error fetch 0 spans).
Proof.
  unfold read_spans_to_stream_for_client.
  rewrite (stream_items_until_error fetch spans pick ahead mode _ 0); [|lia|done|lia].
  by rewrite Nat.sub_0_r.
Qed.

(** The bytes of a stream. *)
Lemma stream_range (m : ObjectManifest) (bs : list (list byte))
    (sha256_hex : list byte -> string) (start stop : Z) (plan : ReadPlan) (fetch : nat -> Item)
    (pick ahead : nat -> nat) (mode : string) (prefetch : Z) (fuel : nat) items
    (Hty : manifest_typed m) (Hv : validate m = Ok tt)
    (Hn : Z.of_nat (length (chunks m)) <= U32_MAX + 1) (Hstart : 0 <= start)
    (Hbs : Forall2 (fun c b => fits c b /\ checksum_identifies sha256_hex c b) (chunks m) bs)
    (Hplan : plan_read m start stop = Ok plan)
    (Hfetch : forall i sp r, rp_chunks plan !! i = Some sp -> fetch i = Ok r ->
       exists permit download decrypt retries du vu db,
         read_stream_span permit download decrypt sha256_hex retries du vu db m sp = Some (Ok r))
    (Hfuel : (length (rp_chunks plan) + 2 <= fuel)%nat)
    (Hrun : read_spans_to_stream_for_client fetch (length (rp_chunks plan)) pick ahead mode prefetch
              fuel = Some items) :
  exists rest, range_of start stop (concat bs) = ok_bytes items ++ rest /\
    (Forall (fun x => is_ok x = true) items -> rest = []).
Proof.
  assert (0 <= start <= stop /\ stop <= content_length m) as [Hr He].
  { unfold plan_read in Hplan. crush_match. bool_hyps. lia. }
  assert (Forall2 fits (chunks m) bs) as HF by (eapply Forall2_impl; [exact Hbs|by intros ?? []]).
  destruct (wf_plan_read m bs start stop) as (plan' & Hplan' & Hdata); auto.
  assert (plan' = plan) as -> by congruence.
  unfold read_spans_to_stream_for_client in Hrun.
  rewrite (stream_items_until_error fetch _ pick ahead mode _ 0), Nat.sub_0_r in Hrun;
    [|lia|done|lia].
  injection Hrun as <-. apply (until_error_data fetch bs); [assumption|].
  intros j sp r Hj Hok. destruct (Hfetch j sp r Hj Hok) as (pm & dl & de & re & du & vu & db & Hs).
  destruct (planned_span_chunk m start stop plan sp) as (c & Hc & Hck & Hl); auto.
  { by eapply list_elem_of_lookup_2. }
  apply read_stream_span_verified in Hs as (p & Hsha & Hsl); [|assumption].
  destruct (Forall2_lookup_l _ _ _ _ _ Hbs Hc) as (b & Hb & _ & Hid).
  exists b. split; [assumption|]. rewrite Hck in Hsha. by rewrite <- (Hid p Hsha).
Qed.

(** C5: no corrupt byte reaches a client.  For a valid manifest whose chunk
    checksums identify the chunk contents [bs], the bytes streamed for a range
    are a prefix of that range of the object - whatever the accounts, replicas
    and the network return - and all of it when no item is an error. *)
Theorem stream_delivers_object_bytes (m : ObjectManifest) (bs : list (list byte))
    (sha256_hex : list byte -> string) (start stop : Z) (plan : ReadPlan) (fetch : nat -> Item)
    (pick ahead : nat -> nat) (mode : string) (prefetch : Z) (fuel : nat) items
    (Hty : manifest_typed m) (Hv : validate m = Ok tt)
    (Hn : Z.of_nat (length (chunks m)) <= U32_MAX + 1) (Hstart : 0 <= start)
    (Hbs : Forall2 (fun c b => fits c b /\ checksum_identifies sha256_hex c b) (chunks m) bs)
    (Hplan : plan_read m start stop = Ok plan)
    (Hfetch : forall i sp r, rp_chunks plan !! i = Some sp -> fetch i = Ok r ->
       exists permit download decrypt retries du vu db,
         read_stream_span permit download decrypt sha256_hex retries du vu db m sp = Some (Ok r))
    (Hfuel : (length (rp_chunks plan) + 2 <= fuel)%nat)
    (Hrun : read_spans_to_stream_for_client fetch (length (rp_chunks plan)) pick ahead mode prefetch
              fuel = Some items) :
  exists rest, range_of start stop (concat bs) = ok_bytes items ++ rest /\
    (Forall (fun x => is_ok x = true) items -> rest = []).
Proof. by eapply stream_range. Qed.

Lemma fill_loop_max room w : max_window (fill_loop room w) = max_window w.
Proof.
  revert w. induction room as [|room IH]; intros w; cbn [fill_loop]; [done|].
  case_match; [by rewrite IH|done].
Qed.

Lemma await_next_max fetch spans pick waiting w :
  max_window (await_next fetch spans pick waiting w).2 = max_window w.
Proof.
  revert w. induction waiting as [|n IH]; intros w; cbn [await_next];
    (destruct (ready w !! _) as [r|];
      [cbn [snd]; unfold fill; rewrite fill_loop_max;
       exact (proj2 (proj2 (proj2 (proj2 (observe_fields r _)))))|]); [done|].
  destruct (complete_one fetch pick w) as [w'|] eqn:E; [|done]. rewrite IH.
  unfold complete_one in E. by case_match; simplify_eq.
Qed.

Lemma next_adaptive_step fetch spans pick i w :
  window_inv fetch spans i w -> (i < spans)%nat ->
  window_inv fetch spans (S i) (next_adaptive fetch spans pick w).2 /\
  max_window (next_adaptive fetch spans pick w).2 = max_window w.
Proof.
  intros Hw Hi. unfold next_adaptive. cbn zeta. rewrite await_next_max. unfold fill at 3.
  rewrite fill_loop_max. split; [|done]. destruct (fill_inv fetch spans i w Hw) as [Hf Hs].
  by destruct (await_next_item fetch spans pick i _ _ Hf (Hs Hi) eq_refl) as (w' & -> & Hw').
Qed.

(** prefetching is bounded.  After any number of delivered items the
    adaptive reader's window lies between one and the configured maximum, and
    the spans in flight or buffered never exceed it. *)
Theorem prefetch_bounded (fetch : nat -> Item) (spans : nat) (pick : nat -> nat) (max : Z) (k : nat)
    (Hk : (k <= spans)%nat) :
  let w := Nat.iter k (fun w => (next_adaptive fetch spans pick w).2) (new_window max) in
  1 <= window w <= Z.max 1 max /\ Z.of_nat (in_flight w) <= Z.max 1 max.
Proof.
  cbn zeta. set (w := Nat.iter k _ _).
  assert (window_inv fetch spans k w /\ max_window w = max) as [[_ _ _ _ _ Hw Hb] Hm];
    [|by rewrite Hm in Hw, Hb].
  subst w. induction k as [|k IH]; [by split; [apply new_window_inv|]|].
  destruct IH as [Hi Hm]; [lia|]. rewrite Nat.iter_succ.
  destruct (next_adaptive_step fetch spans pick k _ Hi) as [? Heq]; [lia|].
  split; [assumption|]. by rewrite Heq.
Qed.

(** ** Instances *)

Definition sample_result (bs : list byte) : ReadSpanResult :=
  {| sr_account_id := "primary"; sr_chunk_order := 0; sr_length := 1; sr_bytes := bs;
     sr_telegram_bytes := 1; sr_telegram_retries := 0; sr_telegram_us := 0;
     sr_retry_wait_us := 0; sr_decrypt_us := 0; sr_verify_us := 0 |}.

(** Four spans, the third of which fails; completions in reverse order. *)
Definition sample_fetch (i : nat) : Item :=
  if decide (i = 2%nat) then Err {| kind := Other; text := "reset" |}
  else Ok (sample_result [Byte.x61]).

Lemma stream_emits_in_order_witness :
  read_spans_to_stream_for_client sample_fetch 4 (fun n => (7 - n)%nat) (fun _ => 2%nat)
    "adaptive" 3 6
  = Some [Ok [Byte.x61]; Ok [Byte.x61]; Err {| kind := Other; text := "reset" |}].
Proof.
  apply (stream_emits_in_order sample_fetch 4 (fun n => (7 - n)%nat) (fun _ => 2%nat)
           "adaptive" 3 6). lia.
Defined.

Lemma prefetch_bounded_witness :
  let w := Nat.iter 2 (fun w => (next_adaptive sample_fetch 4 (fun _ => 0%nat) w).2) (new_window 3) in
  1 <= window w <= Z.max 1 3 /\ Z.of_nat (in_flight w) <= Z.max 1 3.
Proof. apply (prefetch_bounded sample_fetch 4 (fun _ => 0%nat) 3 2). lia. Defined.

(** A network where the first attempt on the only account fails. *)
Definition sample_permit (_ : nat) (_ : string) : Result unit io_error := Ok tt.

Definition sample_serve (attempt : nat) (c : Candidate) : Result TelegramStreamRead io_error :=
  match attempt with
  | O => Err {| kind := Other; text := "reset" |}
  | S _ => Ok {| tr_bytes := replicate 10 Byte.x61; tr_retries := 0; tr_retry_wait_us := 0;
                 tr_telegram_us := 9 |}
  end.

Definition sample_span : ReadSpan :=
  {| s_order := 0; offset_within_chunk := 2; length_ := 4; s_checksum := "c0ffee" |}.

Definition sample_read : option Item :=
  read_stream_span sample_permit sample_serve no_decrypt sample_sha 1 0 0 empty_db
    one_chunk_sample sample_span.

Lemma read_stream_span_fails_over_witness :
  exists r, sample_read = Some (Ok r) /\
    slice (replicate 10 Byte.x61) 2 (2 + 4) = Some (sr_bytes r).
Proof.
  apply (read_stream_span_fails_over sample_permit sample_serve no_decrypt sample_sha 1 0 0
           empty_db one_chunk_sample sample_span (sample_chunk 0 0 10) (replicate 10 Byte.x61) 1
           ("primary", {| tr_bytes := replicate 10 Byte.x61; tr_retries := 0;
                          tr_retry_wait_us := 0; tr_telegram_us := 9 |}));
    [reflexivity|by vm_compute; lia| | |reflexivity|by vm_compute].
  - eexists. split; reflexivity.
  - intros i acc t (c & Hc & Ht). unfold try_candidate in Ht. destruct c as [[? ?] ?].
    destruct (out_of_i32 _); [done|]. cbn in Ht. destruct i; cbn in Ht; [done|].
    injection Ht as <- <-. reflexivity.
Defined.

Lemma stream_delivers_object_bytes_witness :
  exists rest, range_of 2 6 (concat [replicate 10 Byte.x61]) = replicate 4 Byte.x61 ++ rest /\
    (Forall (fun x : Result (list byte) io_error => is_ok x = true) [Ok (replicate 4 Byte.x61)] ->
     rest = []).
Proof.
  apply (stream_delivers_object_bytes one_chunk_sample [replicate 10 Byte.x61] sample_sha 2 6
           {| rp_object_id := "o"; rp_start := 2; rp_end := 6; rp_chunks := [sample_span] |}
           (fun _ => default (Err {| kind := Other; text := "" |}) sample_read)
           (fun _ => 0%nat) (fun _ => 0%nat) "sequential" 2 3 [Ok (replicate 4 Byte.x61)]
           one_chunk_sample_typed);
    try reflexivity; try lia.
  - by vm_compute.
  - constructor; [|constructor]. split; [reflexivity|]. intros p. unfold sample_sha. cbn.
    case_bool_decide; [done|discriminate].
  - intros [|i] sp r Hi Hr; [|done]. cbn in Hi. injection Hi as <-.
    exists sample_permit, sample_serve, no_decrypt, 1, 0, 0, empty_db.
    change (sample_read = Some (Ok r)). revert Hr. vm_compute. congruence.
Defined.
