(* ===== verification/System.v ===== *)
(** * The metadata store as a state machine

    Every call of the store is one SQLite transaction or one statement, so any
    interleaving of the HTTP handlers, the transfer workers, the cleanup worker
    and the administration tasks is a sequence of the operations below, applied
    to one database.  Three calls run more than one statement outside a
    transaction and are taken as one step nevertheless: [stage_manifest], whose
    last statement only rewrites the marker its transaction wrote;
    [finish_part_job] of a completion, which reads the job and then commits in
    a transaction of its own; and [transfer_failed], whose test and update
    belong to the worker that holds the lease, the only caller that could add
    a send attempt of that job in between.  [operation] lists them, with what their callers guarantee about
    the arguments; [step] and [reachable] are the transition relation and the
    states it reaches from a new database.

    The theorems are the guarantees of the whole store: they hold in every
    reachable state, whatever the calls, their order, their arguments and the
    clock. *)

From S2P Require Import Prelude Errors Manifest Schema Cleanup Transfers TransferSafety.
From S2P Require Import ManifestStore ManifestSafety MultipartStore Buckets ConnectionRemoval.

(** ** Operations *)

Section Operations.
Context (etag_from_str : string -> option ETagCondition).
Context (parse_uuid : string -> option string).
Context (parse_rfc3339 : string -> option OffsetDateTime).

(** A restricted caller may be kept from starting sends, or from claiming jobs
    under some leases; [any_operation] below is not restricted. *)
Context (sends : Prop) (leases : string -> Prop).

(** [queue_transfer] and [queue_multipart_completion] are called with the
    operation id of the manifest the job staged, which is the job's id, and a
    staging reservation is a number of bytes. *)
Inductive operation : forall {A : Type}, M A -> Prop :=
| op_create_bucket E b : operation (create_bucket parse_rfc3339 E b)
| op_delete_bucket E n : operation (delete_bucket E n)
| op_begin_transfer E o b k : operation (begin_transfer E o b k)
| op_renew_receiving E id : operation (renew_receiving E id)
| op_reserve_staging E id n budget : 0 <= n -> operation (reserve_staging E id n budget)
| op_set_transfer_conditionals E id c : operation (set_transfer_conditionals E id c)
| op_queue_transfer E id n : operation (queue_transfer E id id n)
| op_fail_reception E id removed m : operation (fail_reception E id removed m)
| op_reject_transfer_for_quota E id m : operation (reject_transfer_for_quota E id m)
| op_claim_transfer E : leases (new_v4 E 0) -> operation (claim_transfer E)
| op_renew_transfer E id l : operation (renew_transfer E id l)
| op_begin_send_attempt E id l n : sends -> operation (begin_send_attempt E id l n)
| op_finish_send_attempt E id l n a loc : operation (finish_send_attempt E id l n a loc)
| op_mark_send_attempt_unknown E id l n a k e :
    operation (mark_send_attempt_unknown E id l n a k e)
| op_mark_send_attempt_retryable E id l n a k e :
    operation (mark_send_attempt_retryable E id l n a k e)
| op_reclassify_flood_wait E ra : operation (reclassify_flood_wait_attempts E ra)
| op_resolve_send_attempt E a l e : operation (resolve_send_attempt E a l e)
| op_queue_after_reconciliation E id : operation (queue_after_reconciliation E id)
| op_set_transfer_error E id m : operation (set_transfer_error E id m)
| op_transfer_failed E id l ra m : operation (transfer_failed E id l ra m)
| op_transfer_action E id a : operation (transfer_action E id a)
| op_publication_fence E id l : operation (publication_fence E id l)
| op_mark_cleaned id : operation (mark_cleaned id)
| op_purge c : operation (purge_connection_operations c)
| op_stage_manifest E k m : operation (stage_manifest E k m)
| op_commit_manifest E op : operation (commit_manifest etag_from_str E op)
| op_commit_transfer E op id l m : operation (commit_transfer_manifest etag_from_str E op id l m)
| op_update_manifest m : operation (update_manifest m)
| op_tombstone E o r c : operation (tombstone_manifest_with_conditionals E o r c)
| op_expire E now : operation (tombstone_expired_active_manifests E now)
| op_update_manifest_state E o s : operation (update_manifest_state E o s)
| op_set_marker E o b k d : operation (set_object_recovery_marker E o b k d)
| op_delete_active_key E b k r c : operation (delete_active_key E b k r c)
| op_delete_empty_folder E b f r : operation (delete_empty_folder E b f r)
| op_rebuild E : operation (rebuild_index_internal E)
| op_create_session E s : operation (create_multipart_session E s)
| op_update_session E u s : operation (update_multipart_session_state E u s)
| op_delete_session u : operation (delete_multipart_session u)
| op_put_part E p : operation (put_multipart_part E p)
| op_delete_parts u : operation (delete_multipart_parts u)
| op_insert_multipart_job j u n c : operation (insert_multipart_job j u n c)
| op_queue_completion E id u : operation (queue_multipart_completion E id id u)
| op_finish_part_job E id l u n : operation (finish_part_job etag_from_str parse_uuid E id l u n)
| op_abort_parts E u : operation (abort_parts E u)
| op_claim_cleanup E : operation (claim_cleanup E)
| op_begin_evidence E id l o : operation (begin_cleanup_evidence_attempt E id l o)
| op_resolve_evidence id loc : operation (resolve_cleanup_evidence id loc)
| op_retry_evidence now id m : operation (retry_cleanup_evidence_after_reconciliation now id m)
| op_complete_cleanup id l loc : operation (complete_cleanup id l loc)
| op_fail_cleanup now id l ra m : operation (fail_cleanup now id l ra m)
| op_quarantine_cleanup id l m : operation (quarantine_cleanup id l m)
| op_make_cleanup_due now o : operation (make_cleanup_due now o)
| op_begin_removal E f : operation (begin_connection_removal E f)
| op_finish_removal E j s e : operation (finish_connection_removal E j s e).

End Operations.

Definition any_lease (_ : string) : Prop := True.

Section Steps.
Context (etag_from_str : string -> option ETagCondition).
Context (parse_uuid : string -> option string).
Context (parse_rfc3339 : string -> option OffsetDateTime).

Definition any_operation {A} (m : M A) : Prop :=
  operation etag_from_str parse_uuid parse_rfc3339 True any_lease m.

Inductive step (db : Db) : Db -> Prop :=
| step_call {A} (m : M A) : any_operation m -> step db (m db).2.

Definition reachable (db : Db) : Prop := rtc step empty_db db.
End Steps.

(** ** What every operation preserves *)

(** The outbox, and what leaves it alone. *)
Definition outbox (db : Db) : list CleanupRow * Z := (cleanup_targets db, cleanup_seq db).

Lemma cleanup_frame {A} (m : M A) : steps (same outbox) m -> preserves cleanup_wf m.
Proof.
  intros H db Hwf. specialize (H db). unfold same, outbox in H. unfold cleanup_wf in *.
  by injection H as -> ->.
Qed.

(** A statement of an operation either is the outbox insertion or does not
    touch the outbox (respectively the journal's details). *)
Ltac outbox_through :=
  repeat (preserve; try (apply cleanup_frame; solve [frame_through])).

(** A statement that drops journal rows or rewrites columns other than the
    details. *)
Lemma details_rows (f : Db -> Db) :
  (forall db k j', operation_journal (f db) !! k = Some j' ->
     exists j, operation_journal db !! k = Some j /\ oj_details j' = oj_details j) ->
  preserves details_staging (modify f).
Proof.
  intros Hf. apply preserves_modify. intros db H k j' Hj.
  destruct (Hf db k j' Hj) as (j & Hk & ->). by apply H.
Qed.

Ltac journal_rows :=
  apply details_rows; intros ? ? ? Hj; cbn in Hj;
  first
    [ apply map_lookup_filter_Some in Hj as [Hj _]; by eauto
    | rewrite lookup_alter in Hj; case_decide; [apply fmap_Some in Hj as (? & ? & ->)|];
      subst; by eauto
    | rewrite lookup_fmap in Hj; apply fmap_Some in Hj as (? & ? & ->);
      repeat case_match; by eauto ].

Ltac journal_through :=
  repeat (preserve; try (apply details_same; solve [frame_through]); try journal_rows).

Ltac sound_frame := apply steps_sound_same; frame_through.

Ltac open_transfer_ops :=
  unfold transfer_action, begin_transfer, renew_receiving, reserve_staging,
    set_transfer_conditionals, queue_transfer, fail_reception, reject_transfer_for_quota,
    claim_transfer, recover_transfers, expire_receptions, quarantine_ambiguous,
    normalize_attempts, cancel_closed_sessions, supersede_older, take_lease, transfer,
    renew_transfer, begin_send_attempt, insert_attempt, finish_send_attempt, upsert_chunk,
    count_chunks, mark_send_attempt_unknown, mark_send_attempt_retryable,
    reclassify_flood_wait_attempts, resolve_send_attempt, queue_after_reconciliation,
    set_transfer_error, transfer_failed, retry_transfer, cancel_transfer,
    publication_fence, mark_cleaned, purge_connection_operations, discard_staged,
    update_jobs, update_attempts, cleanup_retention_secs.

Ltac open_manifest_ops :=
  unfold stage_manifest, commit_manifest, commit_transfer_manifest, update_manifest,
    tombstone_manifest_with_conditionals, tombstone_expired_active_manifests, expire_object,
    update_manifest_state, set_object_recovery_marker, delete_active_key,
    delete_active_key_in_transaction, delete_empty_folder, rebuild_index_internal, remark_staging,
    enqueue_manifest_cleanup, ensure_recovery_marker, commit_manifest_inner, published_manifest,
    check_publication_fence, check_untracked_commit, load_current, check_write_conditionals,
    check_quota, enforce_account_quota_in_transaction, check_completion, publish_version,
    complete_job, finish_completion, close_session, set_active, upsert_marker, delete_markers_of,
    tombstone_journal, load_manifest_by_object_id, load_journal_entry, lift.

Ltac open_multipart_ops :=
  unfold create_multipart_session, update_multipart_session_state, delete_multipart_session,
    put_multipart_part, upsert_part, delete_multipart_parts, insert_multipart_job,
    queue_multipart_completion, supersede_completions, finish_part_job, finish_completion_job,
    publish_part, supersede_part_duplicates, forget_objects, abort_parts, enqueue_part_cleanup.

Ltac open_removal_ops :=
  unfold begin_connection_removal, finish_connection_removal, connection_removal_in_progress,
    insert_removal_job, insert_removal_object, insert_or_ignore_removal_object,
    add_removal_object, check_manifest, remove_manifest, remove_transfer, remove_upload,
    close_connection, hide_namespace, cancel_connection_jobs, abort_connection_uploads,
    cancel_connection_journal, delete_removed_markers, count_removal_objects.

Ltac open_bucket_ops :=
  unfold create_bucket, delete_bucket, load_bucket_record, parse_timestamp.

Ltac open_ops :=
  open_bucket_ops; open_removal_ops; open_multipart_ops; open_manifest_ops; open_transfer_ops.

Section OperationFacts.
Context (etag_from_str : string -> option ETagCondition).
Context (parse_uuid : string -> option string).
Context (parse_rfc3339 : string -> option OffsetDateTime).

Abbreviation op := (operation etag_from_str parse_uuid parse_rfc3339).

Lemma any_lease_any l : any_lease l.
Proof. exact I. Qed.

Create HintDb operations discriminated.
#[local] Hint Constants Opaque : operations.
#[local] Hint Constructors operation : operations.
#[local] Hint Resolve I any_lease_any : operations.

Lemma operation_mono {A} (m : M A) (sends sends' : Prop) (leases leases' : string -> Prop) :
  (sends -> sends') -> (forall l, leases l -> leases' l) -> op sends leases m -> op sends' leases' m.
Proof. intros Hs Hl H. destruct H; auto with operations nocore. Qed.

Lemma operation_weaken {A} (m : M A) sends leases : op sends leases m -> op True any_lease m.
Proof. by apply operation_mono. Qed.

Lemma create_bucket_sound E b : steps sound (create_bucket parse_rfc3339 E b).
Proof. unfold create_bucket, load_bucket_record, parse_timestamp. sound_frame. Qed.

Lemma delete_bucket_sound E n : steps sound (delete_bucket E n).
Proof. unfold delete_bucket. sound_frame. Qed.

Lemma claim_cleanup_sound E : steps sound (claim_cleanup E).
Proof. unfold claim_cleanup, update_targets. sound_frame. Qed.

Lemma begin_cleanup_evidence_attempt_sound E id l o :
  steps sound (begin_cleanup_evidence_attempt E id l o).
Proof. unfold begin_cleanup_evidence_attempt, update_targets. sound_frame. Qed.

Lemma cleanup_update_sound p f : steps sound (update_targets p f).
Proof. unfold update_targets. sound_frame. Qed.

Lemma operation_sound {A} (m : M A) sends leases : op sends leases m -> steps sound m.
Proof.
  intros H. destruct H; auto using create_bucket_sound, delete_bucket_sound,
    reserve_staging_sound, claim_cleanup_sound, begin_cleanup_evidence_attempt_sound with preserves;
    unfold commit_transfer_manifest, resolve_cleanup_evidence,
      retry_cleanup_evidence_after_reconciliation, complete_cleanup, fail_cleanup,
      quarantine_cleanup, make_cleanup_due;
    step_through; apply cleanup_update_sound.
Qed.

Lemma operation_cleanup_wf {A} (m : M A) sends leases : op sends leases m -> preserves cleanup_wf m.
Proof. intros H. destruct H; auto with preserves; open_ops; outbox_through. Qed.

Lemma operation_details {A} (m : M A) sends leases : op sends leases m -> preserves details_staging m.
Proof. intros H. destruct H; auto with preserves; open_ops; journal_through. Qed.

(** The invariant of the store. *)
Record store_wf (db : Db) : Prop := {
  sw_transfers : transfers_wf db;
  sw_outbox : cleanup_wf db;
  sw_journal : details_staging db
}.

Abbreviation step := (step etag_from_str parse_uuid parse_rfc3339).
Abbreviation reachable := (reachable etag_from_str parse_uuid parse_rfc3339).

Lemma step_store_wf db db' : step db db' -> store_wf db -> store_wf db' /\ jobs_evolve db db'.
Proof.
  intros [A m Hop] [Ht Ho Hj].
  destruct (operation_sound m _ _ Hop db Ht) as [Ht' Hev].
  split; [|assumption]. split; [assumption| |].
  - by apply (operation_cleanup_wf m _ _ Hop).
  - by apply (operation_details m _ _ Hop).
Qed.

Lemma empty_store_wf : store_wf empty_db.
Proof.
  split; [|split; cbn; try done; constructor|apply details_staging_empty].
  split; cbn; try done; constructor.
Qed.

Lemma reachable_store_wf db : reachable db -> store_wf db.
Proof.
  intros H. unfold System.reachable in H. revert H. generalize empty_db, empty_store_wf.
  intros d Hd H. induction H as [|x y z Hs _ IH]; [assumption|].
  apply IH. by apply (step_store_wf x y).
Qed.

Lemma steps_evolve db db' : store_wf db -> rtc step db db' -> jobs_evolve db db'.
Proof.
  intros Hd H. induction H as [|x y z Hs _ IH]; [reflexivity|].
  destruct (step_store_wf x y Hs Hd) as [Hy Hev]. etransitivity; eauto.
Qed.




End OperationFacts.

(** ** Instances *)

Definition no_etag (_ : string) : option ETagCondition := None.
Definition no_uuid (_ : string) : option string := None.
Definition epoch (_ : string) : option OffsetDateTime := Some 0.

Abbreviation sample_step := (step no_etag no_uuid epoch).
Abbreviation sample_reachable := (reachable no_etag no_uuid epoch).

Lemma reach_call {A} (m : M A) db :
  sample_reachable db -> any_operation no_etag no_uuid epoch m -> sample_reachable (run m db).
Proof. intros Hd Hm. eapply rtc_r; [exact Hd|]. by constructor. Qed.

(** Recognise the calls used below by their names. *)
Ltac known_operation :=
  match goal with
  | |- any_operation _ _ _ (create_bucket _ _ _) => apply op_create_bucket
  | |- any_operation _ _ _ (begin_transfer _ _ _ _) => apply op_begin_transfer
  | |- any_operation _ _ _ (queue_transfer _ _ _ _) => apply op_queue_transfer
  | |- any_operation _ _ _ (claim_transfer _) => apply op_claim_transfer; exact I
  | |- any_operation _ _ _ (begin_send_attempt _ _ _ _) => apply op_begin_send_attempt; exact I
  | |- any_operation _ _ _ (mark_send_attempt_retryable _ _ _ _ _ _ _) =>
      apply op_mark_send_attempt_retryable
  | |- any_operation _ _ _ (transfer_failed _ _ _ _ _) => apply op_transfer_failed
  | |- any_operation _ _ _ (stage_manifest _ _ _) => apply op_stage_manifest
  | |- any_operation _ _ _ (publication_fence _ _ _) => apply op_publication_fence
  | |- any_operation _ _ _ (commit_transfer_manifest _ _ _ _ _ _) => apply op_commit_transfer
  | |- any_operation _ _ _ (delete_active_key _ _ _ _ _) => apply op_delete_active_key
  | |- any_operation _ _ _ (claim_cleanup _) => apply op_claim_cleanup
  | |- any_operation _ _ _ (complete_cleanup _ _ _) => apply op_complete_cleanup
  end.

Ltac reach :=
  repeat match goal with
    | |- sample_reachable (run _ _) => apply reach_call; [|known_operation]
    end;
  apply rtc_refl.

(** A bucket, an upload of [b/k] received, queued and claimed by a worker. *)
Definition sys_uploading : Db :=
  run (claim_transfer (sample_env 20 "lease-1"))
    (run (queue_transfer (sample_env 11 "u") "o1" "o1" 3)
       (run (begin_transfer (sample_env 10 "u") "o1" "b" "k")
          (run (create_bucket epoch (sample_env 1 "u") sample_record) empty_db))).

Lemma sys_uploading_reachable : sample_reachable sys_uploading.
Proof. unfold sys_uploading. reach. Qed.

(** .. whose first chunk Telegram refused, so that the job waits for a retry. *)
Definition sys_refused : Db :=
  run (transfer_failed (sample_env 23 "u") "o1" "lease-1" (Some 5) "flood wait")
    (run (mark_send_attempt_retryable (sample_env 22 "u") "o1" "lease-1" 0 "attempt-1" "flood_wait" "420")
       (run (begin_send_attempt (sample_env 21 "attempt-1") "o1" "lease-1" 0) sys_uploading)).

Lemma sys_refused_reachable : sample_reachable sys_refused.
Proof. unfold sys_refused, sys_uploading. reach. Qed.

(** The upload published, then deleted; the cleanup worker has written the
    evidence and deletes the first message. *)
Definition sys_deleting : Db :=
  run (claim_cleanup (sample_env 900002 "lease-3"))
    (run (complete_cleanup 1 "lease-2" (Some {| peer_id := "p"; message_id := 77; document_id := None |}))
       (run (claim_cleanup (sample_env 900001 "lease-2"))
          (run (delete_active_key (sample_env 30 "u") "b" "k" "deleted" no_conditionals)
             (run (commit_transfer_manifest no_etag (sample_env 22 "u") "o1" "o1" "lease-1"
                     (sample_manifest "o1" "b" "k"))
                (run (publication_fence (sample_env 21 "u") "o1" "lease-1")
                   (run (stage_manifest (sample_env 20 "u") OperationKind.Put
                           (sample_manifest "o1" "b" "k")) sys_uploading)))))).

Lemma sys_deleting_reachable : sample_reachable sys_deleting.
Proof. unfold sys_deleting, sys_uploading. reach. Qed.

Lemma first_row {A} (l : list A) x : head l = Some x -> In x l.
Proof. destruct l; cbn; [done|]. intros [= ->]. by left. Qed.

Lemma row_at {A} (l : list A) i x : l !! i = Some x -> In x l.
Proof. intros H. apply list_elem_of_In. by eapply list_elem_of_lookup_2. Qed.




