(* ===== verification/Catalog.v ===== *)
(** * The catalogue: versions, visible keys and the journal

    What the tables [object_manifests], [active_objects] and
    [operation_journal] owe each other.  A version is stored under its own
    identifier, with its own bucket and key in the columns; a visible key names
    a stored version of that bucket and key; a journal entry describes the
    version it staged.  [catalog_wf] says so, and every operation of the store
    preserves it, in whatever order the operations run.

    Two operations take a manifest on trust, [stage_manifest] and
    [update_manifest]: [catalog_call] asks of their callers that the manifest
    belongs to its identifier ([fits]), as it does when it is new, under a fresh
    identifier, and when it was read from the store. *)

From S2P Require Import Prelude Errors Manifest Schema Cleanup Transfers TransferSafety.
From S2P Require Import ManifestStore ManifestSafety IndexSafety MultipartStore Buckets ConnectionRemoval System.

(** ** The invariant *)

(** The version [id] is stored as one of the bucket [b] and the key [k]. *)
Definition stored (id b k : string) (db : Db) : Prop :=
  exists r, object_manifests db !! id = Some r /\ om_bucket r = b /\ om_object_key r = k.

Record catalog_wf (db : Db) : Prop := {
  cw_rows : forall id r, object_manifests db !! id = Some r ->
    object_id (om_manifest r) = id /\ bucket (om_manifest r) = om_bucket r /\ key (om_manifest r) = om_object_key r;
  cw_active : forall b k a, active_objects db !! (b, k) = Some a -> stored (ao_object_id a) b k db;
  cw_journal : forall op j, operation_journal db !! op = Some j ->
    jd_object_id (oj_details j) = op /\
    forall r, object_manifests db !! op = Some r ->
      om_bucket r = jd_bucket (oj_details j) /\ om_object_key r = jd_object_key (oj_details j)
}.

(** The tables of the catalogue, with the part of the journal that counts. *)
Definition catalog (db : Db) := (object_manifests db, active_objects db, oj_details <$> operation_journal db).

Lemma stored_same id b k db db' : catalog db' = catalog db -> stored id b k db -> stored id b k db'.
Proof. intros [= Ho _ _]. unfold stored. by rewrite Ho. Qed.

Lemma catalog_wf_same db db' : catalog db' = catalog db -> catalog_wf db -> catalog_wf db'.
Proof.
  intros [= Ho Ha Hj] [H1 H2 H3]. split.
  - rewrite Ho. exact H1.
  - intros b k a H. rewrite Ha in H. apply H2 in H. unfold stored in *. by rewrite Ho.
  - intros op j H. assert ((oj_details <$> operation_journal db) !! op = Some (oj_details j)) as E
      by (by rewrite <- Hj, lookup_fmap, H).
    rewrite lookup_fmap in E. apply fmap_Some in E as (j0 & E0 & ->). rewrite Ho. by apply H3.
Qed.

(** What is known while a transaction runs. *)
Definition knows (l : list (string * string * string)) (db : Db) : Prop :=
  catalog_wf db /\ forall id b k, In (id, b, k) l -> stored id b k db.

Lemma knows_nil db : knows [] db <-> catalog_wf db.
Proof. split; [by intros []|by split]. Qed.

Lemma knows_incl l l' db : incl l' l -> knows l db -> knows l' db.
Proof. intros Hi [H1 H2]. split; [done|]. auto. Qed.

Lemma preserves_knows_nil {A} (m : M A) : preserves (knows []) m -> preserves catalog_wf m.
Proof. intros H db Hwf. apply knows_nil, H, knows_nil, Hwf. Qed.

(** ** Statements *)

Section Statements.
Context (l : list (string * string * string)).

Lemma knows_same {A} (m : M A) : steps (same catalog) m -> preserves (knows l) m.
Proof.
  intros H db [H1 H2]. specialize (H db). split; [by eapply catalog_wf_same|].
  intros id b k Hi. eapply stored_same; [done|auto].
Qed.

(** A change of a row that keeps what the catalogue knows of it. *)
Lemma knows_alter id b k (f : ManifestRow -> ManifestRow) :
  In (id, b, k) l ->
  (forall r, om_bucket (f r) = om_bucket r /\ om_object_key (f r) = om_object_key r /\
     (om_manifest (f r) = om_manifest r \/
      object_id (om_manifest (f r)) = id /\ bucket (om_manifest (f r)) = b /\ key (om_manifest (f r)) = k)) ->
  preserves (knows l) (modify (fun db => db <| object_manifests ::= alter f id |>)).
Proof.
  intros Hin Hf. apply preserves_modify. intros db [[H1 H2 H3] Hk].
  assert (forall i bb kk, stored i bb kk db -> stored i bb kk (db <| object_manifests ::= alter f id |>)) as Hs.
  { intros i bb kk (r & Hr & <- & <-). destruct (decide (i = id)) as [->|Hn].
    - exists (f r). cbn. rewrite lookup_alter_eq, Hr. by destruct (Hf r) as (-> & -> & _).
    - exists r. cbn. by rewrite lookup_alter_ne. }
  destruct (Hk _ _ _ Hin) as (r & Hr & Hb & Hkk).
  split; [split|by intros; apply Hs, Hk].
  - intros i x Hx. cbn in Hx. destruct (decide (i = id)) as [->|Hn].
    + rewrite lookup_alter_eq, Hr in Hx. injection Hx as <-. destruct (Hf r) as (-> & -> & [->|(? & ? & ?)]).
      * by apply H1.
      * split_and!; congruence.
    + rewrite lookup_alter_ne in Hx by done. by apply H1.
  - intros bb kk a Ha. by apply Hs, H2.
  - intros op j Hj. destruct (H3 op j Hj) as [H4 H5]. split; [done|]. intros x Hx. cbn in Hx.
    destruct (decide (op = id)) as [->|Hn].
    + rewrite lookup_alter_eq, Hr in Hx. injection Hx as <-. destruct (Hf r) as (-> & -> & _). by apply H5.
    + rewrite lookup_alter_ne in Hx by done. by apply H5.
Qed.

Lemma knows_hide (g : Db -> Db) :
  (forall db, object_manifests (g db) = object_manifests db /\ operation_journal (g db) = operation_journal db /\
     forall bk a, active_objects (g db) !! bk = Some a -> active_objects db !! bk = Some a) ->
  preserves (knows l) (modify g).
Proof.
  intros Hg. apply preserves_modify. intros db [[H1 H2 H3] Hk]. destruct (Hg db) as (Ho & Hj & Ha).
  split; [split|]; unfold stored; rewrite ?Ho, ?Hj; [done| |done|exact Hk].
  intros b k a Hx. by apply H2, Ha.
Qed.

Lemma knows_set_active b k id t :
  In (id, b, k) l -> preserves (knows l) (set_active b k id t).
Proof.
  intros Hin db [[H1 H2 H3] Hk]. unfold set_active, mbind, M_bind, query, ensure.
  destruct (is_some _); cbn; [|by split]. split; [split; try done|done].
  intros bb kk a Ha. cbn in Ha. destruct (decide ((bb, kk) = (b, k))) as [[= -> ->]|Hn].
  - rewrite lookup_insert_eq in Ha. injection Ha as <-. cbn. by apply Hk.
  - rewrite lookup_insert_ne in Ha by done. by apply H2.
Qed.
End Statements.

(** A removal of versions takes their visible keys along. *)
Lemma wf_removed (g : Db -> Db) :
  (forall db id r, object_manifests (g db) !! id = Some r -> object_manifests db !! id = Some r) ->
  (forall db bk a, active_objects (g db) !! bk = Some a -> active_objects db !! bk = Some a /\
     (forall r, object_manifests db !! ao_object_id a = Some r -> object_manifests (g db) !! ao_object_id a = Some r)) ->
  (forall db op j, operation_journal (g db) !! op = Some j -> operation_journal db !! op = Some j) ->
  preserves catalog_wf (modify g).
Proof.
  intros Ho Ha Hj. apply preserves_modify. intros db [H1 H2 H3]. split.
  - eauto.
  - intros b k a Hx. apply Ha in Hx as [Hx Hr]. destruct (H2 b k a Hx) as (r & Er & Hb). exists r. auto.
  - intros op j Hx. apply Hj in Hx. destruct (H3 op j Hx). eauto.
Qed.

(** Reading a version makes it known. *)
Lemma wf_load {A} obj e (k : ObjectManifest -> M A) :
  (forall m, object_id m = obj -> preserves (knows [(obj, bucket m, key m)]) (k m)) ->
  preserves catalog_wf (om ← load_manifest_by_object_id obj; m ← some_or om e; k m).
Proof.
  intros Hk db Hwf. unfold load_manifest_by_object_id, mbind, M_bind, query.
  destruct (object_manifests db !! obj) as [r|] eqn:Er; [|done].
  destruct (validate (om_manifest r)); [|done]. cbn.
  destruct (cw_rows db Hwf obj r Er) as (H1 & H2 & H3).
  apply (Hk (om_manifest r) H1). split; [done|]. intros id b k' [[= <- <- <-]|[]]. exists r. auto.
Qed.

(** The version a visible key names is found under its identifier. *)
Lemma catalog_active db b k m :
  catalog_wf db -> get_active_manifest b k db = (Ok (Some m), db) -> (get_manifest (object_id m) db).1 = Ok (Some m).
Proof.
  intros [H1 H2 _]. unfold get_active_manifest, get_manifest, load_manifest_by_object_id, mbind, M_bind, query.
  destruct (active_objects db !! (b, k)) as [a|] eqn:Ea; [|done].
  destruct (H2 b k a Ea) as (r & Hr & _). rewrite Hr. destruct (bool_decide _); [|done]. rewrite Hr.
  destruct (validate (om_manifest r)) as [[]|] eqn:Ev; [|done]. intros [= <-].
  destruct (H1 _ _ Hr) as (-> & _). by rewrite Hr, Ev.
Qed.

(** ** Operations *)

(** The details of the journal do not change. *)
Lemma journal_same (g : Db -> Db) :
  (forall db, object_manifests (g db) = object_manifests db /\ active_objects (g db) = active_objects db /\
     oj_details <$> operation_journal (g db) = oj_details <$> operation_journal db) ->
  steps (same catalog) (modify g).
Proof. intros H. apply steps_modify. intros db. unfold same, catalog. by destruct (H db) as (-> & -> & ->). Qed.

Lemma tombstone_journal_same obj reason now : steps (same catalog) (tombstone_journal obj reason now).
Proof.
  apply journal_same. intros db. split_and!; try done. cbn. rewrite <- map_fmap_compose.
  apply map_fmap_ext. intros op j _. cbn. by destruct (bool_decide _).
Qed.

Lemma cancel_connection_journal_same job t : steps (same catalog) (cancel_connection_journal job t).
Proof.
  apply journal_same. intros db. split_and!; try done. cbn. rewrite <- map_fmap_compose.
  apply map_fmap_ext. intros op j _. cbn. by destruct (_ && _).
Qed.

Lemma commit_journal_same op t : steps (same catalog) (modify (fun db => db <| operation_journal ::= alter (fun j =>
    j <| oj_state := JournalState.Committed |> <| oj_updated_at := t |>) op |>)).
Proof.
  apply journal_same. intros db. split_and!; try done. cbn. apply map_eq. intros i.
  rewrite !lookup_fmap. destruct (decide (i = op)) as [->|Hn].
  - rewrite lookup_alter_eq. by destruct (operation_journal db !! op).
  - by rewrite lookup_alter_ne.
Qed.

Lemma insert_or_ignore_same o c q n k due : steps (same catalog) (insert_or_ignore_target o c q n k due).
Proof. by apply insert_or_ignore_frame. Qed.

#[local] Hint Resolve tombstone_journal_same cancel_connection_journal_same commit_journal_same
  insert_or_ignore_same : preserves.

(** Statements that leave the catalogue alone, and those that only hide keys. *)
Ltac hides :=
  apply knows_hide; intros ?; split_and!; try done; intros ? ?; cbn;
  first [rewrite lookup_empty; done | intros [? _]%map_lookup_filter_Some; done].

Ltac catalog_through :=
  repeat (preserve; try (apply knows_same; solve [frame_through]); try hides).

Lemma cleanup_at_same m due : steps (same catalog) (enqueue_manifest_cleanup_at m due).
Proof. unfold enqueue_manifest_cleanup_at. frame_through. Qed.

Lemma part_cleanup_same E part kept : steps (same catalog) (enqueue_part_cleanup_preserving E part kept).
Proof. unfold enqueue_part_cleanup_preserving, cleanup_retention_secs. frame_through. Qed.

#[local] Hint Resolve cleanup_at_same part_cleanup_same : preserves.

(** The version that was read is written back with another state. *)
Ltac known_row :=
  eapply knows_alter; [by left|]; intros ?; split_and!; try done; right; by split_and!.

#[local] Hint Extern 5 (preserves (knows _) _) => solve [apply knows_same; frame_through] : preserves.
#[local] Hint Extern 1 (preserves (knows _) (set_active _ _ _ _)) =>
  apply knows_set_active; first [assumption | by left] : preserves.
#[local] Hint Extern 1 (preserves (knows _) (modify _)) => solve [known_row] : preserves.

Lemma tombstone_wf E obj reason c : preserves catalog_wf (tombstone_manifest_with_conditionals E obj reason c).
Proof.
  unfold tombstone_manifest_with_conditionals, enqueue_manifest_cleanup. apply preserves_transaction, wf_load.
  intros m <-. unfold lift, delete_markers_of. catalog_through.
Qed.

Lemma update_state_wf E obj st : preserves catalog_wf (update_manifest_state E obj st).
Proof.
  unfold update_manifest_state. apply preserves_transaction, wf_load. intros m <-. catalog_through.
Qed.

Lemma delete_key_wf E b k reason c : preserves catalog_wf (delete_active_key_in_transaction E b k reason c).
Proof.
  unfold delete_active_key_in_transaction. do 2 (apply preserves_bind; [preserve|intros ?]).
  apply preserves_bind; [unfold update_jobs; apply preserves_knows_nil; catalog_through|intros ?].
  apply preserves_bind; [preserve|intros [act|]]; [|preserve]. apply wf_load. intros m <-.
  unfold lift, enqueue_manifest_cleanup, delete_markers_of. catalog_through.
Qed.

#[local] Hint Resolve tombstone_wf update_state_wf delete_key_wf : preserves.

Lemma delete_folder_wf E b f reason : preserves catalog_wf (delete_empty_folder E b f reason).
Proof. unfold delete_empty_folder. preserve. Qed.

(** What a query finds is known afterwards. *)
Lemma wf_query {B C} (q : Db -> C) (idents : C -> list (string * string * string)) (good : C -> Prop) (k : C -> M B) :
  (forall db, catalog_wf db -> good (q db) /\ forall id b k, In (id, b, k) (idents (q db)) -> stored id b k db) ->
  (forall c, good c -> preserves (knows (idents c)) (k c)) ->
  preserves catalog_wf (c ← query q; k c).
Proof.
  intros Hq Hk db Hwf. destruct (Hq db Hwf) as [Hg Hs]. unfold mbind, M_bind, query. by apply (Hk (q db) Hg db).
Qed.

(** Versions with the manifests that were read for them. *)
Definition version_of (v : string * ObjectManifest) : string * string * string :=
  (v.1, bucket v.2, key v.2).

Definition versions_good (vs : list (string * ObjectManifest)) : Prop := Forall (fun v => object_id v.2 = v.1) vs.

Lemma versions_stored (vs : list (string * ObjectManifest)) db :
  catalog_wf db ->
  (forall v, In v vs -> exists r, object_manifests db !! v.1 = Some r /\ om_manifest r = v.2) ->
  versions_good vs /\ forall id b k, In (id, b, k) (map version_of vs) -> stored id b k db.
Proof.
  intros Hwf Hv. split.
  - apply Forall_forall. intros v Hin. apply list_elem_of_In in Hin. destruct (Hv v Hin) as (r & Hr & <-).
    by apply (cw_rows db Hwf).
  - intros id b k (v & [= <- <- <-] & Hin)%in_map_iff. destruct (Hv v Hin) as (r & Hr & <-).
    destruct (cw_rows db Hwf _ _ Hr) as (_ & H2 & H3). exists r. auto.
Qed.

Lemma known_tombstone (vs : list (string * ObjectManifest)) v t (p : ManifestRow -> bool) :
  versions_good vs -> In v vs ->
  preserves (knows (map version_of vs)) (modify (fun db => db <| object_manifests ::= alter (fun r =>
    if p r then r <| om_commit_state := CommitState.Tombstoned |>
                  <| om_manifest := v.2 <| commit_state := CommitState.Tombstoned |> |>
                  <| om_tombstoned_at := Some t |>
    else r) v.1 |>)).
Proof.
  intros Hg Hin. unfold versions_good in Hg. rewrite Forall_forall in Hg.
  assert (object_id v.2 = v.1) as Hid by (by apply Hg, list_elem_of_In).
  eapply knows_alter; [by apply (in_map version_of) in Hin|].
  intros r. destruct (p r); split_and!; try done; [right; by split_and!|by left].
Qed.

Lemma In_imap_pair_inv {A} (l : list A) x : In x (imap pair l) -> In x.2 l.
Proof. intros H. apply (in_map snd) in H. by rewrite map_snd_imap in H. Qed.

Lemma expire_wf E now : preserves catalog_wf (tombstone_expired_active_manifests E now).
Proof.
  unfold tombstone_expired_active_manifests. apply preserves_transaction.
  apply (wf_query _ (map version_of) versions_good).
  - intros db Hwf. apply versions_stored; [done|]. intros [id m] (key & a & _ & <- & Hm)%In_expiry_candidates.
    unfold active_manifest_of in Hm. cbn. destruct (object_manifests db !! ao_object_id a) as [r|]; [|done].
    exists r. split; [done|]. by repeat case_match; simplify_eq.
  - intros vs Hg. apply preserves_bind; [|preserve]. apply preserves_for_each. intros [i [id m]] H.
    apply In_imap_pair_inv, filter_In in H as [H _]. cbn in H.
    unfold expire_object, enqueue_manifest_cleanup, delete_markers_of. catalog_through.
    by apply (known_tombstone vs (id, m)).
Qed.

Lemma remove_manifest_knows vs job at_ files t e :
  versions_good vs -> In (e.1, om_manifest e.2) vs ->
  preserves (knows (map version_of vs)) (remove_manifest job at_ files t e).
Proof.
  intros Hg Hin. unfold remove_manifest, delete_markers_of, insert_removal_object, add_removal_object.
  catalog_through. by apply (known_tombstone vs (e.1, om_manifest e.2) t (fun _ => true)).
Qed.

Lemma begin_removal_wf E files : preserves catalog_wf (begin_connection_removal E files).
Proof.
  unfold begin_connection_removal. apply preserves_transaction. apply preserves_bind; [preserve|intros c].
  apply preserves_bind; [unfold connection_removal_in_progress; preserve|intros a]. apply preserves_bind; [preserve|intros _].
  apply preserves_bind; [apply preserves_knows_nil; unfold insert_removal_job; catalog_through|intros _].
  apply (wf_query _ (fun ms => map version_of (map (fun e => (e.1, om_manifest e.2)) ms))
           (fun ms => versions_good (map (fun e => (e.1, om_manifest e.2)) ms))).
  - intros db Hwf. apply versions_stored; [done|]. intros v (e & <- & He)%in_map_iff. exists e.2. split; [|done].
    unfold removable_manifests in He. apply elem_of_map_to_list. destruct e as [id r]. cbn.
    rewrite <- list_elem_of_In, merge_sort_Permutation, list_elem_of_In in He. apply filter_In in He as [He _].
    by apply list_elem_of_In.
  - intros ms Hg. apply preserves_bind; [unfold check_manifest; preserve|intros _].
    apply preserves_bind; [|intros _].
    { apply preserves_for_each. intros [i e] He%In_imap_pair_inv. apply remove_manifest_knows; [done|].
      by apply (in_map (fun e => (e.1, om_manifest e.2))). }
    unfold remove_transfer, remove_upload, insert_or_ignore_removal_object, insert_removal_object, add_removal_object,
      list_multipart_parts, close_connection, hide_namespace, cancel_connection_jobs, abort_connection_uploads,
      delete_removed_markers, count_removal_objects, update_jobs.
    catalog_through.
Qed.

(** The manifest belongs to its identifier: a version that is stored under it
    has its bucket and its key. *)
Definition fits (m : ObjectManifest) (db : Db) : Prop :=
  forall r, object_manifests db !! object_id m = Some r -> om_bucket r = bucket m /\ om_object_key r = key m.

Lemma stage_manifest_wf E op m db : fits m db -> catalog_wf db -> catalog_wf (stage_manifest E op m db).2.
Proof.
  intros Hfit Hwf. unfold stage_manifest. destruct (validate m); [|done].
  assert (forall d, preserves catalog_wf (ensure_recovery_marker (under 0 E) d ;; mret (object_id m))) as Hm.
  { intros d. apply preserves_knows_nil. unfold ensure_recovery_marker, upsert_marker. preserve. }
  unfold mbind at 1, M_bind at 1, transaction, mbind at 1, M_bind at 1, modify. cbn beta iota. apply Hm.
  destruct Hwf as [H1 H2 H3]. split; cbn.
  - intros id r Hr. destruct (decide (id = object_id m)) as [->|Hn].
    + rewrite lookup_insert_eq in Hr. by injection Hr as <-.
    + rewrite lookup_insert_ne in Hr by done. by apply H1.
  - intros b k x Hx. destruct (H2 b k x Hx) as (r & Hr & <- & <-). unfold stored. cbn.
    destruct (decide (ao_object_id x = object_id m)) as [Heq|Hn].
    + rewrite Heq, lookup_insert_eq. rewrite Heq in Hr. destruct (Hfit r Hr). eexists. split; [reflexivity|]. cbn. auto.
    + exists r. by rewrite lookup_insert_ne.
  - intros o j Hj. destruct (decide (o = object_id m)) as [->|Hn].
    + rewrite lookup_insert_eq in Hj. injection Hj as <-. cbn. split; [done|]. intros r. rewrite lookup_insert_eq.
      by intros [= <-].
    + rewrite lookup_insert_ne in Hj by done. destruct (H3 o j Hj) as [? H5]. split; [done|].
      intros r Hr. rewrite lookup_insert_ne in Hr by done. by apply H5.
Qed.

Lemma update_manifest_wf m db : fits m db -> catalog_wf db -> catalog_wf (update_manifest m db).2.
Proof.
  intros Hfit Hwf. unfold update_manifest.
  destruct (object_manifests db !! object_id m) as [r|] eqn:Er.
  - destruct (Hfit r Er) as [Hb Hk].
    assert (preserves (knows [(object_id m, bucket m, key m)]) (update_manifest m)) as Hp.
    { unfold update_manifest. preserve. }
    apply (Hp db). split; [done|]. intros id b k [[= <- <- <-]|[]]. exists r. auto.
  - unfold mbind, M_bind, modify. cbn.
replace (db <| object_manifests ::= alter _ (object_id m) |>) with db; [done|].
    destruct db. unfold set. cbn in *. f_equal. apply map_eq. intros i.
    destruct (decide (i = object_id m)) as [->|Hn]; [by rewrite lookup_alter_eq, Er|by rewrite lookup_alter_ne].
Qed.

Lemma commit_wf etag E op transfer published : preserves catalog_wf (commit_manifest_inner etag E op transfer published).
Proof.
  intros db Hwf. destruct (commit_manifest_inner etag E op transfer published db) as [[m|e] d] eqn:Ec; cbn.
  2: { by apply transaction_err in Ec as ->. }
  apply commit_inner_inv in Ec as [(j & _ & _ & ->)|H]; [done|].
  destruct H as (journal & staged & manifest & current & d1 & d2 & -> & Hj & Hs & Hm & _ & _ & _ & _ & _ & Hp & Hc & Hf).
  apply load_journal_ok in Hj as (row & Hrow & <-). apply load_manifest_ok in Hs as (r & Hr & <- & _).
  destruct (cw_journal db Hwf op row Hrow) as [Hop Hid]. rewrite Hop in Hr. destruct (Hid r Hr) as [Hb Hk].
  destruct (cw_rows db Hwf op r Hr) as (R1 & R2 & R3).
  assert (object_id manifest = op /\ bucket manifest = om_bucket r /\ key manifest = om_object_key r) as (M1 & M2 & M3).
  { destruct published as [p|]; [apply published_manifest_some in Hm as (-> & _ & ? & ? & ?)|injection Hm as <-];
      split_and!; congruence. }
  assert (preserves (knows [(op, om_bucket r, om_object_key r)])
    (publish_version op (timestamp_at E 0) (oj_details row) (manifest <| commit_state := CommitState.Committed |>))) as Hv.
  { unfold publish_version. apply preserves_bind; [|intros _].
    - cbn. rewrite M1. eapply knows_alter; [by left|]. intros x. split_and!; try done. right. by split_and!.
    - apply preserves_bind; [|intros _; preserve]. apply knows_set_active. cbn. rewrite M1, M2, M3. by left. }
  assert (catalog_wf d1) as H1.
  { specialize (Hv db). rewrite Hp in Hv. apply Hv. split; [done|]. intros id b k [[= <- <- <-]|[]]. exists r. auto. }
  assert (catalog_wf d2) as H2.
  { apply (f_equal snd) in Hc. cbn in Hc. rewrite <- Hc. revert d1 Hp Hc H1. intros d1 _ _. revert d1.
    apply preserves_knows_nil. unfold complete_job, update_jobs. preserve. }
  apply (f_equal snd) in Hf. cbn in Hf. rewrite <- Hf. revert d2 Hc Hf H2. intros d2 _ _. revert d2.
  apply preserves_knows_nil. unfold finish_completion, close_session. preserve.
Qed.

Lemma rebuild_wf E : preserves catalog_wf (rebuild_index_internal E).
Proof.
  unfold rebuild_index_internal. apply preserves_transaction.
  apply preserves_bind; [apply preserves_knows_nil; catalog_through|intros _]. apply preserves_bind; [preserve|intros st].
  apply preserves_bind; [apply preserves_knows_nil; unfold remark_staging, upsert_marker; preserve|intros _].
  apply (wf_query _ (map (fun e => (e.1, om_bucket e.2, om_object_key e.2))) (fun _ => True)).
  - intros db Hwf. split; [done|]. intros id b k (e & [= <- <- <-] & He)%in_map_iff. apply filter_In in He as [He _].
    exists e.2. split_and!; try done. apply elem_of_map_to_list. destruct e as [id r]. cbn.
    unfold ordered_manifests in He. rewrite <- list_elem_of_In, merge_sort_Permutation in He. exact He.
  - intros es _. apply preserves_bind; [|preserve]. apply preserves_for_each. intros [i e] He%In_imap_pair_inv.
    apply knows_set_active. by apply (in_map (fun e => (e.1, om_bucket e.2, om_object_key e.2))) in He.
Qed.

Lemma discard_staged_wf id : preserves catalog_wf (discard_staged id).
Proof.
  apply wf_removed; cbn.
  - by intros db o r [H _]%map_lookup_filter_Some.
  - intros db bk x [H Hn]%map_lookup_filter_Some. split; [done|]. intros r Hr. apply map_lookup_filter_Some.
    split; [done|]. intros [Hid Hst]. apply Hn. split; [done|]. by rewrite <- Hid, Hr, <- Hst.
  - by intros db o j [H _]%map_lookup_filter_Some.
Qed.

Lemma forget_objects_wf gone : preserves catalog_wf (forget_objects gone).
Proof.
  apply wf_removed; cbn.
  - by intros db o r [H _]%map_lookup_filter_Some.
  - intros db bk x [H Hn]%map_lookup_filter_Some. split; [done|]. intros r Hr. apply map_lookup_filter_Some.
    by split.
  - by intros db o j [H _]%map_lookup_filter_Some.
Qed.

Lemma wf_same {A} (m : M A) : steps (same catalog) m -> preserves catalog_wf m.
Proof. intros H. by apply preserves_knows_nil, knows_same. Qed.

#[local] Hint Resolve discard_staged_wf forget_objects_wf commit_wf rebuild_wf expire_wf begin_removal_wf
  delete_folder_wf : preserves.
#[local] Hint Extern 5 (preserves catalog_wf _) => solve [apply wf_same; frame_through] : preserves.

Section Catalog.
Context (etag_from_str : string -> option ETagCondition).
Context (parse_uuid : string -> option string).
Context (parse_rfc3339 : string -> option OffsetDateTime).

(** The calls that write the catalogue, and the others.  The two that are given
    a manifest are given one that belongs to its identifier. *)
Inductive catalog_call (db : Db) : forall A, M A -> Prop :=
| catalog_stage E k m : fits m db -> catalog_call db _ (stage_manifest E k m)
| catalog_update m : fits m db -> catalog_call db _ (update_manifest m)
| catalog_commit E op : catalog_call db _ (commit_manifest etag_from_str E op)
| catalog_commit_transfer E op id l m : catalog_call db _ (commit_transfer_manifest etag_from_str E op id l m)
| catalog_finish_part E id l u n : catalog_call db _ (finish_part_job etag_from_str parse_uuid E id l u n)
| catalog_tombstone E o r c : catalog_call db _ (tombstone_manifest_with_conditionals E o r c)
| catalog_expire E now : catalog_call db _ (tombstone_expired_active_manifests E now)
| catalog_state E o s : catalog_call db _ (update_manifest_state E o s)
| catalog_delete E b k r c : catalog_call db _ (delete_active_key E b k r c)
| catalog_delete_folder E b f r : catalog_call db _ (delete_empty_folder E b f r)
| catalog_rebuild E : catalog_call db _ (rebuild_index_internal E)
| catalog_removal E f : catalog_call db _ (begin_connection_removal E f)
| catalog_fail E id removed m : catalog_call db _ (fail_reception E id removed m)
| catalog_reject E id m : catalog_call db _ (reject_transfer_for_quota E id m)
| catalog_else {A} (op : M A) : steps (same catalog) op -> catalog_call db A op.

Definition catalog_step (db db' : Db) : Prop := exists A (op : M A), catalog_call db A op /\ db' = (op db).2.

(** The calls that are given a manifest. *)
Inductive carries : forall {A}, M A -> ObjectManifest -> Prop :=
| carries_stage E k m : carries (stage_manifest E k m) m
| carries_update m : carries (update_manifest m) m.

Ltac writes_catalog :=
  match goal with
  | |- catalog_call _ _ (commit_manifest _ _ _) => apply catalog_commit
  | |- catalog_call _ _ (commit_transfer_manifest _ _ _ _ _ _) => apply catalog_commit_transfer
  | |- catalog_call _ _ (finish_part_job _ _ _ _ _ _ _) => apply catalog_finish_part
  | |- catalog_call _ _ (tombstone_manifest_with_conditionals _ _ _ _) => apply catalog_tombstone
  | |- catalog_call _ _ (tombstone_expired_active_manifests _ _) => apply catalog_expire
  | |- catalog_call _ _ (update_manifest_state _ _ _) => apply catalog_state
  | |- catalog_call _ _ (delete_active_key _ _ _ _ _) => apply catalog_delete
  | |- catalog_call _ _ (delete_empty_folder _ _ _ _) => apply catalog_delete_folder
  | |- catalog_call _ _ (rebuild_index_internal _) => apply catalog_rebuild
  | |- catalog_call _ _ (begin_connection_removal _ _) => apply catalog_removal
  | |- catalog_call _ _ (fail_reception _ _ _ _) => apply catalog_fail
  | |- catalog_call _ _ (reject_transfer_for_quota _ _ _) => apply catalog_reject
  end.

(** Nothing that the store does is left out. *)
Lemma operation_catalog {A} (op : M A) :
  any_operation etag_from_str parse_uuid parse_rfc3339 op ->
  (exists m, carries op m) \/ forall db, catalog_call db A op.
Proof.
  intros Hop. destruct Hop;
    try match goal with
        | |- context [carries (stage_manifest ?E ?k ?m) _] => left; exists m; apply carries_stage
        | |- context [carries (update_manifest ?m) _] => left; exists m; apply carries_update
        end; right; intros db; try writes_catalog.
  all: apply catalog_else; open_bucket_ops; open_multipart_ops; open_transfer_ops.
  all: unfold upsert_marker, set_object_recovery_marker, claim_cleanup, begin_cleanup_evidence_attempt, resolve_cleanup_evidence,
      retry_cleanup_evidence_after_reconciliation, complete_cleanup, fail_cleanup,
      quarantine_cleanup, make_cleanup_due, update_targets; frame_through.
Qed.

Lemma catalog_call_wf db A (op : M A) : catalog_call db A op -> catalog_wf db -> catalog_wf (op db).2.
Proof.
  intros Hop Hwf. destruct Hop; [by apply stage_manifest_wf|by apply update_manifest_wf|..].
  all: match goal with |- catalog_wf (?op _).2 => assert (preserves catalog_wf op) as Hp; [|by apply Hp] end.
  all: try solve [unfold commit_manifest, commit_transfer_manifest, delete_active_key, fail_reception,
    reject_transfer_for_quota, update_jobs; preserve].
  - unfold finish_part_job, finish_completion_job, commit_manifest, publish_part,
      supersede_part_duplicates, upsert_part, transfer, enqueue_part_cleanup, update_jobs. preserve.
Qed.

Lemma empty_catalog : catalog_wf empty_db.
Proof. split; cbn; intros *; rewrite lookup_empty; done. Qed.

Lemma catalog_steps_wf db : rtc catalog_step empty_db db -> catalog_wf db.
Proof.
  intros H. generalize empty_catalog. induction H as [|x y z Hs _ IH]; [done|]. intros Hx.
  apply IH. destruct Hs as (A & op & Hop & ->). by apply catalog_call_wf.
Qed.

(** C16: The catalogue is consistent in every state the store can reach, in
    whatever order the operations of the service run, as long as the manifests
    handed to it belong to their identifiers: a version is stored under its own
    identifier, bucket and key; what a visible key names is a stored version of
    this bucket and this key; and a journal entry speaks of the version it
    staged.  So reading a visible key never yields an object of another key. *)
Theorem catalog_consistent db :
  rtc catalog_step empty_db db ->
  (forall id r, object_manifests db !! id = Some r ->
     object_id (om_manifest r) = id /\ bucket (om_manifest r) = om_bucket r /\ key (om_manifest r) = om_object_key r) /\
  (forall op j, operation_journal db !! op = Some j -> jd_object_id (oj_details j) = op) /\
  (forall b k a, active_objects db !! (b, k) = Some a -> is_Some (object_manifests db !! ao_object_id a)) /\
  (forall b k m, (get_active_manifest b k db).1 = Ok (Some m) -> bucket m = b /\ key m = k).
Proof.
  intros [H1 H2 H3]%catalog_steps_wf. split_and!; [done|by intros op j []%H3| |].
  - intros b k a (r & Hr & _)%H2. by rewrite Hr.
  - intros b k m. unfold get_active_manifest, load_manifest_by_object_id, mbind, M_bind, query, throw, mret, M_ret.
    destruct (active_objects db !! (b, k)) as [a|] eqn:Ea; [|done].
    destruct (H2 b k a Ea) as (r & Hr & <- & <-). rewrite Hr. destruct (bool_decide _); [|done].
    rewrite Hr. destruct (H1 _ _ Hr) as (_ & ? & ?). by destruct (validate _); [intros [= <-]|].
Qed.
End Catalog.

Definition sample_staged : Db := (stage_manifest (sample_env 1 "u") OperationKind.Put (sample_published "o1") empty_db).2.

Definition sample_cataloged : Db := (commit_manifest sample_etag (sample_env 2 "u") "o1" sample_staged).2.

Lemma sample_catalog_steps : rtc (catalog_step sample_etag no_uuid) empty_db sample_cataloged.
Proof.
  eapply rtc_l; [|apply rtc_once].
  - exists _, (stage_manifest (sample_env 1 "u") OperationKind.Put (sample_published "o1")). split; [|reflexivity].
    apply catalog_stage. intros r Hr. cbn in Hr. rewrite lookup_empty in Hr. discriminate Hr.
  - exists _, (commit_manifest sample_etag (sample_env 2 "u") "o1"). split; [apply catalog_commit|reflexivity].
Qed.

Lemma catalog_consistent_witness :
  exists m, (get_active_manifest "b" "k" sample_cataloged).1 = Ok (Some m) /\ bucket m = "b" /\ key m = "k".
Proof.
  destruct (catalog_consistent sample_etag no_uuid sample_cataloged sample_catalog_steps) as (_ & _ & _ & H).
  destruct (get_active_manifest "b" "k" sample_cataloged).1 as [[m|]|e] eqn:Em.
  - exists m. split; [reflexivity|]. by apply H.
  - exfalso. revert Em. vm_compute. discriminate.
  - exfalso. revert Em. vm_compute. discriminate.
Defined.
