(* ===== verification/Attempts.v ===== *)
(** * Send attempts across workers ([src/src/durable.rs])

    Which attempts to send a chunk can stand at the same time.  An attempt
    stands unless Telegram refused it (or a reconciliation found that it never
    arrived): its document may be on Telegram.  [calm] is what every operation
    other than starting a send does to leases and attempts: it hands out no
    lease (or another one) and leaves no more attempts standing.
    [checkpoints_recorded] is the invariant that a checkpointed attempt has its
    chunk's location on record.  [Programs.v] builds on both. *)

From S2P Require Import Prelude Errors Manifest Schema Cleanup Transfers TransferSafety.
From S2P Require Import ManifestStore ManifestSafety MultipartStore Buckets ConnectionRemoval System.

(** ** Leases and standing attempts *)

Definition held (id lease : string) (db : Db) : Prop :=
  exists r, In r (transfer_jobs db) /\ tj_id r = id /\ tj_lease r = Some lease.

Definition standing (a : AttemptRow) : bool := negb (bool_decide (sa_state a = AttemptState.Retryable)).

Record calm (lease : string) (db db' : Db) : Prop := {
  calm_leases : forall id, held id lease db' -> held id lease db;
  calm_attempts : forall a', In a' (send_attempts db') -> standing a' = true ->
    exists a, In a (send_attempts db) /\ attempt_key a = attempt_key a' /\ standing a = true /\
      (sa_state a = AttemptState.Checkpointed -> sa_state a' = AttemptState.Checkpointed)
}.

#[export] Instance calm_preorder lease : PreOrder (calm lease).
Proof.
  split.
  - intros db. split; [done|]. intros a Ha Hs. by exists a.
  - intros d1 d2 d3 [L1 A1] [L2 A2]. split; [auto|]. intros a3 H3 S3.
    destruct (A2 a3 H3 S3) as (a2 & H2 & K2 & S2 & C2).
    destruct (A1 a2 H2 S2) as (a1 & H1 & K1 & S1 & C1). exists a1. split_and!; auto. congruence.
Qed.

Lemma calm_frame lease db db' :
  transfer_jobs db' = transfer_jobs db -> send_attempts db' = send_attempts db -> calm lease db db'.
Proof. intros Hj Ha. split; unfold held; rewrite ?Hj, ?Ha; [done|]. intros a H Hs. by exists a. Qed.

(** An [UPDATE] of jobs that hands out no lease, or another one. *)
Lemma calm_update_jobs lease db p f :
  (forall r, p r = true -> tj_id (f r) = tj_id r /\
     (tj_lease (f r) = tj_lease r \/ tj_lease (f r) <> Some lease)) ->
  calm lease db (db <| transfer_jobs ::= sql_update p f |>).
Proof.
  intros Hf. split; [|intros a Ha Hs; by exists a].
  intros id (r' & Hr' & Hid & Hl). apply In_sql_update in Hr' as (r & Hr & ->). exists r. split; [done|].
  destruct (p r) eqn:Ep; [|done]. destruct (Hf r Ep) as [He [Hk|Hk]]; [|done].
  rewrite <- Hid, <- Hl. auto.
Qed.

Lemma calm_update_attempts lease db p f :
  (forall a, p a = true -> attempt_key (f a) = attempt_key a /\
     (standing (f a) = true -> standing a = true /\
        (sa_state a = AttemptState.Checkpointed -> sa_state (f a) = AttemptState.Checkpointed))) ->
  calm lease db (db <| send_attempts ::= sql_update p f |>).
Proof.
  intros Hf. split; [done|]. intros a' Ha' Hs. apply In_sql_update in Ha' as (a & Ha & ->).
  destruct (p a) eqn:Ep; [|by exists a]. destruct (Hf a Ep) as [Hk Hst]. destruct (Hst Hs) as [? ?].
  exists a. split_and!; auto.
Qed.

Lemma calm_insert_job lease db r seq :
  tj_lease r = None ->
  calm lease db (db <| transfer_jobs ::= (fun t => t ++ [r]) |> <| transfer_seq := seq |>).
Proof.
  intros Hr. split; [|intros a Ha Hs; by exists a].
  intros id (r' & Hr' & Hid & Hl). apply in_app_or in Hr' as [Hin|[<-|[]]]; [by exists r'|congruence].
Qed.

Lemma calm_delete lease db db' p q :
  transfer_jobs db' = sql_delete p (transfer_jobs db) ->
  send_attempts db' = sql_delete q (send_attempts db) -> calm lease db db'.
Proof.
  intros Hj Ha. split; unfold held; rewrite ?Hj, ?Ha.
  - intros id (r & Hr & H). apply In_sql_delete in Hr as [Hr _]. by exists r.
  - intros a Hin Hs. apply In_sql_delete in Hin as [Hin _]. by exists a.
Qed.

Lemma update_jobs_calm lease p f :
  (forall db r, p db r = true -> tj_id (f r) = tj_id r /\
     (tj_lease (f r) = tj_lease r \/ tj_lease (f r) <> Some lease)) ->
  steps (calm lease) (update_jobs p f).
Proof. intros H. apply steps_execute. intros db. apply calm_update_jobs. eauto. Qed.

Lemma update_attempts_calm lease p f :
  (forall db a, p db a = true -> attempt_key (f a) = attempt_key a /\
     (standing (f a) = true -> standing a = true /\
        (sa_state a = AttemptState.Checkpointed -> sa_state (f a) = AttemptState.Checkpointed))) ->
  steps (calm lease) (update_attempts p f).
Proof. intros H. apply steps_execute. intros db. apply calm_update_attempts. eauto. Qed.

(** ** Every operation but the start of a send is calm *)

Ltac calm_statement :=
  first [apply steps_modify | apply steps_execute]; intros ?;
  repeat match goal with |- calm _ _ (match ?x with _ => _ end) => destruct x end;
  first
    [ apply calm_frame; reflexivity
    | apply calm_update_jobs; intros ? ?; split;
      [reflexivity | first [left; reflexivity | right; cbn; discriminate]]
    | apply calm_insert_job; reflexivity
    | apply calm_update_attempts; intros ? ?; bool_hyps; split;
      [reflexivity
      | unfold standing; cbn;
        repeat match goal with H : sa_state _ = _ |- _ => rewrite H end;
        first [ done | intros; split; done
              | match goal with |- context [match ?x with _ => _ end] => destruct x end;
                first [done | intros; split; done] ] ]
    | eapply calm_delete; reflexivity ].

Ltac calm_through := repeat (step_through; try calm_statement).

Section Calm.
Context (etag_from_str : string -> option ETagCondition).
Context (parse_uuid : string -> option string).
Context (parse_rfc3339 : string -> option OffsetDateTime).

Abbreviation op := (operation etag_from_str parse_uuid parse_rfc3339).

Lemma claim_transfer_calm lease E :
  new_v4 E 0 <> lease -> steps (calm lease) (claim_transfer E).
Proof.
  intros Hne. unfold claim_transfer, recover_transfers, expire_receptions, quarantine_ambiguous,
    normalize_attempts, cancel_closed_sessions, supersede_older, take_lease, transfer,
    update_jobs, update_attempts.
  calm_through. apply steps_execute. intros db. apply calm_update_jobs. intros r _. cbn.
  split; [done|]. right. congruence.
Qed.

(** .. for every caller that does not claim under this lease. *)
Lemma operation_calm {A} (m : M A) lease :
  op False (fun l => l <> lease) m -> steps (calm lease) m.
Proof.
  intros H. destruct H; try contradiction; auto using claim_transfer_calm;
    open_ops; calm_through.
Qed.
End Calm.

(** ** Checkpoints are recorded with their location *)

Definition recorded (db : Db) (a : AttemptRow) : Prop :=
  sql_exists (is_chunk (sa_job_id a) (sa_chunk_order a)) (transfer_chunks db) = true.

(** A checkpointed attempt has its chunk's location on record. *)
Definition checkpoints_recorded (db : Db) : Prop :=
  forall a, In a (send_attempts db) -> sa_state a = AttemptState.Checkpointed -> recorded db a.

Definition sent_tables (db : Db) := (send_attempts db, transfer_chunks db).

Lemma checkpoints_frame {A} (m : M A) :
  steps (same sent_tables) m -> preserves checkpoints_recorded m.
Proof.
  intros H db Hdb a. specialize (H db). unfold same, sent_tables, recorded in *.
  injection H as -> ->. apply Hdb.
Qed.

(** An [UPDATE] of attempts that checkpoints none. *)
Lemma checkpoints_update p f :
  (forall db a, p db a = true -> attempt_key (f a) = attempt_key a /\
     (sa_state (f a) = AttemptState.Checkpointed -> sa_state a = AttemptState.Checkpointed)) ->
  preserves checkpoints_recorded (update_attempts p f).
Proof.
  intros Hf. apply preserves_execute. intros db Hdb a' Ha' Hs.
  apply In_sql_update in Ha' as (a & Ha & ->). unfold recorded in *. cbn.
  destruct (p db a) eqn:Ep; [|by apply Hdb]. destruct (Hf db a Ep) as [Hk Hc].
  injection Hk as -> -> _. by apply Hdb; [|apply Hc].
Qed.

Lemma upsert_chunk_recorded id order l db u db' :
  upsert_chunk id order l db = (Ok u, db') ->
  sql_exists (is_chunk id order) (transfer_chunks db') = true /\
  send_attempts db' = send_attempts db /\
  forall j o, sql_exists (is_chunk j o) (transfer_chunks db) = true ->
    sql_exists (is_chunk j o) (transfer_chunks db') = true.
Proof.
  unfold upsert_chunk, mbind, M_bind, query, ensure, modify.
  destruct (sql_exists (has_id id) (transfer_jobs db)); cbn; [|done]. intros [= <- <-]. cbn.
  destruct (sql_exists (is_chunk id order) (transfer_chunks db)) eqn:E; split_and!; try done.
  - rewrite sql_exists_true in *. destruct E as (c & Hc & Hp).
    exists {| tc_job_id := id; tc_chunk_order := order; tc_location := l |}. split.
    + apply In_sql_update. exists c. by rewrite Hp.
    + unfold is_chunk. cbn. by rewrite bool_decide_eq_true_2, Z.eqb_refl.
  - intros j o. rewrite !sql_exists_true. intros (c & Hc & Hp).
    destruct (is_chunk id order c) eqn:Ec.
    + exists {| tc_job_id := id; tc_chunk_order := order; tc_location := l |}. split.
      * apply In_sql_update. exists c. by rewrite Ec.
      * unfold is_chunk in *. bool_hyps. subst. cbn. by rewrite bool_decide_eq_true_2, Z.eqb_refl.
    + exists c. split; [|done]. apply In_sql_update. exists c. by rewrite Ec.
  - apply sql_exists_true. eexists. split; [apply in_or_app; right; by left|].
    unfold is_chunk. cbn. by rewrite bool_decide_eq_true_2, Z.eqb_refl.
  - intros j o. rewrite !sql_exists_true. intros (c & Hc & Hp). exists c. split; [|done].
    apply in_or_app. by left.
Qed.

Lemma preserves_committed {A} (P : Db -> Prop) (m : M A) :
  (forall db a db', P db -> m db = (Ok a, db') -> P db') -> preserves P (transaction m).
Proof.
  intros H db Hdb. unfold transaction. destruct (m db) as [[a|e] db'] eqn:E; cbn; [by eapply H|done].
Qed.

(** A checkpoint and its location are written together. *)
Lemma checkpoint_with_location p f id order l db n d u db' :
  (forall a, p db a = true -> sa_job_id a = id /\ sa_chunk_order a = order) ->
  (forall a, attempt_key (f a) = attempt_key a) ->
  checkpoints_recorded db ->
  update_attempts p f db = (Ok n, d) -> upsert_chunk id order l d = (Ok u, db') ->
  checkpoints_recorded db'.
Proof.
  intros Hp Hf Hdb Hu Hc. injection Hu as _ <-. apply upsert_chunk_recorded in Hc as (Hnew & Ha & Hold).
  intros a' Ha' Hs. rewrite Ha in Ha'. apply In_sql_update in Ha' as (a & Hin & ->). unfold recorded.
  destruct (p db a) eqn:Ep.
  - pose proof (Hf a) as Hk. injection Hk as -> -> _. by destruct (Hp a Ep) as [-> ->].
  - apply Hold. cbn. by apply Hdb.
Qed.

Lemma count_chunks_checkpoints now id : preserves checkpoints_recorded (count_chunks now id).
Proof. apply checkpoints_frame. unfold count_chunks. frame_through. Qed.

Lemma finish_send_attempt_checkpoints E id lease order attempt l :
  preserves checkpoints_recorded (finish_send_attempt E id lease order attempt l).
Proof.
  unfold finish_send_attempt. apply preserves_committed. intros db u db' Hdb H.
  apply bind_ok in H as (v & d1 & Hv & H). injection Hv as _ <-.
  apply bind_ok in H as ([] & d2 & He & H). apply ensure_ok in He as [_ ->].
  apply bind_ok in H as (n & d3 & Hu & H).
  apply bind_ok in H as ([] & d4 & He & H). apply ensure_ok in He as [_ ->].
  apply bind_ok in H as ([] & d5 & Hc & H).
  apply bind_ok in H as (k & d6 & Hk & H). injection H as <- <-.
  pose proof (count_chunks_checkpoints (now_at E 2) id d5) as Hcc. rewrite Hk in Hcc. apply Hcc.
  refine (checkpoint_with_location _ _ _ _ _ _ _ _ _ _ _ _ Hdb Hu Hc); [|done].
  intros a Hp. unfold is_attempt in Hp. bool_hyps. by subst.
Qed.

Lemma resolve_send_attempt_checkpoints E a l e :
  preserves checkpoints_recorded (resolve_send_attempt E a l e).
Proof.
  unfold resolve_send_attempt. apply preserves_committed. intros db u db' Hdb H.
  apply bind_ok in H as (n & d3 & Hu & H).
  apply bind_ok in H as ([] & d4 & He & H). apply ensure_ok in He as [_ ->].
  apply bind_ok in H as ([] & d5 & Hc & H).
  apply bind_ok in H as (k & d6 & Hk & H). injection H as <- <-.
  pose proof (count_chunks_checkpoints (now_at E 1) (ua_job_id a) d5) as Hcc. rewrite Hk in Hcc. apply Hcc.
  destruct l as [l|].
  - refine (checkpoint_with_location _ _ _ _ _ _ _ _ _ _ _ _ Hdb Hu Hc); [|done].
    intros x Hp. unfold is_attempt in Hp. bool_hyps. by subst.
  - injection Hc as <-.
    refine (eq_ind (update_attempts _ _ db).2 checkpoints_recorded _ _ (f_equal snd Hu)).
    apply (checkpoints_update _ _); [|done]. intros d x _. split; [done|]. cbn. discriminate.
Qed.

Lemma insert_attempt_checkpoints row :
  sa_state row = AttemptState.Sending ->
  preserves checkpoints_recorded (modify (fun db => db <| send_attempts ::= (fun t => t ++ [row]) |>)).
Proof.
  intros Hs. apply preserves_modify. intros db Hdb x Hx Hc.
  apply in_app_or in Hx as [Hx|[<-|[]]]; [by apply Hdb|congruence].
Qed.

Lemma purge_checkpoints c : preserves checkpoints_recorded (purge_connection_operations c).
Proof.
  apply preserves_modify. intros db Hdb a Ha Hs. cbn in Ha. apply In_sql_delete in Ha as [Ha Hg].
  specialize (Hdb a Ha Hs). unfold recorded in *. cbn. rewrite sql_exists_true in *.
  destruct Hdb as (k & Hk & Hp). exists k. split; [|done]. apply In_sql_delete. split; [done|].
  unfold is_chunk in Hp. bool_hyps. by rewrite H.
Qed.

#[export] Hint Resolve finish_send_attempt_checkpoints resolve_send_attempt_checkpoints
  purge_checkpoints : preserves.

Ltac checkpoints_through :=
  repeat (preserve;
    try (apply checkpoints_frame; solve [frame_through]);
    try (apply insert_attempt_checkpoints; reflexivity);
    try (apply checkpoints_update; intros ? ? ?; bool_hyps; split; [reflexivity|];
         cbn; first [done | discriminate])).

Section Recorded.
Context (etag_from_str : string -> option ETagCondition).
Context (parse_uuid : string -> option string).
Context (parse_rfc3339 : string -> option OffsetDateTime).

Abbreviation op := (operation etag_from_str parse_uuid parse_rfc3339).

Lemma operation_checkpoints {A} (m : M A) sends leases :
  op sends leases m -> preserves checkpoints_recorded m.
Proof.
  intros H. destruct H; auto with preserves; open_ops; checkpoints_through.
Qed.
End Recorded.
