(* ===== verification/Programs.v ===== *)
(** * Asynchronous tasks and the system they run in

    A task of the service (an [async fn] of [src/src/object_format/]) is a
    program [Proc]: at each step it makes one call of the metadata store, which
    is one transaction, or one [Io] action, whose answer the outside world
    chooses.  Between two steps any other task may run, and a task may be
    dropped at any step, as a cancelled future or a crash drops it.

    [World] is the service: the database, the leases handed out so far and the
    upload workers, each under the lease it claimed.  [safe] is the proof rule
    for a worker: assuming that the others only do what is [foreign] to its
    lease, its own calls are [worker_call]s.  [world_inv] ties the two together
    and is what every reachable world satisfies. *)

From S2P Require Import Prelude Errors Manifest Schema Cleanup Transfers TransferSafety.
From S2P Require Import ManifestStore ManifestSafety MultipartStore Buckets ConnectionRemoval System.
From S2P Require Import Chunks Attempts.

(** ** Actions on the outside world *)

(** Files, the clock and fresh identifiers ([Ambient]), the counts of running
    reads, and Telegram: [DeleteMessages] works on the chat of the current
    transport, [DownloadMessage] on the service's own connection or on that of
    an account, and [SetStorageChat] and [ForgetAccount] change what the service
    remembers.  [RandomBelow] gives the numbers below each bound that the random
    source yields.  The [bool] of a failed removal says that there was nothing to
    remove ([io::ErrorKind::NotFound]). *)

(** A message of the storage chat, as far as reconciliation looks at it. *)
Record RemoteMessage : Type := {
  rm_id : Z;
  rm_date : Z;
  rm_document : option (option string * Z)
}.

(** An entry of a directory. *)
Record DirEntry : Type := {
  de_name : string;
  de_is_dir : bool;
  de_is_file : bool;
  de_len : Z
}.

Inductive Io : Type -> Type :=
| Ambient : Io Env
| ReadFile (path : string) : Io (Result (list Byte.byte) ObjectFormatError.t)
| WriteManifest (path : string) (value : ObjectManifest) : Io (Result unit ObjectFormatError.t)
| WriteFile (path : string) (bytes : list Byte.byte) : Io (Result unit ObjectFormatError.t)
| CreateDirAll (path : string) : Io (Result unit ObjectFormatError.t)
| PathExists (path : string) : Io bool
| RemoveDirAll (path : string) : Io (Result unit (bool * ObjectFormatError.t))
| RemoveFile (path : string) : Io (Result unit (bool * ObjectFormatError.t))
| WriteEvidence (path object_id : string) (manifest : option ObjectManifest)
    : Io (Result unit ObjectFormatError.t)
| ReadPinned (object_id : Uuid) : Io bool
| DeleteMessages (message_ids : list Z) : Io (Result unit ObjectFormatError.t)
| Disconnect : Io unit
| UploadFile (path file_name : string) : Io (Result TelegramLocation ObjectFormatError.t)
| OpenTransport : Io (Result unit ObjectFormatError.t)
| StorageChatId : Io (Result string ObjectFormatError.t)
| NextMessage : Io (Result (option RemoteMessage) ObjectFormatError.t)
| DownloadDocument (document : Z) : Io (Result (list Byte.byte) ObjectFormatError.t)
| DownloadMessage (account : option string) (peer : string) (message : Z)
    : Io (Result (list Byte.byte) ObjectFormatError.t)
| OpenAccount (account : string) : Io (Result unit ObjectFormatError.t)
| AccountChat (account : string) : Io (Result string ObjectFormatError.t)
| UploadReplica (account job : string) (order : Z) (bytes : list Byte.byte)
    : Io (Result TelegramLocation ObjectFormatError.t)
| SetStorageChat (chat : string) : Io unit
| ForgetAccount (account : string) : Io unit
| ReadDir (path : string) : Io (Result (list (Result DirEntry ObjectFormatError.t)) ObjectFormatError.t)
| Rename (path target : string) : Io (Result unit ObjectFormatError.t)
| FileLength (path : string) : Io (Result Z ObjectFormatError.t)
| RandomBelow : Io (nat -> nat).

Inductive Proc (A : Type) : Type :=
| Return (a : A)
| Store {B} (m : M B) (k : Result B MetadataError -> Proc A)
| Perform {B} (e : Io B) (k : B -> Proc A).

Arguments Return {A} a.
Arguments Store {A B} m k.
Arguments Perform {A B} e k.

Fixpoint proc_bind {A B} (f : A -> Proc B) (p : Proc A) : Proc B :=
  match p with
  | Return a => f a
  | Store m k => Store m (fun x => proc_bind f (k x))
  | Perform e k => Perform e (fun x => proc_bind f (k x))
  end.

(** [async fn .. -> Result<A, ObjectFormatError>], with [?] as its bind. *)
Definition Task (A : Type) : Type := Proc (Result A ObjectFormatError.t).

#[export] Instance Task_ret : MRet Task := fun A a => Return (Ok a).

#[export] Instance Task_bind : MBind Task := fun A B f p =>
  proc_bind (fun r => match r with Ok a => f a | Err e => Return (Err e) end) p.

Definition fail {A} (e : ObjectFormatError.t) : Task A := Return (Err e).

(** A store call with its error converted by [?]; one whose result is kept. *)
Definition call {A} (m : M A) : Task A :=
  Store m (fun r => Return (match r with Ok a => Ok a | Err e => Err (ObjectFormatError.Metadata e) end)).

Definition try_call {A} (m : M A) : Task (Result A MetadataError) :=
  Store m (fun r => Return (Ok r)).

Definition perform {A} (e : Io A) : Task A := Perform e (fun x => Return (Ok x)).

Definition perform_ok {A} (e : Io (Result A ObjectFormatError.t)) : Task A :=
  Perform e Return.

(** A task whose error the caller looks at. *)
Definition settle {A} (p : Task A) : Task (Result A ObjectFormatError.t) :=
  proc_bind (fun r => Return (Ok r)) p.

Definition require {A} (o : option A) (e : ObjectFormatError.t) : Task A :=
  match o with Some a => mret a | None => fail e end.

(** A run of one task that nothing disturbs: [answer] is the outside world. *)
Fixpoint interp {W A} (answer : forall B, Io B -> W -> B * W) (p : Proc A) (w : W) (db : Db)
    : A * W * Db :=
  match p with
  | Return a => (a, w, db)
  | Store m k => interp answer (k (m db).1) w (m db).2
  | Perform e k => interp answer (k (answer _ e w).1) (answer _ e w).2 db
  end.

Lemma interp_bind {W A B} answer (f : A -> Proc B) p (w : W) db :
  interp answer (proc_bind f p) w db =
    let '(a, w', db') := interp answer p w db in interp answer (f a) w' db'.
Proof. revert w db. induction p as [a|X m k IH|X e k IH]; intros w db; cbn; [done|apply IH..]. Qed.

Lemma interp_task {W A B} answer (f : A -> Task B) (p : Task A) (w : W) db :
  interp answer (p ≫= f) w db =
    match interp answer p w db with
    | (Ok a, w', db') => interp answer (f a) w' db'
    | (Err e, w', db') => (Err e, w', db')
    end.
Proof. unfold mbind, Task_bind. rewrite interp_bind. by destruct (interp answer p w db) as [[[] ?] ?]. Qed.

(** A task that succeeds went through all its steps. *)
Lemma interp_ok {W A B} answer (f : A -> Task B) (p : Task A) (w : W) db b w' db' :
  interp answer (p ≫= f) w db = (Ok b, w', db') <->
  exists a w1 d1, interp answer p w db = (Ok a, w1, d1) /\ interp answer (f a) w1 d1 = (Ok b, w', db').
Proof.
  unfold mbind, Task_bind. rewrite interp_bind. destruct (interp answer p w db) as [[[a|e] w1] d1].
  - split; [eauto|]. intros (a' & w2 & d2 & [= <- <- <-] & H). exact H.
  - split; [done|]. intros (a' & w2 & d2 & [=] & _).
Qed.

Lemma interp_call {W A} answer (m : M A) (w : W) db a w' db' :
  interp answer (call m) w db = (Ok a, w', db') <-> m db = (Ok a, db') /\ w' = w.
Proof.
  cbn. destruct (m db) as [[x|e] d]; cbn; (split; [intros H|intros [H ->]]); try discriminate;
    injection H; intros; subst; auto.
Qed.

(** ** The system *)

Definition no_lease (_ : string) : Prop := False.

Definition idle_chunk (id : string) (n : Z) (db : Db) : Prop :=
  forall a, In a (send_attempts db) -> sa_job_id a = id -> sa_chunk_order a = n -> standing a = false.

Section System.
Context (etag_from_str : string -> option ETagCondition).
Context (parse_uuid : string -> option string).
Context (parse_rfc3339 : string -> option OffsetDateTime).

Abbreviation op := (operation etag_from_str parse_uuid parse_rfc3339).

(** What the others do, seen from the holder of [lease]: any operation, but no
    claim under that lease and no send under it. *)
Inductive foreign (lease : string) (db : Db) : Db -> Prop :=
| foreign_call {A} (m : M A) : op False (fun l => l <> lease) m -> foreign lease db (m db).2
| foreign_send E id l n : l <> lease -> foreign lease db (begin_send_attempt E id l n db).2.

(** What a worker does: reads, operations that neither claim nor send, and sends
    under its lease of a chunk that has no standing attempt.  (A send under a
    lease that no longer holds the job is refused.) *)
Inductive worker_call (lease : string) (db : Db) : forall {A}, M A -> Prop :=
| worker_reads {A} (m : M A) : (forall d, (m d).2 = d) -> worker_call lease db m
| worker_operates {A} (m : M A) : op False no_lease m -> worker_call lease db m
| worker_sends E id n : (held id lease db -> idle_chunk id n db) ->
    worker_call lease db (begin_send_attempt E id lease n).

(** Every call the program makes is one, and it returns in a state of [Q]. *)
Fixpoint safe {A} (lease : string) (p : Proc A) (Q : A -> Db -> Prop) (db : Db) : Prop :=
  match p with
  | Return a => Q a db
  | Store m k => forall db', rtc (foreign lease) db db' ->
      worker_call lease db' m /\ safe lease (k (m db').1) Q (m db').2
  | Perform e k => forall x, safe lease (k x) Q db
  end.

(** [body] is what a worker runs for the job it claimed. *)
Context (body : TransferJob -> Proc unit).

Record World : Type := {
  w_db : Db;
  w_leases : list string;
  w_workers : list (string * Proc unit)
}.

Definition start : World := {| w_db := empty_db; w_leases := []; w_workers := [] |}.

(** One step of the system.  A lease is a fresh UUID ([Uuid::new_v4]); whatever
    is not an upload worker makes calls that neither claim nor send; the answer
    of an [Io] action is any; a worker may stop at any point, also right after
    its claim. *)
Inductive world_step (w : World) : World -> Prop :=
| world_other {A} (m : M A) :
    op False no_lease m ->
    world_step w {| w_db := (m (w_db w)).2; w_leases := w_leases w; w_workers := w_workers w |}
| world_claim E job db' :
    ~ In (new_v4 E 0) (w_leases w) -> claim_transfer E (w_db w) = (Ok (Some job), db') ->
    world_step w {| w_db := db'; w_leases := new_v4 E 0 :: w_leases w;
                    w_workers := (new_v4 E 0, body job) :: w_workers w |}
| world_claim_lost E :
    ~ In (new_v4 E 0) (w_leases w) ->
    world_step w {| w_db := (claim_transfer E (w_db w)).2; w_leases := new_v4 E 0 :: w_leases w;
                    w_workers := w_workers w |}
| world_store pre post lease {B} (m : M B) k :
    w_workers w = pre ++ (lease, Store m k) :: post ->
    world_step w {| w_db := (m (w_db w)).2; w_leases := w_leases w;
                    w_workers := pre ++ (lease, k (m (w_db w)).1) :: post |}
| world_perform pre post lease {B} (e : Io B) k x :
    w_workers w = pre ++ (lease, Perform e k) :: post ->
    world_step w {| w_db := w_db w; w_leases := w_leases w;
                    w_workers := pre ++ (lease, k x) :: post |}
| world_stop pre post worker :
    w_workers w = pre ++ worker :: post ->
    world_step w {| w_db := w_db w; w_leases := w_leases w; w_workers := pre ++ post |}.

(** ** The proof rule *)

Lemma safe_bind {A B} lease (p : Proc A) (f : A -> Proc B) Q db :
  safe lease p (fun a d => safe lease (f a) Q d) db -> safe lease (proc_bind f p) Q db.
Proof.
  revert db. induction p as [a|X m k IH|X e k IH]; intros db H; cbn in *; [done| |eauto].
  intros d Hd. destruct (H d Hd). eauto.
Qed.

Lemma safe_mono {A} lease (p : Proc A) (Q Q' : A -> Db -> Prop) db :
  (forall a d, Q a d -> Q' a d) -> safe lease p Q db -> safe lease p Q' db.
Proof.
  intros HQ. revert db. induction p as [a|X m k IH|X e k IH]; intros db H; cbn in *; [eauto| |eauto].
  intros d Hd. destruct (H d Hd). eauto.
Qed.

Definition any {A} (_ : A) (_ : Db) : Prop := True.

Lemma safe_rely {A} lease (p : Proc A) db db' :
  safe lease p any db -> rtc (foreign lease) db db' -> safe lease p any db'.
Proof.
  revert db db'. induction p as [a|X m k IH|X e k IH]; intros db db' H Hr; cbn in *; [done| |eauto].
  intros d Hd. apply H. by etrans.
Qed.

(** ** What a worker knows about its job *)

(** While [lease] holds job [id], each standing attempt of it is checkpointed,
    except those in [open], and the chunks in [free] have none. *)
Record owned (id lease : string) (open : string * Z * string -> Prop) (free : Z -> Prop) (db : Db)
    : Prop := {
  own_wf : transfers_wf db;
  own_recorded : checkpoints_recorded db;
  own_attempts : held id lease db -> forall a, In a (send_attempts db) -> sa_job_id a = id ->
    standing a = true ->
    (sa_state a = AttemptState.Checkpointed \/ open (attempt_key a)) /\ ~ free (sa_chunk_order a)
}.

Definition no_key (_ : string * Z * string) : Prop := False.
Definition no_order (_ : Z) : Prop := False.

Lemma owned_weaken id lease (open open' : string * Z * string -> Prop) (free free' : Z -> Prop) db :
  (forall k, open k -> open' k) -> (forall n, free' n -> free n) ->
  owned id lease open free db -> owned id lease open' free' db.
Proof.
  intros Ho Hf [Hwf Hrec Hown]. split; [done..|]. intros Hh a Ha Hj Hs.
  destruct (Hown Hh a Ha Hj Hs) as [[?|?] ?]; auto.
Qed.

Lemma held_unique id l l' db : transfers_wf db -> held id l db -> held id l' db -> l' = l.
Proof.
  intros Hwf (r & Hr & Hid & Hl) (r' & Hr' & Hid' & Hl').
  assert (r' = r) as -> by (apply (job_unique db); congruence || done). congruence.
Qed.

(** A send is refused, or its attempt is appended under a lease that holds the
    job. *)
Lemma begin_send_attempt_run E id l n db :
  (exists e, begin_send_attempt E id l n db = (Err e, db)) \/
  exists token, held id l db /\
    begin_send_attempt E id l n db =
      (Ok {| at_id := new_v4 E 0; at_token := token; at_started_at := now_at E 0 |},
       db <| send_attempts ::= (fun t => t ++ [new_attempt id n (new_v4 E 0) token (now_at E 0)]) |>).
Proof.
  unfold begin_send_attempt, transaction, mbind, M_bind, query.
  destruct (lease_valid id l (now_at E 1) db) eqn:El; cbn [ensure throw mret M_ret]; [|cbn; eauto].
  apply lease_valid_live in El as (r & Hr & Hid & Hl & _).
  unfold insert_attempt, mbind, M_bind, query. cbn.
  destruct (sql_exists (is_attempt id n (new_v4 E 0)) (send_attempts db)); cbn; [eauto|].
  destruct (sql_exists (has_id id) (transfer_jobs db)); cbn; [|eauto].
  right. eexists. split; [by exists r|]. reflexivity.
Qed.

Lemma owned_call {A} (m : M A) id lease open free db :
  op False (fun l => l <> lease) m -> owned id lease open free db -> owned id lease open free (m db).2.
Proof.
  intros Hm [Hwf Hrec Hown]. destruct (operation_calm _ _ _ m lease Hm db) as [Hl Ha]. split.
  - by apply (operation_sound _ _ _ m _ _ Hm db).
  - by apply (operation_checkpoints _ _ _ m _ _ Hm).
  - intros Hh a' Hin Hj Hs. destruct (Ha a' Hin Hs) as (a & Hin' & Hk & Hs' & Hc).
    rewrite <- Hk. injection Hk as Hk Hn _. rewrite <- Hn.
    destruct (Hown (Hl id Hh) a Hin' ltac:(congruence) Hs') as [[?|?] ?]; auto.
Qed.

Lemma owned_operates {A} (m : M A) id lease open free db :
  op False no_lease m -> owned id lease open free db -> owned id lease open free (m db).2.
Proof. intros Hm. apply owned_call. by apply (operation_mono _ _ _ m False False no_lease). Qed.

Lemma owned_send E id lease open free id' l n db :
  owned id lease open free db ->
  (l = lease -> id' = id -> open (id, n, new_v4 E 0) /\ ~ free n) ->
  owned id lease open free (begin_send_attempt E id' l n db).2.
Proof.
  intros [Hwf Hrec Hown] Hopen. split.
  - by apply begin_send_attempt_sound.
  - assert (op True any_lease (begin_send_attempt E id' l n)) as Hm by by apply op_begin_send_attempt.
    by apply (operation_checkpoints _ _ _ _ _ _ Hm).
  - destruct (begin_send_attempt_run E id' l n db) as [[e ->]|(token & Hh & ->)]; [done|]. cbn.
    intros Hh' a Ha Hj Hs. change (held id lease db) in Hh'.
    apply in_app_or in Ha as [Ha|[<-|[]]]; [by apply Hown|]. cbn in *. subst id'.
    destruct Hopen; [by apply (held_unique id lease l db)|done|]. auto.
Qed.

Lemma owned_foreign id lease open free db db' :
  foreign lease db db' -> owned id lease open free db -> owned id lease open free db'.
Proof. intros [A m Hm|E id' l n Hne] H; [by apply owned_call|]. apply owned_send; [done|congruence]. Qed.

Lemma owned_rely id lease open free db db' :
  rtc (foreign lease) db db' -> owned id lease open free db -> owned id lease open free db'.
Proof. induction 1; eauto using owned_foreign. Qed.

(** A chunk with no recorded location has no standing attempt. *)
Lemma owned_unpublished id lease n db :
  owned id lease no_key no_order db -> (checkpoint_location id n db).1 = Ok None ->
  owned id lease no_key (eq n) db.
Proof.
  intros [Hwf Hrec Hown] Hloc. split; [done..|]. intros Hh a Ha Hj Hs.
  destruct (Hown Hh a Ha Hj Hs) as [[Hc|[]] _]. split; [by left|]. intros ->.
  specialize (Hrec a Ha Hc). unfold recorded in Hrec. cbn in Hloc. injection Hloc as Hloc.
  apply fmap_None, sql_first_none in Hloc. subst id. congruence.
Qed.

(** The attempt [finish_send_attempt] accepts is checkpointed. *)
Lemma finish_send_attempt_ok E id lease n attempt l db db' :
  transfers_wf db -> finish_send_attempt E id lease n attempt l db = (Ok tt, db') ->
  forall a, In a (send_attempts db') -> attempt_key a = (id, n, attempt) ->
    sa_state a = AttemptState.Checkpointed.
Proof.
  intros Hwf H a Ha Hk. unfold finish_send_attempt in H. rewrite transaction_ok in H.
  apply bind_ok in H as (v & d1 & Hv & H). injection Hv as _ <-.
  apply bind_ok in H as ([] & d2 & He & H). apply ensure_ok in He as [_ ->].
  apply bind_ok in H as (c & d3 & Hu & H). injection Hu as Hn Hd.
  apply bind_ok in H as ([] & d4 & He & H). apply ensure_ok in He as [Hone ->].
  apply bind_ok in H as ([] & d5 & Hc & H). apply upsert_chunk_recorded in Hc as (_ & Hsa & _).
  injection H as <-. cbn in Ha. rewrite Hsa, <- Hd in Ha. cbn in Ha.
  apply In_sql_update in Ha as (b & Hb & ->). destruct (_ && _) eqn:Ep; [done|].
  assert (sql_exists (fun a => is_attempt id n attempt a && bool_decide (sa_state a = AttemptState.Sending))
            (send_attempts db) = true) as (x & Hx & Hp)%sql_exists_true.
  { apply not_false_is_true. rewrite <- sql_count_zero. lia. }
  assert (b = x) as ->; [|congruence].
  apply (NoDup_map_inj attempt_key (send_attempts db)); [apply Hwf|done..|]. rewrite Hk.
  unfold is_attempt in Hp. bool_hyps. unfold attempt_key. congruence.
Qed.

(** A checkpointed send leaves nothing open. *)
Lemma owned_finished E id lease n attempt l db db' :
  finish_send_attempt E id lease n attempt l db = (Ok tt, db') ->
  owned id lease (eq (id, n, attempt)) no_order db -> owned id lease no_key no_order db'.
Proof.
  intros H Hown.
  assert (owned id lease (eq (id, n, attempt)) no_order db') as [Hwf Hrec Hall].
  { replace db' with (finish_send_attempt E id lease n attempt l db).2 by by rewrite H.
    apply owned_operates; [apply op_finish_send_attempt|done]. }
  split; [done..|]. intros Hh a Ha Hj Hs. split; [left|by intros []].
  destruct (Hall Hh a Ha Hj Hs) as [[?|Hk] _]; [done|].
  apply (finish_send_attempt_ok E id lease n attempt l db db' (own_wf _ _ _ _ _ Hown) H a Ha). done.
Qed.
(** A fresh claim hands over a job with no send in doubt. *)
Lemma claim_owned E db job db' :
  transfers_wf db -> checkpoints_recorded db -> claim_transfer E db = (Ok (Some job), db') ->
  j_lease job = Some (new_v4 E 0) /\ owned (j_id job) (new_v4 E 0) no_key no_order db'.
Proof.
  intros Hwf Hrec H.
  assert (op False any_lease (claim_transfer E)) as Hop by by apply op_claim_transfer.
  pose proof (operation_sound _ _ _ _ _ _ Hop db Hwf) as [Hwf' _].
  pose proof (operation_checkpoints _ _ _ _ _ _ Hop db Hrec) as Hrec'. rewrite H in Hwf', Hrec'.
  rewrite claim_transfer_run in H by done.
  destruct (select_transfer (now_at E 3) _) as [r|] eqn:Es; [|done]. injection H as <- <-.
  apply select_transfer_spec in Es as (Hr & _ & Ham & _). split; [done|]. split; [done..|].
  intros _ a Ha Hj Hs. split; [left|by intros []]. cbn in Ha, Hj.
  pose proof (proj1 (ambiguous_false _ _) Ham a Ha Hj) as Hq.
  unfold standing in Hs. by destruct (sa_state a).
Qed.

(** ** The invariant of the system *)

Definition one_standing (db : Db) : Prop :=
  forall a b, In a (send_attempts db) -> In b (send_attempts db) ->
    standing a = true -> standing b = true ->
    sa_job_id a = sa_job_id b -> sa_chunk_order a = sa_chunk_order b -> a = b.

Lemma one_standing_calm lease db db' :
  calm lease db db' -> transfers_wf db' -> one_standing db -> one_standing db'.
Proof.
  intros [_ Hc] Hwf Hone a' b' Ha' Hb' Sa Sb Hj Hn.
  destruct (Hc a' Ha' Sa) as (a & Ha & Ka & Sa' & _), (Hc b' Hb' Sb) as (b & Hb & Kb & Sb' & _).
  apply (NoDup_map_inj attempt_key (send_attempts db')); [apply Hwf|done..|].
  rewrite <- Ka, <- Kb. f_equal. injection Ka as ? ? ?. injection Kb as ? ? ?.
  apply Hone; congruence || done.
Qed.

Lemma one_standing_send E id lease n db :
  (held id lease db -> idle_chunk id n db) -> one_standing db ->
  one_standing (begin_send_attempt E id lease n db).2.
Proof.
  intros Hidle Hone.
  destruct (begin_send_attempt_run E id lease n db) as [[e ->]|(token & Hh & ->)]; [done|].
  specialize (Hidle Hh). intros a b Ha Hb Sa Sb Hj Hn. cbn in Ha, Hb.
  apply in_app_or in Ha as [Ha|[<-|[]]]; apply in_app_or in Hb as [Hb|[<-|[]]]; [by apply Hone| | |done].
  - cbn in Hj, Hn. by rewrite (Hidle a Ha Hj Hn) in Sa.
  - cbn in Hj, Hn. by rewrite (Hidle b Hb (eq_sym Hj) (eq_sym Hn)) in Sb.
Qed.

(** The workers of [body] are safe once they own their job. *)
Context (body_safe : forall job lease db, j_lease job = Some lease ->
  owned (j_id job) lease no_key no_order db -> safe lease (body job) any db).

Definition workers_safe (w : World) (workers : list (string * Proc unit)) : Prop :=
  forall lease p, In (lease, p) workers -> In lease (w_leases w) /\ safe lease p any (w_db w).

Record world_inv (w : World) : Prop := {
  wi_wf : transfers_wf (w_db w);
  wi_recorded : checkpoints_recorded (w_db w);
  wi_standing : one_standing (w_db w);
  wi_leases : List.NoDup (map fst (w_workers w));
  wi_workers : workers_safe w (w_workers w)
}.

Lemma worker_fresh w lease :
  workers_safe w (w_workers w) -> ~ In lease (w_leases w) -> ~ In lease (map fst (w_workers w)).
Proof. intros Hs Hn ([l p] & <- & Hin)%in_map_iff. by destruct (Hs l p Hin). Qed.

(** What is foreign to all workers leaves them safe. *)
Lemma workers_rely w leases db' workers :
  workers_safe w workers -> (forall l, In l (w_leases w) -> In l leases) ->
  (forall l, In l (map fst workers) -> rtc (foreign l) (w_db w) db') ->
  forall lease p, In (lease, p) workers -> In lease leases /\ safe lease p any db'.
Proof.
  intros Hs Hl Hf lease p Hin. destruct (Hs lease p Hin). split; [auto|].
  eapply safe_rely; [done|]. apply Hf. by apply (in_map fst) in Hin.
Qed.

Lemma split_workers pre post (lease : string) (p : Proc unit) :
  List.NoDup (map fst (pre ++ (lease, p) :: post)) ->
  List.NoDup (lease :: map fst (pre ++ post)).
Proof.
  rewrite !map_app. cbn. intros H.
  apply (NoDup_Add (Add_app lease (map fst pre) (map fst post))) in H as [H Hn]. by constructor.
Qed.

(** A call that is no claim and no send, by anyone. *)
Lemma inv_operates {A} (m : M A) w :
  op False no_lease m -> world_inv w ->
  transfers_wf (m (w_db w)).2 /\ checkpoints_recorded (m (w_db w)).2 /\ one_standing (m (w_db w)).2.
Proof.
  intros Hm [Hwf Hrec Hone _ _].
  pose proof (operation_sound _ _ _ m _ _ Hm _ Hwf) as [Hwf' _]. split_and!; [done|..].
  - by apply (operation_checkpoints _ _ _ m _ _ Hm).
  - apply (one_standing_calm "" (w_db w)); [|done..]. apply (operation_calm etag_from_str parse_uuid parse_rfc3339).
    by apply (operation_mono _ _ _ m False False no_lease).
Qed.

Lemma no_lease_foreign {A} (m : M A) lease db : op False no_lease m -> foreign lease db (m db).2.
Proof. intros Hm. apply foreign_call. by apply (operation_mono _ _ _ m False False no_lease). Qed.

Lemma claim_facts E w :
  world_inv w ->
  transfers_wf (claim_transfer E (w_db w)).2 /\ checkpoints_recorded (claim_transfer E (w_db w)).2 /\
  one_standing (claim_transfer E (w_db w)).2.
Proof.
  intros [Hwf Hrec Hone _ _].
  assert (op False any_lease (claim_transfer E)) as Hop by by apply op_claim_transfer.
  pose proof (operation_sound _ _ _ _ _ _ Hop _ Hwf) as [Hwf' _]. split_and!; [done|..].
  - by apply (operation_checkpoints _ _ _ _ _ _ Hop).
  - apply (one_standing_calm (new_v4 E 0 +:+ "'") (w_db w)); [|done..].
    apply claim_transfer_calm. intros He. apply (f_equal String.length) in He.
    rewrite string_length_app in He. cbn in He. lia.
Qed.

Lemma claim_foreign E w lease :
  world_inv w -> ~ In (new_v4 E 0) (w_leases w) -> In lease (map fst (w_workers w)) ->
  foreign lease (w_db w) (claim_transfer E (w_db w)).2.
Proof.
  intros Hi Hn Hin. apply foreign_call, op_claim_transfer. intros <-.
  by apply (worker_fresh w (new_v4 E 0)); [apply Hi| |].
Qed.

(** .. and of a worker, under its lease. *)
Lemma worker_facts {A} (m : M A) lease w :
  worker_call lease (w_db w) m -> world_inv w ->
  (transfers_wf (m (w_db w)).2 /\ checkpoints_recorded (m (w_db w)).2 /\ one_standing (m (w_db w)).2) /\
  forall l, l <> lease -> rtc (foreign l) (w_db w) (m (w_db w)).2.
Proof.
  intros Hm Hi. destruct Hm as [A m Hread|A m Hop|E id n Hidle].
  - rewrite Hread. split; [by destruct Hi|]. intros; apply rtc_refl.
  - split; [by apply inv_operates|]. intros l _. by apply rtc_once, no_lease_foreign.
  - destruct Hi as [Hwf Hrec Hone _ _]. split; [split_and!|].
    + by apply begin_send_attempt_sound.
    + assert (op True any_lease (begin_send_attempt E id lease n)) as Hm by by apply op_begin_send_attempt.
      by apply (operation_checkpoints _ _ _ _ _ _ Hm).
    + by apply one_standing_send.
    + intros l Hl. by apply rtc_once, foreign_send.
Qed.

Lemma inv_store w pre post lease {B} (m : M B) k :
  w_workers w = pre ++ (lease, Store m k) :: post -> world_inv w ->
  world_inv {| w_db := (m (w_db w)).2; w_leases := w_leases w;
               w_workers := pre ++ (lease, k (m (w_db w)).1) :: post |}.
Proof.
  intros Hw Hi. pose proof Hi as [_ _ _ Hnd Hs]. rewrite Hw in Hnd, Hs.
  destruct (Hs lease (Store m k)) as [Hl Hsafe]; [apply in_elt|].
  destruct (Hsafe (w_db w) (rtc_refl _ _)) as [Hcall Hk].
  destruct (worker_facts m lease w Hcall Hi) as [(? & ? & ?) Hrely].
  split; cbn; [done..| |].
  - rewrite map_app in *. exact Hnd.
  - apply split_workers in Hnd. inversion_clear Hnd as [|? ? Hn _]. intros l p Hin.
    apply in_elt_inv in Hin as [[= -> ->]|Hin]; [done|].
    refine (workers_rely w (w_leases w) _ (pre ++ post) _ _ _ l p Hin); [|done|].
    + intros l' p' Hin'. apply Hs. apply in_app_iff in Hin' as []; apply in_app_iff; cbn; auto.
    + intros l' Hl'. apply Hrely. congruence.
Qed.

Lemma inv_workers w workers :
  (forall lease p, In (lease, p) workers -> In lease (w_leases w) /\ safe lease p any (w_db w)) ->
  List.NoDup (map fst workers) -> world_inv w ->
  world_inv {| w_db := w_db w; w_leases := w_leases w; w_workers := workers |}.
Proof. intros Hs Hnd []. by split. Qed.

Lemma inv_claim w E :
  ~ In (new_v4 E 0) (w_leases w) -> world_inv w ->
  world_inv {| w_db := (claim_transfer E (w_db w)).2; w_leases := new_v4 E 0 :: w_leases w;
               w_workers := w_workers w |}.
Proof.
  intros Hn Hi. destruct (claim_facts E w Hi) as (? & ? & ?). split; cbn; [done..|apply Hi|].
  intros l p Hin. refine (workers_rely w _ _ (w_workers w) _ _ _ l p Hin); [apply Hi|by right|].
  intros l' Hl'. by apply rtc_once, claim_foreign.
Qed.

Lemma world_step_inv w w' : world_step w w' -> world_inv w -> world_inv w'.
Proof.
  intros Hstep Hi. destruct Hstep as [A m Hm|E job db' Hn Hc|E Hn|pre post lease B m k Hw
    |pre post lease B e k x Hw|pre post worker Hw].
  - destruct (inv_operates m w Hm Hi) as (? & ? & ?). split; cbn; [done..|apply Hi|].
    intros l p Hin. refine (workers_rely w _ _ (w_workers w) _ _ _ l p Hin); [apply Hi|done|].
    intros l' _. by apply rtc_once, no_lease_foreign.
  - pose proof (inv_claim w E Hn Hi) as Hi'. rewrite Hc in Hi'. cbn [snd] in Hi'.
    apply (inv_workers _ ((new_v4 E 0, body job) :: w_workers w)) in Hi'; [done| |].
    + destruct (claim_owned E (w_db w) job db') as [Hl Ho]; [apply Hi..|done|].
      intros l p [[= <- <-]|Hin]; [split; [by left|by apply body_safe]|].
      by apply (wi_workers _ Hi').
    + cbn. constructor; [apply (worker_fresh w); [apply Hi|done]|apply Hi].
  - by apply inv_claim.
  - by apply inv_store.
  - apply inv_workers; [|rewrite map_app; destruct Hi as [_ _ _ Hnd _]; rewrite Hw, map_app in Hnd; exact Hnd|done].
    destruct Hi as [_ _ _ _ Hs]. rewrite Hw in Hs. intros l p Hin.
    apply in_elt_inv in Hin as [[= -> ->]|Hin].
    + destruct (Hs lease (Perform e k)) as [Hl Hsafe]; [apply in_elt|]. split; [done|apply Hsafe].
    + apply Hs. apply in_app_iff in Hin as []; apply in_app_iff; cbn; auto.
  - destruct worker as [lease p]. pose proof Hi as [_ _ _ Hnd Hs]. rewrite Hw in Hnd, Hs.
    apply inv_workers; [| |done].
    + intros l q Hin. apply Hs. apply in_app_iff in Hin as []; apply in_app_iff; cbn; auto.
    + apply split_workers in Hnd. by inversion_clear Hnd.
Qed.

Lemma start_inv : world_inv start.
Proof. split; cbn; [apply transfers_wf_empty|by intros ? []|by intros ? ? []|constructor|by intros ? ? []]. Qed.

Lemma world_invariant w : rtc world_step start w -> world_inv w.
Proof.
  generalize start, start_inv. intros w0 H0 H. induction H as [|x y z Hs _ IH]; [done|].
  apply IH. by apply (world_step_inv x).
Qed.

(** Every state of the database is one the store reaches by its operations. *)
Lemma world_step_store w w' :
  world_step w w' -> world_inv w ->
  rtc (step etag_from_str parse_uuid parse_rfc3339) (w_db w) (w_db w').
Proof.
  assert (forall A (m : M A) sends leases db, op sends leases m ->
            rtc (step etag_from_str parse_uuid parse_rfc3339) db (m db).2) as Hstep.
  { intros A m sends leases db Hm. apply rtc_once, step_call. by apply (operation_weaken _ _ _ m sends leases). }
  assert (forall E db, rtc (step etag_from_str parse_uuid parse_rfc3339) db (claim_transfer E db).2) as Hclaim.
  { intros E db. apply (Hstep _ _ False any_lease). by apply op_claim_transfer. }
  intros Hw Hi. destruct Hw as [A m Hm|E job db' Hn Hc|E Hn|pre post lease B m k Hw
    |pre post lease B e k x Hw|pre post worker Hw]; cbn; [by apply (Hstep _ _ False no_lease)| |done| |done..].
  - specialize (Hclaim E (w_db w)). by rewrite Hc in Hclaim.
  - destruct Hi as [_ _ _ _ Hs]. rewrite Hw in Hs.
    destruct (Hs lease (Store m k)) as [_ Hsafe]; [apply in_elt|].
    destruct (Hsafe (w_db w) (rtc_refl _ _)) as [Hcall _].
    destruct Hcall as [B m Hr|B m Hm|E id n _]; [by rewrite Hr|by apply (Hstep _ _ False no_lease)|].
    apply (Hstep _ _ True no_lease). by apply op_begin_send_attempt.
Qed.

Lemma world_reachable w :
  rtc world_step start w -> reachable etag_from_str parse_uuid parse_rfc3339 (w_db w).
Proof.
  intros H. unfold reachable. change empty_db with (w_db start).
  pose proof start_inv as H0. revert H H0. generalize start. intros w0 H H0.
  induction H as [|x y z Hs _ IH]; [done|]. etrans; [by apply world_step_store|].
  apply IH. by apply (world_step_inv x).
Qed.

(** A run of one worker is a run of the system. *)
Lemma interp_steps {W} (answer : forall B, Io B -> W -> B * W) p leases lease pre post s db :
  rtc world_step
    {| w_db := db; w_leases := leases; w_workers := pre ++ (lease, p) :: post |}
    {| w_db := (interp answer p s db).2; w_leases := leases;
       w_workers := pre ++ (lease, Return (interp answer p s db).1.1) :: post |}.
Proof.
  revert s db. induction p as [a|X m k IH|X e k IH]; intros s db; cbn; [done|..];
    (eapply rtc_l; [|apply IH]).
  - by apply (world_store {| w_db := db; w_leases := leases; w_workers := _ |} pre post lease m k).
  - by apply (world_perform {| w_db := db; w_leases := leases; w_workers := _ |} pre post lease e k).
Qed.
End System.
