(* ===== verification/Publish.v ===== *)
(** * The upload worker ([src/src/object_format/workflow.rs])

    [publish_transfer] moves a claimed job from local staging to Telegram:
    chunk after chunk (a chunk with a recorded location is not sent again),
    then the publication fence, the manifest document and the commit.
    [run_claimed] is the worker around it, which schedules the retry of a
    failed job; [reconcile_unknown_transfers] looks for the documents of sends
    whose outcome is unknown; [cleanup_completed_staging] removes staged files.

    The theorems: no interleaving of workers, requests and crashes ever leaves
    a chunk with two documents that may both be on Telegram; what an undisturbed
    run publishes; what reconciliation concludes from the chat history; and how
    long a failed job waits. *)

From stdpp Require Import pretty sorting.
From S2P Require Import Prelude Errors Manifest Schema Cleanup Transfers TransferSafety.
From S2P Require Import ManifestStore ManifestSafety MultipartStore Buckets ConnectionRemoval System.
From S2P Require Import Chunks Retry Attempts Programs.

(** ** Files *)

Definition join (dir name : string) : string := dir +:+ "/" +:+ name.

Definition MANIFEST_FILE_NAME : string := "manifest.json".
Definition STAGING_ROOT : string := "staging".

Fixpoint zeros (n : nat) : string :=
  match n with O => "" | S n => "0" +:+ zeros n end.

(** [format!("chunk-{order:08}.bin")] *)
Definition chunk_file_name (order : Z) : string :=
  let digits := pretty order in
  "chunk-" +:+ zeros (8 - String.length digits) +:+ digits +:+ ".bin".

(** [paths.sort(); paths.dedup()] *)
Definition path_le (a b : string) : Prop := text_le a b = true.

#[export] Instance path_le_dec : RelDecision path_le.
Proof. intros a b. unfold path_le. apply _. Defined.

Fixpoint dedup (l : list string) : list string :=
  match l with
  | a :: (b :: _) as l' => if bool_decide (a = b) then dedup l' else a :: dedup l'
  | _ => l
  end.

(** ** Failures *)

Definition FALLBACK_FLOOD_WAIT_SECONDS : Z := 60.

Definition is_explicit_flood_wait (error : ObjectFormatError.t) : bool :=
  match error with
  | ObjectFormatError.Telegram (TelegramTransportError.Rpc detail) => is_flood_wait_error detail
  | _ => false
  end.

Definition u64_saturating_pow (base exponent : Z) : Z := Z.min (base ^ exponent) U64_MAX.

(** How long a failed job waits, if it is to be retried, and what is shown. *)
Definition failure_plan (attempts : Z) (error : ObjectFormatError.t) : option Z * string :=
  match error with
  | ObjectFormatError.Telegram _ =>
      if is_explicit_flood_wait error then
        (Some (Z.max (match parse_flood_wait_seconds (ObjectFormatError.to_string error) with
                      | Some s => s
                      | None => FALLBACK_FLOOD_WAIT_SECONDS
                      end) 1),
         "Telegram requested a rate-limit pause; the transfer will resume automatically.")
      else
        (Some (Z.max (u64_saturating_pow 2 (Z.min attempts 8)) 1),
         "Telegram transfer failed; retry scheduled. Staged data retained.")
  | _ =>
      (None, "Transfer needs recovery: validate staged files and checksums, then retry or upload the source again.")
  end.

(** ** The operations of the worker *)

(** [results.sort_by_key(|c| c.order)] *)
Definition order_le (a b : ChunkRef) : Prop := order a <= order b.

#[export] Instance order_le_dec : RelDecision order_le.
Proof. intros a b. unfold order_le. apply _. Defined.

Definition located (chunk : ChunkRef) (location : TelegramLocation) : ChunkRef :=
  chunk <| telegram_peer_id := peer_id location |>
        <| telegram_message_id := message_id location |>
        <| telegram_document_id := document_id location |>.

Section Worker.
Context (etag_from_str : string -> option ETagCondition).
Context (parse_uuid : string -> option string) (uuid_error : string -> string).
Context (decrypt_chunk : Uuid -> Z -> list Byte.byte -> Result (list Byte.byte) ObjectFormatError.t).
Context (sha256_hex : list Byte.byte -> string).
Context (data_dir : string).

Definition staging_dir (operation_id : Uuid) : string := join (join data_dir STAGING_ROOT) operation_id.

Definition uuid_of (s : string) : Task Uuid :=
  require (parse_uuid s) (ObjectFormatError.InvalidPlan (uuid_error s)).

Definition ensure_account_quota_for_object (account_id bkt k : string) (len : Z) : M unit :=
  transaction (enforce_account_quota_in_transaction account_id bkt k len).

(** The quota check that precedes the upload, unless it is a multipart part. *)
Definition check_transfer_quota (job : TransferJob) (is_multipart_part : bool)
    (manifest : ObjectManifest) : Task unit :=
  if is_multipart_part then mret tt else
  checked ← try_call (ensure_account_quota_for_object (j_connection_id job) (bucket manifest)
                        (key manifest) (content_length manifest));
  match checked with
  | Ok _ => mret tt
  | Err (QuotaExceeded m) =>
      E ← perform Ambient;
      try_call (reject_transfer_for_quota E (j_id job) (metadata_text (QuotaExceeded m))) ;;
      fail (ObjectFormatError.Metadata (QuotaExceeded m))
  | Err error => fail (ObjectFormatError.Metadata error)
  end.

(** A send with its attempt recorded before and its outcome recorded after. *)
Definition send_recorded (job : TransferJob) (lease : string) (n : Z) (path : string)
    : Task TelegramLocation :=
  E ← perform Ambient;
  attempt ← call (begin_send_attempt E (j_id job) lease n);
  sent ← perform (UploadFile path (at_token attempt));
  E ← perform Ambient;
  match sent with
  | Ok location =>
      call (finish_send_attempt E (j_id job) lease n (at_id attempt) location) ;;
      mret location
  | Err error =>
      try_call (if is_explicit_flood_wait error
                then mark_send_attempt_retryable E (j_id job) lease n (at_id attempt)
                       "telegram_flood_wait" (ObjectFormatError.to_string error)
                else mark_send_attempt_unknown E (j_id job) lease n (at_id attempt)
                       "telegram_send" (ObjectFormatError.to_string error)) ;;
      fail error
  end.

(** The staged ciphertext decrypts to the bytes the manifest promises. *)
Definition verify_staged (object_id : Uuid) (chunk : ChunkRef) (path : string) : Task unit :=
  encrypted ← perform_ok (ReadFile path);
  plain ← (Return (decrypt_chunk object_id (order chunk) encrypted) : Task _);
  let actual := sha256_hex plain in
  if bool_decide (actual = checksum chunk) then mret tt
  else fail (ObjectFormatError.ChecksumMismatch ("chunk " +:+ pretty (order chunk))
               (checksum chunk) actual).

Definition publish_chunk (job : TransferJob) (object_id : Uuid) (dir lease : string)
    (chunk : ChunkRef) : Task ChunkRef :=
  if references_remote_payload chunk then
    if trim_is_empty (telegram_peer_id chunk) || (telegram_message_id chunk <=? 0)
    then fail (ObjectFormatError.InvalidPlan ("composed chunk " +:+ pretty (order chunk)
                 +:+ " has no durable Telegram location"))
    else mret chunk
  else
    known ← call (checkpoint_location (j_id job) (order chunk));
    location ← match known with
               | Some location => mret location
               | None =>
                   let path := join dir (chunk_file_name (order chunk)) in
                   verify_staged object_id chunk path ;;
                   send_recorded job lease (order chunk) path
               end;
    mret (located chunk location).

Fixpoint publish_chunks (job : TransferJob) (object_id : Uuid) (dir lease : string)
    (cs : list ChunkRef) : Task (list ChunkRef) :=
  match cs with
  | [] => mret []
  | c :: cs =>
      c' ← publish_chunk job object_id dir lease c;
      rest ← publish_chunks job object_id dir lease cs;
      mret (c' :: rest)
  end.

(** The document of the manifest; [u32::MAX] stands for its chunk order. *)
Definition publish_manifest (job : TransferJob) (lease path : string) : Task TelegramLocation :=
  known ← call (checkpoint_location (j_id job) U32_MAX);
  match known with
  | Some location => mret location
  | None => send_recorded job lease U32_MAX path
  end.

Definition commit_published (job : TransferJob) (operation : Uuid) (lease : string)
    (manifest : ObjectManifest) : Task unit :=
  E ← perform Ambient;
  part ← call (multipart_job (j_id job));
  match part with
  | Some (upload, number) =>
      if number =? 0 then
        call (commit_transfer_manifest etag_from_str E operation (j_id job) lease manifest) ;; mret tt
      else
        call (update_manifest manifest) ;;
        call (finish_part_job etag_from_str parse_uuid E (j_id job) lease upload number)
  | None =>
      call (commit_transfer_manifest etag_from_str E operation (j_id job) lease manifest) ;; mret tt
  end.

(** ** Removing staged files *)

Definition staged_paths (job : TransferJob) : list string :=
  let of_operation := match j_operation_id job ≫= parse_uuid with
                      | Some operation => [staging_dir operation]
                      | None => []
                      end in
  let of_object := match parse_uuid (j_object_id job) with
                   | Some obj => [staging_dir obj;
                                  join (join data_dir STAGING_ROOT) ("upload-" +:+ obj)]
                   | None => []
                   end in
  dedup (merge_sort path_le (of_operation ++ of_object)).

Fixpoint remove_paths (paths : list string) : Task unit :=
  match paths with
  | [] => mret tt
  | path :: paths =>
      removed ← perform (RemoveDirAll path);
      match removed with
      | Ok _ => remove_paths paths
      | Err (true, _) => remove_paths paths
      | Err (false, e) => fail e
      end
  end.

Fixpoint clean_jobs (jobs : list TransferJob) : Task unit :=
  match jobs with
  | [] => mret tt
  | job :: jobs =>
      remove_paths (staged_paths job) ;;
      call (mark_cleaned (j_id job)) ;;
      clean_jobs jobs
  end.

Definition cleanup_completed_staging : Task unit :=
  jobs ← call (transfers_for_local_cleanup 100);
  clean_jobs jobs.

(** ** Publishing a transfer *)

Definition publish_transfer (job : TransferJob) : Task unit :=
  obj ← uuid_of (j_object_id job);
  operation ← uuid_of (match j_operation_id job with Some o => o | None => "" end);
  manifest ← call (get_manifest obj);
  manifest ← require manifest (ObjectFormatError.InvalidPlan "staged manifest missing");
  part ← call (multipart_job (j_id job));
  let is_multipart_part := match part with Some (_, number) => 0 <? number | None => false end in
  check_transfer_quota job is_multipart_part manifest ;;
  let dir := staging_dir operation in
  let lease := match j_lease job with Some l => l | None => "" end in
  results ← publish_chunks job obj dir lease (chunks manifest);
  let manifest := manifest <| chunks := merge_sort order_le results |> in
  E ← perform Ambient;
  call (publication_fence E (j_id job) lease) ;;
  let manifest := manifest <| commit_state := CommitState.Committed |> in
  let path := join dir MANIFEST_FILE_NAME in
  perform_ok (WriteManifest path manifest) ;;
  location ← publish_manifest job lease path;
  let manifest := manifest <| telegram := location |> <| commit_state := CommitState.Staging |> in
  commit_published job operation lease manifest ;;
  settle cleanup_completed_staging ;;
  mret tt.

(** What the worker does with the job it claimed. *)
Definition run_claimed (job : TransferJob) : Proc unit :=
  proc_bind (fun result =>
    match result with
    | Ok _ => Return tt
    | Err error =>
        let lease := match j_lease job with Some l => l | None => "" end in
        let (delay, reason) := failure_plan (j_attempts job) error in
        Perform Ambient (fun E =>
          Store (transfer_failed E (j_id job) lease delay reason) (fun _ => Return tt))
    end) (publish_transfer job).

(** ** Reconciliation *)

(** [RemoteReconciliation]: a location, or [Absent]. *)
Inductive RemoteReconciliation : Type :=
| Match (location : TelegramLocation)
| Absent.

(** A document of the right name is the send in doubt if its bytes are. *)
Definition confirm_document (path : string) (message document : Z) : Task RemoteReconciliation :=
  remote ← perform_ok (DownloadDocument document);
  local ← perform_ok (ReadFile path);
  if negb (bool_decide (local = remote)) then
    fail (ObjectFormatError.InvalidPlan
            "Telegram reconciliation found a token collision with different bytes")
  else
    chat ← perform_ok StorageChatId;
    mret (Match {| peer_id := chat; message_id := message; document_id := Some (pretty document) |}).

Definition SCAN_LIMIT : nat := 1000.

Definition scan_end (reached_attempt_boundary : bool) (scanned : nat) : Task RemoteReconciliation :=
  if negb reached_attempt_boundary && (SCAN_LIMIT <=? scanned)%nat then
    fail (ObjectFormatError.InvalidPlan
            "Telegram reconciliation scan limit reached before the attempt boundary")
  else mret Absent.

(** The messages of the chat, newest first; the iterator ends after
    [SCAN_LIMIT] of them. *)
Fixpoint scan_messages (path token : string) (started_at : Z) (remaining scanned : nat)
    : Task RemoteReconciliation :=
  match remaining with
  | O => scan_end false scanned
  | S remaining =>
      message ← perform_ok NextMessage;
      match message with
      | None => scan_end false scanned
      | Some m =>
          if rm_date m <? started_at then scan_end true (S scanned)
          else
            match rm_document m with
            | Some (name, document) =>
                if bool_decide (name = Some token) then confirm_document path (rm_id m) document
                else scan_messages path token started_at remaining (S scanned)
            | None => scan_messages path token started_at remaining (S scanned)
            end
      end
  end.

Definition reconcile_remote_file (path token : string) (started_at : Z) : Task RemoteReconciliation :=
  perform_ok OpenTransport ;;
  scan_messages path token started_at SCAN_LIMIT 0.

Definition attempt_path (directory : string) (attempt : UnresolvedSendAttempt) : string :=
  if ua_order attempt =? U32_MAX then join directory MANIFEST_FILE_NAME
  else join directory (chunk_file_name (ua_order attempt)).

(** Whether every unresolved attempt of the job could be decided. *)
Fixpoint reconcile_attempts (job : TransferJob) (directory : string)
    (attempts : list UnresolvedSendAttempt) (all_resolved : bool) : Task bool :=
  match attempts with
  | [] => mret all_resolved
  | attempt :: attempts =>
      let path := attempt_path directory attempt in
      exists_ ← perform (PathExists path);
      if negb exists_ then reconcile_attempts job directory attempts false
      else
        found ← settle (reconcile_remote_file path (ua_token attempt) (ua_started_at attempt));
        E ← perform Ambient;
        match found with
        | Ok (Match location) =>
            call (resolve_send_attempt E attempt (Some location) None) ;;
            reconcile_attempts job directory attempts all_resolved
        | Ok Absent =>
            call (resolve_send_attempt E attempt None
              (Some "No matching document was found after scanning messages newer than the attempt")) ;;
            reconcile_attempts job directory attempts all_resolved
        | Err _ =>
            try_call (set_transfer_error E (j_id job)
              "Automatic reconciliation is waiting for Telegram connectivity") ;;
            reconcile_attempts job directory attempts false
        end
  end.

Definition requeue (job : TransferJob) (all_resolved : bool) : Task unit :=
  if all_resolved then
    E ← perform Ambient;
    call (queue_after_reconciliation E (j_id job)) ;; mret tt
  else mret tt.

Fixpoint reconcile_jobs (jobs : list TransferJob) : Task unit :=
  match jobs with
  | [] => mret tt
  | job :: jobs =>
      attempts ← call (unresolved_send_attempts (j_id job));
      match attempts with
      | [] => reconcile_jobs jobs
      | _ =>
          operation ← uuid_of (match j_operation_id job with Some o => o | None => "" end);
          all_resolved ← reconcile_attempts job (staging_dir operation) attempts true;
          requeue job all_resolved ;;
          reconcile_jobs jobs
      end
  end.

Definition reconcile_unknown_transfers : Task unit :=
  jobs ← call (transfers 100 0);
  reconcile_jobs (List.filter (fun job => bool_decide (j_state job = JobState.RecoveryRequired)) jobs).

(** What every pass of the worker does before it claims a job. *)
Definition prepare_pass : Task unit :=
  E ← perform Ambient;
  try_call (reclassify_flood_wait_attempts E FALLBACK_FLOOD_WAIT_SECONDS) ;;
  settle reconcile_unknown_transfers ;;
  mret tt.
End Worker.

(** ** The worker is safe *)

Section WorkerSafe.
Context (etag_from_str : string -> option ETagCondition).
Context (parse_uuid : string -> option string) (uuid_error : string -> string).
Context (parse_rfc3339 : string -> option OffsetDateTime).
Context (decrypt_chunk : Uuid -> Z -> list Byte.byte -> Result (list Byte.byte) ObjectFormatError.t).
Context (sha256_hex : list Byte.byte -> string).
Context (data_dir : string).

Abbreviation op := (operation etag_from_str parse_uuid parse_rfc3339).
Abbreviation safe := (safe etag_from_str parse_uuid parse_rfc3339).

Context (id lease : string).

Definition claimed (db : Db) : Prop := owned id lease no_key no_order db.

(** From a claimed job, the task makes worker calls only, and when it succeeds
    no send of the job is open. *)
Definition keeps {A} (p : Task A) : Prop :=
  forall db, claimed db -> safe lease p (fun r d => is_ok r = true -> claimed d) db.

(** The task makes worker calls only, whatever the state. *)
Definition harmless {A} (p : Proc A) : Prop := forall db, safe lease p any db.

Lemma safe_store open free {A B} (m : M B) (k : _ -> Proc A) Q db :
  owned id lease open free db ->
  (forall d, owned id lease open free d ->
     worker_call etag_from_str parse_uuid parse_rfc3339 lease d m /\
     safe lease (k (m d).1) Q (m d).2) ->
  safe lease (Store m k) Q db.
Proof. intros Ho H d Hd. apply H. by apply (owned_rely etag_from_str parse_uuid parse_rfc3339 _ _ _ _ db). Qed.

Lemma safe_task_bind {A B} (p : Task A) (f : A -> Task B) Q db :
  safe lease p (fun r d => match r with Ok a => safe lease (f a) Q d | Err e => Q (Err e) d end) db ->
  safe lease (p ≫= f) Q db.
Proof. intros H. apply safe_bind. eapply safe_mono; [|exact H]. by intros [a|e] d. Qed.

Lemma keeps_ret {A} (a : A) : keeps (mret a).
Proof. intros db H. by cbn. Qed.

Lemma keeps_fail {A} (e : ObjectFormatError.t) : keeps (fail (A:=A) e).
Proof. intros db H. by cbn. Qed.

Lemma keeps_result {A} (r : Result A ObjectFormatError.t) : keeps (Return r : Task A).
Proof. intros db H. by cbn. Qed.

Lemma keeps_require {A} (o : option A) e : keeps (require o e).
Proof. destruct o; [apply keeps_ret|apply keeps_fail]. Qed.

Lemma keeps_bind {A B} (p : Task A) (f : A -> Task B) :
  keeps p -> (forall a, keeps (f a)) -> keeps (p ≫= f).
Proof.
  intros Hp Hf db H. apply safe_task_bind. eapply safe_mono; [|by apply Hp].
  intros [a|e] d Hd; [apply Hf, Hd; done|done].
Qed.

Lemma keeps_perform {A} (e : Io A) : keeps (perform e).
Proof. intros db H x. by cbn. Qed.

Lemma keeps_perform_ok {A} (e : Io (Result A ObjectFormatError.t)) : keeps (perform_ok e).
Proof. intros db H x. by cbn. Qed.

(** The continuations of [call] and [try_call] only return. *)
Lemma keeps_store {A B} (m : M B) (g : _ -> Result A ObjectFormatError.t) :
  op False no_lease m \/ (forall d, (m d).2 = d) ->
  keeps (Store m (fun r => Return (g r))).
Proof.
  intros Hm db H. apply (safe_store no_key no_order); [exact H|]. intros d Hd. cbn. split.
  - destruct Hm; [by apply worker_operates|by apply worker_reads].
  - intros _. destruct Hm as [Hm|Hm]; [by apply (owned_operates etag_from_str parse_uuid parse_rfc3339 m)|unfold claimed; by rewrite Hm].
Qed.

Lemma keeps_call {A} (m : M A) : op False no_lease m \/ (forall d, (m d).2 = d) -> keeps (call m).
Proof. apply (keeps_store m). Qed.

Lemma keeps_try_call {A} (m : M A) : op False no_lease m \/ (forall d, (m d).2 = d) -> keeps (try_call m).
Proof. apply (keeps_store m). Qed.

Lemma harmless_bind {A B} (p : Proc A) (f : A -> Proc B) :
  harmless p -> (forall a, harmless (f a)) -> harmless (proc_bind f p).
Proof. intros Hp Hf db. apply safe_bind. eapply safe_mono; [|apply Hp]. intros a d _. apply Hf. Qed.

Lemma harmless_task_bind {A B} (p : Task A) (f : A -> Task B) :
  harmless p -> (forall a, harmless (f a)) -> harmless (p ≫= f).
Proof. intros Hp Hf. apply harmless_bind; [done|]. intros [a|e]; [apply Hf|by intros db]. Qed.

Lemma harmless_ret {A} (a : A) : harmless (Return a).
Proof. by intros db. Qed.

Lemma harmless_store {A B} (m : M B) (k : _ -> Proc A) :
  op False no_lease m \/ (forall d, (m d).2 = d) -> (forall r, harmless (k r)) -> harmless (Store m k).
Proof.
  intros Hm Hk db d _. split; [|apply Hk].
  destruct Hm; [by apply worker_operates|by apply worker_reads].
Qed.

Lemma harmless_perform {A B} (e : Io B) (k : B -> Proc A) :
  (forall x, harmless (k x)) -> harmless (Perform e k).
Proof. intros Hk db x. apply Hk. Qed.

Context (job : TransferJob) (Hid : j_id job = id).

Lemma rely open free db d :
  rtc (foreign etag_from_str parse_uuid parse_rfc3339 lease) db d ->
  owned id lease open free db -> owned id lease open free d.
Proof. apply owned_rely. Qed.

(** The others run before the next call. *)
Ltac others_run H d Hd :=
  let Hr := fresh in intros d Hr; pose proof (rely _ _ _ _ Hr H) as Hd; clear Hr.

(** A send of a chunk that has no standing attempt. *)
Lemma send_recorded_safe n path db :
  owned id lease no_key (eq n) db ->
  safe lease (send_recorded job lease n path) (fun r d => is_ok r = true -> claimed d) db.
Proof.
  intros Ho E. cbn -[begin_send_attempt]. rewrite Hid. others_run Ho d Hd. split.
  { apply worker_sends. intros Hh a Ha Hj Hn. apply not_true_is_false. intros Hs.
    destruct (own_attempts _ _ _ _ _ Hd Hh a Ha Hj Hs) as [_ Hf]. auto. }
  assert (owned id lease (eq (id, n, new_v4 E 0)) no_order (begin_send_attempt E id lease n d).2) as Hopen.
  { apply (owned_send etag_from_str parse_uuid parse_rfc3339); [|intros _ _; split; [done|by intros []]].
    by apply (owned_weaken id lease no_key _ (eq n)); [intros ? []|intros ? []|]. }
  destruct (begin_send_attempt_run E id lease n d) as [[e Hr]|(token & Hh & Hr)];
    rewrite Hr in *; cbn -[finish_send_attempt]; [done|].
  intros [location|error] E'; cbn -[finish_send_attempt]; others_run Hopen d2 Hd2.
  - split; [apply worker_operates, op_finish_send_attempt|].
    destruct (finish_send_attempt E' id lease n (new_v4 E 0) location d2) as [[[]|e] d3] eqn:Hf;
      cbn; [|done]. intros _. by apply (owned_finished etag_from_str parse_uuid parse_rfc3339 _ _ _ _ _ _ d2 d3 Hf).
  - split; [|done].
    apply worker_operates. destruct (is_explicit_flood_wait error);
      [apply op_mark_send_attempt_retryable|apply op_mark_send_attempt_unknown].
Qed.

Lemma checkpoint_location_safe {A} n (f : option TelegramLocation -> Task A) db :
  claimed db -> (forall l, keeps (f (Some l))) ->
  (forall d, owned id lease no_key (eq n) d ->
     safe lease (f None) (fun r d' => is_ok r = true -> claimed d') d) ->
  safe lease (known ← call (checkpoint_location id n); f known)
    (fun r d => is_ok r = true -> claimed d) db.
Proof.
  intros H Hsome Hnone. others_run H d Hd. split; [by apply worker_reads|]. cbn.
  destruct (tc_location <$> _) as [l|] eqn:El; [by apply Hsome|]. apply Hnone.
  apply owned_unpublished; [done|]. cbn. by rewrite El.
Qed.

Lemma verify_staged_safe obj chunk path (I : Db -> Prop) db :
  I db -> safe lease (verify_staged decrypt_chunk sha256_hex obj chunk path) (fun _ => I) db.
Proof.
  intros H [encrypted|e]; [|done]. cbn. destruct (decrypt_chunk obj (order chunk) encrypted); [|done].
  cbn. by destruct (bool_decide _).
Qed.

Lemma publish_chunk_keeps obj dir chunk :
  keeps (publish_chunk decrypt_chunk sha256_hex job obj dir lease chunk).
Proof.
  unfold publish_chunk. destruct (references_remote_payload chunk).
  { destruct (_ || _); [apply keeps_fail|apply keeps_ret]. }
  rewrite Hid. intros db H. apply checkpoint_location_safe; [done|..].
  - intros l. apply keeps_bind; intros; apply keeps_ret.
  - intros d Hd. apply safe_task_bind, safe_task_bind.
    eapply safe_mono; [|apply (verify_staged_safe _ _ _ _ _ Hd)]. intros [[]|e] d' Hd'; [|done].
    eapply safe_mono; [|apply (send_recorded_safe _ _ _ Hd')]. intros [l|e] d2 Hd2; [|done].
    intros _. by apply Hd2.
Qed.

Lemma publish_chunks_keeps obj dir cs :
  keeps (publish_chunks decrypt_chunk sha256_hex job obj dir lease cs).
Proof.
  induction cs as [|c cs IH]; cbn; [apply keeps_ret|].
  apply keeps_bind; [apply publish_chunk_keeps|intros c'].
  apply keeps_bind; [done|intros rest]. apply keeps_ret.
Qed.

Lemma publish_manifest_keeps path : keeps (publish_manifest job lease path).
Proof.
  unfold publish_manifest. rewrite Hid. intros db H.
  apply checkpoint_location_safe; [done|..].
  - intros l. apply keeps_ret.
  - intros d Hd. by apply send_recorded_safe.
Qed.

Lemma check_transfer_quota_keeps part manifest : keeps (check_transfer_quota job part manifest).
Proof.
  unfold check_transfer_quota. destruct part; [apply keeps_ret|]. apply keeps_bind.
  { apply keeps_try_call. right. intros d. symmetry.
    apply (steps_transaction eq), enforce_account_quota_reads. }
  intros [[]|e]; [apply keeps_ret|]. destruct e; try apply keeps_fail.
  apply keeps_bind; [apply keeps_perform|intros E].
  apply keeps_bind; [|intros; apply keeps_fail].
  apply keeps_try_call. left. apply op_reject_transfer_for_quota.
Qed.

Lemma commit_published_keeps operation manifest :
  keeps (commit_published etag_from_str parse_uuid job operation lease manifest).
Proof.
  unfold commit_published. apply keeps_bind; [apply keeps_perform|intros E].
  apply keeps_bind; [apply keeps_call; by right|]. intros [[upload number]|].
  - destruct (number =? 0).
    + apply keeps_bind; [|intros; apply keeps_ret]. apply keeps_call. left. apply op_commit_transfer.
    + apply keeps_bind; [|intros _]; apply keeps_call; left; [apply op_update_manifest|apply op_finish_part_job].
  - apply keeps_bind; [|intros; apply keeps_ret]. apply keeps_call. left. apply op_commit_transfer.
Qed.

Lemma remove_paths_harmless paths : harmless (remove_paths paths).
Proof.
  induction paths as [|path paths IH]; cbn; [apply harmless_ret|].
  apply harmless_perform. intros [[]|[[] e]]; [apply IH..|apply harmless_ret].
Qed.

Lemma clean_jobs_harmless jobs : harmless (clean_jobs parse_uuid data_dir jobs).
Proof.
  induction jobs as [|j jobs IH]; cbn [clean_jobs]; [apply harmless_ret|].
  apply harmless_task_bind; [apply remove_paths_harmless|intros _].
  apply harmless_task_bind; [|done].
  apply harmless_store; [left; apply op_mark_cleaned|intros; apply harmless_ret].
Qed.

Lemma cleanup_completed_staging_harmless :
  harmless (settle (cleanup_completed_staging parse_uuid data_dir)).
Proof.
  apply harmless_bind; [|intros; apply harmless_ret].
  apply harmless_task_bind; [|apply clean_jobs_harmless].
  apply harmless_store; [by right|intros; apply harmless_ret].
Qed.

Lemma keeps_then {A B} (p : Task A) (f : A -> Task B) Q db :
  keeps p -> (forall e d, Q (Err e) d) -> claimed db -> (forall a d, claimed d -> safe lease (f a) Q d) ->
  safe lease (p ≫= f) Q db.
Proof.
  intros Hp HQ H Hf. apply safe_task_bind. eapply safe_mono; [|by apply Hp].
  intros [a|e] d Hd; [apply Hf, Hd; done|apply HQ].
Qed.

Lemma get_manifest_keeps obj : keeps (call (get_manifest obj)).
Proof. apply keeps_call. right. intros d. symmetry. apply load_manifest_reads. Qed.

Lemma publication_fence_keeps E : keeps (call (publication_fence E id lease)).
Proof. apply keeps_call. left. apply op_publication_fence. Qed.

Lemma multipart_job_keeps : keeps (call (multipart_job id)).
Proof. apply keeps_call. by right. Qed.

Create HintDb keeps discriminated.
#[local] Hint Resolve keeps_ret keeps_require keeps_perform keeps_perform_ok publish_chunks_keeps
  publish_manifest_keeps check_transfer_quota_keeps commit_published_keeps get_manifest_keeps
  publication_fence_keeps multipart_job_keeps : keeps.

Lemma publish_transfer_safe db :
  j_lease job = Some lease -> claimed db ->
  safe lease (publish_transfer etag_from_str parse_uuid uuid_error decrypt_chunk sha256_hex data_dir job)
    any db.
Proof.
  intros Hl H. unfold publish_transfer, uuid_of. rewrite Hl, Hid. cbv zeta.
  do 12 (apply keeps_then; [auto with keeps|done|assumption|clear db H; intros ? db H]).
  apply harmless_task_bind; [apply cleanup_completed_staging_harmless|intros; apply harmless_ret].
Qed.

Lemma run_claimed_safe db :
  j_lease job = Some lease -> claimed db ->
  safe lease (run_claimed etag_from_str parse_uuid uuid_error decrypt_chunk sha256_hex data_dir job) any db.
Proof.
  intros Hl H. apply safe_bind. eapply safe_mono; [|by apply publish_transfer_safe].
  intros [[]|error] d _; [done|]. rewrite Hl. destruct (failure_plan _ error) as [delay reason].
  apply harmless_perform. intros E.
  apply harmless_store; [left; apply op_transfer_failed|intros; apply harmless_ret].
Qed.

Lemma harmless_call {A} (m : M A) : op False no_lease m \/ (forall d, (m d).2 = d) -> harmless (call m).
Proof. intros Hm. apply harmless_store; [done|]. intros; apply harmless_ret. Qed.

Lemma harmless_try_call {A} (m : M A) :
  op False no_lease m \/ (forall d, (m d).2 = d) -> harmless (try_call m).
Proof. intros Hm. apply harmless_store; [done|]. intros; apply harmless_ret. Qed.

Lemma harmless_io {A} (e : Io A) : harmless (perform e).
Proof. apply harmless_perform. intros; apply harmless_ret. Qed.

Lemma harmless_io_ok {A} (e : Io (Result A ObjectFormatError.t)) : harmless (perform_ok e).
Proof. apply harmless_perform. intros; apply harmless_ret. Qed.

Lemma harmless_settle {A} (p : Task A) : harmless p -> harmless (settle p).
Proof. intros Hp. apply harmless_bind; [done|]. intros; apply harmless_ret. Qed.

Lemma reconcile_remote_file_harmless path token started :
  harmless (reconcile_remote_file path token started).
Proof.
  apply harmless_task_bind; [apply harmless_io_ok|intros _]. generalize 0%nat.
  induction SCAN_LIMIT as [|r IH]; intros n; cbn [scan_messages].
  { unfold scan_end. destruct (_ && _); apply harmless_ret. }
  apply harmless_task_bind; [apply harmless_io_ok|]. intros [m|].
  2: { unfold scan_end. destruct (_ && _); apply harmless_ret. }
  destruct (rm_date m <? started); [apply harmless_ret|].
  destruct (rm_document m) as [[name doc]|]; [|apply IH]. destruct (bool_decide _); [|apply IH].
  apply harmless_task_bind; [apply harmless_io_ok|intros remote].
  apply harmless_task_bind; [apply harmless_io_ok|intros local].
  destruct (negb _); [apply harmless_ret|].
  apply harmless_task_bind; [apply harmless_io_ok|intros chat; apply harmless_ret].
Qed.

Lemma reconcile_attempts_harmless j dir attempts b : harmless (reconcile_attempts j dir attempts b).
Proof.
  revert b. induction attempts as [|a attempts IH]; intros b; cbn [reconcile_attempts]; [apply harmless_ret|].
  apply harmless_task_bind; [apply harmless_io|intros []]; cbn [negb]; [|apply IH].
  apply harmless_task_bind; [apply harmless_settle, reconcile_remote_file_harmless|intros found].
  apply harmless_task_bind; [apply harmless_io|intros E].
  destruct found as [[l|]|e]; (apply harmless_task_bind; [|intros; apply IH]).
  1,2: apply harmless_call; left; apply op_resolve_send_attempt.
  apply harmless_try_call. left. apply op_set_transfer_error.
Qed.

Lemma prepare_pass_harmless : harmless (prepare_pass parse_uuid uuid_error data_dir).
Proof.
  apply harmless_task_bind; [apply harmless_io|intros E].
  apply harmless_task_bind; [apply harmless_try_call; left; apply op_reclassify_flood_wait|intros _].
  apply harmless_task_bind; [apply harmless_settle|intros; apply harmless_ret].
  apply harmless_task_bind; [apply harmless_call; by right|intros jobs].
  induction (List.filter _ jobs) as [|j js IH]; cbn [reconcile_jobs]; [apply harmless_ret|].
  apply harmless_task_bind; [apply harmless_call; by right|intros [|a attempts]]; [done|].
  apply harmless_task_bind; [unfold uuid_of, require; case_match; apply harmless_ret|intros o].
  apply harmless_task_bind; [apply reconcile_attempts_harmless|intros b].
  apply harmless_task_bind; [|done]. destruct b; [|apply harmless_ret].
  apply harmless_task_bind; [apply harmless_io|intros E'].
  apply harmless_task_bind; [|intros; apply harmless_ret].
  apply harmless_call. left. apply op_queue_after_reconciliation.
Qed.
End WorkerSafe.

(** ** Reconciliation reads the chat history *)

(** The chat history is handed out message by message; [other] answers the
    remaining actions. *)
Definition with_history (other : forall B, Io B -> B) (B : Type) (e : Io B) (h : list RemoteMessage)
    : B * list RemoteMessage :=
  match e in Io B return B * list RemoteMessage with
  | NextMessage => (Ok (head h), tail h)
  | e => (other _ e, h)
  end.

Definition newest_first (h : list RemoteMessage) : Prop :=
  StronglySorted (fun a b => rm_date b <= rm_date a) h.

Section History.
Context (other : forall B, Io B -> B).
Context (path token : string) (started_at : Z).

Abbreviation run_task p h db := (interp (with_history other) p h db).1.1.

(** A message of the history that carries the document looked for. *)
Definition carries (m : RemoteMessage) (document : Z) : Prop :=
  started_at <= rm_date m /\ rm_document m = Some (Some token, document).

Definition genuine (h : list RemoteMessage) (l : TelegramLocation) : Prop :=
  exists m document bytes, In m h /\ carries m document /\
    other _ (DownloadDocument document) = Ok bytes /\ other _ (ReadFile path) = Ok bytes /\
    message_id l = rm_id m /\ document_id l = Some (pretty document).

(** What an answer of the scan says about the history. *)
Definition scan_sound (h : list RemoteMessage) (r : Result RemoteReconciliation ObjectFormatError.t)
    : Prop :=
  match r with
  | Ok (Match l) => genuine h l
  | Ok Absent => forall m document, In m h -> ~ carries m document
  | Err _ => True
  end.

Lemma confirm_document_sound h' m document h db :
  In m h' -> carries m document ->
  scan_sound h' (run_task (confirm_document path (rm_id m) document) h db).
Proof.
  intros Hm Hc. unfold confirm_document. cbn.
  destruct (other _ (DownloadDocument document)) as [remote|] eqn:Ed; cbn; [|done].
  destruct (other _ (ReadFile path)) as [local|] eqn:El; cbn; [|done].
  destruct (bool_decide_reflect (local = remote)) as [->|]; cbn; [|done].
  destruct (other _ StorageChatId) as [chat|]; cbn; [|done].
  exists m, document, remote. by split_and!.
Qed.

Lemma scan_messages_sound remaining scanned h db :
  (remaining + scanned = SCAN_LIMIT)%nat -> newest_first h ->
  scan_sound h (run_task (scan_messages path token started_at remaining scanned) h db).
Proof.
  revert scanned h. induction remaining as [|r IH]; intros scanned h Hn Hs; cbn [scan_messages].
  { unfold scan_end. assert (SCAN_LIMIT <=? scanned = true)%nat as -> by (apply Nat.leb_le; lia). done. }
  destruct h as [|m h]; cbn [mbind Task_bind perform_ok proc_bind interp with_history head tail fst snd].
  { unfold scan_end. destruct (negb _ && _); [done|by intros m doc []]. }
  apply StronglySorted_inv in Hs as [Hs Hold]. rewrite Forall_forall in Hold.
  destruct (Z.ltb_spec (rm_date m) started_at) as [Hb|Hb].
  - cbn. intros m' doc [<-|Hin%list_elem_of_In] [Hd _]; [lia|]. specialize (Hold m' Hin). lia.
  - assert (scan_sound h (run_task (scan_messages path token started_at r (S scanned)) h db)) as Hrest
      by (apply IH; [lia|done]).
    assert ((forall doc, ~ carries m doc) ->
      scan_sound (m :: h) (run_task (scan_messages path token started_at r (S scanned)) h db)) as Hskip.
    { intros Hm. destruct (run_task _ h db) as [[l|]|e]; [|intros m' doc [<-|Hin]; [apply Hm|by apply Hrest]|done].
      destruct Hrest as (m' & doc & bytes & Hin & Hrest). exists m', doc, bytes. split; [by right|done]. }
    destruct (rm_document m) as [[name doc]|] eqn:Ed; [|apply Hskip; intros doc [_ Hc]; congruence].
    destruct (bool_decide_reflect (name = Some token)) as [->|Hne].
    + apply confirm_document_sound; [by left|]. by split.
    + apply Hskip. intros doc' [_ Hc]. congruence.
Qed.

Lemma open_and_scan_sound limit h db :
  limit = SCAN_LIMIT -> newest_first h ->
  scan_sound h (run_task (perform_ok OpenTransport ;; scan_messages path token started_at limit 0) h db).
Proof.
  intros Hl Hs. unfold mbind, Task_bind. rewrite interp_bind. cbn [perform_ok interp with_history fst snd].
  destruct (other _ OpenTransport) as [[]|e]; [|done]. apply scan_messages_sound; [lia|done].
Qed.
End History.

(** ** Theorems *)



(** a failed transfer waits at least a second before it is retried, and it
    is retried exactly when Telegram failed it: as long as Telegram asked, or
    else twice as long after each attempt, up to 256 seconds. *)
Theorem failure_plan_delays attempts error (Ha : 0 <= attempts) :
  match (failure_plan attempts error).1 with
  | Some delay =>
      (exists e, error = ObjectFormatError.Telegram e) /\ 1 <= delay /\
      (is_explicit_flood_wait error = false -> delay = 2 ^ Z.min attempts 8 /\ delay <= 256) /\
      (forall s, is_explicit_flood_wait error = true ->
         parse_flood_wait_seconds (ObjectFormatError.to_string error) = Some s -> s <= delay)
  | None => forall e, error <> ObjectFormatError.Telegram e
  end.
Proof.
  destruct error as [| |e| | | | | | | | | | | | | |]; try done. unfold failure_plan.
  destruct (is_explicit_flood_wait _) eqn:Ef; cbn [fst].
  - split; [by eexists|]. split; [lia|]. split; [done|]. intros s _ ->. lia.
  - split; [by eexists|]. unfold u64_saturating_pow, U64_MAX.
    assert (2 ^ Z.min attempts 8 <= 2 ^ 8) by (apply Z.pow_le_mono_r; lia).
    pose proof (Z.pow_pos_nonneg 2 (Z.min attempts 8)). split_and!; [lia|intros _|done]. lia.
Qed.

(** ** Witnesses *)

(** Uploads succeed, files are there, and the clock advances. *)
Definition sample_answer (B : Type) (e : Io B) (w : nat) : B * nat :=
  match e in Io B return B * nat with
  | Ambient => (sample_env (30 + Z.of_nat w) ("attempt-" +:+ pretty (Z.of_nat w)), S w)
  | ReadFile _ => (Ok [], w)
  | WriteManifest _ _ => (Ok tt, w)
  | WriteFile _ _ => (Ok tt, w)
  | CreateDirAll _ => (Ok tt, w)
  | PathExists _ => (true, w)
  | RemoveDirAll _ => (Ok tt, w)
  | RemoveFile _ => (Ok tt, w)
  | WriteEvidence _ _ _ => (Ok tt, w)
  | ReadPinned _ => (false, w)
  | DeleteMessages _ => (Ok tt, w)
  | Disconnect => (tt, w)
  | UploadFile _ _ => (Ok {| peer_id := "p"; message_id := 100 + Z.of_nat w; document_id := None |}, w)
  | OpenTransport => (Ok tt, w)
  | StorageChatId => (Ok "p", w)
  | NextMessage => (Ok None, w)
  | DownloadDocument _ => (Ok [], w)
  | DownloadMessage _ _ _ => (Ok [], w)
  | OpenAccount _ => (Ok tt, w)
  | AccountChat _ => (Ok "q", w)
  | UploadReplica _ _ _ _ => (Ok {| peer_id := "q"; message_id := 200 + Z.of_nat w; document_id := None |}, w)
  | SetStorageChat _ => (tt, w)
  | ForgetAccount _ => (tt, w)
  | ReadDir _ => (Ok [], w)
  | Rename _ _ => (Ok tt, w)
  | FileLength _ => (Ok 0, w)
  | RandomBelow => (id, w)
  end.

Definition sample_decrypt (_ : Uuid) (_ : Z) (b : list Byte.byte)
  : Result (list Byte.byte) ObjectFormatError.t := Ok b.

Definition sample_worker : TransferJob -> Proc unit :=
  run_claimed no_etag Some (fun s => s) sample_decrypt (fun _ => "c0ffee") "data".

Abbreviation sample_world := (world_step no_etag Some epoch sample_worker).

(** An upload of three chunks, received and queued. *)
Definition sample_staged : Db :=
  run (queue_transfer (sample_env 11 "u") "o1" "o1" 3)
    (run (stage_manifest (sample_env 11 "u") OperationKind.Put (sample_manifest "o1" "b" "k"))
       (run (begin_transfer (sample_env 10 "u") "o1" "b" "k")
          (run (create_bucket epoch (sample_env 1 "u") sample_record) empty_db))).

Definition sample_claim : Result (option TransferJob) MetadataError * Db :=
  claim_transfer (sample_env 20 "lease-1") sample_staged.

Definition sample_claimed : TransferJob :=
  sample_job JobState.Uploading 1 20 (Some "lease-1").

Definition sample_published : Db := (interp sample_answer (sample_worker sample_claimed) 0%nat sample_claim.2).2.

Definition quiet_world (db : Db) : World := {| w_db := db; w_leases := []; w_workers := [] |}.

Lemma quiet_run {A} (m : M A) db :
  rtc sample_world start (quiet_world db) -> operation no_etag Some epoch False no_lease m ->
  rtc sample_world start (quiet_world (run m db)).
Proof. intros H Hm. eapply rtc_r; [exact H|]. exact (world_other _ _ _ _ (quiet_world db) m Hm). Qed.

Definition sample_end : World :=
  {| w_db := sample_published; w_leases := ["lease-1"]; w_workers := [("lease-1", Return tt)] |}.

Lemma sample_published_run : rtc sample_world start sample_end.
Proof.
  transitivity (quiet_world sample_staged).
  - unfold sample_staged. apply quiet_run; [|apply op_queue_transfer].
    apply quiet_run; [|apply op_stage_manifest]. apply quiet_run; [|apply op_begin_transfer].
    apply quiet_run; [|apply op_create_bucket]. apply rtc_refl.
  - eapply rtc_l.
    { apply (world_claim _ _ _ _ (quiet_world sample_staged) (sample_env 20 "lease-1") sample_claimed
               sample_claim.2); [by intros []|]. vm_compute. reflexivity. }
    exact (interp_steps no_etag Some epoch sample_worker sample_answer _ ["lease-1"] "lease-1" [] [] 0%nat _).
Qed.


(** A history with a newer unrelated message and the document of the attempt. *)
Definition sample_history : list RemoteMessage :=
  [{| rm_id := 8; rm_date := 40; rm_document := None |};
   {| rm_id := 7; rm_date := 31; rm_document := Some (Some "token-1", 77) |};
   {| rm_id := 6; rm_date := 10; rm_document := Some (Some "token-0", 76) |}].


Lemma failure_plan_delays_witness :
  (failure_plan 3 (ObjectFormatError.Telegram (TelegramTransportError.Rpc "timeout"))).1 = Some 8.
Proof.
  destruct (failure_plan_delays 3 (ObjectFormatError.Telegram (TelegramTransportError.Rpc "timeout")))
    as (_ & _ & H & _); [lia|]. vm_compute in H. destruct (H eq_refl) as [He _]. reflexivity.
Defined.
