(* ===== verification/Reception.v ===== *)
(** * Receiving uploads ([src/src/object_format/workflow.rs], [reception.rs])

    A request body is cut into chunks that are encrypted and staged on disk as
    they arrive ([enqueue_with_part]); when it is complete its manifest is
    staged in the metadata store and its job queued ([finalize_reception]).
    The browser's resumable uploads do the same chunk by chunk over several
    requests, with the progress kept in memory ([ReceptionState]).

    The hasher is the list of the bytes it was fed.  The theorems: what a
    successful reception staged is the body, cut at the chunk size, and reading
    it back through Telegram returns the body; a resumable reception only ever
    advances; and two defects of the resumable protocol. *)

From stdpp Require Import pretty.
From S2P Require Import Prelude Errors Manifest Schema Cleanup Transfers TransferSafety.
From S2P Require Import ManifestStore ManifestSafety MultipartStore Buckets ConnectionRemoval System.
From S2P Require Import Requests Chunks Attempts Programs Publish.

Definition CHECKSUM_ALGORITHM : string := "sha256".
Definition ENCRYPTION_FORMAT : string := "chacha20poly1305-v1".

(** Addition of [u64] in a release build. *)
Definition u64_wrap (x : Z) : Z := x mod (U64_MAX + 1).

(** [chunks], [hasher] and [offset]: what has been staged so far. *)
Record Staged : Type := {
  st_chunks : list ChunkRef;
  st_hashed : list byte;
  st_offset : Z
}.

Definition nothing_staged : Staged := {| st_chunks := []; st_hashed := []; st_offset := 0 |}.

(** [ManifestBuildArgs] *)
Record ManifestBuildArgs : Type := {
  ma_object_id : Uuid;
  ma_bucket : string;
  ma_key : string;
  ma_content_type : string;
  ma_expires_at : option OffsetDateTime;
  ma_commit_state : CommitState.t;
  ma_chunks : list ChunkRef;
  ma_whole_checksum : string
}.

Section Reception.
Context (encrypt_chunk : Uuid -> Z -> list byte -> Result (list byte) ObjectFormatError.t).
Context (sha256_hex : list byte -> string).
Context (encryption_key_id data_dir : string) (staging_budget chunk_size : Z).

Abbreviation staging_dir := (staging_dir data_dir).

(** ** Staging a chunk *)

Definition staged_chunk (object_id : Uuid) (n off : Z) (bytes : list byte) (peer : string) : ChunkRef :=
  {| order := n; offset := off; size := Z.of_nat (length bytes); checksum := sha256_hex bytes;
     telegram_peer_id := peer; telegram_message_id := 0;
     telegram_document_id := Some ("local:" +:+ object_id +:+ ":" +:+ pretty n);
     source_object_id := None; source_chunk_order := None; replicas := [] |}.

(** The chunk reaches the disk before the caller's state changes; the hasher is
    updated before the storage chat is asked for, so it keeps the bytes when
    that fails. *)
Definition stage_transfer_chunk (object_id : Uuid) (bytes : list byte) (st : Staged)
    : Proc (Result unit ObjectFormatError.t * Staged) :=
  let n := Z.of_nat (length (st_chunks st)) in
  proc_bind (fun written =>
    match written with
    | Err e => Return (Err e, st)
    | Ok _ =>
        let st := {| st_chunks := st_chunks st; st_hashed := st_hashed st ++ bytes;
                     st_offset := st_offset st |} in
        Perform StorageChatId (fun chat =>
          match chat with
          | Err e => Return (Err e, st)
          | Ok peer =>
              Return (Ok tt,
                {| st_chunks := st_chunks st ++ [staged_chunk object_id n (st_offset st) bytes peer];
                   st_hashed := st_hashed st;
                   st_offset := u64_wrap (st_offset st + Z.of_nat (length bytes)) |})
          end)
    end)
    (if U32_MAX <? n then fail (ObjectFormatError.InvalidPlan "too many chunks") else
     E ← perform Ambient;
     call (reserve_staging E object_id (Z.of_nat (length bytes) + 16) staging_budget) ;;
     encrypted ← (Return (encrypt_chunk object_id n bytes) : Task (list byte));
     perform_ok (WriteFile (join (staging_dir object_id) (chunk_file_name n)) encrypted)).

(** The same for a caller that gives up on the first error. *)
Definition stage_chunk (object_id : Uuid) (bytes : list byte) (st : Staged) : Task Staged :=
  proc_bind (fun '(r, st') => Return (match r with Ok _ => Ok st' | Err e => Err e end))
    (stage_transfer_chunk object_id bytes st).

(** ** The body of a request *)

(** The loop over the bytes of one frame: fill the pending chunk, stage it when
    it is full.  Every round takes at least one byte, as the pending chunk is
    never full, so the length of the frame bounds the rounds. *)
Fixpoint fill (fuel : nat) (object_id : Uuid) (remaining pending : list byte) (st : Staged)
    : Task (list byte * Staged) :=
  match fuel, remaining with
  | O, _ | _, [] => mret (pending, st)
  | S fuel, _ =>
      let n := Nat.min (length remaining) (Z.to_nat chunk_size - length pending) in
      let pending := pending ++ take n remaining in
      let remaining := drop n remaining in
      if (length pending =? Z.to_nat chunk_size)%nat then
        st ← stage_chunk object_id pending st;
        fill fuel object_id remaining [] st
      else fill fuel object_id remaining pending st
  end.

(** The frames of the body; [None] is a body that was interrupted. *)
Fixpoint receive_frames (object_id : Uuid) (frames : list (option (list byte))) (pending : list byte)
    (st : Staged) : Task (list byte * Staged) :=
  match frames with
  | [] => mret (pending, st)
  | None :: _ =>
      fail (ObjectFormatError.InvalidPlan "request body interrupted; resend source file")
  | Some bytes :: frames =>
      r ← fill (length bytes) object_id bytes pending st;
      receive_frames object_id frames r.1 r.2
  end.

Definition receive_body (object_id : Uuid) (frames : list (option (list byte))) : Task Staged :=
  r ← receive_frames object_id frames [] nothing_staged;
  if (length r.1 =? 0)%nat then mret r.2 else stage_chunk object_id r.1 r.2.

(** ** The manifest *)

Definition new_manifest (args : ManifestBuildArgs) : Proc ObjectManifest :=
  Perform Ambient (fun E => Perform StorageChatId (fun chat => Return
    {| schema_version := MANIFEST_SCHEMA_VERSION; commit_state := ma_commit_state args;
       object_id := ma_object_id args; bucket := ma_bucket args; key := ma_key args;
       version_id := Some (ma_object_id args);
       content_length := u64_wrap (total_size (ma_chunks args));
       content_type := ma_content_type args; user_metadata := ∅; tags := ∅;
       created_at := now_utc_at E 0; expires_at := ma_expires_at args;
       m_checksum := {| algorithm := CHECKSUM_ALGORITHM; whole_object := ma_whole_checksum args |};
       encryption := {| enabled := true; format := ENCRYPTION_FORMAT;
                        key_id := Some encryption_key_id |};
       telegram := {| peer_id := match chat with Ok p => p | Err _ => "" end; message_id := 0;
                      document_id := Some ("local:" +:+ ma_object_id args +:+ ":manifest") |};
       chunks := ma_chunks args |})).

Definition build {A} (p : Proc A) : Task A := proc_bind (fun a => Return (Ok a)) p.

Definition ensure_connection_not_removing : Task unit :=
  removing ← call connection_removal_in_progress;
  if removing : bool then fail (ObjectFormatError.InvalidPlan "Telegram connection removal is in progress")
  else mret tt.

Definition finalize_reception (id : string) (args : ManifestBuildArgs)
    (conditionals : option TransferWriteConditionals) : Task TransferJob :=
  ensure_connection_not_removing ;;
  manifest ← build (new_manifest args);
  perform_ok (WriteManifest (join (staging_dir (ma_object_id args)) MANIFEST_FILE_NAME) manifest) ;;
  E ← perform Ambient;
  operation ← call (stage_manifest E OperationKind.Put manifest);
  E ← perform Ambient;
  call (set_transfer_conditionals E id conditionals) ;;
  E ← perform Ambient;
  call (queue_transfer E id operation (Z.of_nat (length (chunks manifest)))) ;;
  job ← call (transfer id);
  require job (ObjectFormatError.InvalidPlan "queued transfer missing").

(** ** [enqueue_with_part] *)

Definition is_removed (r : Result unit (bool * ObjectFormatError.t)) : bool :=
  match r with Ok _ => true | Err (not_found, _) => not_found end.

Definition build_args (object_id : Uuid) (bkt k content_type : string)
    (expires_at : option OffsetDateTime) (st : Staged) : ManifestBuildArgs :=
  {| ma_object_id := object_id; ma_bucket := bkt; ma_key := k; ma_content_type := content_type;
     ma_expires_at := expires_at; ma_commit_state := CommitState.Staging;
     ma_chunks := st_chunks st; ma_whole_checksum := sha256_hex (st_hashed st) |}.

(** The part number, the session and the checksum the client promised. *)
Definition Part : Type := Uuid * Z * option string.

Definition receive (id : string) (object_id : Uuid) (bkt k content_type : string)
    (frames : list (option (list byte))) (part : option Part)
    (conditionals : option TransferWriteConditionals) (expires_at : option OffsetDateTime)
    : Task TransferJob :=
  match part with
  | Some (upload, number, checksum) => call (insert_multipart_job id upload number checksum)
  | None => mret tt
  end ;;
  perform_ok (CreateDirAll (staging_dir object_id)) ;;
  st ← receive_body object_id frames;
  let args := build_args object_id bkt k content_type expires_at st in
  manifest ← build (new_manifest args);
  match part with
  | Some (_, _, Some expected) =>
      if negb (bool_decide (expected = whole_object (m_checksum manifest))) then
        fail (ObjectFormatError.ChecksumMismatch "multipart part" expected
                (whole_object (m_checksum manifest)))
      else finalize_reception id args conditionals
  | _ => finalize_reception id args conditionals
  end.

Definition enqueue_with_part (bkt k content_type : string) (frames : list (option (list byte)))
    (part : option Part) (conditionals : option TransferWriteConditionals)
    (expires_at : option OffsetDateTime) : Task TransferJob :=
  ensure_connection_not_removing ;;
  E ← perform Ambient;
  let object_id := new_v4 E 0 in
  E ← perform Ambient;
  id ← call (begin_transfer E object_id bkt k);
  received ← settle (receive id object_id bkt k content_type frames part conditionals expires_at);
  match received with
  | Ok job => mret job
  | Err error =>
      removed ← perform (RemoveDirAll (staging_dir object_id));
      E ← perform Ambient;
      try_call (fail_reception E id (is_removed removed)
        "Upload reception failed before durable acceptance; resend the source file") ;;
      fail error
  end.

(** ** [enqueue_stream_with_expiry] *)

(** [metadata.active_connection_id()] *)
Definition active_connection_setting : M (option string) :=
  query (fun db => app_settings db !! "telegram_active_connection_id").

Definition ensure_account_quota_for_additional_bytes (account_id : string) (additional_bytes : Z)
    : M unit :=
  account ← query (fun db => telegram_accounts db !! account_id);
  match account with
  | None => mret tt
  | Some a =>
      used ← query (fun db => used_bytes db account_id);
      lift (enforce_quota (ta_label a) (Z.max 0 <$> ta_quota_bytes a) (Z.max used 0) additional_bytes)
  end.

Definition ensure_quota_available : Task unit :=
  account ← call active_connection_setting;
  match account with
  | Some account_id => call (ensure_account_quota_for_additional_bytes account_id 1)
  | None => mret tt
  end.

Definition enqueue_stream_with_expiry (bkt k content_type : string)
    (frames : list (option (list byte))) (conditionals : option TransferWriteConditionals)
    (expires_at : option OffsetDateTime) : Task TransferJob :=
  ensure_connection_not_removing ;;
  ensure_quota_available ;;
  enqueue_with_part bkt k content_type frames None conditionals expires_at.

(** ** Resumable receptions ([reception.rs]) *)

Record ReceptionStatus : Type := {
  rn_id : string;
  rn_received : Z;
  rn_chunk_size : Z
}.

Record ReceptionState : Type := {
  rs_object_id : Uuid;
  rs_bucket : string;
  rs_key : string;
  rs_content_type : string;
  rs_expires_at : option OffsetDateTime;
  rs_staged : Staged;
  rs_final_received : bool;
  rs_chunk_size : Z
}.

#[local] Instance eta_ReceptionState : Eta ReceptionState := fun r =>
  {| rs_object_id := rs_object_id r; rs_bucket := rs_bucket r; rs_key := rs_key r;
     rs_content_type := rs_content_type r; rs_expires_at := rs_expires_at r;
     rs_staged := rs_staged r; rs_final_received := rs_final_received r;
     rs_chunk_size := rs_chunk_size r |}.

Definition status_of (id : string) (s : ReceptionState) : ReceptionStatus :=
  {| rn_id := id; rn_received := st_offset (rs_staged s); rn_chunk_size := rs_chunk_size s |}.

(** The state of a new reception, which the service keeps under its object id. *)
Definition begin_reception_with_expiry (bkt k content_type : string)
    (expires_at : option OffsetDateTime) : Task (ReceptionStatus * ReceptionState) :=
  ensure_connection_not_removing ;;
  ensure_quota_available ;;
  E ← perform Ambient;
  let object_id := new_v4 E 0 in
  E ← perform Ambient;
  id ← call (begin_transfer E object_id bkt k);
  created ← settle (perform_ok (CreateDirAll (staging_dir object_id)));
  match created with
  | Err error =>
      E ← perform Ambient;
      try_call (fail_reception E id true "resumable reception staging could not be created") ;;
      fail error
  | Ok _ =>
      let state := {| rs_object_id := object_id; rs_bucket := bkt; rs_key := k;
                      rs_content_type := content_type; rs_expires_at := expires_at;
                      rs_staged := nothing_staged; rs_final_received := false;
                      rs_chunk_size := chunk_size |} in
      mret (status_of id state, state)
  end.

(** Under the lock of the reception: the answer and the state left behind. *)
Definition receive_locked (id : string) (off : Z) (bytes : list byte) (final_chunk : bool)
    (state : ReceptionState) : Proc (Result ReceptionStatus ObjectFormatError.t * ReceptionState) :=
  let len := Z.of_nat (length bytes) in
  let accept state :=
    let state := if final_chunk then state <| rs_final_received := true |> else state in
    Return (Ok (status_of id state), state) in
  if negb (st_offset (rs_staged state) =? off) then
    Return (Err (ObjectFormatError.ReceptionOffsetMismatch (st_offset (rs_staged state))), state)
  else if rs_chunk_size state <? len then Return (Err ObjectFormatError.ReceptionChunkTooLarge, state)
  else if negb final_chunk && negb (len =? rs_chunk_size state) then
    Return (Err ObjectFormatError.ReceptionChunkSizeMismatch, state)
  else if (length bytes =? 0)%nat then accept state
  else
    proc_bind (fun '(r, st) =>
      let state := state <| rs_staged := st |> in
      match r with
      | Err e => Return (Err e, state)
      | Ok _ => accept state
      end) (stage_transfer_chunk (rs_object_id state) bytes (rs_staged state)).

(** The checksum and the chunks are taken out of the state. *)
Definition finish_locked (id : string) (state : ReceptionState)
    : Proc (Result TransferJob ObjectFormatError.t * ReceptionState) :=
  if negb (rs_final_received state) then Return (Err ObjectFormatError.ReceptionNotComplete, state)
  else
    let args := build_args (rs_object_id state) (rs_bucket state) (rs_key state)
                  (rs_content_type state) (rs_expires_at state) (rs_staged state) in
    let state := state <| rs_staged := {| st_chunks := []; st_hashed := [];
                                          st_offset := st_offset (rs_staged state) |} |> in
    proc_bind (fun r => Return (r, state)) (finalize_reception id args None).

Definition cleanup_failed_reception (id : string) (object_id : Uuid) : Proc unit :=
  Perform (RemoveDirAll (staging_dir object_id)) (fun removed =>
    Perform Ambient (fun E =>
      Store (fail_reception E id (is_removed removed)
        "Upload reception failed before durable acceptance; resend the source file")
        (fun _ => Return tt))).

(** [receptions], a map from object ids to the states; [None] after a call:
    the entry was removed. *)
Definition Receptions : Type := gmap Uuid ReceptionState.

Section Requests.
Context (parse_uuid : string -> option string).

Definition parse_reception_id (id : string) : Result Uuid ObjectFormatError.t :=
  match parse_uuid id with Some u => Ok u | None => Err ObjectFormatError.ReceptionNotFound end.

Definition reception_state (id : string) (rs : Receptions)
    : Result (Uuid * ReceptionState) ObjectFormatError.t :=
  match parse_reception_id id with
  | Err e => Err e
  | Ok object_id =>
      match rs !! object_id with
      | Some state => Ok (object_id, state)
      | None => Err ObjectFormatError.ReceptionNotFound
      end
  end.

Definition reception_status (id : string) (rs : Receptions) : Task ReceptionStatus :=
  object_id ← (Return (parse_reception_id id) : Task Uuid);
  job ← call (transfer id);
  if negb (match job with Some j => bool_decide (j_state j = JobState.Receiving) | None => false end)
  then fail ObjectFormatError.ReceptionNotFound
  else
    match rs !! object_id with
    | Some state => mret (status_of id state)
    | None => fail ObjectFormatError.ReceptionNotFound
    end.

Definition receive_reception_chunk (id : string) (off : Z) (bytes : list byte) (final_chunk : bool)
    (rs : Receptions) : Proc (Result ReceptionStatus ObjectFormatError.t * Receptions) :=
  match reception_state id rs with
  | Err e => Return (Err e, rs)
  | Ok (object_id, state) =>
      proc_bind (fun '(r, state) => Return (r, <[object_id := state]> rs))
        (receive_locked id off bytes final_chunk state)
  end.

(** What follows the locked part of [finish_reception]. *)
Definition finish_unlocked (id : string) (object_id : Uuid)
    (r : Result TransferJob ObjectFormatError.t) : Proc unit :=
  match r with
  | Ok _ => Return tt
  | Err _ => cleanup_failed_reception id object_id
  end.

Definition finish_reception (id : string) (rs : Receptions)
    : Proc (Result TransferJob ObjectFormatError.t * Receptions) :=
  match reception_state id rs with
  | Err e => Return (Err e, rs)
  | Ok (object_id, state) =>
      if negb (rs_final_received state) then Return (Err ObjectFormatError.ReceptionNotComplete, rs)
      else
        proc_bind (fun '(r, _) =>
          proc_bind (fun _ => Return (r, delete object_id rs)) (finish_unlocked id object_id r))
          (finish_locked id state)
  end.

Definition abort_reception (id : string) (rs : Receptions)
    : Proc (Result unit ObjectFormatError.t * Receptions) :=
  match reception_state id rs with
  | Err e => Return (Err e, rs)
  | Ok (object_id, _) =>
      Perform (RemoveDirAll (staging_dir object_id)) (fun removed =>
        Perform Ambient (fun E =>
          Store (fail_reception E id (is_removed removed) "resumable reception cancelled")
            (fun r => Return (match r with Ok _ => Ok tt | Err e => Err (ObjectFormatError.Metadata e) end,
                              delete object_id rs))))
  end.
End Requests.
End Reception.

(** ** Names of staged files *)

Lemma append_inj_r (a b s : string) : a +:+ s = b +:+ s -> a = b.
Proof.
  revert b. induction a as [|c a IH]; intros [|d b] H; [done|..];
    [apply (f_equal String.length) in H; rewrite !string_length_app in H; cbn in H; lia..|].
  rewrite !append_cons in H. injection H as -> H. f_equal. by apply IH.
Qed.

Lemma append_assoc (a b c : string) : (a +:+ b) +:+ c = a +:+ (b +:+ c).
Proof. induction a as [|x a IH]; [done|]. rewrite !append_cons. by rewrite IH. Qed.

Lemma parse_zeros k s : parse_digits 0 (zeros k +:+ s) = parse_digits 0 s.
Proof. induction k as [|k IH]; [done|]. exact IH. Qed.

Lemma parse_pretty n : 0 <= n -> parse_digits 0 (pretty n) = Some n.
Proof.
  intros Hn. destruct n as [|p|p]; [done| |lia].
  change (pretty (Z.pos p)) with (pretty_N_go (N.pos p) ""). by rewrite parse_digits_pretty.
Qed.

Lemma chunk_file_name_inj n m : 0 <= n -> 0 <= m -> chunk_file_name n = chunk_file_name m -> n = m.
Proof.
  intros Hn Hm H. unfold chunk_file_name in H.
  assert (zeros (8 - String.length (pretty n)) +:+ pretty n =
          zeros (8 - String.length (pretty m)) +:+ pretty m) as He.
  { injection H as H. apply (append_inj_r _ _ ".bin"). by rewrite !append_assoc. }
  apply (f_equal (parse_digits 0)) in He. rewrite !parse_zeros, !parse_pretty in He by done. congruence.
Qed.

Lemma join_inj d a b : join d a = join d b -> a = b.
Proof. unfold join. intros H%(inj (String.append d)). by apply (inj (String.append "/")). Qed.

(** ** Runs with a disk *)

(** The files, and the number of actions so far; [oracle] answers each action,
    and a successful write is found on the disk. *)
Definition Disk : Type := nat * gmap string (list byte).

Definition disk_effect {B} (e : Io B) : B -> gmap string (list byte) -> gmap string (list byte) :=
  match e in Io B return B -> gmap string (list byte) -> gmap string (list byte) with
  | WriteFile path bytes => fun r fs => if is_ok r then <[path := bytes]> fs else fs
  | RemoveDirAll path => fun _ fs => filter (fun '(p, _) => strip_prefix (join path "") p = None) fs
  | _ => fun _ fs => fs
  end.

Definition disk_world (oracle : nat -> forall B, Io B -> B) (B : Type) (e : Io B) (w : Disk) : B * Disk :=
  let x := oracle w.1 B e in (x, (S w.1, disk_effect e x w.2)).

(** [body] cut at [n] bytes. *)
Fixpoint chop (fuel n : nat) (body : list byte) : list (list byte) :=
  match fuel, body with
  | O, _ | _, [] => []
  | S fuel, _ => take n body :: chop fuel n (drop n body)
  end.

Lemma chop_blocks n bs tail fuel :
  (0 < n)%nat -> Forall (fun b => length b = n) bs -> (length tail < n)%nat ->
  (length (concat bs ++ tail) <= fuel)%nat ->
  chop fuel n (concat bs ++ tail) = bs ++ (if (length tail =? 0)%nat then [] else [tail]).
Proof.
  intros Hn Hbs Ht. revert fuel. induction Hbs as [|b bs Hb _ IH]; intros fuel Hf; cbn [concat] in *.
  - destruct tail as [|x tail]; [by destruct fuel|]. cbn [app length] in *.
    destruct fuel as [|fuel]; [lia|]. cbn [chop Nat.eqb app]. rewrite take_ge, drop_ge by (cbn; lia).
    by destruct fuel.
  - rewrite <- app_assoc in *. rewrite length_app in Hf.
    destruct b as [|x b]; [cbn in *; lia|]. destruct fuel as [|fuel]; [cbn in *; lia|].
    change ((x :: b) ++ concat bs ++ tail) with (x :: (b ++ concat bs ++ tail)) at 1. cbn [chop].
    rewrite app_comm_cons, <- Hb, take_app_length, drop_app_length, Hb, IH; [done|]. cbn in Hf. lia.
Qed.

Section ReceptionFacts.
Context (encrypt_chunk : Uuid -> Z -> list byte -> Result (list byte) ObjectFormatError.t).
Context (sha256_hex : list byte -> string).
Context (encryption_key_id data_dir : string) (staging_budget chunk_size : Z).
Context (oracle : nat -> forall B, Io B -> B).

Abbreviation runs p w db := (interp (disk_world oracle) p w db).
Abbreviation stage_chunk := (stage_chunk encrypt_chunk sha256_hex data_dir staging_budget).

Definition chunk_path (obj : Uuid) (n : Z) : string :=
  join (staging_dir data_dir obj) (chunk_file_name n).

Lemma stage_chunk_ok obj bytes st w db st' w' db' :
  runs (stage_chunk obj bytes st) w db = (Ok st', w', db') ->
  let n := Z.of_nat (length (st_chunks st)) in
  exists peer ct, n <= U32_MAX /\ encrypt_chunk obj n bytes = Ok ct /\
    st' = {| st_chunks := st_chunks st ++ [staged_chunk sha256_hex obj n (st_offset st) bytes peer];
             st_hashed := st_hashed st ++ bytes;
             st_offset := u64_wrap (st_offset st + Z.of_nat (length bytes)) |} /\
    w'.2 = <[chunk_path obj n := ct]> w.2.
Proof.
  intros H n. unfold Reception.stage_chunk, stage_transfer_chunk in H. rewrite !interp_bind in H. fold n in H.
  destruct (Z.ltb_spec U32_MAX n) as [|Hn]; [done|].
  destruct (runs _ w db) as [[[[]|e] w1] d1] eqn:Ew; [|done].
  apply interp_ok in Ew as (E & w2 & d2 & HE & Ew).
  apply interp_ok in Ew as ([] & w3 & d3 & Hr & Ew). apply interp_call in Hr as [_ ->].
  apply interp_ok in Ew as (ct & w4 & d4 & Hc & Ew). cbn in Hc. injection Hc as Hc <- <-.
  cbn in HE. injection HE as _ <- _. cbn in Ew, H.
  destruct (oracle _ _ StorageChatId) as [peer|e]; [|done]. cbn in H. injection H as <- <- _.
  injection Ew as Hw <- _. exists peer, ct. split_and!; try done. cbn. by rewrite Hw.
Qed.

(** The blocks [bs] are staged: in the state and on the disk. *)
Record stages (obj : Uuid) (bs : list (list byte)) (st : Staged) (fs : gmap string (list byte))
    : Prop := {
  sg_hashed : st_hashed st = concat bs;
  sg_offset : st_offset st = u64_wrap (Z.of_nat (length (concat bs)));
  sg_count : length (st_chunks st) = length bs;
  sg_each : forall i b, bs !! i = Some b -> Z.of_nat i <= U32_MAX /\ exists peer ct,
    st_chunks st !! i = Some (staged_chunk sha256_hex obj (Z.of_nat i)
                                (u64_wrap (Z.of_nat (length (concat (take i bs))))) b peer) /\
    encrypt_chunk obj (Z.of_nat i) b = Ok ct /\ fs !! chunk_path obj (Z.of_nat i) = Some ct
}.

Lemma stages_nothing obj fs : stages obj [] nothing_staged fs.
Proof. by split. Qed.

Lemma chunk_path_inj obj n m : 0 <= n -> 0 <= m -> chunk_path obj n = chunk_path obj m -> n = m.
Proof. intros Hn Hm H%join_inj. by apply chunk_file_name_inj. Qed.

Lemma stage_chunk_stages obj bytes bs st w db st' w' db' :
  runs (stage_chunk obj bytes st) w db = (Ok st', w', db') ->
  stages obj bs st w.2 -> stages obj (bs ++ [bytes]) st' w'.2.
Proof.
  intros H [Hh Ho Hc He]. apply stage_chunk_ok in H as (peer & ct & Hn & Hct & -> & ->).
  rewrite Hc in *. split; cbn.
  - by rewrite concat_app, Hh, concat_cons, app_nil_r.
  - rewrite Ho, concat_app, length_app. cbn. rewrite app_nil_r. unfold u64_wrap.
    rewrite Zplus_mod_idemp_l. f_equal. lia.
  - rewrite !length_app. cbn. lia.
  - intros i b Hi. apply lookup_app_Some in Hi as [Hi|[Hge Hi]].
    + pose proof (lookup_lt_Some _ _ _ Hi) as Hlt.
      destruct (He i b Hi) as (Hu & p & c & Hci & Hec & Hfs). split; [done|]. exists p, c.
      rewrite take_app_le by lia. split_and!; [by apply lookup_app_l_Some|done|].
      rewrite lookup_insert_ne; [done|]. intros Hp. apply chunk_path_inj in Hp; lia.
    + assert (i = length bs) as -> by (apply lookup_lt_Some in Hi; cbn in Hi; lia).
      rewrite Nat.sub_diag in Hi. injection Hi as <-. split; [done|]. exists peer, ct.
      rewrite take_app_length, <- Ho. split_and!; [|done|by rewrite lookup_insert_eq].
      rewrite <- Hc. by rewrite list_lookup_middle.
Qed.

Context (Hsize : 0 < chunk_size).
Abbreviation full := (fun b : list byte => length b = Z.to_nat chunk_size).

Lemma fill_stages fuel obj remaining pending bs st w db pending' st' w' db' :
  runs (fill encrypt_chunk sha256_hex data_dir staging_budget chunk_size fuel obj remaining pending st)
    w db = (Ok (pending', st'), w', db') ->
  (length remaining <= fuel)%nat -> (length pending < Z.to_nat chunk_size)%nat ->
  Forall full bs -> stages obj bs st w.2 ->
  exists bs', Forall full (bs ++ bs') /\ stages obj (bs ++ bs') st' w'.2 /\
    concat bs' ++ pending' = pending ++ remaining /\ (length pending' < Z.to_nat chunk_size)%nat.
Proof.
  revert remaining pending bs st w db. induction fuel as [|fuel IH];
    intros remaining pending bs st w db H Hf Hp Hbs Hst.
  { destruct remaining; [|cbn in Hf; lia]. cbn in H. injection H as <- <- <- _.
    exists []. rewrite !app_nil_r. by split_and!. }
  destruct remaining as [|x remaining].
  { cbn in H. injection H as <- <- <- _. exists []. rewrite !app_nil_r. by split_and!. }
  cbn [fill] in H.
  remember (Nat.min (length (x :: remaining)) (Z.to_nat chunk_size - length pending)) as n eqn:Edef.
  cbn [length] in Edef.
  assert (length (take n (x :: remaining)) = n) as Hn by (rewrite length_take; cbn; lia).
  assert (length (drop n (x :: remaining)) <= fuel)%nat as Hd by (rewrite length_drop; cbn [length] in *; lia).
  destruct (Nat.eqb_spec (length (pending ++ take n (x :: remaining))) (Z.to_nat chunk_size)) as [Hfull|Hnot].
  - apply interp_ok in H as (st1 & w1 & d1 & Hs & H).
    eapply (stage_chunk_stages _ _ bs) in Hs; [|done].
    eapply (IH _ _ (bs ++ [pending ++ take n (x :: remaining)])) in H as (bs' & Hb & Hs' & Hc & Hp');
      [|done|cbn; lia|apply Forall_app; by repeat constructor|done].
    exists ((pending ++ take n (x :: remaining)) :: bs'). rewrite <- app_assoc in *. split_and!; try done.
    cbn [concat]. rewrite <- !app_assoc, Hc. cbn [app]. by rewrite take_drop.
  - eapply (IH _ _ bs) in H as (bs' & Hb & Hs' & Hc & Hp'); [|done| |done|done].
    + exists bs'. split_and!; try done. rewrite Hc, <- app_assoc. by rewrite take_drop.
    + rewrite length_app in *. lia.
Qed.

Lemma receive_frames_stages obj frames pending bs st w db pending' st' w' db' :
  runs (receive_frames encrypt_chunk sha256_hex data_dir staging_budget chunk_size obj frames pending st)
    w db = (Ok (pending', st'), w', db') ->
  (length pending < Z.to_nat chunk_size)%nat -> Forall full bs -> stages obj bs st w.2 ->
  exists pieces bs', frames = map Some pieces /\ Forall full (bs ++ bs') /\
    stages obj (bs ++ bs') st' w'.2 /\
    concat bs' ++ pending' = pending ++ concat pieces /\ (length pending' < Z.to_nat chunk_size)%nat.
Proof.
  revert pending bs st w db. induction frames as [|[bytes|] frames IH];
    intros pending bs st w db H Hp Hbs Hst; cbn [receive_frames] in H; [|..|done].
  - cbn in H. injection H as <- <- <- _. exists [], []. rewrite !app_nil_r. by split_and!.
  - apply interp_ok in H as ([p1 st1] & w1 & d1 & Hf & H).
    eapply fill_stages in Hf as (bs1 & Hb1 & Hs1 & Hc1 & Hp1); [|done..].
    eapply IH in H as (pieces & bs2 & -> & Hb2 & Hs2 & Hc2 & Hp2); [|done..].
    exists (bytes :: pieces), (bs1 ++ bs2). rewrite (assoc_L (++)). split_and!; try done.
    cbn [concat fst snd] in *. by rewrite concat_app, <- app_assoc, Hc2, app_assoc, Hc1, <- app_assoc.
Qed.

(** The body is staged, cut at the chunk size. *)
Lemma receive_body_stages obj frames w db st' w' db' :
  runs (receive_body encrypt_chunk sha256_hex data_dir staging_budget chunk_size obj frames) w db
    = (Ok st', w', db') ->
  exists pieces, frames = map Some pieces /\
    stages obj (chop (length (concat pieces)) (Z.to_nat chunk_size) (concat pieces)) st' w'.2.
Proof.
  intros H. apply interp_ok in H as ([p st] & w1 & d1 & Hf & H).
  eapply (receive_frames_stages _ _ _ []) in Hf as (pieces & bs & -> & Hb & Hs & Hc & Hp);
    [|cbn; lia|constructor|apply stages_nothing].
  cbn [app] in *. exists pieces. split; [done|]. rewrite <- Hc.
  rewrite chop_blocks by (lia || done). cbn [fst snd] in H.
  destruct (Nat.eqb_spec (length p) 0) as [Hz|Hz].
  - cbn in H. injection H as <- <- _. by rewrite app_nil_r.
  - by eapply stage_chunk_stages.
Qed.

(** ** What finalizing leaves in the store *)

(** The manifest [new_manifest] builds, up to its time stamp and chat. *)
Record built (args : ManifestBuildArgs) (m : ObjectManifest) : Prop := {
  bt_object : object_id m = ma_object_id args;
  bt_bucket : bucket m = ma_bucket args;
  bt_key : key m = ma_key args;
  bt_length : content_length m = u64_wrap (total_size (ma_chunks args));
  bt_checksum : m_checksum m = {| algorithm := CHECKSUM_ALGORITHM; whole_object := ma_whole_checksum args |};
  bt_encryption : enabled (encryption m) = true;
  bt_expires : expires_at m = ma_expires_at args;
  bt_chunks : chunks m = ma_chunks args
}.

Lemma stage_manifest_ok E m db operation db' :
  stage_manifest E OperationKind.Put m db = (Ok operation, db') ->
  operation = object_id m /\ validate m = Ok tt /\
  (om_manifest <$> object_manifests db' !! object_id m) =
    Some (manifest_json_with_state m CommitState.Staging).
Proof.
  unfold stage_manifest. destruct (validate m) as [[]|e]; [|done].
  unfold ensure_recovery_marker, upsert_marker, transaction, modify, mbind, M_bind, mret, M_ret. cbn.
  intros [= <- <-]. split_and!; [done..|]. cbn. by rewrite lookup_insert_eq.
Qed.

(** An [UPDATE] of one job that succeeded changed a job. *)
Lemma update_one_job p f e db db' :
  (n ← update_jobs p f; ensure (n =? 1) e) db = (Ok tt, db') ->
  object_manifests db' = object_manifests db /\
  exists r, In r (transfer_jobs db) /\ p db r = true /\ In (f r) (transfer_jobs db').
Proof.
  intros H. apply bind_ok in H as (n & d & Hu & H). apply ensure_ok in H as [Hn ->].
  injection Hu as Hn' <-. split; [done|].
  destruct (sql_exists (p db) (transfer_jobs db)) eqn:Ex.
  - apply sql_exists_true in Ex as (r & Hr & Hp). exists r. split_and!; [done..|].
    apply In_sql_update. exists r. by rewrite Hp.
  - apply sql_count_zero in Ex. lia.
Qed.

Lemma finalize_reception_ok id args conditionals w db job w' db' :
  runs (finalize_reception encryption_key_id data_dir id args conditionals) w db = (Ok job, w', db') ->
  w'.2 = w.2 /\ j_id job = id /\ exists m, built args m /\ validate m = Ok tt /\
  (om_manifest <$> object_manifests db' !! ma_object_id args) =
    Some (manifest_json_with_state m CommitState.Staging) /\
  exists r, In r (transfer_jobs db') /\ tj_id r = id /\ tj_state r = JobState.Queued /\
    tj_operation_id r = Some (ma_object_id args).
Proof.
  intros H. apply interp_ok in H as ([] & w1 & d1 & H1 & H).
  assert (w1 = w /\ d1 = db) as [-> ->].
  { apply interp_ok in H1 as (b & w2 & d2 & H2 & H1). apply interp_call in H2 as [H2 ->].
    injection H2 as _ <-. destruct b; cbn in H1; [done|]. by injection H1 as <- <-. }
  apply interp_ok in H as (m & w2 & d2 & Hm & H). cbn in Hm. injection Hm as Hm <- <-.
  apply interp_ok in H as ([] & w3 & d3 & Hw & H). cbn in Hw. injection Hw as _ <- <-.
  apply interp_ok in H as (E & w4 & d4 & HE & H). cbn in HE. injection HE as _ <- <-.
  apply interp_ok in H as (operation & w5 & d5 & Hs & H). apply interp_call in Hs as [Hs ->].
  apply interp_ok in H as (E' & w6 & d6 & HE' & H). cbn in HE'. injection HE' as _ <- <-.
  apply interp_ok in H as ([] & w7 & d7 & Hc & H). apply interp_call in Hc as [Hc ->].
  apply interp_ok in H as (E2 & w8 & d8 & HE2 & H). cbn in HE2. injection HE2 as _ <- <-.
  apply interp_ok in H as ([] & w9 & d9 & Hq & H). apply interp_call in Hq as [Hq ->].
  apply interp_ok in H as (j & wa & da & Hj & H). apply interp_call in Hj as [Hj ->].
  destruct j as [j|]; [|done]. cbn in H. injection H as <- <- <-.
  cbn in Hj. injection Hj as Hj <-. split; [done|].
  apply stage_manifest_ok in Hs as (-> & Hv & Hom). apply update_one_job in Hc as (Hom7 & _).
  apply update_one_job in Hq as (Hom9 & r & Hr & Hp & Hin).
  split.
  { destruct (find_job id d9) as [row|] eqn:Ef; [|done]. injection Hj as <-.
    apply sql_first_where in Ef as [_ Hid]. unfold has_id in Hid. by bool_hyps. }
  exists m. split; [by subst m; split|]. split; [done|].
  assert (object_id m = ma_object_id args) as Ho by by subst m. rewrite <- Ho. split.
  - by rewrite Hom9, Hom7.
  - eexists. split; [exact Hin|]. unfold has_id in Hp. bool_hyps. by split_and!.
Qed.

(** ** What an accepted upload left behind *)

(** The manifest [m] and the files [fs] hold [body], cut at the chunk size. *)
Record holds_body (m : ObjectManifest) (body : list byte) (fs : gmap string (list byte)) : Prop := {
  hb_valid : validate m = Ok tt;
  hb_encrypted : enabled (encryption m) = true;
  hb_checksum : whole_object (m_checksum m) = sha256_hex body;
  hb_length : content_length m = u64_wrap (Z.of_nat (length body));
  hb_count : length (chunks m) = length (chop (length body) (Z.to_nat chunk_size) body);
  hb_each : forall i b, chop (length body) (Z.to_nat chunk_size) body !! i = Some b ->
    Z.of_nat i <= U32_MAX /\ exists c ct, chunks m !! i = Some c /\
    order c = Z.of_nat i /\ is_u64 (offset c) /\ size c = Z.of_nat (length b) /\
    checksum c = sha256_hex b /\
    source_object_id c = None /\ source_chunk_order c = None /\
    encrypt_chunk (object_id m) (Z.of_nat i) b = Ok ct /\
    fs !! chunk_path (object_id m) (Z.of_nat i) = Some ct
}.

Lemma concat_chop fuel n body :
  (0 < n)%nat -> (length body <= fuel)%nat -> concat (chop fuel n body) = body.
Proof.
  intros Hn. revert body. induction fuel as [|fuel IH]; intros [|x body] Hf; try done; [cbn in Hf; lia|].
  cbn [chop concat]. rewrite IH by (rewrite length_drop; cbn in *; lia). by rewrite take_drop.
Qed.

Lemma chop_length fuel n body : Forall (fun b => length b <= n)%nat (chop fuel n body).
Proof.
  revert body. induction fuel as [|fuel IH]; intros [|x body]; cbn [chop]; constructor; [|apply IH].
  rewrite length_take. lia.
Qed.

Lemma stages_total obj bs st fs :
  stages obj bs st fs -> total_size (st_chunks st) = Z.of_nat (length (concat bs)).
Proof.
  intros [_ _ Hc He].
  assert (map size (st_chunks st) = map (fun b => Z.of_nat (length b)) bs) as Hm.
  { apply list_eq. intros i. rewrite !list_lookup_fmap.
    destruct (bs !! i) as [b|] eqn:Eb.
    - destruct (He i b Eb) as (_ & peer & ct & -> & _). done.
    - apply lookup_ge_None in Eb. by rewrite (proj2 (lookup_ge_None (st_chunks st) i)) by lia. }
  clear Hc He. unfold total_size. revert Hm. generalize (st_chunks st). clear st.
  induction bs as [|b bs IH]; intros [|c cs]; cbn; try done.
  intros [= -> Hm]. rewrite (IH cs Hm), length_app. lia.
Qed.

(** A manifest built from what was staged holds it. *)
Lemma built_holds_body m args st body fs :
  validate m = Ok tt -> built args m -> ma_chunks args = st_chunks st ->
  ma_whole_checksum args = sha256_hex body ->
  stages (ma_object_id args) (chop (length body) (Z.to_nat chunk_size) body) st fs ->
  holds_body (manifest_json_with_state m CommitState.Staging) body fs.
Proof.
  intros Hv [Ho _ _ Hl Hcs He _ Hch] Hc Hw Hst. rewrite Hc in Hl, Hch.
  rewrite (stages_total _ _ _ _ Hst), concat_chop in Hl by lia.
  split; cbn; try done.
  - rewrite Hcs. done.
  - rewrite Hch. exact (sg_count _ _ _ _ Hst).
  - intros i b Hi. destruct (sg_each _ _ _ _ Hst i b Hi) as (Hu & peer & ct & Hci & Hct & Hfile).
    split; [done|]. eexists _, ct. rewrite Hch, Ho. split_and!; try done.
    unfold is_u64, u64_wrap. cbn. pose proof (Z.mod_pos_bound
      (Z.of_nat (length (concat (take i (chop (length body) (Z.to_nat chunk_size) body))))) (U64_MAX + 1)).
    unfold U64_MAX in *. lia.
Qed.

Lemma receive_ok id obj bkt k content_type frames part conditionals expires w db job w' db' :
  runs (receive encrypt_chunk sha256_hex encryption_key_id data_dir staging_budget chunk_size
          id obj bkt k content_type frames part conditionals expires) w db = (Ok job, w', db') ->
  j_id job = id /\ exists pieces m, frames = map Some pieces /\
    (om_manifest <$> object_manifests db' !! obj) = Some m /\
    object_id m = obj /\ bucket m = bkt /\ key m = k /\ holds_body m (concat pieces) w'.2 /\
    (forall upload number expected, part = Some (upload, number, Some expected) ->
       expected = sha256_hex (concat pieces)) /\
    exists r, In r (transfer_jobs db') /\ tj_id r = id /\ tj_state r = JobState.Queued.
Proof.
  intros H. apply interp_ok in H as ([] & w1 & d1 & _ & H).
  apply interp_ok in H as ([] & w2 & d2 & _ & H).
  apply interp_ok in H as (st & w3 & d3 & Hb & H).
  apply receive_body_stages in Hb as (pieces & -> & Hst).
  apply interp_ok in H as (m0 & w4 & d4 & Hm & H). cbn in Hm. injection Hm as Hm <- <-.
  set (bs := chop _ _ _) in Hst.
  assert (concat bs = concat pieces) as Hcat by (apply concat_chop; lia).
  assert ((forall upload number expected, part = Some (upload, number, Some expected) ->
       expected = sha256_hex (concat pieces)) /\
    runs (finalize_reception encryption_key_id data_dir id
            (build_args sha256_hex obj bkt k content_type expires st) conditionals)
      (S (S w3.1), w3.2) d3 = (Ok job, w', db')) as [Hpart Hf].
  { rewrite <- Hcat, <- (sg_hashed _ _ _ _ Hst).
    destruct part as [[[upload number] [expected|]]|]; [|split; [intros; congruence|exact H]..].
    destruct (bool_decide_reflect (expected = whole_object (m_checksum m0))) as [He|]; [|done].
    split; [|exact H]. intros ? ? ? [= <- <- <-]. rewrite He. by rewrite <- Hm. }
  apply finalize_reception_ok in Hf as (Hfs & Hid & m & Hbt & Hv & Hom & r & Hr & Hri & Hrs & _).
  split; [done|]. exists pieces, (manifest_json_with_state m CommitState.Staging).
  pose proof (bt_object _ _ Hbt) as Ho. pose proof (bt_bucket _ _ Hbt) as Hbk. pose proof (bt_key _ _ Hbt) as Hk.
  split_and!; try done; [|by exists r]. rewrite Hfs. apply (built_holds_body m _ st _ _ Hv Hbt); try done.
  cbn. by rewrite (sg_hashed _ _ _ _ Hst), Hcat.
Qed.

Lemma enqueue_ok bkt k content_type frames part conditionals expires w db job w' db' :
  runs (enqueue_with_part encrypt_chunk sha256_hex encryption_key_id data_dir staging_budget chunk_size
          bkt k content_type frames part conditionals expires) w db = (Ok job, w', db') ->
  exists pieces m, frames = map Some pieces /\
    (om_manifest <$> object_manifests db' !! j_id job) = Some m /\
    object_id m = j_id job /\ bucket m = bkt /\ key m = k /\ holds_body m (concat pieces) w'.2 /\
    (forall upload number expected, part = Some (upload, number, Some expected) ->
       expected = sha256_hex (concat pieces)) /\
    exists r, In r (transfer_jobs db') /\ tj_id r = j_id job /\ tj_state r = JobState.Queued.
Proof.
  intros H. apply interp_ok in H as ([] & w1 & d1 & _ & H).
  apply interp_ok in H as (E & w2 & d2 & _ & H). apply interp_ok in H as (E' & w3 & d3 & _ & H).
  apply interp_ok in H as (id & w4 & d4 & Hb & H). apply interp_call in Hb as [Hb ->].
  assert (id = new_v4 E 0) as ->.
  { unfold begin_transfer in Hb. repeat apply bind_ok in Hb as (? & ? & _ & Hb). by injection Hb. }
  apply interp_ok in H as (r & w5 & d5 & Hr & H). unfold settle in Hr. rewrite interp_bind in Hr.
  destruct (runs (receive _ _ _ _ _ _ _ _ _ _ _ _ _ _ _) _ d4) as [[[j|e] w6] d6] eqn:Ej; cbn in Hr.
  - injection Hr as <- <- <-. cbn in H. injection H as <- <- <-.
    apply receive_ok in Ej as (-> & pieces & m & Hrest). by exists pieces, m.
  - injection Hr as <- <- <-. apply interp_ok in H as (x & w7 & d7 & _ & H).
    apply interp_ok in H as (y & w8 & d8 & _ & H). apply interp_ok in H as (z & w9 & d9 & _ & H). done.
Qed.

(** ** A step of a resumable reception *)

Lemma stage_transfer_chunk_run obj bytes st w db :
  exists r st' w' db',
    runs (stage_transfer_chunk encrypt_chunk sha256_hex data_dir staging_budget obj bytes st) w db
      = ((r, st'), w', db') /\
    match r with
    | Ok _ => runs (stage_chunk obj bytes st) w db = (Ok st', w', db')
    | Err _ => st_chunks st' = st_chunks st /\ st_offset st' = st_offset st
    end.
Proof.
  unfold Reception.stage_chunk. rewrite interp_bind.
  destruct (runs (stage_transfer_chunk _ _ _ _ _ _ _) w db) as [[[r st'] w'] db'] eqn:E.
  exists r, st', w', db'. split; [done|]. destruct r as [[]|e]; [done|].
  unfold stage_transfer_chunk in E. rewrite interp_bind in E.
  destruct (runs _ w db) as [[[[]|e'] w1] d1]; cbn in E; [|by injection E as _ <-].
  destruct (oracle _ _ StorageChatId); cbn in E; [done|]. by injection E as _ <-.
Qed.

Definition nonempty (bytes : list byte) : list (list byte) :=
  if (length bytes =? 0)%nat then [] else [bytes].

Lemma receive_locked_run id off bytes fin s bs w db :
  stages (rs_object_id s) bs (rs_staged s) w.2 ->
  exists r s' w' db',
    runs (receive_locked encrypt_chunk sha256_hex data_dir staging_budget id off bytes fin s) w db
      = ((r, s'), w', db') /\
    rs_object_id s' = rs_object_id s /\
    match r with
    | Ok status =>
        off = st_offset (rs_staged s) /\ rn_received status = st_offset (rs_staged s') /\
        rs_final_received s' = fin || rs_final_received s /\
        stages (rs_object_id s) (bs ++ nonempty bytes) (rs_staged s') w'.2
    | Err _ =>
        st_chunks (rs_staged s') = st_chunks (rs_staged s) /\
        st_offset (rs_staged s') = st_offset (rs_staged s) /\
        rs_final_received s' = rs_final_received s
    end.
Proof.
  intros Hst. unfold receive_locked, nonempty.
  destruct (Z.eqb_spec (st_offset (rs_staged s)) off) as [Hoff|]; cbn [negb].
  2: { by eexists _, _, _, _. }
  destruct (_ <? _); [by eexists _, _, _, _|]. destruct (negb fin && _); [by eexists _, _, _, _|].
  destruct (length bytes =? 0)%nat eqn:El.
  - eexists _, _, _, _. split; [reflexivity|]. rewrite app_nil_r. by destruct fin.
  - rewrite interp_bind.
    destruct (stage_transfer_chunk_run (rs_object_id s) bytes (rs_staged s) w db)
      as (r & st' & w' & db' & -> & Hr).
    destruct r as [[]|e].
    + eapply stage_chunk_stages in Hr; [|exact Hst]. eexists _, _, _, _. split; [reflexivity|].
      by destruct fin.
    + destruct Hr as [Hc Ho]. eexists _, _, _, _. split; [reflexivity|]. done.
Qed.

(** ** Reading it back *)

(** [m'] is [m] after publication: the chunks moved to the locations [ls]. *)
Record published_from (m m' : ObjectManifest) (ls : list TelegramLocation) : Prop := {
  pf_object : object_id m' = object_id m;
  pf_length : content_length m' = content_length m;
  pf_encryption : encryption m' = encryption m;
  pf_count : length ls = length (chunks m);
  pf_chunks : chunks m' = zip_with located (chunks m) ls
}.

Context (decrypt_chunk : Uuid -> Z -> list byte -> Result (list byte) ObjectFormatError.t).
Context (download : string -> Z -> Result (list byte) ObjectFormatError.t).

(** Telegram returns, at each location, the file that was uploaded to it. *)
Definition telegram_holds (obj : Uuid) (ls : list TelegramLocation) (fs : gmap string (list byte)) : Prop :=
  forall i l, ls !! i = Some l -> 0 < message_id l <= I32_MAX /\
    forall ct, fs !! chunk_path obj (Z.of_nat i) = Some ct -> download (peer_id l) (message_id l) = Ok ct.

Context (Hcipher : forall obj n b ct, encrypt_chunk obj n b = Ok ct -> decrypt_chunk obj n ct = Ok b).

Lemma published_available m m' ls body fs :
  holds_body m body fs -> published_from m m' ls -> telegram_holds (object_id m) ls fs ->
  Forall2 (fun c b => fits c b /\ chunk_available download decrypt_chunk sha256_hex m' c b) (chunks m')
    (chop (length body) (Z.to_nat chunk_size) body).
Proof.
  intros [_ He _ _ Hn Heach] [Ho _ Hen Hls Hch] Ht. rewrite Hch. apply Forall2_same_length_lookup. split.
  { rewrite length_zip_with. lia. }
  intros i c' b Hc' Hb. apply lookup_zip_with_Some in Hc' as (c & l & -> & Hc & Hl).
  destruct (Heach i b Hb) as (_ & c0 & ct & Hc0 & Hord & _ & Hsz & Hck & Hs1 & Hs2 & Hct & Hf).
  rewrite Hc in Hc0. injection Hc0 as <-. destruct (Ht i l Hl) as [Hmid Hdl].
  split; [unfold fits; cbn; lia|]. split; [cbn; unfold I32_MAX in *; lia|].
  exists ct. split; [by apply Hdl|]. rewrite Hen, He. unfold payload_identity. cbn.
  rewrite Hs1, Hs2, Ho, Hord. split; [by apply Hcipher|done].
Qed.

Lemma published_typed m m' ls body fs :
  holds_body m body fs -> published_from m m' ls -> is_u64 chunk_size ->
  manifest_typed m' /\ Z.of_nat (length (chunks m')) <= U32_MAX + 1.
Proof.
  intros [_ _ _ Hlen Hn Heach] [_ Hl _ Hls Hch] Hcs. split; [split|].
  - rewrite Hl, Hlen. unfold u64_wrap, is_u64.
    pose proof (Z.mod_pos_bound (Z.of_nat (length body)) (U64_MAX + 1)). unfold U64_MAX in *. lia.
  - rewrite Hch. apply Forall_lookup. intros i c' Hc'.
    apply lookup_zip_with_Some in Hc' as (c & l & -> & Hc & _).
    destruct (chop (length body) (Z.to_nat chunk_size) body !! i) as [b|] eqn:Eb.
    2: { apply lookup_ge_None in Eb. apply lookup_lt_Some in Hc. lia. }
    destruct (Heach i b Eb) as (Hu & c0 & ct & Hc0 & Hord & Hoff & Hsz & _).
    rewrite Hc in Hc0. injection Hc0 as <-. unfold chunk_typed, is_u32. cbn.
    assert (length b <= Z.to_nat chunk_size)%nat as Hle.
    { apply (Forall_lookup_1 _ _ i b (chop_length _ _ _) Eb). }
    unfold is_u64 in *. split_and!; lia.
  - rewrite Hch, length_zip_with, Hls, Hn. set (bs := chop _ _ _) in *.
    destruct (bs !! (length bs - 1)%nat) as [b|] eqn:Eb.
    + destruct (Heach _ b Eb) as [Hu _]. apply lookup_lt_Some in Eb. unfold U32_MAX in *. lia.
    + apply lookup_ge_None in Eb. unfold U32_MAX. lia.
Qed.
End ReceptionFacts.

(** ** Theorems *)

(** C9: an accepted upload is on disk.  When a request body is accepted, it
    arrived completely; its job is queued; and the staged manifest and the
    staged files hold exactly its bytes, cut at the chunk size: each file is
    the encryption of its slice, each chunk has its place, its length and its
    checksum, and the checksum of the whole is the body's (which, for a part
    with a promised checksum, is the promised one). *)
Theorem accepted_upload_is_staged encrypt_chunk sha256_hex key_id data_dir budget chunk_size oracle
    bkt k content_type frames part conditionals expires w db job w' db'
    (Hsize : 0 < chunk_size)
    (H : interp (disk_world oracle)
           (enqueue_with_part encrypt_chunk sha256_hex key_id data_dir budget chunk_size
              bkt k content_type frames part conditionals expires) w db = (Ok job, w', db')) :
  exists pieces m, frames = map Some pieces /\
    (om_manifest <$> object_manifests db' !! j_id job) = Some m /\
    object_id m = j_id job /\ bucket m = bkt /\ key m = k /\
    holds_body encrypt_chunk sha256_hex data_dir chunk_size m (concat pieces) w'.2 /\
    (forall upload number expected, part = Some (upload, number, Some expected) ->
       expected = sha256_hex (concat pieces)) /\
    exists r, In r (transfer_jobs db') /\ tj_id r = j_id job /\ tj_state r = JobState.Queued.
Proof. by apply (enqueue_ok _ _ _ _ _ _ oracle Hsize) in H. Qed.

(** C8: what was put is what is got.  Take a body that was accepted, and the
    manifest as it was published, with each chunk at the location its file was
    uploaded to.  Reading any range of it back through download, decryption and
    verification yields exactly those bytes of the body. *)
Theorem put_get_roundtrip encrypt_chunk decrypt_chunk download sha256_hex key_id data_dir budget
    chunk_size oracle bkt k content_type pieces part conditionals expires w db job w' db'
    m m' ls now start stop
    (Hsize : 0 < chunk_size) (Hcs : is_u64 chunk_size)
    (Hcipher : forall obj n b ct, encrypt_chunk obj n b = Ok ct -> decrypt_chunk obj n ct = Ok b)
    (Hput : interp (disk_world oracle)
              (enqueue_with_part encrypt_chunk sha256_hex key_id data_dir budget chunk_size
                 bkt k content_type (map Some pieces) part conditionals expires) w db
            = (Ok job, w', db'))
    (Hm : (om_manifest <$> object_manifests db' !! j_id job) = Some m)
    (Hpub : published_from m m' ls) (Hv : validate m' = Ok tt)
    (Hcommitted : commit_state m' = CommitState.Committed) (Hlive : is_expired m' now = false)
    (Htelegram : telegram_holds data_dir download (j_id job) ls w'.2)
    (Hlen : Z.of_nat (length (concat pieces)) <= U64_MAX)
    (Hrange : 0 <= start <= stop) (Hend : stop <= Z.of_nat (length (concat pieces))) :
  read_range_to_writer download decrypt_chunk sha256_hex bkt k (Some m') now start stop
  = Written (take (Z.to_nat (stop - start)) (drop (Z.to_nat start) (concat pieces))).
Proof.
  apply (enqueue_ok _ _ _ _ _ _ oracle Hsize) in Hput
    as (pieces' & m1 & Hp & Hm1 & Ho & _ & _ & Hb & _).
  apply (inj (map Some)) in Hp as <-. rewrite Hm in Hm1. injection Hm1 as <-.
  destruct (published_typed _ _ _ _ Hsize _ _ _ _ _ Hb Hpub Hcs) as [Hty Hcount].
  rewrite <- Ho in Htelegram.
  pose proof (published_available _ _ _ _ _ _ Hcipher _ _ _ _ _ Hb Hpub Htelegram) as Hav.
  rewrite (read_range_available _ _ _ _ _ _ _ _ _ _ Hty Hv Hcommitted Hlive Hcount Hav Hrange).
  - by rewrite concat_chop by lia.
  - rewrite (pf_length _ _ _ Hpub), (hb_length _ _ _ _ _ _ _ Hb). unfold u64_wrap.
    rewrite Z.mod_small; unfold U64_MAX in *; lia.
Qed.

(** C14: a resumable reception can be resumed.  Whatever happens to the disk and
    the store, a chunk is accepted only at the offset the server has reached,
    and then it is staged after the ones before it and the new offset is
    reported; a request that fails leaves the offset and the staged chunks, so
    that the client can send the same chunk again. *)
Theorem reception_resumes encrypt_chunk sha256_hex data_dir budget oracle id off bytes fin s bs w db
    (Hst : stages encrypt_chunk sha256_hex data_dir (rs_object_id s) bs (rs_staged s) w.2) :
  let '((r, s'), w', db') := interp (disk_world oracle)
    (receive_locked encrypt_chunk sha256_hex data_dir budget id off bytes fin s) w db in
  match r with
  | Ok status =>
      off = st_offset (rs_staged s) /\ rn_received status = st_offset (rs_staged s') /\
      rs_final_received s' = fin || rs_final_received s /\
      stages encrypt_chunk sha256_hex data_dir (rs_object_id s) (bs ++ nonempty bytes) (rs_staged s') w'.2
  | Err _ =>
      st_chunks (rs_staged s') = st_chunks (rs_staged s) /\
      st_offset (rs_staged s') = st_offset (rs_staged s) /\
      rs_final_received s' = rs_final_received s
  end.
Proof.
  destruct (receive_locked_run encrypt_chunk sha256_hex data_dir budget oracle id off bytes fin s bs w db Hst)
    as (r & s' & w' & db' & -> & _ & H). exact H.
Qed.

(** ** Witnesses and recorded defects *)

(** A toy cipher that prepends a byte, and a toy digest of the length. *)
Definition toy_encrypt (_ : Uuid) (_ : Z) (b : list byte) : Result (list byte) ObjectFormatError.t :=
  Ok (Byte.x2a :: b).

Definition toy_decrypt (_ : Uuid) (_ : Z) (b : list byte) : Result (list byte) ObjectFormatError.t :=
  match b with _ :: b => Ok b | [] => Err (ObjectFormatError.InvalidRead "short") end.

Definition toy_digest (b : list byte) : string := "sha" +:+ pretty (Z.of_nat (length b)).

Definition sample_oracle (t : nat) (B : Type) (e : Io B) : B := (sample_answer B e t).1.

Definition sample_pieces : list (list byte) :=
  [[Byte.x61; Byte.x62; Byte.x63]; [Byte.x64; Byte.x65; Byte.x66]].

Abbreviation toy_put frames :=
  (enqueue_with_part toy_encrypt toy_digest "key" "data" 1000 4 "b" "k" "text/plain" frames None None None).

Definition sample_put := interp (disk_world sample_oracle) (toy_put (map Some sample_pieces)) (0%nat, ∅) sample_store.

Definition sample_put_job : TransferJob :=
  match sample_put.1.1 with Ok job => job | Err _ => sample_job JobState.Receiving 0 0 None end.

Lemma sample_put_ok : sample_put = (Ok sample_put_job, sample_put.1.2, sample_put.2).
Proof.
  assert (is_ok sample_put.1.1 = true) as Hr by (vm_compute; reflexivity).
  unfold sample_put_job. destruct sample_put as [[[job|e] w] d]; [done|discriminate].
Qed.

Definition sample_put_manifest : ObjectManifest :=
  match object_manifests sample_put.2 !! j_id sample_put_job with
  | Some row => om_manifest row
  | None => sample_manifest "o" "b" "k"
  end.

Lemma accepted_upload_is_staged_witness :
  exists pieces m, map Some sample_pieces = map Some pieces /\
    (om_manifest <$> object_manifests sample_put.2 !! j_id sample_put_job) = Some m /\
    content_length m = 6 /\ length (chunks m) = 2%nat.
Proof.
  destruct (accepted_upload_is_staged toy_encrypt toy_digest "key" "data" 1000 4 sample_oracle
              "b" "k" "text/plain" (map Some sample_pieces) None None None (0%nat, ∅) sample_store
              sample_put_job sample_put.1.2 sample_put.2 ltac:(lia) sample_put_ok)
    as (pieces & m & Hp & Hm & _ & _ & _ & Hb & _).
  exists pieces, m. split; [exact Hp|]. split; [exact Hm|].
  assert (pieces = sample_pieces) as -> by (symmetry; exact (inj (map Some) _ _ Hp)).
  split; [exact (hb_length _ _ _ _ _ _ _ Hb)|exact (hb_count _ _ _ _ _ _ _ Hb)].
Defined.

(** The two chunks published as messages 1 and 2 of the chat. *)
Definition sample_locations : list TelegramLocation :=
  [{| peer_id := "p"; message_id := 1; document_id := None |};
   {| peer_id := "p"; message_id := 2; document_id := None |}].

Definition sample_got_manifest : ObjectManifest :=
  sample_put_manifest <| chunks ::= (fun cs => zip_with located cs sample_locations) |>
                      <| commit_state := CommitState.Committed |>.

Definition sample_download (_ : string) (message : Z) : Result (list byte) ObjectFormatError.t :=
  match sample_put.1.2.2 !! chunk_path "data" (j_id sample_put_job) (message - 1) with
  | Some ct => Ok ct
  | None => Err (ObjectFormatError.InvalidRead "missing")
  end.

Lemma sample_telegram :
  telegram_holds "data" sample_download (j_id sample_put_job) sample_locations sample_put.1.2.2.
Proof.
  intros [|[|i]] l Hl; [injection Hl as <-..|destruct i; discriminate]; split; try (cbn; unfold I32_MAX; lia);
    intros ct Hct; unfold sample_download; cbn [message_id];
    [change (1 - 1) with (Z.of_nat 0)|change (2 - 1) with (Z.of_nat 1)]; by rewrite Hct.
Qed.

Lemma put_get_roundtrip_witness :
  read_range_to_writer sample_download toy_decrypt toy_digest "b" "k" (Some sample_got_manifest) 0 2 5
  = Written [Byte.x63; Byte.x64; Byte.x65].
Proof.
  rewrite (put_get_roundtrip toy_encrypt toy_decrypt sample_download toy_digest "key" "data" 1000 4
    sample_oracle "b" "k" "text/plain" sample_pieces None None None (0%nat, ∅) sample_store sample_put_job
    sample_put.1.2 sample_put.2 sample_put_manifest sample_got_manifest sample_locations 0 2 5).
  - reflexivity.
  - lia.
  - unfold is_u64, U64_MAX. lia.
  - intros obj n b ct [= <-]. reflexivity.
  - exact sample_put_ok.
  - vm_compute. reflexivity.
  - split; vm_compute; reflexivity.
  - vm_compute. reflexivity.
  - vm_compute. reflexivity.
  - vm_compute. reflexivity.
  - exact sample_telegram.
  - cbn. unfold U64_MAX. lia.
  - lia.
  - cbn. lia.
Defined.

(** A browser upload with the chunk size 4. *)
Definition sample_reception : Result (ReceptionStatus * ReceptionState) ObjectFormatError.t * Disk * Db :=
  interp (disk_world sample_oracle)
    (begin_reception_with_expiry "data" 4 "b" "k" "text/plain" None) (0%nat, ∅) sample_store.

Definition sample_reception_state : ReceptionState :=
  match sample_reception.1.1 with
  | Ok (_, s) => s
  | Err _ => {| rs_object_id := ""; rs_bucket := ""; rs_key := ""; rs_content_type := "";
                rs_expires_at := None; rs_staged := nothing_staged; rs_final_received := false;
                rs_chunk_size := 0 |}
  end.

Abbreviation toy_receive := (receive_locked toy_encrypt toy_digest "data" 1000).

Lemma reception_resumes_witness :
  let id := rs_object_id sample_reception_state in
  let '((r, s'), w', db') := interp (disk_world sample_oracle)
    (toy_receive id 0 [Byte.x61; Byte.x62; Byte.x63; Byte.x64] false sample_reception_state)
    sample_reception.1.2 sample_reception.2 in
  is_ok r = true /\ st_offset (rs_staged s') = 4 /\
  stages toy_encrypt toy_digest "data" id [[Byte.x61; Byte.x62; Byte.x63; Byte.x64]] (rs_staged s') w'.2.
Proof.
  cbv zeta. pose proof (reception_resumes toy_encrypt toy_digest "data" 1000 sample_oracle
    (rs_object_id sample_reception_state) 0 [Byte.x61; Byte.x62; Byte.x63; Byte.x64] false
    sample_reception_state [] sample_reception.1.2 sample_reception.2
    (stages_nothing _ _ _ _ _)) as H.
  destruct (interp _ _ sample_reception.1.2 sample_reception.2) as [[[r s'] w'] db'] eqn:E.
  assert (is_ok r = true /\ st_offset (rs_staged s') = 4) as [Hr Ho].
  { apply (f_equal (fun x => (is_ok x.1.1.1, st_offset (rs_staged x.1.1.2)))) in E. cbn [fst snd] in E.
    injection E as <- <-. split; vm_compute; reflexivity. }
  destruct r as [status|]; [|discriminate]. destruct H as (_ & _ & _ & Hs).
  exact (conj Hr (conj Ho Hs)).
Defined.

(** The reception with its only chunk received. *)
Definition sample_received :=
  interp (disk_world sample_oracle)
    (toy_receive (rs_object_id sample_reception_state) 0 [Byte.x61; Byte.x62] true sample_reception_state)
    sample_reception.1.2 sample_reception.2.

(** Two requests finish it: both have looked the reception up before either
    removed it, so the second runs, once it gets the lock, on the state the
    first left behind. *)
Definition sample_finished :=
  interp (disk_world sample_oracle)
    (finish_locked toy_digest "key" "data" (rs_object_id sample_reception_state) sample_received.1.1.2)
    sample_received.1.2 sample_received.2.

Definition sample_finished_again :=
  interp (disk_world sample_oracle)
    (proc_bind (fun '(r, _) => finish_unlocked "data" (rs_object_id sample_reception_state)
                                 (rs_object_id sample_reception_state) r)
       (finish_locked toy_digest "key" "data" (rs_object_id sample_reception_state) sample_finished.1.1.2))
    sample_finished.1.2 sample_finished.2.

(** What the upload worker then makes of the job the first request queued. *)
Definition sample_finished_published : Db :=
  match claim_transfer (sample_env 90 "lease-9") sample_finished_again.2 with
  | (Ok (Some job), db) =>
      (interp sample_answer (run_claimed no_etag Some (fun s => s) toy_decrypt toy_digest "data" job)
         70%nat db).2
  | (_, db) => db
  end.

(** A second [finish_reception] of the same upload loses it: the client was
    told that its two bytes are accepted, and the object that is published is
    empty. *)
Theorem second_finish_empties_object :
  is_ok sample_finished.1.1.1 = true /\
  (content_length ∘ om_manifest <$> object_manifests sample_finished.2 !! rs_object_id sample_reception_state)
    = Some 2 /\
  sample_finished_again.1.2.2 = ∅ /\
  map ao_object_id (map snd (map_to_list (active_objects sample_finished_published)))
    = [rs_object_id sample_reception_state] /\
  (content_length ∘ om_manifest <$>
     object_manifests sample_finished_published !! rs_object_id sample_reception_state) = Some 0.
Proof. split_and!; vm_compute; reflexivity. Qed.

(** The storage chat is unknown while the first request runs. *)
Definition lost_chat (t : nat) (B : Type) (e : Io B) : B :=
  match e in Io B return B with
  | StorageChatId => Err (ObjectFormatError.InvalidPlan "telegram bootstrap settings are not configured")
  | e => sample_oracle t _ e
  end.

(** A chunk that is sent again after such a failure is hashed twice. *)
Theorem resent_chunk_is_hashed_twice :
  let id := rs_object_id sample_reception_state in
  let first := interp (disk_world lost_chat)
    (toy_receive id 0 [Byte.x61; Byte.x62] true sample_reception_state)
    sample_reception.1.2 sample_reception.2 in
  let second := interp (disk_world sample_oracle)
    (toy_receive id 0 [Byte.x61; Byte.x62] true first.1.1.2) first.1.2 first.2 in
  is_ok first.1.1.1 = false /\ is_ok second.1.1.1 = true /\
  st_hashed (rs_staged second.1.1.2) = [Byte.x61; Byte.x62; Byte.x61; Byte.x62].
Proof. split_and!; vm_compute; reflexivity. Qed.
