(* ===== verification/Completion.v ===== *)
(** * Completing a multipart upload ([src/src/object_format.rs], [s3_server.rs])

    [compose] walks the parts of a completion plan and concatenates their
    chunks, without moving a byte: each chunk of the new manifest points at the
    payload of the part it comes from.  [complete_multipart_upload] is the
    service's call around it, [completion_plan] the plan the S3 handler makes
    of a request, and [poll_transfer] one round of the wait for a job.

    The theorems: the composed manifest is valid and reads as the parts one
    after the other; its checksum is computed from an encoding that tells any
    two lists of parts apart; and what the handler does not check. *)

From stdpp Require Import pretty.
From S2P Require Import Prelude Errors Manifest Schema Cleanup Transfers TransferSafety.
From S2P Require Import ManifestStore ManifestSafety MultipartStore Buckets ConnectionRemoval System.
From S2P Require Import Requests Listing Chunks Attempts Programs Publish Reception.

Definition MULTIPART_CHECKSUM_ALGORITHM : string := "sha256-parts-v1".

Record MultipartPartPlan : Type := {
  pp_part_number : Z;
  pp_offset : Z;
  pp_size : Z;
  pp_checksum : string;
  pp_e_tag : string
}.

Record MultipartCompletionPlan : Type := {
  pl_upload_id : Uuid;
  pl_object_id : Uuid;
  pl_bucket : string;
  pl_key : string;
  pl_content_type : string;
  pl_checksum_algorithm : string;
  pl_content_length : Z;
  pl_parts : list MultipartPartPlan
}.

(** ** The input of the composite hasher *)

(** [x.to_be_bytes()] of an integer of [k] bytes. *)
Fixpoint be_bytes (k : nat) (x : Z) : list byte :=
  match k with
  | O => []
  | S k =>
      match Byte.of_N (Z.to_N ((x / 256 ^ Z.of_nat k) mod 256)) with
      | Some b => b :: be_bytes k x
      | None => be_bytes k x
      end
  end.

Definition as_bytes (s : string) : list byte := String.list_byte_of_string s.

Definition checksum_component (value : string) : list byte :=
  be_bytes 8 (Z.of_nat (length (as_bytes value))) ++ as_bytes value.

Definition part_component (part_number size_ : Z) (checksum : ObjectChecksum) : list byte :=
  be_bytes 4 part_number ++ be_bytes 8 size_ ++ checksum_component (algorithm checksum)
  ++ checksum_component (whole_object checksum).

Arguments be_bytes : simpl never.
Arguments part_component : simpl never.

Definition composite_prefix : list byte := as_bytes "telegram-s3-multipart-sha256-v1" ++ [Byte.x00].

(** ** Composing *)

Record Composition : Type := {
  co_chunks : list ChunkRef;
  co_offset : Z;
  co_previous : Z;
  co_encryption : option EncryptionInfo;
  co_hashed : list byte
}.

Definition nothing_composed : Composition :=
  {| co_chunks := []; co_offset := 0; co_previous := 0; co_encryption := None;
     co_hashed := composite_prefix |}.

(** Why composing stopped: a part without a manifest also closes the session. *)
Inductive Refusal : Type :=
| Refused (message : string)
| LegacyPart.

Definition composed_chunk (n off : Z) (owner : Uuid) (source : ChunkRef) : ChunkRef :=
  let (obj, ord) := payload_identity source owner in
  {| order := n; offset := off; size := size source; checksum := checksum source;
     telegram_peer_id := telegram_peer_id source; telegram_message_id := telegram_message_id source;
     telegram_document_id := telegram_document_id source; source_object_id := Some obj;
     source_chunk_order := Some ord; replicas := replicas source |}.

#[export] Instance EncryptionInfo_eq_dec : EqDecision EncryptionInfo.
Proof. solve_decision. Defined.

(** The loop over the chunks of one part. *)
Fixpoint compose_chunks (part_number : Z) (owner : Uuid) (sources : list ChunkRef)
    (cs : list ChunkRef) (off : Z) : Result (list ChunkRef * Z) Refusal :=
  match sources with
  | [] => Ok (cs, off)
  | source :: sources =>
      if trim_is_empty (telegram_peer_id source) || (telegram_message_id source <=? 0) then
        Err (Refused ("multipart part " +:+ pretty part_number +:+ " has an unpublished chunk"))
      else if U32_MAX <? Z.of_nat (length cs) then
        Err (Refused "multipart object contains too many chunks")
      else
        let cs := cs ++ [composed_chunk (Z.of_nat (length cs)) off owner source] in
        match u64_checked_add off (size source) with
        | None => Err (Refused "multipart content length overflow")
        | Some off => compose_chunks part_number owner sources cs off
        end
  end.

(** The body of the loop over [plan.parts]. *)
Definition compose_part (stored_parts : list MultipartPart) (plan : MultipartPartPlan)
    (c : Composition) : Result Composition Refusal :=
  if pp_part_number plan <=? co_previous c then
    Err (Refused "multipart parts must be unique and ordered by part number")
  else
    match find (fun p => p_part_number p =? pp_part_number plan) (rev stored_parts) with
    | None => Err (Refused "missing multipart part")
    | Some stored =>
        if negb (bool_decide (p_e_tag stored = pp_e_tag plan)) then
          Err (Refused "multipart ETag mismatch")
        else
          match p_manifest stored with
          | None => Err LegacyPart
          | Some manifest =>
              match validate manifest with
              | Err e => Err (Refused e)
              | Ok _ =>
                  if negb (part_size stored =? pp_size plan)
                     || negb (content_length manifest =? part_size stored)
                     || negb (bool_decide (p_checksum stored = pp_checksum plan))
                     || negb (bool_decide (whole_object (m_checksum manifest) = p_checksum stored))
                  then Err (Refused "multipart part metadata changed during completion")
                  else if match co_encryption c with
                          | Some expected => negb (bool_decide (expected = encryption manifest))
                          | None => false
                          end
                  then Err (Refused "multipart parts use incompatible encryption metadata")
                  else
                    match compose_chunks (pp_part_number plan) (object_id manifest) (chunks manifest)
                            (co_chunks c) (co_offset c) with
                    | Err e => Err e
                    | Ok (cs, off) =>
                        Ok {| co_chunks := cs; co_offset := off; co_previous := pp_part_number plan;
                              co_encryption := Some match co_encryption c with
                                                    | Some expected => expected
                                                    | None => encryption manifest
                                                    end;
                              co_hashed := co_hashed c ++
                                part_component (pp_part_number plan) (part_size stored)
                                  (m_checksum manifest) |}
                    end
              end
          end
    end.

Fixpoint compose (stored_parts : list MultipartPart) (plans : list MultipartPartPlan)
    (c : Composition) : Result Composition Refusal :=
  match plans with
  | [] => Ok c
  | plan :: plans =>
      match compose_part stored_parts plan c with
      | Err e => Err e
      | Ok c => compose stored_parts plans c
      end
  end.

(** ** Waiting for a job *)

Section Service.
Context (sha256_hex : list byte -> string).
Context (parse_uuid : string -> option string) (uuid_error : string -> string).
Context (data_dir : string) (staging_budget : Z).
(** The length of [serde_json::to_vec_pretty(&manifest)]. *)
Context (json_length : ObjectManifest -> Z).

(** One round of the loop of [wait_transfer]; [None]: look again later. *)
Definition poll_transfer (id : string) : Task (option ObjectManifest) :=
  job ← call (transfer id);
  job ← require job (ObjectFormatError.InvalidPlan "transfer missing");
  match j_state job with
  | JobState.Completed | JobState.Cleaned =>
      part ← call (multipart_job (j_id job));
      match part with
      | Some (upload, number) =>
          if 0 <? number then
            upload ← uuid_of parse_uuid uuid_error upload;
            stored ← call (get_multipart_part upload number);
            manifest ← require (stored ≫= p_manifest)
              (ObjectFormatError.InvalidPlan "completed multipart part manifest missing");
            mret (Some manifest)
          else
            obj ← uuid_of parse_uuid uuid_error (j_object_id job);
            manifest ← call (get_manifest obj);
            manifest ← require manifest (ObjectFormatError.InvalidPlan "completed manifest missing");
            mret (Some manifest)
      | None =>
          obj ← uuid_of parse_uuid uuid_error (j_object_id job);
          manifest ← call (get_manifest obj);
          manifest ← require manifest (ObjectFormatError.InvalidPlan "completed manifest missing");
          mret (Some manifest)
      end
  | JobState.Superseded =>
      part ← call (multipart_job (j_id job));
      let failed := fail (ObjectFormatError.InvalidPlan
        (match j_error job with Some e => e | None => "transfer was superseded" end)) in
      match part with
      | Some (upload, number) =>
          if 0 <? number then
            upload ← uuid_of parse_uuid uuid_error upload;
            stored ← call (get_multipart_part upload number);
            match stored ≫= p_manifest with
            | Some manifest => mret (Some manifest)
            | None => failed
            end
          else failed
      | None => failed
      end
  | JobState.Cancelled | JobState.RecoveryRequired | JobState.ReceptionFailed =>
      fail (ObjectFormatError.InvalidPlan
        (match j_error job with Some e => e | None => "transfer needs recovery" end))
  | _ => mret None
  end.

(** ** [complete_multipart_upload] *)

(** What a request for completion comes to. *)
Inductive Completion : Type :=
| AlreadyVisible (manifest : ObjectManifest)
| WaitFor (job_id : string).

Definition completed_manifest (plan : MultipartCompletionPlan) (session : MultipartSession)
    (c : Composition) (info : EncryptionInfo) (created : OffsetDateTime) (chat : string)
    : ObjectManifest :=
  {| schema_version := MANIFEST_SCHEMA_VERSION; commit_state := CommitState.Staging;
     object_id := pl_object_id plan; bucket := pl_bucket plan; key := pl_key plan;
     version_id := Some (pl_object_id plan); content_length := co_offset c;
     content_type := pl_content_type plan; user_metadata := ∅; tags := ∅; created_at := created;
     expires_at := ms_expires_at session;
     m_checksum := {| algorithm := MULTIPART_CHECKSUM_ALGORITHM;
                      whole_object := sha256_hex (co_hashed c) |};
     encryption := info;
     telegram := {| peer_id := chat; message_id := 0;
                    document_id := Some ("local:" +:+ pl_object_id plan +:+ ":manifest") |};
     chunks := co_chunks c |}.

(** The checks before any part is looked at. *)
Definition check_plan (plan : MultipartCompletionPlan) (session : MultipartSession)
    : Result unit ObjectFormatError.t :=
  if (length (pl_parts plan) =? 0)%nat then
    Err (ObjectFormatError.InvalidPlan "multipart completion requires at least one part")
  else if negb (bool_decide (pl_object_id plan = pl_upload_id plan)) then
    Err (ObjectFormatError.InvalidPlan "multipart completion object id must match the upload id")
  else if negb (bool_decide (pl_checksum_algorithm plan = ms_checksum_algorithm session)) then
    Err (ObjectFormatError.InvalidPlan "multipart checksum algorithm changed during completion")
  else Ok tt.

Definition compose_manifest (plan : MultipartCompletionPlan) (session : MultipartSession)
    (stored : list MultipartPart) : Task ObjectManifest :=
  (Return (check_plan plan session) : Task unit) ;;
  match compose stored (pl_parts plan) nothing_composed with
  | Err (Refused message) => fail (ObjectFormatError.InvalidPlan message)
  | Err LegacyPart =>
      E ← perform Ambient;
      call (update_multipart_session_state E (pl_upload_id plan) MultipartState.RecoveryRequired) ;;
      fail (ObjectFormatError.InvalidPlan
              "legacy multipart framing requires recovery or source re-upload")
  | Ok c =>
      if negb (co_offset c =? pl_content_length plan) then
        fail (ObjectFormatError.InvalidPlan ("multipart content length mismatch: expected "
                +:+ pretty (pl_content_length plan) +:+ ", composed " +:+ pretty (co_offset c)))
      else
        E ← perform Ambient;
        info ← require (co_encryption c)
          (ObjectFormatError.InvalidPlan "multipart completion has no encryption metadata");
        chat ← perform_ok StorageChatId;
        let manifest := completed_manifest plan session c info (now_utc_at E 0) chat in
        match validate manifest with
        | Err e => fail (ObjectFormatError.InvalidPlan e)
        | Ok _ => mret manifest
        end
  end.

Definition queue_completion (plan : MultipartCompletionPlan) (job_id : string)
    (manifest : ObjectManifest) : Task TransferJob :=
  let dir := staging_dir data_dir (pl_object_id plan) in
  perform_ok (CreateDirAll dir) ;;
  E ← perform Ambient;
  call (reserve_staging E job_id (json_length manifest) staging_budget) ;;
  perform_ok (WriteManifest (join dir MANIFEST_FILE_NAME) manifest) ;;
  E ← perform Ambient;
  operation ← call (stage_manifest E OperationKind.Put manifest);
  E ← perform Ambient;
  call (queue_multipart_completion E job_id operation (pl_upload_id plan)) ;;
  job ← call (transfer job_id);
  require job (ObjectFormatError.InvalidPlan "queued multipart completion missing").

Definition complete_multipart_upload (plan : MultipartCompletionPlan) : Task Completion :=
  session ← call (get_multipart_session (pl_upload_id plan));
  session ← require session (ObjectFormatError.InvalidPlan ("upload not found: " +:+ pl_upload_id plan));
  if negb (bool_decide (ms_bucket session = pl_bucket plan) && bool_decide (ms_key session = pl_key plan))
  then fail (ObjectFormatError.InvalidPlan "multipart completion target mismatch")
  else
    match ms_state session with
    | MultipartState.Completed =>
        manifest ← call (get_active_manifest (pl_bucket plan) (pl_key plan));
        manifest ← require manifest
          (ObjectFormatError.InvalidPlan "completed multipart object is not visible");
        mret (AlreadyVisible manifest)
    | MultipartState.Completing =>
        job ← call (multipart_completion_job (pl_upload_id plan));
        job ← require job (ObjectFormatError.InvalidPlan
                "multipart completion job is missing; recovery is required");
        mret (WaitFor job)
    | MultipartState.Aborted | MultipartState.Quarantined | MultipartState.RecoveryRequired =>
        fail (ObjectFormatError.InvalidPlan "multipart upload is not completable")
    | _ =>
        stored ← call (list_multipart_parts (pl_upload_id plan));
        manifest ← compose_manifest plan session stored;
        E ← perform Ambient;
        job_id ← call (begin_transfer E (pl_object_id plan) (pl_bucket plan) (pl_key plan));
        queued ← settle (queue_completion plan job_id manifest);
        match queued with
        | Ok job => mret (WaitFor (j_id job))
        | Err error =>
            removed ← perform (RemoveDirAll (staging_dir data_dir (pl_object_id plan)));
            E ← perform Ambient;
            try_call (fail_reception E job_id (is_removed removed)
              "Multipart completion could not be durably queued") ;;
            fail error
        end
    end.
End Service.

(** ** The S3 handler *)

Record CompletedPart : Type := {
  cp_part_number : option Z;
  cp_e_tag : option ETag
}.

Record CompleteMultipartUploadInput : Type := {
  ci_bucket : string;
  ci_key : string;
  ci_upload_id : string;
  ci_parts : option (list CompletedPart);
  ci_if_match : option ETagCondition;
  ci_if_none_match : option ETagCondition
}.

Definition ok_or {A E} (o : option A) (e : E) : IO E A :=
  match o with Some a => mret a | None => raise e end.

Definition of_result {A E} (r : Result A E) : IO E A := fun db => (r, db).

Definition bad_part (m : string) : S3Error := s3_error S3ErrorCode.InvalidPart m.

(** The numbers of the request's parts; its ETags are checked for presence. *)
Fixpoint request_parts (completed : list CompletedPart) : Result (list Z) S3Error :=
  match completed with
  | [] => Ok []
  | part :: completed =>
      match cp_part_number part with
      | None => Err (bad_part "missing part number")
      | Some n =>
          if n <? 0 then Err (bad_part "invalid part number")
          else
            match cp_e_tag part with
            | None => Err (bad_part "missing part etag")
            | Some _ =>
                match request_parts completed with
                | Err e => Err e
                | Ok ns => Ok (n :: ns)
                end
            end
      end
  end.

(** The plan of each part is taken from the stored part. *)
Fixpoint plan_parts (numbers : list Z) (actual : list MultipartPart)
    : Result (list MultipartPartPlan) S3Error :=
  match numbers with
  | [] => Ok []
  | n :: numbers =>
      match find (fun p => p_part_number p =? n) actual with
      | None => Err (bad_part "missing part")
      | Some stored =>
          match plan_parts numbers actual with
          | Err e => Err e
          | Ok plans =>
              Ok ({| pp_part_number := n; pp_offset := 0; pp_size := part_size stored;
                     pp_checksum := p_checksum stored; pp_e_tag := p_e_tag stored |} :: plans)
          end
      end
  end.

Definition object_rechunk_locked (obj : Uuid) : M bool := query (fun db =>
  sql_exists (fun l => bool_decide (lk_object_id l = obj)) (rechunk_locks db)).

(** [get_active_manifest] of the service: what a request may see of a key. *)
Definition service_get_active_manifest (E : Env) (bkt k : string)
    : IO ObjectFormatError.t (option ObjectManifest) :=
  m ← service (get_active_manifest bkt k);
  match m with
  | None => mret None
  | Some manifest =>
      if is_expired manifest (now_utc_at E 0) then mret None
      else
        locked ← service (object_rechunk_locked (object_id manifest));
        if locked : bool then
          raise (ObjectFormatError.InvalidRead "object is being re-chunked; try again later")
        else mret (Some manifest)
  end.

Section CompletionHandler.
Context (parse_uuid : string -> option string) (uuid_error : string -> string).

(** The plan [complete_multipart_upload] of the handler passes to the service. *)
Definition completion_plan (E : Env) (input : CompleteMultipartUploadInput)
    : IO S3Error MultipartCompletionPlan :=
  upload_id ← ok_or (parse_uuid (ci_upload_id input))
    (s3_error S3ErrorCode.InvalidArgument (uuid_error (ci_upload_id input)));
  completed ← ok_or (ci_parts input) (s3_error S3ErrorCode.InvalidArgument "missing multipart parts");
  numbers ← of_result (request_parts completed);
  session ← handler (service (get_multipart_session upload_id));
  session ← ok_or session (s3_error S3ErrorCode.NoSuchUpload "multipart upload does not exist");
  current ← handler (service_get_active_manifest E (ci_bucket input) (ci_key input));
  of_result (enforce_write_conditionals (ci_if_match input) (ci_if_none_match input) current) ;;
  actual ← handler (service (list_multipart_parts upload_id));
  parts ← of_result (plan_parts numbers actual);
  mret {| pl_upload_id := upload_id; pl_object_id := upload_id; pl_bucket := ms_bucket session;
          pl_key := ms_key session; pl_content_type := ms_content_type session;
          pl_checksum_algorithm := ms_checksum_algorithm session;
          pl_content_length := u64_wrap (sql_sum pp_size parts); pl_parts := parts |}.
End CompletionHandler.

(** ** What composing produces *)

(** The plan names a stored part with this manifest. *)
Definition part_of (stored : list MultipartPart) (plan : MultipartPartPlan) (m : ObjectManifest) : Prop :=
  exists part, In part stored /\ p_part_number part = pp_part_number plan /\
    p_manifest part = Some m /\ validate m = Ok tt /\
    content_length m = pp_size plan /\ part_size part = pp_size plan /\
    p_e_tag part = pp_e_tag plan /\ whole_object (m_checksum m) = pp_checksum plan.

(** The chunks of a part, each with the object it belongs to. *)
Definition owned_chunks (m : ObjectManifest) : list (Uuid * ChunkRef) :=
  map (pair (object_id m)) (chunks m).

Definition points_at (c : ChunkRef) (source : Uuid * ChunkRef) : Prop :=
  exists n off, 0 <= n <= U32_MAX /\ is_u64 off /\ c = composed_chunk n off source.1 source.2.

(** [c] composes the parts [ms] of [plans]. *)
Record composes (plans : list MultipartPartPlan) (ms : list ObjectManifest) (c : Composition) : Prop := {
  cs_chunks : Forall2 points_at (co_chunks c) (flat_map owned_chunks ms);
  cs_offset : is_u64 (co_offset c);
  cs_count : Z.of_nat (length (co_chunks c)) <= U32_MAX + 1;
  cs_encryption : forall m, In m ms -> co_encryption c = Some (encryption m);
  cs_hashed : co_hashed c = composite_prefix ++
    concat (zip_with (fun plan m => part_component (pp_part_number plan) (pp_size plan) (m_checksum m)) plans ms)
}.

Lemma compose_chunks_points n owner sources cs off cs' off' :
  compose_chunks n owner sources cs off = Ok (cs', off') ->
  is_u64 off -> Forall chunk_typed sources -> Z.of_nat (length cs) <= U32_MAX + 1 ->
  is_u64 off' /\ Z.of_nat (length cs') <= U32_MAX + 1 /\
  exists new, cs' = cs ++ new /\ Forall2 points_at new (map (pair owner) sources).
Proof.
  revert cs off. induction sources as [|s sources IH]; intros cs off H Hoff Hty Hlen; cbn in H.
  { injection H as <- <-. split_and!; try done. exists []. by rewrite app_nil_r. }
  destruct (_ || _); [done|]. destruct (Z.ltb_spec U32_MAX (Z.of_nat (length cs))) as [|Hn]; [done|].
  destruct (u64_checked_add off (size s)) as [next|] eqn:Ea; [|done].
  inversion Hty as [|? ? [_ [_ Hsz]] Hty']; subst.
  assert (is_u64 next).
  { unfold u64_checked_add in Ea. destruct (Z.leb_spec (off + size s) U64_MAX); [|done].
    injection Ea as <-. unfold is_u64 in *. lia. }
  apply IH in H as (Ho & Hl & new & -> & Hnew); try done.
  2: { rewrite length_app. cbn. lia. }
  split_and!; try done. eexists (_ :: new). rewrite <- app_assoc. split; [reflexivity|].
  constructor; [|done]. exists (Z.of_nat (length cs)), off. split_and!; try done; lia.
Qed.

Lemma compose_part_step stored plan c c' :
  compose_part stored plan c = Ok c' ->
  exists m, part_of stored plan m /\ compose_chunks (pp_part_number plan) (object_id m) (chunks m)
      (co_chunks c) (co_offset c) = Ok (co_chunks c', co_offset c') /\
    co_encryption c' = Some (encryption m) /\
    (forall i, co_encryption c = Some i -> i = encryption m) /\
    co_hashed c' = co_hashed c ++ part_component (pp_part_number plan) (pp_size plan) (m_checksum m).
Proof.
  unfold compose_part. intros H. destruct (_ <=? _); [done|].
  destruct (find _ _) as [part|] eqn:Ef; [|done]. apply find_some in Ef as [Hin Hnum].
  apply in_rev in Hin. destruct (bool_decide_reflect (p_e_tag part = pp_e_tag plan)) as [He|]; [|done].
  destruct (p_manifest part) as [m|] eqn:Em; [|done].
  destruct (validate m) as [[]|e] eqn:Ev; [|done]. cbn [negb] in H.
  destruct (_ || _) eqn:Ebad; [done|]. bool_hyps.
  destruct (match co_encryption c with Some _ => _ | None => _ end) eqn:Eenc; [done|].
  destruct (compose_chunks _ _ _ _ _) as [[cs off]|] eqn:Ec; [|done]. injection H as <-.
  cbn [co_chunks co_offset co_encryption co_hashed]. exists m. assert (forall i, co_encryption c = Some i -> i = encryption m) as Hi.
  { intros i Hi. rewrite Hi in Eenc. by bool_hyps. }
  split_and!; try done.
  - exists part. split_and!; try done; congruence || lia.
  - destruct (co_encryption c) as [i|]; [|done]. f_equal. by apply Hi.
  - f_equal. f_equal. lia.
Qed.

Definition parts_typed (stored : list MultipartPart) : Prop :=
  forall part m, In part stored -> p_manifest part = Some m -> manifest_typed m.

Lemma compose_part_composes stored plans plan ms c c' :
  parts_typed stored -> length plans = length ms -> composes plans ms c ->
  compose_part stored plan c = Ok c' ->
  exists m, part_of stored plan m /\ composes (plans ++ [plan]) (ms ++ [m]) c'.
Proof.
  intros Hty Hlen [Hch Hoff Hn Henc Hh] H.
  apply compose_part_step in H as (m & Hm & Hc & He & Hold & Hhash).
  exists m. split; [done|]. destruct Hm as (part & Hin & _ & Hpm & _).
  apply compose_chunks_points in Hc as (Ho' & Hn' & new & Hcs & Hnew); [|done|apply (Hty part m Hin Hpm)|done].
  split; try done.
  - rewrite Hcs, flat_map_app. cbn. rewrite app_nil_r. by apply Forall2_app.
  - intros m' [Hm'|[<-|[]]]%in_app_or; [|done]. rewrite He. f_equal. symmetry.
    apply Hold. by apply Henc.
  - rewrite zip_with_app by done. rewrite concat_app. cbn [zip_with concat]. rewrite app_nil_r.
    by rewrite (assoc_L (++)), <- Hh, Hhash.
Qed.

Lemma compose_composes stored plans plans0 ms0 c c' :
  parts_typed stored -> length plans0 = length ms0 -> composes plans0 ms0 c ->
  compose stored plans c = Ok c' ->
  exists ms, Forall2 (part_of stored) plans ms /\ composes (plans0 ++ plans) (ms0 ++ ms) c'.
Proof.
  intros Hty. revert plans0 ms0 c. induction plans as [|plan plans IH]; intros plans0 ms0 c Hlen Hc H; cbn in H.
  { injection H as <-. exists []. rewrite !app_nil_r. by split. }
  destruct (compose_part stored plan c) as [c1|] eqn:E; [|done].
  eapply (compose_part_composes stored plans0 plan ms0) in E as (m & Hm & Hc1); [|done..].
  eapply (IH (plans0 ++ [plan]) (ms0 ++ [m])) in H as (ms & Hms & Hc'); [|rewrite !length_app; cbn; lia|done].
  exists (m :: ms). rewrite <- !app_assoc in Hc'. split; [by constructor|done].
Qed.

Lemma nothing_composes : composes [] [] nothing_composed.
Proof. split; try done; cbn; unfold is_u64, U32_MAX, U64_MAX; lia. Qed.

(** ** Reading a composed object *)

Section ReadComposed.
Context (download : string -> Z -> Result (list byte) ObjectFormatError.t).
Context (decrypt_chunk : Uuid -> Z -> list byte -> Result (list byte) ObjectFormatError.t).
Context (sha256_hex : list byte -> string).

Definition readable (m : ObjectManifest) (c : ChunkRef) (b : list byte) : Prop :=
  fits c b /\ chunk_available download decrypt_chunk sha256_hex m c b.

(** Telegram holds the parts with these blocks. *)
Definition part_readable (m : ObjectManifest) (bs : list (list byte)) : Prop :=
  Forall2 (readable m) (chunks m) bs.

Lemma composed_chunk_readable m m' c source b :
  points_at c (object_id m, source) -> encryption m' = encryption m ->
  readable m source b -> readable m' c b.
Proof.
  intros (n & off & _ & _ & ->) He [Hf [Hid (ct & Hd & Hdec & Hs)]]. cbn.
  split; [exact Hf|]. split; [exact Hid|]. exists ct. rewrite He. split_and!; [exact Hd|exact Hdec|exact Hs].
Qed.

Lemma composed_readable ms bss m' cs :
  Forall2 part_readable ms bss -> Forall2 points_at cs (flat_map owned_chunks ms) ->
  (forall m, In m ms -> encryption m' = encryption m) ->
  Forall2 (readable m') cs (concat bss).
Proof.
  intros Hms. revert cs. induction Hms as [|m bs ms bss Hm Hms IH]; intros cs Hcs He; cbn in *.
  { inversion Hcs. constructor. }
  apply Forall2_app_inv_r in Hcs as (c1 & c2 & H1 & H2 & ->). apply Forall2_app; [|auto].
  clear - H1 Hm He. unfold owned_chunks, part_readable in *. revert bs c1 Hm H1.
  generalize (chunks m) as sources. induction sources as [|s sources IH]; intros bs c1 Hm H1;
    inversion Hm; inversion H1; subst; constructor; [|by eapply IH].
  eapply composed_chunk_readable; [done|by apply He; left|done].
Qed.
End ReadComposed.

(** ** The composite digest *)

(** The integer a big-endian byte string stands for. *)
Fixpoint be_value (acc : Z) (l : list byte) : Z :=
  match l with [] => acc | b :: l => be_value (acc * 256 + Z.of_N (Byte.to_N b)) l end.

Lemma be_bytes_step k x :
  exists b, Z.of_N (Byte.to_N b) = (x / 256 ^ Z.of_nat k) mod 256 /\
    be_bytes (S k) x = b :: be_bytes k x.
Proof.
  pose proof (Z.mod_pos_bound (x / 256 ^ Z.of_nat k) 256 ltac:(lia)) as Hb.
  unfold be_bytes at 1. fold be_bytes.
  destruct (Byte.of_N (Z.to_N _)) as [b|] eqn:E.
  - exists b. apply Byte.to_of_N in E. split; [|done]. rewrite E. lia.
  - apply Byte.of_N_None_iff in E. lia.
Qed.

Lemma length_be_bytes k x : length (be_bytes k x) = k.
Proof.
  induction k as [|k IH]; [done|]. destruct (be_bytes_step k x) as (b & _ & ->). cbn. by rewrite IH.
Qed.

Lemma be_value_bytes k x acc : 0 <= x ->
  be_value acc (be_bytes k x) = acc * 256 ^ Z.of_nat k + x mod 256 ^ Z.of_nat k.
Proof.
  intros Hx. revert acc. induction k as [|k IH]; intros acc.
  { change (be_bytes 0 x) with (@nil byte). change (256 ^ Z.of_nat 0) with 1. cbn [be_value]. rewrite Z.mod_1_r. lia. }
  destruct (be_bytes_step k x) as (b & Hb & ->). cbn [be_value]. rewrite IH, Hb.
  rewrite Nat2Z.inj_succ, Z.pow_succ_r by lia.
  assert (0 < 256 ^ Z.of_nat k) by (apply Z.pow_pos_nonneg; lia).
  rewrite (Z.mul_comm 256), Z.rem_mul_r by lia. ring.
Qed.

Lemma be_bytes_inj k x y :
  0 <= x < 256 ^ Z.of_nat k -> 0 <= y < 256 ^ Z.of_nat k -> be_bytes k x = be_bytes k y -> x = y.
Proof.
  intros Hx Hy H. apply (f_equal (be_value 0)) in H. rewrite !be_value_bytes in H by lia.
  rewrite !Z.mod_small in H by lia. lia.
Qed.

Lemma app_inj_length {A} (a b c d : list A) : length a = length b -> a ++ c = b ++ d -> a = b /\ c = d.
Proof. intros Hl H. by apply app_inj_1 in H. Qed.

Lemma as_bytes_inj s t : as_bytes s = as_bytes t -> s = t.
Proof.
  intros H. rewrite <- (String.string_of_list_byte_of_string s), <- (String.string_of_list_byte_of_string t).
  unfold as_bytes in H. by rewrite H.
Qed.

Definition text_fits (s : string) : Prop := Z.of_nat (length (as_bytes s)) <= U64_MAX.

Lemma checksum_component_inj s t a b :
  text_fits s -> text_fits t -> checksum_component s ++ a = checksum_component t ++ b -> s = t /\ a = b.
Proof.
  unfold checksum_component, text_fits, U64_MAX. intros Hs Ht H. rewrite <- !app_assoc in H.
  apply app_inj_length in H as [Hl H]; [|by rewrite !length_be_bytes].
  apply be_bytes_inj in Hl; [|change (256 ^ Z.of_nat 8) with 18446744073709551616; lia..].
  apply app_inj_length in H as [H ->]; [|lia]. split; [by apply as_bytes_inj|done].
Qed.

(** What the digest of a part covers, with the ranges of the fields. *)
Definition digested (plan : MultipartPartPlan) (m : ObjectManifest) : Z * Z * string * string :=
  (pp_part_number plan, pp_size plan, algorithm (m_checksum m), whole_object (m_checksum m)).

Definition digest_typed (plan : MultipartPartPlan) (m : ObjectManifest) : Prop :=
  is_u32 (pp_part_number plan) /\ is_u64 (pp_size plan) /\
  text_fits (algorithm (m_checksum m)) /\ text_fits (whole_object (m_checksum m)).

Definition component (plan : MultipartPartPlan) (m : ObjectManifest) : list byte :=
  part_component (pp_part_number plan) (pp_size plan) (m_checksum m).

Lemma component_inj plan m plan' m' a b :
  digest_typed plan m -> digest_typed plan' m' -> component plan m ++ a = component plan' m' ++ b ->
  digested plan m = digested plan' m' /\ a = b.
Proof.
  intros (Hn & Hz & Ha & Hw) (Hn' & Hz' & Ha' & Hw') H. unfold component, part_component in H.
  unfold is_u32, is_u64, U32_MAX, U64_MAX in *.
  rewrite <- !app_assoc in H. apply app_inj_length in H as [H1 H]; [|by rewrite !length_be_bytes].
  apply app_inj_length in H as [H2 H]; [|by rewrite !length_be_bytes].
  apply checksum_component_inj in H as [H3 H]; [|done..].
  apply checksum_component_inj in H as [H4 H]; [|done..]. split; [|done]. unfold digested.
  apply be_bytes_inj in H1; [|change (256 ^ Z.of_nat 4) with 4294967296; lia..].
  apply be_bytes_inj in H2; [|change (256 ^ Z.of_nat 8) with 18446744073709551616; lia..].
  congruence.
Qed.

Lemma components_inj plans ms plans' ms' :
  Forall2 digest_typed plans ms -> Forall2 digest_typed plans' ms' ->
  concat (zip_with component plans ms) = concat (zip_with component plans' ms') ->
  zip_with digested plans ms = zip_with digested plans' ms'.
Proof.
  intros H1. revert plans' ms'. induction H1 as [|p m plans ms Hp H1 IH]; intros plans' ms' H2 H;
    destruct H2 as [|p' m' plans' ms' Hp' H2]; cbn in *; try done.
  - exfalso. apply (f_equal length) in H. unfold component, part_component in H.
    rewrite !length_app, !length_be_bytes in H. cbn in H. lia.
  - exfalso. apply (f_equal length) in H. unfold component, part_component in H.
    rewrite !length_app, !length_be_bytes in H. cbn in H. lia.
  - apply component_inj in H as [-> H]; [|done..]. f_equal. by apply IH.
Qed.

Lemma compose_manifest_ok {W} (answer : forall B, Io B -> W -> B * W) sha256_hex plan session stored w db m w' db' :
  interp answer (compose_manifest sha256_hex plan session stored) w db = (Ok m, w', db') ->
  exists c info created chat,
    compose stored (pl_parts plan) nothing_composed = Ok c /\ co_encryption c = Some info /\
    co_offset c = pl_content_length plan /\
    m = completed_manifest sha256_hex plan session c info created chat /\ validate m = Ok tt.
Proof.
  intros H. apply interp_ok in H as ([] & w1 & d1 & _ & H).
  destruct (compose stored (pl_parts plan) nothing_composed) as [c|[message|]] eqn:Ec; [|done|].
  - destruct (Z.eqb_spec (co_offset c) (pl_content_length plan)) as [Ho|]; [|done]. cbn [negb] in H.
    apply interp_ok in H as (E & w2 & d2 & _ & H). apply interp_ok in H as (info & w3 & d3 & Hi & H).
    destruct (co_encryption c) as [i|] eqn:Ei; [|done]. cbn in Hi. injection Hi as -> _ _.
    apply interp_ok in H as (chat & w4 & d4 & _ & H).
    destruct (validate _) as [[]|e] eqn:Ev; [|done]. cbn in H. injection H as <- _ _.
    eexists c, info, _, chat. split_and!; [done..|reflexivity|exact Ev].
  - apply interp_ok in H as (E & w2 & d2 & _ & H). apply interp_ok in H as (x & w3 & d3 & _ & H). done.
Qed.

Lemma concat_nested {A} (l : list (list (list A))) : concat (concat l) = concat (map (@concat A) l).
Proof. induction l as [|x l IH]; [done|]. cbn. by rewrite concat_app, IH. Qed.

Lemma points_at_typed c source : points_at c source -> chunk_typed source.2 -> chunk_typed c.
Proof.
  intros (n & off & Hn & Hoff & ->) (_ & _ & Hs). unfold composed_chunk.
  destruct (payload_identity _ _) as [obj ord]. by split_and!.
Qed.

Lemma composed_typed plans ms c :
  composes plans ms c -> (forall m, In m ms -> manifest_typed m) -> Forall chunk_typed (co_chunks c).
Proof.
  intros [Hch _ _ _ _] Hms. apply Forall_forall. intros x Hx.
  apply list_elem_of_lookup in Hx as [i Hi].
  destruct (Forall2_lookup_l _ _ _ _ _ Hch Hi) as ([owner source] & Hs & Hp).
  apply (points_at_typed x (owner, source)); [done|]. cbn.
  apply list_elem_of_lookup_2, list_elem_of_In, in_flat_map in Hs as (m & Hm & Hin).
  apply in_map_iff in Hin as (y & [= _ ->] & Hy). destruct (Hms m Hm) as [_ Hall].
  rewrite Forall_forall in Hall. by apply Hall, list_elem_of_In.
Qed.

(** ** Theorems *)

(** C10: a multipart object is its parts.  When the plan composes, the new
    manifest is valid and as long as planned, and once it is committed, any
    range of it reads as that range of the parts' contents one after the other,
    in the order of the plan: nothing is copied, yet nothing is lost, repeated
    or decrypted under the wrong identity. *)
Theorem multipart_reads_as_parts {W} (answer : forall B, Io B -> W -> B * W) download decrypt_chunk
    sha256_hex plan session stored w db m w' db'
    (Hty : parts_typed stored)
    (H : interp answer (compose_manifest sha256_hex plan session stored) w db = (Ok m, w', db')) :
  validate m = Ok tt /\ content_length m = pl_content_length plan /\
  exists ms, Forall2 (part_of stored) (pl_parts plan) ms /\
  forall bss bkt k now start stop,
    Forall2 (part_readable download decrypt_chunk sha256_hex) ms bss ->
    is_expired m now = false -> 0 <= start <= stop -> stop <= content_length m ->
    read_range_to_writer download decrypt_chunk sha256_hex bkt k
      (Some (m <| commit_state := CommitState.Committed |>)) now start stop
    = Written (take (Z.to_nat (stop - start)) (drop (Z.to_nat start) (concat (map (@concat byte) bss)))).
Proof.
  apply compose_manifest_ok in H as (c & info & created & chat & Hc & Hi & Ho & -> & Hv).
  split; [done|]. split; [done|].
  apply (compose_composes stored _ [] []) in Hc as (ms & Hms & Hc); [|done..|apply nothing_composes].
  exists ms. split; [done|]. intros bss bkt k now start stop Hb Hx Hr Hs. cbn [app] in Hc.
  assert (forall m, In m ms -> manifest_typed m) as Hmt.
  { intros m Hm. apply list_elem_of_In, list_elem_of_lookup in Hm as [i Hm].
    destruct (Forall2_lookup_r _ _ _ _ _ Hms Hm) as (p & _ & part & Hin & _ & Hpm & _). by eapply Hty. }
  rewrite (read_range_available _ _ _ _ _ _ (concat bss)); try done.
  - by rewrite concat_nested.
  - split; [apply (cs_offset _ _ _ Hc)|by eapply composed_typed].
  - apply (cs_count _ _ _ Hc).
  - refine (composed_readable _ _ _ ms bss _ _ Hb (cs_chunks _ _ _ Hc) _).
    intros m Hm. cbn. pose proof (cs_encryption _ _ _ Hc m Hm). congruence.
Qed.

(** the checksum of a multipart object distinguishes.  Two completions feed
    their hasher the same bytes only if they have the same parts: the same
    numbers, sizes, algorithms and checksums, in the same order. *)
Theorem composite_digest_distinguishes stored stored' plans plans' c c'
    (Hty : parts_typed stored) (Hty' : parts_typed stored')
    (Hc : compose stored plans nothing_composed = Ok c)
    (Hc' : compose stored' plans' nothing_composed = Ok c')
    (Hhash : co_hashed c = co_hashed c') :
  exists ms ms', Forall2 (part_of stored) plans ms /\ Forall2 (part_of stored') plans' ms' /\
    (Forall2 digest_typed plans ms -> Forall2 digest_typed plans' ms' ->
     zip_with digested plans ms = zip_with digested plans' ms').
Proof.
  apply (compose_composes stored _ [] []) in Hc as (ms & Hms & Hc); [|done..|apply nothing_composes].
  apply (compose_composes stored' _ [] []) in Hc' as (ms' & Hms' & Hc'); [|done..|apply nothing_composes].
  exists ms, ms'. split; [done|]. split; [done|]. intros Hd Hd'.
  rewrite (cs_hashed _ _ _ Hc), (cs_hashed _ _ _ Hc') in Hhash. apply app_inv_head in Hhash.
  by apply components_inj.
Qed.

(** The ETags a client sends with a completion are never compared: two requests
    that name the same part numbers get the same plan, whatever their ETags. *)
Theorem completion_ignores_etags parse_uuid uuid_error E input completed completed' db
    (Hparts : ci_parts input = Some completed)
    (Hnum : Forall2 (fun a b => cp_part_number a = cp_part_number b /\
                       is_some (cp_e_tag a) = is_some (cp_e_tag b)) completed completed') :
  completion_plan parse_uuid uuid_error E input db =
  completion_plan parse_uuid uuid_error E
    {| ci_bucket := ci_bucket input; ci_key := ci_key input; ci_upload_id := ci_upload_id input;
       ci_parts := Some completed'; ci_if_match := ci_if_match input;
       ci_if_none_match := ci_if_none_match input |} db.
Proof.
  assert (request_parts completed = request_parts completed') as Hr.
  { clear Hparts. induction Hnum as [|a b l l' [Hn He] _ IH]; [done|]. cbn. rewrite <- Hn, IH.
    by destruct (cp_e_tag a), (cp_e_tag b). }
  unfold completion_plan. rewrite Hparts. cbn [ci_parts ci_upload_id ci_bucket ci_key ci_if_match
    ci_if_none_match ok_or]. unfold mbind, IO_bind, mret, IO_ret, of_result. rewrite Hr. done.
Qed.

(** ** Witnesses *)

Definition sample_part (n : Z) (id : string) : MultipartPart :=
  {| p_upload_id := "u1"; p_part_number := n; part_size := 25; p_checksum := "abc"; p_e_tag := "abc";
     p_telegram := {| peer_id := "-1001"; message_id := 9; document_id := None |};
     p_manifest := Some (sample_manifest id "b" "k"); p_created_at := 0 |}.

Definition sample_parts : list MultipartPart := [sample_part 1 "p1"; sample_part 2 "p2"].

Definition sample_part_plan (n : Z) : MultipartPartPlan :=
  {| pp_part_number := n; pp_offset := 0; pp_size := 25; pp_checksum := "abc"; pp_e_tag := "abc" |}.

Definition sample_plan : MultipartCompletionPlan :=
  {| pl_upload_id := "u1"; pl_object_id := "u1"; pl_bucket := "b"; pl_key := "k";
     pl_content_type := "text/plain"; pl_checksum_algorithm := ms_checksum_algorithm sample_session;
     pl_content_length := 50; pl_parts := [sample_part_plan 1; sample_part_plan 2] |}.

Definition sample_bytes (message : Z) : list byte :=
  if message =? 12 then repeat Byte.x63 5 else repeat (if message =? 10 then Byte.x61 else Byte.x62) 10.

Definition parts_download (_ : string) (message : Z) : Result (list byte) ObjectFormatError.t :=
  Ok (sample_bytes message).

Definition sample_composed : Result ObjectManifest ObjectFormatError.t * nat * Db :=
  interp sample_answer (compose_manifest (fun _ => "c0ffee") sample_plan sample_session sample_parts)
    0%nat empty_db.

Definition sample_composed_manifest : ObjectManifest :=
  match sample_composed.1.1 with Ok m => m | Err _ => sample_manifest "o" "b" "k" end.

Lemma sample_composed_ok :
  sample_composed = (Ok sample_composed_manifest, sample_composed.1.2, sample_composed.2).
Proof. vm_compute. reflexivity. Qed.

Lemma sample_parts_typed : parts_typed sample_parts.
Proof.
  intros part m [<-|[<-|[]]] [= <-]; apply sample_manifest_typed.
Qed.

Lemma multipart_reads_as_parts_witness :
  exists ms, length ms = 2%nat /\
  forall bss, Forall2 (part_readable parts_download toy_decrypt (fun _ => "c0ffee")) ms bss ->
  read_range_to_writer parts_download toy_decrypt (fun _ => "c0ffee") "b" "k"
    (Some (sample_composed_manifest <| commit_state := CommitState.Committed |>)) 0 24 26
  = Written (take 2 (drop 24 (concat (map (@concat byte) bss)))).
Proof.
  destruct (multipart_reads_as_parts sample_answer parts_download toy_decrypt (fun _ => "c0ffee")
              sample_plan sample_session sample_parts 0%nat empty_db sample_composed_manifest
              sample_composed.1.2 sample_composed.2 sample_parts_typed sample_composed_ok)
    as (_ & _ & ms & Hms & Hread).
  exists ms. split; [exact (eq_sym (Forall2_length _ _ _ Hms))|]. intros bss Hb.
  apply (Hread bss "b" "k" 0 24 26 Hb); [vm_compute; reflexivity|lia|].
  change (26 <= 50). lia.
Defined.

Lemma sample_compose_ok : is_ok (compose sample_parts (pl_parts sample_plan) nothing_composed) = true.
Proof. vm_compute. reflexivity. Qed.

Lemma composite_digest_distinguishes_witness :
  exists c, compose sample_parts (pl_parts sample_plan) nothing_composed = Ok c /\
  exists ms ms', Forall2 (part_of sample_parts) (pl_parts sample_plan) ms /\
    (Forall2 digest_typed (pl_parts sample_plan) ms -> Forall2 digest_typed (pl_parts sample_plan) ms' ->
     zip_with digested (pl_parts sample_plan) ms = zip_with digested (pl_parts sample_plan) ms').
Proof.
  pose proof sample_compose_ok as Hok.
  destruct (compose sample_parts (pl_parts sample_plan) nothing_composed) as [c|] eqn:Ec; [|discriminate].
  exists c. split; [reflexivity|].
  destruct (composite_digest_distinguishes sample_parts sample_parts (pl_parts sample_plan)
              (pl_parts sample_plan) c c sample_parts_typed sample_parts_typed Ec Ec eq_refl)
    as (ms & ms' & H1 & _ & H2).
  exists ms, ms'. exact (conj H1 H2).
Defined.

Definition sample_input (etag : string) : CompleteMultipartUploadInput :=
  {| ci_bucket := "b"; ci_key := "k"; ci_upload_id := "u1";
     ci_parts := Some [{| cp_part_number := Some 1; cp_e_tag := Some (Strong etag) |}];
     ci_if_match := None; ci_if_none_match := None |}.

Lemma completion_ignores_etags_witness :
  completion_plan Some (fun s => s) (sample_env 1 "u") (sample_input "right") sample_open =
  completion_plan Some (fun s => s) (sample_env 1 "u") (sample_input "wrong") sample_open.
Proof.
  refine (completion_ignores_etags Some (fun s => s) (sample_env 1 "u") (sample_input "right")
            [{| cp_part_number := Some 1; cp_e_tag := Some (Strong "right") |}]
            [{| cp_part_number := Some 1; cp_e_tag := Some (Strong "wrong") |}] sample_open eq_refl _).
  repeat constructor.
Defined.
