(* ===== verification/Accounts.v ===== *)
(** * Accounts, replication and re-chunking jobs ([src/src/metadata/accounts.rs])

    The registry of Telegram accounts with their derived usage, the replicas of
    chunks, and the two queues behind the replication and the re-chunking
    worker.  A re-chunking job locks its object: reads are refused while the
    chunks are being replaced.

    The theorems: an object is locked exactly while a job of it is unfinished;
    the quota check is exact; and two defects of the queues, a job whose worker
    stopped keeps its object locked for ever, and an automatic replication that
    failed once is never run again. *)

From stdpp Require Import pretty.
From S2P Require Import Prelude Errors Manifest Schema Cleanup Transfers TransferSafety.
From S2P Require Import ManifestStore ManifestSafety IndexSafety Requests Listing Config Settings Programs Publish Reception.
From S2P Require Import Completion.

(** ** Accounts *)

Record AccountRecord : Type := {
  ac_id : string;
  ac_label : string;
  ac_phone : option string;
  ac_state : string;
  ac_download_enabled : bool;
  ac_storage_chat_id : option string;
  ac_quota_bytes : option Z;
  ac_used_bytes : Z;
  ac_replica_objects : Z;
  ac_access_objects : Z;
  ac_created_at : Z;
  ac_updated_at : Z
}.

Definition key_le {A} (f : A -> Z) (a b : A) : Prop := f a <= f b.

#[export] Instance key_le_dec {A} (f : A -> Z) : RelDecision (key_le f).
Proof. intros a b. unfold key_le. apply _. Defined.

Definition sql_order_by {A} (f : A -> Z) (t : list A) : list A := merge_sort (key_le f) t.

(** [COUNT(DISTINCT CASE WHEN r.mode=.. THEN r.object_id END)] over the ready
    replicas of the account. *)
Definition objects_in_mode (mode : ReplicaMode.t) (id : string) (db : Db) : Z :=
  Z.of_nat (length (remove_dups (map rl_object_id (sql_where (fun r =>
    bool_decide (rl_account_id r = id) && bool_decide (rl_state r = "ready")
    && bool_decide (rl_mode r = mode)) (replica_locations db))))).

Definition as_u64 (x : Z) : Z := x mod (U64_MAX + 1).

Section Json.
Context `{BootstrapJson}.

Definition account_record (id : string) (a : AccountRow) (db : Db) : Result AccountRecord MetadataError :=
  match from_json (ta_bootstrap_json a) with
  | Err _ => Err (Sqlite "malformed JSON")
  | Ok settings => Ok
      {| ac_id := id; ac_label := ta_label a; ac_phone := ta_phone a; ac_state := ta_state a;
         ac_download_enabled := ta_download_enabled a; ac_storage_chat_id := tb_storage_chat_id settings;
         ac_quota_bytes := as_u64 <$> ta_quota_bytes a; ac_used_bytes := Z.max (used_bytes db id) 0;
         ac_replica_objects := objects_in_mode ReplicaMode.Replica id db;
         ac_access_objects := objects_in_mode ReplicaMode.Access id db;
         ac_created_at := ta_created_at a; ac_updated_at := ta_updated_at a |}
  end.

Definition load_account (id : string) : M (option AccountRecord) :=
  a ← query (fun db => telegram_accounts db !! id);
  match a with
  | None => mret None
  | Some a => r ← query (account_record id a); r ← lift r; mret (Some r)
  end.

Fixpoint load_accounts (ids : list string) : M (list AccountRecord) :=
  match ids with
  | [] => mret []
  | id :: ids =>
      a ← load_account id;
      a ← some_or a (Sqlite "Query returned no rows");
      rest ← load_accounts ids;
      mret (a :: rest)
  end.

Definition list_telegram_accounts : M (list AccountRecord) :=
  ids ← query (fun db => map fst (sql_order_by (fun e => ta_created_at e.2)
                           (map_to_list (telegram_accounts db))));
  load_accounts ids.

Definition telegram_account (id : string) : M (option (AccountRecord * TelegramBootstrapSettings)) :=
  json ← query (fun db => ta_bootstrap_json <$> telegram_accounts db !! id);
  match json with
  | None => mret None
  | Some json =>
      record ← load_account id;
      record ← some_or record (Sqlite "Query returned no rows");
      match from_json json with
      | Ok settings => mret (Some (record, settings))
      | Err e => throw (Serde e)
      end
  end.

(** [quota_bytes]: [None] leaves the quota, [Some None] removes it. *)
Definition upsert_telegram_account (trim : string -> string) (E : Env) (id : option string) (label : string)
    (settings : TelegramBootstrapSettings) (phone : option string) (download_enabled : option bool)
    (quota_bytes : option (option Z)) : M AccountRecord :=
  let id := default (new_v4 E 0) id in
  let now := now_at E 0 in
  ensure (match quota_bytes with Some (Some q) => q <=? I64_MAX | _ => true end)
    (InvalidManifest "account quota is too large") ;;
  modify (fun db => db <| telegram_accounts ::= (fun t =>
    <[id := match t !! id with
            | None => {| ta_label := trim label; ta_bootstrap_json := to_json settings; ta_phone := phone;
                         ta_download_enabled := default true download_enabled;
                         ta_quota_bytes := default None quota_bytes; ta_state := "configured";
                         ta_created_at := now; ta_updated_at := now |}
            | Some a => a <| ta_label := trim label |> <| ta_bootstrap_json := to_json settings |>
                          <| ta_phone := phone |>
                          <| ta_download_enabled ::= (fun old => default old download_enabled) |>
                          <| ta_quota_bytes ::= (fun old => default old quota_bytes) |>
                          <| ta_state := "configured" |> <| ta_updated_at := now |>
            end]> t) |>) ;;
  record ← load_account id;
  some_or record (Sqlite "Query returned no rows").
End Json.

(** The replicas of the account go with it ([ON DELETE CASCADE]); replication
    jobs that name it keep it ([REFERENCES telegram_accounts(id)]). *)
Definition delete_telegram_account (id : string) : M bool :=
  active ← read_text_setting ACTIVE_CONNECTION_SETTING;
  ensure (negb (bool_decide (active = Some id)))
    (InvalidManifest "the active account cannot be removed; connect another account first") ;;
  present ← query (fun db => bool_decide (is_Some (telegram_accounts db !! id)));
  referenced ← query (fun db => sql_exists (fun j => bool_decide (rp_source_account_id j = id)
                         || bool_decide (rp_target_account_id j = id)) (replication_jobs db));
  ensure (negb (present && referenced)) (Sqlite "FOREIGN KEY constraint failed") ;;
  modify (fun db => db <| telegram_accounts ::= delete id |>
                       <| replica_locations ::= sql_delete (fun r =>
                            (present : bool) && bool_decide (rl_account_id r = id)) |>) ;;
  mret present.

Definition telegram_account_download_enabled (id : string) : M bool :=
  query (fun db => match telegram_accounts db !! id with
                   | Some a => ta_download_enabled a
                   | None => false
                   end).

(** ** Replication jobs *)

Definition foreign_key (id : string) : M unit :=
  present ← query (fun db => bool_decide (is_Some (telegram_accounts db !! id)));
  ensure present (Sqlite "FOREIGN KEY constraint failed").

Definition is_replication (id : string) (j : ReplicationRow) : bool := bool_decide (rp_id j = id).

Definition load_replication_job (id : string) : M ReplicationRow :=
  row ← query (fun db => sql_first (sql_where (is_replication id) (replication_jobs db)));
  some_or row (Sqlite "Query returned no rows").

Definition insert_replication_job (row : ReplicationRow) : M unit :=
  taken ← query (fun db => sql_exists (is_replication (rp_id row)) (replication_jobs db));
  ensure (negb taken) (Sqlite "UNIQUE constraint failed: replication_jobs.id") ;;
  foreign_key (rp_source_account_id row) ;;
  foreign_key (rp_target_account_id row) ;;
  modify (fun db => db <| replication_jobs ::= (fun t => t ++ [row]) |>).

Definition queue_replication (E : Env) (source target bkt : string) (object_keys : list string)
    (mode access_mode : string) : M ReplicationRow :=
  ensure (one_of mode ["one_time"; "automatic"]) (InvalidManifest "invalid replication mode") ;;
  ensure (one_of access_mode ["replica"; "access"]) (InvalidManifest "invalid replication access mode") ;;
  let id := new_v4 E 0 in
  let now := now_at E 0 in
  insert_replication_job
    {| rp_id := id; rp_source_account_id := source; rp_target_account_id := target; rp_bucket := bkt;
       rp_object_keys := object_keys; rp_mode := mode; rp_access_mode := access_mode; rp_state := "queued";
       rp_objects_total := 0; rp_objects_done := 0; rp_chunks_total := 0; rp_chunks_done := 0;
       rp_bytes_done := 0; rp_next_run := if bool_decide (mode = "automatic") then Some now else None;
       rp_last_run := None; rp_error := None; rp_created_at := now; rp_updated_at := now |} ;;
  load_replication_job id.

Definition list_replication_jobs : M (list ReplicationRow) :=
  query (fun db => sql_order_by (fun j => - rp_updated_at j) (replication_jobs db)).

Definition replication_due (now : Z) (j : ReplicationRow) : bool :=
  bool_decide (rp_state j = "queued")
  || (bool_decide (rp_state j = "scheduled")
      && match rp_next_run j with Some t => t <=? now | None => false end).

Definition update_replication (id : string) (f : ReplicationRow -> ReplicationRow) : M unit :=
  modify (fun db => db <| replication_jobs ::= sql_update (is_replication id) f |>).

Definition claim_replication_job (E : Env) : M (option ReplicationRow) := transaction (
  let now := now_at E 0 in
  row ← query (fun db => sql_first (sql_order_by rp_updated_at
                           (sql_where (replication_due now) (replication_jobs db))));
  match row with
  | None => mret None
  | Some row =>
      update_replication (rp_id row) (fun j => j <| rp_state := "processing" |> <| rp_updated_at := now |>) ;;
      job ← load_replication_job (rp_id row);
      mret (Some job)
  end).

(** A [u64] that does not fit the column is refused. *)
Definition sql_u64 (n : Z) : M unit := ensure (n <=? I64_MAX) (Sqlite "out of range integral type conversion attempted").

Definition update_replication_progress (E : Env) (id : string)
    (objects_total objects_done chunks_total chunks_done bytes_done : Z) : M unit :=
  for_each sql_u64 [objects_total; objects_done; chunks_total; chunks_done; bytes_done] ;;
  update_replication id (fun j =>
    j <| rp_objects_total := objects_total |> <| rp_objects_done := objects_done |>
      <| rp_chunks_total := chunks_total |> <| rp_chunks_done := chunks_done |>
      <| rp_bytes_done := bytes_done |> <| rp_updated_at := now_at E 0 |>).

Definition finish_replication (E : Env) (id state : string) (error : option string) (automatic : bool)
    : M unit :=
  update_replication id (fun j =>
    j <| rp_state := state |> <| rp_error := error |> <| rp_last_run := Some (now_at E 1) |>
      <| rp_next_run := if automatic then Some (now_at E 0 + 300) else None |>
      <| rp_updated_at := now_at E 1 |>).

Definition is_replica (obj : string) (n : Z) (account : string) (r : ReplicaRow) : bool :=
  bool_decide (rl_object_id r = obj) && (rl_chunk_order r =? n) && bool_decide (rl_account_id r = account).

(** [INSERT .. ON CONFLICT(object_id,chunk_order,account_id) DO UPDATE] *)
Definition insert_replica_location (E : Env) (obj : Uuid) (n : Z) (account : string) (mode : ReplicaMode.t)
    (location : TelegramLocation) : M unit :=
  let now := now_at E 0 in
  foreign_key account ;;
  modify (fun db => db <| replica_locations ::= (fun t =>
    if sql_exists (is_replica obj n account) t
    then sql_update (is_replica obj n account) (fun r =>
           {| rl_object_id := rl_object_id r; rl_chunk_order := rl_chunk_order r;
              rl_account_id := rl_account_id r; rl_mode := mode; rl_peer_id := peer_id location;
              rl_message_id := message_id location; rl_document_id := document_id location;
              rl_state := "ready"; rl_error := None; rl_created_at := rl_created_at r;
              rl_updated_at := now |}) t
    else t ++ [{| rl_object_id := obj; rl_chunk_order := n; rl_account_id := account; rl_mode := mode;
                  rl_peer_id := peer_id location; rl_message_id := message_id location;
                  rl_document_id := document_id location; rl_state := "ready"; rl_error := None;
                  rl_created_at := now; rl_updated_at := now |}]) |>).

(** A row of the join, in the order of the columns. *)
Record AccountAccess : Type := {
  aa_object_id : string;
  aa_bucket : string;
  aa_key : string;
  aa_chunk_order : Z;
  aa_account_id : string;
  aa_account_label : string;
  aa_replica : ReplicaRow
}.

Definition access_of (db : Db) (bkt : option string) (r : ReplicaRow) : option AccountAccess :=
  match object_manifests db !! rl_object_id r, telegram_accounts db !! rl_account_id r with
  | Some m, Some a =>
      if match bkt with Some b => bool_decide (om_bucket m = b) | None => true end
      then Some {| aa_object_id := rl_object_id r; aa_bucket := om_bucket m; aa_key := om_object_key m;
                   aa_chunk_order := rl_chunk_order r; aa_account_id := rl_account_id r;
                   aa_account_label := ta_label a; aa_replica := r |}
      else None
  | _, _ => None
  end.

(** [ORDER BY m.bucket,m.object_key,r.chunk_order,a.label] *)
Definition access_le (a b : AccountAccess) : Prop :=
  if negb (String.eqb (aa_bucket a) (aa_bucket b)) then text_le (aa_bucket a) (aa_bucket b) = true
  else if negb (String.eqb (aa_key a) (aa_key b)) then text_le (aa_key a) (aa_key b) = true
  else if negb (aa_chunk_order a =? aa_chunk_order b) then aa_chunk_order a < aa_chunk_order b
  else text_le (aa_account_label a) (aa_account_label b) = true.

#[export] Instance access_le_dec : RelDecision access_le.
Proof. intros a b. unfold access_le. repeat case_match; apply _. Defined.

Definition list_account_access (bkt : option string) : M (list AccountAccess) :=
  query (fun db => merge_sort access_le (omap (access_of db bkt) (replica_locations db))).

(** ** Re-chunking jobs *)

Definition is_rechunk (id : string) (j : RechunkRow) : bool := bool_decide (rc_id j = id).

Definition rechunk_job (id : string) : M (option RechunkRow) :=
  query (fun db => sql_first (sql_where (is_rechunk id) (rechunk_jobs db))).

Definition list_rechunk_jobs : M (list RechunkRow) :=
  query (fun db => sql_order_by (fun j => - rc_updated_at j) (rechunk_jobs db)).

(** [SELECT DISTINCT account_id,mode .. ORDER BY account_id,mode] *)
Definition mode_text (m : ReplicaMode.t) : string :=
  match m with ReplicaMode.Replica => "replica" | ReplicaMode.Access => "access" end.

Definition target_le (a b : RechunkReplicaTarget) : Prop :=
  if negb (String.eqb (rt_account_id a) (rt_account_id b)) then text_le (rt_account_id a) (rt_account_id b) = true
  else text_le (mode_text (rt_access_mode a)) (mode_text (rt_access_mode b)) = true.

#[export] Instance target_le_dec : RelDecision target_le.
Proof. intros a b. unfold target_le. repeat case_match; apply _. Defined.

#[export] Instance RechunkReplicaTarget_eq_dec : EqDecision RechunkReplicaTarget.
Proof. solve_decision. Defined.

Definition replica_targets (obj : string) (db : Db) : list RechunkReplicaTarget :=
  merge_sort target_le (remove_dups (map (fun r =>
    {| rt_account_id := rl_account_id r; rt_access_mode := rl_mode r |})
    (sql_where (fun r => bool_decide (rl_object_id r = obj) && bool_decide (rl_state r = "ready"))
       (replica_locations db)))).

Definition insert_rechunk_job (row : RechunkRow) : M unit :=
  taken ← query (fun db => sql_exists (is_rechunk (rc_id row)) (rechunk_jobs db));
  ensure (negb taken) (Sqlite "UNIQUE constraint failed: rechunk_jobs.id") ;;
  sql_u64 (rc_new_chunk_size row) ;;
  modify (fun db => db <| rechunk_jobs ::= (fun t => t ++ [row]) |>).

Definition insert_rechunk_lock (row : RechunkLockRow) : M unit :=
  taken ← query (fun db => sql_exists (fun l => bool_decide (lk_object_id l = lk_object_id row))
                             (rechunk_locks db));
  ensure (negb taken) (Sqlite "UNIQUE constraint failed: rechunk_locks.object_id") ;;
  taken ← query (fun db => sql_exists (fun l => bool_decide (lk_job_id l = lk_job_id row)) (rechunk_locks db));
  ensure (negb taken) (Sqlite "UNIQUE constraint failed: rechunk_locks.job_id") ;;
  modify (fun db => db <| rechunk_locks ::= (fun t => t ++ [row]) |>).

(** The transaction of [queue_rechunk]. *)
Definition enqueue_rechunk (E : Env) (bkt k : string) (new_chunk_size : Z) (apply_to_replicas : bool)
    : M unit :=
  let now := now_at E 0 in
  let id := new_v4 E 0 in
  transaction (
    row ← query (fun db =>
      match active_objects db !! (bkt, k) with
      | Some a => match object_manifests db !! ao_object_id a with
                  | Some m => Some (ao_object_id a, om_connection_id m)
                  | None => None
                  end
      | None => None
      end);
    row ← some_or row (ManifestNotFound (bkt +:+ "/" +:+ k));
    active ← read_text_setting ACTIVE_CONNECTION_SETTING;
    let source := if bool_decide (row.2 = "legacy") then default "legacy" active else row.2 in
    targets ← query (fun db => if apply_to_replicas then replica_targets row.1 db else []);
    insert_rechunk_job
      {| rc_id := id; rc_bucket := bkt; rc_object_key := k; rc_object_id := row.1;
         rc_source_account_id := source; rc_new_chunk_size := new_chunk_size;
         rc_apply_to_replicas := apply_to_replicas; rc_replica_targets := targets; rc_state := "queued";
         rc_chunks_total := 0; rc_chunks_done := 0; rc_bytes_done := 0; rc_error := None;
         rc_created_at := now; rc_updated_at := now |} ;;
    insert_rechunk_lock {| lk_object_id := row.1; lk_job_id := id; lk_created_at := now |}).

(** The job is read back after the commit, on another connection of the
    pool. *)
Definition queue_rechunk (E : Env) (bkt k : string) (new_chunk_size : Z) (apply_to_replicas : bool)
    : M RechunkRow :=
  enqueue_rechunk E bkt k new_chunk_size apply_to_replicas ;;
  job ← rechunk_job (new_v4 E 0);
  some_or job (InvalidManifest "rechunk job missing").

Definition update_rechunk (p : RechunkRow -> bool) (f : RechunkRow -> RechunkRow) : M unit :=
  modify (fun db => db <| rechunk_jobs ::= sql_update p f |>).

Definition claim_rechunk_job (E : Env) : M (option RechunkRow) := transaction (
  row ← query (fun db => sql_first (sql_order_by rc_created_at
                 (sql_where (fun j => bool_decide (rc_state j = "queued")) (rechunk_jobs db))));
  match row with
  | None => mret None
  | Some row =>
      update_rechunk (fun j => is_rechunk (rc_id row) j && bool_decide (rc_state j = "queued"))
        (fun j => j <| rc_state := "processing" |> <| rc_updated_at := now_at E 0 |>) ;;
      job ← rechunk_job (rc_id row);
      job ← some_or job (Sqlite "Query returned no rows");
      mret (Some job)
  end).

Definition update_rechunk_progress (E : Env) (id : string) (chunks_total chunks_done bytes_done : Z) : M unit :=
  for_each sql_u64 [chunks_total; chunks_done; bytes_done] ;;
  update_rechunk (is_rechunk id) (fun j =>
    j <| rc_chunks_total := chunks_total |> <| rc_chunks_done := chunks_done |>
      <| rc_bytes_done := bytes_done |> <| rc_updated_at := now_at E 0 |>).

Definition finish_rechunk (E : Env) (id state : string) (error : option string) : M unit := transaction (
  update_rechunk (is_rechunk id) (fun j =>
    j <| rc_state := state |> <| rc_error := error |> <| rc_updated_at := now_at E 0 |>) ;;
  modify (fun db => db <| rechunk_locks ::= sql_delete (fun l => bool_decide (lk_job_id l = id)) |>)).

(** ** Locks *)

Definition unfinished_state (state : string) : bool := one_of state ["queued"; "processing"].

Definition unfinished (j : RechunkRow) : bool := unfinished_state (rc_state j).

Arguments unfinished : simpl never.

(** Each unfinished job holds the lock of its object, and there are no other
    locks. *)
Record rechunk_wf (db : Db) : Prop := {
  rw_jobs : List.NoDup (map rc_id (rechunk_jobs db));
  rw_locks : List.NoDup (map lk_object_id (rechunk_locks db));
  rw_held : forall j, In j (rechunk_jobs db) -> unfinished j = true ->
    exists l, In l (rechunk_locks db) /\ lk_job_id l = rc_id j /\ lk_object_id l = rc_object_id j;
  rw_owner : forall l, In l (rechunk_locks db) ->
    exists j, In j (rechunk_jobs db) /\ unfinished j = true /\ rc_id j = lk_job_id l /\
      rc_object_id j = lk_object_id l
}.

Definition rechunk_tables (db : Db) := (rechunk_jobs db, rechunk_locks db).

(** The calls of the program: the two ends of the queue, the worker's reports,
    and any operation that leaves the two tables alone. *)
Inductive rechunk_call : forall {A}, M A -> Prop :=
| rechunk_queues E bkt k n r : rechunk_call (queue_rechunk E bkt k n r)
| rechunk_claims E : rechunk_call (claim_rechunk_job E)
| rechunk_reports E id n m b : rechunk_call (update_rechunk_progress E id n m b)
| rechunk_finishes E id state error : unfinished_state state = false ->
    rechunk_call (finish_rechunk E id state error)
| rechunk_else {A} (m : M A) : steps (same rechunk_tables) m -> rechunk_call m.

Lemma rechunk_wf_same db db' : rechunk_tables db' = rechunk_tables db -> rechunk_wf db -> rechunk_wf db'.
Proof. intros [= Hj Hl] [H1 H2 H3 H4]. by split; rewrite ?Hj, ?Hl. Qed.

(** An update of jobs that keeps what the locks are about. *)
Lemma rechunk_wf_update p f db :
  (forall j, rc_id (f j) = rc_id j /\ rc_object_id (f j) = rc_object_id j) ->
  (forall j, p j = true -> unfinished (f j) = unfinished j) ->
  rechunk_wf db -> rechunk_wf (db <| rechunk_jobs ::= sql_update p f |>).
Proof.
  intros Hf Hu [H1 H2 H3 H4]. split; cbn; [by rewrite sql_update_map by apply Hf|done|..].
  - intros j Hj Hun. apply In_sql_update in Hj as (j0 & Hj0 & ->).
    destruct (p j0) eqn:Ep; [|by apply H3]. rewrite Hu in Hun by done.
    destruct (Hf j0) as [-> ->]. by apply H3.
  - intros l Hl. destruct (H4 l Hl) as (j & Hj & Hun & Hid & Hobj).
    exists (if p j then f j else j). split; [apply In_sql_update; eauto|].
    destruct (p j) eqn:Ep; [|done]. rewrite Hu by done. destruct (Hf j) as [-> ->]. done.
Qed.

Lemma for_each_u64 ns db u d : for_each sql_u64 ns db = (u, d) -> d = db.
Proof.
  revert db u. induction ns as [|n ns IH]; intros db u; cbn; [by intros [= _ <-]|].
  unfold mbind, M_bind, sql_u64, ensure. destruct (n <=? I64_MAX); cbn; [apply IH|by intros [= _ <-]].
Qed.

Lemma queue_rechunk_run E bkt k n r db :
  rechunk_tables (queue_rechunk E bkt k n r db).2 = rechunk_tables db \/
  exists j l, rechunk_tables (queue_rechunk E bkt k n r db).2 = (rechunk_jobs db ++ [j], rechunk_locks db ++ [l]) /\
    rc_state j = "queued" /\ lk_job_id l = rc_id j /\ lk_object_id l = rc_object_id j /\
    ~ In (rc_id j) (map rc_id (rechunk_jobs db)) /\ ~ In (lk_object_id l) (map lk_object_id (rechunk_locks db)).
Proof.
  assert ((queue_rechunk E bkt k n r db).2 = (enqueue_rechunk E bkt k n r db).2) as ->.
  { unfold queue_rechunk, mbind, M_bind, rechunk_job, query.
    destruct (enqueue_rechunk E bkt k n r db) as [[[]|e] d]; [|done]. by destruct (sql_first _). }
  destruct (enqueue_rechunk E bkt k n r db) as [[[]|e] d] eqn:Hb; cbn [snd].
  - right.
    apply (proj1 (transaction_ok _ _ _ _)) in Hb. apply bind_ok in Hb as (row & d1 & Hq & Hb). injection Hq as Hrow <-.
    apply bind_ok in Hb as (row' & d2 & Hs & Hb). apply some_or_ok in Hs as [_ ->].
    apply bind_ok in Hb as (active & d3 & Hq & Hb). injection Hq as _ <-.
    apply bind_ok in Hb as (targets & d4 & Hq & Hb). injection Hq as _ <-.
    apply bind_ok in Hb as ([] & d5 & Hj & Hb).
    apply bind_ok in Hj as (taken & d6 & Hq & Hj). injection Hq as Htaken <-.
    apply bind_ok in Hj as ([] & d7 & He & Hj). apply ensure_ok in He as [He ->].
    apply bind_ok in Hj as ([] & d8 & He' & Hj). apply ensure_ok in He' as [_ ->].
    injection Hj as <-.
    apply bind_ok in Hb as (t1 & d9 & Hq & Hb). injection Hq as Ht1 <-.
    apply bind_ok in Hb as ([] & d10 & He1 & Hb). apply ensure_ok in He1 as [He1 ->].
    apply bind_ok in Hb as (t2 & d11 & Hq & Hb). injection Hq as _ <-.
    apply bind_ok in Hb as ([] & d12 & He2 & Hb). apply ensure_ok in He2 as [_ ->].
    injection Hb as <-. eexists _, _. split; [reflexivity|]. cbn in *. split_and!; try done.
    + intros (j & Hj & Hin)%in_map_iff. rewrite <- Htaken in He. apply negb_true_iff in He.
      pose proof (proj1 (sql_exists_false _ _) He j Hin) as Hx. unfold is_rechunk in Hx. bool_hyps. done.
    + intros (l & Hl & Hin)%in_map_iff. rewrite <- Ht1 in He1. apply negb_true_iff in He1.
      pose proof (proj1 (sql_exists_false _ _) He1 l Hin) as Hx. cbn in Hx. bool_hyps. done.
  - left. by apply transaction_err in Hb as ->.
Qed.

Lemma sql_first_sorted {A} (f : A -> Z) t x : sql_first (sql_order_by f t) = Some x -> In x t.
Proof.
  intros H. apply sql_first_In in H. unfold sql_order_by in H.
  by rewrite <- list_elem_of_In, merge_sort_Permutation, list_elem_of_In in H.
Qed.

(** A claim takes a queued job and returns it. *)
Lemma claim_rechunk_run E db r db' :
  claim_rechunk_job E db = (r, db') ->
  (db' = db /\ forall job, r <> Ok (Some job)) \/
  exists row, In row (rechunk_jobs db) /\ rc_state row = "queued" /\
    db' = db <| rechunk_jobs ::= sql_update (fun j => is_rechunk (rc_id row) j && bool_decide (rc_state j = "queued"))
                  (fun j => j <| rc_state := "processing" |> <| rc_updated_at := now_at E 0 |>) |> /\
    forall job, r = Ok (Some job) -> rc_id job = rc_id row.
Proof.
  unfold claim_rechunk_job. intros H. destruct r as [job|e]; [|left; split; [by apply transaction_err in H|done]].
  apply (proj1 (transaction_ok _ _ _ _)) in H. apply bind_ok in H as (row & d & Hq & H). injection Hq as Hrow <-.
  destruct row as [row|]; [|injection H as <- <-; by left]. right.
  apply sql_first_sorted, In_sql_where in Hrow as [Hin Hq].
  apply bind_ok in H as ([] & d1 & Hm & H). injection Hm as <-.
  apply bind_ok in H as (j & d2 & Hj & H). injection Hj as Hj <-.
  apply bind_ok in H as (j' & d3 & Hs & H). apply some_or_ok in Hs as [-> ->]. injection H as <- <-.
  exists row. bool_hyps. split_and!; [done..|]. intros job [= ->].
  apply sql_first_where in Hj as [_ Hj]. unfold is_rechunk in Hj. by bool_hyps.
Qed.

Lemma claim_keeps_jobs E row db :
  rechunk_wf db ->
  rechunk_wf (db <| rechunk_jobs ::= sql_update (fun j => is_rechunk (rc_id row) j && bool_decide (rc_state j = "queued"))
                  (fun j => j <| rc_state := "processing" |> <| rc_updated_at := now_at E 0 |>) |>).
Proof.
  apply rechunk_wf_update; [done|]. intros j Hj. bool_hyps. unfold unfinished.
  match goal with H : rc_state j = _ |- _ => by rewrite H end.
Qed.

Lemma progress_run E id n m b db :
  (update_rechunk_progress E id n m b db).2 = db \/
  (update_rechunk_progress E id n m b db).2 = db <| rechunk_jobs ::= sql_update (is_rechunk id) (fun j =>
    j <| rc_chunks_total := n |> <| rc_chunks_done := m |> <| rc_bytes_done := b |> <| rc_updated_at := now_at E 0 |>) |>.
Proof.
  unfold update_rechunk_progress, mbind, M_bind.
  destruct (for_each sql_u64 [n; m; b] db) as [[u|e] d] eqn:Ef; apply for_each_u64 in Ef as ->; auto.
Qed.

Lemma finish_rechunk_run E id state error db :
  rechunk_tables (finish_rechunk E id state error db).2 =
    (sql_update (is_rechunk id) (fun j =>
       j <| rc_state := state |> <| rc_error := error |> <| rc_updated_at := now_at E 0 |>) (rechunk_jobs db),
     sql_delete (fun l => bool_decide (lk_job_id l = id)) (rechunk_locks db)).
Proof. reflexivity. Qed.

Lemma finish_rechunk_wf E id state error db :
  unfinished_state state = false -> rechunk_wf db -> rechunk_wf (finish_rechunk E id state error db).2.
Proof.
  intros Hs [H1 H2 H3 H4]. pose proof (f_equal fst (finish_rechunk_run E id state error db)) as Hj'.
  pose proof (f_equal snd (finish_rechunk_run E id state error db)) as Hl'. cbn [fst snd rechunk_tables] in Hj', Hl'.
  split; rewrite ?Hj', ?Hl'.
  - by rewrite sql_update_map.
  - by apply NoDup_map_filter.
  - intros j Hj Hu. apply In_sql_update in Hj as (j0 & Hj0 & ->).
    destruct (is_rechunk id j0) eqn:Ei; [change (unfinished_state state = true) in Hu; congruence|].
    destruct (H3 j0 Hj0 Hu) as (l & Hl & Hlj & Hlo). exists l. split_and!; try done.
    apply In_sql_delete. split; [done|]. unfold is_rechunk in Ei. bool_hyps.
    apply bool_decide_eq_false_2. congruence.
  - intros l Hl. apply In_sql_delete in Hl as [Hl Hne]. bool_hyps.
    destruct (H4 l Hl) as (j & Hj & Hu & Hid & Ho). exists j. split_and!; try done.
    apply In_sql_update. exists j. split; [done|]. unfold is_rechunk. by rewrite bool_decide_eq_false_2 by congruence.
Qed.

Lemma rechunk_call_wf {A} (m : M A) : rechunk_call m -> preserves rechunk_wf m.
Proof.
  intros Hm db Hwf. destruct Hm as [E bkt k n r|E|E id n m b|E id state error Hs|A m Hm].
  - destruct (queue_rechunk_run E bkt k n r db) as [H|(j & l & [= Hj Hl] & Hs & Hlj & Hlo & Hnj & Hnl)];
      [by eapply rechunk_wf_same|].
    destruct Hwf as [H1 H2 H3 H4]. split; rewrite ?Hj, ?Hl.
    + rewrite map_app. by apply NoDup_snoc.
    + rewrite map_app. by apply NoDup_snoc.
    + intros j' Hj' Hu. apply in_app_or in Hj' as [Hj'|[<-|[]]].
      * destruct (H3 j' Hj' Hu) as (l' & ? & ?). exists l'. rewrite in_app_iff. auto.
      * exists l. rewrite in_app_iff. cbn. auto.
    + intros l' Hl'. apply in_app_or in Hl' as [Hl'|[<-|[]]].
      * destruct (H4 l' Hl') as (j' & ? & ?). exists j'. rewrite in_app_iff. auto.
      * exists j. rewrite in_app_iff. cbn. unfold unfinished. rewrite Hs. auto 10.
  - destruct (claim_rechunk_job E db) as [r db'] eqn:Ec.
    destruct (claim_rechunk_run E db r db' Ec) as [[-> _]|(row & _ & _ & -> & _)]; [done|].
    by apply claim_keeps_jobs.
  - destruct (progress_run E id n m b db) as [->| ->]; [done|]. by apply rechunk_wf_update.
  - by apply finish_rechunk_wf.
  - eapply rechunk_wf_same; [apply Hm|done].
Qed.

Inductive rechunk_reachable : Db -> Prop :=
| rechunk_start : rechunk_reachable empty_db
| rechunk_next {A} (m : M A) db : rechunk_call m -> rechunk_reachable db -> rechunk_reachable (m db).2.

Lemma rechunk_reachable_wf db : rechunk_reachable db -> rechunk_wf db.
Proof.
  induction 1 as [|A m db Hm _ IH]; [|by apply rechunk_call_wf].
  split; cbn; [constructor|constructor|by intros j []|by intros l []].
Qed.

(** In every state the program can reach, an object is locked exactly
    while a re-chunking job of it is queued or running: a read is never refused
    because of a job that is done, an object being re-chunked is never served,
    and no two jobs work on the same object. *)
Theorem locked_while_rechunking db o :
  rechunk_reachable db ->
  ((object_rechunk_locked o db).1 = Ok true <->
   exists j, In j (rechunk_jobs db) /\ rc_object_id j = o /\ unfinished j = true) /\
  (forall i j, In i (rechunk_jobs db) -> In j (rechunk_jobs db) -> unfinished i = true -> unfinished j = true ->
     rc_object_id i = rc_object_id j -> i = j).
Proof.
  intros [H1 H2 H3 H4]%rechunk_reachable_wf. split.
  - unfold object_rechunk_locked, query. cbn [fst]. split.
    + intros [= H]. apply sql_exists_true in H as (l & Hl & Ho). bool_hyps.
      destruct (H4 l Hl) as (j & ? & ? & ? & ?). exists j. split_and!; congruence.
    + intros (j & Hj & Ho & Hu). destruct (H3 j Hj Hu) as (l & Hl & _ & Hlo). f_equal.
      apply sql_exists_true. exists l. split; [done|]. apply bool_decide_eq_true_2. congruence.
  - intros i j Hi Hj Hui Huj Ho. destruct (H3 i Hi Hui) as (l & Hl & Hlj & Hlo).
    destruct (H3 j Hj Huj) as (l' & Hl' & Hlj' & Hlo').
    assert (l = l') as <- by (eapply (NoDup_map_inj lk_object_id); [exact H2|done|done|congruence]).
    eapply (NoDup_map_inj rc_id); [exact H1|done|done|congruence].
Qed.

(** An object, with a job queued for it. *)
Definition sample_object : M unit := modify (fun db =>
  db <| object_manifests := {[ "o" :=
          {| om_connection_id := "c"; om_bucket := "b"; om_object_key := "k"; om_version_id := None;
             om_commit_state := CommitState.Committed;
             om_manifest := (sample_manifest "o" "b" "k") <| commit_state := CommitState.Committed |>;
             om_created_at := "t"; om_committed_at := Some "t"; om_tombstoned_at := None |} ]} |>
     <| active_objects := {[ ("b", "k") := {| ao_object_id := "o"; ao_updated_at := "t" |} ]} |>).

Definition sample_queued : Db :=
  (queue_rechunk (sample_env 3 "job") "b" "k" 100 false (sample_object empty_db).2).2.

Lemma sample_queued_reachable : rechunk_reachable sample_queued.
Proof.
  apply rechunk_next; [apply rechunk_queues|]. apply rechunk_next; [|apply rechunk_start].
  by apply rechunk_else.
Qed.

Lemma locked_while_rechunking_witness :
  (object_rechunk_locked "o" sample_queued).1 = Ok true /\
  exists j, In j (rechunk_jobs sample_queued) /\ rc_object_id j = "o" /\ unfinished j = true.
Proof.
  assert ((object_rechunk_locked "o" sample_queued).1 = Ok true) as H by (vm_compute; reflexivity).
  split; [exact H|]. exact (proj1 (proj1 (locked_while_rechunking sample_queued "o" sample_queued_reachable)) H).
Defined.

(** ** A restarted process *)

(** A process works only on the jobs it claimed itself. *)
Record Process : Type := {
  pr_db : Db;
  pr_claimed : list string
}.

Inductive process_step (p : Process) : Process -> Prop :=
| process_queues E bkt k n r :
    process_step p {| pr_db := (queue_rechunk E bkt k n r (pr_db p)).2; pr_claimed := pr_claimed p |}
| process_claims E r db' : claim_rechunk_job E (pr_db p) = (r, db') ->
    process_step p {| pr_db := db';
      pr_claimed := match r with Ok (Some job) => rc_id job :: pr_claimed p | _ => pr_claimed p end |}
| process_reports E id n m b : In id (pr_claimed p) ->
    process_step p {| pr_db := (update_rechunk_progress E id n m b (pr_db p)).2; pr_claimed := pr_claimed p |}
| process_finishes E id state error : In id (pr_claimed p) ->
    process_step p {| pr_db := (finish_rechunk E id state error (pr_db p)).2; pr_claimed := pr_claimed p |}
| process_else {A} (m : M A) : steps (same rechunk_tables) m ->
    process_step p {| pr_db := (m (pr_db p)).2; pr_claimed := pr_claimed p |}.

(** Job [id] is marked as being processed, it locks [obj], and this process
    does not know it. *)
Record stranded (id obj : string) (claimed : list string) (tables : list RechunkRow * list RechunkLockRow)
    : Prop := {
  sd_unclaimed : ~ In id claimed;
  sd_unique : List.NoDup (map rc_id tables.1);
  sd_job : exists j, In j tables.1 /\ rc_id j = id /\ rc_state j = "processing";
  sd_lock : exists l, In l tables.2 /\ lk_job_id l = id /\ lk_object_id l = obj
}.

(** An update of other jobs, or of other columns, keeps a stranded job. *)
Lemma stranded_update id obj claimed f g jobs locks :
  (forall j, rc_id (f j) = rc_id j) ->
  (forall j, rc_id j = id -> rc_state j = "processing" -> g j = true -> rc_state (f j) = "processing") ->
  stranded id obj claimed (jobs, locks) -> stranded id obj claimed (sql_update g f jobs, locks).
Proof.
  intros Hf Hs [Hc Hu (j & Hin & Hid & Hst) Hlock]. split; cbn [fst snd] in *; try done.
  - by rewrite sql_update_map.
  - exists (if g j then f j else j). split; [apply In_sql_update; eauto|].
    destruct (g j) eqn:Eg; [|done]. split; [by rewrite Hf|by apply Hs].
Qed.

Lemma stranded_delete id id' obj claimed jobs locks :
  id' <> id -> stranded id obj claimed (jobs, locks) ->
  stranded id obj claimed (jobs, sql_delete (fun l => bool_decide (lk_job_id l = id')) locks).
Proof.
  intros Hne [Hc Hu Hj (l & Hl & Hlj & Hlo)]. split; try done. exists l. split; [|done].
  apply In_sql_delete. split; [done|]. apply bool_decide_eq_false_2. congruence.
Qed.

Lemma stranded_step id obj p p' :
  process_step p p' -> stranded id obj (pr_claimed p) (rechunk_tables (pr_db p)) ->
  stranded id obj (pr_claimed p') (rechunk_tables (pr_db p')).
Proof.
  intros Hstep Hst. destruct Hstep as [E bkt k n r|E r db' Hc|E id' n m b Hin|E id' state error Hin|A m Hm];
    cbn [pr_db pr_claimed].
  - destruct (queue_rechunk_run E bkt k n r (pr_db p)) as [->|(j' & l' & -> & _ & _ & _ & Hnew & _)]; [done|].
    destruct Hst as [Hc Hu (j & Hj & Hid & Hs) (l & Hl & Hlj & Hlo)].
    split; cbn [fst snd rechunk_tables] in *; [done|rewrite map_app; by apply NoDup_snoc|..].
    + exists j. rewrite in_app_iff. auto.
    + exists l. rewrite in_app_iff. auto.
  - destruct (claim_rechunk_run E (pr_db p) r db' Hc) as [[-> Hr]|(row & Hrow & Hq & -> & Hret)].
    + destruct r as [[job|]|e]; [|done..]. by destruct (Hr job).
    + assert (rc_id row <> id) as Hne.
      { intros Heq. destruct Hst as [_ Hu (j & Hj & Hid & Hs) _].
        assert (row = j) as -> by (eapply (NoDup_map_inj rc_id); [exact Hu|done|done|congruence]). congruence. }
      assert (stranded id obj (match r with Ok (Some job) => rc_id job :: pr_claimed p | _ => pr_claimed p end)
                (rechunk_tables (pr_db p))) as Hst'.
      { destruct r as [[job|]|e]; [|done..]. destruct Hst as [Hun ? ? ?]. split; try done.
        intros [Heq|Hin]; [|done]. rewrite (Hret job eq_refl) in Heq. done. }
      apply stranded_update; [done| |done]. intros j Hid Hs Hg. unfold is_rechunk in Hg. bool_hyps. congruence.
  - destruct (progress_run E id' n m b (pr_db p)) as [->| ->]; [done|].
    by apply stranded_update.
  - assert (id' <> id) as Hne by (intros ->; by apply Hst). rewrite finish_rechunk_run.
    apply stranded_delete; [done|]. apply stranded_update; [done| |done].
    intros j Hid Hs Hg. unfold is_rechunk in Hg. bool_hyps. congruence.
  - by rewrite (Hm (pr_db p) : rechunk_tables _ = _).
Qed.

(** A worker that stops while a job is being processed strands it: the queue
    hands out only jobs in the state [queued], nothing resets the state, and so
    in a restarted process, whatever it does, the object of the job stays
    locked and cannot be read. *)
Theorem stranded_rechunk_locks_for_ever id obj db p :
  stranded id obj [] (rechunk_tables db) ->
  rtc process_step {| pr_db := db; pr_claimed := [] |} p ->
  (object_rechunk_locked obj (pr_db p)).1 = Ok true /\ ~ In id (pr_claimed p).
Proof.
  intros Hst Hsteps.
  assert (stranded id obj (pr_claimed p) (rechunk_tables (pr_db p))) as [Hc _ _ (l & Hl & _ & Ho)].
  { remember {| pr_db := db; pr_claimed := [] |} as p0 eqn:Ep. assert (stranded id obj (pr_claimed p0)
      (rechunk_tables (pr_db p0))) as H0 by by rewrite Ep. clear Ep Hst.
    induction Hsteps as [|p0 p1 p2 Hstep _ IH]; [done|]. apply IH. by eapply stranded_step. }
  split; [|done]. unfold object_rechunk_locked, query. cbn [fst]. f_equal. apply sql_exists_true.
  exists l. split; [done|]. by apply bool_decide_eq_true_2.
Qed.

Definition sample_processing : Db := (claim_rechunk_job (sample_env 4 "u") sample_queued).2.

Lemma stranded_rechunk_witness :
  (object_rechunk_locked "o" (pr_db {| pr_db := sample_processing; pr_claimed := [] |})).1 = Ok true.
Proof.
  refine (proj1 (stranded_rechunk_locks_for_ever "job" "o" sample_processing _ _ (rtc_refl _ _))).
  split; [by intros []|repeat constructor; intros []|..]; vm_compute; eexists; split_and!;
    (left; reflexivity) || reflexivity.
Defined.

(** ** Quotas *)

Lemma enforce_quota_ok label q used n :
  enforce_quota label (Some q) used n = Ok tt <-> u64_saturating_add used n <= q.
Proof.
  unfold enforce_quota. destruct (Z.ltb_spec q (u64_saturating_add used n)) as [H|H]; split; intros H';
    try done; lia.
Qed.

Lemma quota_saturation used n q : q <= I64_MAX -> u64_saturating_add used n <= q <-> used + n <= q.
Proof. unfold u64_saturating_add, I64_MAX, U64_MAX. lia. Qed.

Lemma lift_ok {A} (r : Result A MetadataError) a db : (lift r db).1 = Ok a <-> r = Ok a.
Proof. unfold lift, throw, mret, M_ret. destruct r; cbn; naive_solver. Qed.

(** The quota check is exact: it lets a write of [n] more bytes through
    exactly when the account has no row, has no quota, or the bytes it uses and
    the [n] together stay within the quota.  The saturating arithmetic never
    decides otherwise, as a stored quota fits in an [i64]. *)
Theorem quota_check_exact id n db :
  (forall a q, telegram_accounts db !! id = Some a -> ta_quota_bytes a = Some q -> q <= I64_MAX) ->
  (ensure_account_quota_for_additional_bytes id n db).1 = Ok tt <->
  match telegram_accounts db !! id with
  | Some a => match ta_quota_bytes a with
              | Some q => Z.max (used_bytes db id) 0 + n <= Z.max 0 q
              | None => True
              end
  | None => True
  end.
Proof.
  intros Hq. unfold ensure_account_quota_for_additional_bytes, query, mbind, M_bind.
  destruct (telegram_accounts db !! id) as [a|] eqn:Ea; [|done]. rewrite lift_ok.
  destruct (ta_quota_bytes a) as [q|] eqn:Eq; [|done].
  change (Z.max 0 <$> Some q) with (Some (Z.max 0 q)).
  rewrite enforce_quota_ok. apply quota_saturation. specialize (Hq a q eq_refl Eq). unfold I64_MAX in *. lia.
Qed.

Definition sample_bounded : Db :=
  (modify (fun db => db <| telegram_accounts := {[ "c" := sample_account ]} |>) empty_db).2.

Lemma quota_check_exact_witness :
  (ensure_account_quota_for_additional_bytes "c" 25 sample_bounded).1 = Ok tt /\
  (ensure_account_quota_for_additional_bytes "c" 26 sample_bounded).1 <> Ok tt.
Proof.
  assert (forall a q, telegram_accounts sample_bounded !! "c" = Some a -> ta_quota_bytes a = Some q ->
    q <= I64_MAX) as Hq by (intros a q [= <-] [= <-]; done).
  split.
  - apply (quota_check_exact "c" 25 sample_bounded Hq). vm_compute. discriminate.
  - intros H. apply (quota_check_exact "c" 26 sample_bounded Hq) in H. vm_compute in H. by apply H.
Defined.

(** ** Automatic replication *)

(** A failed automatic job is given its next run, five minutes ahead, but is
    left in the state [failed], and the queue hands out only jobs that are
    [queued] or [scheduled]: it never runs again. *)
Theorem failed_automatic_replication_is_dropped E id error db j :
  In j (replication_jobs db) -> rp_id j = id -> rp_mode j = "automatic" ->
  exists j', In j' (replication_jobs (finish_replication E id "failed" error true db).2) /\
    rp_id j' = id /\ rp_mode j' = "automatic" /\ rp_next_run j' = Some (now_at E 0 + 300) /\
    forall now, replication_due now j' = false.
Proof.
  intros Hin Hid Hmode. eexists. split; [apply In_sql_update; exists j; split; [exact Hin|reflexivity]|].
  unfold is_replication. rewrite bool_decide_eq_true_2 by done. by repeat split.
Qed.

Definition sample_replication : M ReplicationRow :=
  modify (fun db => db <| telegram_accounts := {[ "c" := sample_account; "d" := sample_account ]} |>) ;;
  queue_replication (sample_env 5 "r") "c" "d" "b" [] "automatic" "replica".

Lemma failed_automatic_replication_witness :
  exists j', In j' (replication_jobs (finish_replication (sample_env 9 "u") "r" "failed" (Some "rpc") true
      (sample_replication empty_db).2).2) /\ rp_next_run j' = Some 309.
Proof.
  destruct (replication_jobs (sample_replication empty_db).2) as [|j l] eqn:Ej; [vm_compute in Ej; discriminate|].
  destruct (failed_automatic_replication_is_dropped (sample_env 9 "u") "r" (Some "rpc")
    (sample_replication empty_db).2 j) as (j' & Hj & _ & _ & Hn & _).
  - rewrite Ej. by left.
  - vm_compute in Ej. injection Ej as <- _. reflexivity.
  - vm_compute in Ej. injection Ej as <- _. reflexivity.
  - exists j'. split; [exact Hj|exact Hn].
Defined.
