(* ===== verification/Rechunk.v ===== *)
(** * The re-chunking worker ([src/src/object_format/workflow.rs])

    [process_rechunk_job] reads an object chunk by chunk, verifies each one,
    stages the bytes again in chunks of the new size, sends the result through
    the normal upload path and, once it is published, tombstones the old
    object.

    The theorems: what is staged is the content of the old object, every chunk
    of it verified, cut at the new chunk size; and the defect that the worker
    never asks whether the object it was given is still the current one, so
    that a deleted object comes back, and an overwritten one comes back in its
    old version. *)

From stdpp Require Import pretty.
From S2P Require Import Prelude Errors Manifest Schema Cleanup Transfers TransferSafety.
From S2P Require Import ManifestStore ManifestSafety MultipartStore Buckets ConnectionRemoval System.
From S2P Require Import Requests Listing Chunks Attempts Settings Programs Publish Reception Completion Accounts.

Section Rechunk.
Context (encrypt_chunk decrypt_chunk : Uuid -> Z -> list byte -> Result (list byte) ObjectFormatError.t).
Context (sha256_hex : list byte -> string).
Context (parse_uuid : string -> option string) (uuid_error : string -> string).
Context (encryption_key_id data_dir : string) (staging_budget : Z).

Definition read_manifest_chunk (manifest : ObjectManifest) (chunk : ChunkRef) : Task (list byte) :=
  if (telegram_message_id chunk <? - I32_MAX - 1) || (I32_MAX <? telegram_message_id chunk)
  then fail (ObjectFormatError.InvalidRead
               ("telegram message id out of range for chunk " +:+ pretty (order chunk)))
  else
    ciphertext ← perform_ok (DownloadMessage None (telegram_peer_id chunk) (telegram_message_id chunk));
    plaintext ← (Return (if enabled (encryption manifest)
                         then let (source, n) := payload_identity chunk (object_id manifest) in
                              decrypt_chunk source n ciphertext
                         else Ok ciphertext) : Task (list byte));
    let actual := sha256_hex plaintext in
    if negb (bool_decide (actual = checksum chunk))
    then fail (ObjectFormatError.ChecksumMismatch ("chunk " +:+ pretty (order chunk)) (checksum chunk) actual)
    else mret plaintext.

Abbreviation stage := (stage_chunk encrypt_chunk sha256_hex data_dir staging_budget).

(** [self.metadata.update_rechunk_progress(..)?] after a staged chunk. *)
Definition report (id : string) (planned_total bytes_done : Z) (st : Staged) : Task unit :=
  E ← perform Ambient;
  call (update_rechunk_progress E id planned_total (Z.of_nat (length (st_chunks st))) bytes_done).

(** [while pending.len() >= new_size]: each round takes [new_size] bytes. *)
Fixpoint drain (fuel new_size : nat) (id : string) (new_id : Uuid) (planned_total bytes_done : Z)
    (pending : list byte) (st : Staged) : Task (list byte * Staged) :=
  match fuel with
  | O => mret (pending, st)
  | S fuel =>
      if (new_size <=? length pending)%nat then
        st ← stage new_id (take new_size pending) st;
        report id planned_total bytes_done st ;;
        drain fuel new_size id new_id planned_total bytes_done (drop new_size pending) st
      else mret (pending, st)
  end.

(** What the loop over the old chunks carries: the bytes not staged yet, what is
    staged, the bytes hashed and counted. *)
Record Rechunking : Type := {
  rk_pending : list byte;
  rk_staged : Staged;
  rk_hashed : list byte;
  rk_bytes_done : Z
}.

Definition rechunking_start : Rechunking :=
  {| rk_pending := []; rk_staged := nothing_staged; rk_hashed := []; rk_bytes_done := 0 |}.

Fixpoint restage (new_size : nat) (id : string) (new_id : Uuid) (planned_total : Z) (old : ObjectManifest)
    (sources : list ChunkRef) (s : Rechunking) : Task Rechunking :=
  match sources with
  | [] => mret s
  | source :: sources =>
      plaintext ← read_manifest_chunk old source;
      let bytes_done := u64_saturating_add (rk_bytes_done s) (Z.of_nat (length plaintext)) in
      let pending := rk_pending s ++ plaintext in
      r ← drain (length pending) new_size id new_id planned_total bytes_done pending (rk_staged s);
      restage new_size id new_id planned_total old sources
        {| rk_pending := r.1; rk_staged := r.2; rk_hashed := rk_hashed s ++ plaintext;
           rk_bytes_done := bytes_done |}
  end.

(** The [async] block: all chunks, then the rest. *)
Definition stage_replacement (new_size : nat) (id : string) (new_id : Uuid) (planned_total : Z)
    (old : ObjectManifest) : Task Rechunking :=
  s ← restage new_size id new_id planned_total old (chunks old) rechunking_start;
  if (length (rk_pending s) =? 0)%nat then mret s
  else
    st ← stage new_id (rk_pending s) (rk_staged s);
    report id planned_total (rk_bytes_done s) st ;;
    mret {| rk_pending := rk_pending s; rk_staged := st; rk_hashed := rk_hashed s;
            rk_bytes_done := rk_bytes_done s |}.

Definition replacement_args (new_id : Uuid) (old : ObjectManifest) (s : Rechunking) : ManifestBuildArgs :=
  {| ma_object_id := new_id; ma_bucket := bucket old; ma_key := key old; ma_content_type := content_type old;
     ma_expires_at := expires_at old; ma_commit_state := CommitState.Staging;
     ma_chunks := st_chunks (rk_staged s); ma_whole_checksum := sha256_hex (rk_hashed s) |}.

(** The staging directory is removed and the transfer failed. *)
Definition discard_staging {A} (transfer_id : string) (new_id : Uuid) (message : string)
    (error : ObjectFormatError.t) : Task A :=
  removed ← perform (RemoveDirAll (staging_dir data_dir new_id));
  E ← perform Ambient;
  try_call (fail_reception E transfer_id (is_removed removed) message) ;;
  fail error.

(** Everything up to the queued transfer of the replacement. *)
Definition queue_replacement (job : RechunkRow) (old : ObjectManifest) : Task (Uuid * TransferJob) :=
  if rc_new_chunk_size job =? 0
  then fail (ObjectFormatError.InvalidPlan "new chunk size must be non-zero")
  else
    (* [plan_chunks] always returns. *)
    plan ← (match plan_chunks (content_length old) (rc_new_chunk_size job) with
            | Some (Ok plan) => mret plan
            | Some (Err e) => fail e
            | None => fail (ObjectFormatError.InvalidPlan "")
            end);
    let planned_total := Z.of_nat (length (cp_chunks plan)) in
    E ← perform Ambient;
    call (update_rechunk_progress E (rc_id job) planned_total 0 0) ;;
    E ← perform Ambient;
    let new_id := new_v4 E 0 in
    E ← perform Ambient;
    transfer_id ← call (begin_transfer E new_id (bucket old) (key old));
    created ← settle (perform_ok (CreateDirAll (staging_dir data_dir new_id)));
    match created with
    | Err error =>
        E ← perform Ambient;
        try_call (fail_reception E transfer_id true "Re-chunk staging could not be created") ;;
        fail error
    | Ok _ =>
        staged ← settle (stage_replacement (Z.to_nat (rc_new_chunk_size job)) (rc_id job) new_id
                           planned_total old);
        match staged with
        | Err error =>
            discard_staging transfer_id new_id "Re-chunk staging failed before durable acceptance" error
        | Ok s =>
            queued ← settle (finalize_reception encryption_key_id data_dir transfer_id
                               (replacement_args new_id old s) None);
            match queued with
            | Err error =>
                discard_staging transfer_id new_id "Re-chunk replacement could not be durably queued" error
            | Ok transfer => mret (new_id, transfer)
            end
        end
    end.

(** The old object, as the job names it. *)
Definition rechunk_source (job : RechunkRow) : Task (Uuid * ObjectManifest) :=
  old_id ← uuid_of parse_uuid uuid_error (rc_object_id job);
  old ← call (get_manifest old_id);
  old ← require old (ObjectFormatError.InvalidRead ("re-chunk source object not found: " +:+ rc_object_id job));
  mret (old_id, old).

(** [loop { .. sleep(50ms) }]; [None]: the transfer is not settled after [fuel]
    rounds. *)
Fixpoint wait_transfer (fuel : nat) (id : string) : Task (option ObjectManifest) :=
  match fuel with
  | O => mret None
  | S fuel =>
      r ← poll_transfer parse_uuid uuid_error id;
      match r with
      | Some manifest => mret (Some manifest)
      | None => wait_transfer fuel id
      end
  end.

Fixpoint queue_replicas (job : RechunkRow) (targets : list RechunkReplicaTarget) : Task unit :=
  match targets with
  | [] => mret tt
  | target :: targets =>
      if bool_decide (rt_account_id target = rc_source_account_id job) then queue_replicas job targets
      else
        E ← perform Ambient;
        call (queue_replication E (rc_source_account_id job) (rt_account_id target) (rc_bucket job)
                [rc_object_key job] "one_time" (mode_text (rt_access_mode target))) ;;
        queue_replicas job targets
  end.

(** What follows once the replacement is published. *)
Definition replace_old (job : RechunkRow) (old_id : Uuid) : Task unit :=
  (if rc_apply_to_replicas job then queue_replicas job (rc_replica_targets job) else mret tt) ;;
  E ← perform Ambient;
  call (tombstone_manifest E old_id "replaced by re-chunking") ;;
  E ← perform Ambient;
  call (finish_rechunk E (rc_id job) "completed" None).

(** [false]: still waiting for the transfer. *)
Definition process_rechunk_job (fuel : nat) (job : RechunkRow) : Task bool :=
  source ← rechunk_source job;
  queued ← queue_replacement job source.2;
  published ← wait_transfer fuel (j_id queued.2);
  match published with
  | None => mret false
  | Some _ =>
      replace_old job source.1 ;;
      perform (RemoveDirAll (staging_dir data_dir queued.1)) ;;
      mret true
  end.

(** What the worker does with a job it claimed. *)
Definition run_rechunk (fuel : nat) (job : RechunkRow) : Proc unit :=
  proc_bind (fun r =>
    match r with
    | Ok _ => Return tt
    | Err error =>
        Perform Ambient (fun E =>
          Store (finish_rechunk E (rc_id job) "failed" (Some (ObjectFormatError.to_string error)))
            (fun _ => Return tt))
    end) (process_rechunk_job fuel job).
End Rechunk.

(** ** What is staged *)

Section RechunkFacts.
Context (encrypt_chunk decrypt_chunk : Uuid -> Z -> list byte -> Result (list byte) ObjectFormatError.t).
Context (sha256_hex : list byte -> string).
Context (encryption_key_id data_dir : string) (staging_budget : Z).
Context (oracle : nat -> forall B, Io B -> B).

Abbreviation runs p w db := (interp (disk_world oracle) p w db).
Abbreviation staged := (stages encrypt_chunk sha256_hex data_dir).

Lemma report_run id total bytes st w db u w' db' :
  runs (report id total bytes st) w db = (Ok u, w', db') -> w'.2 = w.2.
Proof.
  intros H. apply interp_ok in H as (E & w1 & d1 & HE & H). cbn in HE. injection HE as _ <- <-.
  by apply interp_call in H as [_ ->].
Qed.

Lemma read_manifest_chunk_ok m c w db b w' db' :
  runs (read_manifest_chunk decrypt_chunk sha256_hex m c) w db = (Ok b, w', db') ->
  sha256_hex b = checksum c /\ w'.2 = w.2.
Proof.
  unfold read_manifest_chunk. destruct (_ || _); [done|]. intros H.
  apply interp_ok in H as (ct & w1 & d1 & Hd & H). cbn in Hd. injection Hd as _ <- <-.
  apply interp_ok in H as (pt & w2 & d2 & Hp & H). cbn in Hp. injection Hp as _ <- <-.
  destruct (bool_decide_reflect (sha256_hex pt = checksum c)) as [He|]; [|done].
  cbn in H. injection H as <- <- <-. done.
Qed.

Context (new_size : nat) (Hsize : (0 < new_size)%nat).
Abbreviation full := (fun b : list byte => length b = new_size).

Lemma drain_stages fuel id obj total bytes pending bs st w db pending' st' w' db' :
  runs (drain encrypt_chunk sha256_hex data_dir staging_budget fuel new_size id obj total bytes pending st)
    w db = (Ok (pending', st'), w', db') ->
  (length pending <= fuel)%nat -> Forall full bs -> staged obj bs st w.2 ->
  exists bs', Forall full (bs ++ bs') /\ staged obj (bs ++ bs') st' w'.2 /\
    concat bs' ++ pending' = pending /\ (length pending' < new_size)%nat.
Proof.
  revert pending bs st w db. induction fuel as [|fuel IH]; intros pending bs st w db H Hf Hbs Hst; cbn [drain] in H.
  { cbn in H. injection H as <- <- <- _. exists []. rewrite app_nil_r. split_and!; try done. lia. }
  destruct (Nat.leb_spec new_size (length pending)) as [Hle|Hlt]; cycle 1.
  { cbn in H. injection H as <- <- <- _. exists []. rewrite app_nil_r. by split_and!. }
  apply interp_ok in H as (st1 & w1 & d1 & Hs & H). apply interp_ok in H as ([] & w2 & d2 & Hr & H).
  apply report_run in Hr. eapply stage_chunk_stages in Hs; [|exact Hst]. rewrite <- Hr in Hs.
  eapply (IH _ (bs ++ [take new_size pending])) in H as (bs' & Hb & Hs' & Hc & Hp); [|..|exact Hs].
  - exists (take new_size pending :: bs'). rewrite <- app_assoc in *. split_and!; try done.
    cbn [concat]. rewrite <- app_assoc, Hc. apply take_drop.
  - rewrite length_drop. lia.
  - apply Forall_app. split; [done|]. repeat constructor. rewrite length_take. lia.
Qed.

Lemma restage_stages id obj total old sources s bs w db s' w' db' :
  runs (restage encrypt_chunk decrypt_chunk sha256_hex data_dir staging_budget new_size id obj total old sources s)
    w db = (Ok s', w', db') ->
  Forall full bs -> staged obj bs (rk_staged s) w.2 -> rk_hashed s = concat bs ++ rk_pending s ->
  (length (rk_pending s) < new_size)%nat ->
  exists pts bs', Forall2 (fun c b => sha256_hex b = checksum c) sources pts /\
    Forall full bs' /\ staged obj bs' (rk_staged s') w'.2 /\ rk_hashed s' = concat bs' ++ rk_pending s' /\
    rk_hashed s' = rk_hashed s ++ concat pts /\ (length (rk_pending s') < new_size)%nat.
Proof.
  revert s bs w db. induction sources as [|source sources IH]; intros s bs w db H Hbs Hst Hh Hp; cbn [restage] in H.
  { cbn in H. injection H as <- <- _. exists [], bs. rewrite app_nil_r. by split_and!. }
  apply interp_ok in H as (pt & w1 & d1 & Hr & H). apply read_manifest_chunk_ok in Hr as [Hsha Hw1].
  rewrite <- Hw1 in Hst. apply interp_ok in H as ([p1 st1] & w2 & d2 & Hd & H).
  eapply drain_stages in Hd as (bs1 & Hb1 & Hs1 & Hc1 & Hp1); [|done|exact Hbs|exact Hst].
  eapply (IH _ (bs ++ bs1)) in H as (pts & bs' & H1 & H2 & H3 & H4 & H5 & H6); cbn [rk_staged rk_hashed rk_pending] in *;
    [|done..| |done].
  - exists (pt :: pts), bs'. split_and!; try done; [by constructor|].
    rewrite H5. cbn. by rewrite <- app_assoc.
  - cbn [fst snd]. rewrite Hh, concat_app, <- !app_assoc. f_equal. by rewrite Hc1.
Qed.

Lemma stage_replacement_stages id obj total old w db s w' db' :
  runs (stage_replacement encrypt_chunk decrypt_chunk sha256_hex data_dir staging_budget new_size id obj total old)
    w db = (Ok s, w', db') ->
  exists pts, Forall2 (fun c b => sha256_hex b = checksum c) (chunks old) pts /\
    rk_hashed s = concat pts /\
    staged obj (chop (length (concat pts)) new_size (concat pts)) (rk_staged s) w'.2.
Proof.
  intros H. apply interp_ok in H as (s1 & w1 & d1 & Hr & H).
  eapply (restage_stages _ _ _ _ _ _ []) in Hr as (pts & bs & Hpts & Hbs & Hst & Hh & Hh' & Hp);
    [|constructor|apply stages_nothing|done|done]. cbn [rechunking_start rk_hashed app] in Hh'.
  exists pts. rewrite <- Hh', Hh, chop_blocks by (lia || done).
  destruct (Nat.eqb_spec (length (rk_pending s1)) 0) as [Hz|Hz].
  - cbn in H. injection H as <- <- _. rewrite app_nil_r. split_and!; [congruence|done|done].
  - apply interp_ok in H as (st & w2 & d2 & Hs & H). apply interp_ok in H as ([] & w3 & d3 & Hrep & H).
    cbn in H. injection H as <- <- <-. apply report_run in Hrep. rewrite Hrep.
    split_and!; [congruence|done|]. by eapply stage_chunk_stages.
Qed.
End RechunkFacts.

Lemma settle_ok {W A} answer (p : Task A) (w : W) db r w' db' :
  interp answer (settle p) w db = (Ok r, w', db') -> interp answer p w db = (r, w', db').
Proof.
  unfold settle. rewrite interp_bind. destruct (interp answer p w db) as [[a w1] d1]. cbn.
  by intros [= <- <- <-].
Qed.

Lemma discard_staging_fails {W A} (answer : forall B, Io B -> W -> B * W) data_dir id obj message error (w : W) db (a : A) w' db' :
  interp answer (discard_staging data_dir id obj message error) w db = (Ok a, w', db') -> False.
Proof.
  intros H. apply interp_ok in H as (r & w1 & d1 & _ & H). apply interp_ok in H as (E & w2 & d2 & _ & H).
  apply interp_ok in H as (x & w3 & d3 & _ & H). done.
Qed.

(** C13: Re-chunking keeps the content: when the worker has queued the
    replacement of an object, it has read every chunk of the object and each
    one matched the checksum in the manifest; the replacement has the bucket,
    the key, the expiry and the whole-object checksum of that content, and its
    manifest and the encrypted files on the disk hold exactly that content, cut
    at the new chunk size. *)
Theorem rechunk_keeps_content encrypt_chunk decrypt_chunk sha256_hex key_id data_dir budget oracle job old
    w db new_id transfer w' db' :
  0 <= rc_new_chunk_size job ->
  interp (disk_world oracle)
    (queue_replacement encrypt_chunk decrypt_chunk sha256_hex key_id data_dir budget job old) w db =
    (Ok (new_id, transfer), w', db') ->
  exists contents m,
    Forall2 (fun c b => sha256_hex b = checksum c) (chunks old) contents /\
    (om_manifest <$> object_manifests db' !! new_id) = Some m /\
    bucket m = bucket old /\ key m = key old /\ expires_at m = expires_at old /\
    holds_body encrypt_chunk sha256_hex data_dir (rc_new_chunk_size job) m (concat contents) w'.2 /\
    exists r, In r (transfer_jobs db') /\ tj_id r = j_id transfer /\ tj_state r = JobState.Queued.
Proof.
  intros Hpos H. unfold queue_replacement in H. destruct (Z.eqb_spec (rc_new_chunk_size job) 0) as [|Hnz]; [done|].
  apply interp_ok in H as (plan & w1 & d1 & _ & H). apply interp_ok in H as (E1 & w2 & d2 & _ & H).
  apply interp_ok in H as ([] & w3 & d3 & _ & H). apply interp_ok in H as (E2 & w4 & d4 & _ & H).
  apply interp_ok in H as (E3 & w5 & d5 & _ & H). apply interp_ok in H as (id & w6 & d6 & _ & H).
  apply interp_ok in H as (created & w7 & d7 & _ & H). destruct created as [[]|error]; cycle 1.
  { apply interp_ok in H as (E4 & w8 & d8 & _ & H). by apply interp_ok in H as (x & w9 & d9 & _ & H). }
  apply interp_ok in H as (staged & w8 & d8 & Hs & H). apply settle_ok in Hs.
  destruct staged as [s|error]; [|by apply discard_staging_fails in H].
  apply interp_ok in H as (queued & w9 & d9 & Hq & H). apply settle_ok in Hq.
  destruct queued as [t|error]; [|by apply discard_staging_fails in H].
  cbn in H. injection H as <- <- <- <-.
  apply stage_replacement_stages in Hs as (pts & Hpts & Hh & Hst); [|lia].
  apply finalize_reception_ok in Hq as (Hfs & Hid & m & Hbt & Hv & Hom & r & Hr & Hri & Hrs & _).
  exists pts, (manifest_json_with_state m CommitState.Staging).
  pose proof (bt_bucket _ _ Hbt). pose proof (bt_key _ _ Hbt). pose proof (bt_expires _ _ Hbt).
  split_and!; try done; [|exists r; by rewrite Hid].
  rewrite Hfs. eapply built_holds_body; [lia|exact Hv|exact Hbt|reflexivity| |exact Hst].
  cbn. by rewrite Hh.
Qed.

(** ** Witnesses and the recorded defect *)

(** Every message holds three bytes. *)
Definition rechunk_oracle (t : nat) (B : Type) (e : Io B) : B :=
  match e in Io B return B with
  | DownloadMessage _ _ _ => Ok [Byte.x61; Byte.x62; Byte.x63]
  | e => sample_oracle t _ e
  end.

(** The object [o1] of [b/k] is to be cut at four bytes. *)
Definition sample_rechunk : Result RechunkRow MetadataError * Db :=
  queue_rechunk (sample_env 100 "rechunk") "b" "k" 4 false sample_published.

Definition claimed_rechunk (db : Db) : RechunkRow * Db :=
  match claim_rechunk_job (sample_env 120 "u") db with
  | (Ok (Some job), db) => (job, db)
  | (_, db) => (match sample_rechunk.1 with Ok job => job | Err _ => (* absent *)
                  {| rc_id := ""; rc_bucket := ""; rc_object_key := ""; rc_object_id := "";
                     rc_source_account_id := ""; rc_new_chunk_size := 0; rc_apply_to_replicas := false;
                     rc_replica_targets := []; rc_state := ""; rc_chunks_total := 0; rc_chunks_done := 0;
                     rc_bytes_done := 0; rc_error := None; rc_created_at := 0; rc_updated_at := 0 |} end, db)
  end.

Definition digest_all (_ : list byte) : string := "c0ffee".

Definition sample_replace (db : Db) :=
  let (job, db) := claimed_rechunk db in
  interp (disk_world rechunk_oracle)
    (source ← rechunk_source Some (fun s => s) job;
     queue_replacement toy_encrypt toy_decrypt digest_all "key" "data" 1000 job source.2) (200%nat, ∅) db.

Definition upload_next (db : Db) : Db :=
  match claim_transfer (sample_env 400 "lease-9") db with
  | (Ok (Some job), db) =>
      (interp sample_answer (run_claimed no_etag Some (fun s => s) sample_decrypt digest_all "data" job) 70%nat db).2
  | (_, db) => db
  end.

Definition visible (db : Db) : list string := map ao_object_id (map snd (map_to_list (active_objects db))).

(** A new version of [b/k], received and published. *)
Definition overwrite (db : Db) : Db :=
  upload_next (run (queue_transfer (sample_env 107 "u") "o2" "o2" 3)
    (run (stage_manifest (sample_env 106 "u") OperationKind.Put (sample_manifest "o2" "b" "k"))
       (run (begin_transfer (sample_env 105 "u") "o2" "b" "k") db))).

(** The worker only asks for the manifest by the id in the job, not whether it
    is still the current version of the key.  When the object is deleted after
    the job was queued, its content is published again; when it is overwritten,
    the new version is replaced by the old content. *)
Theorem rechunk_restores_old_version :
  let deleted := delete_active_key (sample_env 110 "u") "b" "k" "deleted via S3" no_conditionals
                   sample_rechunk.2 in
  let overwritten := overwrite sample_rechunk.2 in
  visible sample_published = ["o1"] /\
  is_ok deleted.1 = true /\ visible deleted.2 = [] /\
  is_ok (sample_replace deleted.2).1.1 = true /\
  visible (upload_next (sample_replace deleted.2).2) = ["attempt-201"] /\
  visible overwritten = ["o2"] /\ is_ok (sample_replace overwritten).1.1 = true /\
  visible (upload_next (sample_replace overwritten).2) = ["attempt-201"].
Proof. split_and!; vm_compute; reflexivity. Qed.

Definition sample_old : ObjectManifest :=
  match object_manifests sample_rechunk.2 !! "o1" with
  | Some row => om_manifest row
  | None => sample_manifest "o1" "b" "k"
  end.

Abbreviation sample_requeued := (interp (disk_world rechunk_oracle)
    (queue_replacement toy_encrypt toy_decrypt digest_all "key" "data" 1000
       (claimed_rechunk sample_rechunk.2).1 sample_old) (200%nat, ∅) (claimed_rechunk sample_rechunk.2).2).

Definition sample_transfer : TransferJob :=
  match sample_requeued.1.1 with Ok q => q.2 | Err _ => sample_job JobState.Receiving 0 0 None end.

Lemma sample_requeued_ok :
  sample_requeued = (Ok ("attempt-201", sample_transfer), sample_requeued.1.2, sample_requeued.2).
Proof.
  assert (match sample_requeued.1.1 with Ok q => q.1 | Err _ => "" end = "attempt-201") as Hr
    by (vm_compute; reflexivity).
  unfold sample_transfer. revert Hr. generalize sample_requeued. intros q Hr. destruct q as [[[[new_id job]|e] w] d]; cbn in *; [|discriminate].
  by rewrite Hr.
Qed.

Lemma rechunk_keeps_content_witness :
  exists contents m, Forall2 (fun c b => digest_all b = checksum c) (chunks sample_old) contents /\
    (om_manifest <$> object_manifests sample_requeued.2 !! "attempt-201") = Some m /\
    bucket m = "b" /\ content_length m = 9 /\ length (chunks m) = 3%nat.
Proof.
  assert (0 <= rc_new_chunk_size (claimed_rechunk sample_rechunk.2).1) as Hpos by (vm_compute; discriminate).
  assert (((fun m => (bucket m, content_length m, length (chunks m))) ∘ om_manifest <$>
     object_manifests sample_requeued.2 !! "attempt-201") = Some ("b", 9, 3%nat)) as Hv
    by (vm_compute; reflexivity).
  pose proof sample_requeued_ok as Er.
  apply (rechunk_keeps_content _ _ _ _ _ _ _ _ _ _ _ _ _ _ _ Hpos) in Er
    as (contents & m & Hc & Hm & _).
  exists contents, m. split; [exact Hc|]. split; [exact Hm|].
  rewrite option_fmap_compose, Hm in Hv. injection Hv as H1 H2 H3. exact (conj H1 (conj H2 H3)).
Defined.
