(* ===== verification/Replication.v ===== *)
(** * The replication worker ([src/src/object_format/workflow.rs])

    [process_replication_job] gives a second account access to the chunks of a
    bucket, or of selected keys: by recording that it may read the message in
    the source chat, by reusing the message when both accounts store in the same
    chat, or by copying the payload.  Chunks that the account already has are
    skipped, so a job can be run again.

    The theorems: a job that succeeds leaves every chunk of every selected
    object with a replica of the target account in the requested mode; and the
    defect that the manifest is written back as it was read, so that an object
    deleted meanwhile is committed again. *)

From stdpp Require Import pretty.
From S2P Require Import Prelude Errors Manifest Schema Cleanup Transfers TransferSafety.
From S2P Require Import ManifestStore ManifestSafety IndexSafety MultipartStore Buckets ConnectionRemoval System.
From S2P Require Import Requests Listing Chunks Attempts Settings Programs Publish Reception Completion Accounts.

Definition can_reuse_replica_message (source_peer_id : string) (target_storage_chat_id : option string) : bool :=
  bool_decide (target_storage_chat_id = Some source_peer_id).

Definition access_mode_of (text : string) : ReplicaMode.t :=
  if bool_decide (text = "access") then ReplicaMode.Access else ReplicaMode.Replica.

(** A replica of the account in the given mode. *)
Definition has_replica (account : string) (mode : ReplicaMode.t) (c : ChunkRef) : bool :=
  existsb (fun r => bool_decide (cr_account_id r = account) && bool_decide (cr_mode r = mode)) (replicas c).

(** [retain] and [push]: the account's replica is replaced. *)
Definition with_replica (account : string) (mode : ReplicaMode.t) (location : TelegramLocation) (c : ChunkRef)
    : ChunkRef :=
  c <| replicas ::= (fun rs => List.filter (fun r => negb (bool_decide (cr_account_id r = account))) rs ++
    [{| cr_account_id := account; cr_mode := mode; cr_chunk_size := size c;
        cr_telegram_peer_id := peer_id location; cr_telegram_message_id := message_id location;
        cr_telegram_document_id := document_id location |}]) |>.

Definition primary_location (c : ChunkRef) : TelegramLocation :=
  {| peer_id := telegram_peer_id c; message_id := telegram_message_id c; document_id := telegram_document_id c |}.

(** The counters of the loops, and whether the source transport is open. *)
Record Progress : Type := {
  pg_objects_done : Z;
  pg_chunks_done : Z;
  pg_bytes_done : Z;
  pg_source_open : bool
}.

#[export] Instance eta_Progress : Eta Progress := fun p =>
  {| pg_objects_done := pg_objects_done p; pg_chunks_done := pg_chunks_done p;
     pg_bytes_done := pg_bytes_done p; pg_source_open := pg_source_open p |}.

Section Job.
Context (job : ReplicationRow) (active : string).

Definition source_is_active : bool :=
  bool_decide (rp_source_account_id job = active)
  || (bool_decide (rp_source_account_id job = "legacy") && bool_decide (active = "legacy")).

(** Where the source account has the chunk. *)
Definition source_location (c : ChunkRef) : option TelegramLocation :=
  if source_is_active then Some (primary_location c)
  else
    (fun r => {| peer_id := cr_telegram_peer_id r; message_id := cr_telegram_message_id r;
                 document_id := cr_telegram_document_id r |})
    <$> head (List.filter (fun r => bool_decide (cr_account_id r = rp_source_account_id job)
                                    && bool_decide (cr_mode r = ReplicaMode.Replica)) (replicas c)).

Context (objects_total chunks_total : Z) (target_chat : option string).

Definition report_replication (p : Progress) : Task unit :=
  E ← perform Ambient;
  call (update_replication_progress E (rp_id job) objects_total (pg_objects_done p) chunks_total
          (pg_chunks_done p) (pg_bytes_done p)).

(** Download from the source, upload to the target. *)
Definition copy_chunk (c : ChunkRef) (source : TelegramLocation) (p : Progress)
    : Task (TelegramLocation * Progress) :=
  (if pg_source_open p then mret tt
   else if source_is_active then perform_ok OpenTransport
   else perform_ok (OpenAccount (rp_source_account_id job))) ;;
  if (message_id source <? - I32_MAX - 1) || (I32_MAX <? message_id source)
  then fail (ObjectFormatError.InvalidRead "source message id is out of range")
  else
    ciphertext ← perform_ok (DownloadMessage
      (if source_is_active then None else Some (rp_source_account_id job)) (peer_id source) (message_id source));
    location ← perform_ok (UploadReplica (rp_target_account_id job) (rp_id job) (order c) ciphertext);
    mret (location, p <| pg_bytes_done ::= (fun b => u64_saturating_add b (Z.of_nat (length ciphertext))) |>
                      <| pg_source_open := true |>).

(** The body of the loop over the chunks; the chunk as it is afterwards. *)
Definition replicate_chunk (m : ObjectManifest) (c : ChunkRef) (p : Progress) : Task (ChunkRef * Progress) :=
  let target := rp_target_account_id job in
  let mode := access_mode_of (rp_access_mode job) in
  if has_replica target mode c then
    let p := p <| pg_chunks_done ::= Z.add 1 |> in
    report_replication p ;;
    mret (c, p)
  else
    r ← (match mode with
         | ReplicaMode.Access => mret (primary_location c, p)
         | ReplicaMode.Replica =>
             source ← require (source_location c) (ObjectFormatError.InvalidPlan
               ("source account " +:+ rp_source_account_id job +:+ " has no physical replica for object "
                +:+ key m +:+ " chunk " +:+ pretty (order c)));
             if can_reuse_replica_message (peer_id source) target_chat then mret (source, p)
             else copy_chunk c source p
         end);
    E ← perform Ambient;
    call (insert_replica_location E (object_id m) (order c) target mode r.1) ;;
    let p := r.2 <| pg_chunks_done ::= Z.add 1 |> in
    report_replication p ;;
    mret (with_replica target mode r.1 c, p).

Fixpoint replicate_chunks (m : ObjectManifest) (cs : list ChunkRef) (p : Progress)
    : Task (list ChunkRef * Progress) :=
  match cs with
  | [] => mret ([], p)
  | c :: cs =>
      r ← replicate_chunk m c p;
      rest ← replicate_chunks m cs r.2;
      mret (r.1 :: rest.1, rest.2)
  end.

Fixpoint replicate_objects (ms : list ObjectManifest) (p : Progress) : Task Progress :=
  match ms with
  | [] => mret p
  | m :: ms =>
      r ← replicate_chunks m (chunks m) p;
      call (update_manifest (m <| chunks := r.1 |>)) ;;
      let p := r.2 <| pg_objects_done ::= Z.add 1 |> in
      report_replication p ;;
      replicate_objects ms p
  end.
End Job.

(** A call of the service on the store. *)
Definition service_call {A} (m : IO ObjectFormatError.t A) : Task A :=
  Store (fun db => match m db with
                   | (Ok a, db') => (Ok (Ok a), db')
                   | (Err e, db') => (Ok (Err e), db')
                   end)
    (fun r => Return (match r with Ok r => r | Err e => Err (ObjectFormatError.Metadata e) end)).

(** The objects of the job: those of the bucket, or of its selected keys. *)
Definition selected (job : ReplicationRow) (ms : list ObjectManifest) : list ObjectManifest :=
  match rp_object_keys job with
  | [] => ms
  | keys => List.filter (fun m => one_of (key m) keys) ms
  end.

(** The bytes a physical replication adds to the target account. *)
Definition additional_bytes (job : ReplicationRow) (ms : list ObjectManifest) : Z :=
  u64_wrap (sql_sum size (List.filter (fun c =>
    negb (has_replica (rp_target_account_id job) ReplicaMode.Replica c)) (concat (map chunks ms)))).

Definition process_replication_job (job : ReplicationRow) : Task unit :=
  stored ← call active_connection_setting;
  let active := default "legacy" stored in
  E ← perform Ambient;
  listed ← service_call (service_list_bucket_manifests E (rp_bucket job) None);
  let manifests := selected job listed in
  let objects_total := Z.of_nat (length manifests) in
  let chunks_total := Z.of_nat (length (concat (map chunks manifests))) in
  let physical := bool_decide (rp_access_mode job = "replica") in
  (if physical then call (ensure_account_quota_for_additional_bytes (rp_target_account_id job)
                            (additional_bytes job manifests))
   else mret tt) ;;
  E ← perform Ambient;
  call (update_replication_progress E (rp_id job) objects_total 0 chunks_total 0 0) ;;
  target_chat ← (if physical then
                   perform_ok (OpenAccount (rp_target_account_id job)) ;;
                   chat ← perform_ok (AccountChat (rp_target_account_id job));
                   mret (Some chat)
                 else mret None);
  replicate_objects job active objects_total chunks_total target_chat manifests
    {| pg_objects_done := 0; pg_chunks_done := 0; pg_bytes_done := 0; pg_source_open := false |} ;;
  let automatic := bool_decide (rp_mode job = "automatic") in
  E ← perform Ambient;
  call (finish_replication E (rp_id job) (if automatic then "scheduled" else "completed") None automatic).

(** What the worker does with a job it claimed. *)
Definition run_replication (job : ReplicationRow) : Proc unit :=
  proc_bind (fun r =>
    match r with
    | Ok _ => Return tt
    | Err error =>
        Perform Ambient (fun E =>
          Store (finish_replication E (rp_id job) "failed" (Some (ObjectFormatError.to_string error))
                   (bool_decide (rp_mode job = "automatic"))) (fun _ => Return tt))
    end) (process_replication_job job).

(** ** What a job leaves behind *)

(** Runs that leave the manifests alone. *)
Definition manifests_kept {A} (p : Proc A) : Prop :=
  forall W (answer : forall B, Io B -> W -> B * W) w db,
    object_manifests (interp answer p w db).2 = object_manifests db.

Lemma kept_task {A B} (p : Task A) (f : A -> Task B) :
  manifests_kept p -> (forall a, manifests_kept (f a)) -> manifests_kept (p ≫= f).
Proof.
  intros Hp Hf W answer w db. rewrite interp_task. specialize (Hp W answer w db).
  destruct (interp answer p w db) as [[[a|e] w1] d1]; [|done]. rewrite <- Hp. apply Hf.
Qed.

Lemma kept_call {A} (m : M A) : steps (same object_manifests) m -> manifests_kept (call m).
Proof. intros Hm W answer w db. apply Hm. Qed.

Lemma kept_perform {A} (e : Io A) : manifests_kept (perform e).
Proof. by intros W answer w db. Qed.

Lemma kept_perform_ok {A} (e : Io (Result A ObjectFormatError.t)) : manifests_kept (perform_ok e).
Proof. by intros W answer w db. Qed.

Lemma kept_return {A} (r : Result A ObjectFormatError.t) : manifests_kept (Return r).
Proof. by intros W answer w db. Qed.

Lemma sql_u64_same {T} (p : Db -> T) n : steps (same p) (sql_u64 n).
Proof. unfold sql_u64. step_through. Qed.
#[export] Hint Resolve sql_u64_same : preserves.

Lemma progress_same E id a b c d e : steps (same object_manifests) (update_replication_progress E id a b c d e).
Proof. unfold update_replication_progress. step_through. by apply steps_modify. Qed.

Lemma foreign_key_same {T} (p : Db -> T) id : steps (same p) (foreign_key id).
Proof. unfold foreign_key. step_through. Qed.
#[export] Hint Resolve foreign_key_same : preserves.

Lemma insert_replica_same E o n a mode l : steps (same object_manifests) (insert_replica_location E o n a mode l).
Proof. unfold insert_replica_location. step_through. by apply steps_modify. Qed.

Ltac kept_through :=
  repeat first
    [ apply kept_perform | apply kept_perform_ok | apply kept_return
    | apply kept_call; first [apply progress_same|apply insert_replica_same]
    | apply kept_task; [|intros ?]
    | match goal with |- manifests_kept (match ?x with _ => _ end) => destruct x end ].

Lemma report_replication_kept job a b p : manifests_kept (report_replication job a b p).
Proof. unfold report_replication. kept_through. Qed.

Lemma replicate_chunk_kept job active a b chat m c p :
  manifests_kept (replicate_chunk job active a b chat m c p).
Proof.
  unfold replicate_chunk, copy_chunk, require, fail, mret, Task_ret.
  repeat first [ apply report_replication_kept | progress kept_through ].
Qed.

Lemma replicate_chunks_kept job active a b chat m cs p :
  manifests_kept (replicate_chunks job active a b chat m cs p).
Proof.
  revert p. induction cs as [|c cs IH]; intros p; cbn [replicate_chunks]; [apply kept_return|].
  apply kept_task; [apply replicate_chunk_kept|intros r]. apply kept_task; [apply IH|intros ?]. apply kept_return.
Qed.

Lemma has_with_replica account mode location c : has_replica account mode (with_replica account mode location c) = true.
Proof.
  unfold has_replica, with_replica. cbn. rewrite existsb_app. cbn.
  by rewrite !bool_decide_eq_true_2, orb_true_r.
Qed.

Section Facts.
Context {W : Type} (answer : forall B, Io B -> W -> B * W) (job : ReplicationRow) (active : string).
Context (objects_total chunks_total : Z) (target_chat : option string).

Abbreviation target := (rp_target_account_id job).
Abbreviation mode := (access_mode_of (rp_access_mode job)).

(** Every chunk of the manifest has a replica for the job's target. *)
Definition covered (m : ObjectManifest) : Prop := Forall (fun c => has_replica target mode c = true) (chunks m).

Lemma replicate_chunk_ok m c p w db c' p' w' db' :
  interp answer (replicate_chunk job active objects_total chunks_total target_chat m c p) w db =
    (Ok (c', p'), w', db') -> has_replica target mode c' = true.
Proof.
  unfold replicate_chunk. destruct (has_replica target mode c) eqn:Eh; intros H.
  - apply interp_ok in H as ([] & w1 & d1 & _ & H). cbn in H. injection H as <- _ _ _. exact Eh.
  - apply interp_ok in H as (r & w1 & d1 & _ & H). apply interp_ok in H as (E & w2 & d2 & _ & H).
    apply interp_ok in H as ([] & w3 & d3 & _ & H). apply interp_ok in H as ([] & w4 & d4 & _ & H).
    cbn in H. injection H as <- _ _ _. apply has_with_replica.
Qed.

Lemma replicate_chunks_ok m cs p w db cs' p' w' db' :
  interp answer (replicate_chunks job active objects_total chunks_total target_chat m cs p) w db =
    (Ok (cs', p'), w', db') -> Forall (fun c => has_replica target mode c = true) cs'.
Proof.
  revert p w db cs'. induction cs as [|c cs IH]; intros p w db cs' H; cbn [replicate_chunks] in H.
  - cbn in H. injection H as <- _ _ _. constructor.
  - apply interp_ok in H as ([c1 p1] & w1 & d1 & H1 & H). apply interp_ok in H as ([cs1 p2] & w2 & d2 & H2 & H).
    cbn in H. injection H as <- -> -> ->. constructor; [by eapply replicate_chunk_ok|by eapply IH].
Qed.

Lemma replicate_objects_ok ms p w db p' w' db' :
  interp answer (replicate_objects job active objects_total chunks_total target_chat ms p) w db =
    (Ok p', w', db') ->
  (forall m, In m ms -> is_Some (object_manifests db !! object_id m)) ->
  (forall o, is_Some (object_manifests db !! o) -> is_Some (object_manifests db' !! o)) /\
  (forall o row, object_manifests db !! o = Some row -> covered (om_manifest row) ->
     exists row', object_manifests db' !! o = Some row' /\ covered (om_manifest row')) /\
  (forall m, In m ms -> exists row, object_manifests db' !! object_id m = Some row /\ covered (om_manifest row)).
Proof.
  revert p w db. induction ms as [|m ms IH]; intros p w db H Hms; cbn [replicate_objects] in H.
  { cbn in H. injection H as _ _ <-. split_and!; [done|eauto|by intros m []]. }
  apply interp_ok in H as ([cs p1] & w1 & d1 & H1 & H). pose proof (replicate_chunks_ok _ _ _ _ _ _ _ _ _ H1) as Hcs.
  pose proof (replicate_chunks_kept job active objects_total chunks_total target_chat m (chunks m) p W answer w db)
    as Hk. rewrite H1 in Hk. cbn [snd] in Hk.
  apply interp_ok in H as (u & w2 & d2 & H2 & H). apply interp_call in H2 as [H2 ->].
  injection H2 as _ Hd2. apply interp_ok in H as ([] & w3 & d3 & H3 & H).
  pose proof (report_replication_kept job objects_total chunks_total
    (set pg_objects_done (Z.add 1) (cs, p1).2) W answer w1 d2) as Hk3. rewrite H3 in Hk3. cbn [snd] in Hk3.
  assert (forall o, object_manifests d3 !! o =
    if bool_decide (o = object_id m)
    then (fun r => r <| om_commit_state := commit_state m |> <| om_manifest := m <| chunks := cs |> |>)
           <$> object_manifests db !! o
    else object_manifests db !! o) as Hd3.
  { intros o. rewrite Hk3, <- Hd2. cbn. rewrite Hk. case_bool_decide as Eo; [subst o; apply lookup_alter_eq|].
    by apply lookup_alter_ne. }
  apply IH in H as (Hdom & Hcov & Hall); cycle 1.
  { intros m' Hm'. rewrite Hd3. destruct (Hms m' (or_intror Hm')) as [r Hr].
    case_bool_decide as Eo; rewrite Hr; eauto. }
  split_and!.
  - intros o [r Hr]. apply Hdom. rewrite Hd3, Hr. by case_bool_decide.
  - intros o row Ho Hc. destruct (decide (o = object_id m)) as [->|Hne].
    + eapply Hcov; [rewrite Hd3, bool_decide_eq_true_2, Ho by done; reflexivity|]. exact Hcs.
    + eapply Hcov; [rewrite Hd3, bool_decide_eq_false_2 by done; exact Ho|done].
  - intros m' [<-|Hm']; [|by apply Hall]. destruct (Hms m (or_introl eq_refl)) as [r Hr].
    eapply Hcov; [rewrite Hd3, bool_decide_eq_true_2, Hr by done; reflexivity|]. exact Hcs.
Qed.
End Facts.


Lemma unexpired_In E i l m : expires_at m = None -> In m l -> In m (unexpired E i l).
Proof.
  intros Hm. revert i. induction l as [|x l IH]; intros i; [done|]. cbn [unexpired].
  intros [->|H]; [unfold is_expired at 1; rewrite Hm; by left|].
  destruct (is_expired x (now_utc_at E i)); [by apply IH|right; by apply IH].
Qed.

Lemma unexpired_incl E i l m : In m (unexpired E i l) -> In m l.
Proof.
  revert i. induction l as [|x l IH]; intros i; [done|]. cbn [unexpired].
  destruct (is_expired x (now_utc_at E i)); [intros H; right; by eapply IH|intros [->|H]; [by left|right; by eapply IH]].
Qed.

Lemma selected_In job ms m :
  In m (selected job ms) <-> In m ms /\ (rp_object_keys job = [] \/ one_of (key m) (rp_object_keys job) = true).
Proof.
  unfold selected. destruct (rp_object_keys job) as [|k ks]; [intuition|].
  rewrite filter_In. intuition discriminate.
Qed.

(** The manifests that the worker starts from. *)
Lemma service_listed E bkt ms (db db' : Db) :
  service_list_bucket_manifests E bkt None db = (Ok ms, db') ->
  db' = db /\ exists stored, load_listed db (listed_rows bkt None db) = Ok stored /\ ms = unexpired E 0 stored.
Proof.
  unfold service_list_bucket_manifests, list_bucket_manifests, service, map_err, query, mbind, mret, IO_bind, M_bind,
    IO_ret.
  destruct (load_listed db (listed_rows bkt None db)) as [stored|e]; cbn; [|discriminate].
  intros [= <- <-]. eauto.
Qed.

Lemma kept_ok {W A} (answer : forall B, Io B -> W -> B * W) (p : Task A) w db a w' db' :
  manifests_kept p -> interp answer p w db = (Ok a, w', db') -> object_manifests db' = object_manifests db.
Proof. intros Hk H. specialize (Hk W answer w db). by rewrite H in Hk. Qed.

Lemma quota_kept account n : manifests_kept (call (ensure_account_quota_for_additional_bytes account n)).
Proof. apply kept_call. unfold ensure_account_quota_for_additional_bytes. step_through. Qed.

Lemma finish_kept E id st e auto : manifests_kept (call (finish_replication E id st e auto)).
Proof. apply kept_call. by apply steps_modify. Qed.

(** A replication that succeeds is complete: every object of the bucket that
    the index showed when the job began, on the active connection, without an
    expiry, and among the selected keys when there is a selection, ends with
    every chunk of its manifest having a replica of the target account in the
    requested mode. *)
Theorem replication_covers {W} (answer : forall B, Io B -> W -> B * W) job w db w' db' :
  (forall o row, object_manifests db !! o = Some row -> object_id (om_manifest row) = o) ->
  interp answer (process_replication_job job) w db = (Ok tt, w', db') ->
  forall k a row,
    active_objects db !! (rp_bucket job, k) = Some a ->
    object_manifests db !! ao_object_id a = Some row ->
    om_connection_id row = active_connection_id db ->
    expires_at (om_manifest row) = None ->
    rp_object_keys job = [] \/ In (key (om_manifest row)) (rp_object_keys job) ->
    exists row', object_manifests db' !! ao_object_id a = Some row' /\ covered job (om_manifest row').
Proof.
  intros Hkeys H k a row Ha Hrow Hconn Hexp Hsel. unfold process_replication_job in H.
  apply interp_ok in H as (stored & w1 & d1 & H1 & H). apply interp_call in H1 as [H1 ->].
  injection H1 as _ <-.
  apply interp_ok in H as (E & w2 & d2 & H2 & H). cbn in H2. destruct (answer _ Ambient w) as [E0 w0].
  injection H2 as -> -> <-.
  apply interp_ok in H as (ms & w3 & d3 & H3 & H). cbn [interp service_call] in H3.
  destruct (service_list_bucket_manifests E (rp_bucket job) None db) as [[listed|e] dl] eqn:El; [|done].
  cbn in H3. injection H3 as -> _ ->. apply service_listed in El as [-> (all & Hall & ->)].
  apply interp_ok in H as ([] & w4 & d4 & H4 & H). apply kept_ok in H4 as Hk4.
  2:{ destruct (bool_decide _); [apply quota_kept|apply kept_return]. }
  apply interp_ok in H as (E1 & w5 & d5 & H5 & H). apply kept_ok in H5 as Hk5; [|apply kept_perform].
  apply interp_ok in H as ([] & w6 & d6 & H6 & H). apply kept_ok in H6 as Hk6; [|kept_through].
  apply interp_ok in H as (chat & w7 & d7 & H7 & H). apply kept_ok in H7 as Hk7.
  2:{ destruct (bool_decide _); unfold mret, Task_ret; kept_through. }
  apply interp_ok in H as (p & w8 & d8 & H8 & H).
  apply interp_ok in H as (E2 & w9 & d9 & H9 & H). apply kept_ok in H9 as Hk9; [|apply kept_perform].
  apply kept_ok in H as Hk; [|apply finish_kept].
  rewrite Hk, Hk9. rewrite <- (Hkeys _ _ Hrow).
  apply replicate_objects_ok in H8 as (_ & _ & Hcov).
  - apply Hcov, selected_In. split; [|by rewrite one_of_In]. apply unexpired_In; [done|].
    apply (load_listed_spec _ _ _ Hall). exists ((rp_bucket job, k), a), row. split; [|done].
    apply In_listed_rows. split_and!; try done. eauto.
  - intros m Hm. rewrite Hk7, Hk6, Hk5, Hk4. apply selected_In in Hm as [Hm _]. apply unexpired_incl in Hm.
    apply (load_listed_spec _ _ _ Hall) in Hm as (e & r & _ & Hr & <-). rewrite (Hkeys _ _ Hr). eauto.
Qed.

(** ** Witnesses and the recorded defect *)

Definition sample_store : Db :=
  (modify (fun db => db <| app_settings ::= <["telegram_active_connection_id" := "c"]> |>
                        <| telegram_accounts := {[ "c" := sample_account; "d" := sample_account ]} |>)
     (sample_object empty_db).2).2.

Definition sample_copy : ReplicationRow :=
  match (queue_replication (sample_env 5 "r") "c" "d" "b" [] "one_time" "replica" sample_store).1 with
  | Ok job => job
  | Err _ => {| rp_id := ""; rp_source_account_id := ""; rp_target_account_id := ""; rp_bucket := "";
                rp_object_keys := []; rp_mode := ""; rp_access_mode := ""; rp_state := ""; rp_objects_total := 0;
                rp_objects_done := 0; rp_chunks_total := 0; rp_chunks_done := 0; rp_bytes_done := 0;
                rp_next_run := None; rp_last_run := None; rp_error := None; rp_created_at := 0;
                rp_updated_at := 0 |}
  end.

Definition sample_queue : Db := (queue_replication (sample_env 5 "r") "c" "d" "b" [] "one_time" "replica" sample_store).2.

Abbreviation sample_run := (interp sample_answer (process_replication_job sample_copy) 0%nat sample_queue).

Lemma replication_covers_witness :
  sample_run.1.1 = Ok tt /\
  exists row', object_manifests sample_run.2 !! "o" = Some row' /\ covered sample_copy (om_manifest row').
Proof.
  assert (sample_run.1.1 = Ok tt) as Hr by (vm_compute; reflexivity). split; [exact Hr|].
  assert (object_manifests sample_queue = {[ "o" := default (* absent *)
     {| om_connection_id := ""; om_bucket := ""; om_object_key := ""; om_version_id := None;
        om_commit_state := CommitState.Staging; om_manifest := sample_manifest "o" "b" "k"; om_created_at := "";
        om_committed_at := None; om_tombstoned_at := None |} (object_manifests sample_queue !! "o") ]}) as Hm
    by (vm_compute; reflexivity).
  assert (interp sample_answer (process_replication_job sample_copy) 0%nat sample_queue =
    (Ok tt, sample_run.1.2, sample_run.2)) as H by (rewrite <- Hr; by destruct sample_run as [[? ?] ?]).
  refine (replication_covers sample_answer sample_copy 0%nat sample_queue _ _ _ H "k"
    {| ao_object_id := "o"; ao_updated_at := "t" |} _ _ _ _ _ _).
  - intros o row. rewrite Hm, lookup_singleton_Some. intros [<- <-]. vm_compute. reflexivity.
  - vm_compute. reflexivity.
  - rewrite Hm, lookup_singleton_eq. reflexivity.
  - vm_compute. reflexivity.
  - vm_compute. reflexivity.
  - left. vm_compute. reflexivity.
Defined.

(** The manifest is written back as it was read, its commit state included, and
    [update_manifest] does not look at the row it replaces.  An object that is
    deleted while its chunks are being copied is marked as committed again,
    although it stays out of the index. *)
Theorem replication_recommits_deleted :
  let deleted := (delete_active_key (sample_env 9 "u") "b" "k" "deleted via S3" no_conditionals sample_queue).2 in
  let copied := interp sample_answer (replicate_objects sample_copy "c" 1 3 (Some "q")
      (match service_list_bucket_manifests (sample_env 8 "u") "b" None sample_queue with
       | (Ok ms, _) => ms | _ => [] end)
      {| pg_objects_done := 0; pg_chunks_done := 0; pg_bytes_done := 0; pg_source_open := false |}) 0%nat deleted in
  (om_commit_state <$> object_manifests deleted !! "o") = Some CommitState.Tombstoned /\
  is_ok copied.1.1 = true /\
  (om_commit_state <$> object_manifests copied.2 !! "o") = Some CommitState.Committed /\
  active_objects copied.2 !! ("b", "k") = None.
Proof. split_and!; vm_compute; reflexivity. Qed.
