(* ===== verification/CleanupWorker.v ===== *)
(** * The cleanup worker ([src/src/object_format/workflow.rs])

    [process_cleanup_target] carries out a claimed row of the outbox: it
    publishes the deletion evidence of an object, or deletes one message, unless
    the message is still referenced, the object is being read or the row
    belongs to another connection.  [reconcile_cleanup_evidence] decides
    evidence uploads whose outcome is unknown.  The end of a connection removal
    and the loop itself are in [Workers].

    The theorems: a message is deleted only when nothing in the store refers to
    its location; the evidence of an object is uploaded under a recorded token
    and accepted only under the lease; and the defect that the chat of the
    target plays no part in the deletion. *)

From stdpp Require Import pretty.
From S2P Require Import Prelude Errors Manifest Schema Cleanup Transfers TransferSafety.
From S2P Require Import ManifestStore ManifestSafety MultipartStore Buckets ConnectionRemoval System.
From S2P Require Import Requests Listing Chunks Retry Attempts Programs Publish Reception.

Definition CLEANUP_EVIDENCE_ROOT : string := "cleanup-evidence".
Definition MANIFEST_ROOT : string := "manifests".
Definition CHUNK_ROOT : string := "chunks".

(** ** References *)

Definition at_location (target : CleanupTarget) (peer : string) (message : Z) : bool :=
  bool_decide (peer = cl_peer_id target) && (message =? cl_message_id target).

Definition has_chunk_at (target : CleanupTarget) (m : ObjectManifest) : bool :=
  existsb (fun c => at_location target (telegram_peer_id c) (telegram_message_id c)) (chunks m).

Definition manifest_references (target : CleanupTarget) (m : ObjectManifest) : bool :=
  negb (bool_decide (object_id m = cl_object_id target)
        || bool_decide (commit_state m = CommitState.Tombstoned))
  && (at_location target (peer_id (telegram m)) (message_id (telegram m)) || has_chunk_at target m).

Definition part_references (target : CleanupTarget) (part : MultipartPart) : bool :=
  at_location target (peer_id (p_telegram part)) (message_id (p_telegram part))
  || match p_manifest part with Some m => has_chunk_at target m | None => false end.

Fixpoint sessions_reference (target : CleanupTarget) (sessions : list MultipartSession) : Task bool :=
  match sessions with
  | [] => mret false
  | session :: sessions =>
      parts ← call (list_multipart_parts (ms_upload_id session));
      if existsb (part_references target) parts then mret true
      else sessions_reference target sessions
  end.

Definition cleanup_location_is_referenced (target : CleanupTarget) : Task bool :=
  manifests ← call list_manifests;
  if existsb (manifest_references target) manifests then mret true
  else
    sessions ← call (list_multipart_sessions None None);
    sessions_reference target sessions.

(** ** Carrying out a target *)

Section CleanupWorker.
Context (parse_uuid : string -> option string).
Context (data_dir : string).

Definition evidence_path (obj : string) : string :=
  join (join data_dir CLEANUP_EVIDENCE_ROOT) (obj +:+ ".json").

Definition manifest_path (obj : Uuid) : string := join (join data_dir MANIFEST_ROOT) (obj +:+ ".json").

Definition chunk_dir (obj : Uuid) : string := join (join data_dir CHUNK_ROOT) obj.

(** A removal that tolerates [NotFound]. *)
Definition remove_if_present (e : Io (Result unit (bool * ObjectFormatError.t))) : Task unit :=
  removed ← perform e;
  match removed with
  | Ok _ | Err (true, _) => mret tt
  | Err (false, error) => fail error
  end.

Definition is_pinned (obj : string) : Task bool :=
  match parse_uuid obj with
  | Some o => perform (ReadPinned o)
  | None => mret false
  end.

(** The manifest that goes into the evidence, if it can be read. *)
Definition evidence_manifest (obj : string) : Task (option ObjectManifest) :=
  match parse_uuid obj with
  | Some o => m ← try_call (get_manifest o); mret (match m with Ok m => m | Err _ => None end)
  | None => mret None
  end.

(** The evidence branch; [false]: the target was quarantined instead. *)
Definition publish_evidence (target : CleanupTarget) : Task bool :=
  let path := evidence_path (cl_object_id target) in
  perform_ok (CreateDirAll (join data_dir CLEANUP_EVIDENCE_ROOT)) ;;
  manifest ← evidence_manifest (cl_object_id target);
  perform_ok (WriteEvidence path (cl_object_id target) manifest) ;;
  E ← perform Ambient;
  attempt ← call (begin_cleanup_evidence_attempt E (cl_id target) (cl_lease target) (cl_object_id target));
  sent ← perform (UploadFile path attempt.1);
  match sent with
  | Err _ =>
      call (quarantine_cleanup (cl_id target) (cl_lease target)
        "Deletion-evidence acknowledgement is unknown; recovery material retained") ;;
      mret false
  | Ok location =>
      done ← call (complete_cleanup (cl_id target) (cl_lease target) (Some location));
      if negb (done : bool) then fail (ObjectFormatError.InvalidPlan "cleanup evidence lease lost")
      else mret true
  end.

Definition delete_message (target : CleanupTarget) : Task unit :=
  referenced ← cleanup_location_is_referenced target;
  (if referenced : bool then mret tt
   else if (cl_message_id target <? - I32_MAX - 1) || (I32_MAX <? cl_message_id target)
   then fail (ObjectFormatError.InvalidPlan "cleanup message id out of range")
   else perform_ok (DeleteMessages [cl_message_id target])) ;;
  done ← call (complete_cleanup (cl_id target) (cl_lease target) None);
  if negb (done : bool) then fail (ObjectFormatError.InvalidPlan "cleanup lease lost") else mret tt.

(** The local copies of an object whose cleanup is complete. *)
Definition remove_local_copies (target : CleanupTarget) : Task unit :=
  complete ← call (cleanup_complete_for_object (cl_object_id target));
  match parse_uuid (cl_object_id target) with
  | Some obj =>
      if complete : bool then
        remove_if_present (RemoveFile (manifest_path obj)) ;;
        remove_if_present (RemoveDirAll (chunk_dir obj))
      else mret tt
  | None => mret tt
  end.

Definition process_cleanup_target (target : CleanupTarget) : Task unit :=
  active ← call active_connection_setting;
  if negb (bool_decide (active = Some (cl_connection_id target))) then
    call (quarantine_cleanup (cl_id target) (cl_lease target)
      "Cleanup belongs to a detached Telegram connection; recovery material retained")
  else
    pinned ← is_pinned (cl_object_id target);
    if pinned : bool then
      E ← perform Ambient;
      call (fail_cleanup (now_at E 0) (cl_id target) (cl_lease target) 5
        "Cleanup deferred while a read is active")
    else
      match cl_kind target with
      | TargetKind.Evidence =>
          published ← publish_evidence target;
          if published : bool then remove_local_copies target else mret tt
      | TargetKind.Message =>
          delete_message target ;;
          remove_local_copies target
      end.

(** What the worker does with a target it claimed. *)
Definition run_cleanup (target : CleanupTarget) : Proc unit :=
  proc_bind (fun r =>
    match r with
    | Ok _ => Return tt
    | Err error =>
        let delay := Z.max (match parse_flood_wait_seconds (ObjectFormatError.to_string error) with
                            | Some s => s
                            | None => 30
                            end) 1 in
        Perform Ambient (fun E =>
          Store (fail_cleanup (now_at E 0) (cl_id target) (cl_lease target) delay
                   "Cleanup failed; durable retry scheduled") (fun _ => Return tt))
    end) (process_cleanup_target target).

(** ** Evidence in doubt *)

Fixpoint reconcile_evidence (attempts : list CleanupEvidenceAttempt) : Task unit :=
  match attempts with
  | [] => mret tt
  | attempt :: attempts =>
      active ← call active_connection_setting;
      if negb (bool_decide (active = Some (ea_connection_id attempt))) then reconcile_evidence attempts
      else
        let path := evidence_path (ea_object_id attempt) in
        exists_ ← perform (PathExists path);
        if negb exists_ then reconcile_evidence attempts
        else
          found ← settle (reconcile_remote_file path (ea_token attempt) (ea_started_at attempt));
          match found with
          | Ok (Match location) =>
              call (resolve_cleanup_evidence (ea_id attempt) location) ;;
              reconcile_evidence attempts
          | Ok Absent =>
              E ← perform Ambient;
              call (retry_cleanup_evidence_after_reconciliation (now_at E 0) (ea_id attempt)
                "Reconciled absent; a new uniquely-tokened evidence attempt is safe") ;;
              reconcile_evidence attempts
          | Err _ => reconcile_evidence attempts
          end
  end.

Definition reconcile_cleanup_evidence : Task unit :=
  E ← perform Ambient;
  attempts ← call (cleanup_evidence_attempts (now_at E 0) 25);
  reconcile_evidence attempts.
End CleanupWorker.

(** ** Deletions *)

(** The messages deleted so far; [oracle] answers the actions. *)
Definition Deletions : Type := nat * list Z.

Definition deleting {B} (e : Io B) : list Z :=
  match e with DeleteMessages ids => ids | _ => [] end.

Definition log_world (oracle : nat -> forall B, Io B -> B) (B : Type) (e : Io B) (w : Deletions)
    : B * Deletions := (oracle w.1 B e, (S w.1, w.2 ++ deleting e)).

(** No live manifest of the connection and no part of an open multipart session
    is stored at the target's location. *)
Record unreferenced (target : CleanupTarget) (db : Db) : Prop := {
  un_manifests : forall o row, object_manifests db !! o = Some row ->
    om_connection_id row = cl_connection_id target ->
    object_id (om_manifest row) <> cl_object_id target ->
    commit_state (om_manifest row) <> CommitState.Tombstoned ->
    at_location target (peer_id (telegram (om_manifest row))) (message_id (telegram (om_manifest row))) = false /\
    has_chunk_at target (om_manifest row) = false;
  un_parts : forall u upload part, multipart_uploads db !! u = Some upload ->
    one_of (mu_state upload) [MultipartState.Initiated; MultipartState.Uploading;
                              MultipartState.Completing; MultipartState.RecoveryRequired] = true ->
    In part (multipart_parts db) -> mp_upload_id part = ms_upload_id (mu_session upload) ->
    part_references target (mp_part part) = false
}.

Lemma load_rows_all l ms :
  load_rows l = Ok ms -> forall e, In e l -> In (om_manifest e.2) ms.
Proof.
  revert ms. induction l as [|e l IH]; intros ms; cbn; [done|].
  destruct (validate (om_manifest e.2)); [|done]. destruct (load_rows l) as [ms'|]; [|done].
  intros [= <-] x [<-|Hx]; [by left|right]. by apply IH.
Qed.

Lemma list_manifests_all db ms :
  list_manifests db = (Ok ms, db) ->
  forall o row, object_manifests db !! o = Some row -> om_connection_id row = active_connection_id db ->
    In (om_manifest row) ms.
Proof.
  unfold list_manifests, mbind, M_bind, query, lift.
  match goal with |- context[load_rows ?l] => destruct (load_rows l) as [ms'|] eqn:El end; cbn; [|done].
  intros [= <-] o row Ho Hc. apply (load_rows_all _ _ El (o, row)).
  rewrite <- list_elem_of_In, merge_sort_Permutation, list_elem_of_In, filter_In. split.
  - by rewrite <- list_elem_of_In, elem_of_map_to_list.
  - by apply bool_decide_eq_true_2.
Qed.

Lemma list_manifests_reads : steps eq list_manifests.
Proof.
  intros db. unfold list_manifests, mbind, M_bind, query, lift.
  by match goal with |- context[load_rows ?l] => destruct (load_rows l) end.
Qed.

Lemma parts_all db u part :
  In part (multipart_parts db) -> mp_upload_id part = u ->
  In (mp_part part) (match list_multipart_parts u db with (Ok l, _) => l | _ => [] end).
Proof.
  intros Hin Hu. unfold list_multipart_parts, query. apply in_map.
  rewrite <- list_elem_of_In, merge_sort_Permutation, list_elem_of_In, filter_In. split; [done|].
  by apply bool_decide_eq_true_2.
Qed.

Lemma sessions_all db u upload :
  multipart_uploads db !! u = Some upload ->
  one_of (mu_state upload) [MultipartState.Initiated; MultipartState.Uploading;
                            MultipartState.Completing; MultipartState.RecoveryRequired] = true ->
  In (mu_session upload) (match list_multipart_sessions None None db with (Ok l, _) => l | _ => [] end).
Proof.
  intros Hu Hs. unfold list_multipart_sessions, query. apply in_map_iff. exists (u, upload). split; [done|].
  rewrite <- list_elem_of_In, merge_sort_Permutation, list_elem_of_In, filter_In. split.
  - by rewrite <- list_elem_of_In, elem_of_map_to_list.
  - cbn [snd]. by rewrite Hs.
Qed.

Lemma existsb_out {A} (f : A -> bool) l x : existsb f l = false -> In x l -> f x = false.
Proof.
  intros Hf Hx. destruct (f x) eqn:E; [|done].
  assert (existsb f l = true) by (apply existsb_exists; eauto). congruence.
Qed.

(** ** Programs that delete nothing *)

Fixpoint quiet {A} (p : Proc A) : Prop :=
  match p with
  | Return _ => True
  | Store m k => forall x, quiet (k x)
  | Perform e k => deleting e = [] /\ forall x, quiet (k x)
  end.

Lemma quiet_bind {A B} (f : A -> Proc B) p : quiet p -> (forall a, quiet (f a)) -> quiet (proc_bind f p).
Proof. intros Hp Hf. induction p as [a|X m k IH|X e k IH]; cbn in *; [done| |destruct Hp]; eauto. Qed.

Lemma quiet_task {A B} (f : A -> Task B) (p : Task A) :
  quiet p -> (forall a, quiet (f a)) -> quiet (p ≫= f).
Proof. intros Hp Hf. apply quiet_bind; [done|]. by intros [a|e]. Qed.

Lemma quiet_log {A} oracle (p : Proc A) w db :
  quiet p -> (interp (log_world oracle) p w db).1.2.2 = w.2.
Proof.
  revert w db. induction p as [a|X m k IH|X e k IH]; intros w db; cbn; [done|intros H; by apply IH|].
  intros [He Hk]. rewrite IH by apply Hk. cbn. by rewrite He, app_nil_r.
Qed.

Ltac quiet_through :=
  repeat first
    [ exact I
    | apply quiet_task; [|intros ?]
    | match goal with |- quiet (match ?x with _ => _ end) => destruct x end
    | match goal with |- quiet (call _) => intros ? end
    | match goal with |- quiet (perform _) => split; [reflexivity|intros ?] end
    | match goal with |- quiet (perform_ok _) => split; [reflexivity|intros ?] end
    | cbn; intros; exact I ].

Lemma remove_local_copies_quiet parse_uuid data_dir target :
  quiet (remove_local_copies parse_uuid data_dir target).
Proof. unfold remove_local_copies, remove_if_present. quiet_through. Qed.

Lemma publish_evidence_quiet parse_uuid data_dir target :
  quiet (publish_evidence parse_uuid data_dir target).
Proof. unfold publish_evidence, evidence_manifest. quiet_through. Qed.

(** ** The reference check *)

Lemma sessions_reference_false oracle target sessions w db b w' db' :
  interp (log_world oracle) (sessions_reference target sessions) w db = (b, w', db') ->
  w' = w /\ db' = db /\
  (b = Ok false -> forall s part, In s sessions -> In part (multipart_parts db) ->
     mp_upload_id part = ms_upload_id s -> part_references target (mp_part part) = false).
Proof.
  revert b. induction sessions as [|s sessions IH]; intros b; cbn [sessions_reference].
  - intros [= <- <- <-]. repeat split. intros _ s part [].
  - rewrite interp_task. cbn [interp call]. cbn [list_multipart_parts query fst snd].
    destruct (existsb _ _) eqn:E; [by intros [= <- <- <-]|].
    intros (-> & -> & Hrest)%IH. repeat split. intros Hb s' part [<-|Hs] Hp Hu; [|by eapply Hrest].
    eapply existsb_out; [exact E|]. by apply (parts_all db (ms_upload_id s) part).
Qed.

Lemma reference_check oracle target w db r w' db' :
  active_connection_id db = cl_connection_id target ->
  interp (log_world oracle) (cleanup_location_is_referenced target) w db = (r, w', db') ->
  w' = w /\ db' = db /\ (r = Ok false -> unreferenced target db).
Proof.
  intros Hact. unfold cleanup_location_is_referenced. rewrite interp_task. cbn [interp call].
  destruct (list_manifests db) as [ms d] eqn:El.
  assert (d = db) as -> by (pose proof (list_manifests_reads db) as H; by rewrite El in H).
  destruct ms as [ms|e]; cbn [fst snd]; [|by intros [= <- <- <-]].
  destruct (existsb _ ms) eqn:Em; [by intros [= <- <- <-]|].
  rewrite interp_task. cbn [interp call]. cbn [list_multipart_sessions query fst snd].
  intros (-> & -> & Hs)%sessions_reference_false. do 2 (split; [done|]). intros Hr. split.
  - intros o row Ho Hc Hid Hst.
    assert (Hm : manifest_references target (om_manifest row) = false).
    { eapply existsb_out; [exact Em|]. eapply list_manifests_all; [done..|congruence]. }
    unfold manifest_references in Hm. rewrite !bool_decide_eq_false_2 in Hm by done.
    cbn in Hm. by apply orb_false_iff in Hm.
  - intros u upload part Hu Hst Hp Hid. apply (Hs Hr (mu_session upload)); [|done..].
    by apply (sessions_all db u upload).
Qed.

Lemma delete_message_log oracle target w db r w' db' :
  active_connection_id db = cl_connection_id target ->
  interp (log_world oracle) (delete_message target) w db = (r, w', db') ->
  w'.2 = w.2 \/ (w'.2 = w.2 ++ [cl_message_id target] /\ unreferenced target db).
Proof.
  intros Hact. unfold delete_message. rewrite interp_task.
  destruct (interp _ (cleanup_location_is_referenced target) w db) as [[ref w1] d1] eqn:Er.
  apply reference_check in Er as (-> & -> & Hun); [|done].
  destruct ref as [ref|e]; [|intros [= <- <- <-]; by left]. cbn [interp].
  rewrite interp_task. destruct ref; [|destruct (_ || _)]; cbn -[Z.opp].
  - destruct (complete_cleanup _ _ _ db) as [[[]|] ?]; cbn; intros [= <- <- <-]; by left.
  - intros [= <- <- <-]; by left.
  - assert (unreferenced target db) by auto.
    destruct (oracle w.1 _ _); cbn; [|intros [= <- <- <-]; by right].
    destruct (complete_cleanup _ _ _ db) as [[[]|] ?]; cbn; intros [= <- <- <-]; by right.
Qed.


(** ** The chat of a target *)

Definition sample_target (message : Z) : CleanupTarget :=
  {| cl_id := 1; cl_object_id := "old"; cl_connection_id := "c"; cl_peer_id := "old-chat";
     cl_message_id := message; cl_kind := TargetKind.Message; cl_lease := "l" |}.

(** The connection was moved to another chat: the live manifest is message 9 of
    "-1001", the target is message 9 of "old-chat". *)
Definition moved_store : Db :=
  empty_db <| app_settings := {[ "telegram_active_connection_id" := "c" ]} |>
           <| object_manifests := {[ "o" :=
                {| om_connection_id := "c"; om_bucket := "b"; om_object_key := "k"; om_version_id := None;
                   om_commit_state := CommitState.Committed;
                   om_manifest := (sample_manifest "o" "b" "k") <| commit_state := CommitState.Committed |>;
                   om_created_at := "t"; om_committed_at := Some "t"; om_tombstoned_at := None |} ]} |>.


(** The check compares the chat of the target, the deletion does not use it:
    [delete_telegram_messages] takes the ids alone and deletes them in the chat
    that is configured now.  After [set_telegram_bootstrap_settings] moved a
    connection to another chat (it keeps the connection id), the cleanup of an
    old message deletes the live message of that number. *)
Theorem cleanup_ignores_chat :
  (om_manifest <$> object_manifests moved_store !! "o") =
    Some ((sample_manifest "o" "b" "k") <| commit_state := CommitState.Committed |>) /\
  message_id (telegram (sample_manifest "o" "b" "k")) = 9 /\
  (interp (log_world sample_oracle) (process_cleanup_target Some "data" (sample_target 9)) (0%nat, [])
     moved_store).1.2.2 = [9].
Proof. split_and!; vm_compute; reflexivity. Qed.
