(* ===== verification/Auth.v ===== *)
(** * Operator accounts, sessions and the login limiter ([src/src/auth.rs],
    [src/src/metadata/auth.rs], [src/src/durable.rs])

    The tables [users] and [admin_sessions] with every operation on them, the
    account functions built on them, and the in-memory limiter of failed
    logins.  Argon2, the Unicode tables behind [trim] and [to_lowercase], and
    the RFC 3339 reader and printer are parameters.

    The theorems: whatever sequence of account operations runs, there is no
    account or an enabled superadmin, and identifiers and names stay unique;
    [authenticate] accepts exactly the password of an enabled account; a
    password change puts every older token version out of use for good; and
    the limiter admits at most eleven wrong passwords for a name in a window of
    five minutes.  One theorem shows a defect: an attempt that is refused
    because the name is locked can lift the lock. *)

From stdpp Require Import pretty.
From S2P Require Import Prelude Errors Manifest Schema Cleanup Transfers TransferSafety ManifestStore Buckets.
From S2P Require Import Requests Listing.

(** ** Rows ([metadata/auth.rs]) *)

Record DbUser : Type := {
  u_id : string;
  u_username : string;
  u_password_hash : string;
  u_role : string;
  u_display_name : string;
  u_disabled : bool;
  u_token_version : Z;
  u_created_at : OffsetDateTime;
  u_updated_at : OffsetDateTime
}.

Record DbSession : Type := {
  s_cookie_id : string;
  s_user_id : string;
  s_token_version : Z;
  s_issued_at : OffsetDateTime;
  s_expires_at : OffsetDateTime;
  s_created_ip : option string;
  s_revoked_at : option OffsetDateTime
}.

Definition with_id (id : string) (r : UserRow) : bool := bool_decide (us_id r = id).

Definition enabled_superadmin (r : UserRow) : bool :=
  bool_decide (us_role r = "superadmin") && negb (us_disabled r).

Section Store.
Context (parse_rfc3339 : string -> option OffsetDateTime).
Context (format_rfc3339 : OffsetDateTime -> Result string string).

Definition read_user_row (r : UserRow) : M DbUser :=
  created ← parse_timestamp parse_rfc3339 (us_created_at r);
  updated ← parse_timestamp parse_rfc3339 (us_updated_at r);
  mret {| u_id := us_id r; u_username := us_username r; u_password_hash := us_password_hash r;
          u_role := us_role r; u_display_name := us_display_name r; u_disabled := us_disabled r;
          u_token_version := us_token_version r; u_created_at := created; u_updated_at := updated |}.

Definition row_user (p : UserRow -> bool) : M (option DbUser) :=
  row ← query (fun db => sql_first (sql_where p (users db)));
  match row with
  | None => mret None
  | Some r => u ← read_user_row r; mret (Some u)
  end.

Definition get_user (username : string) : M (option DbUser) :=
  row_user (fun r => bool_decide (us_username r = username)).

Definition get_user_by_id (id : string) : M (option DbUser) := row_user (with_id id).

Definition username_le (a b : UserRow) : Prop := text_le (us_username a) (us_username b) = true.

#[local] Instance username_le_dec : RelDecision username_le.
Proof. intros a b. unfold username_le. apply _. Defined.

Fixpoint read_users (rows : list UserRow) : M (list DbUser) :=
  match rows with
  | [] => mret []
  | r :: rows => u ← read_user_row r; us ← read_users rows; mret (u :: us)
  end.

Definition list_users : M (list DbUser) :=
  rows ← query (fun db => merge_sort username_le (users db));
  read_users rows.

(** The primary key and the unique name of the table. *)
Definition insert_user (row : UserRow) : M unit :=
  taken ← query (fun db => sql_exists (with_id (us_id row)) (users db));
  ensure (negb taken) (Sqlite "UNIQUE constraint failed: users.id") ;;
  named ← query (fun db => sql_exists (fun r => bool_decide (us_username r = us_username row)) (users db));
  ensure (negb named) (Sqlite "UNIQUE constraint failed: users.username") ;;
  modify (fun db => db <| users ::= (fun t => t ++ [row]) |>).

Definition new_user (id username hash role display now : string) : UserRow :=
  {| us_id := id; us_username := username; us_password_hash := hash; us_role := role;
     us_display_name := display; us_disabled := false; us_token_version := 0;
     us_created_at := now; us_updated_at := now |}.

Definition create_user (E : Env) (id username password_hash role display_name : string) : M DbUser :=
  let now := timestamp_at E 0 in
  transaction (
    first ← query (fun db => negb (sql_exists (fun _ => true) (users db)));
    let effective_role := if first : bool then "superadmin" else role in
    insert_user (new_user id username password_hash effective_role display_name now) ;;
    modify (fun db => db <| app_settings ::= <["setup_complete" := "true"]> |>)) ;;
  u ← get_user_by_id id;
  some_or u (InvalidManifest "created user not readable").

(** A stored version is far from the end of its 64-bit column. *)
Definition update_user_profile (E : Env) (id display_name : string) (password_hash : option string) : M unit :=
  let now := timestamp_at E 0 in
  transaction (modify (fun db => db <| users ::= sql_update (with_id id) (fun r =>
    match password_hash with
    | Some hash => r <| us_display_name := display_name |> <| us_password_hash := hash |>
                     <| us_token_version ::= Z.add 1 |> <| us_updated_at := now |>
    | None => r <| us_display_name := display_name |> <| us_updated_at := now |>
    end) |>)).

Definition user_count : M Z := query (fun db => sql_count (fun _ => true) (users db)).

Definition enabled_superadmin_count : M Z := query (fun db => sql_count enabled_superadmin (users db)).

(** The sessions of the user go with the row ([ON DELETE CASCADE]). *)
Definition delete_user (id : string) : M unit := transaction (
  role ← query (fun db => us_role <$> sql_first (sql_where (with_id id) (users db)));
  (if bool_decide (role = Some "superadmin") then
     superadmins ← enabled_superadmin_count;
     ensure (negb (superadmins <=? 1)) (InvalidManifest "cannot delete the last enabled superadmin")
   else mret tt) ;;
  modify (fun db => db <| users ::= sql_delete (with_id id) |>
                       <| admin_sessions ::= sql_delete (fun s => bool_decide (as_user_id s = id)
                            && sql_exists (with_id id) (users db)) |>)).

Definition set_user_password (E : Env) (id password_hash : string) : M unit :=
  modify (fun db => db <| users ::= sql_update (with_id id) (fun r =>
    r <| us_password_hash := password_hash |> <| us_token_version ::= Z.add 1 |>
      <| us_updated_at := timestamp_at E 0 |>) |>).

Definition set_user_disabled (E : Env) (id : string) (disabled : bool) : M unit := transaction (
  (if disabled then
     role ← query (fun db => us_role <$>
       sql_first (sql_where (fun r => with_id id r && negb (us_disabled r)) (users db)));
     if bool_decide (role = Some "superadmin") then
       superadmins ← enabled_superadmin_count;
       ensure (negb (superadmins <=? 1)) (InvalidManifest "cannot disable the last enabled superadmin")
     else mret tt
   else mret tt) ;;
  modify (fun db => db <| users ::= sql_update (with_id id) (fun r =>
    r <| us_disabled := disabled |> <| us_updated_at := timestamp_at E 0 |>) |>)).

Definition current_token_version (id : string) : M Z :=
  query (fun db => default 0 (us_token_version <$> sql_first (sql_where (with_id id) (users db)))).

(** *** Sessions *)

Definition formatted (t : OffsetDateTime) : M string :=
  match format_rfc3339 t with Ok s => mret s | Err e => throw (TimeFormat e) end.

Definition insert_session (session : DbSession) : M unit :=
  issued ← formatted (s_issued_at session);
  expires ← formatted (s_expires_at session);
  taken ← query (fun db => sql_exists (fun r => bool_decide (as_cookie_id r = s_cookie_id session)) (admin_sessions db));
  ensure (negb taken) (Sqlite "UNIQUE constraint failed: admin_sessions.cookie_id") ;;
  owner ← query (fun db => sql_exists (with_id (s_user_id session)) (users db));
  ensure owner (Sqlite "FOREIGN KEY constraint failed") ;;
  modify (fun db => db <| admin_sessions ::= (fun t => t ++
    [{| as_cookie_id := s_cookie_id session; as_user_id := s_user_id session;
        as_token_version := s_token_version session; as_issued_at := issued; as_expires_at := expires;
        as_created_ip := s_created_ip session; as_revoked_at := None |}]) |>).

Definition get_session (cookie_id : string) : M (option DbSession) :=
  row ← query (fun db => sql_first (sql_where (fun r => bool_decide (as_cookie_id r = cookie_id)) (admin_sessions db)));
  match row with
  | None => mret None
  | Some r =>
      issued ← parse_timestamp parse_rfc3339 (as_issued_at r);
      expires ← parse_timestamp parse_rfc3339 (as_expires_at r);
      revoked ← match as_revoked_at r with
                | Some value => t ← parse_timestamp parse_rfc3339 value; mret (Some t)
                | None => mret None
                end;
      mret (Some {| s_cookie_id := as_cookie_id r; s_user_id := as_user_id r;
                    s_token_version := as_token_version r; s_issued_at := issued; s_expires_at := expires;
                    s_created_ip := as_created_ip r; s_revoked_at := revoked |})
  end.

Definition revoke_sessions (E : Env) (p : SessionRow -> bool) : M unit :=
  modify (fun db => db <| admin_sessions ::= sql_update
    (fun r => p r && negb (is_some (as_revoked_at r)))
    (fun r => r <| as_revoked_at := Some (timestamp_at E 0) |>) |>).

Definition revoke_session (E : Env) (cookie_id : string) : M unit :=
  revoke_sessions E (fun r => bool_decide (as_cookie_id r = cookie_id)).

Definition revoke_user_sessions (E : Env) (user_id : string) : M unit :=
  revoke_sessions E (fun r => bool_decide (as_user_id r = user_id)).

(** The column is compared as text. *)
Definition sweep_sessions (cutoff : OffsetDateTime) : M Z :=
  limit ← formatted cutoff;
  let swept r := match as_revoked_at r with Some t => text_lt t limit | None => false end in
  execute (fun db => sql_count swept (admin_sessions db))
          (fun db => db <| admin_sessions ::= sql_delete swept |>).

(** *** The first account ([durable.rs]) *)

Definition setup_required : M bool :=
  value ← query (fun db => app_settings db !! "setup_complete");
  value ← some_or value (Sqlite "Query returned no rows");
  empty ← query (fun db => negb (sql_exists (fun _ => true) (users db)));
  mret (bool_decide (value = "false") && (empty : bool)).

Definition create_first_user (E : Env) (username password_hash display : string) : M DbUser :=
  let id := new_v4 E 0 in
  transaction (
    open ← query (fun db => bool_decide (app_settings db !! "setup_complete" = Some "false")
                            && negb (sql_exists (fun _ => true) (users db)));
    ensure open (InvalidManifest "setup is already complete") ;;
    modify (fun db => db <| app_settings ::= <["setup_complete" := "true"]> |>) ;;
    insert_user (new_user id username password_hash "superadmin" display (timestamp_at E 0))) ;;
  u ← get_user_by_id id;
  some_or u (InvalidManifest "created account missing").
End Store.

(** ** Account functions ([auth.rs]) *)

Definition ROLE_ADMIN : string := "admin".
Definition ROLE_SUPERADMIN : string := "superadmin".
Definition MIN_PASSWORD_LENGTH : Z := 12.

Module AuthErrorKind.
Inductive t : Type :=
| InvalidUsername
| InvalidDisplayName
| WeakPassword
| UnknownUser
| InvalidPassword
| Disabled
| LockedOut
| RateLimited
| UsernameTaken
| NotAllowed
| Internal.
End AuthErrorKind.

Record AuthError : Type := {
  ae_kind : AuthErrorKind.t;
  ae_message : string;
  ae_retry_after_secs : option Z
}.

Definition auth_error (k : AuthErrorKind.t) (m : string) : AuthError :=
  {| ae_kind := k; ae_message := m; ae_retry_after_secs := None |}.

Definition internal (m : string) : AuthError := auth_error AuthErrorKind.Internal m.

Definition http_status (self : AuthError) : Z :=
  match ae_kind self with
  | AuthErrorKind.RateLimited | AuthErrorKind.LockedOut => 429
  | AuthErrorKind.NotAllowed => 403
  | AuthErrorKind.UsernameTaken => 409
  | AuthErrorKind.InvalidUsername | AuthErrorKind.InvalidDisplayName | AuthErrorKind.WeakPassword => 400
  | AuthErrorKind.UnknownUser | AuthErrorKind.InvalidPassword | AuthErrorKind.Disabled => 401
  | AuthErrorKind.Internal => 500
  end.

(** A call of the store from these functions: [prefix] is what the caller's
    [map_err] (or the [From] instance) puts before the text. *)
Definition from_store {A} (prefix : string) (m : M A) : IO AuthError A :=
  map_err (fun e => internal (prefix +:+ ": " +:+ metadata_text e)) m.

Definition auth_result {A} (r : Result A AuthError) : IO AuthError A := fun db => (r, db).

(** Characters of UTF-8 text: the bytes that do not continue one. *)
Definition continuation (c : Ascii.ascii) : bool :=
  let n := Z.of_nat (Ascii.nat_of_ascii c) in (128 <=? n) && (n <=? 191).

Fixpoint char_count (s : string) : Z :=
  match s with
  | "" => 0
  | String c s => (if continuation c then 0 else 1) + char_count s
  end.

Definition ascii_control (c : Ascii.ascii) : bool :=
  let n := Z.of_nat (Ascii.nat_of_ascii c) in (n <? 32) || (n =? 127).

Definition ascii_whitespace (c : Ascii.ascii) : bool :=
  let n := Z.of_nat (Ascii.nat_of_ascii c) in (n =? 32) || (n =? 9) || (n =? 10) || (n =? 12) || (n =? 13).

Fixpoint any_byte (p : Ascii.ascii -> bool) (s : string) : bool :=
  match s with "" => false | String c s => p c || any_byte p s end.

(** [chars().any(char::is_control)]: U+0000 to U+001F, and U+007F to U+009F. *)
Fixpoint any_control (s : string) : bool :=
  match s with
  | "" => false
  | String c s =>
      ascii_control c
      || (bool_decide (Z.of_nat (Ascii.nat_of_ascii c) = 194)
          && match s with
             | String d _ => let n := Z.of_nat (Ascii.nat_of_ascii d) in (128 <=? n) && (n <=? 159)
             | "" => false
             end)
      || any_control s
  end.

Definition validate_password (password : string) : Result unit AuthError :=
  if char_count password <? MIN_PASSWORD_LENGTH
  then Err (auth_error AuthErrorKind.WeakPassword "password must be at least 12 characters")
  else Ok tt.

Definition is_superadmin (user : DbUser) : bool := bool_decide (u_role user = ROLE_SUPERADMIN).

Definition is_active (user : DbUser) : bool := negb (u_disabled user).

Definition validate_role (role : string) : bool :=
  bool_decide (role = ROLE_ADMIN) || bool_decide (role = ROLE_SUPERADMIN).

(** What Argon2 says of a password and a stored credential. *)
Inductive Verification : Type :=
| Verified
| WrongPassword
| UnreadableHash
| VerificationFailed (message : string).

Section Accounts.
Context (parse_rfc3339 : string -> option OffsetDateTime).
(** [str::trim] and [str::to_lowercase], with the Unicode tables. *)
Context (trim to_lowercase : string -> string).
(** Argon2id: a salt and a password; a password and a stored hash. *)
Context (argon2_hash : string -> string -> Result string string).
Context (argon2_verify : string -> string -> Verification).

Definition normalize_username (raw : string) : Result string AuthError :=
  let value := to_lowercase (trim raw) in
  if is_empty value || (64 <? Z.of_nat (String.length value))
     || any_byte (fun b => ascii_control b || ascii_whitespace b) value
  then Err (auth_error AuthErrorKind.InvalidUsername "username must be 1-64 non-control characters")
  else Ok value.

Definition normalize_display_name (raw : string) : Result string AuthError :=
  let value := trim raw in
  if is_empty value || (120 <? char_count value) || any_control value
  then Err (auth_error AuthErrorKind.InvalidDisplayName "display name must be 1-120 non-control characters")
  else Ok value.

Definition hash_password (salt password : string) : Result string AuthError :=
  match argon2_hash salt password with
  | Ok hash => Ok hash
  | Err error => Err (internal ("password hashing failed: " +:+ error))
  end.

Definition verify_password (password phc : string) : Result unit AuthError :=
  match argon2_verify password phc with
  | Verified => Ok tt
  | WrongPassword => Err (auth_error AuthErrorKind.InvalidPassword "invalid username or password")
  | UnreadableHash => Err (auth_error AuthErrorKind.UnknownUser "invalid stored credential")
  | VerificationFailed error => Err (internal ("password verification failed: " +:+ error))
  end.

(** [salt] is the fresh salt of this call. *)
Definition create_account (E : Env) (salt raw_username password requested_role display_name : string)
    : IO AuthError DbUser :=
  username ← auth_result (normalize_username raw_username);
  auth_result (validate_password password) ;;
  (if negb (validate_role requested_role)
   then raise (auth_error AuthErrorKind.NotAllowed "unknown role requested") else mret tt) ;;
  existing ← from_store "store error" (get_user parse_rfc3339 username);
  (if is_some existing then raise (auth_error AuthErrorKind.UsernameTaken "username taken") else mret tt) ;;
  count ← from_store "store error" user_count;
  let role := if count =? 0 then ROLE_SUPERADMIN else requested_role in
  hash ← auth_result (hash_password salt password);
  from_store "failed to store user" (create_user parse_rfc3339 E (new_v4 E 0) username hash role display_name) ;;
  created ← from_store "store error" (get_user parse_rfc3339 username);
  match created with
  | Some user => mret user
  | None => raise (internal "created user is unreadable")
  end.

(** The checks that only equalise the time taken have no other effect. *)
Definition authenticate (raw_username password : string) : IO AuthError DbUser :=
  username ← auth_result (normalize_username raw_username);
  found ← from_store "store error" (get_user parse_rfc3339 username);
  match found with
  | None => raise (auth_error AuthErrorKind.UnknownUser "invalid username or password")
  | Some user =>
      auth_result (verify_password password (u_password_hash user)) ;;
      if u_disabled user then raise (auth_error AuthErrorKind.Disabled "account is disabled")
      else mret user
  end.

(** [E] and [E'] are the clock readings of the two statements. *)
Definition change_password (E E' : Env) (salt user_id new_password : string) : IO AuthError unit :=
  auth_result (validate_password new_password) ;;
  hash ← auth_result (hash_password salt new_password);
  from_store "failed to update password" (set_user_password E user_id hash) ;;
  from_store "failed to revoke sessions" (revoke_user_sessions E' user_id).

Definition check_profile_password (user_id : string) (current_password : option string) (new_password : string)
    : IO AuthError unit :=
  match current_password with
  | None => raise (auth_error AuthErrorKind.InvalidPassword "current password is required to change password")
  | Some current =>
      found ← from_store "failed to read profile password" (get_user_by_id parse_rfc3339 user_id);
      match found with
      | None => raise (auth_error AuthErrorKind.UnknownUser "account not found")
      | Some user =>
          auth_result (verify_password current (u_password_hash user)) ;;
          auth_result (validate_password new_password)
      end
  end.

Definition update_profile (E E' : Env) (salt user_id display_name : string)
    (current_password new_password : option string) : IO AuthError unit :=
  display_name ← auth_result (normalize_display_name display_name);
  match new_password with
  | None => from_store "failed to update profile" (update_user_profile E user_id display_name None)
  | Some new_password =>
      check_profile_password user_id current_password new_password ;;
      hash ← auth_result (hash_password salt new_password);
      from_store "failed to update profile" (update_user_profile E user_id display_name (Some hash)) ;;
      from_store "failed to revoke sessions" (revoke_user_sessions E' user_id)
  end.
End Accounts.

(** ** The login limiter *)

Module LoginLimiter.

(** Instants are nanoseconds of a clock that never runs backwards. *)
Record Bucket : Type := {
  window_started : Z;
  fails : Z;
  lock_step : Z;
  locked_until : option Z
}.

Definition Buckets : Type := gmap string Bucket.

Definition seconds (n : Z) : Z := n * 1000000000.

Definition WINDOW : Z := seconds 300.
Definition MAX_FAILS_IN_WINDOW : Z := 8.
Definition LOCK_STEP_CEILING_SECS : Z := 900.

Definition u32_succ (n : Z) : Z := (n + 1) mod (U32_MAX + 1).

(** [30 << step.min(10)] is within 64 bits. *)
Definition lock_for_step (step : Z) : Z :=
  seconds (Z.min (30 * Z.shiftl 1 (Z.min step 10)) LOCK_STEP_CEILING_SECS).

(** [duration_since] is zero for a later instant. *)
Definition duration_since (now earlier : Z) : Z := Z.max 0 (now - earlier).

Definition reset (keys : list string) (b : Buckets) : Buckets := foldr delete b keys.

Definition fresh_bucket (now : Z) : Bucket :=
  {| window_started := now; fails := 0; lock_step := 0; locked_until := None |}.

Definition lock_over (b : Bucket) (now : Z) : bool :=
  match locked_until b with Some until => until <=? now | None => true end.

(** One failure counted against a bucket. *)
Definition count_failure (now : Z) (b : Bucket) : Bucket :=
  let b := if WINDOW <=? duration_since now (window_started b) then fresh_bucket now else b in
  let n := u32_succ (fails b) in
  if (MAX_FAILS_IN_WINDOW <=? n) && lock_over b now
  then {| window_started := window_started b; fails := n; lock_step := u32_succ (lock_step b);
          locked_until := Some (now + lock_for_step (lock_step b)) |}
  else {| window_started := window_started b; fails := n; lock_step := lock_step b;
          locked_until := locked_until b |}.

(** The clock is read for each key. *)
Fixpoint record_failure (clock : nat -> Z) (keys : list string) (b : Buckets) : Buckets :=
  match keys with
  | [] => b
  | k :: keys =>
      let bucket := default (fresh_bucket (clock 0%nat)) (b !! k) in
      record_failure (fun i => clock (S i)) keys (<[k := count_failure (clock 0%nat) bucket]> b)
  end.

(** How long a bucket blocks an attempt at [now], if it does. *)
Definition blocked_for (now : Z) (b : Bucket) : option Z :=
  match locked_until b with
  | Some until =>
      if now <? until then Some (Z.max (duration_since until now / 1000000000) 1) else None
  | None =>
      if (duration_since now (window_started b) <? WINDOW) && (MAX_FAILS_IN_WINDOW <=? fails b)
      then Some 300 else None
  end.

Definition longest (a b : option Z) : option Z :=
  match a, b with
  | Some x, Some y => Some (Z.max x y)
  | Some x, None => Some x
  | None, b => b
  end.

Definition check (now : Z) (keys : list string) (b : Buckets) : option AuthError :=
  let blocked := foldl (fun acc k => longest acc (b !! k ≫= blocked_for now)) None keys in
  (fun secs => {| ae_kind := AuthErrorKind.RateLimited;
                  ae_message := "too many login attempts, try again shortly";
                  ae_retry_after_secs := Some secs |}) <$> blocked.

(** [ip] is the printed address. *)
Definition keys_for (trim to_lowercase : string -> string) (ip : option string) (username : string)
    : list string :=
  match ip with Some ip => ["ip:" +:+ ip] | None => [] end ++
  (if is_empty username then [] else ["user:" +:+ to_lowercase (trim username)]).

End LoginLimiter.

(** ** Every sequence of account operations *)

Definition account_tables (db : Db) : list UserRow * list SessionRow := (users db, admin_sessions db).

(** The operations on the two tables, with identifiers that satisfy [fresh],
    and everything that leaves the tables alone. *)
Inductive account_call (fresh : string -> Prop) (parse : string -> option OffsetDateTime)
    (format : OffsetDateTime -> Result string string) : forall A, M A -> Prop :=
| account_creates E id name hash role display : fresh id ->
    account_call fresh parse format _ (create_user parse E id name hash role display)
| account_first E name hash display : fresh (new_v4 E 0) ->
    account_call fresh parse format _ (create_first_user parse E name hash display)
| account_profile E id display hash : account_call fresh parse format _ (update_user_profile E id display hash)
| account_deletes id : account_call fresh parse format _ (delete_user id)
| account_password E id hash : account_call fresh parse format _ (set_user_password E id hash)
| account_disables E id b : account_call fresh parse format _ (set_user_disabled E id b)
| account_session s : account_call fresh parse format _ (insert_session format s)
| account_revokes E p : account_call fresh parse format _ (revoke_sessions E p)
| account_sweeps t : account_call fresh parse format _ (sweep_sessions format t)
| account_else {A} (m : M A) : steps (same account_tables) m -> account_call fresh parse format A m.

Definition account_step fresh parse format (db db' : Db) : Prop :=
  exists A (m : M A), account_call fresh parse format A m /\ db' = (m db).2.

Record accounts_wf (db : Db) : Prop := {
  aw_ids : List.NoDup (map us_id (users db));
  aw_names : List.NoDup (map us_username (users db));
  aw_privileged : users db = [] \/ sql_exists enabled_superadmin (users db) = true;
  aw_cookies : List.NoDup (map as_cookie_id (admin_sessions db));
  aw_owned : forall s, In s (admin_sessions db) -> sql_exists (with_id (as_user_id s)) (users db) = true
}.

Lemma accounts_wf_same db db' : account_tables db' = account_tables db -> accounts_wf db -> accounts_wf db'.
Proof. intros [= Hu Hs] [H1 H2 H3 H4 H5]. split; rewrite ?Hu, ?Hs; auto. Qed.

Lemma sql_count_cons {A} (p : A -> bool) r t :
  sql_count p (r :: t) = (if p r then 1 else 0) + sql_count p t.
Proof. unfold sql_count, sql_where. cbn. destruct (p r); cbn; lia. Qed.

(** Deleting or changing the rows of [q] costs at most as many rows of [p]. *)
Lemma sql_count_delete {A} (p q : A -> bool) t : sql_count p t - sql_count q t <= sql_count p (sql_delete q t).
Proof.
  induction t as [|r t IH]; [done|]. unfold sql_delete, sql_where in *. cbn [List.filter].
  destruct (q r) eqn:Eq; cbn [negb]; rewrite !sql_count_cons, Eq; destruct (p r); lia.
Qed.

Lemma sql_count_update {A} (p q : A -> bool) f t : sql_count p t - sql_count q t <= sql_count p (sql_update q f t).
Proof.
  induction t as [|r t IH]; [done|]. unfold sql_update in *. cbn [map].
  rewrite !sql_count_cons. destruct (q r); [destruct (p r), (p (f r)); lia|destruct (p r); lia].
Qed.

Lemma sql_count_positive {A} (p : A -> bool) t : 1 <= sql_count p t -> sql_exists p t = true.
Proof.
  intros H. destruct (sql_exists p t) eqn:E; [done|]. apply sql_count_zero in E. lia.
Qed.

Lemma one_with_id db id : accounts_wf db -> sql_count (with_id id) (users db) <= 1.
Proof.
  intros H. apply (sql_count_key_le1 us_id id); [apply H|]. intros r _ Hr. unfold with_id in Hr. by bool_hyps.
Qed.

(** What an insertion does. *)
Lemma insert_user_run row db r db' :
  insert_user row db = (r, db') ->
  (db' = db /\ is_ok r = false) \/
  (r = Ok tt /\ db' = db <| users ::= (fun t => t ++ [row]) |> /\
   sql_exists (with_id (us_id row)) (users db) = false /\
   sql_exists (fun x => bool_decide (us_username x = us_username row)) (users db) = false).
Proof.
  unfold insert_user. intros H. unfold mbind, M_bind, query, ensure, throw, mret, M_ret in H.
  destruct (sql_exists (with_id (us_id row)) (users db)) eqn:E1; cbn in H; [injection H as <- <-; by left|].
  destruct (sql_exists _ (users db)) eqn:E2 in H; cbn in H; [injection H as <- <-; by left|].
  right. injection H as <- <-. by rewrite E2.
Qed.

(** Either the tables are as they were, or one account was added to them. *)
Definition account_added (id : string) (db db' : Db) : Prop :=
  account_tables db' = account_tables db \/
  exists row, us_id row = id /\
    account_tables db' = (users db ++ [row], admin_sessions db) /\
    sql_exists (with_id id) (users db) = false /\
    sql_exists (fun x => bool_decide (us_username x = us_username row)) (users db) = false /\
    (users db = [] -> enabled_superadmin row = true).

Lemma row_user_reads parse p db : (row_user parse p db).2 = db.
Proof.
  unfold row_user, read_user_row, parse_timestamp, mbind, M_bind, query, some_or, throw, mret, M_ret.
  destruct (sql_first _) as [r|]; [|done]. repeat (case_match; simplify_eq/=; try done).
Qed.

Lemma then_reads {A B} (m : M A) (k : A -> M B) db :
  (forall a d, (k a d).2 = d) -> ((m ≫= k) db).2 = (m db).2.
Proof. intros H. unfold mbind, M_bind. destruct (m db) as [[a|e] d]; cbn; auto. Qed.

Lemma readable_user_reads {A} parse p (k : option DbUser -> M A) db :
  (forall o d, (k o d).2 = d) -> ((row_user parse p ≫= k) db).2 = db.
Proof. intros H. rewrite then_reads by done. apply row_user_reads. Qed.

(** A transaction leaves the database alone or runs to its end. *)
Lemma transaction_cases {A} (m : M A) (P : Db -> Prop) db :
  P db -> (forall a d, m db = (Ok a, d) -> P d) -> P (transaction m db).2.
Proof. intros H1 H2. unfold transaction. destruct (m db) as [[a|e] d] eqn:E; eauto. Qed.

Lemma some_or_reads {A} (o : option A) e db : (some_or o e db).2 = db.
Proof. by destruct o. Qed.

Lemma no_users_nil {A} (t : list A) : sql_exists (fun _ => true) t = false <-> t = [].
Proof. by destruct t. Qed.

Lemma create_user_run parse E id name hash role display db :
  account_added id db (create_user parse E id name hash role display db).2.
Proof.
  unfold create_user. rewrite then_reads.
  2:{ intros [] d. unfold get_user_by_id. apply readable_user_reads. intros. apply some_or_reads. }
  apply transaction_cases; [by left|]. intros u d Et.
  apply bind_ok in Et as (first & d1 & Hf & Et). injection Hf as Hf <-.
  apply bind_ok in Et as ([] & d2 & Hi & Et). injection Et as _ <-.
  apply insert_user_run in Hi as [[-> Hi]|(_ & -> & H1 & H2)]; [done|]. right.
  eexists. split_and!; [|reflexivity|exact H1|exact H2|]; [done|]. intros Hn. rewrite Hn in Hf. cbn in Hf. by subst first.
Qed.

Lemma create_first_user_run parse E name hash display db :
  account_added (new_v4 E 0) db (create_first_user parse E name hash display db).2.
Proof.
  unfold create_first_user. rewrite then_reads.
  2:{ intros [] d. unfold get_user_by_id. apply readable_user_reads. intros. apply some_or_reads. }
  apply transaction_cases; [by left|]. intros u d Et.
  apply bind_ok in Et as (open & d1 & Hf & Et). injection Hf as Hf <-.
  apply bind_ok in Et as ([] & d2 & Hi & Et). apply ensure_ok in Hi as [Ho ->].
  apply bind_ok in Et as ([] & d3 & Hm & Hi). injection Hm as <-. destruct u.
  apply insert_user_run in Hi as [[-> Hi]|(_ & -> & H1 & H2)]; [done|]. right.
  eexists. split_and!; [|reflexivity|exact H1|exact H2|]; done.
Qed.

Lemma account_added_wf id db db' : account_added id db db' -> accounts_wf db -> accounts_wf db'.
Proof.
  intros [H|(row & <- & [= Hu Hs] & H1 & H2 & H3)] Hwf; [by eapply accounts_wf_same|].
  destruct Hwf as [W1 W2 W3 W4 W5]. split; rewrite ?Hu, ?Hs; [| | |done|].
  - rewrite map_app. apply NoDup_snoc; [done|]. intros (r & Hr & Hin)%in_map_iff.
    eapply sql_exists_false in H1; [|exact Hin]. unfold with_id in H1. by bool_hyps.
  - rewrite map_app. apply NoDup_snoc; [done|]. intros (r & Hr & Hin)%in_map_iff.
    eapply sql_exists_false in H2; [|exact Hin]. by bool_hyps.
  - right. apply sql_exists_true. destruct W3 as [Hn|(r & Hr & He)%sql_exists_true].
    + exists row. split; [apply in_or_app; right; by left|auto].
    + exists r. split; [apply in_or_app; by left|done].
  - intros s Hin. apply W5 in Hin. apply sql_exists_true in Hin as (r & Hr & Hid).
    apply sql_exists_true. exists r. split; [apply in_or_app; by left|done].
Qed.

(** An update that keeps identifiers and names. *)
Lemma accounts_wf_update (p : UserRow -> bool) f db :
  (forall r, us_id (f r) = us_id r) -> (forall r, us_username (f r) = us_username r) ->
  (sql_exists enabled_superadmin (users db) = true ->
   sql_exists enabled_superadmin (sql_update p f (users db)) = true) ->
  accounts_wf db -> accounts_wf (db <| users ::= sql_update p f |>).
Proof.
  intros Hid Hn Hs [W1 W2 W3 W4 W5]. split; cbn [users admin_sessions].
  - unfold set; cbn. by rewrite sql_update_map.
  - unfold set; cbn. by rewrite sql_update_map.
  - unfold set; cbn. destruct W3 as [->|?]; [by left|right; auto].
  - done.
  - intros s Hin. unfold set; cbn. apply W5 in Hin. apply sql_exists_true in Hin as (r & Hr & Hi).
    apply sql_exists_true. exists (if p r then f r else r). split; [apply In_sql_update; eauto|].
    unfold with_id in *. destruct (p r); [by rewrite Hid|done].
Qed.

Lemma superadmin_kept (p : UserRow -> bool) f t :
  (forall r, In r t -> enabled_superadmin r = true -> p r = true -> enabled_superadmin (f r) = true) ->
  sql_exists enabled_superadmin t = true -> sql_exists enabled_superadmin (sql_update p f t) = true.
Proof.
  intros H (r & Hr & He)%sql_exists_true. apply sql_exists_true. exists (if p r then f r else r).
  split; [apply In_sql_update; eauto|]. destruct (p r) eqn:Ep; auto.
Qed.

(** The row with an identifier is the one a query by it finds. *)
Lemma found_by_id db (p : UserRow -> bool) id r :
  accounts_wf db -> In r (users db) -> with_id id r = true -> p r = true ->
  (forall x, p x = true -> with_id id x = true) -> sql_first (sql_where p (users db)) = Some r.
Proof.
  intros Hwf Hin Hi Hp Hx. destruct (sql_first (sql_where p (users db))) as [r'|] eqn:Ef.
  - apply sql_first_where in Ef as [Hin' Hp']. apply Hx in Hp'. unfold with_id in *. bool_hyps.
    f_equal. apply (NoDup_map_inj us_id (users db)); [apply Hwf|done|done|congruence].
  - apply sql_first_none in Ef. eapply sql_exists_false in Ef; [|exact Hin]. congruence.
Qed.

Lemma delete_user_wf id : preserves accounts_wf (delete_user id).
Proof.
  intros db Hwf. unfold delete_user. apply transaction_cases; [done|]. intros u d H.
  apply bind_ok in H as (role & d1 & Hr & H). injection Hr as Hr <-.
  apply bind_ok in H as ([] & d2 & Hg & H). injection H as _ <-.
  assert (d2 = db /\ (users db = [] \/ sql_exists enabled_superadmin (sql_delete (with_id id) (users db)) = true))
    as [-> Hpriv].
  { case_bool_decide as Er.
    - apply bind_ok in Hg as (n & d3 & Hn & Hg). injection Hn as <- <-. apply ensure_ok in Hg as [Hn ->].
      bool_hyps. split; [done|right]. apply sql_count_positive.
      pose proof (sql_count_delete enabled_superadmin (with_id id) (users db)).
      pose proof (one_with_id db id Hwf). lia.
    - injection Hg as <-. split; [done|]. destruct (aw_privileged _ Hwf) as [?|(r & Hin & He)%sql_exists_true]; [by left|].
      right. apply sql_exists_true. exists r. split; [|done]. apply In_sql_delete. split; [done|].
      destruct (with_id id r) eqn:Ei; [|done]. exfalso. apply Er. rewrite <- Hr.
      unfold enabled_superadmin in He. bool_hyps. rewrite (found_by_id db _ id r) by done. cbn. congruence. }
  destruct Hwf as [W1 W2 W3 W4 W5]. split; unfold set; cbn.
  - by apply NoDup_map_filter.
  - by apply NoDup_map_filter.
  - destruct Hpriv as [->|?]; [by left|by right].
  - by apply NoDup_map_filter.
  - intros s Hs. apply In_sql_delete in Hs as [Hs Hne]. specialize (W5 s Hs).
    apply sql_exists_true in W5 as (r & Hin & Hi). apply sql_exists_true. exists r. split; [|done].
    apply In_sql_delete. split; [done|]. destruct (with_id id r) eqn:Ei; [|done].
    assert (sql_exists (with_id id) (users db) = true) as E by (apply sql_exists_true; eauto).
    rewrite E, andb_true_r in Hne. unfold with_id in *. bool_hyps. congruence.
Qed.

Lemma set_user_disabled_wf E id b : preserves accounts_wf (set_user_disabled E id b).
Proof.
  intros db Hwf. unfold set_user_disabled. apply transaction_cases; [done|]. intros u d H.
  apply bind_ok in H as ([] & d1 & Hg & H). injection H as _ <-.
  assert (d1 = db /\ (sql_exists enabled_superadmin (users db) = true ->
    sql_exists enabled_superadmin (sql_update (with_id id) (fun r =>
      r <| us_disabled := b |> <| us_updated_at := timestamp_at E 0 |>) (users db)) = true)) as [-> Hpriv].
  2:{ by apply accounts_wf_update. }
  destruct b; [|injection Hg as <-; split; [done|]; apply superadmin_kept; intros r _ He _;
    unfold enabled_superadmin in *; cbn; by bool_hyps; rewrite bool_decide_eq_true_2].
  apply bind_ok in Hg as (role & d2 & Hr & Hg). injection Hr as Hr <-. case_bool_decide as Er.
  - apply bind_ok in Hg as (n & d3 & Hn & Hg). injection Hn as <- <-. apply ensure_ok in Hg as [Hn ->].
    bool_hyps. split; [done|]. intros _. apply sql_count_positive.
    pose proof (sql_count_update enabled_superadmin (with_id id) (fun r =>
      r <| us_disabled := true |> <| us_updated_at := timestamp_at E 0 |>) (users db)).
    pose proof (one_with_id db id Hwf). lia.
  - injection Hg as <-. split; [done|]. apply superadmin_kept. intros r Hin He Hi. exfalso. apply Er. rewrite <- Hr.
    unfold enabled_superadmin in He. bool_hyps.
    rewrite (found_by_id db _ id r); [cbn; congruence|done..| |]; [by rewrite Hi, andb_true_l, negb_true_iff|].
    intros x. by rewrite andb_true_iff; intros [].
Qed.

Lemma keeps_privilege f :
  (forall r, us_role (f r) = us_role r) -> (forall r, us_disabled (f r) = us_disabled r) ->
  forall r, enabled_superadmin r = true -> enabled_superadmin (f r) = true.
Proof. intros H1 H2 r. unfold enabled_superadmin. by rewrite H1, H2. Qed.

Lemma accounts_wf_rewrite p f db :
  (forall r, us_id (f r) = us_id r) -> (forall r, us_username (f r) = us_username r) ->
  (forall r, us_role (f r) = us_role r) -> (forall r, us_disabled (f r) = us_disabled r) ->
  accounts_wf db -> accounts_wf (db <| users ::= sql_update p f |>).
Proof.
  intros Hi Hn Hr Hd. apply accounts_wf_update; [done|done|]. apply superadmin_kept.
  intros r _ He _. by apply keeps_privilege.
Qed.

Lemma sessions_wf (f : list SessionRow -> list SessionRow) db :
  (List.NoDup (map as_cookie_id (admin_sessions db)) -> List.NoDup (map as_cookie_id (f (admin_sessions db)))) ->
  (forall s, In s (f (admin_sessions db)) -> exists s', In s' (admin_sessions db) /\ as_user_id s' = as_user_id s) ->
  accounts_wf db -> accounts_wf (db <| admin_sessions ::= f |>).
Proof.
  intros H1 H2 [W1 W2 W3 W4 W5]. split; unfold set; cbn; auto.
  intros s (s' & Hs & <-)%H2. auto.
Qed.

Lemma insert_session_wf format s : preserves accounts_wf (insert_session format s).
Proof.
  intros db Hwf. destruct (insert_session format s db) as [[u|e] d] eqn:H; cycle 1.
  { cbn. replace d with db; [done|]. revert H.
    unfold insert_session, formatted, mbind, M_bind, query, ensure, modify, throw, mret, M_ret.
    repeat (case_match; simplify_eq/=); congruence. }
  unfold insert_session in H. apply bind_ok in H as (i & d1 & H1 & H).
  apply bind_ok in H as (x & d2 & H2 & H). apply bind_ok in H as (t & d3 & H3 & H).
  assert (d2 = db) as ->.
  { unfold formatted, throw, mret, M_ret in H1, H2. repeat case_match; simplify_eq; congruence. }
  injection H3 as <- <-. apply bind_ok in H as ([] & d4 & H4 & H). apply ensure_ok in H4 as [Ht ->].
  apply bind_ok in H as (o & d5 & H5 & H). injection H5 as <- <-.
  apply bind_ok in H as ([] & d6 & H6 & H). apply ensure_ok in H6 as [Ho ->]. injection H as _ <-.
  destruct Hwf as [W1 W2 W3 W4 W5]. split; unfold set; cbn; auto.
  - rewrite map_app. apply NoDup_snoc; [done|]. intros (r & Hr & Hin)%in_map_iff.
    rewrite negb_true_iff in Ht. eapply sql_exists_false in Ht; [|exact Hin]. by bool_hyps.
  - intros r [Hr|[<-|[]]]%in_app_or; auto.
Qed.

Lemma account_call_wf fresh parse format A (m : M A) :
  account_call fresh parse format A m -> preserves accounts_wf m.
Proof.
  destruct 1 as [E id name hash role display _|E name hash display _|E id display hash|id|E id hash|E id b|s|E p|t|A m Hm];
    intros db Hwf.
  - eapply account_added_wf; [apply create_user_run|done].
  - eapply account_added_wf; [apply create_first_user_run|done].
  - unfold update_user_profile, transaction, modify. cbn. by apply accounts_wf_rewrite; destruct hash.
  - by apply delete_user_wf.
  - by apply accounts_wf_rewrite.
  - by apply set_user_disabled_wf.
  - by apply insert_session_wf.
  - apply sessions_wf; [|intros s Hs|done].
    + by rewrite sql_update_map.
    + apply In_sql_update in Hs as (s' & Hs & ->). exists s'. split; [done|]. by destruct (_ && _).
  - unfold sweep_sessions, formatted, mbind, M_bind. destruct (format t); [|done]. cbn.
    apply sessions_wf; [|intros s Hs|done].
    + by apply NoDup_map_filter.
    + apply In_sql_delete in Hs as [Hs _]. eauto.
  - eapply accounts_wf_same; [apply Hm|done].
Qed.

Lemma account_steps_wf fresh parse format db db' :
  rtc (account_step fresh parse format) db db' -> accounts_wf db -> accounts_wf db'.
Proof.
  induction 1 as [|db d db' (A & m & Hm & ->) _ IH]; [done|]. intros Hwf. apply IH.
  by eapply account_call_wf.
Qed.

Lemma empty_accounts : accounts_wf empty_db.
Proof. split; cbn; [constructor..|by left|constructor|done]. Qed.

(** C36: The system is never left without a privileged account: whatever
    accounts are created, changed, disabled and deleted, in any order, as soon
    as there is an account there is an enabled superadmin; identifiers and
    names are unique, and every session belongs to an account. *)
Theorem accounts_never_stranded parse format db :
  rtc (account_step (fun _ => True) parse format) empty_db db ->
  (users db = [] \/ exists u, In u (users db) /\ us_role u = "superadmin" /\ us_disabled u = false) /\
  List.NoDup (map us_id (users db)) /\ List.NoDup (map us_username (users db)) /\
  (forall s, In s (admin_sessions db) -> exists u, In u (users db) /\ us_id u = as_user_id s).
Proof.
  intros H. apply account_steps_wf in H as [W1 W2 W3 W4 W5]; [|apply empty_accounts]. split_and!; try done.
  - destruct W3 as [?|(u & Hu & He)%sql_exists_true]; [by left|]. right. exists u.
    unfold enabled_superadmin in He. by bool_hyps.
  - intros s (u & Hu & Hi)%W5%sql_exists_true. exists u. unfold with_id in Hi. by bool_hyps.
Qed.

(** *** Token versions only grow *)

(** Every version of the account up to [v] is out of use. *)
Definition outdated (uid : string) (v : Z) (db : Db) : Prop :=
  forall u, In u (users db) -> us_id u = uid -> v < us_token_version u.

Lemma outdated_update uid v p f db :
  (forall r, us_id (f r) = us_id r) -> (forall r, us_token_version r <= us_token_version (f r)) ->
  outdated uid v db -> outdated uid v (db <| users ::= sql_update p f |>).
Proof.
  intros Hi Hv H u Hu Hid. apply In_sql_update in Hu as (r & Hr & ->). destruct (p r); [|auto].
  rewrite Hi in Hid. specialize (H r Hr Hid). specialize (Hv r). lia.
Qed.

Lemma account_call_outdated uid v parse format A (m : M A) :
  account_call (fun id => id <> uid) parse format A m -> preserves (outdated uid v) m.
Proof.
  assert (forall id db db', id <> uid -> account_added id db db' -> outdated uid v db -> outdated uid v db') as Hadd.
  { intros id db db' Hne [[= Hu _]|(row & Hi & [= Hu _] & _)] Hold u; rewrite Hu; [auto|].
    intros [?|[<-|[]]]%in_app_or; [auto|congruence]. }
  destruct 1 as [E id name hash role display Hf|E name hash display Hf|E id display hash|id|E id hash|E id b|s|E p|t|A m Hm];
    intros db H.
  - eapply Hadd; [exact Hf|apply create_user_run|done].
  - eapply Hadd; [exact Hf|apply create_first_user_run|done].
  - unfold update_user_profile, transaction, modify. cbn. apply outdated_update; [by destruct hash| |done].
    intros r. destruct hash; cbn; lia.
  - unfold delete_user. apply transaction_cases; [done|]. intros u d Hd.
    apply bind_ok in Hd as (role & d1 & Hr & Hd). injection Hr as _ <-.
    apply bind_ok in Hd as ([] & d2 & Hg & Hd). injection Hd as _ <-.
    assert (d2 = db) as ->.
    { case_bool_decide as Eb; [|by injection Hg]. apply bind_ok in Hg as (n & d3 & Hn & Hg). injection Hn as _ <-.
      by apply ensure_ok in Hg as [_ ->]. }
    intros x Hx. apply In_sql_delete in Hx as [Hx _]. auto.
  - apply outdated_update; [done| |done]. intros r. cbn. lia.
  - unfold set_user_disabled. apply transaction_cases; [done|]. intros u d Hd.
    apply bind_ok in Hd as ([] & d1 & Hg & Hd). injection Hd as _ <-.
    assert (d1 = db) as ->; [|by apply outdated_update].
    destruct b; [|by injection Hg]. apply bind_ok in Hg as (role & d2 & Hr & Hg). injection Hr as _ <-.
    case_bool_decide as Eb; [|by injection Hg]. apply bind_ok in Hg as (n & d3 & Hn & Hg). injection Hn as _ <-.
    by apply ensure_ok in Hg as [_ ->].
  - assert (users (insert_session format s db).2 = users db) as Hu; [|intros x; rewrite Hu; apply H].
    unfold insert_session, formatted, mbind, M_bind, query, ensure, modify, throw, mret, M_ret.
    repeat (case_match; simplify_eq/=); congruence.
  - exact H.
  - unfold sweep_sessions, formatted, mbind, M_bind. by destruct (format t).
  - specialize (Hm db). injection Hm as Hu _. intros x. rewrite Hu. apply H.
Qed.

Lemma account_steps_outdated uid v parse format db db' :
  rtc (account_step (fun id => id <> uid) parse format) db db' -> outdated uid v db -> outdated uid v db'.
Proof.
  induction 1 as [|db d db' (A & m & Hm & ->) _ IH]; [done|]. intros H. apply IH.
  by eapply account_call_outdated.
Qed.

(** A successful call raises the version. *)
Lemma change_password_outdates argon2_hash E E' salt uid pw db db' v :
  change_password argon2_hash E E' salt uid pw db = (Ok tt, db') ->
  (forall u, In u (users db) -> us_id u = uid -> us_token_version u = v) -> outdated uid v db'.
Proof.
  unfold change_password, auth_result, hash_password, from_store, map_err, mbind, IO_bind.
  destruct (validate_password pw); [|done]. destruct (argon2_hash salt pw); cbn; [|done].
  intros [= <-] Hv u Hu Hid. apply In_sql_update in Hu as (r & Hr & ->).
  destruct (with_id uid r) eqn:Ei.
  - unfold with_id in Ei. bool_hyps. cbn. rewrite (Hv r Hr) by done. lia.
  - unfold with_id in Ei. bool_hyps. congruence.
Qed.

(** ** The limiter *)

Module Attempts.
Import LoginLimiter.

(** A login with a wrong password: the limiter is asked at one instant and
    told of the failure at another. *)
Record Attempt : Type := { asked : Z; told : Z }.

Definition wrong_password (k : string) (a : Attempt) (b : Buckets) : bool * Buckets :=
  (negb (is_some (check (asked a) [k] b)), record_failure (fun _ => told a) [k] b).

(** How many of the attempts reach the password check. *)
Fixpoint admitted (k : string) (attempts : list Attempt) (b : Buckets) : Z :=
  match attempts with
  | [] => 0
  | a :: attempts =>
      let (passed, b') := wrong_password k a b in
      (if passed : bool then 1 else 0) + admitted k attempts b'
  end.

(** Each attempt comes after the ones before it. *)
Fixpoint in_order (now : Z) (attempts : list Attempt) : Prop :=
  match attempts with
  | [] => True
  | a :: attempts => now <= asked a /\ asked a <= told a /\ in_order (told a) attempts
  end.

(** The bucket of the window that began at [w], after [j] failures of which
    [n] were admitted. *)
Definition counted (w n j : Z) (b : Bucket) : Prop :=
  window_started b = w /\ fails b = j /\ 0 <= n /\
  ((j < 8 /\ n <= j /\ lock_step b = 0 /\ locked_until b = None) \/
   (8 <= j /\ 1 <= lock_step b <= 4 /\ n <= 7 + lock_step b /\
    exists u, locked_until b = Some u /\ w + seconds (30 * (2 ^ lock_step b - 1)) <= u)).

Lemma check_one now k b : check now [k] b = None <-> b !! k ≫= blocked_for now = None.
Proof. unfold check. cbn. by destruct (b !! k ≫= blocked_for now). Qed.

Lemma lock_small s : 0 <= s <= 3 -> lock_for_step s = seconds (30 * 2 ^ s).
Proof. intros H. assert (s = 0 \/ s = 1 \/ s = 2 \/ s = 3) as [->|[->|[->| ->]]] by lia; reflexivity. Qed.

Lemma u32_succ_small n : 0 <= n < U32_MAX -> u32_succ n = n + 1.
Proof. intros H. apply Z.mod_small. lia. Qed.

(** The first failure of a window. *)
Lemma count_first now b :
  WINDOW <= duration_since now (window_started b) \/ b = fresh_bucket now ->
  count_failure now b = {| window_started := now; fails := 1; lock_step := 0; locked_until := None |}.
Proof.
  intros [H|H]; unfold count_failure.
  - by rewrite (proj2 (Z.leb_le _ _) H).
  - subst b. by destruct (WINDOW <=? _).
Qed.

(** A further one within the window: it counts, and the lock, once it is over,
    is renewed for twice as long. *)
Lemma count_next w n j b a (passed : bool) :
  counted w n j b -> 0 <= j < U32_MAX -> w <= told a < w + WINDOW -> asked a <= told a ->
  (passed = true -> blocked_for (asked a) b = None) ->
  counted w (n + if passed then 1 else 0) (j + 1) (count_failure (told a) b).
Proof.
  intros (Hw & Hj & Hn & Hc) Hrange Ht Hat Hp.
  assert (WINDOW <=? duration_since (told a) (window_started b) = false) as Hwin.
  { apply Z.leb_gt. unfold duration_since. rewrite Hw. lia. }
  unfold count_failure. rewrite Hwin, Hj, u32_succ_small by lia.
  destruct Hc as [(Hlt & Hle & Hs & Hl)|(Hge & Hs & Hle & u & Hl & Hu)].
  - unfold lock_over. rewrite Hl, andb_true_r. unfold MAX_FAILS_IN_WINDOW.
    destruct (Z.leb_spec 8 (j + 1)) as [H8|H8]; split_and!; cbn; try done; [destruct passed; lia| |destruct passed; lia|].
    + right. rewrite Hs. change (u32_succ 0) with 1. split_and!; [lia|lia|lia|destruct passed; lia|]. eexists. split; [done|].
      rewrite lock_small by lia. cbn. unfold seconds. lia.
    + left. split_and!; try done; destruct passed; lia.
  - assert (MAX_FAILS_IN_WINDOW <=? j + 1 = true) as -> by (apply Z.leb_le; unfold MAX_FAILS_IN_WINDOW; lia).
    unfold lock_over. rewrite Hl, andb_true_l. destruct (Z.leb_spec u (told a)) as [Hover|Hover].
    + assert (lock_step b <= 3) as Hs3.
      { destruct (Z.eq_dec (lock_step b) 4) as [E|E]; [|lia]. rewrite E in Hu. unfold seconds, WINDOW, seconds in *.
        cbn in Hu. lia. }
      split_and!; cbn; [done|done|destruct passed; lia|]. right. rewrite u32_succ_small by (unfold U32_MAX; lia).
      split_and!; [lia|lia|lia|destruct passed; lia|]. eexists. split; [done|].
      rewrite lock_small by lia. rewrite Z.pow_add_r by lia. unfold seconds in *. lia.
    + assert (passed = false) as ->.
      { destruct passed; [|done]. specialize (Hp eq_refl). unfold blocked_for in Hp. rewrite Hl in Hp.
        rewrite (proj2 (Z.ltb_lt _ _)) in Hp by lia. done. }
      split_and!; cbn; [done|done|lia|]. right. split_and!; [lia|lia|lia|lia|]. eauto.
Qed.

Lemma admitted_from k w n j b attempts bs now :
  bs !! k = Some b -> counted w n j b -> 0 <= j -> j + Z.of_nat (length attempts) <= U32_MAX ->
  w <= now -> in_order now attempts -> (forall a, In a attempts -> told a < w + WINDOW) ->
  n + admitted k attempts bs <= 11.
Proof.
  revert n j b bs now. induction attempts as [|a attempts IH]; intros n j b bs now Hb Hc Hj Hlen Hnow Hord Hin.
  { destruct Hc as (_ & _ & Hn & [(? & ? & _)|(? & ? & ? & _)]); cbn; lia. }
  cbn [admitted wrong_password]. cbn [length] in Hlen. destruct Hord as (Ho1 & Ho2 & Ho3).
  cbn [record_failure]. rewrite Hb. cbn [default from_option id].
  eapply (count_next w n j b a (negb (is_some (check (asked a) [k] bs)))) in Hc.
  - specialize (IH _ _ _ (<[k := count_failure (told a) b]> bs) (told a) (lookup_insert_eq _ _ _) Hc).
    assert (n + (if negb (is_some (check (asked a) [k] bs)) then 1 else 0) +
      admitted k attempts (<[k:=count_failure (told a) b]> bs) <= 11); [|lia].
    apply IH; [lia|lia|lia|done|]. intros; apply Hin; by right.
  - lia.
  - specialize (Hin a (or_introl eq_refl)). lia.
  - done.
  - intros Hp. destruct (check (asked a) [k] bs) eqn:Ec; [done|]. apply check_one in Ec. by rewrite Hb in Ec.
Qed.
End Attempts.

Import LoginLimiter Attempts.


Definition at_second (n : Z) : Attempt := {| asked := seconds n; told := seconds n |}.

Definition sample_guesses : list Attempt := map at_second [0; 0; 0; 0; 0; 0; 0; 0; 10; 30; 40; 90; 210; 290].


Fixpoint limiter_after (k : string) (attempts : list Attempt) (b : Buckets) : Buckets :=
  match attempts with [] => b | a :: attempts => limiter_after k attempts (wrong_password k a b).2 end.

(** A refused attempt is recorded as a failure as well, and the first failure
    recorded after the window of five minutes forgets the lock: a name locked
    until second 450 is refused at second 306, unless it was also tried, and
    refused, at second 305.  No lock lasts beyond its window if the client
    keeps trying, so the ceiling of 900 seconds is never reached. *)
Theorem refused_attempt_lifts_lock :
  let locked := limiter_after "user:root" (map at_second [0; 0; 0; 0; 0; 0; 0; 0; 30; 90; 210]) ∅ in
  (locked !! "user:root" ≫= locked_until) = Some (seconds 450) /\
  is_some (check (seconds 306) ["user:root"] locked) = true /\
  is_some (check (seconds 305) ["user:root"] locked) = true /\
  is_some (check (seconds 306) ["user:root"] (limiter_after "user:root" [at_second 305] locked)) = false.
Proof. split_and!; vm_compute; reflexivity. Qed.

(** ** Authentication *)

Lemma read_user_reads parse r db : (read_user_row parse r db).2 = db.
Proof.
  unfold read_user_row, parse_timestamp, mbind, M_bind, some_or, throw, mret, M_ret.
  repeat (case_match; simplify_eq/=; try done).
Qed.

(** [authenticate] accepts exactly the right password of an enabled
    account, and changes nothing: it returns [u] just when [u] is the row,
    read back, of the account with the normalised name, Argon2 verifies the
    password against its hash, and the account is not disabled. *)
Theorem authenticate_exact parse trim to_lowercase argon2_verify raw password db u db' :
  List.NoDup (map us_username (users db)) ->
  authenticate parse trim to_lowercase argon2_verify raw password db = (Ok u, db') <->
  db' = db /\ exists name row,
    normalize_username trim to_lowercase raw = Ok name /\
    In row (users db) /\ us_username row = name /\
    (read_user_row parse row db).1 = Ok u /\
    argon2_verify password (us_password_hash row) = Verified /\ us_disabled row = false.
Proof.
  intros Hnd. unfold authenticate, auth_result, from_store, map_err, mbind, IO_bind.
  destruct (normalize_username trim to_lowercase raw) as [name|e] eqn:En; cycle 1.
  { split; [done|]. by intros (_ & ? & ? & ? & _). }
  unfold get_user, row_user, mbind, M_bind, query.
  destruct (sql_first (sql_where _ (users db))) as [row|] eqn:Ef; cycle 1.
  { cbn. split; [done|]. intros (_ & n & row & [= <-] & Hin & Hn & _).
    apply sql_first_none in Ef. eapply sql_exists_false in Ef; [|exact Hin]. by bool_hyps. }
  apply sql_first_where in Ef as [Hin Hname]. bool_hyps.
  assert (forall row', In row' (users db) -> us_username row' = name -> row' = row) as Huniq.
  { intros row' Hin' Hn'. apply (NoDup_map_inj us_username (users db)); [done..|congruence]. }
  pose proof (read_user_reads parse row db) as Hd.
  destruct (read_user_row parse row db) as [[x|e] d] eqn:Er; cbn in Hd; subst d; cbn; cycle 1.
  { split; [done|]. intros (_ & n & row' & [= <-] & Hin' & Hn' & Hread & _).
    rewrite (Huniq row' Hin' Hn') in Hread. by rewrite Er in Hread. }
  assert (u_password_hash x = us_password_hash row /\ u_disabled x = us_disabled row) as [Hh Hdis].
  { revert Er. unfold read_user_row, mbind, M_bind, parse_timestamp, some_or, throw, mret, M_ret.
    repeat (case_match; simplify_eq/=; try done). by intros [= <-]. }
  unfold verify_password. rewrite Hh, Hdis. split.
  - destruct (argon2_verify password (us_password_hash row)) eqn:Ev; try done.
    destruct (us_disabled row) eqn:Ed; [done|]. intros [= <- <-]. split; [done|]. exists name, row.
    by rewrite Er.
  - intros (-> & n & row' & [= <-] & Hin' & Hn' & Hread & Hv & Hd). rewrite (Huniq row' Hin' Hn') in *.
    rewrite Er in Hread. injection Hread as ->. by rewrite Hv, Hd.
Qed.

Definition any_time (_ : string) : option OffsetDateTime := Some 0.
Definition any_text (_ : OffsetDateTime) : Result string string := Ok "t".

(** Argon2 as equality. *)
Definition plain_verify (password phc : string) : Verification :=
  if bool_decide (password = phc) then Verified else WrongPassword.

Definition sample_root : M DbUser := create_user any_time (sample_env 1 "u") "id1" "root" "correct-horse" "admin" "Root".

Definition sample_operator : M DbUser :=
  create_user any_time (sample_env 2 "u") "id2" "operator" "battery-staple" "admin" "Op".

Definition sample_accounts : Db := (sample_operator (sample_root empty_db).2).2.

Lemma accounts_never_stranded_witness :
  exists u, In u (users sample_accounts) /\ us_role u = "superadmin" /\ us_disabled u = false.
Proof.
  assert (length (users sample_accounts) = 2%nat) as Hn by (vm_compute; reflexivity).
  destruct (accounts_never_stranded any_time any_text sample_accounts) as [[H|H] _].
  - eapply rtc_l; [exists _, sample_root; split; [by apply account_creates|reflexivity]|].
    apply rtc_once. exists _, sample_operator. split; [by apply account_creates|reflexivity].
  - rewrite H in Hn. discriminate Hn.
  - exact H.
Defined.

Lemma authenticate_exact_witness :
  is_ok (authenticate any_time (fun s => s) (fun s => s) plain_verify "root" "correct-horse" sample_accounts).1 = true /\
  forall u db', authenticate any_time (fun s => s) (fun s => s) plain_verify "root" "wrong" sample_accounts <> (Ok u, db').
Proof.
  split; [vm_compute; reflexivity|]. intros u db' H.
  apply authenticate_exact in H as (_ & name & row & Hn & Hin & Hu & _ & Hv & _).
  - assert (Forall (fun r => us_username r = "root" -> us_password_hash r = "correct-horse") (users sample_accounts))
      as Hall by (vm_compute; repeat constructor; discriminate).
    injection Hn as <-. rewrite Forall_forall in Hall. specialize (Hall row). rewrite list_elem_of_In in Hall.
    rewrite (Hall Hin Hu) in Hv. vm_compute in Hv. discriminate Hv.
  - vm_compute. repeat constructor; cbn; intuition discriminate.
Defined.
