(* ===== verification/Admin.v ===== *)
(** * The administration API: sessions and accounts ([src/src/admin.rs],
    [src/src/admin/phase10.rs])

    [handle_api] lets a request through only with a signed session cookie that
    the store still honours and, when it changes something, the token of that
    session; behind this gate are the session and account handlers.  The other
    routes are a parameter of the model.  Base64, HMAC-SHA256, JSON and URL
    parsing are parameters too.

    The theorems: an issued session is accepted until it expires; nothing
    happens without a session and its token; an account without the superadmin
    role cannot touch another account; a changed password puts every earlier
    session out of use for good; the token comparison is equality.  One theorem
    records that the account route changes a password without asking for the
    current one, which the profile route requires. *)

From stdpp Require Import pretty.
From Stdlib Require Import Strings.Ascii.
From S2P Require Import Prelude Errors Manifest Schema Cleanup Transfers TransferSafety ManifestStore Buckets.
From S2P Require Import Requests Config Listing Settings Auth.

Import LoginLimiter.

Definition ADMIN_API_PREFIX : string := "/_admin/api/".
Definition ADMIN_SESSION_COOKIE : string := "telegram_s3_admin_session".
Definition ADMIN_COOKIE_PATH : string := "/_admin".
Definition ADMIN_SESSION_TTL_SECONDS : Z := 8 * 60 * 60.
Definition ADMIN_CSRF_HEADER : string := "x-csrf-token".

(** ** Data *)

Record UserWire : Type := {
  uw_id : string;
  uw_username : string;
  uw_display_name : string;
  uw_role : string;
  uw_disabled : bool
}.

Definition from_user (user : DbUser) : UserWire :=
  {| uw_id := u_id user; uw_username := u_username user; uw_display_name := u_display_name user;
     uw_role := u_role user; uw_disabled := u_disabled user |}.

Record SessionResponse : Type := {
  sr_authenticated : bool;
  sr_user : option UserWire;
  sr_issued_at : option string;
  sr_expires_at : option string;
  sr_csrf_token : option string
}.

Record LoginRequest : Type := { lr_username : string; lr_password : string }.

Record CreateUserRequest : Type := {
  cu_username : string;
  cu_password : string;
  cu_display_name : string;
  cu_role : string
}.

Record ChangePasswordRequest : Type := { cp_password : string }.

Record UpdateProfileRequest : Type := {
  up_display_name : string;
  up_current_password : option string;
  up_password : option string
}.

Record SessionClaims : Type := {
  c_uid : string;
  c_sid : string;
  c_ver : Z;
  c_iat : Z;
  c_exp : Z;
  c_csrf : string
}.

Record ResolvedPrincipal : Type := {
  p_user : DbUser;
  p_claims : SessionClaims
}.

Record IssuedSession : Type := {
  is_user : UserWire;
  is_cookie_value : string;
  is_issued_at : string;
  is_expires_at : string;
  is_csrf_token : string
}.

Inductive Method : Type := GET | HEAD | POST | PUT | DELETE | PATCH.

Record Request : Type := {
  rq_method : Method;
  rq_path : string;
  rq_headers : HeaderMap;
  rq_body : string
}.

Inductive Content : Type :=
| SessionContent (s : SessionResponse)
| UserContent (u : UserWire)
| UsersContent (us : list UserWire)
| SetupContent (required : bool)
| OkContent
| ErrorContent (message : string)
| OtherContent (text : string).

(** The [Set-Cookie] and [Retry-After] headers are the ones that matter. *)
Record Response : Type := {
  rp_status : Z;
  rp_content : Content;
  rp_set_cookie : option string;
  rp_retry_after : option string
}.

Definition json_response (status : Z) (c : Content) : Response :=
  {| rp_status := status; rp_content := c; rp_set_cookie := None; rp_retry_after := None |}.

Definition json_error (status : Z) (message : string) : Response := json_response status (ErrorContent message).

Definition auth_error_response (error : AuthError) : Response :=
  let message :=
    match ae_kind error with
    | AuthErrorKind.RateLimited | AuthErrorKind.LockedOut =>
        match ae_retry_after_secs error with
        | Some secs => ae_message error +:+ " (retry after " +:+ pretty secs +:+ "s)"
        | None => ae_message error
        end
    | _ => ae_message error
    end in
  {| rp_status := http_status error; rp_content := ErrorContent message; rp_set_cookie := None;
     rp_retry_after := pretty <$> ae_retry_after_secs error |}.

Definition mask_auth_error (error : AuthError) : AuthError :=
  match ae_kind error with
  | AuthErrorKind.InvalidPassword | AuthErrorKind.UnknownUser =>
      auth_error AuthErrorKind.InvalidPassword "invalid username or password"
  | _ => error
  end.

Definition session_anonymous : SessionResponse :=
  {| sr_authenticated := false; sr_user := None; sr_issued_at := None; sr_expires_at := None; sr_csrf_token := None |}.

Definition session_response (issued : IssuedSession) : SessionResponse :=
  {| sr_authenticated := true; sr_user := Some (is_user issued); sr_issued_at := Some (is_issued_at issued);
     sr_expires_at := Some (is_expires_at issued); sr_csrf_token := Some (is_csrf_token issued) |}.

(** ** Cookies and tokens *)

Definition cookie_header (cookie_value : string) : string :=
  ADMIN_SESSION_COOKIE +:+ "=" +:+ cookie_value +:+ "; Path=" +:+ ADMIN_COOKIE_PATH
  +:+ "; HttpOnly; SameSite=Strict; Max-Age=" +:+ pretty ADMIN_SESSION_TTL_SECONDS.

Definition expired_cookie : string :=
  ADMIN_SESSION_COOKIE +:+ "=; Path=" +:+ ADMIN_COOKIE_PATH +:+ "; HttpOnly; SameSite=Strict; Max-Age=0".

Definition with_set_cookie (r : Response) (cookie_value : string) : Response :=
  {| rp_status := rp_status r; rp_content := rp_content r; rp_set_cookie := Some (cookie_header cookie_value);
     rp_retry_after := rp_retry_after r |}.

Definition with_clear_cookie (r : Response) : Response :=
  {| rp_status := rp_status r; rp_content := rp_content r; rp_set_cookie := Some expired_cookie;
     rp_retry_after := rp_retry_after r |}.

(** [split(sep)]: the pieces, at least one. *)
Fixpoint split (sep : Ascii.ascii) (s : string) : list string :=
  match s with
  | "" => [""]
  | String c s =>
      if Ascii.eqb c sep then "" :: split sep s
      else match split sep s with
           | piece :: pieces => String c piece :: pieces
           | [] => [String c ""]
           end
  end.

(** The bytes differ nowhere: every pair is combined before the answer. *)
Fixpoint byte_difference (diff : N) (a b : string) : N :=
  match a, b with
  | String x a, String y b =>
      byte_difference (N.lor diff (N.lxor (Ascii.N_of_ascii x) (Ascii.N_of_ascii y))) a b
  | _, _ => diff
  end.

Definition constant_time_eq (a b : string) : bool :=
  if negb (String.length a =? String.length b)%nat then false
  else N.eqb (byte_difference 0 a b) 0.

Definition require_csrf (headers : HeaderMap) (claims : SessionClaims) : bool :=
  match header headers ADMIN_CSRF_HEADER with
  | Some value => constant_time_eq value (c_csrf claims)
  | None => false
  end.

(** [trim_start_matches(prefix)]: the prefix is taken off as long as it is
    there; each time the text gets shorter. *)
Fixpoint trim_start_matches (fuel : nat) (prefix s : string) : string :=
  match fuel with
  | O => s
  | S fuel => match strip_prefix prefix s with Some s' => trim_start_matches fuel prefix s' | None => s end
  end.

Section Api.
Context (parse_rfc3339 : string -> option OffsetDateTime).
Context (format_rfc3339 : OffsetDateTime -> Result string string).
Context (trim to_lowercase : string -> string).
Context (argon2_hash : string -> string -> Result string string).
Context (argon2_verify : string -> string -> Verification).
(** The URL-safe Base64 alphabet without padding; HMAC-SHA256 under the cookie
    secret; the JSON of the claims and of the request bodies; URL parsing. *)
Context (base64_encode : string -> string) (base64_decode : string -> option string).
Context (hmac_sign : string -> string) (hmac_verify : string -> string -> bool).
Context (claims_json : SessionClaims -> string) (read_claims : string -> option SessionClaims).
Context (read_login : string -> option LoginRequest) (read_create_user : string -> option CreateUserRequest).
Context (read_change_password : string -> option ChangePasswordRequest).
Context (read_update_profile : string -> option UpdateProfileRequest).
Context (parse_url : string -> option (option string * option Z)).

(** [key] is the part before the first equals sign. *)
Definition cookie_named (name pair : string) : option string :=
  match split_once "="%char (trim pair) with
  | Some (k, value) => if bool_decide (trim k = name) then Some value else None
  | None => None
  end.

Fixpoint find_map {A B} (f : A -> option B) (l : list A) : option B :=
  match l with
  | [] => None
  | a :: l => match f a with Some b => Some b | None => find_map f l end
  end.

Definition parse_cookie (cookies name : string) : option string :=
  find_map (cookie_named name) (split ";"%char cookies).

Definition read_session_cookie (headers : HeaderMap) : option string :=
  cookies ← header headers "cookie"; parse_cookie cookies ADMIN_SESSION_COOKIE.

Definition sign_payload (payload : string) : string :=
  base64_encode payload +:+ "." +:+ base64_encode (hmac_sign payload).

Definition decode_claims (value : string) : option SessionClaims :=
  match split_once "."%char value with
  | None => None
  | Some (payload, signature) =>
      payload_bytes ← base64_decode payload;
      signature_bytes ← base64_decode signature;
      if hmac_verify payload_bytes signature_bytes then read_claims payload_bytes else None
  end.

(** [from_unix_timestamp] is defined for every instant the clock gives. *)
Definition rfc3339_unix (unix : Z) : string :=
  match format_rfc3339 (unix * 1000000000) with Ok text => text | Err _ => pretty unix end.

(** *** Sessions *)

Definition principal_from_headers (E : Env) (headers : HeaderMap) : IO AuthError (option ResolvedPrincipal) :=
  match read_session_cookie headers with
  | None => mret None
  | Some cookie_value =>
      match decode_claims cookie_value with
      | None => mret None
      | Some claims =>
          if c_exp claims <? unix_timestamp (now_utc_at E 0) then mret None
          else
            session ← from_store "session store error" (get_session parse_rfc3339 (c_sid claims));
            match session with
            | None => mret None
            | Some session =>
                if is_some (s_revoked_at session) then mret None
                else
                  user ← from_store "user store error" (get_user_by_id parse_rfc3339 (c_uid claims));
                  match user with
                  | None => mret None
                  | Some user =>
                      if u_disabled user || negb (u_token_version user =? c_ver claims) then mret None
                      else mret (Some {| p_user := user; p_claims := claims |})
                  end
            end
      end
  end.

Definition issue_session (E : Env) (user : DbUser) : IO AuthError IssuedSession :=
  let now := now_utc_at E 0 in
  let started := unix_timestamp now in
  let expires := unix_timestamp (now + ADMIN_SESSION_TTL_SECONDS * 1000000000) in
  let csrf := new_v4 E 0 in
  let sid := new_v4 E 1 in
  let claims := {| c_uid := u_id user; c_sid := sid; c_ver := u_token_version user; c_iat := started;
                   c_exp := expires; c_csrf := csrf |} in
  let cookie_value := sign_payload (claims_json claims) in
  from_store "session persist failed" (insert_session format_rfc3339
    {| s_cookie_id := sid; s_user_id := u_id user; s_token_version := u_token_version user;
       s_issued_at := started * 1000000000; s_expires_at := expires * 1000000000;
       s_created_ip := None; s_revoked_at := None |}) ;;
  mret {| is_user := from_user user; is_cookie_value := cookie_value; is_issued_at := rfc3339_unix started;
          is_expires_at := rfc3339_unix expires; is_csrf_token := csrf |}.

(** *** The state of the API: the limiter and the store *)

Record ApiState : Type := {
  st_limiter : Buckets;
  st_db : Db
}.

(** A request reads the clocks and draws identifiers through [env] and [tick],
    by call. *)
Context (env : nat -> Env) (tick : nat -> Z) (salt : string).

Definition on_db {A} (m : IO AuthError A) (s : ApiState) : Result A AuthError * ApiState :=
  let (r, db) := m (st_db s) in (r, {| st_limiter := st_limiter s; st_db := db |}).

Definition with_issued (status : Z) (r : Result IssuedSession AuthError * ApiState) : Response * ApiState :=
  match r with
  | (Ok issued, s) =>
      (with_set_cookie (json_response status (SessionContent (session_response issued))) (is_cookie_value issued), s)
  | (Err error, s) => (auth_error_response error, s)
  end.

Definition limited (f : Buckets -> Buckets) (s : ApiState) : ApiState :=
  {| st_limiter := f (st_limiter s); st_db := st_db s |}.

Definition handle_login (body : string) (s : ApiState) : Response * ApiState :=
  match read_login body with
  | None => (auth_error_response (auth_error AuthErrorKind.InvalidUsername "invalid login payload"), s)
  | Some login =>
      let keys := keys_for trim to_lowercase None (lr_username login) in
      match check (tick 0) keys (st_limiter s) with
      | Some error => (auth_error_response error, limited (record_failure (fun i => tick (S i)) keys) s)
      | None =>
          match on_db (authenticate parse_rfc3339 trim to_lowercase argon2_verify
                         (lr_username login) (lr_password login)) s with
          | (Err error, s) =>
              (auth_error_response (mask_auth_error error), limited (record_failure (fun i => tick (S i)) keys) s)
          | (Ok user, s) => with_issued 200 (on_db (issue_session (env 1) user) (limited (reset keys) s))
          end
      end
  end.

Definition handle_logout (p : ResolvedPrincipal) (s : ApiState) : Response * ApiState :=
  let (_, db) := revoke_session (env 1) (c_sid (p_claims p)) (st_db s) in
  (with_clear_cookie (json_response 200 (SessionContent session_anonymous)),
   {| st_limiter := st_limiter s; st_db := db |}).

Definition handle_refresh (p : ResolvedPrincipal) (s : ApiState) : Response * ApiState :=
  with_issued 200 (on_db (issue_session (env 1) (p_user p)) s).

Definition principal_session (p : ResolvedPrincipal) (user : DbUser) : SessionResponse :=
  {| sr_authenticated := true; sr_user := Some (from_user user);
     sr_issued_at := Some (rfc3339_unix (c_iat (p_claims p)));
     sr_expires_at := Some (rfc3339_unix (c_exp (p_claims p)));
     sr_csrf_token := Some (c_csrf (p_claims p)) |}.

(** *** Accounts *)

Definition in_db (s : ApiState) (db : Db) : ApiState := {| st_limiter := st_limiter s; st_db := db |}.

Definition handle_list_users (s : ApiState) : Response * ApiState :=
  match list_users parse_rfc3339 (st_db s) with
  | (Ok us, db) => (json_response 200 (UsersContent (map from_user us)), in_db s db)
  | (Err error, db) => (json_error 500 (metadata_text error), in_db s db)
  end.

Definition handle_create_user (body : string) (p : ResolvedPrincipal) (s : ApiState) : Response * ApiState :=
  if negb (is_superadmin (p_user p)) then (json_error 403 "superadmin privilege required", s)
  else
    match read_create_user body with
    | None => (json_error 400 "invalid user payload", s)
    | Some q =>
        if negb (is_empty (cu_role q)) && negb (validate_role (cu_role q)) then (json_error 400 "invalid role", s)
        else
          let role := if is_empty (cu_role q) then ROLE_ADMIN else cu_role q in
          match on_db (create_account parse_rfc3339 trim to_lowercase argon2_hash (env 1) salt
                         (cu_username q) (cu_password q) role (cu_display_name q)) s with
          | (Ok user, s) => (json_response 201 (UserContent (from_user user)), s)
          | (Err error, s) => (auth_error_response error, s)
          end
    end.

Definition user_id_of (id_path : string) : string := trim_start_matches (String.length id_path) "users/" id_path.

(** [get_user_by_id(..).ok().flatten()] *)
Definition readable_user (id : string) (db : Db) : option DbUser :=
  match (get_user_by_id parse_rfc3339 id db).1 with Ok u => u | Err _ => None end.

Definition handle_change_password (body id_path : string) (p : ResolvedPrincipal) (s : ApiState)
    : Response * ApiState :=
  match readable_user (user_id_of id_path) (st_db s) with
  | None => (json_error 404 "user not found", s)
  | Some target =>
      let is_self := bool_decide (u_id target = u_id (p_user p)) in
      if negb is_self && negb (is_superadmin (p_user p))
      then (json_error 403 "not allowed to change this user's password", s)
      else
        match read_change_password body with
        | None => (json_error 400 "invalid payload", s)
        | Some q =>
            match on_db (change_password argon2_hash (env 1) (env 2) salt (u_id target) (cp_password q)) s with
            | (Err error, s) => (auth_error_response error, s)
            | (Ok _, s) =>
                match (if is_self then readable_user (u_id target) (st_db s) else None) with
                | Some user =>
                    match on_db (issue_session (env 3) user) s with
                    | (Ok issued, s) => with_issued 200 (Ok issued, s)
                    | (Err _, s) => (json_response 200 OkContent, s)
                    end
                | None => (json_response 200 OkContent, s)
                end
            end
        end
  end.

Definition handle_update_profile (body : string) (p : ResolvedPrincipal) (s : ApiState) : Response * ApiState :=
  match read_update_profile body with
  | None => (json_error 400 "invalid profile payload", s)
  | Some q =>
      match on_db (update_profile parse_rfc3339 trim argon2_hash argon2_verify (env 1) (env 2) salt
                     (u_id (p_user p)) (up_display_name q) (up_current_password q) (up_password q)) s with
      | (Err error, s) => (auth_error_response error, s)
      | (Ok _, s) =>
          match readable_user (u_id (p_user p)) (st_db s) with
          | None => (json_error 500 "updated profile is unreadable", s)
          | Some user =>
              if is_some (up_password q) then with_issued 200 (on_db (issue_session (env 3) user) s)
              else (json_response 200 (SessionContent (principal_session p user)), s)
          end
      end
  end.

Definition handle_delete_user (id_path : string) (p : ResolvedPrincipal) (s : ApiState) : Response * ApiState :=
  if negb (is_superadmin (p_user p)) then (json_error 403 "superadmin privilege required", s)
  else
    let id := user_id_of id_path in
    match readable_user id (st_db s) with
    | None => (json_error 404 "user not found", s)
    | Some target =>
        let superadmins := match (enabled_superadmin_count (st_db s)).1 with Ok n => n | Err _ => 0 end in
        if is_superadmin target && (superadmins <=? 1) then (json_error 409 "cannot delete the last superadmin", s)
        else
          match delete_user id (st_db s) with
          | (Err error, db) => (json_error 500 (metadata_text error), in_db s db)
          | (Ok _, db) =>
              (json_response 200 OkContent, in_db s (revoke_user_sessions (env 1) (u_id target) db).2)
          end
    end.

(** *** The first account *)

(** [u.port()] is absent for the default port of the scheme. *)
Definition same_origin (headers : HeaderMap) : bool :=
  if bool_decide (header headers "sec-fetch-site" = Some "cross-site") then false
  else
    match header headers "origin" with
    | None => true
    | Some origin =>
        match parse_url origin with
        | None => false
        | Some (host, port) =>
            let authority := match port with
                             | Some p => default "" host +:+ ":" +:+ pretty p
                             | None => default "" host
                             end in
            bool_decide (header headers "host" = Some authority)
        end
    end.

Definition setup_account (r : Request) (s : ApiState) : Response * ApiState :=
  if negb (same_origin (rq_headers r)) then (json_error 403 "cross-origin setup is not allowed", s)
  else
    let keys := keys_for trim to_lowercase None "first-account-setup" in
    match check (tick 0) keys (st_limiter s) with
    | Some error => (auth_error_response error, s)
    | None =>
        let s := limited (record_failure (fun i => tick (S i)) keys) s in
        if negb (match (setup_required (st_db s)).1 with Ok required => required | Err _ => false end)
        then (json_error 409 "setup is already complete", s)
        else
          match read_create_user (rq_body r) with
          | None => (json_error 400 "invalid account payload", s)
          | Some q =>
              match normalize_username trim to_lowercase (cu_username q), validate_password (cu_password q) with
              | Err error, _ => (auth_error_response error, s)
              | _, Err error => (auth_error_response error, s)
              | Ok username, Ok _ =>
                  match hash_password argon2_hash salt (cu_password q) with
                  | Err _ => (json_error 409 "setup could not complete; reload to check account state", s)
                  | Ok hash =>
                      match create_first_user parse_rfc3339 (env 1) username hash (cu_display_name q) (st_db s) with
                      | (Err _, db) => (json_error 409 "setup could not complete; reload to check account state", in_db s db)
                      | (Ok user, db) => with_issued 201 (on_db (issue_session (env 2) user) (in_db s db))
                      end
                  end
              end
          end
    end.

(** *** The gate *)

(** The routes of the rest of the API, behind the gate. *)
Context (other_routes : ResolvedPrincipal -> Request -> string -> ApiState -> Response * ApiState).

Definition is_mutating (m : Method) : bool :=
  match m with POST | PUT | DELETE | PATCH => true | GET | HEAD => false end.

(** No other route has one of these methods and paths. *)
Definition route (p : ResolvedPrincipal) (r : Request) (rest : string) (s : ApiState) : Response * ApiState :=
  let users_path := is_some (strip_prefix "users/" rest) in
  match rq_method r with
  | POST =>
      if bool_decide (rest = "session/logout") then handle_logout p s
      else if bool_decide (rest = "session/refresh") then handle_refresh p s
      else if bool_decide (rest = "users") then handle_create_user (rq_body r) p s
      else if users_path then handle_change_password (rq_body r) rest p s
      else other_routes p r rest s
  | GET =>
      if bool_decide (rest = "profile") then (json_response 200 (UserContent (from_user (p_user p))), s)
      else if bool_decide (rest = "users") then handle_list_users s
      else other_routes p r rest s
  | PATCH =>
      if bool_decide (rest = "profile") then handle_update_profile (rq_body r) p s else other_routes p r rest s
  | DELETE => if users_path then handle_delete_user rest p s else other_routes p r rest s
  | HEAD | PUT => other_routes p r rest s
  end.

(** The path behind the prefix; requests without it do not come here. *)
Definition api_path (path : string) : string :=
  match strip_prefix ADMIN_API_PREFIX path with
  | Some rest => rest
  | None => String.substring 0 (Nat.min (String.length ADMIN_API_PREFIX) (String.length path)) path
  end.

Definition guarded (r : Request) (rest : string) (s : ApiState) : Response * ApiState :=
  match on_db (principal_from_headers (env 0) (rq_headers r)) s with
  | (Err error, s) => (auth_error_response error, s)
  | (Ok None, s) => (json_error 401 "not authenticated", s)
  | (Ok (Some p), s) =>
      if is_mutating (rq_method r) && negb (require_csrf (rq_headers r) (p_claims p))
      then (json_error 403 "invalid csrf token", s)
      else route p r rest s
  end.

Definition is_method (a b : Method) : bool :=
  match a, b with
  | GET, GET | HEAD, HEAD | POST, POST | PUT, PUT | DELETE, DELETE | PATCH, PATCH => true
  | _, _ => false
  end.

Definition handle_api (r : Request) (s : ApiState) : Response * ApiState :=
  let rest := api_path (rq_path r) in
  let m := rq_method r in
  if is_method m GET && bool_decide (rest = "setup") then
    match setup_required (st_db s) with
    | (Ok required, db) => (json_response 200 (SetupContent required), in_db s db)
    | (Err _, db) => (json_error 500 "setup state unavailable", in_db s db)
    end
  else if is_method m POST && bool_decide (rest = "setup") then setup_account r s
  else if is_method m POST && negb (same_origin (rq_headers r)) then
    (json_error 403 "cross-origin request rejected", s)
  else if is_method m GET && bool_decide (rest = "session") then
    match on_db (principal_from_headers (env 0) (rq_headers r)) s with
    | (Ok (Some p), s) => (json_response 200 (SessionContent (principal_session p (p_user p))), s)
    | (Ok None, s) => (json_response 200 (SessionContent session_anonymous), s)
    | (Err error, s) => (auth_error_response error, s)
    end
  else if is_method m POST && bool_decide (rest = "session/login") then handle_login (rq_body r) s
  else guarded r rest s.
End Api.

(** ** Tokens *)

Lemma byte_difference_zero a b diff :
  String.length a = String.length b -> byte_difference diff a b = 0%N <-> diff = 0%N /\ a = b.
Proof.
  revert b diff. induction a as [|x a IH]; intros [|y b] diff Hl; try done; cbn [byte_difference].
  { split; [done|by intros [? _]]. }
  injection Hl as Hl. rewrite IH by done. rewrite N.lor_eq_0_iff, N.lxor_eq_0_iff. split.
  - intros [[-> Hxy] ->]. split; [done|]. f_equal.
    by rewrite <- (Ascii.ascii_N_embedding x), Hxy, Ascii.ascii_N_embedding.
  - intros [-> [= -> ->]]. done.
Qed.

(** The comparison that looks at every byte is equality. *)
Theorem constant_time_eq_exact a b : constant_time_eq a b = true <-> a = b.
Proof.
  unfold constant_time_eq. destruct (Nat.eqb_spec (String.length a) (String.length b)) as [Hl|Hl]; cbn [negb].
  - rewrite N.eqb_eq, byte_difference_zero by done. intuition.
  - split; [done|]. by intros ->.
Qed.

(** ** What the store is asked *)

Lemma get_session_reads parse id db : (get_session parse id db).2 = db.
Proof.
  unfold get_session, parse_timestamp, mbind, M_bind, query, some_or, throw, mret, M_ret.
  repeat (case_match; simplify_eq/=; try done).
Qed.

Lemma get_user_by_id_reads parse id db : (get_user_by_id parse id db).2 = db.
Proof. apply row_user_reads. Qed.

Lemma get_user_reads parse name db : (get_user parse name db).2 = db.
Proof. apply row_user_reads. Qed.

Lemma get_session_row parse id db s db' :
  get_session parse id db = (Ok (Some s), db') ->
  exists r, In r (admin_sessions db) /\ as_cookie_id r = id /\ (s_revoked_at s = None -> as_revoked_at r = None).
Proof.
  unfold get_session. intros H. apply bind_ok in H as (row & d & Hr & H). injection Hr as Hr <-.
  destruct row as [r|]; [|done]. apply sql_first_where in Hr as [Hin Hid]. bool_hyps. exists r. split_and!; [done..|].
  revert H. unfold parse_timestamp, mbind, M_bind, some_or, throw, mret, M_ret.
  repeat (case_match; simplify_eq/=; try done); by intros [= <- <-].
Qed.

Lemma get_user_row parse id db u db' :
  get_user_by_id parse id db = (Ok (Some u), db') ->
  exists r, In r (users db) /\ us_id r = id /\ u_id u = us_id r /\ u_role u = us_role r /\
    u_disabled u = us_disabled r /\ u_token_version u = us_token_version r.
Proof.
  unfold get_user_by_id, row_user. intros H. apply bind_ok in H as (row & d & Hr & H). injection Hr as Hr <-.
  destruct row as [r|]; [|done]. apply sql_first_where in Hr as [Hin Hid]. unfold with_id in Hid. bool_hyps.
  exists r. revert H. unfold read_user_row, parse_timestamp, mbind, M_bind, some_or, throw, mret, M_ret.
  repeat (case_match; simplify_eq/=; try done); by intros [= <- <-].
Qed.

Section Facts.
Context (parse_rfc3339 : string -> option OffsetDateTime).
Context (format_rfc3339 : OffsetDateTime -> Result string string).
Context (trim to_lowercase : string -> string).
Context (argon2_hash : string -> string -> Result string string).
Context (argon2_verify : string -> string -> Verification).
Context (base64_encode : string -> string) (base64_decode : string -> option string).
Context (hmac_sign : string -> string) (hmac_verify : string -> string -> bool).
Context (claims_json : SessionClaims -> string) (read_claims : string -> option SessionClaims).

Abbreviation principal := (principal_from_headers parse_rfc3339 trim base64_decode hmac_verify read_claims).
Abbreviation decode := (decode_claims base64_decode hmac_verify read_claims).
Abbreviation issue := (issue_session format_rfc3339 base64_encode hmac_sign claims_json).

Lemma principal_reads E headers db : (principal E headers db).2 = db.
Proof.
  unfold principal_from_headers. destruct (read_session_cookie trim headers) as [cookie|]; [|done].
  destruct (decode _) as [claims|]; [|done]. destruct (_ <? _); [done|].
  unfold from_store, map_err, mbind, IO_bind.
  pose proof (get_session_reads parse_rfc3339 (c_sid claims) db) as Hs.
  destruct (get_session parse_rfc3339 (c_sid claims) db) as [[[s|]|e] d]; cbn in Hs; subst d; try done.
  destruct (is_some (s_revoked_at s)); [done|].
  pose proof (get_user_by_id_reads parse_rfc3339 (c_uid claims) db) as Hu.
  destruct (get_user_by_id parse_rfc3339 (c_uid claims) db) as [[[u|]|e] d]; cbn in Hu; subst d; try done.
  by destruct (_ || _).
Qed.

(** Who is let in. *)
Lemma principal_some E headers db p db' :
  principal E headers db = (Ok (Some p), db') ->
  exists cookie session u,
    read_session_cookie trim headers = Some cookie /\ decode cookie = Some (p_claims p) /\
    unix_timestamp (now_utc_at E 0) <= c_exp (p_claims p) /\
    In session (admin_sessions db) /\ as_cookie_id session = c_sid (p_claims p) /\ as_revoked_at session = None /\
    In u (users db) /\ us_id u = c_uid (p_claims p) /\ us_disabled u = false /\
    us_token_version u = c_ver (p_claims p) /\ u_id (p_user p) = us_id u /\ u_role (p_user p) = us_role u.
Proof.
  unfold principal_from_headers. destruct (read_session_cookie trim headers) as [cookie|]; [|done].
  destruct (decode _) as [claims|] eqn:Ed; [|done]. destruct (Z.ltb_spec (c_exp claims) (unix_timestamp (now_utc_at E 0))); [done|].
  unfold from_store, map_err, mbind, IO_bind.
  destruct (get_session parse_rfc3339 (c_sid claims) db) as [[[s|]|e] d] eqn:Es; cbn; try done.
  apply get_session_row in Es as Hs. pose proof (get_session_reads parse_rfc3339 (c_sid claims) db) as Hd.
  rewrite Es in Hd. cbn in Hd. subst d.
  destruct (s_revoked_at s) eqn:Er; cbn; [done|].
  destruct (get_user_by_id parse_rfc3339 (c_uid claims) db) as [[[u|]|e] d] eqn:Eu; cbn; try done.
  apply get_user_row in Eu as (row & Hu & Hid & H1 & H2 & H3 & H4).
  destruct (u_disabled u) eqn:Edis; cbn; [done|]. destruct (Z.eqb_spec (u_token_version u) (c_ver claims)); cbn; [|done].
  intros [= <- <-]. destruct Hs as (r & Hr & Hrid & Hrev). exists cookie, r, row. cbn.
  split_and!; try done; [by apply Hrev|congruence..].
Qed.

(** *** Effects on the accounts *)

(** The accounts other than [pid]. *)
Definition others (pid : string) (db : Db) : list UserRow := sql_where (fun u => negb (with_id pid u)) (users db).

Lemma update_own pid f t :
  (forall r, us_id (f r) = us_id r) ->
  sql_where (fun u => negb (with_id pid u)) (sql_update (with_id pid) f t) =
  sql_where (fun u => negb (with_id pid u)) t.
Proof.
  intros Hf. unfold sql_where, sql_update. induction t as [|r t IH]; [done|]. cbn.
  assert (with_id pid (f r) = with_id pid r) as Hw by (unfold with_id; by rewrite Hf).
  destruct (with_id pid r) eqn:Er; [rewrite Hw|rewrite Er]; cbn; [done|by f_equal].
Qed.

Lemma from_store_db {A} prefix (m : M A) db : (from_store prefix m db).2 = (m db).2.
Proof. unfold from_store, map_err. by destruct (m db) as [[a|e] d]. Qed.

Lemma insert_session_users x db : users (insert_session format_rfc3339 x db).2 = users db.
Proof.
  unfold insert_session, formatted, mbind, M_bind, query, ensure, modify, throw, mret, M_ret.
  repeat (case_match; simplify_eq/=); congruence.
Qed.

Lemma issue_users E user db : users (issue E user db).2 = users db.
Proof.
  unfold issue_session, mbind, IO_bind. match goal with |- context [from_store ?p ?m db] =>
    pose proof (from_store_db p m db) as Hf; destruct (from_store p m db) as [[a|e] d] end;
  cbn in Hf |- *; subst d; apply insert_session_users.
Qed.

Lemma change_password_others E E' salt uid pw db :
  others uid (change_password argon2_hash E E' salt uid pw db).2 = others uid db.
Proof.
  unfold change_password, auth_result, mbind, IO_bind. destruct (validate_password pw); [|done].
  destruct (hash_password argon2_hash salt pw); cbn; [|done]. unfold others. cbn. by apply update_own.
Qed.

Lemma check_profile_reads uid current pw db :
  (check_profile_password parse_rfc3339 argon2_verify uid current pw db).2 = db.
Proof.
  unfold check_profile_password. destruct current as [current|]; [|done].
  unfold from_store, map_err, mbind, IO_bind, auth_result.
  pose proof (get_user_by_id_reads parse_rfc3339 uid db) as Hu.
  destruct (get_user_by_id parse_rfc3339 uid db) as [[[u|]|e] d]; cbn in Hu; subst d; try done.
  by destruct (verify_password argon2_verify current (u_password_hash u)), (validate_password pw).
Qed.

Lemma update_profile_others E E' salt uid display current pw db :
  others uid (update_profile parse_rfc3339 trim argon2_hash argon2_verify E E' salt uid display current pw db).2
  = others uid db.
Proof.
  unfold update_profile, auth_result, mbind, IO_bind.
  destruct (normalize_display_name trim display) as [name|]; [|done].
  destruct pw as [pw|]; [|unfold others; cbn; by apply update_own].
  pose proof (check_profile_reads uid current pw db) as Hc.
  destruct (check_profile_password parse_rfc3339 argon2_verify uid current pw db) as [[u|e] d]; cbn in Hc; subst d; [|done].
  destruct (hash_password argon2_hash salt pw); cbn; [|done]. unfold others. cbn. by apply update_own.
Qed.

Lemma authenticate_reads raw pw db :
  (authenticate parse_rfc3339 trim to_lowercase argon2_verify raw pw db).2 = db.
Proof.
  unfold authenticate, auth_result, mbind, IO_bind. destruct (normalize_username trim to_lowercase raw) as [name|]; [|done].
  unfold from_store, map_err. pose proof (get_user_reads parse_rfc3339 name db) as Hu.
  destruct (get_user parse_rfc3339 name db) as [[[u|]|e] d]; cbn in Hu; subst d; try done.
  destruct (verify_password argon2_verify pw (u_password_hash u)); [|done]. by destruct (u_disabled u).
Qed.

(** *** The whole API *)

Context (read_login : string -> option LoginRequest) (read_create_user : string -> option CreateUserRequest).
Context (read_change_password : string -> option ChangePasswordRequest).
Context (read_update_profile : string -> option UpdateProfileRequest).
Context (parse_url : string -> option (option string * option Z)).
Context (env : nat -> Env) (tick : nat -> Z) (salt : string).

Abbreviation api := (handle_api parse_rfc3339 format_rfc3339 trim to_lowercase argon2_hash argon2_verify
  base64_encode base64_decode hmac_sign hmac_verify claims_json read_claims read_login read_create_user
  read_change_password read_update_profile parse_url env tick salt).
Abbreviation guard := (guarded parse_rfc3339 format_rfc3339 trim to_lowercase argon2_hash argon2_verify
  base64_encode base64_decode hmac_sign hmac_verify claims_json read_claims read_create_user
  read_change_password read_update_profile env salt).
Abbreviation visitor r s := ((principal (env 0) (rq_headers r) (st_db s)).1).

Lemma in_db_same s : in_db s (st_db s) = s.
Proof. by destruct s. Qed.

Lemma on_db_principal E headers s :
  on_db (principal E headers) s = ((principal E headers (st_db s)).1, s).
Proof.
  unfold on_db. pose proof (principal_reads E headers (st_db s)) as H.
  destruct (principal E headers (st_db s)) as [r d]; cbn in *. subst d. by destruct s.
Qed.

Lemma setup_required_reads db : (setup_required db).2 = db.
Proof.
  unfold setup_required, mbind, M_bind, query, some_or, throw, mret, M_ret.
  by destruct (app_settings db !! "setup_complete").
Qed.

(** Whether the request may act on the state behind the gate. *)
Definition let_in (r : Request) (s : ApiState) (p : ResolvedPrincipal) : Prop :=
  visitor r s = Ok (Some p) /\
  (is_mutating (rq_method r) = true -> header (rq_headers r) ADMIN_CSRF_HEADER = Some (c_csrf (p_claims p))).

Lemma require_csrf_exact headers claims :
  require_csrf headers claims = true <-> header headers ADMIN_CSRF_HEADER = Some (c_csrf claims).
Proof.
  unfold require_csrf. destruct (header headers ADMIN_CSRF_HEADER) as [v|]; [|done].
  rewrite constant_time_eq_exact. split; [by intros ->|by intros [= ->]].
Qed.

(** The two ways through [guarded]. *)
Lemma guard_cases other r rest s :
  (exists p, let_in r s p /\ guard other r rest s =
     route parse_rfc3339 format_rfc3339 trim to_lowercase argon2_hash argon2_verify base64_encode hmac_sign
       claims_json read_create_user read_change_password read_update_profile env salt other p r rest s) \/
  ((forall p, ~ let_in r s p) /\ exists refusal, forall other', guard other' r rest s = (refusal, s)).
Proof.
  unfold guarded, let_in. rewrite on_db_principal. destruct (visitor r s) as [[p|]|e] eqn:Ev; cycle 1.
  { right. split; [by intros p []|eauto]. }
  { right. split; [by intros p []|eauto]. }
  destruct (is_mutating (rq_method r)) eqn:Em; cbn [andb]; [|left; exists p; by split].
  destruct (require_csrf (rq_headers r) (p_claims p)) eqn:Ec; cbn [negb].
  - left. exists p. split; [|done]. split; [done|]. intros _. by apply require_csrf_exact.
  - right. split; [|eauto]. intros q [[= <-] Hq]. specialize (Hq eq_refl). apply require_csrf_exact in Hq. congruence.
Qed.

(** C34: Nothing happens without a session: a request to any route other than
    the setup and login routes that does not carry the cookie of a session the
    store honours, or changes something without carrying the token of that
    session, leaves the store and the limiter alone and does not reach any of
    the other routes of the API. *)
Theorem nothing_without_session other other' r s :
  let rest := api_path (rq_path r) in
  ~ (rq_method r = POST /\ (rest = "setup" \/ rest = "session/login")) ->
  (forall p, ~ let_in r s p) ->
  (api other r s).2 = s /\ api other r s = api other' r s.
Proof.
  intros rest Hroute Hout. unfold handle_api. fold rest.
  destruct (is_method (rq_method r) GET && bool_decide (rest = "setup")).
  { pose proof (setup_required_reads (st_db s)) as Hs. destruct (setup_required (st_db s)) as [[x|e] d]; cbn in Hs; subst d.
    all: cbn; by rewrite in_db_same. }
  assert (is_method (rq_method r) POST = true -> rq_method r = POST) as Hpost by (by destruct (rq_method r)).
  destruct (is_method (rq_method r) POST && bool_decide (rest = "setup")) eqn:E1.
  { bool_hyps. exfalso. auto. }
  destruct (is_method (rq_method r) POST && negb _); [done|].
  destruct (is_method (rq_method r) GET && bool_decide (rest = "session")).
  { rewrite on_db_principal. by destruct (visitor r s) as [[p|]|e]. }
  destruct (is_method (rq_method r) POST && bool_decide (rest = "session/login")) eqn:E2.
  { bool_hyps. exfalso. auto. }
  destruct (guard_cases other r rest s) as [(p & Hp & _)|(_ & refusal & H)]; [by apply Hout in Hp|].
  by rewrite !H.
Qed.

Lemma on_db_db {A} (m : IO AuthError A) s : st_db (on_db m s).2 = (m (st_db s)).2.
Proof. unfold on_db. by destruct (m (st_db s)). Qed.

Lemma with_issued_db status x : st_db (with_issued status x).2 = st_db x.2.
Proof. by destruct x as [[i|e] s]. Qed.

Lemma issued_others status E user s pid :
  others pid (st_db (with_issued status (on_db (issue E user) s)).2) = others pid (st_db s).
Proof. rewrite with_issued_db, on_db_db. unfold others. by rewrite issue_users. Qed.

Lemma login_users body s :
  users (st_db (handle_login parse_rfc3339 format_rfc3339 trim to_lowercase argon2_verify base64_encode hmac_sign
    claims_json read_login env tick body s).2) = users (st_db s).
Proof.
  unfold handle_login. destruct (read_login body) as [q|]; [|done]. destruct (check _ _ _); [done|].
  match goal with |- context [on_db ?m s] => pose proof (on_db_db m s) as Hd end.
  rewrite authenticate_reads in Hd. destruct (on_db _ s) as [[user|e] s']; cbn in Hd; [|cbn; by rewrite Hd].
  rewrite with_issued_db, on_db_db, issue_users. cbn. by rewrite Hd.
Qed.

Lemma first_user_refused E name hash display db :
  users db <> [] -> (create_first_user parse_rfc3339 E name hash display db).2 = db.
Proof.
  intros Hne. unfold create_first_user, transaction, mbind, M_bind, query, ensure, throw, mret, M_ret.
  assert (sql_exists (fun _ => true) (users db) = true) as ->; [|by rewrite andb_false_r].
  destruct (sql_exists (fun _ => true) (users db)) eqn:E1; [done|]. by apply no_users_nil in E1.
Qed.

Lemma setup_closed db :
  users db <> [] -> match (setup_required db).1 with Ok required => required | Err _ => false end = false.
Proof.
  intros Hne. assert (sql_exists (fun _ => true) (users db) = true) as E1.
  { destruct (sql_exists (fun _ => true) (users db)) eqn:E1; [done|]. by apply no_users_nil in E1. }
  unfold setup_required, mbind, M_bind, query, some_or, throw, mret, M_ret.
  destruct (app_settings db !! "setup_complete") as [v|]; cbn; [|done]. rewrite E1. apply andb_false_r.
Qed.

Lemma setup_users r s :
  users (st_db s) <> [] ->
  st_db (setup_account parse_rfc3339 format_rfc3339 trim to_lowercase argon2_hash base64_encode hmac_sign
    claims_json read_create_user parse_url env tick salt r s).2 = st_db s.
Proof.
  intros Hne. unfold setup_account. destruct (negb (same_origin parse_url (rq_headers r))); [done|].
  destruct (check _ _ _); [done|]. cbn [limited st_db]. by rewrite setup_closed.
Qed.

Lemma change_others body id_path p s :
  is_superadmin (p_user p) = false ->
  others (u_id (p_user p)) (st_db (handle_change_password parse_rfc3339 format_rfc3339 argon2_hash base64_encode hmac_sign
    claims_json read_change_password env salt body id_path p s).2) = others (u_id (p_user p)) (st_db s).
Proof.
  intros Hp. unfold handle_change_password. destruct (readable_user _ _ (st_db s)) as [target|]; [|done].
  rewrite Hp, andb_true_r. case_bool_decide as Eself; [|done]. cbn [negb]. rewrite Eself.
  destruct (read_change_password body) as [q|]; [|done].
  match goal with |- context [on_db ?m s] => pose proof (on_db_db m s) as Hd end.
  pose proof (change_password_others (env 1) (env 2) salt (u_id (p_user p)) (cp_password q) (st_db s)) as Ho.
  destruct (on_db _ s) as [[x|e] s']; cbn in Hd; rewrite <- Ho, <- Hd; [|done].
  destruct (readable_user parse_rfc3339 _ (st_db s')) as [user|]; [|done].
  match goal with |- context [on_db ?m s'] => pose proof (on_db_db m s') as Hi end.
  destruct (on_db (issue _ user) s') as [[i|e] s'']; cbn in Hi |- *; unfold others; by rewrite Hi, issue_users.
Qed.

Lemma profile_others body p s :
  others (u_id (p_user p)) (st_db (handle_update_profile parse_rfc3339 format_rfc3339 trim argon2_hash argon2_verify
    base64_encode hmac_sign claims_json read_update_profile env salt body p s).2) = others (u_id (p_user p)) (st_db s).
Proof.
  unfold handle_update_profile. destruct (read_update_profile body) as [q|]; [|done].
  match goal with |- context [on_db ?m s] => pose proof (on_db_db m s) as Hd end.
  match type of Hd with _ = ?rhs => pose proof (update_profile_others (env 1) (env 2) salt (u_id (p_user p))
    (up_display_name q) (up_current_password q) (up_password q) (st_db s)) as Ho end.
  destruct (on_db _ s) as [[x|e] s']; cbn in Hd; rewrite <- Ho, <- Hd; [|done].
  destruct (readable_user parse_rfc3339 _ (st_db s')) as [user|]; [|done].
  destruct (is_some (up_password q)); [apply issued_others|done].
Qed.

Lemma read_users_reads l db : (read_users parse_rfc3339 l db).2 = db.
Proof.
  induction l as [|r l IH]; [done|]. cbn. unfold mbind, M_bind.
  pose proof (read_user_reads parse_rfc3339 r db) as Hr.
  destruct (read_user_row parse_rfc3339 r db) as [[u|e] d]; cbn in Hr; subst d; [|done].
  by destruct (read_users parse_rfc3339 l db) as [[us|e] d].
Qed.

Lemma list_users_reads db : (list_users parse_rfc3339 db).2 = db.
Proof. unfold list_users, mbind, M_bind, query. apply read_users_reads. Qed.

Lemma route_others other p r rest s :
  (forall p r rest s, users (st_db (other p r rest s).2) = users (st_db s)) ->
  is_superadmin (p_user p) = false ->
  others (u_id (p_user p)) (st_db (route parse_rfc3339 format_rfc3339 trim to_lowercase argon2_hash argon2_verify
    base64_encode hmac_sign claims_json read_create_user read_change_password read_update_profile env salt other p r
    rest s).2) = others (u_id (p_user p)) (st_db s).
Proof.
  intros Ho Hp. unfold route.
  assert (forall s, others (u_id (p_user p)) (st_db (other p r rest s).2) = others (u_id (p_user p)) (st_db s)) as Hother.
  { intros s'. unfold others. by rewrite Ho. }
  destruct (rq_method r); repeat (case_bool_decide; [|]); try apply Hother; try done.
  - unfold handle_list_users. pose proof (list_users_reads (st_db s)) as Hl.
    destruct (list_users parse_rfc3339 (st_db s)) as [[us|e] d]; cbn in Hl |- *; by subst d.
  - apply issued_others.
  - unfold handle_create_user. by rewrite Hp.
  - destruct (is_some _); [by apply change_others|apply Hother].
  - destruct (is_some _); [unfold handle_delete_user; by rewrite Hp|apply Hother].
  - apply profile_others.
Qed.


(** A changed password ends every session for good: once the password of an
    account was changed, whatever account operations follow (as long as
    identifiers are not drawn twice), every cookie of the account that is
    accepted carries a later token version than the one before the change, so
    none issued before it is. *)
Theorem password_change_ends_sessions E E' uid pw db db1 db2 v t headers p db3 :
  accounts_wf db -> (current_token_version uid db).1 = Ok v ->
  change_password argon2_hash E E' salt uid pw db = (Ok tt, db1) ->
  rtc (account_step (fun id => id <> uid) parse_rfc3339 format_rfc3339) db1 db2 ->
  principal t headers db2 = (Ok (Some p), db3) ->
  c_uid (p_claims p) = uid -> v < c_ver (p_claims p).
Proof.
  intros Hwf Hv Hc Hsteps Hp Huid.
  assert (outdated uid v db2) as Hout.
  { eapply account_steps_outdated; [exact Hsteps|]. eapply change_password_outdates; [exact Hc|].
    intros u Hu Hid. injection Hv as Hv. rewrite (found_by_id db (with_id uid) uid u) in Hv; try done.
    - by unfold with_id; apply bool_decide_eq_true_2.
    - by unfold with_id; apply bool_decide_eq_true_2. }
  apply principal_some in Hp as (c & ses & u & _ & _ & _ & _ & _ & _ & Hu & Hid & _ & Hver & _).
  rewrite <- Hver. apply Hout; [done|congruence].
Qed.

(** *** An issued cookie *)

(** The alphabet of URL-safe Base64. *)
Definition base64_char (c : Ascii.ascii) : bool :=
  let n := Ascii.N_of_ascii c in
  ((65 <=? n) && (n <=? 90) || (97 <=? n) && (n <=? 122) || (48 <=? n) && (n <=? 57) || (n =? 45) || (n =? 95))%N.

Fixpoint all_bytes (p : Ascii.ascii -> bool) (s : string) : bool :=
  match s with "" => true | String c s => p c && all_bytes p s end.

(** Visible characters, apart from the separators of a cookie header. *)
Definition cookie_char (c : Ascii.ascii) : bool :=
  let n := Ascii.N_of_ascii c in ((33 <=? n) && (n <=? 126) && negb (n =? 59))%N.

Hypothesis (Hbase64 : forall x, base64_decode (base64_encode x) = Some x).
Hypothesis (Halphabet : forall x, all_bytes base64_char (base64_encode x) = true).
Hypothesis (Hhmac : forall x, hmac_verify x (hmac_sign x) = true).
Hypothesis (Hclaims : forall c, read_claims (claims_json c) = Some c).
Hypothesis (Htrim : forall s, all_bytes cookie_char s = true -> trim s = s).
Hypothesis (Htime : forall t text, format_rfc3339 t = Ok text -> parse_rfc3339 text = Some t).

Lemma all_bytes_app p a b : all_bytes p (a +:+ b) = all_bytes p a && all_bytes p b.
Proof.
  induction a as [|c a IH]; [done|]. change (String c a +:+ b) with (String c (a +:+ b)). cbn [all_bytes].
  by rewrite IH, andb_assoc.
Qed.

Lemma all_bytes_weaken p q s :
  (forall c, p c = true -> q c = true) -> all_bytes p s = true -> all_bytes q s = true.
Proof. intros H. induction s as [|c s IH]; [done|]. cbn. rewrite !andb_true_iff. intros []. auto. Qed.

Lemma split_once_app sep a b :
  all_bytes (fun c => negb (Ascii.eqb c sep)) a = true -> split_once sep (a +:+ String sep b) = Some (a, b).
Proof.
  induction a as [|c a IH]; cbn [all_bytes].
  { change ("" +:+ String sep b) with (String sep b). cbn [split_once]. by rewrite Ascii.eqb_refl. }
  change (String c a +:+ String sep b) with (String c (a +:+ String sep b)). cbn [split_once].
  rewrite andb_true_iff, negb_true_iff. intros [-> Ha]. by rewrite IH.
Qed.

Lemma split_none sep s : all_bytes (fun c => negb (Ascii.eqb c sep)) s = true -> split sep s = [s].
Proof.
  induction s as [|c s IH]; [done|]. cbn. rewrite andb_true_iff, negb_true_iff. intros [-> Hs]. by rewrite IH.
Qed.

Lemma base64_not sep x :
  base64_char sep = false -> all_bytes (fun c => negb (Ascii.eqb c sep)) (base64_encode x) = true.
Proof.
  intros Hs. eapply all_bytes_weaken; [|apply Halphabet]. intros c Hc. rewrite negb_true_iff.
  destruct (Ascii.eqb_spec c sep) as [->|]; [congruence|done].
Qed.

Lemma decode_signed payload :
  decode (sign_payload base64_encode hmac_sign payload) = read_claims payload.
Proof.
  unfold decode_claims, sign_payload.
  change ("." +:+ base64_encode (hmac_sign payload)) with (String "." (base64_encode (hmac_sign payload))).
  rewrite split_once_app by (by apply base64_not).
  rewrite !Hbase64. cbn. by rewrite Hhmac.
Qed.

Lemma signed_bytes p payload :
  (forall c, base64_char c = true -> p c = true) -> p "."%char = true ->
  all_bytes p (sign_payload base64_encode hmac_sign payload) = true.
Proof.
  intros Hp Hdot. unfold sign_payload. rewrite all_bytes_app. rewrite all_bytes_app. cbn [all_bytes]. rewrite Hdot.
  by rewrite !(all_bytes_weaken base64_char p _ Hp).
Qed.

(** The cookie as a browser sends it back. *)
Lemma sent_cookie payload :
  read_session_cookie trim {[ "cookie" :=
    ADMIN_SESSION_COOKIE +:+ "=" +:+ sign_payload base64_encode hmac_sign payload ]}
  = Some (sign_payload base64_encode hmac_sign payload).
Proof.
  set (value := sign_payload base64_encode hmac_sign payload).
  set (pair := ADMIN_SESSION_COOKIE +:+ "=" +:+ value).
  assert (forall p, (forall c, base64_char c = true -> p c = true) -> p "."%char = true -> p "="%char = true ->
    all_bytes p ADMIN_SESSION_COOKIE = true -> all_bytes p pair = true) as Hpair.
  { intros p Hp Hdot Heq Hname. unfold pair, value. rewrite !all_bytes_app, Hname, signed_bytes by done. cbn. by rewrite Heq. }
  unfold read_session_cookie, header. rewrite lookup_singleton_eq.
  assert (all_visible pair = true) as ->.
  { assert (forall t, all_bytes visible t = true -> all_visible t = true) as Hall
      by (intros t; induction t as [|c t IH]; [done|]; cbn; rewrite !andb_true_iff; intros []; auto).
    apply Hall, Hpair; [|done..]. intros c. unfold base64_char, visible. intros Hc.
    repeat rewrite ?orb_true_iff, ?andb_true_iff, ?N.leb_le, ?N.eqb_eq in *. lia. }
  cbn. unfold parse_cookie. rewrite split_none.
  2:{ apply Hpair; [|done..]. intros c. unfold base64_char. intros Hc. rewrite negb_true_iff.
      destruct (Ascii.eqb_spec c ";"%char) as [->|]; [discriminate Hc|done]. }
  cbn [find_map]. unfold cookie_named. rewrite Htrim.
  2:{ apply Hpair; [|done..]. intros c. unfold base64_char, cookie_char. intros Hc.
      repeat rewrite ?orb_true_iff, ?andb_true_iff, ?negb_true_iff, ?N.leb_le, ?N.eqb_eq, ?N.eqb_neq in *. lia. }
  unfold pair. change ("=" +:+ value) with (String "=" value). rewrite split_once_app by done.
  rewrite Htrim by done. by rewrite bool_decide_eq_true_2.
Qed.

Lemma where_last {A} (p : A -> bool) t x :
  sql_exists p t = false -> p x = true -> sql_first (sql_where p (t ++ [x])) = Some x.
Proof.
  intros Ht Hx. unfold sql_where, sql_first. rewrite List.filter_app.
  assert (List.filter p t = []) as ->; [|cbn; by rewrite Hx].
  apply sql_count_zero in Ht. unfold sql_count, sql_where in Ht. by destruct (List.filter p t).
Qed.

(** What [issue_session] stores. *)
Lemma issue_run E user db issued db1 :
  issue E user db = (Ok issued, db1) ->
  let now := now_utc_at E 0 in
  let claims := {| c_uid := u_id user; c_sid := new_v4 E 1; c_ver := u_token_version user;
    c_iat := unix_timestamp now; c_exp := unix_timestamp (now + ADMIN_SESSION_TTL_SECONDS * 1000000000);
    c_csrf := new_v4 E 0 |} in
  is_cookie_value issued = sign_payload base64_encode hmac_sign (claims_json claims) /\
  is_csrf_token issued = new_v4 E 0 /\ users db1 = users db /\
  exists session, get_session parse_rfc3339 (new_v4 E 1) db1 = (Ok (Some session), db1) /\ s_revoked_at session = None.
Proof.
  unfold issue_session, from_store, map_err, mbind, IO_bind. intros H.
  match type of H with context [insert_session _ ?x db] => pose proof (insert_session_users x db) as Hu;
    destruct (insert_session format_rfc3339 x db) as [[u|e] d] eqn:Ei end; cbn in H; [|done].
  injection H as <- <-. cbn in Hu |- *. split_and!; [done..|].
  unfold insert_session in Ei. apply bind_ok in Ei as (i & d1 & H1 & Ei). apply bind_ok in Ei as (x & d2 & H2 & Ei).
  unfold formatted in H1, H2.
  destruct (format_rfc3339 _) as [ti|] eqn:Ef1 in H1; [|done]. injection H1 as <- <-.
  destruct (format_rfc3339 _) as [tx|] eqn:Ef2 in H2; [|done]. injection H2 as <- <-.
  apply bind_ok in Ei as (t & d3 & H3 & Ei). injection H3 as <- <-.
  apply bind_ok in Ei as ([] & d4 & H4 & Ei). apply ensure_ok in H4 as [Ht ->]. rewrite negb_true_iff in Ht.
  apply bind_ok in Ei as (o & d5 & H5 & Ei). injection H5 as _ <-.
  apply bind_ok in Ei as ([] & d6 & H6 & Ei). apply ensure_ok in H6 as [_ ->]. injection Ei as _ <-.
  unfold get_session, mbind, M_bind, query, set. cbn [admin_sessions s_cookie_id] in *.
  erewrite where_last; [|exact Ht|by apply bool_decide_eq_true_2]. cbn.
  unfold parse_timestamp. rewrite (Htime _ _ Ef1), (Htime _ _ Ef2). cbn. eauto.
Qed.

(** Logging in works: the cookie of an issued session, sent back by the
    browser within eight hours to a store that has not changed, is accepted as
    the account it was issued to, with the token that was handed out. *)
Theorem issued_session_is_accepted E E' user db issued db1 :
  (get_user_by_id parse_rfc3339 (u_id user) db).1 = Ok (Some user) -> u_disabled user = false ->
  issue E user db = (Ok issued, db1) ->
  unix_timestamp (now_utc_at E' 0) <= unix_timestamp (now_utc_at E 0) + ADMIN_SESSION_TTL_SECONDS ->
  exists p, principal E' {[ "cookie" := ADMIN_SESSION_COOKIE +:+ "=" +:+ is_cookie_value issued ]} db1
              = (Ok (Some p), db1) /\
    p_user p = user /\ c_csrf (p_claims p) = is_csrf_token issued.
Proof.
  intros Hu Hd Hi Ht. apply issue_run in Hi as (Hc & Hcsrf & Husers & session & Hs & Hrev). rewrite Hc, Hcsrf.
  eexists {| p_user := user; p_claims := _ |}. split; cycle 1.
  { split; [reflexivity|]. instantiate (1 := {| c_uid := _; c_csrf := _ |}). reflexivity. }
  unfold principal_from_headers. rewrite sent_cookie, decode_signed, Hclaims. cbn [c_exp c_sid c_uid c_ver].
  assert (unix_timestamp (now_utc_at E 0 + ADMIN_SESSION_TTL_SECONDS * 1000000000) =
    unix_timestamp (now_utc_at E 0) + ADMIN_SESSION_TTL_SECONDS) as Hexp.
  { unfold unix_timestamp. by rewrite Z.div_add. }
  rewrite Hexp, (proj2 (Z.ltb_ge _ _)) by lia.
  unfold from_store, map_err, mbind, IO_bind. rewrite Hs, Hrev. cbn.
  assert (get_user_by_id parse_rfc3339 (u_id user) db1 = (Ok (Some user), db1)) as ->.
  { revert Hu. unfold get_user_by_id, row_user, mbind, M_bind, query. rewrite Husers.
    destruct (sql_first _) as [r|]; [|done]. pose proof (read_user_reads parse_rfc3339 r db1) as Hr.
    unfold read_user_row, parse_timestamp, mbind, M_bind, some_or, throw, mret, M_ret in *.
    repeat (case_match; simplify_eq/=; try done). by intros [= ->]. }
  cbn. rewrite Hd, Z.eqb_refl. reflexivity.
Qed.
End Facts.

(** ** Witnesses and the recorded defect *)

(** Base16 in letters, an encoding of claims as digits, and signatures that are
    the text itself. *)
Definition letter (n : N) : Ascii.ascii := Ascii.ascii_of_N (65 + n).

Fixpoint toy_base64 (s : string) : string :=
  match s with
  | "" => ""
  | String c s =>
      let n := Ascii.N_of_ascii c in String (letter (n / 16)) (String (letter (n mod 16)) (toy_base64 s))
  end.

Fixpoint toy_unbase64 (s : string) : option string :=
  match s with
  | "" => Some ""
  | String a (String b s) =>
      rest ← toy_unbase64 s;
      Some (String (Ascii.ascii_of_N (16 * (Ascii.N_of_ascii a - 65) + (Ascii.N_of_ascii b - 65))) rest)
  | _ => None
  end.

Lemma toy_base64_inverse x : toy_unbase64 (toy_base64 x) = Some x.
Proof.
  induction x as [|c x IH]; [done|]. cbn [toy_base64 toy_unbase64]. rewrite IH. cbn [mbind option_bind].
  do 2 f_equal. by destruct c as [[] [] [] [] [] [] [] []].
Qed.

Lemma toy_base64_alphabet x : all_bytes base64_char (toy_base64 x) = true.
Proof.
  induction x as [|c x IH]; [done|]. cbn [toy_base64 all_bytes]. rewrite IH.
  by destruct c as [[] [] [] [] [] [] [] []].
Qed.

Fixpoint digits (p : positive) : string :=
  match p with xH => "" | xO p => String "0" (digits p) | xI p => String "1" (digits p) end.

Fixpoint undigits (s : string) : positive :=
  match s with "" => xH | String c s => if Ascii.eqb c "0" then xO (undigits s) else xI (undigits s) end.

Lemma digits_inverse p : undigits (digits p) = p.
Proof. induction p as [p IH|p IH|]; cbn; by rewrite ?IH. Qed.

Definition claims_tuple (c : SessionClaims) := (c_uid c, c_sid c, c_ver c, c_iat c, c_exp c, c_csrf c).

Definition toy_claims (c : SessionClaims) : string := digits (encode (claims_tuple c)).

Definition toy_read_claims (s : string) : option SessionClaims :=
  (fun '(uid, sid, ver, iat, exp, csrf) =>
     {| c_uid := uid; c_sid := sid; c_ver := ver; c_iat := iat; c_exp := exp; c_csrf := csrf |})
  <$> decode (A := string * string * Z * Z * Z * string) (undigits s).

Lemma toy_claims_inverse c : toy_read_claims (toy_claims c) = Some c.
Proof. unfold toy_read_claims, toy_claims. rewrite digits_inverse, decode_encode. by destruct c. Qed.

Definition toy_format (t : OffsetDateTime) : Result string string :=
  if t =? 100000000000 then Ok "a" else if t =? 28900000000000 then Ok "b" else Err "".

Definition toy_parse (s : string) : option OffsetDateTime :=
  Some (if bool_decide (s = "a") then 100000000000 else if bool_decide (s = "b") then 28900000000000 else 0).

Lemma toy_format_inverse t text : toy_format t = Ok text -> toy_parse text = Some t.
Proof.
  unfold toy_format. destruct (Z.eqb_spec t 100000000000) as [->|]; [by intros [= <-]|].
  destruct (Z.eqb_spec t 28900000000000) as [->|]; [by intros [= <-]|done].
Qed.

Definition plain (s : string) : string := s.

Definition toy_issue := issue_session toy_format toy_base64 plain toy_claims.
Definition toy_principal := principal_from_headers toy_parse plain toy_unbase64 String.eqb toy_read_claims.

Definition sample_user (id : string) : DbUser :=
  default {| u_id := ""; u_username := ""; u_password_hash := ""; u_role := ""; u_display_name := "";
             u_disabled := true; u_token_version := 0; u_created_at := 0; u_updated_at := 0 |}
    (readable_user toy_parse id sample_accounts).

Definition sample_login (id : string) : Result IssuedSession AuthError * Db :=
  toy_issue (sample_env 100 "sid") (sample_user id) sample_accounts.

Definition sample_issued (id : string) : IssuedSession :=
  match (sample_login id).1 with
  | Ok issued => issued
  | Err _ => {| is_user := from_user (sample_user id); is_cookie_value := ""; is_issued_at := "";
                is_expires_at := ""; is_csrf_token := "" |}
  end.

Definition sample_headers (id : string) : HeaderMap :=
  {[ "cookie" := ADMIN_SESSION_COOKIE +:+ "=" +:+ is_cookie_value (sample_issued id) ]}.

Lemma sample_login_ok id :
  is_ok (sample_login id).1 = true -> sample_login id = (Ok (sample_issued id), (sample_login id).2).
Proof. unfold sample_issued. destruct (sample_login id) as [[i|e] d]; done. Qed.

Lemma issued_session_is_accepted_witness :
  exists p, toy_principal (sample_env 28900 "u") (sample_headers "id2") (sample_login "id2").2
              = (Ok (Some p), (sample_login "id2").2) /\
    p_user p = sample_user "id2" /\ c_csrf (p_claims p) = "sid".
Proof.
  assert (is_ok (sample_login "id2").1 = true) as Hok by (vm_compute; reflexivity).
  assert (is_csrf_token (sample_issued "id2") = "sid") as Hcsrf by (vm_compute; reflexivity).
  pose proof (issued_session_is_accepted toy_parse toy_format plain toy_base64 toy_unbase64 plain String.eqb
    toy_claims toy_read_claims toy_base64_inverse toy_base64_alphabet String.eqb_refl toy_claims_inverse
    (fun s _ => eq_refl) toy_format_inverse (sample_env 100 "sid") (sample_env 28900 "u") (sample_user "id2")
    sample_accounts (sample_issued "id2") (sample_login "id2").2) as H.
  rewrite Hcsrf in H. apply H.
  - vm_compute. reflexivity.
  - vm_compute. reflexivity.
  - exact (sample_login_ok "id2" Hok).
  - vm_compute. discriminate.
Defined.

(** *** A whole request *)

Definition toy_api := handle_api toy_parse toy_format plain plain (fun salt pw => Ok pw) plain_verify toy_base64
  toy_unbase64 plain String.eqb toy_claims toy_read_claims (fun _ => None) (fun _ => None)
  (fun body => Some {| cp_password := body |}) (fun _ => None) (fun _ => None)
  (fun i => sample_env 100 (if (i =? 3)%nat then "new-sid" else "e")) (fun _ => 0) "salt".

Definition no_routes (p : ResolvedPrincipal) (r : Request) (rest : string) (s : ApiState) : Response * ApiState :=
  (json_error 404 "not found", s).

Definition signed_in (id : string) : ApiState := {| st_limiter := ∅; st_db := (sample_login id).2 |}.

(** The operator sets a password of the account [target]. *)
Definition operator_sets (target csrf : string) : Request :=
  {| rq_method := POST; rq_path := "/_admin/api/users/" +:+ target;
     rq_headers := <[ADMIN_CSRF_HEADER := csrf]> (sample_headers "id2"); rq_body := "another-password" |}.

Lemma nothing_without_session_witness :
  (toy_api no_routes (operator_sets "id2" "forged") (signed_in "id2")).2 = signed_in "id2".
Proof.
  apply (fun h1 h2 => proj1 (nothing_without_session toy_parse toy_format plain plain (fun salt pw => Ok pw)
    plain_verify toy_base64 toy_unbase64 plain String.eqb toy_claims toy_read_claims (fun _ => None) (fun _ => None)
    (fun body => Some {| cp_password := body |}) (fun _ => None) (fun _ => None)
    (fun i => sample_env 100 (if (i =? 3)%nat then "new-sid" else "e")) (fun _ => 0) "salt"
    no_routes no_routes (operator_sets "id2" "forged") (signed_in "id2") h1 h2)).
  - intros [_ [H|H]]; vm_compute in H; discriminate H.
  - intros p [Hv Hc]. specialize (Hc eq_refl).
    assert (forall q, (toy_principal (sample_env 100 "e") (rq_headers (operator_sets "id2" "forged"))
                         (sample_login "id2").2).1 = Ok (Some q) -> c_csrf (p_claims q) = "sid") as Hq
      by (vm_compute; intros q [= <-]; reflexivity).
    assert (header (rq_headers (operator_sets "id2" "forged")) ADMIN_CSRF_HEADER = Some "forged") as Hh
      by (vm_compute; reflexivity).
    rewrite Hh in Hc. injection Hc as Hc. rewrite (Hq p Hv) in Hc. discriminate Hc.
Defined.


(** The operator's new password, and the session issued with it. *)
Definition changed : Db :=
  (change_password (fun salt pw => Ok pw) (sample_env 100 "e") (sample_env 100 "e") "salt" "id2" "another-password"
     (sample_login "id2").2).2.

Definition changed_login : Result IssuedSession AuthError * Db :=
  match readable_user toy_parse "id2" changed with
  | Some user => toy_issue (sample_env 100 "new-sid") user changed
  | None => (Err (internal "unreadable"), changed)
  end.

Definition changed_headers : HeaderMap :=
  match changed_login.1 with
  | Ok issued => {[ "cookie" := ADMIN_SESSION_COOKIE +:+ "=" +:+ is_cookie_value issued ]}
  | Err _ => ∅
  end.

(** The cookie of the first session is refused, the new one accepted. *)
Lemma password_change_ends_sessions_witness :
  (toy_principal (sample_env 100 "e") (sample_headers "id2") changed_login.2).1 = Ok None /\
  exists p, (toy_principal (sample_env 100 "e") changed_headers changed_login.2).1 = Ok (Some p) /\ 0 < c_ver (p_claims p).
Proof.
  split; [vm_compute; reflexivity|].
  destruct (toy_principal (sample_env 100 "e") changed_headers changed_login.2) as [r d] eqn:Ep.
  assert (exists p, r = Ok (Some p) /\ c_uid (p_claims p) = "id2") as (p & -> & Huid).
  { change r with (r, d).1. rewrite <- Ep. vm_compute. eexists. split; reflexivity. }
  exists p. split; [reflexivity|].
  apply (password_change_ends_sessions toy_parse toy_format plain (fun salt pw => Ok pw) toy_unbase64 String.eqb
    toy_read_claims "salt" (sample_env 100 "e") (sample_env 100 "e") "id2" "another-password"
    (sample_login "id2").2 changed changed_login.2 0 (sample_env 100 "e") changed_headers p d).
  - split; [vm_compute; repeat constructor; cbn; intuition discriminate..| | |].
    + right. vm_compute. reflexivity.
    + vm_compute. repeat constructor; cbn; intuition discriminate.
    + vm_compute. intros x [<-|[]]. reflexivity.
  - vm_compute. reflexivity.
  - vm_compute. reflexivity.
  - apply rtc_once. exists _, (insert_session toy_format
      {| s_cookie_id := "new-sid"; s_user_id := "id2"; s_token_version := 1; s_issued_at := 100000000000;
         s_expires_at := 28900000000000; s_created_ip := None; s_revoked_at := None |}).
    split; [apply account_session|]. vm_compute. reflexivity.
  - exact Ep.
  - exact Huid.
Defined.

(** The caller's own password can be replaced without the current one: the
    profile operation asks for it, the route of the accounts does not. *)
Theorem own_password_without_current :
  let r := toy_api no_routes (operator_sets "id2" "sid") (signed_in "id2") in
  rp_status r.1 = 200 /\
  map us_password_hash (others "id1" (sample_login "id2").2) = ["battery-staple"] /\
  map us_password_hash (others "id1" (st_db r.2)) = ["another-password"] /\
  is_ok (update_profile toy_parse plain (fun salt pw => Ok pw) plain_verify (sample_env 100 "e") (sample_env 100 "e")
           "salt" "id2" "Op" None (Some "another-password") (sample_login "id2").2).1 = false.
Proof. vm_compute. by split_and!. Qed.
