(* ===== verification/Encryption.v ===== *)
(** * Chunk and share-token encryption ([src/src/object_format.rs])

    [ObjectEncryption] derives a key and a nonce for each chunk from the master
    key, the object and the chunk's order, and seals chunks and share tokens
    with ChaCha20-Poly1305.  SHA-256, the cipher (class [Aead]), the sixteen
    bytes of a UUID, Base64 and the UTF-8 check are parameters; [AeadLaws] is
    what the cipher documents.

    The theorems: a chunk and a share token that were sealed open to what was
    sealed, and a sealed chunk is sixteen bytes longer than the chunk, which is
    what the reception reserves for it. *)

From stdpp Require Import pretty.
From S2P Require Import Prelude Errors Manifest Schema Cleanup Transfers TransferSafety.
From S2P Require Import ManifestStore ManifestSafety MultipartStore Buckets ConnectionRemoval System.
From S2P Require Import Requests Listing Chunks Attempts Programs Publish Reception Completion.

(** ** The cipher *)

(** [LessSafeKey::seal_in_place_append_tag] and [open_in_place], by key, nonce,
    associated data and text; [None] is [Unspecified]. *)
Class Aead : Type := {
  seal_in_place_append_tag : list byte -> list byte -> list byte -> list byte -> option (list byte);
  open_in_place : list byte -> list byte -> list byte -> list byte -> option (list byte)
}.

(** [CHACHA20_POLY1305.tag_len()] *)
Definition tag_len : nat := 16.

Class AeadLaws `{Aead} : Prop := {
  open_sealed key nonce aad text sealed :
    seal_in_place_append_tag key nonce aad text = Some sealed -> open_in_place key nonce aad sealed = Some text;
  sealed_length key nonce aad text sealed :
    seal_in_place_append_tag key nonce aad text = Some sealed -> length sealed = (length text + tag_len)%nat
}.

(** [x.to_le_bytes()] *)
Definition le_bytes (k : nat) (x : Z) : list byte := rev (be_bytes k x).

Record ObjectEncryption : Type := {
  oe_key : list byte;
  oe_key_id : string
}.

Section Encryption.
Context `{Aead}.
Context (sha256 : list byte -> list byte) (hex_encode : list byte -> string).
Context (uuid_bytes : Uuid -> list byte).
Context (base64_encode : list byte -> string) (base64_decode : string -> option (list byte)).
Context (from_utf8 : list byte -> option string).

Definition from_master_key (master_key : string) : ObjectEncryption :=
  {| oe_key := sha256 (as_bytes master_key);
     oe_key_id := hex_encode (sha256 (as_bytes "telegram-s3-encryption-key" ++ as_bytes master_key)) |}.

Section Keyed.
Context (self : ObjectEncryption).

Definition chunk_key (object_id : Uuid) : list byte := sha256 (oe_key self ++ uuid_bytes object_id).

Definition nonce (object_id : Uuid) (order : Z) : list byte :=
  take 12 (sha256 (uuid_bytes object_id ++ le_bytes 4 order)).

Definition invalid {A} (m : string) : Result A ObjectFormatError.t := Err (ObjectFormatError.InvalidChecksum m).

(** [UnboundKey::new] wants 32 bytes, [try_assume_unique_for_key] 12. *)
Definition encrypt_chunk (object_id : Uuid) (order : Z) (plaintext : list byte)
    : Result (list byte) ObjectFormatError.t :=
  if negb (length (chunk_key object_id) =? 32)%nat then invalid "invalid key"
  else if negb (length (nonce object_id order) =? 12)%nat then invalid "invalid nonce"
  else
    match seal_in_place_append_tag (chunk_key object_id) (nonce object_id order) (uuid_bytes object_id) plaintext with
    | Some in_out => Ok in_out
    | None => invalid "encryption failed"
    end.

Definition decrypt_chunk (object_id : Uuid) (order : Z) (ciphertext : list byte)
    : Result (list byte) ObjectFormatError.t :=
  if negb (length (chunk_key object_id) =? 32)%nat then invalid "invalid key"
  else if negb (length (nonce object_id order) =? 12)%nat then invalid "invalid nonce"
  else
    match open_in_place (chunk_key object_id) (nonce object_id order) (uuid_bytes object_id) ciphertext with
    | Some plaintext => Ok plaintext
    | None => Err (ObjectFormatError.ChecksumMismatch ("chunk " +:+ pretty order) "encrypted payload" "decryption failed")
    end.

Definition SHARE_CONTEXT : list byte := as_bytes "telegram-s3-share-token-v1".

Definition share_key : list byte := sha256 (oe_key self ++ SHARE_CONTEXT).

(** [nonce_bytes] is what the system's generator fills in. *)
Definition encrypt_share_token (nonce_bytes : option (list byte)) (token : string)
    : Result string ObjectFormatError.t :=
  if negb (length share_key =? 32)%nat then invalid "invalid share key"
  else
    match nonce_bytes with
    | None => invalid "random nonce failed"
    | Some nonce_bytes =>
        if negb (length nonce_bytes =? 12)%nat then invalid "invalid share nonce"
        else
          match seal_in_place_append_tag share_key nonce_bytes SHARE_CONTEXT (as_bytes token) with
          | None => invalid "share token encryption failed"
          | Some encrypted => Ok (base64_encode (nonce_bytes ++ encrypted))
          end
    end.

Definition decrypt_share_token (encoded : string) : Result string ObjectFormatError.t :=
  match base64_decode encoded with
  | None => invalid "invalid share token encoding"
  | Some payload =>
      if (length payload <? 12 + tag_len)%nat then invalid "invalid share token payload"
      else if negb (length share_key =? 32)%nat then invalid "invalid share key"
      else
        match open_in_place share_key (take 12 payload) SHARE_CONTEXT (drop 12 payload) with
        | None => invalid "share token decryption failed"
        | Some plaintext =>
            match from_utf8 plaintext with
            | Some token => Ok token
            | None => invalid "share token is not utf-8"
            end
        end
  end.
End Keyed.

(** ** Round trips *)

Context `{!AeadLaws}.

Lemma chunk_opens self obj n text sealed :
  encrypt_chunk self obj n text = Ok sealed -> decrypt_chunk self obj n sealed = Ok text.
Proof.
  unfold encrypt_chunk, decrypt_chunk. do 2 (destruct (negb _); [done|]).
  destruct (seal_in_place_append_tag _ _ _ text) as [s|] eqn:E; [|done]. intros [= ->].
  by rewrite (open_sealed _ _ _ _ _ E).
Qed.

Lemma chunk_grows self obj n text sealed :
  encrypt_chunk self obj n text = Ok sealed -> length sealed = (length text + tag_len)%nat.
Proof.
  unfold encrypt_chunk. do 2 (destruct (negb _); [done|]).
  destruct (seal_in_place_append_tag _ _ _ text) as [s|] eqn:E; [|done]. intros [= ->].
  by apply sealed_length in E.
Qed.

Lemma token_opens self nonce_bytes token encoded :
  (forall b, base64_decode (base64_encode b) = Some b) -> (forall s, from_utf8 (as_bytes s) = Some s) ->
  encrypt_share_token self nonce_bytes token = Ok encoded -> decrypt_share_token self encoded = Ok token.
Proof.
  intros Hb Hu. unfold encrypt_share_token, decrypt_share_token.
  destruct (negb (length (share_key self) =? 32)%nat); [done|]. destruct nonce_bytes as [nb|]; [|done].
  destruct (Nat.eqb_spec (length nb) 12) as [Hn|]; [|done]. cbn [negb].
  destruct (seal_in_place_append_tag _ _ _ _) as [s|] eqn:E; [|done]. intros [= <-]. rewrite Hb.
  assert (length s = (length (as_bytes token) + tag_len)%nat) as Hl by exact (sealed_length _ _ _ _ _ E).
  replace (length (nb ++ s) <? 12 + tag_len)%nat with false by (symmetry; apply Nat.ltb_ge; rewrite length_app; lia).
  rewrite take_app_length', drop_app_length' by done. rewrite (open_sealed _ _ _ _ _ E). by rewrite Hu.
Qed.
End Encryption.
