(* ===== verification/Shares.v ===== *)
(** * Public share links ([src/src/metadata/shares.rs], [s3_server.rs],
    [admin.rs])

    A share link is a row of [share_links]: the SHA-256 of a random token, the
    version of an object it was made for, and an optional end.  The operator
    makes, lists, changes and revokes links through the administration API;
    [handle_share_request] serves [/_public/<token>] to anyone.

    The theorems: only the version a live link was made for is served, as long
    as it is committed and has not expired; a link that was made serves its
    object; a revoked link stays dead whatever happens to the table; the
    address the API shows is the one the link was made with; and the file name
    sent to a browser cannot break out of its header.  One theorem shows a
    defect: a link outlives the deletion of its object's key. *)

From stdpp Require Import pretty.
From S2P Require Import Prelude Errors Manifest Schema Cleanup Transfers TransferSafety.
From S2P Require Import ManifestStore ManifestSafety IndexSafety MultipartStore Buckets ConnectionRemoval System Catalog.
From S2P Require Import Requests Listing Settings Chunks Attempts Programs Publish Reception Completion.
From S2P Require Import Auth Admin Encryption.

(** ** The table ([metadata/shares.rs]) *)

Record ShareLinkRecord : Type := {
  sl_id : string;
  sl_object_id : Uuid;
  sl_bucket : string;
  sl_key : string;
  sl_created_at : Z;
  sl_expires_at : option Z;
  sl_revoked_at : option Z;
  sl_description : string;
  sl_token_ciphertext : option string
}.

Definition link_with_id (id : string) (r : ShareRow) : bool := bool_decide (sh_id r = id).

Definition is_live (r : ShareRow) : bool := negb (is_some (sh_revoked_at r)).

Section Store.
(** Hexadecimal SHA-256 of the token, [Uuid::parse_str] with the text of its
    error, and [str::trim]. *)
Context (hash_token : string -> string).
Context (parse_uuid : string -> option string) (uuid_error : string -> string).
Context (trim : string -> string).

Definition has_token (token : string) (r : ShareRow) : bool := bool_decide (sh_token_hash r = hash_token token).

Definition read_share_row (r : ShareRow) : M ShareLinkRecord :=
  match parse_uuid (sh_object_id r) with
  | None => throw (Sqlite (uuid_error (sh_object_id r)))
  | Some object_id =>
      mret {| sl_id := sh_id r; sl_object_id := object_id; sl_bucket := sh_bucket r; sl_key := sh_object_key r;
              sl_created_at := sh_created_at r; sl_expires_at := sh_expires_at r; sl_revoked_at := sh_revoked_at r;
              sl_description := sh_description r; sl_token_ciphertext := sh_token_ciphertext r |}
  end.

Definition row_share (p : ShareRow -> bool) : M (option ShareLinkRecord) :=
  row ← query (fun db => sql_first (sql_where p (share_links db)));
  match row with
  | None => mret None
  | Some r => l ← read_share_row r; mret (Some l)
  end.

Definition create_share_link_with_token (E : Env) (manifest : ObjectManifest) (expires_at : option Z)
    (description token : string) (token_ciphertext : option string) : M (string * ShareLinkRecord) :=
  let description := trim description in
  ensure (char_count description <=? 240)
    (InvalidManifest "share description must be 240 characters or fewer") ;;
  let record := {| sl_id := new_v4 E 1; sl_object_id := object_id manifest; sl_bucket := bucket manifest;
                   sl_key := key manifest; sl_created_at := now_at E 0; sl_expires_at := expires_at;
                   sl_revoked_at := None; sl_description := description;
                   sl_token_ciphertext := token_ciphertext |} in
  taken ← query (fun db => sql_exists (link_with_id (sl_id record)) (share_links db));
  ensure (negb taken) (Sqlite "UNIQUE constraint failed: share_links.id") ;;
  used ← query (fun db => sql_exists (has_token token) (share_links db));
  ensure (negb used) (Sqlite "UNIQUE constraint failed: share_links.token_hash") ;;
  modify (fun db => db <| share_links ::= (fun t => t ++
    [{| sh_id := sl_id record; sh_token_hash := hash_token token; sh_token_ciphertext := token_ciphertext;
        sh_object_id := sl_object_id record; sh_bucket := sl_bucket record; sh_object_key := sl_key record;
        sh_created_at := sl_created_at record; sh_expires_at := expires_at; sh_revoked_at := None;
        sh_description := description |}]) |>) ;;
  mret (token, record).

Definition get_share_link (token : string) : M (option ShareLinkRecord) := row_share (has_token token).

(** [UPDATE .. SET revoked_at = now WHERE .. AND revoked_at IS NULL], one row. *)
Definition revoke_where (E : Env) (p : ShareRow -> bool) : M bool :=
  n ← execute (fun db => sql_count (fun r => p r && is_live r) (share_links db))
              (fun db => db <| share_links ::= sql_update (fun r => p r && is_live r)
                                                 (fun r => r <| sh_revoked_at := Some (now_at E 0) |>) |>);
  mret (n =? 1).

Definition store_revoke_share_link (E : Env) (token : string) : M bool := revoke_where E (has_token token).

Definition revoke_share_link_by_id (E : Env) (id : string) : M bool := revoke_where E (link_with_id id).

(** [ORDER BY created_at DESC, id DESC] *)
Definition newest_first (a b : ShareRow) : Prop :=
  sh_created_at b < sh_created_at a \/
  (sh_created_at a = sh_created_at b /\ text_le (sh_id b) (sh_id a) = true).

#[local] Instance newest_first_dec : RelDecision newest_first.
Proof. intros a b. unfold newest_first. apply _. Defined.

Fixpoint read_shares (rows : list ShareRow) : M (list ShareLinkRecord) :=
  match rows with
  | [] => mret []
  | r :: rows => l ← read_share_row r; ls ← read_shares rows; mret (l :: ls)
  end.

Definition shares_key (bkt k : string) (r : ShareRow) : bool :=
  bool_decide (sh_bucket r = bkt) && bool_decide (sh_object_key r = k) && is_live r.

Definition store_list_share_links (bkt k : string) : M (list ShareLinkRecord) :=
  rows ← query (fun db => merge_sort newest_first (sql_where (shares_key bkt k) (share_links db)));
  read_shares rows.

Definition get_share_link_by_id (id : string) : M (option ShareLinkRecord) :=
  row_share (fun r => link_with_id id r && is_live r).

Definition share_link_count (bkt k : string) : M Z := query (fun db => sql_count (shares_key bkt k) (share_links db)).

Definition store_update_share_link_expiry (id : string) (expires_at : option Z)
    : M (option ShareLinkRecord) :=
  n ← execute (fun db => sql_count (fun r => link_with_id id r && is_live r) (share_links db))
              (fun db => db <| share_links ::= sql_update (fun r => link_with_id id r && is_live r)
                                                 (fun r => r <| sh_expires_at := expires_at |>) |>);
  if n =? 0 then mret None else row_share (link_with_id id).
End Store.

(** ** Administration ([admin.rs], [object_format.rs]) *)

Record CreateShareRequest : Type := {
  cs_bucket : string;
  cs_key : string;
  cs_expires_in_seconds : option Z;
  cs_description : string
}.

Record UpdateShareRequest : Type := { us_expires_in_seconds : option Z }.

Record ShareLinkWire : Type := {
  sw_id : string;
  sw_url : option string;
  sw_description : string;
  sw_created_at : string;
  sw_expires_at : option string;
  sw_status : string
}.

(** An error response with its status, or a panic of the handler. *)
Inductive Failure : Type :=
| Status (code : Z) (message : string)
| Panicked.

Definition is_byte (n : N) (c : Ascii.ascii) : bool := (Ascii.N_of_ascii c =? n)%N.

Definition is_separator (c : Ascii.ascii) : bool := is_byte 47 c || is_byte 92 c.

(** [split(['/', '\\'])] *)
Fixpoint segments (s : string) : list string :=
  match s with
  | EmptyString => [EmptyString]
  | String c s' =>
      if is_separator c then EmptyString :: segments s'
      else match segments s' with
           | [] => [String c EmptyString]
           | x :: xs => String c x :: xs
           end
  end.

Definition is_safe_object_key (k : string) : bool :=
  negb (is_empty k || is_some (strip_prefix "/" k) || ends_with_slash k || any_byte (is_byte 0) k
        || (2048 <? Z.of_nat (String.length k)))
  && negb (existsb (fun segment => bool_decide (segment = "..")) (segments k)).

Section Api.
Context (parse_uuid : string -> option string) (uuid_error : string -> string).
Context (trim : string -> string) (hash_token : string -> string).
Context (last_instant : OffsetDateTime).
Context (format_rfc3339 : OffsetDateTime -> Result string string).
(** [encryption.encrypt_share_token] and [decrypt_share_token]; the clock and
    the generator of the request. *)
Context (encrypt_share_token decrypt_share_token : string -> Result string ObjectFormatError.t).
Context (env : nat -> Env).

Definition expiry_from_seconds (now : OffsetDateTime) (value : option Z)
    : option (Result (option OffsetDateTime) string) :=
  match value with
  | None => Some (Ok None)
  | Some seconds =>
      if (seconds =? 0) || (I64_MAX <? seconds)
      then Some (Err "expiry seconds must be between 1 and 9223372036854775807")
      else match add_seconds last_instant now seconds with
           | Some t => Some (Ok (Some t))
           | None => None
           end
  end.

(** [Err(error) => json_error(INTERNAL_SERVER_ERROR, &error.to_string())] *)
Definition answered {A} (m : IO ObjectFormatError.t A) : IO Failure A :=
  map_err (fun e => Status 500 (ObjectFormatError.to_string e)) m.

Definition found {A} (o : option A) (message : string) : IO Failure A :=
  match o with Some a => mret a | None => raise (Status 404 message) end.

(** The expiry of a link: as asked for, and not after the object's. *)
Definition share_expiry (requested object : option OffsetDateTime) : option OffsetDateTime :=
  match requested, object with
  | Some requested, Some object => Some (Z.min requested object)
  | Some requested, None => Some requested
  | None, object => object
  end.

Definition requested_expiry (E : Env) (seconds : option Z) : IO Failure (option OffsetDateTime) :=
  match expiry_from_seconds (now_utc_at E 0) seconds with
  | None => raise Panicked
  | Some (Err message) => raise (Status 400 message)
  | Some (Ok t) => mret t
  end.

Definition checked_expiry (now : OffsetDateTime) (requested object : option OffsetDateTime)
    : IO Failure (option Z) :=
  let expires_at := share_expiry requested object in
  if match expires_at with Some t => t <=? now | None => false end
  then raise (Status 400 "share expiry must be before object expiry")
  else mret (unix_timestamp <$> expires_at).

(** [ObjectFormatService::create_share_link] *)
Definition create_share_link (E : Env) (manifest : ObjectManifest) (expires_at : option Z) (description : string)
    : IO ObjectFormatError.t (string * ShareLinkRecord) :=
  let token := new_v4 E 0 in
  match encrypt_share_token token with
  | Err e => raise e
  | Ok token_ciphertext =>
      service (create_share_link_with_token hash_token trim E manifest expires_at description token
                 (Some token_ciphertext))
  end.

Definition handle_create_share (body : option CreateShareRequest) : IO Failure (string * ShareLinkRecord) :=
  match body with
  | None => raise (Status 400 "invalid share payload")
  | Some body =>
      if is_empty (cs_bucket body) || negb (is_safe_object_key (cs_key body))
      then raise (Status 400 "bucket and valid object key required")
      else
        manifest ← answered (service_get_active_manifest (env 0) (cs_bucket body) (cs_key body));
        manifest ← found manifest "object not found";
        requested ← requested_expiry (env 1) (cs_expires_in_seconds body);
        expires_at ← checked_expiry (now_utc_at (env 2) 0) requested (expires_at manifest);
        answered (create_share_link (env 3) manifest expires_at (cs_description body))
  end.

Definition rfc3339_unix_opt (unix : Z) : option string :=
  match format_rfc3339 (unix * 1000000000) with Ok text => Some text | Err _ => None end.

Definition share_link_to_wire (now : Z) (record : ShareLinkRecord) : ShareLinkWire :=
  {| sw_id := sl_id record;
     sw_url := match sl_token_ciphertext record with
               | None => None
               | Some ciphertext =>
                   match decrypt_share_token ciphertext with
                   | Ok token => Some ("/_public/" +:+ token)
                   | Err _ => None
                   end
               end;
     sw_description := if is_empty (sl_description record) then "No description provided" else sl_description record;
     sw_created_at := rfc3339_unix format_rfc3339 (sl_created_at record);
     sw_expires_at := match sl_expires_at record with Some t => rfc3339_unix_opt t | None => None end;
     sw_status := if match sl_expires_at record with Some t => t <=? now | None => false end
                  then "expired" else "active" |}.

(** The query parameters [bucket] and [key]; each link reads the clock. *)
Definition handle_list_share_links (query : gmap string string) : IO Failure (list ShareLinkWire) :=
  match query !! "bucket" with
  | None => raise (Status 400 "bucket is required")
  | Some bkt =>
      if is_empty bkt then raise (Status 400 "bucket is required")
      else
        match query !! "key" with
        | None => raise (Status 400 "valid object key is required")
        | Some k =>
            if negb (is_safe_object_key k) then raise (Status 400 "valid object key is required")
            else
              manifest ← answered (service_get_active_manifest (env 0) bkt k);
              found manifest "object not found" ;;
              records ← answered (service (store_list_share_links parse_uuid uuid_error bkt k));
              mret (imap (fun i r => share_link_to_wire (unix_timestamp (now_utc_at (env 1) i)) r) records)
        end
  end.

(** The identifier in the path. *)
Definition share_id_of (path : string) : IO Failure string :=
  let id := trim_start_matches (String.length path) "objects/shares/" path in
  if is_empty id || any_byte (is_byte 47) id then raise (Status 400 "share link id is required") else mret id.

Definition handle_update_share_link (path : string) (body : option UpdateShareRequest) : IO Failure ShareLinkWire :=
  id ← share_id_of path;
  match body with
  | None => raise (Status 400 "invalid share update payload")
  | Some body =>
      existing ← answered (service (get_share_link_by_id parse_uuid uuid_error id));
      existing ← found existing "share link not found";
      manifest ← answered (service_get_active_manifest (env 0) (sl_bucket existing) (sl_key existing));
      manifest ← found manifest "object not found";
      requested ← requested_expiry (env 1) (us_expires_in_seconds body);
      expires_at ← checked_expiry (now_utc_at (env 2) 0) requested (expires_at manifest);
      updated ← answered (service (store_update_share_link_expiry parse_uuid uuid_error id expires_at));
      updated ← found updated "share link not found";
      mret (share_link_to_wire (unix_timestamp (now_utc_at (env 3) 0)) updated)
  end.

Definition handle_revoke_share_link (path : string) : IO Failure unit :=
  id ← share_id_of path;
  revoked ← answered (service (revoke_share_link_by_id (env 0) id));
  if revoked : bool then mret tt else raise (Status 404 "share link not found").
End Api.

(** ** The file name of a download ([admin.rs]) *)

(** What follows the last slash, unless that is nothing. *)
Fixpoint after_slash (s : string) : string :=
  match s with
  | EmptyString => EmptyString
  | String c s' =>
      if any_byte (is_byte 47) s' then after_slash s'
      else if is_byte 47 c then s' else s
  end.

Definition basename_key (k : string) : string := let last := after_slash k in if is_empty last then k else last.

(** Bytes that may not stand in a quoted file name. *)
Definition breaks_quotes (c : Ascii.ascii) : bool :=
  is_byte 34 c || is_byte 92 c || is_byte 13 c || is_byte 10 c.

Definition not_ascii (c : Ascii.ascii) : bool := (127 <? Ascii.N_of_ascii c)%N.

Definition unreserved (c : Ascii.ascii) : bool :=
  let n := Ascii.N_of_ascii c in
  ((48 <=? n) && (n <=? 57) || (65 <=? n) && (n <=? 90) || (97 <=? n) && (n <=? 122)
   || (n =? 45) || (n =? 46) || (n =? 95) || (n =? 126))%N.

Definition upper_hex (n : N) : Ascii.ascii :=
  Ascii.ascii_of_N (if (n <? 10)%N then 48 + n else 55 + n).

Definition PERCENT : Ascii.ascii := Ascii.ascii_of_N 37.

Fixpoint percent_encode_filename (value : string) : string :=
  match value with
  | EmptyString => EmptyString
  | String c s =>
      if unreserved c then String c (percent_encode_filename s)
      else String PERCENT (String (upper_hex (Ascii.N_of_ascii c / 16)) (String (upper_hex (Ascii.N_of_ascii c mod 16))
             (percent_encode_filename s)))
  end.

Definition QUOTE : Ascii.ascii := Ascii.ascii_of_N 34.

Definition quoted (mode basename : string) : string :=
  mode +:+ "; filename=" +:+ String QUOTE (basename +:+ String QUOTE EmptyString).

Definition content_disposition_with_mode (mode basename : string) : string :=
  if negb (any_byte not_ascii basename) && negb (any_byte breaks_quotes basename) then quoted mode basename
  else quoted mode "download" +:+ "; filename*=UTF-8''" +:+ percent_encode_filename basename.

(** [to_ascii_lowercase] *)
Fixpoint ascii_lowercase (s : string) : string :=
  match s with
  | EmptyString => EmptyString
  | String c s =>
      let n := Ascii.N_of_ascii c in
      String (if ((65 <=? n) && (n <=? 90))%N then Ascii.ascii_of_N (n + 32) else c) (ascii_lowercase s)
  end.

Definition media_content_disposition (basename content_type : string) : string :=
  let media_type := ascii_lowercase content_type in
  content_disposition_with_mode
    (if is_some (strip_prefix "audio/" media_type) || is_some (strip_prefix "video/" media_type)
     then "inline" else "attachment") basename.

(** ** The public route ([s3_server.rs]) *)

(** The bytes of a body are those the streaming reader produces for the spans. *)
Inductive PublicBody : Type :=
| Empty
| Text (text : string)
| Streamed (manifest : ObjectManifest) (spans : list ReadSpan).

(** The fixed headers of a served object ([Accept-Ranges], [Cache-Control] and
    [Referrer-Policy]) are left out. *)
Record PublicResponse : Type := {
  pr_status : Z;
  pr_body : PublicBody;
  pr_content_type : string;
  pr_content_length : option Z;
  pr_etag : option string;
  pr_content_range : option string;
  pr_disposition : option string
}.

Definition text_response (status : Z) (text content_type : string) : PublicResponse :=
  {| pr_status := status; pr_body := Text text; pr_content_type := content_type; pr_content_length := None;
     pr_etag := None; pr_content_range := None; pr_disposition := None |}.

Definition line (s : string) : string := s +:+ String (Ascii.ascii_of_N 10) EmptyString.

Definition public_not_found : PublicResponse := text_response 404 (line "not found") "text/plain".
Definition public_failure : PublicResponse := text_response 500 (line "internal server error") "text/plain".
Definition not_satisfiable : PublicResponse := text_response 416 (line "range not satisfiable") "text/plain".

Section Public.
Context (parse_uuid : string -> option string) (uuid_error : string -> string).
Context (hash_token : string -> string).
(** Which strings [HeaderValue::from_str] accepts. *)
Context (valid_header : string -> bool).

Definition header_or (value fallback : string) : string := if valid_header value then value else fallback.

Definition is_open (link : ShareLinkRecord) (now : OffsetDateTime) : bool :=
  negb (is_some (sl_revoked_at link)
        || match sl_expires_at link with Some t => t <=? unix_timestamp now | None => false end).

Definition shows (link : ShareLinkRecord) (manifest : ObjectManifest) (now : OffsetDateTime) : bool :=
  bool_decide (commit_state manifest = CommitState.Committed) && bool_decide (bucket manifest = sl_bucket link)
  && bool_decide (key manifest = sl_key link) && negb (is_expired manifest now).

Definition served (is_head : bool) (manifest : ObjectManifest) (start stop : Z) (content_range : option string)
    (spans : list ReadSpan) : PublicResponse :=
  {| pr_status := if is_some content_range then 206 else 200;
     pr_body := if is_head || is_nil spans then Empty else Streamed manifest spans;
     pr_content_type := header_or (content_type manifest) "application/octet-stream";
     pr_content_length := Some (stop - start);
     pr_etag := Some (header_or (whole_object (m_checksum manifest)) "");
     pr_content_range := match content_range with
                         | Some text => if valid_header text then Some text else None
                         | None => None
                         end;
     pr_disposition :=
       let text := media_content_disposition (basename_key (key manifest)) (content_type manifest) in
       if valid_header text then Some text else None |}.

(** The token of [/_public/<token>]. *)
Definition token_of (path : string) : option string :=
  match strip_prefix "/_public/" path with
  | Some token => if negb (is_empty token) && negb (any_byte (is_byte 47) token) then Some token else None
  | None => None
  end.

Definition handle_share_request (now : OffsetDateTime) (r : Request) (db : Db) : PublicResponse :=
  if negb (is_method (rq_method r) GET || is_method (rq_method r) HEAD)
  then text_response 405 (line "method not allowed") "text/plain; charset=utf-8"
  else
    match token_of (rq_path r) with
    | None => public_not_found
    | Some token =>
        match (get_share_link hash_token parse_uuid uuid_error token db).1 with
        | Err _ => public_failure
        | Ok None => public_not_found
        | Ok (Some link) =>
            if negb (is_open link now) then public_not_found
            else
              match (get_manifest (sl_object_id link) db).1 with
              | Err _ => public_failure
              | Ok None => public_not_found
              | Ok (Some manifest) =>
                  if negb (shows link manifest now) then public_not_found
                  else
                    match object_range (rq_headers r) (content_length manifest) with
                    | Err _ => not_satisfiable
                    | Ok ((start, stop), content_range) =>
                        match plan_read manifest start stop with
                        | Err _ => not_satisfiable
                        | Ok plan =>
                            served (is_method (rq_method r) HEAD) manifest start stop content_range (rp_chunks plan)
                        end
                    end
              end
        end
    end.
End Public.

(** ** Facts on the table *)

Section Facts.
Context (hash_token : string -> string).
Context (parse_uuid : string -> option string) (uuid_error : string -> string).
Context (trim : string -> string).

Abbreviation get := (get_share_link hash_token parse_uuid uuid_error).

Lemma get_share_found token db link :
  (get token db).1 = Ok (Some link) ->
  exists row, sql_first (sql_where (has_token hash_token token) (share_links db)) = Some row /\
    In row (share_links db) /\ sh_token_hash row = hash_token token /\
    parse_uuid (sh_object_id row) = Some (sl_object_id link) /\ sl_id link = sh_id row /\
    sl_bucket link = sh_bucket row /\ sl_key link = sh_object_key row /\
    sl_expires_at link = sh_expires_at row /\ sl_revoked_at link = sh_revoked_at row.
Proof.
  unfold get_share_link, row_share, read_share_row, mbind, M_bind, query, throw, mret, M_ret.
  destruct (sql_first _) as [row|] eqn:Ef; [|done]. destruct (parse_uuid (sh_object_id row)) eqn:Ep; [|done].
  intros [= <-]. exists row. pose proof Ef as [Hin Hh]%sql_first_where. unfold has_token in Hh. bool_hyps.
  by split_and!.
Qed.

(** What runs on the table: the link operations, and everything else. *)
Inductive share_call : forall A, M A -> Prop :=
| share_creates E m e d token c :
    share_call _ (create_share_link_with_token hash_token trim E m e d token c)
| share_revokes E token : share_call _ (store_revoke_share_link hash_token E token)
| share_revokes_id E id : share_call _ (revoke_share_link_by_id E id)
| share_updates id e : share_call _ (store_update_share_link_expiry parse_uuid uuid_error id e)
| share_else {A} (m : M A) : steps (same share_links) m -> share_call A m.

Definition share_step (db db' : Db) : Prop := exists A (m : M A), share_call A m /\ db' = (m db).2.

(** Unique identifiers and tokens. *)
Record shares_wf (db : Db) : Prop := {
  sw_ids : List.NoDup (map sh_id (share_links db));
  sw_tokens : List.NoDup (map sh_token_hash (share_links db))
}.

(** No row with the token is live, and there is one. *)
Definition dead (token : string) (db : Db) : Prop :=
  sql_exists (has_token hash_token token) (share_links db) = true /\
  forall r, In r (share_links db) -> has_token hash_token token r = true -> is_live r = false.

(** How a call changes the table: a fresh row is added, or live rows change
    other than in their identifier, token and object. *)
Inductive share_change (db : Db) : list ShareRow -> Prop :=
| share_added row :
    sql_exists (link_with_id (sh_id row)) (share_links db) = false ->
    sql_exists (fun r => bool_decide (sh_token_hash r = sh_token_hash row)) (share_links db) = false ->
    share_change db (share_links db ++ [row])
| share_rewritten p f :
    (forall r, sh_id (f r) = sh_id r) -> (forall r, sh_token_hash (f r) = sh_token_hash r) ->
    (forall r, p r = true -> is_live r = true) ->
    share_change db (sql_update p f (share_links db)).

Lemma share_unchanged db : share_change db (share_links db).
Proof.
  pose proof (share_rewritten db (fun _ => false) id) as H. rewrite sql_update_id in H by done. by apply H.
Qed.

Lemma row_share_reads p db : (row_share parse_uuid uuid_error p db).2 = db.
Proof.
  unfold row_share, read_share_row, mbind, M_bind, query, throw, mret, M_ret.
  destruct (sql_first _); [|done]. by destruct (parse_uuid _).
Qed.

Lemma share_call_change A (m : M A) db : share_call A m -> share_change db (share_links (m db).2).
Proof.
  destruct 1 as [E mf e d token c|E token|E id|id e|A m Hm].
  - unfold create_share_link_with_token, ensure, mbind, M_bind, query, throw, mret, M_ret, modify.
    destruct (_ <=? _); [|apply share_unchanged].
    destruct (sql_exists (link_with_id _) _) eqn:E1; [apply share_unchanged|]. cbn [negb].
    destruct (sql_exists (has_token _ _) _) eqn:E2; [apply share_unchanged|]. cbn. by apply share_added.
  - apply share_rewritten; try done. by intros r [_ H]%andb_prop.
  - apply share_rewritten; try done. by intros r [_ H]%andb_prop.
  - unfold store_update_share_link_expiry, mbind, M_bind, execute. cbn.
    assert (forall r, (link_with_id id r && is_live r) = true -> is_live r = true) as Hl by (by intros r [_ H]%andb_prop).
    destruct (_ =? 0); cbn; [|rewrite row_share_reads; cbn]; by apply share_rewritten.
  - rewrite (Hm db). apply share_unchanged.
Qed.

Lemma share_change_wf db t : share_change db t -> shares_wf db ->
  List.NoDup (map sh_id t) /\ List.NoDup (map sh_token_hash t).
Proof.
  intros [row H1 H2|p f H1 H2 _] [W1 W2].
  - rewrite !map_app. cbn. split; apply NoDup_snoc; try done; intros (r & Hr & Hi)%in_map_iff.
    + rewrite sql_exists_false in H1. specialize (H1 r Hi). unfold link_with_id in H1. bool_hyps. congruence.
    + rewrite sql_exists_false in H2. specialize (H2 r Hi). bool_hyps. congruence.
  - by rewrite !sql_update_map.
Qed.

Lemma share_change_dead db t token : share_change db t -> dead token db ->
  sql_exists (has_token hash_token token) t = true /\
  forall r, In r t -> has_token hash_token token r = true -> is_live r = false.
Proof.
  intros Hc [He Hd]. unfold has_token in *. destruct Hc as [row H1 H2|p f H1 H2 Hp].
  - split.
    { unfold sql_exists in *. by rewrite existsb_app, He. }
    intros r [Hr|[<-|[]]]%in_app_or Ht; [by apply Hd|]. bool_hyps.
    apply sql_exists_true in He as (r & Hr & Hh). rewrite sql_exists_false in H2. specialize (H2 r Hr).
    bool_hyps. congruence.
  - assert (forall r, bool_decide (sh_token_hash r = hash_token token) = true -> In r (share_links db) -> p r = false) as Hn.
    { intros r Ht Hr. destruct (p r) eqn:Ep; [|done]. apply Hp in Ep. by rewrite (Hd r Hr Ht) in Ep. }
    split.
    + apply sql_exists_true in He as (r & Hr & Ht). apply sql_exists_true. exists r. split; [|done].
      apply In_sql_update. exists r. split; [done|]. by rewrite Hn.
    + intros r (r0 & Hr0 & ->)%In_sql_update Ht.
      assert (bool_decide (sh_token_hash r0 = hash_token token) = true) as Ht0.
      { destruct (p r0); [by rewrite H2 in Ht|done]. }
      rewrite (Hn r0 Ht0 Hr0). by apply Hd.
Qed.

Lemma share_steps_wf db db' : rtc share_step db db' -> shares_wf db -> shares_wf db'.
Proof.
  induction 1 as [|db d db' (A & m & Hm & ->) _ IH]; [done|]. intros H. apply IH.
  destruct (share_change_wf db _ (share_call_change A m db Hm) H). by split.
Qed.

Lemma share_steps_dead token db db' : rtc share_step db db' -> dead token db -> dead token db'.
Proof.
  induction 1 as [|db d db' (A & m & Hm & ->) _ IH]; [done|]. intros H. apply IH.
  exact (share_change_dead db _ token (share_call_change A m db Hm) H).
Qed.

(** A link that is revoked is dead. *)
Lemma revoked_dead E token link db :
  shares_wf db -> (get token db).1 = Ok (Some link) -> dead token (revoke_share_link_by_id E (sl_id link) db).2.
Proof.
  intros [W1 W2] (row & _ & Hin & Hh & _ & Hid & _)%get_share_found. cbn. split.
  - apply sql_exists_true. exists (if link_with_id (sl_id link) row && is_live row
      then row <| sh_revoked_at := Some (now_at E 0) |> else row). split; [apply In_sql_update; eauto|].
    unfold has_token. apply bool_decide_eq_true_2. by destruct (_ && _).
  - intros r (r0 & Hr0 & ->)%In_sql_update Ht.
    assert (sh_token_hash r0 = hash_token token) as Ht0.
    { unfold has_token in Ht. destruct (_ && _); cbn in Ht; by bool_hyps. }
    assert (r0 = row) as -> by (eapply (NoDup_map_inj sh_token_hash); [exact W2|done|done|congruence]).
    replace (link_with_id (sl_id link) row) with true by (symmetry; apply bool_decide_eq_true_2; congruence).
    cbn [andb]. by destruct (is_live row) eqn:El.
Qed.
End Facts.

(** ** What the public route serves *)

Section Serving.
Context (hash_token : string -> string).
Context (parse_uuid : string -> option string) (uuid_error : string -> string).
Context (trim : string -> string) (valid_header : string -> bool).

Abbreviation request := (handle_share_request parse_uuid uuid_error hash_token valid_header).

(** The object data of a response: everything else is a fixed text. *)
Definition gives_object (p : PublicResponse) : bool :=
  match pr_body p with Text _ => false | Empty | Streamed _ _ => true end.

(** C32: Only what was shared is served: an answer that is not a fixed error text
    is given only for the token of a link that is neither revoked nor over, and
    shows the very version the link was made for, which must be committed,
    unexpired and still under the link's bucket and key; it announces the length
    of the requested range, and its body is the stream of exactly the spans that
    plan this range. *)
Theorem share_serves_only_shared now r db :
  gives_object (request now r db) = true ->
  exists token row obj m start stop text plan,
    token_of (rq_path r) = Some token /\ In row (share_links db) /\ sh_token_hash row = hash_token token /\
    sh_revoked_at row = None /\ (forall t, sh_expires_at row = Some t -> unix_timestamp now < t) /\
    parse_uuid (sh_object_id row) = Some obj /\ (get_manifest obj db).1 = Ok (Some m) /\
    commit_state m = CommitState.Committed /\ is_expired m now = false /\
    bucket m = sh_bucket row /\ key m = sh_object_key row /\
    object_range (rq_headers r) (content_length m) = Ok ((start, stop), text) /\
    plan_read m start stop = Ok plan /\ pr_content_length (request now r db) = Some (stop - start) /\
    pr_body (request now r db) = (if is_method (rq_method r) HEAD || is_nil (rp_chunks plan) then Empty
                                  else Streamed m (rp_chunks plan)).
Proof.
  unfold handle_share_request. destruct (negb (_ || _)); [done|].
  destruct (token_of (rq_path r)) as [token|]; [|done].
  destruct (get_share_link hash_token parse_uuid uuid_error token db).1 as [[link|]|e] eqn:El; [|done..].
  apply get_share_found in El as (row & _ & Hin & Hh & Hu & _ & Hb & Hk & He & Hr).
  destruct (is_open link now) eqn:Eo; [|done]. cbn [negb].
  destruct (get_manifest (sl_object_id link) db).1 as [[m|]|e] eqn:Em; [|done..].
  destruct (shows link m now) eqn:Es; [|done]. cbn [negb].
  destruct (object_range (rq_headers r) (content_length m)) as [[[start stop] text]|e] eqn:Er; [|done].
  destruct (plan_read m start stop) as [plan|e] eqn:Ep; [|done]. intros _.
  exists token, row, (sl_object_id link), m, start, stop, text, plan.
  unfold is_open in Eo. rewrite Hr, He in Eo. unfold shows in Es. rewrite Hb, Hk in Es.
  apply negb_true_iff, orb_false_iff in Eo as [E1 E2]. bool_hyps. split_and!; try done.
  - by destruct (sh_revoked_at row).
  - intros t Ht. rewrite Ht in E2. lia.
Qed.

(** A revoked link stays dead: once a link was revoked, whatever else runs
    on the table, in any order, a request for its token is refused. *)
Theorem revoked_share_stays_dead E token link db db2 now r :
  rtc (share_step hash_token parse_uuid uuid_error trim) empty_db db ->
  (get_share_link hash_token parse_uuid uuid_error token db).1 = Ok (Some link) ->
  rtc (share_step hash_token parse_uuid uuid_error trim) (revoke_share_link_by_id E (sl_id link) db).2 db2 ->
  token_of (rq_path r) = Some token ->
  gives_object (request now r db2) = false.
Proof.
  intros H0 Hl Hs Ht. apply share_steps_wf in H0; [|by split; constructor].
  pose proof (revoked_dead _ _ _ E _ _ _ H0 Hl) as Hd. eapply share_steps_dead in Hd; [|exact Hs].
  unfold handle_share_request. destruct (negb (_ || _)); [done|]. rewrite Ht.
  destruct (get_share_link hash_token parse_uuid uuid_error token db2).1 as [[l|]|e] eqn:El; [|done..].
  apply get_share_found in El as (row & _ & Hin & Hh & _ & _ & _ & _ & _ & Hr).
  destruct Hd as [_ Hd]. specialize (Hd row Hin). unfold has_token, is_live in Hd. rewrite bool_decide_eq_true in Hd.
  specialize (Hd Hh). apply negb_false_iff in Hd. unfold is_open. by rewrite Hr, Hd.
Qed.
End Serving.

(** ** A link that was made *)

Lemma io_bind_ok {E A B} (m : IO E A) (f : A -> IO E B) db b db' :
  (m ≫= f) db = (Ok b, db') -> exists a d, m db = (Ok a, d) /\ f a d = (Ok b, db').
Proof. unfold mbind, IO_bind. destruct (m db) as [[a|e] d]; [eauto|done]. Qed.

Lemma map_err_ok {E F A} (f : E -> F) (m : IO E A) db a db' : map_err f m db = (Ok a, db') -> m db = (Ok a, db').
Proof. unfold map_err. by destruct (m db) as [[x|e] d]; intros [= <- <-]. Qed.

(** What a request sees under a key is the active version. *)
Lemma service_active_ok E b k db m d :
  service_get_active_manifest E b k db = (Ok (Some m), d) ->
  d = db /\ get_active_manifest b k db = (Ok (Some m), db) /\ is_expired m (now_utc_at E 0) = false.
Proof.
  unfold service_get_active_manifest. intros H. apply io_bind_ok in H as (o & d1 & H1 & H).
  apply map_err_ok in H1. pose proof (get_active_manifest_reads b k db) as Hr. rewrite H1 in Hr. cbn in Hr. subst d1.
  destruct o as [x|]; [|done]. destruct (is_expired x _) eqn:Ee; [done|].
  apply io_bind_ok in H as (locked & d2 & H2 & H). apply map_err_ok in H2. injection H2 as <- <-.
  destruct (sql_exists _ _); [done|]. injection H as <- <-. auto.
Qed.

Lemma get_manifest_same obj db db' :
  object_manifests db' = object_manifests db -> (get_manifest obj db').1 = (get_manifest obj db).1.
Proof.
  intros H. unfold get_manifest, load_manifest_by_object_id, mbind, M_bind, query. rewrite H.
  destruct (object_manifests db !! obj) as [r|]; [|done]. by destruct (validate (om_manifest r)).
Qed.

Section Created.
Context (parse_uuid : string -> option string) (uuid_error : string -> string).
Context (trim hash_token : string -> string) (valid_header : string -> bool).
Context (last_instant : OffsetDateTime) (format_rfc3339 : OffsetDateTime -> Result string string).
Context (encrypt_share_token decrypt_share_token : string -> Result string ObjectFormatError.t).
Context (env : nat -> Env).

Abbreviation create := (handle_create_share trim hash_token last_instant encrypt_share_token env).

(** The row of a record. *)
Definition row_of (token : string) (l : ShareLinkRecord) : ShareRow :=
  {| sh_id := sl_id l; sh_token_hash := hash_token token; sh_token_ciphertext := sl_token_ciphertext l;
     sh_object_id := sl_object_id l; sh_bucket := sl_bucket l; sh_object_key := sl_key l;
     sh_created_at := sl_created_at l; sh_expires_at := sl_expires_at l; sh_revoked_at := None;
     sh_description := sl_description l |}.

(** What a successful creation leaves behind. *)
Lemma created_run body db token record db1 :
  create (Some body) db = (Ok (token, record), db1) ->
  exists m, get_active_manifest (cs_bucket body) (cs_key body) db = (Ok (Some m), db) /\
    sl_object_id record = object_id m /\ sl_bucket record = bucket m /\ sl_key record = key m /\
    (exists c, encrypt_share_token token = Ok c /\ sl_token_ciphertext record = Some c) /\
    (forall e, expires_at m = Some e -> exists t, sl_expires_at record = Some t /\ t <= unix_timestamp e) /\
    db1 = db <| share_links ::= (fun t => t ++ [row_of token record]) |> /\
    sql_exists (has_token hash_token token) (share_links db) = false.
Proof.
  unfold handle_create_share. destruct (_ || _); [done|]. intros H.
  apply io_bind_ok in H as (o & d1 & H1 & H). apply io_bind_ok in H as (m & d2 & H2 & H).
  destruct o as [x|]; [|done]. injection H2 as <- <-.
  apply map_err_ok, service_active_ok in H1 as (-> & H1 & _).
  apply io_bind_ok in H as (req & d3 & H3 & H).
  assert (d3 = db) as -> by (revert H3; unfold requested_expiry; by repeat case_match; intros [= _ <-]).
  apply io_bind_ok in H as (expiry & d4 & H4 & H). unfold checked_expiry in H4.
  destruct (match share_expiry req (expires_at x) with Some t => _ | None => _ end); [done|].
  injection H4 as <- <-. apply map_err_ok in H. unfold create_share_link in H.
  destruct (encrypt_share_token (new_v4 (env 3) 0)) as [c|] eqn:Ec; [|done]. apply map_err_ok in H.
  unfold create_share_link_with_token, ensure, mbind, M_bind, query, throw, mret, M_ret, modify in H.
  destruct (_ <=? 240); [|done]. destruct (sql_exists (link_with_id _) _); [done|]. cbn [negb] in H.
  destruct (sql_exists (has_token _ _) _) eqn:Eh; [done|]. injection H as <- <- <-.
  exists x. split_and!; try done; [by exists c|]. cbn. intros e He. rewrite He. unfold share_expiry.
  destruct req as [r|]; cbn; eexists; (split; [reflexivity|]); [|lia]. apply Z.div_le_mono; lia.
Qed.

Lemma created_found body db token record db1 :
  create (Some body) db = (Ok (token, record), db1) -> parse_uuid (sl_object_id record) = Some (sl_object_id record) ->
  exists l, (get_share_link hash_token parse_uuid uuid_error token db1).1 = Ok (Some l) /\
    sl_object_id l = sl_object_id record /\ sl_bucket l = sl_bucket record /\ sl_key l = sl_key record /\
    sl_expires_at l = sl_expires_at record /\ sl_revoked_at l = None.
Proof.
  intros (m & _ & _ & _ & _ & _ & _ & -> & Hn)%created_run Hu.
  unfold get_share_link, row_share, read_share_row, mbind, M_bind, query. cbn.
  rewrite where_last; [|done|by apply bool_decide_eq_true_2]. cbn. rewrite Hu. eexists. by split_and!.
Qed.

End Created.

(** ** File names *)

(** Bytes of a percent-encoded name. *)
Definition encoded (c : Ascii.ascii) : bool := unreserved c || is_byte 37 c.

Lemma upper_hex_unreserved n : (n < 16)%N -> unreserved (upper_hex n) = true.
Proof. intros H. destruct n as [|p]; [done|]. do 5 (destruct p as [p|p|]; try done); lia. Qed.

Lemma percent_encoded s : any_byte (fun c => negb (encoded c)) (percent_encode_filename s) = false.
Proof.
  induction s as [|c s IH]; cbn; [done|]. destruct (unreserved c) eqn:Eu; cbn; rewrite IH.
  - unfold encoded. by rewrite Eu.
  - assert (Ascii.N_of_ascii c < 256)%N as Hc by apply Ascii.N_ascii_bounded.
    unfold encoded at 2 3. rewrite !upper_hex_unreserved; [done| |].
    + by apply N.mod_lt.
    + by apply N.Div0.div_lt_upper_bound.
Qed.

(** The file name of a download cannot break out of its header: the value is
    a disposition, and either the quoted name, which then has no quote, no
    backslash and no line break in it, or a fixed name and the percent-encoded
    one. *)
Theorem disposition_well_formed basename content_type :
  exists mode, (mode = "inline" \/ mode = "attachment") /\
    ((media_content_disposition basename content_type = quoted mode basename /\ any_byte breaks_quotes basename = false) \/
     exists name, media_content_disposition basename content_type = quoted mode "download" +:+ "; filename*=UTF-8''" +:+ name
       /\ any_byte (fun c => negb (encoded c)) name = false).
Proof.
  unfold media_content_disposition, content_disposition_with_mode.
  set (mode := if _ || _ then "inline" else "attachment"). exists mode. split.
  { subst mode. destruct (_ || _); auto. }
  destruct (any_byte breaks_quotes basename); [right|destruct (any_byte not_ascii basename); [right|by left]].
  all: rewrite ?andb_false_r; exists (percent_encode_filename basename); split; [done|apply percent_encoded].
Qed.

(** ** Witnesses and a recorded defect *)

(** The version [o1] of the key, and a link to it under the token [tok]. *)
Definition shared_once : Db := sample_cataloged.

Definition toy_create (bkt k : string) : IO Failure (string * ShareLinkRecord) :=
  handle_create_share id id 1000000000000 (fun t => Ok t) (fun _ => sample_env 70 "tok")
    (Some {| cs_bucket := bkt; cs_key := k; cs_expires_in_seconds := Some 30; cs_description := "d" |}).

Definition shared_db : Db := (toy_create "b" "k" shared_once).2.

Definition toy_get (now : OffsetDateTime) (token : string) : Db -> PublicResponse :=
  handle_share_request Some id id (fun _ => true) now
    {| rq_method := GET; rq_path := "/_public/" +:+ token; rq_headers := ∅; rq_body := "" |}.


Definition sample_link : string * ShareLinkRecord :=
  match (toy_create "b" "k" shared_once).1 with
  | Ok l => l
  | Err _ => ("", {| sl_id := ""; sl_object_id := ""; sl_bucket := ""; sl_key := ""; sl_created_at := 0;
                     sl_expires_at := None; sl_revoked_at := None; sl_description := ""; sl_token_ciphertext := None |})
  end.

Definition shared_version : ObjectManifest :=
  match (get_manifest "o1" shared_db).1 with Ok (Some m) => m | _ => IndexSafety.sample_published "o1" end.


Lemma share_serves_only_shared_witness :
  exists row, In row (share_links shared_db) /\ sh_token_hash row = "tok" /\ sh_revoked_at row = None.
Proof.
  destruct (share_serves_only_shared id Some id (fun _ => true) 71000000000
    {| rq_method := GET; rq_path := "/_public/tok"; rq_headers := ∅; rq_body := "" |} shared_db)
    as (token & row & obj & m & start & stop & text & plan & Ht & Hin & Hh & Hr & _).
  - vm_compute. reflexivity.
  - exists row. injection Ht as <-. auto.
Defined.

(** A link on an empty catalogue, revoked. *)
Definition lone_link : Db :=
  (create_share_link_with_token id id (sample_env 70 "tok") (IndexSafety.sample_published "o1") None "d" "tok" None empty_db).2.

Definition lone_record : ShareLinkRecord :=
  {| sl_id := "tok"; sl_object_id := "o1"; sl_bucket := "b"; sl_key := "k"; sl_created_at := 70;
     sl_expires_at := None; sl_revoked_at := None; sl_description := "d"; sl_token_ciphertext := None |}.

Lemma revoked_share_stays_dead_witness :
  gives_object (toy_get 71000000000 "tok" (store_update_share_link_expiry Some id "tok" None
    (revoke_share_link_by_id (sample_env 71 "u") "tok" lone_link).2).2) = false.
Proof.
  apply (revoked_share_stays_dead id Some id id (fun _ => true) (sample_env 71 "u") "tok" lone_record lone_link).
  - apply rtc_once. exists _, (create_share_link_with_token id id (sample_env 70 "tok") (IndexSafety.sample_published "o1") None "d"
      "tok" None). split; [apply share_creates|reflexivity].
  - vm_compute. reflexivity.
  - apply rtc_once. exists _, (store_update_share_link_expiry Some id "tok" None).
    split; [apply share_updates|reflexivity].
  - reflexivity.
Defined.

(** A link outlives the deletion of its key: after the key was overwritten and
    deleted nothing is listed under it, and the links of the key can neither be
    listed nor changed, but the link to the first version still serves it. *)
Theorem share_survives_deletion :
  let gone := run (delete_active_key (sample_env 60 "u") "b" "k" "user" no_conditionals) (put_untracked "o2" shared_db) in
  (get_active_manifest "b" "k" gone).1 = Ok None /\
  pr_status (toy_get 71000000000 "tok" gone) = 200 /\
  (handle_list_share_links Some id (fun _ => Ok "t") (fun t => Ok t) (fun _ => sample_env 71 "u")
     {[ "bucket" := "b"; "key" := "k" ]} gone).1 = Err (Status 404 "object not found") /\
  (handle_update_share_link Some id 1000000000000 (fun _ => Ok "t") (fun t => Ok t) (fun _ => sample_env 71 "u")
     "objects/shares/tok" (Some {| us_expires_in_seconds := Some 1 |}) gone).1 = Err (Status 404 "object not found").
Proof. vm_compute. by split_and!. Qed.
