(* ===== verification/S3Api.v ===== *)
(** * The S3 object and multipart handlers ([src/src/s3_server.rs],
    [src/src/object_format.rs])

    The handlers of the S3 protocol as tasks: each makes calls of the service
    and ends with an answer, an S3 error, a panic, or the end of the time the
    server gives it ([wait_transfer] polls as often as its fuel says).  The
    decoding of requests and the encoding of answers belong to the [s3s] crate
    and are left out.  The body of an answer is the stream of the spans that
    were planned for it ([Streaming]); for a copy, what the stream delivers is
    a parameter.

    The theorems: what a GET serves and when it refuses; that a deleted object
    is not served; that a copy stages exactly the bytes of its source, and a
    PUT exactly its body, under the conditions the client set.  Two theorems
    show defects: copying a part from an old version takes the bytes of the
    current one, and a version that is deleted can still be copied. *)

From stdpp Require Import pretty.
From S2P Require Import Prelude Errors Manifest Schema Cleanup Transfers TransferSafety.
From S2P Require Import ManifestStore ManifestSafety IndexSafety MultipartStore Buckets ConnectionRemoval System Catalog.
From S2P Require Import Requests Listing Settings Chunks Streaming Attempts Programs Publish Reception Completion.
From S2P Require Import Accounts Rechunk Shares.

(** ** Handlers as tasks *)

Inductive Ending : Type :=
| S3Failure (e : S3Error)
| HandlerPanic
| TimedOut.

Definition S3Task (A : Type) : Type := Proc (Result A Ending).

#[export] Instance S3Task_ret : MRet S3Task := fun A a => Return (Ok a).

#[export] Instance S3Task_bind : MBind S3Task := fun A B f p =>
  proc_bind (fun r => match r with Ok a => f a | Err e => Return (Err e) end) p.

Definition refuse {A} (c : S3ErrorCode.t) (m : string) : S3Task A := Return (Err (S3Failure (s3_error c m))).

(** [.map_err(map_object_error)?] *)
Definition mapped {A} (p : Task A) : S3Task A :=
  proc_bind (fun r => Return (match r with Ok a => Ok a | Err e => Err (S3Failure (map_object_error e)) end)) p.

Definition checked {A} (r : Result A S3Error) : S3Task A :=
  Return (match r with Ok a => Ok a | Err e => Err (S3Failure e) end).

(** [.ok_or_else(|| s3_error!(..))?] *)
Definition or_refuse {A} (o : option A) (c : S3ErrorCode.t) (m : string) : S3Task A :=
  match o with Some a => mret a | None => refuse c m end.

(** The transfer that is waited for; [None]: the server's patience ended. *)
Definition in_time {A} (o : option A) : S3Task A :=
  match o with Some a => mret a | None => Return (Err TimedOut) end.

Section Service.
Context (parse_rfc3339 : string -> option OffsetDateTime) (last_instant : OffsetDateTime).
Context (parse_uuid : string -> option string) (uuid_error : string -> string).
Context (encrypt_chunk decrypt_chunk : Uuid -> Z -> list byte -> Result (list byte) ObjectFormatError.t).
Context (sha256_hex : list byte -> string).
Context (encryption_key_id data_dir : string) (staging_budget chunk_size : Z).
(** [ETagCondition::to_http_header] *)
Context (to_http_header : ETagCondition -> string).
(** What the streaming reader delivers for the spans of a manifest. *)
Context (read_spans_to_stream : ObjectManifest -> list ReadSpan -> list (Result (list byte) io_error)).

(** ** The service ([object_format.rs]) *)

(** [get_active_manifest], one store call after the other. *)
Definition active_version (bkt k : string) : Task (option ObjectManifest) :=
  found ← call (get_active_manifest bkt k);
  match found with
  | None => mret None
  | Some manifest =>
      E ← perform Ambient;
      if is_expired manifest (now_utc_at E 0) then mret None
      else
        locked ← call (object_rechunk_locked (object_id manifest));
        if locked : bool then
          fail (ObjectFormatError.InvalidRead "object is being re-chunked; try again later")
        else mret (Some manifest)
  end.

Definition get_manifest_by_version (bkt k version : string) : Task (option ObjectManifest) :=
  match parse_uuid version with
  | None => fail (ObjectFormatError.InvalidPlan (uuid_error version))
  | Some obj =>
      manifest ← call (get_manifest obj);
      match manifest with
      | None => mret None
      | Some manifest =>
          if bool_decide (bucket manifest = bkt) && bool_decide (key manifest = k) then
            E ← perform Ambient;
            mret (if is_expired manifest (now_utc_at E 0) then None else Some manifest)
          else mret None
      end
  end.

Definition RESERVED_BUCKET_NAMES : list string := ["_public"; "_admin"].

Definition service_create_bucket (bkt : string) : Task BucketRecord :=
  if bool_decide (bkt ∈ RESERVED_BUCKET_NAMES) then
    fail (ObjectFormatError.InvalidBucketName (bkt +:+ " is reserved for an internal HTTP route"))
  else
    ensure_connection_not_removing ;;
    E ← perform Ambient;
    E' ← perform Ambient;
    call (Buckets.create_bucket parse_rfc3339 E'
            {| b_name := bkt; b_created_at := now_utc_at E 0; b_deleted_at := None;
               b_versioning_enabled := false; b_object_locking_enabled := false |}).

Fixpoint tombstone_expired (now : OffsetDateTime) (manifests : list ObjectManifest) : Task unit :=
  match manifests with
  | [] => mret tt
  | manifest :: manifests =>
      (if is_expired manifest now then
         E ← perform Ambient;
         call (tombstone_manifest E (object_id manifest) "object expired") ;;
         mret tt
       else mret tt) ;;
      tombstone_expired now manifests
  end.

Definition service_delete_bucket (bkt : string) : Task unit :=
  E ← perform Ambient;
  manifests ← call (list_bucket_manifests bkt None);
  tombstone_expired (now_utc_at E 0) manifests ;;
  E ← perform Ambient;
  call (Buckets.delete_bucket E bkt).

Definition service_delete_object (bkt k : string) (c : DeleteConditionals) : Task (option ObjectManifest) :=
  E ← perform Ambient;
  call (delete_active_key E bkt k "deleted via S3" c).

Definition service_tombstone (obj : Uuid) (reason : string) (c : DeleteConditionals) : Task ObjectManifest :=
  E ← perform Ambient;
  call (tombstone_manifest_with_conditionals E obj reason c).

Definition MULTIPART_ROOT : string := "multipart".

Definition multipart_dir (upload_id : Uuid) : string := join (join data_dir MULTIPART_ROOT) upload_id.

Definition initiate_multipart_upload_with_expiry (bkt k content_type : string) (checksum_algorithm : option string)
    (expires_at : option OffsetDateTime) : Task MultipartSession :=
  ensure_connection_not_removing ;;
  exists_ ← call (bucket_exists_for parse_rfc3339 bkt);
  if negb exists_ then fail (ObjectFormatError.InvalidPlan ("bucket does not exist: " +:+ bkt))
  else
    ensure_quota_available ;;
    E ← perform Ambient;
    let upload_id := new_v4 E 0 in
    let session := {| ms_upload_id := upload_id; ms_bucket := bkt; ms_key := k; ms_version_id := Some upload_id;
                      ms_content_type := content_type;
                      ms_checksum_algorithm := default CHECKSUM_ALGORITHM checksum_algorithm;
                      ms_expires_at := expires_at; ms_state := MultipartState.Initiated;
                      ms_created_at := now_utc_at E 0; ms_updated_at := now_utc_at E 1 |} in
    E ← perform Ambient;
    call (create_multipart_session E session) ;;
    perform_ok (CreateDirAll (multipart_dir upload_id)) ;;
    mret session.

Abbreviation receive_part := (enqueue_with_part encrypt_chunk sha256_hex encryption_key_id data_dir staging_budget chunk_size).
Abbreviation wait := (wait_transfer parse_uuid uuid_error).

Definition part_open (s : MultipartState.t) : bool :=
  negb (one_of s [MultipartState.Completing; MultipartState.Aborted; MultipartState.Completed;
                  MultipartState.Quarantined; MultipartState.RecoveryRequired]).

(** The body of a retried part is read and dropped. *)
Definition upload_multipart_part (fuel : nat) (upload_id : Uuid) (part_number : Z) (body : list (option (list byte)))
    (checksum : option string) : Task (option MultipartPart) :=
  ensure_connection_not_removing ;;
  if part_number =? 0 then fail (ObjectFormatError.InvalidPlan "part number must be at least 1")
  else
    session ← call (get_multipart_session upload_id);
    session ← require session (ObjectFormatError.InvalidPlan ("upload not found: " +:+ upload_id));
    if negb (part_open (ms_state session)) then
      fail (ObjectFormatError.InvalidPlan ("multipart upload is not active: " +:+ upload_id))
    else
      ensure_quota_available ;;
      existing ← call (active_multipart_part_transfer upload_id part_number);
      match existing with
      | Some existing =>
          if bool_decide (j_state existing = JobState.RecoveryRequired) then
            fail (ObjectFormatError.InvalidPlan (default
              "a prior multipart part needs Telegram reconciliation before it can be retried" (j_error existing)))
          else
            done_ ← wait fuel (j_id existing);
            match done_ with
            | None => mret None
            | Some _ =>
                part ← call (get_multipart_part upload_id part_number);
                part ← require part (ObjectFormatError.InvalidPlan
                  "reused multipart transfer completed without a part manifest");
                mret (Some part)
            end
      | None =>
          job ← receive_part (ms_bucket session) (ms_key session) (ms_content_type session) body
                  (Some (upload_id, part_number, checksum)) None (ms_expires_at session);
          done_ ← wait fuel (j_id job);
          match done_ with
          | None => mret None
          | Some _ =>
              part ← call (get_multipart_part upload_id part_number);
              part ← require part (ObjectFormatError.InvalidPlan "completed part missing");
              mret (Some part)
          end
      end.

Abbreviation enqueue := (enqueue_stream_with_expiry encrypt_chunk sha256_hex encryption_key_id data_dir staging_budget chunk_size).

Definition put_stream_with_expiry (fuel : nat) (bkt k content_type : string) (body : list (option (list byte)))
    (conditionals : option TransferWriteConditionals) (expires_at : option OffsetDateTime)
    : Task (option ObjectManifest) :=
  job ← enqueue bkt k content_type body conditionals expires_at;
  wait fuel (j_id job).

(** [read_range_to_writer] as a task; [None]: slicing a short plaintext panics. *)
Fixpoint read_spans_task (manifest : ObjectManifest) (spans : list ReadSpan) : Task (option (list byte)) :=
  match spans with
  | [] => mret (Some [])
  | span :: spans =>
      match chunks manifest !! Z.to_nat (s_order span) with
      | None => fail (ObjectFormatError.MissingChunk (object_id manifest) (s_order span))
      | Some chunk =>
          plaintext ← read_manifest_chunk decrypt_chunk sha256_hex manifest chunk;
          match slice plaintext (offset_within_chunk span) (offset_within_chunk span + length_ span) with
          | None => mret None
          | Some bytes => rest ← read_spans_task manifest spans; mret (app bytes <$> rest)
          end
      end
  end.

(** [read_bytes]: the version is looked up under the key. *)
Definition read_bytes (bkt k : string) (start stop : Z) : Task (option (list byte)) :=
  found ← call (get_active_manifest bkt k);
  manifest ← require found (ObjectFormatError.InvalidRead ("object not found: " +:+ bkt +:+ "/" +:+ k));
  if negb (bool_decide (commit_state manifest = CommitState.Committed)) then
    fail (ObjectFormatError.InvalidRead ("object is not committed: " +:+ bkt +:+ "/" +:+ k))
  else
    E ← perform Ambient;
    if is_expired manifest (now_utc_at E 0) then
      fail (ObjectFormatError.InvalidRead ("object not found: " +:+ bkt +:+ "/" +:+ k))
    else
      plan ← (Return (plan_read manifest start stop) : Task ReadPlan);
      read_spans_task manifest (rp_chunks plan).

(** ** Bucket handlers ([s3_server.rs]) *)

Definition create_bucket (bkt : string) : S3Task unit := mapped (service_create_bucket bkt) ;; mret tt.

Definition delete_bucket (bkt : string) : S3Task unit := mapped (service_delete_bucket bkt).

Definition need_bucket (bkt : string) : S3Task unit :=
  exists_ ← mapped (call (bucket_exists_for parse_rfc3339 bkt));
  if (exists_ : bool) then mret tt else refuse S3ErrorCode.NoSuchBucket "bucket does not exist".

Definition head_bucket (bkt : string) : S3Task unit := need_bucket bkt.

Definition list_buckets : S3Task (list (string * OffsetDateTime)) :=
  buckets ← mapped (call (Buckets.list_buckets parse_rfc3339));
  mret (map (fun b => (b_name b, b_created_at b)) buckets).

(** ** Object handlers *)

Record PutObjectInput : Type := {
  po_bucket : string;
  po_key : string;
  po_content_type : option string;
  po_if_match : option ETagCondition;
  po_if_none_match : option ETagCondition;
  po_headers : gmap string string;
  po_body : list (option (list byte))
}.

(** The expiry headers, read when the handler starts. *)
Definition requested_expiry (headers : gmap string string) : S3Task (option OffsetDateTime) :=
  E ← (mapped (perform Ambient) : S3Task Env);
  match parse_expiry_headers parse_rfc3339 last_instant (now_utc_at E 0) headers with
  | None => Return (Err HandlerPanic)
  | Some r => checked r
  end.

Definition DEFAULT_CONTENT_TYPE : string := "application/octet-stream".

(** Until the body is accepted .. *)
Definition put_accept (input : PutObjectInput) : S3Task TransferJob :=
  expires_at ← requested_expiry (po_headers input);
  need_bucket (po_bucket input) ;;
  current ← mapped (active_version (po_bucket input) (po_key input));
  checked (enforce_write_conditionals (po_if_match input) (po_if_none_match input) current) ;;
  mapped (enqueue (po_bucket input) (po_key input) (default DEFAULT_CONTENT_TYPE (po_content_type input)) (po_body input)
            (write_conditionals_snapshot to_http_header (po_if_match input) (po_if_none_match input)) expires_at).

(** .. and until it is published: the ETag and the version. *)
Definition put_object (fuel : nat) (input : PutObjectInput) : S3Task (string * string) :=
  job ← put_accept input;
  done_ ← mapped (wait fuel (j_id job));
  manifest ← in_time done_;
  mret (whole_object (m_checksum manifest), object_id manifest).

Definition resolve_manifest (bkt k : string) (version : option string) : Task (option ObjectManifest) :=
  match version with
  | Some version => get_manifest_by_version bkt k version
  | None => active_version bkt k
  end.

Record GetObjectInput : Type := {
  gi_bucket : string;
  gi_key : string;
  gi_version_id : option string;
  gi_if_match : option ETagCondition;
  gi_if_none_match : option ETagCondition;
  gi_if_modified_since : option OffsetDateTime;
  gi_if_unmodified_since : option OffsetDateTime;
  gi_headers : gmap string string
}.

(** The version a GET or HEAD is about, with its conditions checked. *)
Definition readable_version (input : GetObjectInput) : S3Task ObjectManifest :=
  found ← mapped (resolve_manifest (gi_bucket input) (gi_key input) (gi_version_id input));
  manifest ← or_refuse found S3ErrorCode.NoSuchKey "object does not exist";
  if negb (bool_decide (commit_state manifest = CommitState.Committed)) then
    refuse S3ErrorCode.NoSuchKey "object does not exist"
  else
    checked (enforce_read_conditionals (gi_if_match input) (gi_if_none_match input) (gi_if_modified_since input)
               (gi_if_unmodified_since input) manifest) ;;
    mret manifest.

Context (format_rfc3339 : OffsetDateTime -> Result string string).

Definition add_expiry_metadata (metadata : gmap string string) (manifest : ObjectManifest) : gmap string string :=
  match expires_at manifest with
  | None => metadata
  | Some t => match format_rfc3339 t with
              | Ok value => <["telegram-s3-expires-at" := value]> metadata
              | Err _ => metadata
              end
  end.

Record ObjectOutput : Type := {
  oo_body : option (ObjectManifest * list ReadSpan);
  oo_content_length : Z;
  oo_content_type : string;
  oo_e_tag : string;
  oo_last_modified : OffsetDateTime;
  oo_metadata : gmap string string;
  oo_version_id : option string;
  oo_content_range : option string
}.

Definition described (manifest : ObjectManifest) (body : option (ObjectManifest * list ReadSpan)) (len : Z)
    (content_range : option string) : ObjectOutput :=
  {| oo_body := body; oo_content_length := len; oo_content_type := content_type manifest;
     oo_e_tag := whole_object (m_checksum manifest); oo_last_modified := created_at manifest;
     oo_metadata := add_expiry_metadata (user_metadata manifest) manifest; oo_version_id := version_id manifest;
     oo_content_range := content_range |}.

Definition head_object (input : GetObjectInput) : S3Task ObjectOutput :=
  manifest ← readable_version input;
  mret (described manifest None (u64_as_i64 (content_length manifest)) None).

Definition get_object (input : GetObjectInput) : S3Task ObjectOutput :=
  manifest ← readable_version input;
  range ← checked (object_range (gi_headers input) (content_length manifest));
  let '((start, stop), content_range) := range in
  plan ← mapped (Return (plan_read manifest start stop) : Task ReadPlan);
  mret (described manifest (Some (manifest, rp_chunks plan)) (u64_as_i64 (stop - start)) content_range).

Record DeleteObjectInput : Type := {
  di_bucket : string;
  di_key : string;
  di_version_id : option string;
  di_conditionals : DeleteConditionals
}.

(** The version that was deleted. *)
Definition delete_object (input : DeleteObjectInput) : S3Task (option string) :=
  deleted ← match di_version_id input with
            | Some version =>
                found ← mapped (resolve_manifest (di_bucket input) (di_key input) (Some version));
                manifest ← or_refuse found S3ErrorCode.NoSuchKey "object does not exist";
                checked (enforce_delete_conditionals (di_conditionals input) manifest) ;;
                m ← mapped (service_tombstone (object_id manifest) "deleted via S3" (di_conditionals input));
                mret (Some m)
            | None =>
                current ← mapped (active_version (di_bucket input) (di_key input));
                match current with
                | Some manifest => checked (enforce_delete_conditionals (di_conditionals input) manifest)
                | None => mret tt
                end ;;
                mapped (service_delete_object (di_bucket input) (di_key input) (di_conditionals input))
            end;
  mret (object_id <$> deleted).

(** ** Copies *)

(** [CopySource::Bucket], the form that is accepted. *)
Inductive CopySource : Type :=
| SourceBucket (bkt k : string) (version : option string)
| SourceOther.

Definition parse_copy_source (source : CopySource) : Result (string * string * option string) S3Error :=
  match source with
  | SourceBucket bkt k version => Ok (bkt, k, version)
  | SourceOther => invalid_argument "unsupported copy source format"
  end.

Record CopyConditions : Type := {
  cc_if_match : option ETagCondition;
  cc_if_none_match : option ETagCondition;
  cc_if_modified_since : option OffsetDateTime;
  cc_if_unmodified_since : option OffsetDateTime
}.

Definition copy_source_version (source : CopySource) (c : CopyConditions) : S3Task ObjectManifest :=
  s ← checked (parse_copy_source source);
  found ← mapped (resolve_manifest s.1.1 s.1.2 s.2);
  manifest ← or_refuse found S3ErrorCode.NoSuchKey "source object does not exist";
  checked (enforce_copy_source_conditionals (cc_if_match c) (cc_if_none_match c) (cc_if_modified_since c)
             (cc_if_unmodified_since c) manifest) ;;
  mret manifest.

(** The frames of a body that is a stream. *)
Definition as_frames (items : list (Result (list byte) io_error)) : list (option (list byte)) :=
  map (fun r => match r with Ok b => Some b | Err _ => None end) items.

Definition copy_accept (source : CopySource) (c : CopyConditions) (bkt k : string) (content_type_ : option string)
    : S3Task TransferJob :=
  manifest ← copy_source_version source c;
  plan ← mapped (Return (plan_read manifest 0 (content_length manifest)) : Task ReadPlan);
  mapped (enqueue bkt k (default (content_type manifest) content_type_)
            (as_frames (read_spans_to_stream manifest (rp_chunks plan))) None None).

Definition copy_object (fuel : nat) (source : CopySource) (c : CopyConditions) (bkt k : string)
    (content_type_ : option string) : S3Task (string * OffsetDateTime * option string) :=
  job ← copy_accept source c bkt k content_type_;
  done_ ← mapped (wait fuel (j_id job));
  copied ← in_time done_;
  mret (whole_object (m_checksum copied), created_at copied, version_id copied).

(** ** Multipart handlers *)

Definition parse_upload_id (upload_id : string) : S3Task Uuid :=
  match parse_uuid upload_id with
  | Some id => mret id
  | None => refuse S3ErrorCode.InvalidArgument (uuid_error upload_id)
  end.

(** [i32] to [u32] *)
Definition parse_part_number (n : Z) : S3Task Z :=
  if n <? 0 then refuse S3ErrorCode.InvalidArgument "invalid part number" else mret n.

Definition create_multipart_upload (bkt k : string) (content_type_ checksum_algorithm : option string)
    (headers : gmap string string) : S3Task Uuid :=
  expires_at ← requested_expiry headers;
  need_bucket bkt ;;
  session ← mapped (initiate_multipart_upload_with_expiry bkt k (default DEFAULT_CONTENT_TYPE content_type_)
              checksum_algorithm expires_at);
  mret (ms_upload_id session).

Definition upload_part (fuel : nat) (upload_id : string) (part_number : Z) (body : list (option (list byte)))
    : S3Task string :=
  upload_id ← parse_upload_id upload_id;
  part_number ← parse_part_number part_number;
  done_ ← mapped (upload_multipart_part fuel upload_id part_number body None);
  part ← in_time done_;
  mret (p_e_tag part).

(** The bytes a part copy takes from its source .. *)
Definition part_copy_bytes (source : CopySource) (c : CopyConditions) (range : option string)
    : S3Task (ObjectManifest * list byte) :=
  manifest ← copy_source_version source c;
  range ← match range with
          | Some text => checked (parse_byte_range text (content_length manifest))
          | None => mret (0, content_length manifest)
          end;
  bytes ← mapped (read_bytes (bucket manifest) (key manifest) range.1 range.2);
  match bytes with
  | None => Return (Err HandlerPanic)
  | Some bytes => mret (manifest, bytes)
  end.

(** .. are uploaded as the part. *)
Definition upload_part_copy (fuel : nat) (source : CopySource) (c : CopyConditions) (range : option string)
    (upload_id : string) (part_number : Z) : S3Task (string * OffsetDateTime) :=
  source ← part_copy_bytes source c range;
  upload_id ← parse_upload_id upload_id;
  part_number ← parse_part_number part_number;
  done_ ← mapped (upload_multipart_part fuel upload_id part_number [Some source.2] None);
  part ← in_time done_;
  mret (p_e_tag part, created_at source.1).

Definition abort_multipart_upload (upload_id : string) : S3Task unit :=
  upload_id ← parse_upload_id upload_id;
  mapped (E ← perform Ambient; call (abort_parts E upload_id)).

Definition list_multipart_uploads (bkt : string) (prefix : option string)
    : S3Task (list (string * OffsetDateTime * Uuid)) :=
  sessions ← mapped (call (list_multipart_sessions (Some bkt) prefix));
  mret (map (fun s => (ms_key s, ms_created_at s, ms_upload_id s)) sessions).

Definition list_parts (upload_id : string) : S3Task (list (Z * string * Z * OffsetDateTime)) :=
  upload_id ← parse_upload_id upload_id;
  parts ← mapped (call (list_multipart_parts upload_id));
  mret (map (fun p => (if I32_MAX <? p_part_number p then I32_MAX else p_part_number p, p_e_tag p,
                       u64_as_i64 (part_size p), p_created_at p)) parts).
End Service.

(** ** Runs of handlers *)

Lemma s3_ok {W A B} answer (f : A -> S3Task B) (p : S3Task A) (w : W) db b w' db' :
  interp answer (p ≫= f) w db = (Ok b, w', db') <->
  exists a w1 d1, interp answer p w db = (Ok a, w1, d1) /\ interp answer (f a) w1 d1 = (Ok b, w', db').
Proof.
  unfold mbind, S3Task_bind. rewrite interp_bind. destruct (interp answer p w db) as [[[a|e] w1] d1].
  - split; [eauto|]. intros (a' & w2 & d2 & [= <- <- <-] & H). exact H.
  - split; [done|]. intros (a' & w2 & d2 & [=] & _).
Qed.

Lemma mapped_ok {W A} answer (p : Task A) (w : W) db a w' db' :
  interp answer (mapped p) w db = (Ok a, w', db') <-> interp answer p w db = (Ok a, w', db').
Proof.
  unfold mapped. rewrite interp_bind. destruct (interp answer p w db) as [[[x|e] w1] d1]; cbn; [|done].
  split; by intros [= -> -> ->].
Qed.

Lemma checked_ok {W A} answer (r : Result A S3Error) (w : W) db a w' db' :
  interp answer (checked r) w db = (Ok a, w', db') <-> r = Ok a /\ w' = w /\ db' = db.
Proof. cbn. destruct r; split; [by intros [= -> -> ->]|by intros ([= ->] & -> & ->)|done|by intros []]. Qed.

Lemma or_refuse_ok {W A} answer (o : option A) c m (w : W) db a w' db' :
  interp answer (or_refuse o c m) w db = (Ok a, w', db') <-> o = Some a /\ w' = w /\ db' = db.
Proof. destruct o; cbn; split; [by intros [= -> -> ->]|by intros ([= ->] & -> & ->)|done|by intros []]. Qed.

(** A handler that stops, stops the one that runs it. *)
Lemma s3_err {W A B} answer (f : A -> S3Task B) (p : S3Task A) (w : W) db e w' db' :
  interp answer p w db = (Err e, w', db') -> interp answer (p ≫= f) w db = (Err e, w', db').
Proof. intros H. unfold mbind, S3Task_bind. by rewrite interp_bind, H. Qed.

Section Facts.
Context (parse_rfc3339 : string -> option OffsetDateTime) (last_instant : OffsetDateTime).
Context (parse_uuid : string -> option string) (uuid_error : string -> string).
Context (format_rfc3339 : OffsetDateTime -> Result string string).
(** The outside world, whose clock does not show less than [t0]. *)
Context {W : Type} (answer : forall B, Io B -> W -> B * W) (t0 : OffsetDateTime).
Context (Hclock : forall w, t0 <= now_utc_at (answer Env Ambient w).1 0).

Lemma expired_later m now : is_expired m now = false -> t0 <= now -> is_expired m t0 = false.
Proof. unfold is_expired. destruct (expires_at m); [|done]. lia. Qed.

(** The version [m] of the key is what the store shows. *)
Record shown (db : Db) (bkt k : string) (m : ObjectManifest) : Prop := {
  sh_stored : (get_manifest (object_id m) db).1 = Ok (Some m);
  sh_valid : validate m = Ok tt;
  sh_place : bucket m = bkt /\ key m = k;
  sh_unexpired : is_expired m t0 = false
}.

Lemma get_manifest_valid obj db m : (get_manifest obj db).1 = Ok (Some m) ->
  exists r, object_manifests db !! obj = Some r /\ om_manifest r = m /\ validate m = Ok tt.
Proof.
  unfold get_manifest, load_manifest_by_object_id, mbind, M_bind, query.
  destruct (object_manifests db !! obj) as [r|]; [|done]. destruct (validate (om_manifest r)) as [[]|] eqn:E; [|done].
  intros [= <-]. eauto.
Qed.

Lemma active_version_shown bkt k w db m w' db' :
  catalog_wf db -> interp answer (active_version bkt k) w db = (Ok (Some m), w', db') ->
  db' = db /\ shown db bkt k m /\ get_active_manifest bkt k db = (Ok (Some m), db).
Proof.
  intros Hwf H. apply interp_ok in H as (o & w1 & d1 & H1 & H). apply interp_call in H1 as [H1 ->].
  pose proof (get_active_manifest_reads bkt k db) as Hr. rewrite H1 in Hr. cbn in Hr. subst d1.
  destruct o as [x|]; [|done]. apply interp_ok in H as (E & w2 & d2 & H2 & H).
  cbn in H2. injection H2 as <- <- <-. destruct (is_expired x _) eqn:Ee; [done|].
  apply interp_ok in H as (locked & w3 & d3 & H3 & H). apply interp_call in H3 as [H3 ->]. injection H3 as <- <-.
  destruct (sql_exists _ _); [done|]. injection H as <- _ <-. split_and!; [done| |done].
  pose proof (catalog_active db bkt k x Hwf H1) as Hg. destruct (get_manifest_valid _ _ _ Hg) as (r & Hr & Hm & Hv).
  split; [done|done| |].
  - unfold get_active_manifest, load_manifest_by_object_id, mbind, M_bind, query in H1.
    destruct (active_objects db !! (bkt, k)) as [a|] eqn:Ea; [|done].
    destruct (cw_active db Hwf bkt k a Ea) as (r' & Hr' & <- & <-). rewrite Hr' in H1.
    destruct (bool_decide _); [|done]. rewrite Hr' in H1. destruct (validate _); [|done]. injection H1 as <-.
    apply (cw_rows db Hwf _ _ Hr').
  - eapply expired_later; [exact Ee|apply Hclock].
Qed.

Lemma version_shown bkt k version w db m w' db' :
  catalog_wf db ->
  interp answer (get_manifest_by_version parse_uuid uuid_error bkt k version) w db = (Ok (Some m), w', db') ->
  db' = db /\ shown db bkt k m /\ parse_uuid version = Some (object_id m).
Proof.
  intros Hwf. unfold get_manifest_by_version. destruct (parse_uuid version) as [obj|]; [|done]. intros H.
  apply interp_ok in H as (o & w1 & d1 & H1 & H). apply interp_call in H1 as [H1 ->].
  assert (d1 = db) as -> by (pose proof (load_manifest_reads obj db) as Hr; unfold get_manifest in H1; rewrite H1 in Hr; done).
  destruct o as [x|]; [|done]. destruct (_ && _) eqn:Eb; [|done]. bool_hyps.
  apply interp_ok in H as (E & w2 & d2 & HE & H). cbn in HE. injection HE as <- <- <-.
  injection H as H _ <-. destruct (is_expired x _) eqn:Ee; [done|]. injection H as ->.
  assert ((get_manifest obj db).1 = Ok (Some m)) as Hg by (by rewrite H1).
  destruct (get_manifest_valid _ _ _ Hg) as (r & Hr & Hm & Hv).
  assert (object_id m = obj) as Hid by (rewrite <- Hm; apply (cw_rows db Hwf _ _ Hr)).
  split_and!; [done| |by rewrite Hid]. split; [by rewrite Hid|done|done|].
  eapply expired_later; [exact Ee|apply Hclock].
Qed.

Abbreviation resolve := (resolve_manifest parse_uuid uuid_error).

Lemma resolve_shown bkt k version w db m w' db' :
  catalog_wf db -> interp answer (resolve bkt k version) w db = (Ok (Some m), w', db') ->
  db' = db /\ shown db bkt k m /\
  match version with
  | Some v => parse_uuid v = Some (object_id m)
  | None => get_active_manifest bkt k db = (Ok (Some m), db)
  end.
Proof. intros Hwf H. destruct version as [v|]; [by apply (version_shown _ _ v) in H|by apply active_version_shown in H]. Qed.

(** What the streaming reader delivers for the spans of a range: whatever it
    downloads, a prefix of the range, and all of it unless an error is among
    the items. *)
Definition streams_range (m : ObjectManifest) (spans : list ReadSpan) (start stop : Z) : Prop :=
  forall bs sha256_hex fetch pick ahead mode prefetch fuel items,
    manifest_typed m -> Z.of_nat (length (chunks m)) <= U32_MAX + 1 ->
    Forall2 (fun c b => Chunks.fits c b /\ checksum_identifies sha256_hex c b) (chunks m) bs ->
    (forall i sp r, spans !! i = Some sp -> fetch i = Ok r ->
       exists permit download decrypt retries du vu db,
         read_stream_span permit download decrypt sha256_hex retries du vu db m sp = Some (Ok r)) ->
    (length spans + 2 <= fuel)%nat ->
    read_spans_to_stream_for_client fetch (length spans) pick ahead mode prefetch fuel = Some items ->
    exists rest, range_of start stop (concat bs) = ok_bytes items ++ rest /\
      (Forall (fun x => is_ok x = true) items -> rest = []).

Lemma planned_streams m start stop plan :
  validate m = Ok tt -> 0 <= start -> plan_read m start stop = Ok plan -> streams_range m (rp_chunks plan) start stop.
Proof. intros Hv Hs Hp bs sha fetch pick ahead mode prefetch fuel items Hty Hn Hbs Hf Hfuel Hrun. by eapply stream_range. Qed.

Lemma readable_shown input w db m w' db' :
  catalog_wf db -> interp answer (readable_version parse_uuid uuid_error input) w db = (Ok m, w', db') ->
  db' = db /\ shown db (gi_bucket input) (gi_key input) m /\ commit_state m = CommitState.Committed /\
  match gi_version_id input with
  | Some v => parse_uuid v = Some (object_id m)
  | None => get_active_manifest (gi_bucket input) (gi_key input) db = (Ok (Some m), db)
  end /\
  enforce_read_conditionals (gi_if_match input) (gi_if_none_match input) (gi_if_modified_since input)
    (gi_if_unmodified_since input) m = Ok tt.
Proof.
  intros Hwf H. apply s3_ok in H as (o & w1 & d1 & H1 & H). apply mapped_ok in H1.
  apply s3_ok in H as (x & w2 & d2 & H2 & H). apply or_refuse_ok in H2 as (-> & -> & ->).
  apply resolve_shown in H1 as (-> & Hs & Hv); [|done].
  destruct (bool_decide (commit_state x = _)) eqn:Ec; [|done]. bool_hyps. cbn [negb] in H.
  apply s3_ok in H as ([] & w3 & d3 & H3 & H). apply checked_ok in H3 as (H3 & -> & ->). injection H as <- <- <-.
  by split_and!.
Qed.

(** C30: A GET serves the committed version it asks for.  If it is answered, the
    store was not touched, and the answer is about a stored, valid, committed
    and unexpired version of exactly the requested bucket and key — the active
    one, or the one with the requested identifier — that satisfies the
    conditions of the request; the body is the stream planned for the requested
    range, whose length is announced, and whatever the downloads return it
    delivers a prefix of these bytes of the object, and all of them unless it
    reports an error. *)
Theorem get_object_serves input w db out w' db' (Hwf : catalog_wf db)
    (H : interp answer (get_object parse_uuid uuid_error format_rfc3339 input) w db = (Ok out, w', db')) :
  exists m start stop text plan,
    db' = db /\ shown db (gi_bucket input) (gi_key input) m /\ commit_state m = CommitState.Committed /\
    match gi_version_id input with
    | Some v => parse_uuid v = Some (object_id m)
    | None => get_active_manifest (gi_bucket input) (gi_key input) db = (Ok (Some m), db)
    end /\
    enforce_read_conditionals (gi_if_match input) (gi_if_none_match input) (gi_if_modified_since input)
      (gi_if_unmodified_since input) m = Ok tt /\
    object_range (gi_headers input) (content_length m) = Ok ((start, stop), text) /\
    plan_read m start stop = Ok plan /\
    out = described format_rfc3339 m (Some (m, rp_chunks plan)) (u64_as_i64 (stop - start)) text /\
    (is_u64 (content_length m) -> streams_range m (rp_chunks plan) start stop).
Proof.
  apply s3_ok in H as (m & w1 & d1 & H1 & H). apply readable_shown in H1 as (-> & Hs & Hc & Hv & He); [|done].
  apply s3_ok in H as ([[start stop] text] & w2 & d2 & H2 & H). apply checked_ok in H2 as (Hr & -> & ->).
  apply s3_ok in H as (plan & w3 & d3 & H3 & H). apply mapped_ok in H3. cbn in H3. injection H3 as Hp <- <-.
  cbn in H. injection H as <- <- <-. exists m, start, stop, text, plan. split_and!; try done.
  intros Hcl. apply planned_streams; [apply Hs| |done]. apply (object_range_within _ _ _ _ _ Hcl Hr).
Qed.

Lemma tombstone_effect E obj reason c db m db1 :
  tombstone_manifest_with_conditionals E obj reason c db = (Ok m, db1) ->
  commit_state m = CommitState.Tombstoned /\
  exists r, object_manifests db1 !! obj = Some r /\ om_manifest r = m /\ validate m = Ok tt.
Proof.
  unfold tombstone_manifest_with_conditionals. rewrite transaction_ok. intros H.
  peel H om Hom. peel H m0 Hm0. apply some_or_ok in Hm0 as [-> _]. peel H u Hu.
  apply load_manifest_ok in Hom as (row & Hrow & <- & Hv).
  apply bind_ok in H as (u1 & d1 & H1 & H).
  assert (object_manifests d1 = object_manifests db) as Hd.
  { pose proof (steps_same store_tables _ _ _ _ (enqueue_manifest_store _ _) H1) as Hs. by injection Hs. }
  unfold mbind, M_bind, modify, delete_markers_of, tombstone_journal, mret, M_ret in H. cbn in H. injection H as <- <-.
  split; [done|]. cbn. rewrite lookup_alter_eq, Hd, Hrow. eexists. split; [done|]. by split.
Qed.

Definition no_such_key : Ending := S3Failure (s3_error S3ErrorCode.NoSuchKey "object does not exist").

(** A GET or HEAD of a version that is not there is refused. *)
Lemma unreadable input w db w1 :
  (interp answer (resolve (gi_bucket input) (gi_key input) (gi_version_id input)) w db = (Ok None, w1, db) \/
   exists m, interp answer (resolve (gi_bucket input) (gi_key input) (gi_version_id input)) w db = (Ok (Some m), w1, db) /\
     commit_state m <> CommitState.Committed) ->
  interp answer (readable_version parse_uuid uuid_error input) w db = (Err no_such_key, w1, db).
Proof.
  intros H. unfold readable_version, mbind, S3Task_bind. rewrite interp_bind. unfold mapped. rewrite interp_bind.
  destruct H as [->|(m & -> & Hm)]; cbn; [done|]. by rewrite (bool_decide_eq_false_2 _ Hm).
Qed.

(** A service call after which the handler only shapes its answer. *)
Lemma service_call_ok {A} (f : Env -> M A) w db a w' db' :
  interp answer (E ← perform Ambient; call (f E)) w db = (Ok a, w', db') -> exists E, f E db = (Ok a, db').
Proof.
  intros H. apply interp_ok in H as (E & w1 & d1 & H1 & H). cbn in H1. injection H1 as <- <- <-.
  apply interp_call in H as [H _]. eauto.
Qed.

Lemma active_version_reads bkt k w db r w' db' :
  interp answer (active_version bkt k) w db = (r, w', db') -> db' = db.
Proof.
  unfold active_version. rewrite interp_task. cbn. pose proof (get_active_manifest_reads bkt k db) as Hr.
  destruct (get_active_manifest bkt k db) as [[[m|]|e] d]; cbn in *; subst d; [|by intros [= <-]..].
  destruct (is_expired m _); cbn; [by intros [= <-]|]. destruct (sql_exists _ _); cbn; by intros [= <-].
Qed.

Abbreviation del := (delete_object parse_uuid uuid_error).

Lemma deleted_active input w db v w1 db1 :
  di_version_id input = None -> interp answer (del input) w db = (Ok v, w1, db1) ->
  get_active_manifest (di_bucket input) (di_key input) db1 = (Ok None, db1).
Proof.
  intros Hv H. apply s3_ok in H as (deleted & w2 & d2 & H & H'). injection H' as _ _ <-. rewrite Hv in H.
  apply s3_ok in H as (current & w3 & d3 & H3 & H). apply mapped_ok, active_version_reads in H3 as ->.
  apply s3_ok in H as (u & w4 & d4 & H4 & H).
  assert (d4 = db) as ->.
  { destruct current; [by apply checked_ok in H4 as (_ & _ & ->)|by injection H4 as _ _ <-]. }
  apply mapped_ok, service_call_ok in H as [E H].
  pose proof (delete_active_key_effect E (di_bucket input) (di_key input) "deleted via S3" (di_conditionals input) db) as Hd.
  rewrite H in Hd. apply Hd.
Qed.

Lemma deleted_version input version w db v w1 db1 :
  catalog_wf db -> di_version_id input = Some version -> interp answer (del input) w db = (Ok v, w1, db1) ->
  exists obj r, parse_uuid version = Some obj /\ object_manifests db1 !! obj = Some r /\
    validate (om_manifest r) = Ok tt /\ commit_state (om_manifest r) = CommitState.Tombstoned.
Proof.
  intros Hwf Hv H. apply s3_ok in H as (deleted & w2 & d2 & H & H'). injection H' as _ _ <-. rewrite Hv in H.
  apply s3_ok in H as (found & w3 & d3 & H3 & H). apply mapped_ok in H3.
  apply s3_ok in H as (m & w4 & d4 & H4 & H). apply or_refuse_ok in H4 as (-> & -> & ->).
  apply resolve_shown in H3 as (-> & Hs & Hid); [|done].
  apply s3_ok in H as ([] & w5 & d5 & H5 & H). apply checked_ok in H5 as (_ & -> & ->).
  apply s3_ok in H as (m' & w6 & d6 & H6 & H). injection H as _ _ <-.
  apply mapped_ok, service_call_ok in H6 as [E H6]. apply tombstone_effect in H6 as (Hc & r & Hr & <- & Hval).
  by exists (object_id m), r.
Qed.

(** C31: A deleted object is not served: once a DELETE was answered, a GET or a
    HEAD of the same key, or of the same version when one was named, is
    answered with NoSuchKey and changes nothing. *)
Theorem deleted_object_not_served input w db v w1 db1 get_input w2 (Hwf : catalog_wf db)
    (Hdel : interp answer (del input) w db = (Ok v, w1, db1))
    (Hb : gi_bucket get_input = di_bucket input) (Hk : gi_key get_input = di_key input)
    (Hv : gi_version_id get_input = di_version_id input) :
  exists w3,
    interp answer (get_object parse_uuid uuid_error format_rfc3339 get_input) w2 db1 = (Err no_such_key, w3, db1) /\
    interp answer (head_object parse_uuid uuid_error format_rfc3339 get_input) w2 db1 = (Err no_such_key, w3, db1).
Proof.
  assert (exists w3, interp answer (readable_version parse_uuid uuid_error get_input) w2 db1 = (Err no_such_key, w3, db1))
    as [w3 H].
  2: { exists w3. split; by apply s3_err. }
  destruct (di_version_id input) as [version|] eqn:Ev.
  - destruct (deleted_version _ _ _ _ _ _ _ Hwf Ev Hdel) as (obj & r & Hobj & Hr & Hval & Hc).
    assert (load_manifest_by_object_id obj db1 = (Ok (Some (om_manifest r)), db1)) as Hl by (apply load_manifest_ok; eauto).
    destruct (interp answer (resolve (gi_bucket get_input) (gi_key get_input) (Some version)) w2 db1) as [[res w3] d3] eqn:Er.
    exists w3. apply unreadable. rewrite Hv. revert Er. cbn [resolve_manifest]. unfold get_manifest_by_version.
    rewrite Hobj, interp_task. cbn [interp call]. unfold get_manifest. rewrite Hl. cbn.
    destruct (_ && _); cbn; [|intros [= <- <- <-]; by left].
    destruct (is_expired _ _); intros [= <- <- <-]; [by left|right]. exists (om_manifest r). by rewrite Hc.
  - exists w2. apply unreadable. left. rewrite Hv, Hb, Hk. cbn [resolve_manifest]. unfold active_version.
    rewrite interp_task. cbn [interp call]. by rewrite (deleted_active _ _ _ _ _ _ Ev Hdel).
Qed.
End Facts.

(** ** Copies *)

(** [items] is a run of the streaming reader over the spans of [m]. *)
Definition stream_run (sha256_hex : list byte -> string) (m : ObjectManifest) (spans : list ReadSpan)
    (items : list (Result (list byte) io_error)) : Prop :=
  exists fetch pick ahead mode prefetch fuel,
    (forall i sp r, spans !! i = Some sp -> fetch i = Ok r ->
       exists permit download decrypt retries du vu db,
         read_stream_span permit download decrypt sha256_hex retries du vu db m sp = Some (Ok r)) /\
    (length spans + 2 <= fuel)%nat /\
    read_spans_to_stream_for_client fetch (length spans) pick ahead mode prefetch fuel = Some items.

Lemma frames_pieces items pieces :
  as_frames items = map Some pieces -> Forall (fun x => is_ok x = true) items /\ ok_bytes items = concat pieces.
Proof.
  revert pieces. induction items as [|[b|e] items IH]; intros [|x pieces]; cbn; try done.
  intros [= -> H]. destruct (IH _ H) as [H1 H2]. split; [by constructor|]. by rewrite H2.
Qed.

Lemma fits_total cs bs : Forall2 Chunks.fits cs bs -> Z.of_nat (length (concat bs)) = total_size cs.
Proof.
  induction 1 as [|ch b cs bs Hb _ IH]; [done|]. unfold Chunks.fits, total_size in *. cbn. rewrite length_app. lia.
Qed.

(** The range of a whole object is all its bytes. *)
Lemma whole_range m bs : manifest_typed m -> validate m = Ok tt -> Forall2 Chunks.fits (chunks m) bs ->
  range_of 0 (content_length m) (concat bs) = concat bs.
Proof.
  intros Hty Hv HF. apply validate_wf in Hv as [_ _ _ Htot]; [|done]. apply fits_total in HF.
  unfold range_of. rewrite take_ge by lia. apply drop_0.
Qed.

Section Copies.
Context (parse_uuid : string -> option string) (uuid_error : string -> string).
Context (encrypt_chunk : Uuid -> Z -> list byte -> Result (list byte) ObjectFormatError.t).
Context (sha256_hex : list byte -> string).
Context (key_id data_dir : string) (budget chunk_size : Z) (Hsize : 0 < chunk_size).
Context (read_spans_to_stream : ObjectManifest -> list ReadSpan -> list (Result (list byte) io_error)).
Context (oracle : nat -> forall B, Io B -> B) (t0 : OffsetDateTime).
Context (Hclock : forall w, t0 <= now_utc_at (disk_world oracle Env Ambient w).1 0).

Abbreviation accept_copy := (copy_accept parse_uuid uuid_error encrypt_chunk sha256_hex key_id data_dir budget chunk_size
  read_spans_to_stream).

(** A copy has the bytes of its source: when a copy is accepted, its source
    is a stored, valid and unexpired version of the bucket and key that were
    named (the version with the named identifier, or else the active one), and the manifest and the files staged for the copy, under the bucket
    and key of the destination, hold exactly the contents of the source's
    chunks, whatever was downloaded in between. *)
Theorem copy_stages_source sb sk version c bkt k ct w db job w' db' (Hwf : catalog_wf db)
    (Hreader : forall m spans, stream_run sha256_hex m spans (read_spans_to_stream m spans))
    (H : interp (disk_world oracle) (accept_copy (SourceBucket sb sk version) c bkt k ct) w db = (Ok job, w', db')) :
  exists src m, shown t0 db sb sk src /\
    match version with
    | Some v => parse_uuid v = Some (object_id src)
    | None => get_active_manifest sb sk db = (Ok (Some src), db)
    end /\
    (om_manifest <$> object_manifests db' !! j_id job) = Some m /\ bucket m = bkt /\ key m = k /\
    forall bs, manifest_typed src -> Z.of_nat (length (chunks src)) <= U32_MAX + 1 ->
      Forall2 (fun ch b => Chunks.fits ch b /\ checksum_identifies sha256_hex ch b) (chunks src) bs ->
      holds_body encrypt_chunk sha256_hex data_dir chunk_size m (concat bs) w'.2.
Proof.
  apply s3_ok in H as (src & w1 & d1 & H1 & H).
  apply s3_ok in H1 as (x & w2 & d2 & H2 & H1). apply checked_ok in H2 as ([= <-] & -> & ->).
  apply s3_ok in H1 as (found & w3 & d3 & H3 & H1). apply mapped_ok in H3.
  apply s3_ok in H1 as (y & w4 & d4 & H4 & H1). apply or_refuse_ok in H4 as (-> & -> & ->).
  apply (resolve_shown _ _ _ t0 Hclock) in H3 as (-> & Hs & Hwhich); [|done].
  apply s3_ok in H1 as ([] & w5 & d5 & H5 & H1). apply checked_ok in H5 as (_ & -> & ->). injection H1 as <- <- <-.
  apply s3_ok in H as (plan & w6 & d6 & H6 & H). apply mapped_ok in H6. cbn in H6. injection H6 as Hp <- <-.
  apply mapped_ok in H. apply interp_ok in H as (u1 & w7 & d7 & _ & H). apply interp_ok in H as (u2 & w8 & d8 & _ & H).
  apply (enqueue_ok _ _ _ _ _ _ oracle Hsize) in H as (pieces & m & Hf & Hm & Hid & Hb & Hk & Hbody & _).
  exists y, m. split_and!; try done. intros bs Hty Hn Hbs.
  destruct (frames_pieces _ _ Hf) as [Hall Hbytes].
  destruct (Hreader y (rp_chunks plan)) as (fetch & pick & ahead & mode & prefetch & fuel & Hfetch & Hfuel & Hrun).
  destruct (planned_streams y 0 (content_length y) plan (sh_valid _ _ _ _ _ Hs) ltac:(lia) Hp bs sha256_hex fetch pick ahead mode
    prefetch fuel _ Hty Hn Hbs Hfetch Hfuel Hrun) as (rest & Hr & Hrest).
  rewrite (Hrest Hall), app_nil_r, Hbytes in Hr.
  rewrite whole_range in Hr; [by rewrite Hr|done|apply Hs|]. eapply Forall2_impl; [exact Hbs|by intros ?? []].
Qed.
End Copies.

(** ** Witnesses and recorded defects *)

Definition toy_uuid (s : string) : option string := Some s.

(** The bucket [b] with the key [k], whose version [o] is one chunk of ten bytes. *)
Definition stocked : Db :=
  run (commit_manifest sample_etag (sample_env 2 "u") "o")
    (run (stage_manifest (sample_env 1 "u") OperationKind.Put (one_chunk_sample <| commit_state := CommitState.Staging |>))
       TransferSafety.sample_store).

Lemma stocked_wf : catalog_wf stocked.
Proof.
  unfold stocked, run. refine (commit_wf sample_etag (sample_env 2 "u") "o" None None _ _). apply stage_manifest_wf.
  - intros r Hr. cbn in Hr. rewrite lookup_empty in Hr. discriminate Hr.
  - apply (catalog_wf_same empty_db); [reflexivity|exact empty_catalog].
Qed.

Definition ask (k : string) (version : option string) : GetObjectInput :=
  {| gi_bucket := "b"; gi_key := k; gi_version_id := version; gi_if_match := None; gi_if_none_match := None;
     gi_if_modified_since := None; gi_if_unmodified_since := None; gi_headers := ∅ |}.

Definition toy_format (_ : OffsetDateTime) : Result string string := Ok "t".

Abbreviation toy_serve p db := (interp (disk_world sample_oracle) p (0%nat, ∅) db).

Lemma sample_clock w : 0 <= now_utc_at (disk_world sample_oracle Env Ambient w).1 0.
Proof. unfold disk_world, sample_oracle, sample_answer, now_utc_at, sample_env. cbn. lia. Qed.

Definition got : ObjectOutput :=
  match (toy_serve (get_object toy_uuid id toy_format (ask "k" None)) stocked).1.1 with
  | Ok o => o
  | Err _ => described toy_format one_chunk_sample None 0 None
  end.

Lemma get_object_serves_witness :
  exists m plan, shown 0 stocked "b" "k" m /\ commit_state m = CommitState.Committed /\
    plan_read m 0 (content_length m) = Ok plan /\ oo_body got = Some (m, rp_chunks plan).
Proof.
  destruct (get_object_serves toy_uuid id toy_format (disk_world sample_oracle) 0 sample_clock (ask "k" None)
    (0%nat, ∅) stocked got
    (toy_serve (get_object toy_uuid id toy_format (ask "k" None)) stocked).1.2 stocked stocked_wf)
    as (m & start & stop & text & plan & _ & Hs & Hc & _ & _ & Hr & Hp & -> & _).
  - vm_compute. reflexivity.
  - exists m, plan. injection Hr as <- <- <-. by split_and!.
Defined.

Definition unconditional : DeleteObjectInput :=
  {| di_bucket := "b"; di_key := "k"; di_version_id := None; di_conditionals := no_conditionals |}.

Definition emptied := toy_serve (delete_object toy_uuid id unconditional) stocked.

Lemma deleted_object_not_served_witness :
  exists w, interp (disk_world sample_oracle) (get_object toy_uuid id toy_format (ask "k" None)) (9%nat, ∅) emptied.2
            = (Err no_such_key, w, emptied.2).
Proof.
  destruct (deleted_object_not_served toy_uuid id toy_format (disk_world sample_oracle) 0 sample_clock unconditional
    (0%nat, ∅) stocked (Some "o") emptied.1.2 emptied.2 (ask "k" None) (9%nat, ∅) stocked_wf) as (w & H & _).
  - vm_compute. reflexivity.
  - reflexivity.
  - reflexivity.
  - reflexivity.
  - exists w. exact H.
Defined.

(** A reader whose account delivers ten bytes for every chunk, at the second attempt. *)
Definition toy_fetch (m : ObjectManifest) (spans : list ReadSpan) (i : nat) : Streaming.Item :=
  match spans !! i with
  | Some sp => default (Err {| kind := Other; text := "panic" |})
                 (read_stream_span sample_permit sample_serve no_decrypt sample_sha 1 0 0 empty_db m sp)
  | None => Err {| kind := Other; text := "end" |}
  end.

Definition toy_reader (m : ObjectManifest) (spans : list ReadSpan) : list (Result (list byte) io_error) :=
  until_error (toy_fetch m spans) 0 (length spans).

Lemma toy_reader_runs m spans : stream_run sample_sha m spans (toy_reader m spans).
Proof.
  exists (toy_fetch m spans), (fun _ => 0%nat), (fun _ => 0%nat), "adaptive", 2, (length spans + 2)%nat.
  split_and!; [|lia|].
  - intros i sp r Hi. unfold toy_fetch. rewrite Hi. intros H.
    exists sample_permit, sample_serve, no_decrypt, 1, 0, 0, empty_db. destruct (read_stream_span _ _ _ _ _ _ _ _ _ _); [by rewrite <- H|done].
  - unfold read_spans_to_stream_for_client.
    rewrite (stream_items_until_error _ _ _ _ _ _ 0); [by rewrite Nat.sub_0_r|lia|done|lia].
Qed.

Definition plain_copy : CopyConditions :=
  {| cc_if_match := None; cc_if_none_match := None; cc_if_modified_since := None; cc_if_unmodified_since := None |}.

Definition toy_copy (version : option string) : S3Task TransferJob :=
  copy_accept toy_uuid id toy_encrypt sample_sha "key" "data" 1000 4 toy_reader (SourceBucket "b" "k" version)
    plain_copy "b" "copy" None.

Definition copied := toy_serve (toy_copy None) stocked.

Definition copied_job : TransferJob :=
  match copied.1.1 with Ok job => job | Err _ => sample_job JobState.Receiving 0 0 None end.

Lemma copy_stages_source_witness :
  exists m, (om_manifest <$> object_manifests copied.2 !! j_id copied_job) = Some m /\ key m = "copy" /\
    holds_body toy_encrypt sample_sha "data" 4 m (replicate 10 Byte.x61) copied.1.2.2.
Proof.
  destruct (copy_stages_source toy_uuid id toy_encrypt sample_sha "key" "data" 1000 4 ltac:(lia) toy_reader sample_oracle 0
    sample_clock "b" "k" None plain_copy "b" "copy" None (0%nat, ∅) stocked copied_job copied.1.2 copied.2
    stocked_wf toy_reader_runs) as (src & m & _ & Ha & Hm & _ & Hk & Hb).
  - vm_compute. reflexivity.
  - exists m. split; [exact Hm|]. split; [exact Hk|].
    assert (src = one_chunk_sample) as ->.
    { change (get_active_manifest "b" "k" stocked) with (Ok (Some one_chunk_sample) : Result _ MetadataError, stocked) in Ha.
      by injection Ha. }
    apply (Hb [replicate 10 Byte.x61]); [exact one_chunk_sample_typed|vm_compute; discriminate|].
    constructor; [|constructor]. split; [reflexivity|]. intros p. unfold sample_sha. cbn.
    case_bool_decide; [done|discriminate].
Defined.

(** A deleted version can still be copied: a GET of the version is refused, as
    it should be, but [copy_object] does not look at its state and accepts it. *)
Theorem deleted_version_can_be_copied :
  (toy_serve (get_object toy_uuid id toy_format (ask "k" (Some "o"))) emptied.2).1.1 = Err no_such_key /\
  is_ok (toy_serve (toy_copy (Some "o")) emptied.2).1.1 = true.
Proof. vm_compute. by split. Qed.

(** The chat, where the message of the first version holds ten [a] and the
    message of the second version ten [b]. *)
Definition chat_oracle (t : nat) (B : Type) (e : Io B) : B :=
  match e in Io B return B with
  | DownloadMessage _ _ message => Ok (replicate 10 (if message =? 10 then Byte.x61 else Byte.x62))
  | e => sample_oracle t _ e
  end.

Definition overwritten : Db :=
  run (commit_manifest sample_etag (sample_env 4 "u") "o2")
    (run (stage_manifest (sample_env 3 "u") OperationKind.Put
            (one_chunk_sample <| object_id := "o2" |> <| commit_state := CommitState.Staging |>
               <| chunks := [(sample_chunk 0 0 10) <| telegram_message_id := 11 |>] |>)) stocked).

(** Copying a part of an old version takes the bytes of the current one: the
    version is resolved and its conditions are checked, but its bytes are read
    under its bucket and key. *)
Theorem part_copy_takes_current_bytes :
  let part := (interp (disk_world chat_oracle)
    (part_copy_bytes toy_uuid id no_decrypt (fun _ => "c0ffee") (SourceBucket "b" "k" (Some "o")) plain_copy None)
    (0%nat, ∅) overwritten).1.1 in
  (prod_map object_id id <$> match part with Ok x => Some x | Err _ => None end) = Some ("o", replicate 10 Byte.x62).
Proof. vm_compute. reflexivity. Qed.
