(* ===== verification/Guarantees.v ===== *)
(** * Rely and guarantee for programs

    A program over the store and the outside ([Programs]) keeps an invariant of
    the store.  [abides I rely acts p Q] says that every transaction of [p] that
    runs in a state of [I] ends in one, that every effect of [p] is in [acts],
    and that [p] returns in [Q], provided the answers of the outside are in
    [rely].  Nothing is assumed about the state
    between two transactions but [I], so what other clients do there does not
    matter as long as they keep [I] too.  [does] is the same for tasks, where
    the postcondition speaks of success only. *)

From S2P Require Import Prelude Errors Manifest Schema Cleanup Transfers TransferSafety.
From S2P Require Import ManifestStore ManifestSafety MultipartStore Buckets ConnectionRemoval System Attempts Programs.

(** The effects of a run. *)
Inductive traced {W A} (answer : forall B, Io B -> W -> B * W) : Proc A -> W -> Db -> forall B, Io B -> Prop :=
| traced_here B (e : Io B) k w db : traced answer (Perform e k) w db B e
| traced_perform B (e : Io B) k w db B' (e' : Io B') :
    traced answer (k (answer _ e w).1) (answer _ e w).2 db B' e' -> traced answer (Perform e k) w db B' e'
| traced_store B (m : M B) k w db B' (e' : Io B') :
    traced answer (k (m db).1) w (m db).2 B' e' -> traced answer (Store m k) w db B' e'.

Arguments traced {W A} answer p w db {B} e.

Section Abides.
Context (I : Db -> Prop) (rely : forall B, Io B -> B -> Prop) (acts : forall B, Io B -> Prop).

(** What a transaction promises of its result. *)
Definition ensures {B} (m : M B) (T : Result B MetadataError -> Prop) : Prop :=
  forall db, I db -> T (m db).1 /\ I (m db).2.

Fixpoint abides {A} (p : Proc A) (Q : A -> Prop) : Prop :=
  match p with
  | Return a => Q a
  | Store m k => exists T, ensures m T /\ forall r, T r -> abides (k r) Q
  | Perform e k => acts _ e /\ forall x, rely _ e x -> abides (k x) Q
  end.

Definition on_ok {A E} (Q : A -> Prop) (r : Result A E) : Prop := match r with Ok a => Q a | Err _ => True end.

Definition does {A} (p : Task A) (Q : A -> Prop) : Prop := abides p (on_ok Q).

Lemma abides_mono {A} (p : Proc A) (Q Q' : A -> Prop) : (forall a, Q a -> Q' a) -> abides p Q -> abides p Q'.
Proof.
  intros HQ. induction p as [a|X m k IH|X e k IH]; cbn; [by apply HQ| |].
  - intros (T & HT & Hk). exists T. eauto.
  - intros [He Hk]. eauto.
Qed.

Lemma abides_bind {A B} (p : Proc A) (f : A -> Proc B) (Q : A -> Prop) (R : B -> Prop) :
  abides p Q -> (forall a, Q a -> abides (f a) R) -> abides (proc_bind f p) R.
Proof.
  intros Hp Hf. revert Hp. induction p as [a|X m k IH|X e k IH]; cbn; [by apply Hf| |].
  - intros (T & HT & Hk). exists T. eauto.
  - intros [He Hk]. eauto.
Qed.

Lemma does_mono {A} (p : Task A) (Q Q' : A -> Prop) : (forall a, Q a -> Q' a) -> does p Q -> does p Q'.
Proof. intros HQ. apply abides_mono. intros [a|e]; cbn; auto. Qed.

Lemma does_bind {A B} (p : Task A) (f : A -> Task B) (Q : A -> Prop) (R : B -> Prop) :
  does p Q -> (forall a, Q a -> does (f a) R) -> does (p ≫= f) R.
Proof. intros Hp Hf. apply (abides_bind p _ _ _ Hp). intros [a|e] H; [by apply Hf|done]. Qed.

Lemma does_ret {A} (a : A) (Q : A -> Prop) : Q a -> does (mret a) Q.
Proof. done. Qed.

Lemma does_fail {A} e (Q : A -> Prop) : does (fail e) Q.
Proof. done. Qed.

Lemma does_call {A} (m : M A) (Q : A -> Prop) : ensures m (on_ok Q) -> does (call m) Q.
Proof. intros Hm. exists (on_ok Q). split; [done|]. by intros [a|e]. Qed.

Lemma does_perform {A} (e : Io A) (Q : A -> Prop) :
  acts _ e -> (forall x, rely _ e x -> Q x) -> does (perform e) Q.
Proof. done. Qed.

Lemma does_perform_ok {A} (e : Io (Result A ObjectFormatError.t)) (Q : A -> Prop) :
  acts _ e -> (forall x, rely _ e (Ok x) -> Q x) -> does (perform_ok e) Q.
Proof. intros He H. split; [done|]. intros [x|err]; cbn; auto. Qed.

(** A task whose error is looked at: nothing is known of a failure. *)
Lemma does_settle {A} (p : Task A) (Q : A -> Prop) : does p Q -> does (settle p) (on_ok Q).
Proof. intros Hp. apply (abides_bind p _ _ _ Hp). by intros [a|e]. Qed.

Lemma ensures_preserves {B} (m : M B) : preserves I m -> ensures m (fun _ => True).
Proof. intros H db Hdb. split; [done|by apply H]. Qed.

Lemma ensures_query {B} (f : Db -> B) (T : B -> Prop) : (forall db, I db -> T (f db)) -> ensures (query f) (on_ok T).
Proof. intros H db Hdb. split; [by apply H|done]. Qed.

Lemma ensures_mono {B} (m : M B) (T T' : Result B MetadataError -> Prop) :
  (forall r, T r -> T' r) -> ensures m T -> ensures m T'.
Proof. intros HT H db Hdb. destruct (H db Hdb). auto. Qed.

Lemma does_update {A} (m : M A) : preserves I m -> does (call m) (fun _ => True).
Proof. intros H. apply does_call. eapply ensures_mono; [|by apply ensures_preserves]. by intros []. Qed.

(** Runs of a program, in a world whose answers are in the rely. *)
Lemma abides_interp {W A} (answer : forall B, Io B -> W -> B * W) (p : Proc A) (Q : A -> Prop) w db :
  (forall B (e : Io B) w, rely B e (answer B e w).1) -> I db -> abides p Q ->
  Q (interp answer p w db).1.1 /\ I (interp answer p w db).2.
Proof.
  intros Hw. revert w db. induction p as [a|X m k IH|X e k IH]; intros w db Hdb; cbn; [done| |].
  - intros (T & HT & Hk). destruct (HT db Hdb). eauto.
  - intros [_ Hk]. eauto.
Qed.

(** .. and its effects. *)
Lemma abides_trace {W A} (answer : forall B, Io B -> W -> B * W) (p : Proc A) (Q : A -> Prop) w db B (e : Io B) :
  (forall B (e : Io B) w, rely B e (answer B e w).1) -> I db -> abides p Q -> traced answer p w db e -> acts B e.
Proof.
  intros Hw Hdb Hp Ht. revert Hdb Hp. induction Ht as [e k w db|X e k w db B' e' Ht IH|X m k w db B' e' Ht IH];
    cbn; intros Hdb Hp.
  - apply Hp.
  - apply IH; [done|]. by apply Hp.
  - destruct Hp as (T & HT & Hk). destruct (HT db Hdb). auto.
Qed.
End Abides.

(** Nothing is said of the effects. *)
Definition free (B : Type) (_ : Io B) : Prop := True.

Arguments on_ok {A E} Q r /.

(** Reading changes nothing. *)
Lemma ensures_reads {B} (I : Db -> Prop) (m : M B) : (forall db, (m db).2 = db) -> ensures I m (fun _ => True).
Proof. intros H db Hdb. by rewrite H. Qed.

Lemma does_reads {A} (I : Db -> Prop) rely acts (m : M A) :
  (forall db, (m db).2 = db) -> does I rely acts (call m) (fun _ => True).
Proof. intros H. apply does_update. intros db Hdb. by rewrite H. Qed.

#[export] Hint Resolve does_ret does_fail : core.

(** ** Walking through a program

    [walk] goes through a program of whose results nothing is needed; it leaves
    the calls and effects it does not know. *)

Lemma does_then {A B} I rely acts (p : Task A) (f : A -> Task B) (R : B -> Prop) :
  does I rely acts p (fun _ => True) -> (forall a, does I rely acts (f a) R) -> does I rely acts (p ≫= f) R.
Proof. intros Hp Hf. by eapply does_bind. Qed.

Lemma does_require {A} I rely acts (o : option A) e : does I rely acts (require o e) (fun _ => True).
Proof. by destruct o. Qed.

Lemma does_return {A} I rely acts (r : Result A ObjectFormatError.t) : does I rely acts (Return r) (fun _ => True).
Proof. by destruct r. Qed.

Lemma does_settled {A} I rely acts (p : Task A) :
  does I rely acts p (fun _ => True) -> does I rely acts (settle p) (fun _ => True).
Proof. intros Hp. eapply does_mono; [|by apply does_settle]. done. Qed.

Create HintDb walk.
#[export] Hint Resolve does_require does_return : walk.
#[export] Hint Extern 2 (does _ _ _ (call (query _)) _) => apply does_reads; intros; reflexivity : walk.

Ltac walk :=
  repeat first
    [ solve [auto with walk nocore]
    | apply does_ret; exact I
    | apply does_fail
    | apply does_then; [|intros ?]
    | apply does_perform; [|intros ? ?; exact I]
    | apply does_perform_ok; [|intros ? ?; exact I]
    | apply does_settled
    | match goal with |- does _ _ _ (match ?x with _ => _ end) _ => destruct x end
    | match goal with |- does _ _ _ (let _ := _ in _) _ => cbv zeta end ].

