(* ===== verification/Recovery.v ===== *)
(** * The recovery scan ([src/src/object_format.rs], [src/src/metadata/recovery.rs])

    The verifier samples chunks of every committed object, downloads them from
    every account that is said to hold them, repairs a damaged location from a
    healthy one, and hides an object whose damage it cannot repair.

    The proofs are carried by [Guarantees]: the scan keeps an invariant of the
    store whatever other clients that keep it too do in between.

    The theorems: the sample is made of distinct chunks of the object and is as
    large as was asked for; a scan changes nothing of an object but the places
    its chunks are read from, and every new place holds bytes that were verified
    against the checksum of the chunk; an object whose chunks are at their place
    stays visible, however often Telegram is out of reach during the scan. *)

From stdpp Require Import pretty.
From S2P Require Import Prelude Errors Config Manifest Schema Cleanup Transfers TransferSafety.
From S2P Require Import ManifestStore ManifestSafety IndexSafety MultipartStore Buckets ConnectionRemoval System Catalog.
From S2P Require Import Requests Listing Settings Chunks Streaming Attempts Programs Publish Reception Completion.
From S2P Require Import Accounts Rechunk Replication CleanupWorker Encryption Guarantees.

#[export] Instance ObjectChecksum_eq_dec : EqDecision ObjectChecksum.
Proof. solve_decision. Defined.

#[export] Instance EncryptionInfo_eq_dec : EqDecision EncryptionInfo.
Proof. solve_decision. Defined.

#[export] Instance TelegramLocation_eq_dec : EqDecision TelegramLocation.
Proof. solve_decision. Defined.

#[export] Instance ChunkReplica_eq_dec : EqDecision ChunkReplica.
Proof. solve_decision. Defined.

#[export] Instance ChunkRef_eq_dec : EqDecision ChunkRef.
Proof. solve_decision. Defined.

#[export] Instance ObjectManifest_eq_dec : EqDecision ObjectManifest.
Proof. solve_decision. Defined.

(** ** The store ([metadata/recovery.rs], [metadata/manifests.rs]) *)

Record IntegrityRecoveryEvent : Type := {
  iv_fingerprint : string;
  iv_issue_json : string;
  iv_state : string;
  iv_created_at : Z;
  iv_updated_at : Z
}.

(** [INSERT .. ON CONFLICT(fingerprint) DO UPDATE] *)
Definition upsert_integrity_recovery_event (E : Env) (fingerprint issue_json state : string) : M unit :=
  let now := now_at E 0 in
  modify (fun db => db <| integrity_recovery_events ::= partial_alter (fun old =>
    Some {| ie_issue_json := issue_json; ie_state := state;
            ie_created_at := match old with Some r => ie_created_at r | None => now end;
            ie_updated_at := now |}) fingerprint |>).

(** [ORDER BY updated_at DESC, fingerprint ASC] *)
Definition event_le (a b : string * IntegrityRow) : Prop :=
  (if ie_updated_at a.2 =? ie_updated_at b.2 then text_le a.1 b.1
   else ie_updated_at b.2 <=? ie_updated_at a.2) = true.

#[export] Instance event_le_dec : RelDecision event_le.
Proof. intros a b. unfold event_le. apply _. Defined.

Definition list_integrity_recovery_events : M (list IntegrityRecoveryEvent) :=
  query (fun db => map (fun e => {| iv_fingerprint := e.1; iv_issue_json := ie_issue_json e.2; iv_state := ie_state e.2;
                                    iv_created_at := ie_created_at e.2; iv_updated_at := ie_updated_at e.2 |})
    (take 500 (merge_sort event_le (map_to_list (integrity_recovery_events db))))).

Definition remove_replica_location (obj : Uuid) (n : Z) (account : string) : M unit :=
  modify (fun db => db <| replica_locations ::= List.filter (fun r => negb (is_replica obj n account r)) |>).

Definition object_recovery_marker (obj : Uuid) : M (option string) :=
  query (fun db =>
    match recovery_markers db !! object_marker obj with
    | Some r => if bool_decide (rm_marker_state r = "recovery_required")
                then match rm_details r with ObjectMarker details => Some details | JournalMarker _ => None end
                else None
    | None => None
    end).

Record JournalEntry : Type := {
  je_operation_id : Uuid;
  je_object_id : Uuid;
  je_bucket : string;
  je_object_key : string;
  je_operation_kind : OperationKind.t;
  je_state : JournalState.t;
  je_reason : option string
}.

(** ** Issues *)

Record RecoveryIssue : Type := {
  ri_object_id : option Uuid;
  ri_bucket : option string;
  ri_key : option string;
  ri_path : option string;
  ri_commit_state : option CommitState.t;
  ri_kind : string;
  ri_summary : string;
  ri_details : list string;
  ri_account_id : option string;
  ri_account_label : option string;
  ri_chunk_order : option Z;
  ri_repair_state : option string
}.

#[export] Instance eta_RecoveryIssue : Eta RecoveryIssue := fun r =>
  {| ri_object_id := ri_object_id r; ri_bucket := ri_bucket r; ri_key := ri_key r; ri_path := ri_path r;
     ri_commit_state := ri_commit_state r; ri_kind := ri_kind r; ri_summary := ri_summary r;
     ri_details := ri_details r; ri_account_id := ri_account_id r; ri_account_label := ri_account_label r;
     ri_chunk_order := ri_chunk_order r; ri_repair_state := ri_repair_state r |}.

Definition build_recovery_issue (manifest : ObjectManifest) (kind summary : string) (details : list string)
    : RecoveryIssue :=
  {| ri_object_id := Some (object_id manifest); ri_bucket := Some (bucket manifest); ri_key := Some (key manifest);
     ri_path := Some (bucket manifest +:+ "/" +:+ key manifest); ri_commit_state := Some (commit_state manifest);
     ri_kind := kind; ri_summary := summary; ri_details := details; ri_account_id := None;
     ri_account_label := None; ri_chunk_order := None; ri_repair_state := None |}.

(** A file or directory that belongs to nothing. *)
Definition stray_issue (path kind summary detail : string) : RecoveryIssue :=
  {| ri_object_id := None; ri_bucket := None; ri_key := None; ri_path := Some path; ri_commit_state := None;
     ri_kind := kind; ri_summary := summary; ri_details := [detail]; ri_account_id := None;
     ri_account_label := None; ri_chunk_order := None; ri_repair_state := None |}.

(** The bytes that are hashed: every field has its length in front. *)
Definition issue_part (part : option string) : list byte :=
  match part with
  | Some value => le_bytes 8 (Z.of_nat (String.length value)) ++ as_bytes value
  | None => le_bytes 8 U64_MAX
  end.

Definition fingerprint_input (uuid_bytes : Uuid -> list byte) (self : RecoveryIssue) : list byte :=
  issue_part (Some (ri_kind self)) ++ issue_part ((fun _ => "object") <$> ri_object_id self)
  ++ issue_part (ri_bucket self) ++ issue_part (ri_key self) ++ issue_part (ri_path self)
  ++ match ri_object_id self with Some id => uuid_bytes id | None => [] end
  ++ match ri_account_id self with
     | Some value => as_bytes "account" ++ le_bytes 8 (Z.of_nat (String.length value)) ++ as_bytes value
     | None => []
     end
  ++ match ri_chunk_order self with Some value => as_bytes "chunk" ++ le_bytes 4 value | None => [] end.

Definition fingerprint (sha256 : list byte -> list byte) (hex_encode : list byte -> string)
    (uuid_bytes : Uuid -> list byte) (self : RecoveryIssue) : string :=
  hex_encode (take 8 (sha256 (fingerprint_input uuid_bytes self))).

(** [Ord] of [Option]: [None] comes first. *)
Definition option_le (a b : option string) : bool :=
  match a, b with
  | None, _ => true
  | Some _, None => false
  | Some a, Some b => text_le a b
  end.

Definition issue_le (a b : RecoveryIssue) : Prop :=
  (if negb (bool_decide (ri_bucket a = ri_bucket b)) then option_le (ri_bucket a) (ri_bucket b)
   else if negb (bool_decide (ri_key a = ri_key b)) then option_le (ri_key a) (ri_key b)
   else if negb (bool_decide (ri_path a = ri_path b)) then option_le (ri_path a) (ri_path b)
   else text_le (ri_kind a) (ri_kind b)) = true.

#[export] Instance issue_le_dec : RelDecision issue_le.
Proof. intros a b. unfold issue_le. apply _. Defined.

(** ** The sample *)

(** [next] is the stream of the generator; values below the threshold are
    dropped, so that what is left is a multiple of [upper].  [None]: no value
    was taken among the first [fuel]. *)
Fixpoint random_below (fuel : nat) (next : nat -> Z) (upper : Z) : option Z :=
  match fuel with
  | O => None
  | S fuel =>
      let threshold := u64_wrap (- upper) mod upper in
      let value := next 0%nat in
      if threshold <=? value then Some (value mod upper) else random_below fuel (fun i => next (S i)) upper
  end.

(** The loop over the indices from [index] on; [below i] is the number drawn for
    the bound [i + 1]. *)
Fixpoint sample_from (below : nat -> nat) (requested index count : nat) (selected : list nat) : list nat :=
  match count with
  | O => selected
  | S count =>
      let selected :=
        if (length selected <? requested)%nat then selected ++ [index]
        else let slot := below index in
             if (slot <? requested)%nat then <[slot := index]> selected else selected in
      sample_from below requested (S index) count selected
  end.

Definition random_chunk_sample (below : nat -> nat) (chunk_count : nat) (requested : Z) : list nat :=
  let requested := Nat.min (Z.to_nat requested) chunk_count in
  if (requested =? 0)%nat || (chunk_count =? 0)%nat then [] else sample_from below requested 0 chunk_count [].

(** ** Verification of a location *)

Record IntegrityLocation : Type := {
  il_account_id : string;
  il_account_label : string;
  il_mode : option ReplicaMode.t;
  il_primary : bool;
  il_peer_id : string;
  il_message_id : Z
}.

Record IntegrityFailure : Type := {
  if_kind : string;
  if_message : string
}.

(** [trim_end_matches(".json")] *)
Fixpoint strip_last (fuel : nat) (s : string) : string :=
  match fuel with
  | O => s
  | S fuel =>
      let n := (String.length s - 5)%nat in
      if (5 <=? String.length s)%nat && bool_decide (String.substring n 5 s = ".json")
      then strip_last fuel (String.substring 0 n s) else s
  end.

Definition json_stem (name : string) : string := strip_last (String.length name) name.

Section Scan.
Context `{BootstrapJson}.
Context (decrypt_chunk : Uuid -> Z -> list byte -> Result (list byte) ObjectFormatError.t).
Context (sha256_hex : list byte -> string).
Context (parse_uuid : string -> option string) (uuid_error : string -> string).
Context (sha256 : list byte -> list byte) (hex_encode : list byte -> string) (uuid_bytes : Uuid -> list byte).
(** [serde_json] on issues, and the text of a manifest. *)
Context (issue_json : RecoveryIssue -> Result string string) (issues_json : list RecoveryIssue -> Result string string).
Context (issue_of_json : string -> Result RecoveryIssue string) (issues_of_json : string -> Result (list RecoveryIssue) string).
Context (manifest_json : ObjectManifest -> list byte).
Context (data_dir : string).
(** [recovery_verify_chunks()], the size of a sample. *)
Context (recovery_verify_chunks : Z).

(** The plaintext of a stored chunk. *)
Definition opened (manifest : ObjectManifest) (chunk : ChunkRef) (ciphertext : list byte)
    : Result (list byte) ObjectFormatError.t :=
  if enabled (encryption manifest)
  then let (source, n) := payload_identity chunk (object_id manifest) in decrypt_chunk source n ciphertext
  else Ok ciphertext.

(** [None]: the service's own connection. *)
Definition transport_for_account (account active : string) : Task (option string) :=
  if bool_decide (account = active) || (bool_decide (account = "legacy") && bool_decide (active = "legacy"))
  then perform_ok OpenTransport ;; mret None
  else perform_ok (OpenAccount account) ;; mret (Some account).

Definition integrity_failure (kind message : string) : IntegrityFailure := {| if_kind := kind; if_message := message |}.

Definition check_ciphertext (manifest : ObjectManifest) (chunk : ChunkRef) (ciphertext : list byte)
    : Result (list byte) IntegrityFailure :=
  match opened manifest chunk ciphertext with
  | Err error => Err (integrity_failure "corrupted" ("decryption failed: " +:+ ObjectFormatError.to_string error))
  | Ok plaintext =>
      let actual := sha256_hex plaintext in
      if negb (bool_decide (actual = checksum chunk))
      then Err (integrity_failure "corrupted" ("checksum mismatch: expected " +:+ checksum chunk +:+ ", got " +:+ actual))
      else Ok ciphertext
  end.

Definition verify_integrity_location (manifest : ObjectManifest) (chunk : ChunkRef) (location : IntegrityLocation)
    (transport : option string) : Task (Result (list byte) IntegrityFailure) :=
  if (il_message_id location <? - I32_MAX - 1) || (I32_MAX <? il_message_id location)
  then mret (Err (integrity_failure "invalid"
               ("Telegram message id is out of range: " +:+ pretty (il_message_id location))))
  else
    answer ← perform (DownloadMessage transport (il_peer_id location) (il_message_id location));
    mret (match answer with
          | Err error =>
              let message := ObjectFormatError.to_string error in
              Err (integrity_failure (if contains "not found" message then "missing" else "unavailable") message)
          | Ok ciphertext => check_ciphertext manifest chunk ciphertext
          end).

Definition build_integrity_issue (manifest : ObjectManifest) (location : IntegrityLocation) (chunk_order : Z)
    (failure_kind message : string) : RecoveryIssue :=
  {| ri_object_id := Some (object_id manifest); ri_bucket := Some (bucket manifest); ri_key := Some (key manifest);
     ri_path := Some (bucket manifest +:+ "/" +:+ key manifest); ri_commit_state := Some (commit_state manifest);
     ri_kind := "replica_integrity";
     ri_summary := (if bool_decide (failure_kind = "missing") then "missing"
                    else if one_of failure_kind ["corrupted"; "invalid"] then "corrupted" else "unavailable")
                   +:+ " chunk " +:+ pretty chunk_order +:+ " on " +:+ il_account_label location;
     ri_details := ["Telegram message " +:+ pretty (il_message_id location) +:+ " on account "
                    +:+ il_account_id location +:+ ": " +:+ message];
     ri_account_id := Some (il_account_id location); ri_account_label := Some (il_account_label location);
     ri_chunk_order := Some chunk_order; ri_repair_state := Some "detected" |}.

Definition serde {A} (r : Result A string) : Task A :=
  Return (match r with Ok a => Ok a | Err e => Err (ObjectFormatError.Serde e) end).

Definition persist_integrity_event (issue : RecoveryIssue) (state : string) : Task unit :=
  json ← serde (issue_json issue);
  E ← perform Ambient;
  call (upsert_integrity_recovery_event E (fingerprint sha256 hex_encode uuid_bytes issue) json state).

Definition repair_integrity_location (manifest : ObjectManifest) (chunk : ChunkRef) (location : IntegrityLocation)
    (ciphertext : list byte) (active : string) : Task (option TelegramLocation) :=
  if il_primary location || bool_decide (il_mode location = Some ReplicaMode.Replica) then
    transport_for_account (il_account_id location) active ;;
    replacement ← perform_ok (UploadReplica (il_account_id location)
      ("integrity-" +:+ object_id manifest +:+ "-" +:+ pretty (order chunk) +:+ "-" +:+ il_account_id location)
      (order chunk) ciphertext);
    mret (Some replacement)
  else mret None.

(** ** One chunk *)

Definition locations_of (labels : gmap string string) (active : string) (chunk : ChunkRef) : list IntegrityLocation :=
  {| il_account_id := active; il_account_label := default "Primary account" (labels !! active); il_mode := None;
     il_primary := true; il_peer_id := telegram_peer_id chunk; il_message_id := telegram_message_id chunk |}
  :: map (fun r => {| il_account_id := cr_account_id r;
                      il_account_label := default (cr_account_id r) (labels !! cr_account_id r);
                      il_mode := Some (cr_mode r); il_primary := false; il_peer_id := cr_telegram_peer_id r;
                      il_message_id := cr_telegram_message_id r |}) (replicas chunk).

(** The first healthy location's bytes, and the locations that failed. *)
Fixpoint check_locations (manifest : ObjectManifest) (chunk : ChunkRef) (active : string)
    (locations : list IntegrityLocation) (healthy : option (list byte))
    (failures : list (IntegrityLocation * IntegrityFailure))
    : Task (option (list byte) * list (IntegrityLocation * IntegrityFailure)) :=
  match locations with
  | [] => mret (healthy, failures)
  | location :: locations =>
      transport ← settle (transport_for_account (il_account_id location) active);
      result ← match transport with
               | Ok transport => verify_integrity_location manifest chunk location transport
               | Err error => mret (Err (integrity_failure "unavailable" (ObjectFormatError.to_string error)))
               end;
      match result with
      | Ok ciphertext =>
          check_locations manifest chunk active locations
            (match healthy with Some b => Some b | None => Some ciphertext end) failures
      | Err failure => check_locations manifest chunk active locations healthy (failures ++ [(location, failure)])
      end
  end.

(** What the inspection of a manifest carries. *)
Record Inspection : Type := {
  in_chunks : list ChunkRef;
  in_missing : list string;
  in_corrupted : list string;
  in_unavailable : list string
}.

#[export] Instance eta_Inspection : Eta Inspection := fun s =>
  {| in_chunks := in_chunks s; in_missing := in_missing s; in_corrupted := in_corrupted s;
     in_unavailable := in_unavailable s |}.

Definition damaging (kind : string) : bool := one_of kind ["missing"; "corrupted"; "invalid"].

Definition moved_primary (l : TelegramLocation) (c : ChunkRef) : ChunkRef :=
  c <| telegram_peer_id := peer_id l |> <| telegram_message_id := message_id l |>
    <| telegram_document_id := document_id l |>.

Definition moved_replica (l : TelegramLocation) (r : ChunkReplica) : ChunkReplica :=
  {| cr_account_id := cr_account_id r; cr_mode := cr_mode r; cr_chunk_size := cr_chunk_size r;
     cr_telegram_peer_id := peer_id l; cr_telegram_message_id := message_id l;
     cr_telegram_document_id := document_id l |}.

(** [iter_mut().find(..)]: the first replica of the account. *)
Fixpoint move_first (account : string) (l : TelegramLocation) (rs : list ChunkReplica) : list ChunkReplica :=
  match rs with
  | [] => []
  | r :: rs => if bool_decide (cr_account_id r = account) then moved_replica l r :: rs else r :: move_first account l rs
  end.

(** The replacement is recorded. *)
Definition relocate (manifest : ObjectManifest) (index : nat) (chunk : ChunkRef) (location : IntegrityLocation)
    (l : TelegramLocation) (s : Inspection) : Task Inspection :=
  if il_primary location then mret (s <| in_chunks ::= alter (moved_primary l) index |>)
  else
    match in_chunks s !! index with
    | Some target =>
        if existsb (fun r => bool_decide (cr_account_id r = il_account_id location)) (replicas target) then
          let s := s <| in_chunks ::= alter (fun c => c <| replicas ::= move_first (il_account_id location) l |>) index |> in
          E ← perform Ambient;
          call (insert_replica_location E (object_id manifest) (order chunk) (il_account_id location)
                  ReplicaMode.Replica l) ;;
          mret s
        else mret s
    | None => mret s
    end.

(** The repair of a failed location: whether it was done, and the issue. *)
Definition repair (manifest : ObjectManifest) (index : nat) (chunk : ChunkRef) (active : string)
    (healthy : option (list byte)) (location : IntegrityLocation) (failure : IntegrityFailure)
    (issue : RecoveryIssue) (s : Inspection) : Task (bool * RecoveryIssue * Inspection) :=
  match healthy with
  | Some source =>
      if damaging (if_kind failure) && negb (bool_decide (il_mode location = Some ReplicaMode.Access)) then
        replacement ← settle (repair_integrity_location manifest chunk location source active);
        match replacement with
        | Ok (Some replacement) =>
            s ← relocate manifest index chunk location replacement s;
            mret (true, issue, s)
        | Ok None => mret (false, issue, s)
        | Err error =>
            mret (false, issue <| ri_details ::= (fun d => d ++ ["automatic repair could not be uploaded yet: "
                                                             +:+ ObjectFormatError.to_string error]) |>, s)
        end
      else mret (false, issue, s)
  | None => mret (false, issue, s)
  end.

Definition failure_detail (chunk : ChunkRef) (location : IntegrityLocation) (failure : IntegrityFailure) : string :=
  "chunk " +:+ pretty (order chunk) +:+ " on " +:+ il_account_label location +:+ " (Telegram message "
  +:+ pretty (il_message_id location) +:+ ") failed integrity verification: " +:+ if_message failure.

Definition settle_failure (manifest : ObjectManifest) (index : nat) (chunk : ChunkRef) (active : string)
    (healthy : option (list byte)) (location : IntegrityLocation) (failure : IntegrityFailure)
    (s : Inspection) : Task Inspection :=
  let issue := build_integrity_issue manifest location (order chunk) (if_kind failure) (if_message failure) in
  r ← repair manifest index chunk active healthy location failure issue s;
  let '((repaired, issue), s) := r in
  if repaired : bool then
    let issue := issue <| ri_summary ::= (fun t => t +:+ " repaired from a healthy replica") |>
                       <| ri_details ::= (fun d => d ++ ["the verifier copied the verified encrypted chunk bytes to the damaged account and updated the manifest"]) |>
                       <| ri_repair_state := Some "recovered" |> in
    persist_integrity_event issue "recovered" ;;
    mret s
  else
    let has_alternate := is_some healthy in
    let repair_state := if has_alternate || bool_decide (if_kind failure = "unavailable") then "retryable"
                        else "unrecoverable" in
    persist_integrity_event (issue <| ri_repair_state := Some repair_state |>) repair_state ;;
    let detail := failure_detail chunk location failure in
    if il_primary location then
      mret (if bool_decide (if_kind failure = "missing") then s <| in_missing ::= (fun d => d ++ [detail]) |>
            else if one_of (if_kind failure) ["corrupted"; "invalid"] then s <| in_corrupted ::= (fun d => d ++ [detail]) |>
            else s <| in_unavailable ::= (fun d => d ++ [detail]) |>)
    else if damaging (if_kind failure) && negb has_alternate then
      let s := s <| in_chunks ::= alter (fun c => c <| replicas ::= List.filter (fun r =>
                      negb (bool_decide (cr_account_id r = il_account_id location))) |>) index |> in
      call (remove_replica_location (object_id manifest) (order chunk) (il_account_id location)) ;;
      mret s
    else mret s.

Fixpoint settle_failures (manifest : ObjectManifest) (index : nat) (chunk : ChunkRef) (active : string)
    (healthy : option (list byte)) (failures : list (IntegrityLocation * IntegrityFailure)) (s : Inspection)
    : Task Inspection :=
  match failures with
  | [] => mret s
  | (location, failure) :: failures =>
      s ← settle_failure manifest index chunk active healthy location failure s;
      settle_failures manifest index chunk active healthy failures s
  end.

(** ** One manifest *)

Fixpoint inspect_chunks (manifest : ObjectManifest) (labels : gmap string string) (active : string)
    (indices : list nat) (s : Inspection) : Task Inspection :=
  match indices with
  | [] => mret s
  | index :: indices =>
      match in_chunks s !! index with
      | None => inspect_chunks manifest labels active indices s (* the sample is of the chunks *)
      | Some chunk =>
          r ← check_locations manifest chunk active (locations_of labels active chunk) None [];
          s ← settle_failures manifest index chunk active r.1 r.2 s;
          inspect_chunks manifest labels active indices s
      end
  end.

Definition when_some (manifest : ObjectManifest) (kind summary : string) (details : list string) : list RecoveryIssue :=
  match details with [] => [] | _ => [build_recovery_issue manifest kind summary details] end.

Definition counted (details : list string) (what : string) : string := pretty (Z.of_nat (length details)) +:+ what.

Definition invalid_details (manifest : ObjectManifest) : list string :=
  (match validate manifest with
   | Err error => ["manifest validation failed: " +:+ error]
   | Ok _ => []
   end)
  ++ (if (length (chunks manifest) =? 0)%nat && (0 <? content_length manifest)
      then ["manifest declares " +:+ pretty (content_length manifest) +:+ " bytes but has no chunk references"]
      else []).

Definition inspect_committed_manifest (manifest : ObjectManifest) : Task (list RecoveryIssue) :=
  stored ← call active_connection_setting;
  let active := default "legacy" stored in
  accounts ← call list_telegram_accounts;
  let labels : gmap string string := list_to_map (rev (map (fun a => (ac_id a, ac_label a)) accounts)) in
  let invalid := invalid_details manifest in
  below ← perform RandomBelow;
  s ← inspect_chunks manifest labels active
        (random_chunk_sample below (length (chunks manifest)) recovery_verify_chunks)
        {| in_chunks := chunks manifest; in_missing := []; in_corrupted := []; in_unavailable := [] |};
  let repaired := manifest <| chunks := in_chunks s |> in
  (if bool_decide (repaired = manifest) then mret tt else call (update_manifest repaired) ;; mret tt) ;;
  mret (when_some manifest "invalid_manifest" "manifest metadata is invalid" invalid
        ++ when_some manifest "missing_chunk" (counted (in_missing s) " chunk(s) missing") (in_missing s)
        ++ when_some manifest "corrupted_chunk" (counted (in_corrupted s) " chunk(s) corrupted") (in_corrupted s)
        ++ when_some manifest "verification_unavailable" "one or more sampled chunks could not be verified yet"
             (in_unavailable s)).

(** What the inspection of a staged chunk finds: missing, or damaged. *)
Definition inspect_staged_chunk (manifest : ObjectManifest) (dir : string) (chunk : ChunkRef)
    : Task (list string * list string) :=
  if references_remote_payload chunk then mret ([], [])
  else
    let path := join dir (chunk_file_name (order chunk)) in
    exists_ ← perform (PathExists path);
    if negb exists_ then mret (["chunk " +:+ pretty (order chunk) +:+ " missing at " +:+ path], [])
    else
      bytes ← perform_ok (ReadFile path);
      mret ([], match opened manifest chunk bytes with
                | Err error => ["chunk " +:+ pretty (order chunk) +:+ " could not be decrypted at " +:+ path
                                +:+ ": " +:+ ObjectFormatError.to_string error]
                | Ok plaintext =>
                    let actual := sha256_hex plaintext in
                    if negb (bool_decide (actual = checksum chunk))
                    then ["chunk " +:+ pretty (order chunk) +:+ " checksum mismatch at " +:+ path +:+ ": expected "
                          +:+ checksum chunk +:+ ", got " +:+ actual]
                    else []
                end).

Fixpoint inspect_staged_chunks (manifest : ObjectManifest) (dir : string) (cs : list ChunkRef)
    (missing corrupted : list string) : Task (list string * list string) :=
  match cs with
  | [] => mret (missing, corrupted)
  | c :: cs =>
      r ← inspect_staged_chunk manifest dir c;
      inspect_staged_chunks manifest dir cs (missing ++ r.1) (corrupted ++ r.2)
  end.

Definition inspect_staging_manifest (manifest : ObjectManifest) (operation_id : option Uuid)
    : Task (list RecoveryIssue) :=
  let invalid := match validate manifest with
                 | Err error => ["manifest validation failed: " +:+ error]
                 | Ok _ => []
                 end in
  let dir := staging_dir data_dir (default (object_id manifest) operation_id) in
  exists_ ← perform (PathExists dir);
  if negb exists_ then
    mret [build_recovery_issue manifest "missing_staging_dir" "staging directory missing"
            ["expected staging directory: " +:+ dir]]
  else
    let path := join dir MANIFEST_FILE_NAME in
    present ← perform (PathExists path);
    r ← (if negb present then mret (invalid ++ ["staged manifest missing: " +:+ path], [])
         else
           bytes ← perform_ok (ReadFile path);
           let actual := sha256_hex bytes in
           let expected := sha256_hex (manifest_json manifest) in
           mret (invalid, if negb (bool_decide (actual = expected))
                          then ["staged manifest checksum mismatch at " +:+ path +:+ ": expected " +:+ expected
                                +:+ ", got " +:+ actual]
                          else []));
    d ← inspect_staged_chunks manifest dir (chunks manifest) [] r.2;
    mret (when_some manifest "invalid_staging_manifest" "staged metadata is invalid" r.1
          ++ when_some manifest "missing_staged_chunk" (counted d.1 " staged chunk(s) missing") d.1
          ++ when_some manifest "corrupted_staged_chunk" (counted d.2 " staged chunk(s) corrupted") d.2).

(** ** The scan *)

Definition to_journal_entry (e : string * JournalRow) : M JournalEntry :=
  match parse_uuid e.1, parse_uuid (oj_object_id e.2) with
  | None, _ => throw (Sqlite (uuid_error e.1))
  | _, None => throw (Sqlite (uuid_error (oj_object_id e.2)))
  | Some operation_id, Some object_id =>
      mret {| je_operation_id := operation_id; je_object_id := object_id; je_bucket := oj_bucket e.2;
              je_object_key := oj_object_key e.2; je_operation_kind := oj_operation_kind e.2;
              je_state := oj_state e.2; je_reason := oj_error e.2 |}
  end.

Fixpoint journal_entries (l : list (string * JournalRow)) : M (list JournalEntry) :=
  match l with
  | [] => mret []
  | e :: l => x ← to_journal_entry e; xs ← journal_entries l; mret (x :: xs)
  end.

Definition list_journal_entries : M (list JournalEntry) :=
  rows ← query (fun db => merge_sort journal_le (map_to_list (operation_journal db)));
  journal_entries rows.

(** The staged operation of an object.  (The source looks through the values of
    a hash map; an object has one staging entry.) *)
Definition staging_entry (journal : list JournalEntry) (obj : Uuid) : option JournalEntry :=
  List.find (fun e => bool_decide (je_object_id e = obj) && bool_decide (je_state e = JournalState.Staging)) journal.

Definition is_durable (issue : RecoveryIssue) : bool :=
  one_of (ri_kind issue) ["invalid_manifest"; "missing_chunk"; "corrupted_chunk"].

Definition marked (issue : RecoveryIssue) : RecoveryIssue :=
  issue <| ri_commit_state := Some CommitState.RecoveryRequired |>.

Definition scan_committed (manifest : ObjectManifest) : Task (list RecoveryIssue) :=
  sampled ← inspect_committed_manifest manifest;
  let durable := List.filter is_durable sampled in
  sampled ← match durable with
            | [] => mret sampled
            | _ =>
                E ← perform Ambient;
                call (update_manifest_state E (object_id manifest) CommitState.RecoveryRequired) ;;
                json ← serde (issues_json (map marked durable));
                E ← perform Ambient;
                call (set_object_recovery_marker E (object_id manifest) (bucket manifest) (key manifest) json) ;;
                mret (map marked sampled)
            end;
  mret (List.filter (fun i => negb (bool_decide (ri_kind i = "replica_integrity"))) sampled).

Definition scan_manifest (journal : list JournalEntry) (manifest : ObjectManifest) : Task (list RecoveryIssue) :=
  match commit_state manifest with
  | CommitState.Staging =>
      inspect_staging_manifest manifest (je_operation_id <$> staging_entry journal (object_id manifest))
  | CommitState.Committed => scan_committed manifest
  | CommitState.RecoveryRequired =>
      details ← call (object_recovery_marker (object_id manifest));
      match details with
      | Some json => serde (issues_of_json json)
      | None =>
          mret [build_recovery_issue manifest "object_recovery_required" "object requires recovery"
                  ["the object is hidden from S3 reads until a full repair verification succeeds";
                   "re-upload or restore the original source; the server cannot recreate a missing chunk from metadata alone"]]
      end
  | CommitState.Orphaned =>
      mret [build_recovery_issue manifest "orphaned" "orphaned object data"
              ["object metadata is marked orphaned and needs reconciliation"]]
  | CommitState.Tombstoned => mret []
  end.

Fixpoint scan_manifests (journal : list JournalEntry) (ms : list ObjectManifest) : Task (list RecoveryIssue) :=
  match ms with
  | [] => mret []
  | m :: ms => found ← scan_manifest journal m; rest ← scan_manifests journal ms; mret (found ++ rest)
  end.

(** The entries of a directory whose name is not that of an object. *)
Fixpoint stray_entries (dir : string) (relevant : DirEntry -> bool) (stem : string -> string)
    (issue : string -> RecoveryIssue) (entries : list (Result DirEntry ObjectFormatError.t)) : Task (list RecoveryIssue) :=
  match entries with
  | [] => mret []
  | Err e :: _ => fail e
  | Ok entry :: entries =>
      rest ← stray_entries dir relevant stem issue entries;
      mret (if relevant entry && negb (is_some (parse_uuid (stem (de_name entry))))
            then issue (join dir (de_name entry)) :: rest else rest)
  end.

Definition stray_in (root : string) (relevant : DirEntry -> bool) (stem : string -> string)
    (issue : string -> RecoveryIssue) : Task (list RecoveryIssue) :=
  let dir := join data_dir root in
  entries ← perform (ReadDir dir);
  match entries with
  | Ok entries => stray_entries dir relevant stem issue (take 100 entries)
  | Err _ => mret []
  end.

Definition event_issues (events : list IntegrityRecoveryEvent) : list RecoveryIssue :=
  omap (fun e => match issue_of_json (iv_issue_json e) with
                 | Ok issue => Some (issue <| ri_repair_state := Some (iv_state e) |>)
                 | Err _ => None
                 end) events.

Definition recovery_issues : Task (list RecoveryIssue) :=
  manifests ← call list_manifests;
  journal ← call list_journal_entries;
  issues ← scan_manifests journal (take 100 manifests);
  staging ← stray_in STAGING_ROOT de_is_dir id (fun p => stray_issue p "orphaned_staging_dir"
    "orphaned staging directory" "directory is not tied to an active upload");
  files ← stray_in MANIFEST_ROOT de_is_file json_stem (fun p => stray_issue p "orphaned_manifest_file"
    "orphaned manifest file" "manifest file does not match a tracked object");
  dirs ← stray_in CHUNK_ROOT de_is_dir id (fun p => stray_issue p "orphaned_chunk_dir"
    "orphaned chunk directory" "chunk directory is not tied to a tracked object");
  events ← call list_integrity_recovery_events;
  mret (merge_sort issue_le (issues ++ staging ++ files ++ dirs ++ event_issues events)).

(** ** The cached result *)

Record RecoverySnapshot : Type := {
  rs_checked_at : option Z;
  rs_issues : list RecoveryIssue;
  rs_error : option string
}.

Definition refresh_recovery_snapshot (snapshot : RecoverySnapshot)
    : Proc (Result unit ObjectFormatError.t * RecoverySnapshot) :=
  proc_bind (fun result =>
    Perform Ambient (fun E =>
      let finished := Some (unix_timestamp (now_utc_at E 0)) in
      Return (match result with
              | Ok issues => (Ok tt, {| rs_checked_at := finished; rs_issues := issues; rs_error := None |})
              | Err error => (Err error, {| rs_checked_at := finished; rs_issues := rs_issues snapshot;
                                            rs_error := Some (ObjectFormatError.to_string error) |})
              end))) recovery_issues.

Definition clear_recovery_snapshot (E : Env) : RecoverySnapshot :=
  {| rs_checked_at := Some (unix_timestamp (now_utc_at E 0)); rs_issues := []; rs_error := None |}.
End Scan.

(** ** The sample is of distinct chunks *)

Lemma NoDup_replace (l : list nat) i x : NoDup l -> x ∉ l -> NoDup (<[i := x]> l).
Proof.
  intros Hl Hx. destruct (decide (i < length l)%nat) as [Hi|Hi]; [|by rewrite list_insert_ge by lia].
  rewrite insert_take_drop by done. rewrite <- (take_drop i l) in Hl, Hx.
  rewrite (drop_S l (nth i l 0%nat) i) in Hl, Hx by (apply nth_lookup_Some with 0%nat || (rewrite nth_lookup; destruct (lookup_lt_is_Some_2 l i Hi) as [y ->]; done)).
  rewrite NoDup_app, NoDup_cons in *. set_solver.
Qed.

Lemma sample_from_ok below requested count index selected :
  NoDup selected -> Forall (fun i => (i < index)%nat) selected -> length selected = Nat.min requested index ->
  let sample := sample_from below requested index count selected in
  NoDup sample /\ Forall (fun i => (i < index + count)%nat) sample /\ length sample = Nat.min requested (index + count).
Proof.
  revert index selected. induction count as [|count IH]; intros index selected Hn Hf Hl; cbn [sample_from].
  - split; [done|]. rewrite Nat.add_0_r. done.
  - replace (index + S count)%nat with (S index + count)%nat by lia.
    assert (index ∉ selected) as Hout by (intros Hin; rewrite Forall_forall in Hf; specialize (Hf _ Hin); lia).
    assert (Forall (fun i => (i < S index)%nat) selected) as Hf' by (eapply Forall_impl; [exact Hf|]; cbn; lia).
    destruct (Nat.ltb_spec (length selected) requested); [|destruct (Nat.ltb_spec (below index) requested)]; apply IH.
    + apply NoDup_app. split_and!; [done| |apply NoDup_singleton]. intros x Hx ->%list_elem_of_singleton. done.
    + apply Forall_app. split; [done|]. constructor; [lia|constructor].
    + rewrite length_app. cbn. lia.
    + by apply NoDup_replace.
    + apply Forall_insert; [done|lia].
    + rewrite length_insert. lia.
    + done.
    + done.
    + lia.
Qed.

(** A sample consists of distinct chunks of the object, as many as were asked
    for or all of them. *)
Lemma random_chunk_sample_ok below count requested :
  let sample := random_chunk_sample below count requested in
  NoDup sample /\ Forall (fun i => (i < count)%nat) sample /\ length sample = Nat.min (Z.to_nat requested) count.
Proof.
  unfold random_chunk_sample. set (n := Nat.min _ _).
  destruct (Nat.eqb_spec n 0) as [E|E]; cbn [orb]; [split_and!; [apply NoDup_nil_2|apply Forall_nil_2|done]|].
  destruct (Nat.eqb_spec count 0) as [E'|E']; [lia|].
  destruct (sample_from_ok below n count 0 [] NoDup_nil_2 (Forall_nil_2 _) (eq_sym (Nat.min_0_r n))) as (? & ? & H).
  split_and!; [done|done|]. rewrite H. lia.
Qed.

(** What [random_below] accepts is a multiple of [upper], so that every remainder
    is equally likely. *)
Lemma random_below_uniform upper :
  0 < upper <= U64_MAX -> (U64_MAX + 1 - u64_wrap (- upper) mod upper) mod upper = 0.
Proof.
  intros Hu. unfold u64_wrap. replace (- upper mod (U64_MAX + 1)) with (U64_MAX + 1 - upper).
  - replace ((U64_MAX + 1 - upper) mod upper) with ((U64_MAX + 1) mod upper).
    + by rewrite Zminus_mod, Zmod_mod, Z.sub_diag, Zmod_0_l.
    + by rewrite (Zminus_mod (U64_MAX + 1) upper upper), Z_mod_same_full, Z.sub_0_r, Zmod_mod.
  - apply (Z.mod_unique _ _ (-1)); unfold U64_MAX in *; lia.
Qed.

(** ** Moved chunks *)

Definition cr_location (r : ChunkReplica) : TelegramLocation :=
  {| peer_id := cr_telegram_peer_id r; message_id := cr_telegram_message_id r;
     document_id := cr_telegram_document_id r |}.

Section Moved.
Context (decrypt_chunk : Uuid -> Z -> list byte -> Result (list byte) ObjectFormatError.t).
Context (sha256_hex : list byte -> string).
(** [stored b l]: the bytes [b] were uploaded, to the location [l]. *)
Context (stored : list byte -> TelegramLocation -> Prop).

(** The bytes open to contents with the checksum of the chunk. *)
Definition verifies (m : ObjectManifest) (c : ChunkRef) (b : list byte) : Prop :=
  exists p, opened decrypt_chunk m c b = Ok p /\ sha256_hex p = checksum c.

(** Bytes that verify were uploaded to [l]. *)
Definition renewed (m : ObjectManifest) (c : ChunkRef) (l : TelegramLocation) : Prop :=
  exists b, stored b l /\ verifies m c b.

Definition placed (m : ObjectManifest) (c : ChunkRef) (l old : TelegramLocation) : Prop := l = old \/ renewed m c l.

(** [c'] is [c], read from elsewhere. *)
Record moved (m : ObjectManifest) (c c' : ChunkRef) : Prop := {
  mv_same : c' = moved_primary (primary_location c') c <| replicas := replicas c' |>;
  mv_primary : placed m c (primary_location c') (primary_location c);
  mv_replicas : Forall (fun r' => exists r, In r (replicas c) /\ r' = moved_replica (cr_location r') r /\
                                      placed m c (cr_location r') (cr_location r)) (replicas c')
}.

(** [m'] is [m] with its chunks read from elsewhere, in whatever state. *)
Record relocated (m m' : ObjectManifest) : Prop := {
  re_same : m' = m <| chunks := chunks m' |> <| commit_state := commit_state m' |>;
  re_chunks : Forall2 (moved m) (chunks m) (chunks m')
}.

Lemma replica_here r : r = moved_replica (cr_location r) r.
Proof. by destruct r. Qed.

Lemma moved_refl m c : moved m c c.
Proof.
  split; [by destruct c|by left|]. apply Forall_forall. intros r Hr. exists r.
  split_and!; [by apply list_elem_of_In|apply replica_here|by left].
Qed.

Lemma verifies_moved m m' c c' b : moved m c c' -> (encryption m', object_id m') = (encryption m, object_id m) ->
  verifies m' c' b <-> verifies m c b.
Proof.
  intros [-> _ _] [= He Hi]. unfold verifies, opened. rewrite He, Hi. done.
Qed.

Lemma renewed_moved m m' c c' l : moved m c c' -> (encryption m', object_id m') = (encryption m, object_id m) ->
  renewed m' c' l -> renewed m c l.
Proof. intros Hm He (b & Hb & Hv). exists b. split; [done|]. by apply (verifies_moved m m' c c' b Hm He). Qed.

Lemma moved_trans m m' c c1 c2 : moved m c c1 -> (encryption m', object_id m') = (encryption m, object_id m) ->
  moved m' c1 c2 -> moved m c c2.
Proof.
  intros H1 He H2. pose proof (fun l => renewed_moved m m' c c1 l H1 He) as Hr.
  destruct H1 as [E1 P1 R1], H2 as [E2 P2 R2]. split.
  - rewrite E2 at 1. rewrite E1. done.
  - destruct P2 as [->|?]; [done|right; auto].
  - rewrite Forall_forall in *. intros r2 Hr2. destruct (R2 r2 Hr2) as (r1 & Hin1 & Er2 & Hp2).
    destruct (R1 r1 ltac:(by apply list_elem_of_In)) as (r & Hin & Er1 & Hp1). exists r.
    split_and!; [done|by rewrite Er2, Er1|]. destruct Hp2 as [->|?]; [done|right; auto].
Qed.

Lemma moved_all_refl m cs : Forall2 (moved m) cs cs.
Proof. apply Forall_Forall2_diag, Forall_forall. intros c _. apply moved_refl. Qed.

Lemma relocated_refl m : relocated m m.
Proof. split; [by destruct m|apply moved_all_refl]. Qed.

Lemma moved_all_trans m m' cs cs1 cs2 : Forall2 (moved m) cs cs1 ->
  (encryption m', object_id m') = (encryption m, object_id m) -> Forall2 (moved m') cs1 cs2 -> Forall2 (moved m) cs cs2.
Proof.
  intros H He. revert cs2. induction H as [|c c1 cs cs1 Hc _ IH]; intros cs2 H2; inversion H2; subst; constructor.
  - by eapply moved_trans.
  - by apply IH.
Qed.

Lemma relocated_trans m m1 m2 : relocated m m1 -> relocated m1 m2 -> relocated m m2.
Proof.
  intros [E1 C1] [E2 C2]. split.
  - rewrite E2 at 1. rewrite E1. done.
  - eapply moved_all_trans; [exact C1| |exact C2]. by rewrite E1.
Qed.

(** Moving a chunk again. *)
Lemma moved_to_primary m c c' l : moved m c c' -> renewed m c l -> moved m c (moved_primary l c').
Proof.
  intros [E P R] Hl. split; [by rewrite E|right; by destruct l|done].
Qed.

Lemma moved_to_replica m c c' account l : moved m c c' -> renewed m c l ->
  moved m c (c' <| replicas ::= move_first account l |>).
Proof.
  intros [E P R] Hl. split; [by rewrite E|done|]. cbn. clear E P.
  induction R as [|r' rs (r & Hin & Er & Hp) HR IH]; cbn; [constructor|].
  case_bool_decide; constructor; [|done|by exists r|done].
  exists r. split_and!; [done|by rewrite Er; destruct l|right; by destruct l].
Qed.

Lemma moved_without m c c' p : moved m c c' -> moved m c (c' <| replicas ::= List.filter p |>).
Proof.
  intros [E P R]. split; [by rewrite E|done|]. cbn. rewrite Forall_forall in *. intros r Hr.
  apply R, list_elem_of_In. apply list_elem_of_In, filter_In in Hr as [Hr _]. done.
Qed.
End Moved.

(** ** What a scan does *)

Lemma load_account_reads `{BootstrapJson} id db : (load_account id db).2 = db.
Proof.
  unfold load_account, mbind, M_bind, query. destruct (telegram_accounts db !! id); [|done].
  unfold lift. cbn. by destruct (account_record _ _ _).
Qed.

Lemma list_accounts_reads `{BootstrapJson} db : (list_telegram_accounts db).2 = db.
Proof.
  unfold list_telegram_accounts, mbind at 1, M_bind at 1, query. set (ids := map fst _). clearbody ids. revert db.
  induction ids as [|id ids IH]; intros db; [done|]. cbn [load_accounts]. unfold mbind at 1, M_bind at 1.
  pose proof (load_account_reads id db) as Hr. destruct (load_account id db) as [[[a|]|e] d]; cbn in Hr; subst d; try done.
  unfold mbind at 1, M_bind at 1. cbn [some_or mret M_ret]. unfold mbind at 1, M_bind at 1.
  specialize (IH db). destruct (load_accounts ids db) as [[rest|e] d]; cbn in *; subst; done.
Qed.

(** The part of the store that decides what is visible. *)
Definition core (db : Db) := (object_manifests db, active_objects db, app_settings db).

(** The answers of Telegram: [stored] of uploads, [fetched] of downloads. *)
Definition telegram_answers (stored : list byte -> TelegramLocation -> Prop)
    (fetched : option string -> string -> Z -> Result (list byte) ObjectFormatError.t -> Prop) (B : Type) (e : Io B)
    : B -> Prop :=
  match e in Io B return B -> Prop with
  | UploadReplica _ _ _ b => on_ok (stored b)
  | DownloadMessage t p n => fetched t p n
  | _ => fun _ => True
  end.

Section ScanFacts.
Context `{BootstrapJson}.
Context (decrypt_chunk : Uuid -> Z -> list byte -> Result (list byte) ObjectFormatError.t).
Context (sha256_hex : list byte -> string).
Context (sha256 : list byte -> list byte) (hex_encode : list byte -> string) (uuid_bytes : Uuid -> list byte).
Context (issue_json : RecoveryIssue -> Result string string).
Context (stored : list byte -> TelegramLocation -> Prop).
Context (fetched : option string -> string -> Z -> Result (list byte) ObjectFormatError.t -> Prop).
Context (I : Db -> Prop) (Hcore : forall db db', core db' = core db -> I db -> I db').

Abbreviation rely := (telegram_answers stored fetched).
Abbreviation verifies := (verifies decrypt_chunk sha256_hex).
Abbreviation renewed := (renewed decrypt_chunk sha256_hex stored).
Abbreviation moved := (moved decrypt_chunk sha256_hex stored).

Lemma core_preserves {A} (m : M A) : steps (same core) m -> preserves I m.
Proof. intros Hm db. apply Hcore, Hm. Qed.

Lemma insert_replica_core E o n a md l : steps (same core) (insert_replica_location E o n a md l).
Proof.
  apply steps_bind; [apply _|apply foreign_key_same|intros _]. by apply steps_modify.
Qed.

(** A download of the location would not show damage. *)
Definition sound_at (m : ObjectManifest) (c : ChunkRef) (t : option string) (peer : string) (n : Z) : Prop :=
  - I32_MAX - 1 <= n <= I32_MAX /\
  forall x, fetched t peer n x ->
    match x with Ok b => verifies m c b | Err e => contains "not found" (ObjectFormatError.to_string e) = false end.

Definition sound (m : ObjectManifest) (c : ChunkRef) : Prop :=
  sound_at m c None (telegram_peer_id c) (telegram_message_id c).

Lemma transport_does account active :
  does I rely free (transport_for_account account active) (fun t => account = active -> t = None).
Proof.
  unfold transport_for_account. destruct (_ || _) eqn:E; (eapply does_bind; [by apply does_perform_ok with (Q := fun _ => True)|intros _ _]);
    apply does_ret; [done|]. intros ->. rewrite bool_decide_eq_true_2 in E; done.
Qed.

Lemma check_ciphertext_ok m c b b' : check_ciphertext decrypt_chunk sha256_hex m c b = Ok b' -> b' = b /\ verifies m c b.
Proof.
  unfold check_ciphertext. destruct (opened decrypt_chunk m c b) as [p|e] eqn:E; [|done].
  destruct (negb _) eqn:Ec; [done|]. bool_hyps. intros [= <-]. split; [done|]. by exists p.
Qed.

Lemma check_ciphertext_verifies m c b : verifies m c b -> check_ciphertext decrypt_chunk sha256_hex m c b = Ok b.
Proof. intros (p & Hp & Hc). unfold check_ciphertext. rewrite Hp, bool_decide_eq_true_2; done. Qed.

Lemma verify_does m c loc t :
  does I rely free (verify_integrity_location decrypt_chunk sha256_hex m c loc t) (fun r =>
    match r with
    | Ok b => verifies m c b
    | Err f => sound_at m c t (il_peer_id loc) (il_message_id loc) -> if_kind f = "unavailable"
    end).
Proof.
  unfold verify_integrity_location. destruct (_ || _) eqn:E.
  - apply does_ret. intros [Hr _]. lia.
  - eapply does_bind; [by apply does_perform with (Q := fetched t (il_peer_id loc) (il_message_id loc))|].
    intros [b|e] Hx; apply does_ret.
    + destruct (check_ciphertext _ _ m c b) as [b'|f] eqn:Eb; [by apply check_ciphertext_ok in Eb as [-> ?]|].
      intros [_ Hs]. specialize (Hs _ Hx). cbn in Hs. by rewrite check_ciphertext_verifies in Eb.
    + intros [_ Hs]. specialize (Hs _ Hx). cbn in Hs. cbn. by rewrite Hs.
Qed.

(** A failure at the place the chunk is read from is no damage if that place is
    sound. *)
Definition excused (m : ObjectManifest) (c : ChunkRef) (x : IntegrityLocation * IntegrityFailure) : Prop :=
  il_primary x.1 = true -> sound m c -> if_kind x.2 = "unavailable".

Definition is_main (c : ChunkRef) (active : string) (loc : IntegrityLocation) : Prop :=
  il_primary loc = true ->
  il_account_id loc = active /\ il_peer_id loc = telegram_peer_id c /\ il_message_id loc = telegram_message_id c.

Lemma check_locations_does m c active locs healthy failures :
  Forall (is_main c active) locs -> (forall b, healthy = Some b -> verifies m c b) -> Forall (excused m c) failures ->
  does I rely free (check_locations decrypt_chunk sha256_hex m c active locs healthy failures) (fun r =>
    (forall b, r.1 = Some b -> verifies m c b) /\ Forall (excused m c) r.2).
Proof.
  intros Hlocs. revert healthy failures. induction Hlocs as [|loc locs Hmain _ IH]; intros healthy failures Hh Hf.
  { by apply does_ret. }
  cbn [check_locations]. eapply does_bind; [apply does_settle, transport_does|]. intros t Ht.
  apply does_bind with (Q := fun r => match r with
    | Ok b => verifies m c b | Err f => excused m c (loc, f) end).
  - destruct t as [t|e]; [|by apply does_ret]. eapply does_mono; [|apply verify_does].
    intros [b|f]; [done|]. intros Hk Hp Hs. cbn in *. destruct (Hmain Hp) as (Ha & Hpeer & Hn).
    apply Hk. rewrite (Ht Ha), Hpeer, Hn. exact Hs.
  - intros [b|f] Hr; apply IH; try done.
    + intros b'. destruct healthy as [h|]; [by intros [= <-]; apply Hh|by intros [= <-]].
    + apply Forall_app. split; [done|]. by constructor.
Qed.

Lemma locations_main labels active c : Forall (is_main c active) (locations_of labels active c).
Proof.
  constructor; [done|]. apply Forall_forall. intros l (r & <- & _)%list_elem_of_In%in_map_iff. done.
Qed.

(** The chunks are those of [m], moved; and nothing was found at the places they
    are read from. *)
Definition kept (m : ObjectManifest) (s : Inspection) : Prop := Forall2 (moved m) (chunks m) (in_chunks s).

Definition calm (m : ObjectManifest) (s : Inspection) : Prop :=
  Forall2 (fun c c' => primary_location c' = primary_location c) (chunks m) (in_chunks s) /\
  in_missing s = [] /\ in_corrupted s = [].

Definition settled (m : ObjectManifest) (c : ChunkRef) (s s' : Inspection) : Prop :=
  kept m s' /\ (sound m c -> calm m s -> calm m s').

Lemma settled_refl m c s : kept m s -> settled m c s s.
Proof. done. Qed.

Lemma settled_trans m c s s1 s2 : settled m c s s1 -> settled m c s1 s2 -> settled m c s s2.
Proof. intros [_ H1] [K2 H2]. split; auto. Qed.

Lemma settled_alter m c s f index :
  kept m s ->
  (forall c c', chunks m !! index = Some c -> moved m c c' -> moved m c (f c') /\
     primary_location (f c') = primary_location c') ->
  settled m c s (s <| in_chunks ::= alter f index |>).
Proof.
  intros Hk Hf. split.
  - eapply Forall2_alter_r; [exact Hk|]. intros x y Hx _ Hm. by apply Hf.
  - intros _ (Hp & Hrest). split; [|done]. unfold kept in Hk. cbn in *. revert index Hf Hp.
    induction Hk as [|x y xs ys Hxy Hk IH]; intros [|i] Hf Hp; inversion Hp; subst; cbn; constructor; try done.
    + destruct (Hf x y eq_refl Hxy) as [_ ->]. done.
    + apply IH; [|done]. intros c1 c1' Hc1. by apply Hf.
Qed.

Lemma serde_does {A} (r : Result A string) : does I rely free (serde r) (fun _ => True).
Proof. by destruct r. Qed.

Section Chunk.
Context (m : ObjectManifest) (index : nat) (chunk : ChunkRef) (active : string) (healthy : option (list byte)).
Context (Hhealthy : forall b c, healthy = Some b -> chunks m !! index = Some c -> verifies m c b).

Lemma repair_location_does loc source :
  healthy = Some source ->
  does I rely free (repair_integrity_location m chunk loc source active) (fun o =>
    forall l c, o = Some l -> chunks m !! index = Some c -> renewed m c l).
Proof.
  intros Hs. unfold repair_integrity_location. destruct (_ || _); [|by apply does_ret].
  eapply does_bind; [apply transport_does|intros _ _].
  eapply does_bind; [by apply does_perform_ok with (Q := stored source)|]. intros l Hl. apply does_ret.
  intros l' c [= <-] Hc. exists source. split; [done|]. by apply Hhealthy.
Qed.

Lemma relocate_does loc l s :
  kept m s -> (il_primary loc = true -> ~ sound m chunk) -> (forall c, chunks m !! index = Some c -> renewed m c l) ->
  does I rely free (relocate m index chunk loc l s) (settled m chunk s).
Proof.
  intros Hk Hp Hl. unfold relocate. destruct (il_primary loc) eqn:E.
  - apply does_ret. split; [|by intros ?%Hp]. eapply Forall2_alter_r; [exact Hk|]. intros c c' Hc _ Hm.
    apply moved_to_primary; auto.
  - destruct (in_chunks s !! index) as [target|]; [|by apply does_ret]. destruct (existsb _ _); [|by apply does_ret].
    eapply does_bind; [by apply does_perform with (Q := fun _ => True)|intros E' _].
    eapply does_bind; [apply does_update, core_preserves, insert_replica_core|intros _ _]. apply does_ret.
    apply settled_alter; [done|]. intros c c' Hc Hm. split; [|done]. apply moved_to_replica; auto.
Qed.

Lemma repair_does loc f issue s :
  kept m s -> excused m chunk (loc, f) ->
  does I rely free (repair m index chunk active healthy loc f issue s) (fun r => settled m chunk s r.2).
Proof.
  intros Hk Hex. unfold repair. pose proof (repair_location_does loc) as Hl.
  destruct healthy as [source|]; [|by apply does_ret]. destruct (_ && _) eqn:Ed; [|by apply does_ret].
  eapply does_bind; [by apply does_settle, Hl|].
  intros [[l|]|e] Hr; [|by apply does_ret..].
  eapply does_bind; [apply relocate_does; [done| |]|intros s' Hs'; by apply does_ret].
  - intros Hp Hsound. specialize (Hex Hp Hsound). cbn in Hex. rewrite Hex in Ed. done.
  - intros c Hc. by apply (Hr l c).
Qed.

Lemma persist_does issue state :
  does I rely free (persist_integrity_event sha256 hex_encode uuid_bytes issue_json issue state) (fun _ => True).
Proof.
  eapply does_bind; [apply serde_does|intros json _].
  eapply does_bind; [by apply does_perform with (Q := fun _ => True)|intros E _].
  apply does_update, core_preserves. by apply steps_modify.
Qed.

Lemma settle_failure_does loc f s :
  kept m s -> excused m chunk (loc, f) ->
  does I rely free (settle_failure sha256 hex_encode uuid_bytes issue_json m index chunk active healthy loc f s)
    (settled m chunk s).
Proof.
  intros Hk Hex. unfold settle_failure. eapply does_bind; [by apply repair_does|].
  intros [[repaired issue] s'] Hs'. cbn in Hs'. pose proof (proj1 Hs') as Hk'. destruct repaired.
  - eapply does_bind; [apply persist_does|intros _ _]. by apply does_ret.
  - eapply does_bind; [apply persist_does|intros _ _]. destruct (il_primary loc) eqn:Ep.
    + apply does_ret. eapply settled_trans; [exact Hs'|]. split; [by repeat case_match|].
      intros Hsound. specialize (Hex Ep Hsound). cbn in Hex. by rewrite Hex.
    + destruct (_ && _); [|by apply does_ret].
      eapply does_bind; [apply does_update, core_preserves; by apply steps_modify|intros _ _]. apply does_ret.
      eapply settled_trans; [exact Hs'|]. apply settled_alter; [done|]. intros c c' _ Hm. split; [|done].
      by apply moved_without.
Qed.

Lemma settle_failures_does failures s :
  kept m s -> Forall (excused m chunk) failures ->
  does I rely free (settle_failures sha256 hex_encode uuid_bytes issue_json m index chunk active healthy failures s)
    (settled m chunk s).
Proof.
  intros Hk Hf. revert s Hk. induction Hf as [|[loc f] failures Hex _ IH]; intros s Hk; [by apply does_ret|].
  cbn [settle_failures]. eapply does_bind; [by apply settle_failure_does|]. intros s' Hs'.
  eapply does_mono; [|apply IH, Hs']. intros s2. by apply settled_trans.
Qed.
End Chunk.

Lemma sound_moved m c c' : moved m c c' -> primary_location c' = primary_location c -> sound m c -> sound m c'.
Proof.
  intros Hm Hp [Hr Hs]. injection Hp as Hpeer Hmsg _. unfold sound, sound_at. rewrite Hpeer, Hmsg. split; [done|].
  intros x Hx. specialize (Hs x Hx). destruct x; [|done]. by apply (verifies_moved _ _ stored m m c c').
Qed.

Definition inspected (m : ObjectManifest) (s s' : Inspection) : Prop :=
  kept m s' /\ (Forall (sound m) (chunks m) -> calm m s -> calm m s').

Lemma inspect_chunks_does m labels active indices s :
  kept m s ->
  does I rely free (inspect_chunks decrypt_chunk sha256_hex sha256 hex_encode uuid_bytes issue_json m labels active indices s)
    (inspected m s).
Proof.
  revert s. induction indices as [|index indices IH]; intros s Hk; cbn [inspect_chunks]; [by apply does_ret|].
  destruct (in_chunks s !! index) as [chunk|] eqn:Ec; [|by apply IH].
  destruct (Forall2_lookup_r _ _ _ _ _ Hk Ec) as (c & Hc & Hm).
  eapply does_bind; [apply check_locations_does; [apply locations_main|done|constructor]|]. intros [healthy failures] [Hh Hf].
  cbn [fst snd] in *.
  eapply does_bind; [apply (settle_failures_does m index chunk active healthy)|].
  - intros b c0 Hb Hc0. simplify_eq. by apply (verifies_moved _ _ stored m m c chunk b Hm eq_refl), Hh.
  - done.
  - done.
  - intros s' [Hk' Hcalm']. eapply does_mono; [|by apply IH]. intros s2 [Hk2 Hcalm2]. split; [done|].
    intros Hall Hcalm. apply Hcalm2; [done|]. apply Hcalm'; [|done]. destruct Hcalm as [Hp _].
    destruct (Forall2_lookup_l _ _ _ _ _ Hp Hc) as (c1 & Hc1 & Hp1). rewrite Ec in Hc1. injection Hc1 as <-.
    apply (sound_moved m c chunk Hm Hp1). rewrite Forall_forall in Hall. by apply Hall, list_elem_of_lookup_2 with index.
Qed.

(** ** Scanning *)

Context (recovery_verify_chunks : Z).
Context (parse_uuid : string -> option string) (uuid_error : string -> string).
Context (issues_json : list RecoveryIssue -> Result string string).
Context (issue_of_json : string -> Result RecoveryIssue string) (issues_of_json : string -> Result (list RecoveryIssue) string).
Context (manifest_json : ObjectManifest -> list byte) (data_dir : string).

(** [m'] may replace [m]: its chunks were moved, those that are sound at their
    place stay there. *)
Record replaces (m m' : ObjectManifest) : Prop := {
  rp_relocated : relocated decrypt_chunk sha256_hex stored m m';
  rp_state : commit_state m' = commit_state m;
  rp_steady : Forall (sound m) (chunks m) ->
    Forall2 (fun c c' => primary_location c' = primary_location c) (chunks m) (chunks m')
}.

(** What is known of the manifests that are listed, and that the three kinds of
    writes keep the invariant. *)
Context (known : ObjectManifest -> Prop).
Context (Hlist : ensures I list_manifests (on_ok (Forall known))).
Context (Hupdate : forall m m', known m -> replaces m m' -> preserves I (update_manifest m')).
Context (Hhide : forall E m, known m -> ~ (Forall (sound m) (chunks m) /\ validate m = Ok tt) ->
  preserves I (update_manifest_state E (object_id m) CommitState.RecoveryRequired)).

Abbreviation inspect := (inspect_committed_manifest decrypt_chunk sha256_hex sha256 hex_encode uuid_bytes issue_json
  recovery_verify_chunks).

Lemma when_some_kind m kind summary details i : In i (when_some m kind summary details) -> ri_kind i = kind.
Proof. unfold when_some. destruct details; [done|]. by intros [<-|[]]. Qed.

Lemma valid_no_details m : validate m = Ok tt -> invalid_details m = [].
Proof.
  intros Hv. unfold invalid_details. rewrite Hv. unfold validate in Hv. destruct (chunks m) as [|c cs]; [|done].
  cbn. destruct (Z.eqb_spec (content_length m) 0) as [->|]; [done|]. cbn in Hv. by repeat case_match.
Qed.

Lemma inspect_does m : known m ->
  does I rely free (inspect m) (fun issues =>
    Forall (sound m) (chunks m) /\ validate m = Ok tt -> Forall (fun i => is_durable i = false) issues).
Proof.
  intros Hm. unfold inspect_committed_manifest.
  eapply does_bind; [by apply does_reads|intros conn _].
  eapply does_bind; [apply does_reads, list_accounts_reads|intros accounts _]. cbv zeta.
  eapply does_bind; [by apply does_perform with (Q := fun _ => True)|intros below _].
  eapply does_bind; [apply inspect_chunks_does, moved_all_refl|]. intros s [Hk Hcalm].
  apply does_bind with (Q := fun _ => True).
  - case_bool_decide; [by apply does_ret|]. eapply does_bind; [apply does_update, (Hupdate m); [done|]|by intros].
    split; [split; [by destruct m|exact Hk]|done|]. intros Hall. apply Hcalm; [done|]. split; [|done].
    apply Forall_Forall2_diag, Forall_forall. done.
  - intros _ _. apply does_ret. intros [Hall Hv]. destruct (Hcalm Hall) as (_ & -> & ->).
    { split; [|done]. apply Forall_Forall2_diag, Forall_forall. done. }
    rewrite (valid_no_details m Hv). cbn. apply Forall_forall. intros i Hi%list_elem_of_In.
    apply when_some_kind in Hi. unfold is_durable. by rewrite Hi.
Qed.

Abbreviation anything := (fun _ => True).

Lemma set_marker_core E o b k d : steps (same core) (set_object_recovery_marker E o b k d).
Proof. unfold set_object_recovery_marker, upsert_marker. by apply steps_modify. Qed.

Lemma scan_committed_does m : known m ->
  does I rely free (scan_committed decrypt_chunk sha256_hex sha256 hex_encode uuid_bytes issue_json issues_json
    recovery_verify_chunks m) anything.
Proof.
  intros Hm. unfold scan_committed. eapply does_bind; [by apply inspect_does|]. intros sampled Hs.
  eapply does_bind; [|intros; by apply does_ret].
  destruct (List.filter is_durable sampled) as [|i others] eqn:Ed; [by apply does_ret with (Q := anything)|].
  eapply does_bind; [by apply does_perform with (Q := anything)|intros E _].
  eapply does_bind; [apply does_update, Hhide; [done|]|intros _ _].
  { intros Hok. specialize (Hs Hok). assert (In i (i :: others)) as Hi by by left. rewrite <- Ed in Hi.
    apply filter_In in Hi as [Hi Hd]. rewrite Forall_forall in Hs. apply list_elem_of_In, Hs in Hi. congruence. }
  eapply does_bind; [apply serde_does|intros json _].
  eapply does_bind; [by apply does_perform with (Q := anything)|intros E' _].
  eapply does_bind; [apply does_update, core_preserves, set_marker_core|intros _ _]. by apply does_ret.
Qed.

Lemma inspect_staged_does m dir cs a b :
  does I rely free (inspect_staged_chunks decrypt_chunk sha256_hex m dir cs a b) anything.
Proof.
  revert a b. induction cs as [|c cs IH]; intros a b; cbn [inspect_staged_chunks]; [by apply does_ret|].
  eapply does_bind with (Q := anything); [|intros r _; apply IH]. unfold inspect_staged_chunk.
  destruct (references_remote_payload c); [by apply does_ret|].
  eapply does_bind; [by apply does_perform with (Q := anything)|intros e _].
  destruct (negb e); [by apply does_ret|].
  eapply does_bind; [by apply does_perform_ok with (Q := anything)|intros bytes _]. by apply does_ret.
Qed.

Lemma inspect_staging_does m op :
  does I rely free (inspect_staging_manifest decrypt_chunk sha256_hex manifest_json data_dir m op) anything.
Proof.
  unfold inspect_staging_manifest.
  eapply does_bind; [by apply does_perform with (Q := anything)|intros e _]. destruct (negb e); [by apply does_ret|].
  eapply does_bind; [by apply does_perform with (Q := anything)|intros e' _].
  eapply does_bind with (Q := anything).
  - destruct (negb e'); [by apply does_ret|].
    eapply does_bind; [by apply does_perform_ok with (Q := anything)|intros bytes _]. by apply does_ret.
  - intros r _. eapply does_bind; [apply inspect_staged_does|intros d _]. by apply does_ret.
Qed.

Lemma scan_manifest_does journal m : known m ->
  does I rely free (scan_manifest decrypt_chunk sha256_hex sha256 hex_encode uuid_bytes issue_json issues_json issues_of_json
    manifest_json data_dir recovery_verify_chunks journal m) anything.
Proof.
  intros Hm. unfold scan_manifest. destruct (commit_state m); [apply inspect_staging_does|by apply scan_committed_does|
    by apply does_ret|by apply does_ret|].
  eapply does_bind; [by apply does_reads|]. intros [json|] _; [apply serde_does|by apply does_ret].
Qed.

Lemma scan_manifests_does journal ms : Forall known ms ->
  does I rely free (scan_manifests decrypt_chunk sha256_hex sha256 hex_encode uuid_bytes issue_json issues_json issues_of_json
    manifest_json data_dir recovery_verify_chunks journal ms) anything.
Proof.
  induction 1 as [|m ms Hm _ IH]; cbn [scan_manifests]; [by apply does_ret|].
  eapply does_bind; [by apply scan_manifest_does|intros found _].
  eapply does_bind; [apply IH|intros rest _]. by apply does_ret.
Qed.

Lemma stray_does root relevant stem issue : does I rely free (stray_in parse_uuid data_dir root relevant stem issue) anything.
Proof.
  unfold stray_in. eapply does_bind; [by apply does_perform with (Q := anything)|].
  intros [entries|e] _; [|by apply does_ret].
  induction (take 100 entries) as [|[x|e] l IH]; cbn [stray_entries]; [by apply does_ret| |by apply does_fail].
  eapply does_bind; [apply IH|intros rest _]. by apply does_ret.
Qed.

Lemma journal_reads db : (list_journal_entries parse_uuid uuid_error db).2 = db.
Proof.
  unfold list_journal_entries, mbind at 1, M_bind at 1, query. set (rows := merge_sort _ _). clearbody rows. revert db.
  induction rows as [|e rows IH]; intros db; [done|]. cbn [journal_entries]. unfold mbind at 1, M_bind at 1.
  assert ((to_journal_entry parse_uuid uuid_error e db).2 = db) as Hr by (unfold to_journal_entry; by repeat case_match).
  destruct (to_journal_entry parse_uuid uuid_error e db) as [[x|err] d]; cbn in Hr; subst d; [|done].
  unfold mbind, M_bind. specialize (IH db). destruct (journal_entries parse_uuid uuid_error rows db) as [[xs|err] d]; done.
Qed.

Lemma recovery_issues_does :
  does I rely free (recovery_issues decrypt_chunk sha256_hex parse_uuid uuid_error sha256 hex_encode uuid_bytes issue_json
    issues_json issue_of_json issues_of_json manifest_json data_dir recovery_verify_chunks) anything.
Proof.
  unfold recovery_issues. eapply does_bind; [apply does_call, Hlist|intros ms Hms].
  eapply does_bind; [apply does_reads, journal_reads|intros journal _].
  eapply does_bind; [apply scan_manifests_does, Forall_take, Hms|intros issues _].
  do 3 (eapply does_bind; [apply stray_does|intros ? _]).
  eapply does_bind; [by apply does_reads|intros events _]. by apply does_ret.
Qed.
End ScanFacts.

(** ** What is listed *)

Definition own_ids (db : Db) : Prop := forall id r, object_manifests db !! id = Some r -> object_id (om_manifest r) = id.

Lemma load_rows_from l ms : load_rows l = Ok ms ->
  Forall (fun m => validate m = Ok tt /\ exists e, In e l /\ om_manifest e.2 = m) ms.
Proof.
  revert ms. induction l as [|e l IH]; intros ms; cbn [load_rows]; [by intros [= <-]|].
  destruct (validate (om_manifest e.2)) as [[]|] eqn:Ev; [|done]. destruct (load_rows l) as [ms'|]; [|done].
  intros [= <-]. constructor; [split; [done|]; exists e; split; [by left|done]|].
  eapply Forall_impl; [by apply IH|]. intros m (Hv & x & Hx & Em). split; [done|]. exists x. split; [by right|done].
Qed.

Lemma list_manifests_from db ms : (list_manifests db).1 = Ok ms ->
  Forall (fun m => validate m = Ok tt /\ exists id r, object_manifests db !! id = Some r /\ om_manifest r = m) ms.
Proof.
  unfold list_manifests, mbind, M_bind, query, lift. intros Hl.
  destruct (load_rows _) as [ms'|] eqn:E; [|done]. injection Hl as <-.
  eapply Forall_impl; [by apply load_rows_from|]. intros m (Hv & [id r] & Hin & <-). split; [done|]. exists id, r.
  split; [|done]. apply elem_of_map_to_list. rewrite merge_sort_Permutation in Hin.
  apply filter_In in Hin as [Hin _]. by apply list_elem_of_In.
Qed.

Lemma ensures_list (I : Db -> Prop) (known : ObjectManifest -> Prop) :
  (forall db id r, I db -> object_manifests db !! id = Some r -> validate (om_manifest r) = Ok tt -> known (om_manifest r)) ->
  ensures I list_manifests (on_ok (Forall known)).
Proof.
  intros Hk db Hdb. split; [|by rewrite <- (list_manifests_reads db)].
  destruct (list_manifests db).1 as [ms|e] eqn:E; [|done]. cbn. apply list_manifests_from in E.
  eapply Forall_impl; [exact E|]. intros m (Hv & id & r & Hr & <-). by eapply Hk.
Qed.

(** ** A scan changes places only *)

Section Contents.
Context `{BootstrapJson}.
Context (decrypt_chunk : Uuid -> Z -> list byte -> Result (list byte) ObjectFormatError.t).
Context (sha256_hex : list byte -> string).
Context (parse_uuid : string -> option string) (uuid_error : string -> string).
Context (sha256 : list byte -> list byte) (hex_encode : list byte -> string) (uuid_bytes : Uuid -> list byte).
Context (issue_json : RecoveryIssue -> Result string string) (issues_json : list RecoveryIssue -> Result string string).
Context (issue_of_json : string -> Result RecoveryIssue string) (issues_of_json : string -> Result (list RecoveryIssue) string).
Context (manifest_json : ObjectManifest -> list byte) (data_dir : string) (recovery_verify_chunks : Z).
Context {W : Type} (answer : forall B, Io B -> W -> B * W).

Abbreviation scan := (recovery_issues decrypt_chunk sha256_hex parse_uuid uuid_error sha256 hex_encode uuid_bytes
  issue_json issues_json issue_of_json issues_of_json manifest_json data_dir recovery_verify_chunks).

(** The bytes were uploaded, to [l]. *)
Definition uploaded (b : list byte) (l : TelegramLocation) : Prop :=
  exists account job n w, (answer _ (UploadReplica account job n b) w).1 = Ok l.

Definition downloaded (t : option string) (peer : string) (n : Z) (x : Result (list byte) ObjectFormatError.t) : Prop :=
  exists w, (answer _ (DownloadMessage t peer n) w).1 = x.

Lemma answers_hold B (e : Io B) w : telegram_answers uploaded downloaded B e (answer B e w).1.
Proof.
  destruct e; cbn; try done.
  - by exists w.
  - destruct (answer _ (UploadReplica account job order bytes) w).1 as [l|err] eqn:E; [|done]. by exists account, job, order, w.
Qed.

Abbreviation relocated := (relocated decrypt_chunk sha256_hex uploaded).

Definition holds (obj : Uuid) (m : ObjectManifest) (db : Db) : Prop :=
  own_ids db /\ exists r, object_manifests db !! obj = Some r /\ relocated m (om_manifest r).

Lemma relocated_id m m' : relocated m m' -> object_id m' = object_id m.
Proof. by intros [-> _]. Qed.

Lemma update_manifest_rows m db :
  object_manifests (update_manifest m db).2 =
    alter (fun r => r <| om_commit_state := commit_state m |> <| om_manifest := m |>) (object_id m) (object_manifests db).
Proof. done. Qed.

Lemma holds_update obj m0 m m' :
  (object_id m = obj -> relocated m0 m) -> relocated m m' -> preserves (holds obj m0) (update_manifest m').
Proof.
  intros Hm Hr db (Hids & r & Hrow & H0). pose proof (relocated_id _ _ Hr) as Hid.
  unfold holds, own_ids. rewrite update_manifest_rows. split.
  - intros id x. rewrite lookup_alter_Some.
    intros [(<- & y & Hy & ->)|[_ Hx]]; [done|by apply Hids].
  - destruct (decide (object_id m' = obj)) as [E|E].
    + rewrite E, lookup_alter_eq, Hrow. eexists. split; [done|]. cbn. eapply relocated_trans; [apply Hm; congruence|done].
    + rewrite lookup_alter_ne by done. by exists r.
Qed.

Definition hidden (r : ManifestRow) : ManifestRow :=
  r <| om_commit_state := CommitState.RecoveryRequired |>
    <| om_manifest := (om_manifest r) <| commit_state := CommitState.RecoveryRequired |> |>.

Lemma hide_cases E obj db :
  let db' := (update_manifest_state E obj CommitState.RecoveryRequired db).2 in
  db' = db \/
  object_manifests db' = alter hidden obj (object_manifests db) /\ app_settings db' = app_settings db /\
  active_objects db' = filter (fun '(_, a) => ao_object_id a <> obj) (active_objects db).
Proof.
  unfold update_manifest_state, transaction, load_manifest_by_object_id, mbind, M_bind, query.
  destruct (object_manifests db !! obj) as [r|] eqn:Er; [|by left].
  destruct (validate (om_manifest r)); [|by left]. right. split; [|done].
  transitivity (alter (fun x => x <| om_commit_state := CommitState.RecoveryRequired |>
    <| om_manifest := (om_manifest r) <| commit_state := CommitState.RecoveryRequired |> |>) obj (object_manifests db)); [done|].
  apply map_eq. intros i. destruct (decide (i = obj)) as [->|]; [|by rewrite !lookup_alter_ne].
  by rewrite !lookup_alter_eq, Er.
Qed.

Lemma holds_hide E obj m0 id : preserves (holds obj m0) (update_manifest_state E id CommitState.RecoveryRequired).
Proof.
  intros db (Hids & r & Hrow & H0). destruct (hide_cases E id db) as [->|(Ho & _)]; [by split; [|exists r]|].
  unfold holds, own_ids. rewrite Ho. split.
  - intros i y. rewrite lookup_alter_Some. intros [(<- & z & Hz & ->)|[_ Hy]]; [cbn; by apply Hids|by apply Hids].
  - destruct (decide (id = obj)) as [->|].
    + rewrite lookup_alter_eq, Hrow. eexists. split; [done|]. cbn. destruct H0 as [E0 C0]. split; [by rewrite E0|done].
    + rewrite lookup_alter_ne by done. by exists r.
Qed.

(** C18: A scan changes nothing of an object but its state and the places its
    chunks are read from, and every new place was verified: each chunk keeps its
    order, offset, size, checksum and encryption identity, is read from where it
    was or from where bytes were uploaded that open to contents with its
    checksum, and each replica it has afterwards is one it had, of the same
    account, at its old place or at such a place. *)
Theorem scan_moves_only_verified obj r w db (Hwf : catalog_wf db) (Hrow : object_manifests db !! obj = Some r) :
  exists r', object_manifests (interp answer scan w db).2 !! obj = Some r' /\ relocated (om_manifest r) (om_manifest r').
Proof.
  apply (abides_interp (holds obj (om_manifest r)) _ free answer scan (fun _ => True) w db answers_hold).
  - split; [|exists r; split; [done|apply relocated_refl]]. intros id x Hx. by apply (cw_rows db Hwf).
  - eapply abides_mono; [|apply (recovery_issues_does _ _ _ _ _ _ uploaded downloaded _) with
      (known := fun m => object_id m = obj -> relocated (om_manifest r) m)]; [done|..].
    + intros d d' [= Ho _ _]. unfold holds, own_ids. by rewrite Ho.
    + apply ensures_list. intros d id x (Hids & r' & Hr' & Hre) Hx _ Hid. rewrite (Hids id x Hx) in Hid. subst id.
      rewrite Hr' in Hx. by injection Hx as <-.
    + intros m m' Hm [Hr _ _]. by eapply holds_update.
    + intros E m _ _. apply holds_hide.
Qed.

(** ** Healthy objects stay *)

Definition usable (l : TelegramLocation) : Prop := trim_is_empty (peer_id l) = false /\ 0 < message_id l.

Definition valid_replica (r : ChunkReplica) : Prop :=
  trim_is_empty (cr_account_id r) = false /\ usable (cr_location r).

Lemma validate_replicas_all rs : validate_replicas rs = Ok tt <-> Forall valid_replica rs.
Proof.
  unfold valid_replica, usable. induction rs as [|r rs IH]; cbn; [done|]. rewrite Forall_cons, <- IH.
  destruct (trim_is_empty (cr_account_id r)); [by split; [|intros [[] ?]]|].
  destruct (trim_is_empty (cr_telegram_peer_id r)); [by split; [|intros [[? []] ?]]|].
  destruct (Z.leb_spec (cr_telegram_message_id r) 0); [split; [done|intros [[_ [_ ?]] _]; lia]|]. naive_solver.
Qed.

(** One invalid manifest ends the scan: the listing fails before the check that
    would report it as [invalid_manifest] is reached. *)
Theorem invalid_manifest_ends_scan id r w db (Hrow : object_manifests db !! id = Some r)
    (Hcon : om_connection_id r = active_connection_id db) (Hbad : validate (om_manifest r) <> Ok tt) :
  exists e, (interp answer scan w db).1.1 = Err e.
Proof.
  unfold recovery_issues, call. cbn. destruct (list_manifests db) as [[ms|e] db'] eqn:E; cbn; [|by eexists].
  pose proof (list_manifests_reads db) as Hsame. rewrite E in Hsame. cbn in Hsame. subst db'. destruct Hbad.
  assert ((list_manifests db).1 = Ok ms) as El by by rewrite E. apply list_manifests_from in El.
  rewrite List.Forall_forall in El. by apply (El (om_manifest r)), (list_manifests_all db ms E id).
Qed.

Section Healthy.
(** Telegram names usable places of what is uploaded. *)
Context (Husable : forall b l, uploaded b l -> usable l).

Abbreviation moved := (moved decrypt_chunk sha256_hex uploaded).

Lemma validate_moved m i off c c' n :
  moved m c c' -> primary_location c' = primary_location c ->
  validate_chunk i off c = Ok n -> validate_chunk i off c' = Ok n.
Proof.
  intros [E _ R] Hp. assert (c' = c <| replicas := replicas c' |>) as ->.
  { rewrite E at 1. rewrite Hp. by destruct c. }
  unfold validate_chunk. change (validate_replicas (replicas (c <| replicas := replicas c' |>))) with (validate_replicas (replicas c')).
  change (references_remote_payload (c <| replicas := replicas c' |>)) with (references_remote_payload c). cbn.
  repeat (case_match; try done). all: try (intros; congruence).
  assert (validate_replicas (replicas c') = Ok tt) as Hv; [|congruence].
  apply validate_replicas_all. match goal with Hr : validate_replicas (replicas c) = Ok ?u |- _ =>
    destruct u; apply validate_replicas_all in Hr; rewrite Forall_forall in Hr, R; rename Hr into Hold end.
  apply Forall_forall. intros r' (r & Hin & Er & Hpl)%R. apply list_elem_of_In, Hold in Hin as [Ha Hu].
  split; [by rewrite Er|]. destruct Hpl as [->|(b & Hb & _)]; [done|by eapply Husable].
Qed.

Lemma validate_relocated m m' :
  relocated m m' -> Forall2 (fun c c' => primary_location c' = primary_location c) (chunks m) (chunks m') ->
  validate m = Ok tt -> validate m' = Ok tt.
Proof.
  intros [E C] Hp. assert (forall i off n, validate_chunks i off (chunks m) = Ok n -> validate_chunks i off (chunks m') = Ok n) as Hc.
  { clear E. revert Hp. induction C as [|c c' cs cs' Hm _ IH]; intros Hp i off n; [done|]. inversion Hp; subst.
    cbn [validate_chunks]. destruct (validate_chunk i off c) as [k|] eqn:Ek; [|done].
    rewrite (validate_moved m i off c c' k) by done. by apply IH. }
  rewrite E. unfold validate. remember (chunks m) as l eqn:El. remember (chunks m') as l' eqn:El'. clear El El' E Hp.
  cbn -[validate_chunks]. destruct C as [|c c' cs cs' Hm C]; [done|].
  destruct (validate_chunks 0 0 (c :: cs)) as [n|e] eqn:En; [rewrite (Hc _ _ _ En); done|].
  by repeat case_match.
Qed.

(** [m'] is [m], read from the same places, in the same state, and valid. *)
Record stays (m m' : ObjectManifest) : Prop := {
  st_relocated : relocated m m';
  st_places : Forall2 (fun c c' => primary_location c' = primary_location c) (chunks m) (chunks m');
  st_state : commit_state m' = commit_state m;
  st_valid : validate m' = Ok tt
}.

Abbreviation sound := (sound decrypt_chunk sha256_hex downloaded).

Lemma stays_sound m m' : stays m m' -> Forall (sound m) (chunks m) -> Forall (sound m') (chunks m').
Proof.
  intros [[E C] Hp _ _] Hs. assert ((encryption m', object_id m') = (encryption m, object_id m)) as He by (by rewrite E).
  clear E. revert Hp Hs. induction C as [|c c' cs cs' Hm _ IH]; intros Hp Hs; [done|].
  inversion Hp; inversion Hs; subst. constructor; [|by apply IH].
  destruct (sound_moved decrypt_chunk sha256_hex uploaded downloaded m c c') as [Hr Hb]; [done..|]. split; [done|].
  intros x Hx. specialize (Hb x Hx). destruct x as [b|]; [|done].
  apply (verifies_moved decrypt_chunk sha256_hex uploaded m m' c c' b Hm He). by apply (verifies_moved _ _ uploaded m m c c' b Hm eq_refl).
Qed.

(** The key shows [obj], whose manifest is that of [m0]. *)
Definition visible_as (bkt k obj : string) (m0 : ObjectManifest) (db : Db) : Prop :=
  own_ids db /\ exists a r, active_objects db !! (bkt, k) = Some a /\ ao_object_id a = obj /\
    object_manifests db !! obj = Some r /\ om_connection_id r = active_connection_id db /\ stays m0 (om_manifest r).

Lemma visible_update bkt k obj m0 m m' :
  Forall (sound m0) (chunks m0) -> (object_id m = obj -> stays m0 m) ->
  replaces decrypt_chunk sha256_hex uploaded downloaded m m' ->
  preserves (visible_as bkt k obj m0) (update_manifest m').
Proof.
  intros Hs Hm [Hr Hst Hp] db (Hids & a & r & Ha & Hao & Hrow & Hcon & H0). pose proof (relocated_id _ _ Hr) as Hid. split.
  - intros id x. rewrite update_manifest_rows, lookup_alter_Some.
    intros [(<- & y & Hy & ->)|[_ Hx]]; [done|by apply Hids].
  - exists a. rewrite update_manifest_rows. destruct (decide (object_id m' = obj)) as [E|E].
    + rewrite E, lookup_alter_eq, Hrow. eexists. split_and!; [done..|]. cbn.
      specialize (Hm ltac:(congruence)). pose proof (stays_sound _ _ Hm Hs) as Hs'. destruct Hm as [R1 P1 S1 V1].
      split; [by eapply relocated_trans| |congruence|].
      * specialize (Hp Hs'). clear -P1 Hp. revert Hp. generalize (chunks m'). induction P1; intros cs Hcs; inversion Hcs; subst; constructor; [congruence|auto].
      * by apply (validate_relocated m); [|apply Hp|].
    + rewrite lookup_alter_ne by done. by exists r.
Qed.

Lemma visible_hide E bkt k obj m0 id : id <> obj ->
  preserves (visible_as bkt k obj m0) (update_manifest_state E id CommitState.RecoveryRequired).
Proof.
  intros Hne db (Hids & a & r & Ha & Hao & Hrow & Hcon & H0).
  destruct (hide_cases E id db) as [->|(Ho & Hset & Hact)]; [by split; [|exists a, r]|].
  unfold visible_as, own_ids, active_connection_id. rewrite Ho, Hset, Hact. split.
  - intros i y. rewrite lookup_alter_Some. intros [(<- & z & Hz & ->)|[_ Hy]]; [cbn; by apply Hids|by apply Hids].
  - exists a, r. rewrite lookup_alter_ne by done. split_and!; try done. apply map_lookup_filter_Some. split; [done|congruence].
Qed.

(** C17: A healthy object stays visible.  If every chunk of the version a key
    shows is at its place — each download from there either fails in a way that
    does not say the message is gone, or yields bytes that verify — then after a
    scan, whatever else it finds, repairs and hides, and whether it succeeds or
    fails, the key still shows that version, in its state, read from the same
    places, and valid; provided the places Telegram names for uploads are
    usable. *)
Theorem scan_keeps_healthy bkt k m w db (Hwf : catalog_wf db)
    (Hshown : get_active_manifest bkt k db = (Ok (Some m), db)) (Hsound : Forall (sound m) (chunks m)) :
  let db' := (interp answer scan w db).2 in
  exists m', get_active_manifest bkt k db' = (Ok (Some m'), db') /\ stays m m'.
Proof.
  assert (visible_as bkt k (object_id m) m db) as Hv.
  { split; [by intros id x Hx; apply (cw_rows db Hwf)|]. revert Hshown.
    unfold get_active_manifest, load_manifest_by_object_id, mbind, M_bind, query.
    destruct (active_objects db !! (bkt, k)) as [a|] eqn:Ea; [|done].
    destruct (cw_active db Hwf bkt k a Ea) as (r & Hr & _ & _). rewrite Hr. destruct (bool_decide _) eqn:Ec; [|done].
    rewrite Hr. destruct (validate (om_manifest r)) as [[]|] eqn:Ev; [|done]. intros [= <-]. bool_hyps.
    exists a, r. assert (object_id (om_manifest r) = ao_object_id a) as -> by apply (cw_rows db Hwf _ _ Hr).
    split_and!; try done. split; [apply relocated_refl| |done|done]. apply Forall_Forall2_diag, Forall_forall. done. }
  destruct (abides_interp (visible_as bkt k (object_id m) m) _ free answer scan (fun _ => True) w db answers_hold Hv) as [_ Hend].
  - eapply abides_mono; [|apply (recovery_issues_does _ _ _ _ _ _ uploaded downloaded _) with
      (known := fun x => object_id x = object_id m -> stays m x)]; [done|..].
    + intros d d' [= Ho Ha Hset]. unfold visible_as, own_ids, active_connection_id. by rewrite Ho, Ha, Hset.
    + apply ensures_list. intros d id x (Hids & a & r & _ & _ & Hr & _ & Hst) Hx _ Hid. rewrite (Hids id x Hx) in Hid.
      subst id. rewrite Hr in Hx. by injection Hx as <-.
    + intros x x' Hx Hre. by eapply visible_update.
    + intros E x Hx Hdamaged. apply visible_hide. intros Hid. apply Hdamaged. specialize (Hx Hid).
      split; [by eapply stays_sound|apply Hx].
  - destruct Hend as (_ & a & r & Ha & Hao & Hr & Hcon & Hst). exists (om_manifest r). split; [|done].
    unfold get_active_manifest, load_manifest_by_object_id, mbind, M_bind, query.
    rewrite Ha, Hao, Hr, bool_decide_eq_true_2, Hr, (st_valid _ _ Hst) by done. done.
Qed.
End Healthy.
End Contents.

(** ** Witnesses *)

(** A text for the settings: the bits of a number that encodes them. *)
Fixpoint bits (p : positive) : string :=
  match p with
  | xH => EmptyString
  | xO p => String Ascii.zero (bits p)
  | xI p => String Ascii.one (bits p)
  end.

Fixpoint unbits (s : string) : positive :=
  match s with
  | EmptyString => xH
  | String c s => if Ascii.eqb c Ascii.zero then xO (unbits s) else xI (unbits s)
  end.

Lemma unbits_bits p : unbits (bits p) = p.
Proof. induction p; cbn; congruence. Qed.

Definition settings_tuple (s : TelegramBootstrapSettings) := (tb_api_id s, tb_api_hash s, tb_session_path s, tb_storage_chat_id s, tb_proxy_url s, tb_proxy_username s, tb_proxy_password s, tb_proxy_mode s).

#[local] Instance settings_eq_dec : EqDecision TelegramBootstrapSettings.
Proof. solve_decision. Defined.

#[local] Instance settings_countable : Countable TelegramBootstrapSettings.
Proof. refine (inj_countable' settings_tuple (fun '(x0, x1, x2, x3, x4, x5, x6, x7) => {| tb_api_id := x0; tb_api_hash := x1; tb_session_path := x2; tb_storage_chat_id := x3; tb_proxy_url := x4; tb_proxy_username := x5; tb_proxy_password := x6; tb_proxy_mode := x7 |}) _). by intros []. Defined.

#[local] Program Instance toy_json : BootstrapJson := {
  to_json s := bits (encode s);
  from_json t := match decode (unbits t) with Some s => Ok s | None => Err "bad" end
}.
Next Obligation. intros s. cbn. by rewrite unbits_bits, decode_encode. Qed.

(** Telegram is out of reach. *)
Definition silent_oracle (t : nat) (B : Type) (e : Io B) : B :=
  match e in Io B return B with
  | DownloadMessage _ _ _ => Err (ObjectFormatError.InvalidRead "connection timed out")
  | e => sample_oracle t _ e
  end.

Abbreviation toy_scan :=
  (recovery_issues no_decrypt (fun _ => "c0ffee") Some id (fun b => b) (fun _ => "f") (fun _ => []) (fun _ => Ok "i")
     (fun _ => Ok "is") (fun _ => Err "none") (fun _ => Ok []) (fun _ => []) "data" 5).

Lemma silent_uploads b l : uploaded (disk_world silent_oracle) b l -> usable l.
Proof. intros (a & j & n & w & [= <-]). split; [done|]. cbn. lia. Qed.

Definition sample_shown : ObjectManifest :=
  match (get_active_manifest "b" "k" sample_cataloged).1 with Ok (Some m) => m | _ => IndexSafety.sample_published "o1" end.

Lemma scan_keeps_healthy_witness :
  exists m', get_active_manifest "b" "k" (interp (disk_world silent_oracle) toy_scan (0%nat, ∅) sample_cataloged).2
             = (Ok (Some m'), (interp (disk_world silent_oracle) toy_scan (0%nat, ∅) sample_cataloged).2) /\
             stays no_decrypt (fun _ => "c0ffee") (disk_world silent_oracle) sample_shown m'.
Proof.
  apply (scan_keeps_healthy no_decrypt (fun _ => "c0ffee") Some id (fun b => b) (fun _ => "f") (fun _ => []) (fun _ => Ok "i")
     (fun _ => Ok "is") (fun _ => Err "none") (fun _ => Ok []) (fun _ => []) "data" 5 (disk_world silent_oracle)
     silent_uploads "b" "k" sample_shown (0%nat, ∅) sample_cataloged).
  - exact (catalog_steps_wf sample_etag no_uuid _ sample_catalog_steps).
  - vm_compute. reflexivity.
  - repeat constructor; try (vm_compute; discriminate); intros x [w <-]; vm_compute; reflexivity.
Defined.

(** The account of the service has lost its messages, the account [d] has them. *)
Definition half_oracle (t : nat) (B : Type) (e : Io B) : B :=
  match e in Io B return B with
  | DownloadMessage None _ _ => Err (ObjectFormatError.InvalidRead "telegram message not found")
  | DownloadMessage (Some _) _ _ => Ok (replicate 10 Byte.x61)
  | e => sample_oracle t _ e
  end.

Definition replicated : ObjectManifest :=
  one_chunk_sample <| chunks := [(sample_chunk 0 0 10) <| replicas := [{| cr_account_id := "d"; cr_mode := ReplicaMode.Replica;
    cr_chunk_size := 10; cr_telegram_peer_id := "q"; cr_telegram_message_id := 7; cr_telegram_document_id := None |}] |>] |>.

Definition replicated_db : Db :=
  run (commit_manifest sample_etag (sample_env 2 "u") "o")
    (run (stage_manifest (sample_env 1 "u") OperationKind.Put (replicated <| commit_state := CommitState.Staging |>)) empty_db).

Lemma replicated_wf : catalog_wf replicated_db.
Proof.
  unfold replicated_db, run. refine (commit_wf sample_etag (sample_env 2 "u") "o" None None _ _). apply stage_manifest_wf.
  - intros r Hr. cbn in Hr. rewrite lookup_empty in Hr. discriminate Hr.
  - exact empty_catalog.
Qed.

Definition after_repair : Db := (interp (disk_world half_oracle) toy_scan (0%nat, ∅) replicated_db).2.

(** The scan uploads the verified bytes again and reads the chunk from there. *)
Example scan_repairs :
  (map telegram_message_id ∘ chunks ∘ om_manifest <$> object_manifests after_repair !! "o") = Some [206] /\
  (om_commit_state <$> object_manifests after_repair !! "o") = Some CommitState.Committed.
Proof. vm_compute. by split. Qed.

Lemma scan_moves_only_verified_witness :
  exists r r', object_manifests replicated_db !! "o" = Some r /\ object_manifests after_repair !! "o" = Some r' /\
    relocated no_decrypt (fun _ => "c0ffee") (uploaded (disk_world half_oracle)) (om_manifest r) (om_manifest r').
Proof.
  destruct (object_manifests replicated_db !! "o") as [r|] eqn:E; [|exfalso; revert E; vm_compute; discriminate].
  destruct (scan_moves_only_verified no_decrypt (fun _ => "c0ffee") Some id (fun b => b) (fun _ => "f") (fun _ => [])
     (fun _ => Ok "i") (fun _ => Ok "is") (fun _ => Err "none") (fun _ => Ok []) (fun _ => []) "data" 5
     (disk_world half_oracle) "o" r (0%nat, ∅) replicated_db replicated_wf E) as (r' & Hr' & Hre).
  exists r, r'. split; [reflexivity|]. split; [exact Hr'|exact Hre].
Defined.
