(* ===== verification/Reconcile.v ===== *)
(** * Reconciliation and garbage collection ([src/src/object_format.rs])

    At start-up the service compares the store, the files it keeps and what
    Telegram holds ([reconcile]): it verifies every chunk of committed objects,
    hides and restores objects accordingly, and moves files that belong to
    nothing into quarantine.  [garbage_collect] pushes the cleanup of objects
    that were deleted long enough ago.

    The theorems: the files of the objects of the active connection are left
    where they are; a dry run of the garbage collection changes nothing.  Others
    show defects: a staged object that is complete makes the reconciliation fail
    instead of being committed, and so does a message that is gone; a version
    that becomes readable again displaces a newer one; files of objects of the
    connections that are not active are quarantined. *)

From stdpp Require Import pretty.
From S2P Require Import Prelude Errors Config Auth Admin Manifest Schema Cleanup Transfers TransferSafety.
From S2P Require Import ManifestStore ManifestSafety IndexSafety MultipartStore Buckets ConnectionRemoval System Catalog.
From S2P Require Import Requests Listing Settings Chunks Streaming Attempts Programs Publish Reception Completion.
From S2P Require Import Accounts Rechunk Replication CleanupWorker Encryption Guarantees Recovery.

Definition QUARANTINE_ROOT : string := "quarantine".

Record ReconciliationReport : Type := {
  rr_staged_objects : Z;
  rr_committed_objects : Z;
  rr_recovery_required_objects : Z;
  rr_orphaned_chunks : Z;
  rr_repaired_objects : Z;
  rr_quarantined_objects : Z
}.

Record GarbageCollectionReport : Type := {
  gc_dry_run : bool;
  gc_eligible_objects : Z;
  gc_manifests_removed : Z;
  gc_chunk_directories_removed : Z;
  gc_quarantine_entries_removed : Z;
  gc_bytes_removed : Z
}.

#[export] Instance eta_GarbageCollectionReport : Eta GarbageCollectionReport := fun r =>
  {| gc_dry_run := gc_dry_run r; gc_eligible_objects := gc_eligible_objects r;
     gc_manifests_removed := gc_manifests_removed r;
     gc_chunk_directories_removed := gc_chunk_directories_removed r;
     gc_quarantine_entries_removed := gc_quarantine_entries_removed r; gc_bytes_removed := gc_bytes_removed r |}.

Record TombstonedManifestRecord : Type := {
  tr_manifest : ObjectManifest;
  tr_tombstoned_at : OffsetDateTime
}.

(** [ORDER BY tombstoned_at ASC, object_id ASC]; [NULL] comes first. *)
Definition tombstone_le (a b : string * ManifestRow) : Prop :=
  (if bool_decide (om_tombstoned_at a.2 = om_tombstoned_at b.2) then text_le a.1 b.1
   else option_le (om_tombstoned_at a.2) (om_tombstoned_at b.2)) = true.

#[export] Instance tombstone_le_dec : RelDecision tombstone_le.
Proof. intros a b. unfold tombstone_le. apply _. Defined.

Definition count_state (st : CommitState.t) (ms : list ObjectManifest) : Z :=
  sql_count (fun m => bool_decide (commit_state m = st)) ms.

Section Reconcile.
Context (decrypt_chunk : Uuid -> Z -> list byte -> Result (list byte) ObjectFormatError.t).
Context (sha256_hex : list byte -> string).
Context (parse_uuid : string -> option string) (uuid_error : string -> string).
Context (parse_rfc3339 : string -> option OffsetDateTime) (rfc3339_error : string -> string).
Context (data_dir : string) (chunk_size : Z).

(** ** Looking at an object *)

Fixpoint chunks_ready (manifest : ObjectManifest) (cs : list ChunkRef) : Task bool :=
  match cs with
  | [] => mret true
  | chunk :: cs =>
      if (telegram_message_id chunk <? - I32_MAX - 1) || (I32_MAX <? telegram_message_id chunk)
      then fail (ObjectFormatError.InvalidRead
                   ("telegram message id out of range for chunk " +:+ pretty (order chunk)))
      else
        bytes ← perform_ok (DownloadMessage None (telegram_peer_id chunk) (telegram_message_id chunk));
        plaintext ← (Return (opened decrypt_chunk manifest chunk bytes) : Task (list byte));
        if negb (bool_decide (sha256_hex plaintext = checksum chunk)) then mret false
        else chunks_ready manifest cs
  end.

Definition committed_object_ready (manifest : ObjectManifest) : Task bool := chunks_ready manifest (chunks manifest).

Fixpoint staged_chunks_ready (manifest : ObjectManifest) (dir : string) (cs : list ChunkRef) : Task bool :=
  match cs with
  | [] => mret true
  | chunk :: cs =>
      if references_remote_payload chunk then
        if trim_is_empty (telegram_peer_id chunk) || (telegram_message_id chunk <=? 0) then mret false
        else staged_chunks_ready manifest dir cs
      else
        let path := join dir (chunk_file_name (order chunk)) in
        exists_ ← perform (PathExists path);
        if negb exists_ then mret false
        else
          bytes ← perform_ok (ReadFile path);
          plaintext ← (Return (opened decrypt_chunk manifest chunk bytes) : Task (list byte));
          if negb (bool_decide (sha256_hex plaintext = checksum chunk)) then mret false
          else staged_chunks_ready manifest dir cs
  end.

Definition staged_object_ready (operation_id : Uuid) (manifest : ObjectManifest) : Task bool :=
  let dir := staging_dir data_dir operation_id in
  exists_ ← perform (PathExists dir);
  if negb exists_ then mret false
  else
    present ← perform (PathExists (join dir MANIFEST_FILE_NAME));
    if negb present then mret false else staged_chunks_ready manifest dir (chunks manifest).

(** ** Quarantine *)

(** The entry [name] of [dir] is moved; what was there of that name goes. *)
Definition quarantine_path (dir name : string) : Task unit :=
  let target := join (join data_dir QUARANTINE_ROOT) name in
  exists_ ← perform (PathExists target);
  (if exists_ : bool then perform (RemoveDirAll target) ;; perform (RemoveFile target) ;; mret tt else mret tt) ;;
  perform_ok (Rename (join dir name) target).

Definition quarantine_staging_manifest (manifest : ObjectManifest) : Task Z :=
  journal ← call (list_journal_entries parse_uuid uuid_error);
  match List.find (fun e => bool_decide (je_object_id e = object_id manifest)) journal with
  | None => mret 0
  | Some entry =>
      exists_ ← perform (PathExists (staging_dir data_dir (je_operation_id entry)));
      if exists_ : bool then quarantine_path (join data_dir STAGING_ROOT) (je_operation_id entry) ;; mret 1
      else mret 0
  end.

(** ** Reconciliation *)

Definition set_state (obj : Uuid) (st : CommitState.t) : Task unit :=
  E ← perform Ambient;
  call (update_manifest_state E obj st) ;;
  mret tt.

Definition try_repair_committed_manifest (manifest : ObjectManifest) : Task Z :=
  ready ← committed_object_ready manifest;
  if ready : bool then set_state (object_id manifest) CommitState.Committed ;; mret 1 else mret 0.

(** [commit_staged_object]: waits for the transfer of the object; [false]: it is
    still waiting after [fuel] rounds. *)
Definition commit_staged_object (fuel : nat) (obj : Uuid) : Task bool :=
  published ← wait_transfer parse_uuid uuid_error fuel obj;
  mret (is_some published).

Definition plan_upload (content_length : Z) : Task ChunkPlan :=
  Return (default (Err (ObjectFormatError.InvalidPlan "")) (plan_chunks content_length chunk_size)).

(** The counts of repaired and quarantined objects, or still waiting. *)
Definition reconcile_manifest (fuel : nat) (journal : list JournalEntry) (manifest : ObjectManifest)
    : Task (option (Z * Z)) :=
  job ← call (transfer (object_id manifest));
  match job with
  | Some _ => mret (Some (0, 0))
  | None =>
      match commit_state manifest with
      | CommitState.Staging =>
          ready ← match staging_entry journal (object_id manifest) with
                  | Some entry => staged_object_ready (je_operation_id entry) manifest
                  | None => mret false
                  end;
          if ready : bool then
            plan_upload (content_length manifest) ;;
            done_ ← commit_staged_object fuel (object_id manifest);
            mret (if done_ : bool then Some (1, 0) else None)
          else
            set_state (object_id manifest) CommitState.RecoveryRequired ;;
            n ← quarantine_staging_manifest manifest;
            mret (Some (0, n))
      | CommitState.Committed =>
          ready ← committed_object_ready manifest;
          if ready : bool then mret (Some (0, 0))
          else
            set_state (object_id manifest) CommitState.RecoveryRequired ;;
            n ← try_repair_committed_manifest manifest;
            mret (Some (n, 0))
      | CommitState.RecoveryRequired =>
          ready ← committed_object_ready manifest;
          if ready : bool then set_state (object_id manifest) CommitState.Committed ;; mret (Some (1, 0))
          else mret (Some (0, 0))
      | CommitState.Orphaned => mret (Some (0, 1))
      | CommitState.Tombstoned => mret (Some (0, 0))
      end
  end.

Fixpoint reconcile_manifests (fuel : nat) (journal : list JournalEntry) (ms : list ObjectManifest) (n : Z * Z)
    : Task (option (Z * Z)) :=
  match ms with
  | [] => mret (Some n)
  | m :: ms =>
      r ← reconcile_manifest fuel journal m;
      match r with
      | None => mret None
      | Some d => reconcile_manifests fuel journal ms (n.1 + d.1, n.2 + d.2)
      end
  end.

(** The entries of a directory that are not [expected] are moved away. *)
Fixpoint quarantine_strays (dir : string) (relevant : DirEntry -> bool) (expected : string -> Task bool)
    (entries : list (Result DirEntry ObjectFormatError.t)) : Task Z :=
  match entries with
  | [] => mret 0
  | Err e :: _ => fail e
  | Ok entry :: entries =>
      if negb (relevant entry) then quarantine_strays dir relevant expected entries
      else
        known ← expected (de_name entry);
        if known : bool then quarantine_strays dir relevant expected entries
        else
          quarantine_path dir (de_name entry) ;;
          n ← quarantine_strays dir relevant expected entries;
          mret (1 + n)
  end.

Definition strays_of (root : string) (relevant : DirEntry -> bool) (expected : string -> Task bool) : Task Z :=
  entries ← perform_ok (ReadDir (join data_dir root));
  quarantine_strays (join data_dir root) relevant expected entries.

Definition UPLOAD_PREFIX : string := "upload-".

(** A staging directory: that of an operation of the journal, or of a transfer. *)
Definition staging_expected (journal : list JournalEntry) (name : string) : Task bool :=
  match parse_uuid name with
  | Some operation => mret (existsb (fun e => bool_decide (je_operation_id e = operation)) journal)
  | None =>
      if is_some (strip_prefix UPLOAD_PREFIX name) then
        job ← call (transfer (Admin.trim_start_matches (String.length name) UPLOAD_PREFIX name));
        mret (is_some job)
      else mret false
  end.

(** A manifest file or chunk directory: that of an object that is listed. *)
Definition object_expected (manifests : list ObjectManifest) (stem : string -> string) (name : string) : Task bool :=
  mret (match parse_uuid (stem name) with
        | Some obj => existsb (fun m => bool_decide (object_id m = obj)) manifests
        | None => false
        end).

Definition reconcile (fuel : nat) : Task (option ReconciliationReport) :=
  manifests ← call list_manifests;
  journal ← call (list_journal_entries parse_uuid uuid_error);
  counts ← reconcile_manifests fuel journal manifests (0, 0);
  match counts with
  | None => mret None
  | Some (repaired, quarantined) =>
      a ← strays_of STAGING_ROOT de_is_dir (staging_expected journal);
      b ← strays_of MANIFEST_ROOT de_is_file (object_expected manifests json_stem);
      orphaned ← strays_of CHUNK_ROOT de_is_dir (object_expected manifests id);
      final ← call list_manifests;
      mret (Some {| rr_staged_objects := count_state CommitState.Staging final;
                    rr_committed_objects := count_state CommitState.Committed final;
                    rr_recovery_required_objects := count_state CommitState.RecoveryRequired final;
                    rr_orphaned_chunks := orphaned; rr_repaired_objects := repaired;
                    rr_quarantined_objects := quarantined + a + b |})
  end.

(** ** Garbage collection *)

Fixpoint tombstoned_records (l : list (string * ManifestRow)) : M (list TombstonedManifestRecord) :=
  match l with
  | [] => mret []
  | e :: l =>
      tombstoned_at ← some_or (om_tombstoned_at e.2)
        (Sqlite "Invalid column type Null at index: 1, name: tombstoned_at");
      lift (match validate (om_manifest e.2) with Ok _ => Ok tt | Err m => Err (InvalidManifest m) end) ;;
      at_ ← some_or (parse_rfc3339 tombstoned_at)
        (InvalidManifest ("invalid timestamp " +:+ tombstoned_at +:+ ": " +:+ rfc3339_error tombstoned_at));
      rest ← tombstoned_records l;
      mret ({| tr_manifest := om_manifest e.2; tr_tombstoned_at := at_ |} :: rest)
  end.

Definition list_tombstoned_manifests : M (list TombstonedManifestRecord) :=
  rows ← query (fun db => merge_sort tombstone_le (List.filter (fun e =>
    bool_decide (om_commit_state e.2 = CommitState.Tombstoned)) (map_to_list (object_manifests db))));
  tombstoned_records rows.

(** The bytes of the files below a directory; [None]: deeper than [depth]. *)
Fixpoint directory_size (depth : nat) (path : string) : Task (option Z) :=
  match depth with
  | O => mret None
  | S depth =>
      entries ← perform_ok (ReadDir path);
      (fix sizes (entries : list (Result DirEntry ObjectFormatError.t)) (total : Z) : Task (option Z) :=
         match entries with
         | [] => mret (Some total)
         | Err e :: _ => fail e
         | Ok entry :: entries =>
             if de_is_file entry then sizes entries (u64_saturating_add total (de_len entry))
             else if de_is_dir entry then
               below ← directory_size depth (join path (de_name entry));
               match below with
               | None => mret None
               | Some n => sizes entries (u64_saturating_add total n)
               end
             else sizes entries total
         end) entries 0
  end.

Fixpoint remove_quarantined (dir object_id : string) (dry_run : bool)
    (entries : list (Result DirEntry ObjectFormatError.t)) : Task Z :=
  match entries with
  | [] => mret 0
  | Err e :: _ => fail e
  | Ok entry :: entries =>
      if negb (contains object_id (de_name entry)) then remove_quarantined dir object_id dry_run entries
      else
        (if dry_run then mret tt
         else
           removed ← (if de_is_dir entry then perform (RemoveDirAll (join dir (de_name entry)))
                      else perform (RemoveFile (join dir (de_name entry))));
           match removed with Ok _ => mret tt | Err e => fail e.2 end) ;;
        n ← remove_quarantined dir object_id dry_run entries;
        mret (1 + n)
  end.

Definition cleanup_quarantine_entries (object_id : string) (dry_run : bool) : Task Z :=
  let dir := join data_dir QUARANTINE_ROOT in
  exists_ ← perform (PathExists dir);
  if negb exists_ then mret 0
  else
    entries ← perform_ok (ReadDir dir);
    remove_quarantined dir object_id dry_run entries.

(** Targets are carried out until those of the object are done; [false]: they
    are not after [fuel] rounds. *)
Fixpoint collect (fuel : nat) (object_id : string) : Task bool :=
  match fuel with
  | O => mret false
  | S fuel =>
      complete ← call (cleanup_complete_for_object object_id);
      if complete : bool then mret true
      else
        E ← perform Ambient;
        target ← call (claim_cleanup E);
        match target with
        | None => mret true
        | Some target => process_cleanup_target parse_uuid data_dir target ;; collect fuel object_id
        end
  end.

(** What is there of an object: its manifest file, its chunk directory. *)
Definition measure_object (depth : nat) (obj : Uuid) (report : GarbageCollectionReport)
    : Task (option GarbageCollectionReport) :=
  let path := manifest_path data_dir obj in
  present ← perform (PathExists path);
  report ← (if present : bool then
              len ← perform_ok (FileLength path);
              mret (report <| gc_bytes_removed ::= (fun n => u64_saturating_add n len) |>
                           <| gc_manifests_removed ::= Z.add 1 |>)
            else mret report);
  let dir := chunk_dir data_dir obj in
  present ← perform (PathExists dir);
  if present : bool then
    size_ ← directory_size depth dir;
    mret ((fun n => report <| gc_bytes_removed ::= (fun b => u64_saturating_add b n) |>
                           <| gc_chunk_directories_removed ::= Z.add 1 |>) <$> size_)
  else mret (Some report).

(** [None]: deeper directories or more targets than the bounds. *)
Fixpoint collect_records (depth fuel : nat) (dry_run : bool) (cutoff : OffsetDateTime)
    (records : list TombstonedManifestRecord) (report : GarbageCollectionReport)
    : Task (option GarbageCollectionReport) :=
  match records with
  | [] => mret (Some report)
  | record :: records =>
      if cutoff <? tr_tombstoned_at record then collect_records depth fuel dry_run cutoff records report
      else
        let obj := object_id (tr_manifest record) in
        measured ← measure_object depth obj (report <| gc_eligible_objects ::= Z.add 1 |>);
        match measured with
        | None => mret None
        | Some report =>
            let report := report <| gc_bytes_removed ::= (fun n =>
                            u64_saturating_add n (content_length (tr_manifest record))) |> in
            done_ ← (if dry_run then mret true
                     else
                       E ← perform Ambient;
                       call (make_cleanup_due (now_at E 0) obj) ;;
                       collect fuel obj);
            if negb done_ then mret None
            else
              n ← cleanup_quarantine_entries obj dry_run;
              collect_records depth fuel dry_run cutoff records
                (report <| gc_quarantine_entries_removed ::= (fun k => k + n) |>)
        end
  end.

Definition garbage_collect (depth fuel : nat) (dry_run : bool) (retention : Z) : Task (option GarbageCollectionReport) :=
  E ← perform Ambient;
  let cutoff := now_utc_at E 0 - retention in
  records ← call list_tombstoned_manifests;
  collect_records depth fuel dry_run cutoff records
    {| gc_dry_run := dry_run; gc_eligible_objects := 0; gc_manifests_removed := 0;
       gc_chunk_directories_removed := 0; gc_quarantine_entries_removed := 0; gc_bytes_removed := 0 |}.

(** ** Status *)

(** The key of a chunk's document in Telegram. *)
Definition document_key (c : ChunkRef) : string * Z * option string :=
  (telegram_peer_id c, telegram_message_id c, telegram_document_id c).

(** [HashMap::entry(key).or_insert(size)]: the first size of a document counts. *)
Definition telegram_files (manifests : list ObjectManifest) : gmap (string * Z * option string) Z :=
  foldl (fun files c => match files !! document_key c with
                        | Some _ => files
                        | None => <[document_key c := size c]> files
                        end) ∅
    (concat (map chunks (List.filter (fun m => bool_decide (commit_state m = CommitState.Committed)) manifests))).

Definition telegram_files_bytes (manifests : list ObjectManifest) : Z :=
  u64_wrap (map_fold (fun _ n total => n + total) 0 (telegram_files manifests)).

Record ObjectFormatStatus : Type := {
  os_data_dir : string;
  os_chunk_size : Z;
  os_committed_objects : Z;
  os_staged_objects : Z;
  os_recovery_required_objects : Z;
  os_orphaned_chunks : Z;
  os_telegram_files_bytes : Z
}.

Definition status : Task ObjectFormatStatus :=
  manifests ← call list_manifests;
  mret {| os_data_dir := data_dir; os_chunk_size := chunk_size;
          os_committed_objects := count_state CommitState.Committed manifests;
          os_staged_objects := count_state CommitState.Staging manifests;
          os_recovery_required_objects := count_state CommitState.RecoveryRequired manifests;
          os_orphaned_chunks := count_state CommitState.Orphaned manifests;
          os_telegram_files_bytes := telegram_files_bytes manifests |}.

(** [connected]: the state of the transport.  A failed reconciliation is logged. *)
Definition bootstrap (fuel : nat) (connected : bool) : Task ObjectFormatStatus :=
  (if connected then settle (reconcile fuel) ;; mret tt else mret tt) ;;
  status.
End Reconcile.

(** ** A dry run changes nothing *)

(** The effects that only look. *)
Definition looks (B : Type) (e : Io B) : Prop :=
  match e with
  | Ambient | PathExists _ | ReadDir _ | FileLength _ => True
  | _ => False
  end.

Definition unconstrained (B : Type) (_ : Io B) (_ : B) : Prop := True.

Section DryRun.
Context (parse_uuid : string -> option string) (uuid_error : string -> string).
Context (parse_rfc3339 : string -> option OffsetDateTime) (rfc3339_error : string -> string) (data_dir : string).

Lemma records_reads l db : (tombstoned_records parse_rfc3339 rfc3339_error l db).2 = db.
Proof.
  induction l as [|e l IH]; [done|]. cbn [tombstoned_records]. unfold mbind, M_bind.
  destruct (om_tombstoned_at e.2) as [t|]; [|done]. cbn. destruct (validate _); [|done]. cbn.
  destruct (parse_rfc3339 t); [|done]. cbn. destruct (tombstoned_records parse_rfc3339 rfc3339_error l db) as [[rest|x] d]; done.
Qed.

Lemma tombstoned_reads db : (list_tombstoned_manifests parse_rfc3339 rfc3339_error db).2 = db.
Proof. unfold list_tombstoned_manifests, mbind, M_bind, query. apply records_reads. Qed.

Context (I : Db -> Prop).
Abbreviation passes p := (does I unconstrained looks p (fun _ => True)).

Lemma directory_size_looks depth path : passes (directory_size depth path).
Proof.
  revert path. induction depth as [|depth IH]; intros path; cbn [directory_size]; walk; [done|].
  generalize 0. induction a as [|[x|e] entries IHe]; intros total; walk; apply IH.
Qed.

Lemma dry_quarantine_looks dir obj entries : passes (remove_quarantined dir obj true entries).
Proof. induction entries as [|[x|e] entries IH]; cbn [remove_quarantined]; walk; done. Qed.

Lemma collect_looks depth fuel cutoff records report :
  passes (collect_records parse_uuid data_dir depth fuel true cutoff records report).
Proof.
  revert report. induction records as [|r records IH]; intros report; cbn [collect_records]; walk.
  all: unfold measure_object, cleanup_quarantine_entries; walk; try done; auto using directory_size_looks, dry_quarantine_looks.
Qed.

Lemma dry_run_looks depth fuel retention :
  passes (garbage_collect parse_uuid parse_rfc3339 rfc3339_error data_dir depth fuel true retention).
Proof. unfold garbage_collect. walk; [done|apply does_reads, tombstoned_reads|apply collect_looks]. Qed.
End DryRun.

(** A dry run of the garbage collection leaves the store as it is and does
    nothing outside but look at files and at the clock. *)
Theorem dry_run_changes_nothing parse_uuid parse_rfc3339 rfc3339_error data_dir {W} (answer : forall B, Io B -> W -> B * W)
    depth fuel retention w db :
  let run := garbage_collect parse_uuid parse_rfc3339 rfc3339_error data_dir depth fuel true retention in
  (interp answer run w db).2 = db /\ forall B (e : Io B), traced answer run w db e -> looks B e.
Proof.
  intros run.
  pose proof (dry_run_looks parse_uuid parse_rfc3339 rfc3339_error data_dir (fun d => d = db) depth fuel retention) as H. split.
  - by apply (abides_interp _ _ _ answer run _ w db (fun _ _ _ => Logic.I) eq_refl H).
  - intros B e He. by apply (abides_trace _ _ _ answer run _ w db B e (fun _ _ _ => Logic.I) eq_refl H).
Qed.

(** ** The files of known objects stay *)

(** The effects that take a file or directory away. *)
Definition takes {B} (e : Io B) (path : string) : Prop :=
  match e with
  | Rename p _ | RemoveDirAll p | RemoveFile p => p = path
  | _ => False
  end.

Definition in_state (st : CommitState.t) (r : ManifestRow) : ManifestRow :=
  r <| om_commit_state := st |> <| om_manifest := (om_manifest r) <| commit_state := st |> |>.

Lemma update_state_cases E obj st db :
  let db' := (update_manifest_state E obj st db).2 in
  app_settings db' = app_settings db /\ transfer_jobs db' = transfer_jobs db /\
  (object_manifests db' = object_manifests db \/ object_manifests db' = alter (in_state st) obj (object_manifests db)).
Proof.
  unfold update_manifest_state, transaction, load_manifest_by_object_id, mbind, M_bind, query.
  destruct (object_manifests db !! obj) as [r|] eqn:Er; [|by split_and!; [..|left]].
  destruct (validate (om_manifest r)); [|by split_and!; [..|left]]. cbn [some_or mret M_ret modify fst snd].
  assert (alter (fun x => x <| om_commit_state := st |> <| om_manifest := (om_manifest r) <| commit_state := st |> |>)
            obj (object_manifests db) = alter (in_state st) obj (object_manifests db)) as Halt.
  { apply map_eq. intros i. destruct (decide (i = obj)) as [->|]; [by rewrite !lookup_alter_eq, Er|by rewrite !lookup_alter_ne]. }
  destruct (bool_decide (st = CommitState.Committed)), (bool_decide (st = CommitState.RecoveryRequired));
    unfold set_active, ensure, mbind, M_bind, query; cbn; try (split_and!; [done..|by right]).
  all: match goal with |- context[is_some ?x] => destruct (is_some x) end; cbn; split_and!; try done; first [by right|by left].
Qed.

#[local] Hint Extern 2 (does _ _ _ (call (transfer _)) _) => apply does_reads; reflexivity : walk.
#[local] Hint Extern 2 (does _ _ _ (call (multipart_job _)) _) => apply does_reads; reflexivity : walk.
#[local] Hint Extern 2 (does _ _ _ (call (get_multipart_part _ _)) _) => apply does_reads; reflexivity : walk.
#[local] Hint Extern 2 (does _ _ _ (call (get_manifest _)) _) =>
  apply does_update, preserves_reads, load_manifest_reads : walk.

Section Spares.
Context (decrypt_chunk : Uuid -> Z -> list byte -> Result (list byte) ObjectFormatError.t).
Context (sha256_hex : list byte -> string).
Context (parse_uuid : string -> option string) (uuid_error : string -> string).
Context (data_dir : string) (chunk_size : Z).
Context (obj : Uuid) (Hplain : parse_uuid obj = Some obj) (Hfile : parse_uuid (json_stem (obj +:+ ".json")) = Some obj).

(** The object is of the active connection. *)
Definition stands (db : Db) : Prop :=
  own_ids db /\ exists r, object_manifests db !! obj = Some r /\ om_connection_id r = active_connection_id db.

(** Its manifest file and its chunks are left where they are. *)
Definition spares (B : Type) (e : Io B) : Prop :=
  ~ takes e (manifest_path data_dir obj) /\ ~ takes e (chunk_dir data_dir obj).

Lemma stands_update E id st : preserves stands (update_manifest_state E id st).
Proof.
  intros db (Hids & r & Hr & Hc). destruct (update_state_cases E id st db) as (Hs & _ & Ho).
  unfold stands, own_ids, active_connection_id. rewrite Hs. destruct Ho as [->| ->]; [by split; [|exists r]|]. split.
  - intros i y. rewrite lookup_alter_Some. intros [(<- & z & Hz & ->)|[_ Hy]]; [cbn; by apply Hids|by apply Hids].
  - destruct (decide (id = obj)) as [->|].
    + rewrite lookup_alter_eq, Hr. by eexists.
    + rewrite lookup_alter_ne by done. by exists r.
Qed.

Abbreviation passes p := (does stands unconstrained spares p (fun _ => True)).

Lemma stands_listed : ensures stands list_manifests (on_ok (fun ms => exists m, In m ms /\ object_id m = obj)).
Proof.
  intros db Hdb. split; [|by rewrite <- (list_manifests_reads db)].
  destruct (list_manifests db) as [[ms|e] db'] eqn:E; [|done]. cbn. destruct Hdb as (Hids & r & Hr & Hc).
  pose proof (list_manifests_reads db) as Hdb'. rewrite E in Hdb'. cbn in Hdb'. subst db'.
  exists (om_manifest r). split; [by eapply list_manifests_all|by apply Hids].
Qed.

Lemma in_root_inj root n root' n' : join (join data_dir root) n = join (join data_dir root') n' ->
  root +:+ "/" +:+ n = root' +:+ "/" +:+ n'.
Proof.
  unfold join. rewrite !append_assoc. intros H%(inj (String.append data_dir)). cbn in H. by injection H.
Qed.

(** What is taken from another root, or under another name, is none of it. *)
Lemma spares_entry root name (target : string) :
  (root = MANIFEST_ROOT -> name <> obj +:+ ".json") -> (root = CHUNK_ROOT -> name <> obj) ->
  In root [STAGING_ROOT; MANIFEST_ROOT; CHUNK_ROOT] -> spares _ (Rename (join (join data_dir root) name) target).
Proof.
  intros Hm Hc Hr. split; intros H%in_root_inj; destruct Hr as [<-|[<-|[<-|[]]]]; try discriminate.
  - apply (inj (String.append (MANIFEST_ROOT +:+ "/"))) in H. by apply Hm.
  - apply (inj (String.append (CHUNK_ROOT +:+ "/"))) in H. by apply Hc.
Qed.

Lemma quarantine_path_passes root name :
  (root = MANIFEST_ROOT -> name <> obj +:+ ".json") -> (root = CHUNK_ROOT -> name <> obj) ->
  In root [STAGING_ROOT; MANIFEST_ROOT; CHUNK_ROOT] -> passes (quarantine_path data_dir (join data_dir root) name).
Proof.
  intros Hm Hc Hr. unfold quarantine_path. walk; [by split; intros []|..|by apply spares_entry].
  all: split; intros H%in_root_inj; discriminate.
Qed.

Lemma set_state_passes id st : passes (set_state id st).
Proof. unfold set_state. walk; [by split; intros []|]. apply does_update, stands_update. Qed.

Lemma poll_passes id : passes (poll_transfer parse_uuid uuid_error id).
Proof. unfold poll_transfer, uuid_of. walk. Qed.

Lemma wait_passes fuel id : passes (wait_transfer parse_uuid uuid_error fuel id).
Proof. induction fuel as [|fuel IH]; cbn [wait_transfer]; [done|]. apply does_then; [apply poll_passes|]. intros a. walk. Qed.

Lemma journal_passes : passes (call (list_journal_entries parse_uuid uuid_error)).
Proof. apply does_reads, journal_reads. Qed.

Lemma chunks_ready_passes m cs : passes (chunks_ready decrypt_chunk sha256_hex m cs).
Proof. induction cs as [|c cs IH]; cbn [chunks_ready]; walk. by split; intros []. Qed.

Lemma staged_ready_passes m dir cs : passes (staged_chunks_ready decrypt_chunk sha256_hex m dir cs).
Proof. induction cs as [|c cs IH]; cbn [staged_chunks_ready]; walk; by split; intros []. Qed.

Lemma quarantine_staging_passes m : passes (quarantine_staging_manifest parse_uuid uuid_error data_dir m).
Proof.
  unfold quarantine_staging_manifest. apply does_then; [apply journal_passes|]. intros journal.
  destruct (List.find _ journal) as [entry|]; [|done]. apply does_then; [apply does_perform; [by split; intros []|done]|].
  intros [|]; [|done]. apply does_then; [|done]. apply quarantine_path_passes; [done..|by left].
Qed.

#[local] Hint Resolve set_state_passes wait_passes journal_passes chunks_ready_passes staged_ready_passes
  quarantine_staging_passes : walk.

Lemma reconcile_manifest_passes fuel journal m :
  passes (reconcile_manifest decrypt_chunk sha256_hex parse_uuid uuid_error data_dir chunk_size fuel journal m).
Proof.
  unfold reconcile_manifest, staged_object_ready, committed_object_ready, try_repair_committed_manifest,
    commit_staged_object, plan_upload. walk.
  all: first [by split; intros []|apply chunks_ready_passes].
Qed.

Lemma reconcile_manifests_passes fuel journal ms n :
  passes (reconcile_manifests decrypt_chunk sha256_hex parse_uuid uuid_error data_dir chunk_size fuel journal ms n).
Proof.
  revert n. induction ms as [|m ms IH]; intros n; cbn [reconcile_manifests]; [done|].
  apply does_then; [apply reconcile_manifest_passes|]. intros [d|]; [apply IH|done].
Qed.

(** Whether an entry is expected is looked up in the store only, and the entries
    of the object are. *)
Definition knows (expected : string -> Task bool) (mine : string -> Prop) : Prop :=
  forall name, does stands unconstrained spares (expected name) (fun known => mine name -> known = true).

Lemma strays_passes root relevant expected : In root [STAGING_ROOT; MANIFEST_ROOT; CHUNK_ROOT] ->
  knows expected (fun name => root = MANIFEST_ROOT /\ name = obj +:+ ".json" \/ root = CHUNK_ROOT /\ name = obj) ->
  passes (strays_of data_dir root relevant expected).
Proof.
  intros Hroot Hk. unfold strays_of. apply does_then; [apply does_perform_ok; [by split; intros []|done]|].
  intros entries. induction entries as [|[x|e] entries IH]; cbn [quarantine_strays]; [done| |done].
  destruct (relevant x); [|done]. cbn [negb]. eapply does_bind; [apply Hk|]. intros [|] Hx; [done|].
  apply does_then; [|intros _; by apply does_then].
  apply quarantine_path_passes; [..|done]; intros Hr Hn; discriminate Hx; auto.
Qed.

Lemma object_known ms stem name m : In m ms -> object_id m = obj -> parse_uuid (stem name) = Some obj ->
  object_expected parse_uuid ms stem name = mret true.
Proof.
  intros Hm Hid Hp. unfold object_expected. rewrite Hp. f_equal. apply existsb_exists. exists m.
  split; [done|by apply bool_decide_eq_true].
Qed.

Lemma reconcile_spares fuel :
  passes (reconcile decrypt_chunk sha256_hex parse_uuid uuid_error data_dir chunk_size fuel).
Proof.
  unfold reconcile. eapply does_bind; [apply does_call, stands_listed|]. intros ms (m & Hm & Hid).
  apply does_then; [apply journal_passes|]. intros journal.
  apply does_then; [apply reconcile_manifests_passes|]. intros [[r q]|]; [|done].
  apply does_then; [apply strays_passes; [by left|]|intros a; apply does_then; [apply strays_passes; [by right; left|]|
    intros b; apply does_then; [apply strays_passes; [by right; right; left|]|]]].
  - intros name. apply (does_mono _ _ _ _ (fun _ => True)); [by intros k _ [[? _]|[? _]]|].
    unfold staging_expected. walk.
  - intros name. destruct (decide (name = obj +:+ ".json")) as [->|Hn]; [by erewrite object_known|].
    unfold object_expected. apply does_ret. by intros [[_ ?]|[? _]].
  - intros name. destruct (decide (name = obj)) as [->|Hn]; [by erewrite object_known|].
    unfold object_expected. apply does_ret. by intros [[? _]|[_ ?]].
  - intros c. apply does_then; [|done]. apply does_update, preserves_reads, list_manifests_reads.
Qed.
End Spares.

(** C19: Reconciliation leaves the files of the objects it knows alone: whatever
    the outside answers, it never moves or removes the manifest file or the
    chunk directory of an object of the active connection. *)
Theorem reconcile_spares_known decrypt_chunk sha256_hex parse_uuid uuid_error data_dir chunk_size
    {W} (answer : forall B, Io B -> W -> B * W) fuel w db obj r
    (Hplain : parse_uuid obj = Some obj) (Hfile : parse_uuid (json_stem (obj +:+ ".json")) = Some obj)
    (Hwf : catalog_wf db) (Hrow : object_manifests db !! obj = Some r)
    (Hcon : om_connection_id r = active_connection_id db) :
  forall B (e : Io B),
    traced answer (reconcile decrypt_chunk sha256_hex parse_uuid uuid_error data_dir chunk_size fuel) w db e ->
    ~ takes e (manifest_path data_dir obj) /\ ~ takes e (chunk_dir data_dir obj).
Proof.
  intros B e. apply (abides_trace (stands obj) unconstrained (spares data_dir obj)
    answer _ (on_ok (fun _ => True)) w db B e (fun _ _ _ => I)).
  - split; [|by exists r]. intros id x Hx. by apply (cw_rows db Hwf).
  - by apply reconcile_spares.
Qed.

(** ** Staged objects are not committed *)

Section Staged.
Context (decrypt_chunk : Uuid -> Z -> list byte -> Result (list byte) ObjectFormatError.t).
Context (sha256_hex : list byte -> string).
Context (parse_uuid : string -> option string) (uuid_error : string -> string).
Context (data_dir : string) (chunk_size : Z).

Definition untransferred (obj : string) (db : Db) : Prop := find_job obj db = None.

Lemma untransferred_wait obj fuel :
  does (untransferred obj) unconstrained free (wait_transfer parse_uuid uuid_error (S fuel) obj) (fun _ => False).
Proof.
  cbn [wait_transfer]. eapply does_bind with (Q := fun _ => False); [|done]. unfold poll_transfer.
  eapply does_bind with (Q := fun j => j = None); [|by intros ? ->]. apply does_call, ensures_query.
  intros db Hdb. unfold untransferred in Hdb. by rewrite Hdb.
Qed.

Lemma untransferred_ready obj m dir cs :
  does (untransferred obj) unconstrained free (staged_chunks_ready decrypt_chunk sha256_hex m dir cs) (fun _ => True).
Proof. induction cs as [|c cs IH]; cbn [staged_chunks_ready]; walk; done. Qed.

Lemma untransferred_update obj E id st : preserves (untransferred obj) (update_manifest_state E id st).
Proof.
  intros db Hdb. destruct (update_state_cases E id st db) as (_ & Ht & _). unfold untransferred, find_job in *. by rewrite Ht.
Qed.

Lemma untransferred_set obj id st : does (untransferred obj) unconstrained free (set_state id st) (fun _ => True).
Proof. unfold set_state. walk; [done|]. apply does_update, untransferred_update. Qed.

Lemma staged_not_committed fuel journal m : commit_state m = CommitState.Staging ->
  does (untransferred (object_id m)) unconstrained free
    (reconcile_manifest decrypt_chunk sha256_hex parse_uuid uuid_error data_dir chunk_size (S fuel) journal m)
    (fun r => exists q, r = Some (0, q)).
Proof.
  intros Hst. unfold reconcile_manifest. eapply does_bind with (Q := fun _ => True); [by apply does_reads|].
  intros [j|] _; [apply does_ret; by eexists|]. rewrite Hst. apply does_then.
  - unfold staged_object_ready. walk; try done. apply untransferred_ready.
  - intros [|].
    + apply does_then; [apply does_return|]. intros plan. eapply does_bind with (Q := fun _ => False); [|done].
      unfold commit_staged_object. eapply does_bind; [apply untransferred_wait|done].
    + apply does_then; [apply untransferred_set|]. intros _. apply does_then; [|intros n; apply does_ret; by eexists].
      unfold quarantine_staging_manifest, quarantine_path. walk; try done.
      apply does_reads, journal_reads.
Qed.
End Staged.

(** Reconciliation never commits a staged object.  An object of which every
    chunk is there is given to [commit_staged_object], which only waits for a
    transfer — and there is none, since objects that have one are skipped: a
    run that succeeds has repaired nothing, any other fails. *)
Theorem staged_never_committed decrypt_chunk sha256_hex parse_uuid uuid_error data_dir chunk_size
    {W} (answer : forall B, Io B -> W -> B * W) fuel journal m w db (Hst : commit_state m = CommitState.Staging) :
  match (interp answer (reconcile_manifest decrypt_chunk sha256_hex parse_uuid uuid_error data_dir chunk_size
                          (S fuel) journal m) w db).1.1 with
  | Ok r => exists quarantined, r = Some (0, quarantined)
  | Err _ => True
  end.
Proof.
  destruct (find_job (object_id m) db) as [j|] eqn:Ej.
  - unfold reconcile_manifest, transfer, call, query. cbn. rewrite Ej. by eexists.
  - by apply (abides_interp (untransferred (object_id m)) unconstrained free answer _ _ w db (fun _ _ _ => I) Ej
                (staged_not_committed decrypt_chunk sha256_hex parse_uuid uuid_error data_dir chunk_size fuel journal m Hst)).
Qed.

(** ** Witnesses *)

Abbreviation toy_reconcile := (reconcile no_decrypt (fun _ => "c0ffee") Some id "data" 5 3).

(** A staged object whose chunk is in Telegram, without a transfer. *)
Definition staged_db : Db :=
  run (stage_manifest (sample_env 1 "u") OperationKind.Put (replicated <| commit_state := CommitState.Staging |>)) empty_db.

Definition staged_of (db : Db) : ObjectManifest :=
  match object_manifests db !! "o" with Some r => om_manifest r | None => replicated end.

Lemma staged_never_committed_witness :
  match (interp sample_answer (reconcile_manifest no_decrypt (fun _ => "c0ffee") Some id "data" 5 3 [] (staged_of staged_db))
           0%nat staged_db).1.1 with
  | Ok r => exists quarantined, r = Some (0, quarantined)
  | Err _ => True
  end.
Proof.
  exact (staged_never_committed no_decrypt (fun _ => "c0ffee") Some id "data" 5 sample_answer 2 [] (staged_of staged_db)
           0%nat staged_db eq_refl).
Defined.

(** With its journal entry, the same object ends the whole reconciliation. *)
Theorem complete_staging_fails :
  (interp sample_answer toy_reconcile 0%nat staged_db).1.1 = Err (ObjectFormatError.InvalidPlan "transfer missing").
Proof. vm_compute. reflexivity. Qed.

(** A directory listing with the file of one object. *)
Definition listing_answer (B : Type) (e : Io B) (w : nat) : B * nat :=
  match e in Io B return B * nat with
  | ReadDir _ => (Ok [Ok {| de_name := "o.json"; de_is_dir := false; de_is_file := true; de_len := 1 |}], w)
  | DownloadMessage _ _ _ => (Ok (replicate 10 Byte.x61), w)
  | e => sample_answer _ e w
  end.

Lemma reconcile_spares_known_witness :
  is_some (object_manifests replicated_db !! "o") = true /\
  forall B (e : Io B), traced listing_answer toy_reconcile 0%nat replicated_db e ->
    ~ takes e (manifest_path "data" "o") /\ ~ takes e (chunk_dir "data" "o").
Proof.
  split; [vm_compute; reflexivity|].
  destruct (object_manifests replicated_db !! "o") as [r|] eqn:E; [|exfalso; revert E; vm_compute; discriminate].
  apply (reconcile_spares_known no_decrypt (fun _ => "c0ffee") Some id "data" 5 listing_answer 3 0%nat replicated_db "o" r
           eq_refl eq_refl replicated_wf E).
  revert E. vm_compute. intros [= <-]. reflexivity.
Defined.

(** A version that cannot be read, and a newer one of the same key. *)
Definition rewritten : ObjectManifest := replicated <| object_id := "o2" |>.

Definition rewritten_db : Db :=
  run (commit_manifest sample_etag (sample_env 5 "u") "o2")
    (run (stage_manifest (sample_env 4 "u") OperationKind.Put (rewritten <| commit_state := CommitState.Staging |>))
       (run (update_manifest_state (sample_env 3 "u") "o" CommitState.RecoveryRequired) replicated_db)).

Definition shown (db : Db) : option string := ao_object_id <$> active_objects db !! (bucket replicated, key replicated).

(** When the old version can be read again, the key shows it in place of the
    newer one, which stays committed. *)
Theorem repair_displaces_newer :
  let db' := (interp listing_answer toy_reconcile 0%nat rewritten_db).2 in
  shown rewritten_db = Some "o2" /\ shown db' = Some "o" /\
  (om_commit_state <$> object_manifests db' !! "o2") = Some CommitState.Committed.
Proof. vm_compute. by split_and!. Qed.

(** The files that are moved. *)
Definition moves_answer (B : Type) (e : Io B) (w : list string) : B * list string :=
  match e in Io B return B * list string with
  | Rename p _ => (Ok tt, p :: w)
  | e => ((listing_answer _ e 0%nat).1, w)
  end.

(** After a change of the active connection, the file of an object of the other
    one is moved away. *)
Theorem inactive_files_quarantined :
  let db := replicated_db <| app_settings ::= <["telegram_active_connection_id" := "second"]> |> in
  is_some (object_manifests db !! "o") = true /\
  In (manifest_path "data" "o") (interp moves_answer toy_reconcile [] db).1.2.
Proof. vm_compute. split; [done|]. by left. Qed.

Definition deaf_answer (B : Type) (e : Io B) (w : nat) : B * nat :=
  match e in Io B return B * nat with
  | DownloadMessage _ _ _ => (Err (ObjectFormatError.InvalidRead "telegram message not found"), w)
  | e => sample_answer _ e w
  end.

(** A committed object whose message is gone ends the reconciliation, and stays
    visible: only contents that differ count as unreadable. *)
Theorem missing_message_ends_reconciliation :
  let r := interp deaf_answer toy_reconcile 0%nat replicated_db in
  r.1.1 = Err (ObjectFormatError.InvalidRead "telegram message not found") /\ shown r.2 = Some "o".
Proof. vm_compute. by split. Qed.
