(* ===== verification/Browser.v ===== *)
(** * The object browser of the administration API ([src/src/admin.rs])

    The pages that list buckets and objects and search for objects: which
    requests are refused, how entries are filtered, sorted, folded into folders
    and cut into pages.  A handler is a task that ends with an answer or with
    the status and text of an error ([ApiTask]).  The Unicode tables behind
    [to_lowercase] and [trim] and the printing of timestamps are parameters; a
    query is the map its text decodes to.

    The theorems: the pages of a listing, put one after the other, are the
    whole listing, and its total and its flag for more are right; a bucket page
    holds exactly the folders and objects of its level. *)

From stdpp Require Import pretty.
From S2P Require Import Prelude Errors Config Auth Admin Manifest Schema Cleanup Transfers TransferSafety.
From S2P Require Import ManifestStore ManifestSafety IndexSafety MultipartStore Buckets ConnectionRemoval System Catalog.
From S2P Require Import Requests Listing Settings Chunks Streaming Attempts Programs Publish Reception Completion.
From S2P Require Import Accounts Rechunk Replication CleanupWorker Shares S3Api Guarantees.

(** ** Handlers as tasks *)

(** An error answer, a panic of the handler, or a wait that has not ended yet. *)
Inductive ApiRefusal : Type :=
| Refused (status : Z) (message : string)
| Panicked
| Waiting.

Definition ApiTask (A : Type) : Type := Proc (Result A ApiRefusal).

#[export] Instance ApiTask_ret : MRet ApiTask := fun A a => Return (Ok a).

#[export] Instance ApiTask_bind : MBind ApiTask := fun A B f p =>
  proc_bind (fun r => match r with Ok a => f a | Err e => Return (Err e) end) p.

Definition deny {A} (status : Z) (message : string) : ApiTask A := Return (Err (Refused status message)).

(** [Err(error) => return json_error(..)] *)
Definition or_deny {A} (p : Task A) (answer : ObjectFormatError.t -> Z * string) : ApiTask A :=
  proc_bind (fun r => Return (match r with
                              | Ok a => Ok a
                              | Err e => Err (Refused (answer e).1 (answer e).2)
                              end)) p.

Definition internal_error (e : ObjectFormatError.t) : Z * string := (500, ObjectFormatError.to_string e).

(** [.unwrap_or(..)] and [if let Ok(..)] *)
Definition or_else {A} (p : Task A) (fallback : A) : ApiTask A :=
  proc_bind (fun r => Return (Ok (match r with Ok a => a | Err _ => fallback end))) p.

Definition demand {A} (r : Result A (Z * string)) : ApiTask A :=
  Return (match r with Ok a => Ok a | Err e => Err (Refused e.1 e.2) end).

(** ** Queries *)

Definition USIZE_MAX : Z := U64_MAX.

Definition parse_page_param (query : gmap string string) (name : string) (fallback : Z) : Result Z string :=
  match query !! name with
  | None => Ok fallback
  | Some value =>
      match parse_u64 value with
      | Some parsed => if 0 <? parsed then Ok parsed else Err (name +:+ " must be a positive integer")
      | None => Err (name +:+ " must be a positive integer")
      end
  end.

Definition parse_sort_order (query : gmap string string) : Result bool string :=
  match query !! "order" with
  | None => Ok false
  | Some order =>
      if bool_decide (order = "asc") then Ok false
      else if bool_decide (order = "desc") then Ok true
      else Err "order must be asc or desc"
  end.

Definition bad_request {A} (r : Result A string) : Result A (Z * string) :=
  match r with Ok a => Ok a | Err m => Err (400, m) end.

(** The page and its size. *)
Definition requested_page (query : gmap string string) : Result (Z * Z) (Z * string) :=
  match bad_request (parse_page_param query "page" 1) with
  | Err e => Err e
  | Ok page =>
      match bad_request (parse_page_param query "page_size" 25) with
      | Err e => Err e
      | Ok size => if size <=? 100 then Ok (page, size) else Err (400, "page_size must be between 1 and 100")
      end
  end.

Definition requested_search (query : gmap string string) : Result string (Z * string) :=
  let search := default "" (query !! "search") in
  if 256 <? Z.of_nat (String.length search) then Err (400, "search query too long") else Ok search.

(** [sort]: one of the orders of the page, the first by default. *)
Definition requested_sort (query : gmap string string) (sorts : list string) (message : string)
    : Result string (Z * string) :=
  let sort := default "name" (query !! "sort") in
  if one_of sort sorts then Ok sort else Err (400, message).

(** ** Pages *)

Record Page (A : Type) : Type := {
  pg_entries : list A;
  pg_page : Z;
  pg_page_size : Z;
  pg_total : Z;
  pg_has_more : bool;
  pg_search : string
}.

Arguments pg_entries {A} _.
Arguments pg_page {A} _.
Arguments pg_page_size {A} _.
Arguments pg_total {A} _.
Arguments pg_has_more {A} _.
Arguments pg_search {A} _.

Definition usize_saturating_mul (a b : Z) : Z := Z.min (a * b) USIZE_MAX.
Definition usize_saturating_sub (a b : Z) : Z := Z.max (a - b) 0.

(** [start] and [end] of a page among [total] entries. *)
Definition page_start (page size_ : Z) : Z := usize_saturating_mul (usize_saturating_sub page 1) size_.
Definition page_end (page size_ total : Z) : Z := Z.min (u64_saturating_add (page_start page size_) size_) total.

(** [skip(start).take(end - start)] where [start < total]. *)
Definition page_slice {A} (page size_ : Z) (l : list A) : list A :=
  let total := Z.of_nat (length l) in
  let start := page_start page size_ in
  if start <? total then take (Z.to_nat (page_end page size_ total - start)) (drop (Z.to_nat start) l) else [].

Definition paged {A} (page size_ : Z) (search : string) (l : list A) : Page A :=
  let total := Z.of_nat (length l) in
  {| pg_entries := page_slice page size_ l; pg_page := page; pg_page_size := size_; pg_total := total;
     pg_has_more := page_end page size_ total <? total; pg_search := search |}.

(** ** What is shown of an object *)

Record ObjectEntryWire : Type := {
  oe_name : string;
  oe_key : string;
  oe_size : Z;
  oe_last_modified : string;
  oe_etag : string;
  oe_expires_at : option string;
  oe_shared_links : Z;
  oe_location : option string;
  oe_replica_accounts : Z;
  oe_access_accounts : Z;
  oe_replica_chunk_size_mismatch : bool;
  oe_rechunking : bool
}.

#[export] Instance eta_ObjectEntryWire : Eta ObjectEntryWire := fun w =>
  {| oe_name := oe_name w; oe_key := oe_key w; oe_size := oe_size w; oe_last_modified := oe_last_modified w;
     oe_etag := oe_etag w; oe_expires_at := oe_expires_at w; oe_shared_links := oe_shared_links w;
     oe_location := oe_location w; oe_replica_accounts := oe_replica_accounts w;
     oe_access_accounts := oe_access_accounts w;
     oe_replica_chunk_size_mismatch := oe_replica_chunk_size_mismatch w; oe_rechunking := oe_rechunking w |}.

Record BucketEntryWire : Type := {
  be_name : string;
  be_created_at : string;
  be_replica_accounts : Z;
  be_access_accounts : Z;
  be_replica_chunk_size_mismatch : bool
}.

Record SearchResultWire : Type := {
  sr_bucket : string;
  sr_object : ObjectEntryWire
}.

Record ListObjectsResponse : Type := {
  lo_prefix : string;
  lo_folders : list string;
  lo_objects : list ObjectEntryWire;
  lo_page : Z;
  lo_page_size : Z;
  lo_total : Z;
  lo_has_more : bool;
  lo_search : string
}.

Definition replica_chunk_size_mismatch (manifest : ObjectManifest) : bool :=
  existsb (fun chunk => existsb (fun replica =>
    negb (cr_chunk_size replica =? 0) && negb (cr_chunk_size replica =? size chunk)) (replicas chunk)) (chunks manifest).

(** [key.rsplit_once('/')] as the folder of a key. *)
Fixpoint parent_folder (k : string) : option string :=
  match k with
  | EmptyString => None
  | String c k' =>
      match parent_folder k' with
      | Some p => Some (String c p)
      | None => if is_byte 47 c then Some (String c EmptyString) else None
      end
  end.

(** [relative[..=slash]] where [slash] is the first [/]. *)
Fixpoint first_folder (k : string) : option string :=
  match k with
  | EmptyString => None
  | String c k' => if is_byte 47 c then Some (String c EmptyString) else String c <$> first_folder k'
  end.

(** [trim_end_matches('/')] *)
Fixpoint trim_end_slashes (s : string) : string :=
  match s with
  | EmptyString => EmptyString
  | String c s' =>
      match trim_end_slashes s' with
      | EmptyString => if is_byte 47 c then EmptyString else String c EmptyString
      | rest => String c rest
      end
  end.

(** ** Orders: [desc] is the reversed comparison. *)

Definition by_order {A} (desc : bool) (le : A -> A -> bool) (a b : A) : Prop :=
  (if desc then le b a else le a b) = true.

#[export] Instance by_order_dec {A} desc (le : A -> A -> bool) : RelDecision (by_order desc le).
Proof. intros a b. unfold by_order. apply _. Defined.

(** [a.x.cmp(&b.x).then_with(|| a.name.cmp(&b.name))] *)
Definition z_then_text {A} (x : A -> Z) (name : A -> string) (a b : A) : bool :=
  if x a =? x b then text_le (name a) (name b) else x a <? x b.

Definition bucket_order (sort : string) : BucketEntryWire -> BucketEntryWire -> bool :=
  if bool_decide (sort = "created_at") then fun a b => text_le (be_created_at a) (be_created_at b)
  else if bool_decide (sort = "accounts")
       then z_then_text (fun w => be_replica_accounts w + be_access_accounts w) be_name
       else fun a b => text_le (be_name a) (be_name b).

Definition object_order (sort : string) : ObjectManifest -> ObjectManifest -> bool :=
  if bool_decide (sort = "size") then z_then_text content_length key
  else if bool_decide (sort = "last_modified") then z_then_text created_at key
       else fun a b => text_le (key a) (key b).

Definition result_order (a b : SearchResultWire) : bool :=
  if bool_decide (sr_bucket a = sr_bucket b) then text_le (oe_key (sr_object a)) (oe_key (sr_object b))
  else text_le (sr_bucket a) (sr_bucket b).

Section Browser.
Context (parse_rfc3339 : string -> option OffsetDateTime) (format_rfc3339 : OffsetDateTime -> Result string string).
Context (to_lowercase trim : string -> string).

Definition rfc3339 (value : OffsetDateTime) : string :=
  match format_rfc3339 value with Ok text => text | Err _ => pretty (unix_timestamp value) end.

Definition object_to_wire (manifest : ObjectManifest) (k : string) (shared_links : Z) (location : option string)
    : ObjectEntryWire :=
  {| oe_name := basename_key k; oe_key := k; oe_size := content_length manifest;
     oe_last_modified := rfc3339 (created_at manifest); oe_etag := whole_object (m_checksum manifest);
     oe_expires_at := expires_at manifest ≫= (fun t => match format_rfc3339 t with Ok s => Some s | Err _ => None end);
     oe_shared_links := shared_links; oe_location := location; oe_replica_accounts := 0; oe_access_accounts := 0;
     oe_replica_chunk_size_mismatch := false; oe_rechunking := false |}.

(** [list_bucket_manifests] of the service. *)
Definition bucket_objects (bkt : string) (prefix : option string) : Task (list ObjectManifest) :=
  E ← perform Ambient;
  service_call (service_list_bucket_manifests E bkt prefix).

(** The accounts that hold an object, and those that only have access. *)
Definition holders (items : list AccountAccess) : gset string :=
  list_to_set (map aa_account_id (List.filter (fun i => negb (bool_decide (rl_mode (aa_replica i) = ReplicaMode.Access))) items)).

Definition accessors (items : list AccountAccess) : gset string :=
  list_to_set (map aa_account_id (List.filter (fun i => bool_decide (rl_mode (aa_replica i) = ReplicaMode.Access)) items)).

Definition with_active (active : option string) (s : gset string) : gset string :=
  match active with Some a => {[a]} ∪ s | None => s end.

Definition object_replica_summary (obj : Uuid) : ApiTask (Z * Z) :=
  active ← or_else (call active_connection_setting) None;
  items ← or_else (call (list_account_access None)) [];
  let mine := List.filter (fun i => bool_decide (aa_object_id i = obj)) items in
  mret (Z.of_nat (base.size (with_active active (holders mine))), Z.of_nat (base.size (accessors mine))).

(** One object of a page, with what the store says about it. *)
Definition entry_wire (bkt k : string) (manifest : ObjectManifest) (location : option string) : ApiTask ObjectEntryWire :=
  shared_links ← or_deny (call (share_link_count bkt k)) internal_error;
  accounts ← object_replica_summary (object_id manifest);
  rechunking ← or_else (call (object_rechunk_locked (object_id manifest))) false;
  mret ((object_to_wire manifest k shared_links location)
          <| oe_replica_accounts := accounts.1 |> <| oe_access_accounts := accounts.2 |>
          <| oe_replica_chunk_size_mismatch := replica_chunk_size_mismatch manifest |> <| oe_rechunking := rechunking |>).

Fixpoint entry_wires (bkt : string) (location : ObjectManifest -> option string) (ms : list ObjectManifest)
    : ApiTask (list ObjectEntryWire) :=
  match ms with
  | [] => mret []
  | m :: ms => w ← entry_wire bkt (key m) m (location m); ws ← entry_wires bkt location ms; mret (w :: ws)
  end.

(** ** Buckets *)

(** Per bucket: the accounts that hold objects of it, those with access, and
    whether chunk sizes differ. *)
Definition Summary : Type := gmap string (gset string * gset string * bool).

Definition no_summary : gset string * gset string * bool := (∅, ∅, false).

Fixpoint summarize_buckets (active : string) (names : list string) (s : Summary) : ApiTask Summary :=
  match names with
  | [] => mret s
  | name :: names =>
      ms ← or_else (bucket_objects name None) [];
      match ms with
      | [] => summarize_buckets active names s
      | _ =>
          let '(held, access, mismatch) := default no_summary (s !! name) in
          summarize_buckets active names
            (<[name := ({[active]} ∪ held, access, mismatch || existsb replica_chunk_size_mismatch ms)]> s)
      end
  end.

Definition summarize_access (s : Summary) (item : AccountAccess) : Summary :=
  let '(held, access, mismatch) := default no_summary (s !! aa_bucket item) in
  <[aa_bucket item :=
      if bool_decide (rl_mode (aa_replica item) = ReplicaMode.Access)
      then (held, {[aa_account_id item]} ∪ access, mismatch)
      else ({[aa_account_id item]} ∪ held, access, mismatch)]> s.

Definition bucket_replica_summary : ApiTask Summary :=
  active ← or_else (call active_connection_setting) None;
  s ← match active with
      | None => mret ∅
      | Some active =>
          buckets ← or_else (call (Buckets.list_buckets parse_rfc3339)) [];
          summarize_buckets active (map b_name buckets) ∅
      end;
  items ← or_else (call (list_account_access None)) [];
  mret (foldl summarize_access s items).

Definition bucket_wire (s : Summary) (b : BucketRecord) : BucketEntryWire :=
  let '(held, access, mismatch) := default no_summary (s !! b_name b) in
  {| be_name := b_name b; be_created_at := rfc3339 (b_created_at b);
     be_replica_accounts := Z.of_nat (base.size held); be_access_accounts := Z.of_nat (base.size access);
     be_replica_chunk_size_mismatch := mismatch |}.

Definition handle_list_buckets (query : gmap string string) : ApiTask (Page BucketEntryWire) :=
  search ← demand (requested_search query);
  '(page, page_size) ← demand (requested_page query);
  sort ← demand (requested_sort query ["name"; "created_at"; "accounts"] "sort must be name, created_at, or accounts");
  descending ← demand (bad_request (parse_sort_order query));
  let search_lower := to_lowercase search in
  summary ← bucket_replica_summary;
  buckets ← or_deny (call (Buckets.list_buckets parse_rfc3339)) internal_error;
  let shown := List.filter (fun b => is_empty search_lower || contains search_lower (to_lowercase (b_name b))) buckets in
  mret (paged page page_size search (merge_sort (by_order descending (bucket_order sort)) (map (bucket_wire summary) shown))).

(** ** Search *)

Definition matching (bkt search_lower : string) (m : ObjectManifest) : bool :=
  contains search_lower (to_lowercase (bkt +:+ "/" +:+ key m)).

Fixpoint search_buckets (search_lower : string) (names : list string) : ApiTask (list SearchResultWire) :=
  match names with
  | [] => mret []
  | name :: names =>
      ms ← or_deny (bucket_objects name None) internal_error;
      ws ← entry_wires name (fun m => parent_folder (key m)) (List.filter (matching name search_lower) ms);
      rest ← search_buckets search_lower names;
      mret (map (fun w => {| sr_bucket := name; sr_object := w |}) ws ++ rest)
  end.

Definition handle_search (query : gmap string string) : ApiTask (Page SearchResultWire) :=
  search ← demand (requested_search query);
  '(page, page_size) ← demand (requested_page query);
  let search_lower := to_lowercase (trim search) in
  if is_empty search_lower then
    mret {| pg_entries := []; pg_page := page; pg_page_size := page_size; pg_total := 0; pg_has_more := false;
            pg_search := search |}
  else
    buckets ← or_deny (call (Buckets.list_buckets parse_rfc3339)) internal_error;
    matches ← search_buckets search_lower (map b_name buckets);
    mret (paged page page_size search (merge_sort (by_order false result_order) matches)).

(** ** Objects of a bucket *)

(** The folders, in the order they are met, and the objects of the level. *)
Fixpoint fold_level (prefix search_lower : string) (delimiter : bool) (ms : list ObjectManifest) (folders : list string)
    : list string * list ObjectManifest :=
  match ms with
  | [] => (folders, [])
  | m :: ms =>
      if negb (is_empty search_lower) && negb (contains search_lower (to_lowercase (key m)))
      then fold_level prefix search_lower delimiter ms folders
      else
        let relative := default (key m) (strip_prefix prefix (key m)) in
        match (if delimiter then first_folder relative else None) with
        | Some folder =>
            let folder := prefix +:+ folder in
            fold_level prefix search_lower delimiter ms
              (if bool_decide (folder ∈ folders) then folders else folders ++ [folder])
        | None =>
            if is_empty relative then fold_level prefix search_lower delimiter ms folders
            else
              let r := fold_level prefix search_lower delimiter ms folders in
              (r.1, m :: r.2)
        end
  end.

(** The part of a page that falls on the folders, and on the objects. *)
Definition folders_slice {A} (start stop : Z) (l : list A) : list A :=
  let n := Z.of_nat (length l) in
  take (Z.to_nat (usize_saturating_sub (Z.min stop n) (Z.min start n))) (drop (Z.to_nat (Z.min start n)) l).

Definition objects_slice {A} (start stop folders : Z) (l : list A) : list A :=
  let n := Z.of_nat (length l) in
  let object_start := usize_saturating_sub start folders in
  let object_end := Z.min (usize_saturating_sub stop folders) n in
  take (Z.to_nat (usize_saturating_sub object_end (Z.min object_start n))) (drop (Z.to_nat (Z.min object_start n)) l).

Record LevelPage : Type := {
  lp_folders : list string;
  lp_objects : list ObjectManifest;
  lp_total : Z;
  lp_has_more : bool
}.

(** The page of a level: its folders come first. *)
Definition level_page (prefix search_lower sort : string) (delimiter descending : bool) (page page_size : Z)
    (manifests : list ObjectManifest) : LevelPage :=
  let level := fold_level prefix search_lower delimiter manifests [] in
  let folders := merge_sort (by_order (bool_decide (sort = "name") && descending) text_le) level.1 in
  let objects := merge_sort (by_order descending (object_order sort)) level.2 in
  let n := Z.of_nat (length folders) in
  let total := n + Z.of_nat (length objects) in
  let start := page_start page page_size in
  let stop := page_end page page_size total in
  {| lp_folders := folders_slice start stop folders; lp_objects := objects_slice start stop n objects;
     lp_total := total; lp_has_more := stop <? total |}.

Definition folder_name (prefix path : string) : string := trim_end_slashes (default path (strip_prefix prefix path)).

Definition requested_level (query : gmap string string) : Result (string * string) (Z * string) :=
  match query !! "bucket" with
  | None => Err (400, "bucket is required")
  | Some bkt =>
      if is_empty bkt then Err (400, "bucket is required")
      else
        let prefix := default "" (query !! "prefix") in
        if negb (is_empty prefix) && negb (ends_with_slash prefix) then Err (400, "prefix must end with '/'")
        else if 2048 <? Z.of_nat (String.length prefix) then Err (400, "prefix too long")
        else Ok (bkt, prefix)
  end.

Definition handle_list_objects (query : gmap string string) : ApiTask ListObjectsResponse :=
  '(bkt, prefix) ← demand (requested_level query);
  search ← demand (requested_search query);
  '(page, page_size) ← demand (requested_page query);
  sort ← demand (requested_sort query ["name"; "size"; "last_modified"] "sort must be name, size, or last_modified");
  descending ← demand (bad_request (parse_sort_order query));
  manifests ← or_deny (bucket_objects bkt (Some prefix)) internal_error;
  let delimiter := is_some (query !! "delimiter") && is_empty search in
  let level := level_page prefix (to_lowercase search) sort delimiter descending page page_size manifests in
  wires ← entry_wires bkt (fun m => if is_empty search then None else parent_folder (key m)) (lp_objects level);
  mret {| lo_prefix := prefix; lo_folders := map (folder_name prefix) (lp_folders level); lo_objects := wires;
          lo_page := page; lo_page_size := page_size; lo_total := lp_total level; lo_has_more := lp_has_more level;
          lo_search := search |}.

(** ** The details of an object *)

Record ObjectDetailsWire : Type := {
  od_name : string;
  od_manifest : ObjectManifest;
  od_last_modified : string;
  od_expires_at : option string;
  od_shared_links : Z;
  od_replica_accounts : Z;
  od_access_accounts : Z;
  od_replica_chunk_size_mismatch : bool;
  od_rechunking : bool
}.

Definition required_param (query : gmap string string) (name : string) : Result string (Z * string) :=
  match query !! name with
  | Some value => if is_empty value then Err (400, name +:+ " is required") else Ok value
  | None => Err (400, name +:+ " is required")
  end.

(** The remaining fields of the answer are those of the manifest. *)
Definition handle_object_details (query : gmap string string) : ApiTask ObjectDetailsWire :=
  bkt ← demand (required_param query "bucket");
  k ← demand (required_param query "key");
  if negb (is_safe_object_key k) then deny 400 "invalid object key"
  else
    found ← or_deny (active_version bkt k) (fun e => (409, ObjectFormatError.to_string e));
    match found with
    | None => deny 404 "object not found"
    | Some manifest =>
        w ← entry_wire bkt k manifest None;
        mret {| od_name := basename_key (key manifest); od_manifest := manifest; od_last_modified := oe_last_modified w;
                od_expires_at := oe_expires_at w; od_shared_links := oe_shared_links w;
                od_replica_accounts := oe_replica_accounts w; od_access_accounts := oe_access_accounts w;
                od_replica_chunk_size_mismatch := oe_replica_chunk_size_mismatch w; od_rechunking := oe_rechunking w |}
    end.
End Browser.

(** ** Pages tile the listing *)

Section Pages.
Context {A : Type}.

(** A list a machine can hold. *)
Definition fits (l : list A) : Prop := Z.of_nat (length l) <= USIZE_MAX.

Lemma page_slice_eq page n (l : list A) : 1 <= page -> 1 <= n -> fits l ->
  page_slice page n l = take (Z.to_nat n) (drop (Z.to_nat ((page - 1) * n)) l).
Proof.
  unfold fits, page_slice, page_end, page_start, usize_saturating_mul, usize_saturating_sub, u64_saturating_add, USIZE_MAX.
  intros Hp Hn Hl. rewrite (Z.max_l (page - 1)) by lia. set (start := (page - 1) * n).
  assert (0 <= start) by (unfold start; nia). destruct (Z.ltb_spec (Z.min start U64_MAX) (Z.of_nat (length l))) as [H'|H'].
  - assert (Z.min start U64_MAX = start) as -> by lia.
    destruct (decide (start + n <= Z.of_nat (length l))) as [Hin|Hout].
    + f_equal. lia.
    + rewrite !take_ge; [done|rewrite length_drop; lia..].
  - rewrite drop_ge by lia. by rewrite take_nil.
Qed.

(** The entries of the first [k] pages. *)
Lemma pages_prefix k n (l : list A) : 1 <= n -> fits l ->
  concat (map (fun i => page_slice (Z.of_nat i + 1) n l) (seq 0 k)) = take (k * Z.to_nat n) l.
Proof.
  intros Hn Hl. induction k as [|k IH]; [by rewrite take_0|].
  rewrite seq_S, map_app, concat_app, IH. cbn [map concat plus]. rewrite app_nil_r, page_slice_eq by (done || lia).
  replace (Z.to_nat ((Z.of_nat k + 1 - 1) * n)) with (k * Z.to_nat n)%nat by lia.
  replace (S k * Z.to_nat n)%nat with (k * Z.to_nat n + Z.to_nat n)%nat by lia. apply take_take_drop.
Qed.

Lemma pages_all k n (l : list A) : 1 <= n -> fits l -> Z.of_nat (length l) <= Z.of_nat k * n ->
  concat (map (fun i => page_slice (Z.of_nat i + 1) n l) (seq 0 k)) = l.
Proof. intros Hn Hl Hk. rewrite pages_prefix by done. apply take_ge. nia. Qed.

Lemma page_has_more page n (l : list A) : 1 <= page -> 1 <= n -> fits l ->
  (page_end page n (Z.of_nat (length l)) <? Z.of_nat (length l)) = (page * n <? Z.of_nat (length l)).
Proof.
  unfold fits, page_end, page_start, usize_saturating_mul, usize_saturating_sub, u64_saturating_add, USIZE_MAX.
  intros Hp Hn Hl. rewrite (Z.max_l (page - 1)) by lia. assert (page * n = (page - 1) * n + n) by ring.
  assert (0 <= (page - 1) * n) by nia. apply eq_true_iff_eq. rewrite !Z.ltb_lt. lia.
Qed.
End Pages.

Lemma slice_ext {A} (l : list A) a a' d d' :
  (d = d' \/ length l <= d /\ length l <= d')%nat -> (a = a' \/ length l <= a + d /\ length l <= a' + d')%nat ->
  take a (drop d l) = take a' (drop d' l).
Proof.
  intros [->|[Hd Hd']] Ha; [|by rewrite !drop_ge, !take_nil by lia].
  destruct Ha as [->|[Ha Ha']]; [done|]. by rewrite !take_ge by (rewrite length_drop; lia).
Qed.

(** The page that spans folders and objects is the page of both together. *)
Lemma level_slice {A B} page n (fs : list A) (os : list B) :
  1 <= page -> 1 <= n -> Z.of_nat (length fs) + Z.of_nat (length os) <= USIZE_MAX ->
  let total := Z.of_nat (length fs) + Z.of_nat (length os) in
  let start := page_start page n in
  let stop := page_end page n total in
  map inl (folders_slice start stop fs) ++ map inr (objects_slice start stop (Z.of_nat (length fs)) os)
  = page_slice page n (map inl fs ++ map inr os : list (A + B)).
Proof.
  intros Hp Hn Hfit total start stop. unfold page_slice. rewrite length_app, !length_map, Nat2Z.inj_add. fold total start stop.
  assert (0 <= start) by (unfold start, page_start, usize_saturating_mul, usize_saturating_sub, USIZE_MAX, U64_MAX; nia).
  assert (stop <= total) by (unfold stop, page_end; lia).
  assert (stop = total \/ stop = start + n) as Hs.
  { unfold stop, page_end, u64_saturating_add. fold start. unfold USIZE_MAX in Hfit. fold total in Hfit. lia. }
  unfold folders_slice, objects_slice, usize_saturating_sub. destruct (Z.ltb_spec start total) as [Hlt|Hge].
  - rewrite skipn_app, firstn_app, !skipn_map, !firstn_map, !length_map, !length_skipn.
    f_equal; f_equal; apply slice_ext; lia.
  - assert (stop = total) as -> by lia. rewrite (drop_ge fs), (drop_ge os) by lia. by rewrite !take_nil.
Qed.

(** ** The level of a listing *)

Section Level.
Context (to_lowercase : string -> string) (prefix search_lower : string) (delimiter : bool).

Definition key_at_level (m : ObjectManifest) : string := default (key m) (strip_prefix prefix (key m)).

(** The search finds it; the folder it is shown as; it is shown itself. *)
Definition searched (m : ObjectManifest) : bool :=
  is_empty search_lower || contains search_lower (to_lowercase (key m)).

Definition folder_of (m : ObjectManifest) : option string :=
  if delimiter then String.append prefix <$> first_folder (key_at_level m) else None.

Definition at_level (m : ObjectManifest) : bool :=
  searched m && negb (is_some (folder_of m)) && negb (is_empty (key_at_level m)).

Abbreviation level := (fold_level to_lowercase prefix search_lower delimiter).

Lemma fold_level_cons m ms fs :
  level (m :: ms) fs =
    if searched m then
      match folder_of m with
      | Some f => level ms (if bool_decide (f ∈ fs) then fs else fs ++ [f])
      | None => if is_empty (key_at_level m) then level ms fs else ((level ms fs).1, m :: (level ms fs).2)
      end
    else level ms fs.
Proof.
  cbn [fold_level]. fold (key_at_level m). unfold searched, folder_of.
  destruct (is_empty search_lower), (contains search_lower (to_lowercase (key m))); cbn [negb andb orb]; try done.
  all: destruct delimiter; [|done]; by destruct (first_folder (key_at_level m)).
Qed.

Lemma fold_level_exact ms fs0 : NoDup fs0 ->
  NoDup (level ms fs0).1 /\
  (forall f, f ∈ (level ms fs0).1 <-> f ∈ fs0 \/ exists m, m ∈ ms /\ searched m = true /\ folder_of m = Some f) /\
  (level ms fs0).2 = List.filter at_level ms.
Proof.
  revert fs0. induction ms as [|m ms IH]; intros fs0 Hnd.
  { split_and!; [done| |done]. intros f. split; [by left|]. intros [?|(m & Hm%elem_of_nil & _)]; done. }
  rewrite fold_level_cons. cbn [List.filter]. unfold at_level at 1. setoid_rewrite elem_of_cons.
  destruct (searched m) eqn:Es; [destruct (folder_of m) as [g|] eqn:Eg; [|destruct (is_empty (key_at_level m)) eqn:Ee]|];
    cbn [is_some negb andb fst snd].
  - destruct (IH (if bool_decide (g ∈ fs0) then fs0 else fs0 ++ [g])) as (H1 & H2 & H3).
    { case_bool_decide; [done|]. apply NoDup_app. split_and!; [done|set_solver|apply NoDup_singleton]. }
    split_and!; [done| |done]. intros f. rewrite H2. split.
    + intros [Hf|(x & Hx & ? & ?)]; [|by right; exists x; auto]. case_bool_decide; [by left|].
      apply elem_of_app in Hf as [Hf|Hf%list_elem_of_singleton]; [by left|subst f; by right; exists m; auto].
    + intros [Hf|(x & [->|Hx] & ? & ?)]; [left|left|by right; exists x].
      * case_bool_decide; [done|]. apply elem_of_app. by left.
      * simplify_eq. case_bool_decide; [done|]. apply elem_of_app. right. by apply list_elem_of_singleton.
  - destruct (IH fs0 Hnd) as (H1 & H2 & H3). split_and!; [done| |done]. intros f. rewrite H2.
    split; (intros [?|(x & Hx & ? & ?)]; [by left|]); [by right; exists x; auto|destruct Hx as [->|Hx]; [congruence|by right; exists x]].
  - destruct (IH fs0 Hnd) as (H1 & H2 & H3). split_and!; [done| |by rewrite H3]. intros f. rewrite H2.
    split; (intros [?|(x & Hx & ? & ?)]; [by left|]); [by right; exists x; auto|destruct Hx as [->|Hx]; [congruence|by right; exists x]].
  - destruct (IH fs0 Hnd) as (H1 & H2 & H3). split_and!; [done| |done]. intros f. rewrite H2.
    split; (intros [?|(x & Hx & ? & ?)]; [by left|]); [by right; exists x; auto|destruct Hx as [->|Hx]; [congruence|by right; exists x]].
Qed.

Lemma fold_level_length ms fs : (length (level ms fs).1 + length (level ms fs).2 <= length fs + length ms)%nat.
Proof.
  revert fs. induction ms as [|m ms IH]; intros fs; [cbn; lia|]. rewrite fold_level_cons. cbn [length].
  destruct (searched m); [destruct (folder_of m) as [g|]; [|destruct (is_empty (key_at_level m))]|].
  - specialize (IH (if bool_decide (g ∈ fs) then fs else fs ++ [g])). revert IH. case_bool_decide; rewrite ?length_app; cbn; lia.
  - specialize (IH fs). lia.
  - specialize (IH fs). cbn. lia.
  - specialize (IH fs). lia.
Qed.
End Level.

(** The entries of the [i]-th page, folders and objects. *)
Definition page_entries (p : LevelPage) : list (string + ObjectManifest) := map inl (lp_folders p) ++ map inr (lp_objects p).

(** Going through the pages of a folder in the browser shows every
    subfolder once and every object of the level once: put one after the other,
    the pages are the folders followed by the objects, where the folders are
    without duplicates those of the keys the search finds and the objects are
    exactly the keys it finds that lie in no subfolder; each page says how many
    entries there are in all and whether there are more. *)
Theorem browser_pages_complete to_lowercase prefix search sort delimiter descending n k ms (Hn : 1 <= n)
    (Hfit : Z.of_nat (length ms) <= USIZE_MAX) (Hk : Z.of_nat (length ms) <= Z.of_nat k * n) :
  let page i := level_page to_lowercase prefix search sort delimiter descending i n ms in
  exists folders objects,
    concat (map (fun i => page_entries (page (Z.of_nat i + 1))) (seq 0 k)) = map inl folders ++ map inr objects /\
    NoDup folders /\
    (forall f, f ∈ folders <-> exists m, m ∈ ms /\ searched to_lowercase search m = true /\ folder_of prefix delimiter m = Some f) /\
    objects ≡ₚ List.filter (at_level to_lowercase prefix search delimiter) ms /\
    forall i, 1 <= i -> lp_total (page i) = Z.of_nat (length folders + length objects) /\
                        lp_has_more (page i) = (i * n <? Z.of_nat (length folders + length objects)).
Proof.
  intros page. destruct (fold_level_exact to_lowercase prefix search delimiter ms [] (NoDup_nil_2)) as (Hnd & Hin & Hos).
  pose proof (fold_level_length to_lowercase prefix search delimiter ms []) as Hlen. cbn [length plus] in Hlen.
  unfold page, level_page. set (fs := merge_sort _ (fold_level _ _ _ _ _ _).1). set (os := merge_sort _ (fold_level _ _ _ _ _ _).2).
  assert (fs ≡ₚ (fold_level to_lowercase prefix search delimiter ms []).1) as Pf by apply merge_sort_Permutation.
  assert (os ≡ₚ (fold_level to_lowercase prefix search delimiter ms []).2) as Po by apply merge_sort_Permutation.
  assert (length fs + length os <= length ms)%nat as Hl by (rewrite Pf, Po; done).
  exists fs, os. split_and!.
  - erewrite map_ext; [apply (pages_all k n)|].
    + done.
    + unfold fits. rewrite length_app, !length_map. lia.
    + rewrite length_app, !length_map. lia.
    + intros i. apply level_slice; lia.
  - by rewrite Pf.
  - intros f. rewrite Pf, Hin. split; [intros [Hf%elem_of_nil|?]; done|by right].
  - by rewrite Po, Hos.
  - intros i Hi. cbn [lp_total lp_has_more]. rewrite <- Nat2Z.inj_add. split; [done|].
    pose proof (page_has_more i n (map inl fs ++ map inr os : list (string + ObjectManifest)) Hi Hn) as H.
    rewrite length_app, !length_map in H. apply H. unfold fits. rewrite length_app, !length_map. lia.
Qed.

(** ** Witness *)

Definition two_level : list ObjectManifest :=
  [(sample_manifest "o1" "b" "k"); sample_manifest "o2" "b" "dir/a"; sample_manifest "o3" "b" "dir/b"].

Definition two_page (i : Z) : LevelPage := level_page id "" "" "name" true false i 1 two_level.

Lemma browser_pages_complete_witness :
  map (fun i => length (page_entries (two_page (Z.of_nat i + 1)))) (seq 0 3) = [1; 1; 0]%nat /\
  exists folders objects,
    concat (map (fun i => page_entries (two_page (Z.of_nat i + 1))) (seq 0 3)) = map inl folders ++ map inr objects /\
    NoDup folders.
Proof.
  split; [vm_compute; reflexivity|].
  destruct (browser_pages_complete id "" "" "name" true false 1 3 two_level) as (fs & os & H & Hnd & _).
  - lia.
  - vm_compute. discriminate.
  - vm_compute. discriminate.
  - exists fs, os. split; [exact H|exact Hnd].
Defined.
