(* ===== verification/Moves.v ===== *)
(** * Folders and moves ([src/src/admin.rs], [object_format.rs], [workflow.rs])

    What the object browser changes: creating a folder, which stages an empty
    marker object ([stage_reader]); deleting an object or an empty folder; and
    moving objects and folders ([handle_move_objects]).  A move copies no bytes:
    it publishes a manifest whose chunks are those of the source
    ([enqueue_manifest_move]), waits for it, and deletes the source.

    The theorems: a moved object reads as its source and is published only
    where nothing is; a plan has distinct destinations, none taken, and deletes
    a folder after what is in it; a move takes no key away that was not
    selected, whatever else is going on.  One more shows a defect: selecting a
    folder selects by pattern, so that keys of other folders are moved too. *)

From stdpp Require Import pretty.
From S2P Require Import Prelude Errors Config Auth Admin Manifest Schema Cleanup Transfers TransferSafety.
From S2P Require Import ManifestStore ManifestSafety IndexSafety MultipartStore Buckets ConnectionRemoval System Catalog.
From S2P Require Import Requests Listing Settings Chunks Streaming Attempts Programs Publish Reception Completion.
From S2P Require Import Accounts Rechunk Replication CleanupWorker Shares S3Api Guarantees Browser.

Definition is_safe_folder_path (path : string) : bool :=
  negb (is_some (strip_prefix "/" path) || contains ".." path || any_byte (is_byte 0) path)
  && (Z.of_nat (String.length path) <=? 1024).

(** [trim_matches('/')] *)
Fixpoint trim_start_slashes (s : string) : string :=
  match s with
  | String c s' => if is_byte 47 c then trim_start_slashes s' else s
  | EmptyString => EmptyString
  end.

Definition trim_slashes (s : string) : string := trim_end_slashes (trim_start_slashes s).

(** [matches('/').count()] *)
Fixpoint count_slashes (s : string) : nat :=
  match s with
  | EmptyString => 0
  | String c s' => (if is_byte 47 c then 1 else 0) + count_slashes s'
  end%nat.

Section Moves.
Context (parse_rfc3339 : string -> option OffsetDateTime).
Context (parse_uuid : string -> option string) (uuid_error : string -> string).
Context (encrypt_chunk decrypt_chunk : Uuid -> Z -> list byte -> Result (list byte) ObjectFormatError.t).
Context (sha256_hex : list byte -> string).
Context (encryption_key_id data_dir : string) (staging_budget chunk_size : Z).
(** [serde_json::to_vec_pretty] of a manifest. *)
Context (to_vec_pretty : ObjectManifest -> list byte).

(** ** Staging a body that is at hand ([stage_reader]) *)

Definition RECEPTION_FAILED : string := "Upload reception failed before durable acceptance; resend the source file".

(** [ReceivingGuard::drop] *)
Definition drop_guard (job_id path : string) : Task unit :=
  removed ← perform (RemoveDirAll path);
  E ← perform Ambient;
  try_call (fail_reception E job_id (is_removed removed) RECEPTION_FAILED) ;;
  mret tt.

Definition read_chunk_ref (obj : Uuid) (n off : Z) (bytes : list byte) (peer : string) : ChunkRef :=
  (staged_chunk sha256_hex obj n off bytes peer) <| telegram_message_id := n + 1 |>.

(** The loop over the reads; each fills at most the buffer, an empty one ends. *)
Fixpoint stage_reads (job_id : string) (obj : Uuid) (dir : string) (reads : list (Result (list byte) ObjectFormatError.t))
    (st : Staged) : Task Staged :=
  match reads with
  | [] | Ok [] :: _ => mret st
  | Err e :: _ => fail e
  | Ok bytes :: reads =>
      let n := Z.of_nat (length (st_chunks st)) mod (U32_MAX + 1) in
      let path := join dir (chunk_file_name n) in
      E ← perform Ambient;
      call (reserve_staging E job_id (Z.of_nat (length bytes) + 16) staging_budget) ;;
      encrypted ← (Return (encrypt_chunk obj n bytes) : Task (list byte));
      perform_ok (WriteFile path encrypted) ;;
      peer ← perform_ok StorageChatId;
      match u64_checked_add (st_offset st) (Z.of_nat (length bytes)) with
      | None => fail (ObjectFormatError.InvalidPlan "content length overflow")
      | Some off =>
          stage_reads job_id obj dir reads
            {| st_chunks := st_chunks st ++ [read_chunk_ref obj n (st_offset st) bytes peer];
               st_hashed := st_hashed st ++ bytes; st_offset := off |}
      end
  end.

Fixpoint verify_chunks (manifest : ObjectManifest) (dir : string) (cs : list ChunkRef) : Task unit :=
  match cs with
  | [] => mret tt
  | chunk :: cs =>
      if references_remote_payload chunk then
        if trim_is_empty (telegram_peer_id chunk) || (telegram_message_id chunk <=? 0)
        then fail (ObjectFormatError.InvalidPlan
                     ("composed chunk " +:+ pretty (order chunk) +:+ " has no durable Telegram location"))
        else verify_chunks manifest dir cs
      else
        let path := join dir (chunk_file_name (order chunk)) in
        exists_ ← perform (PathExists path);
        if negb exists_ then fail (ObjectFormatError.MissingChunk (object_id manifest) (order chunk))
        else
          bytes ← perform_ok (ReadFile path);
          plaintext ← (Return (if enabled (encryption manifest)
                               then let (o, n) := payload_identity chunk (object_id manifest) in decrypt_chunk o n bytes
                               else Ok bytes) : Task (list byte));
          if negb (bool_decide (sha256_hex plaintext = checksum chunk))
          then fail (ObjectFormatError.ChecksumMismatch ("chunk " +:+ pretty (order chunk)) (checksum chunk) (sha256_hex plaintext))
          else verify_chunks manifest dir cs
  end.

Definition verify_staged_chunks (dir : string) (manifest : ObjectManifest) : Task unit :=
  verify_chunks manifest dir (chunks manifest) ;;
  let path := join dir MANIFEST_FILE_NAME in
  exists_ ← perform (PathExists path);
  if negb exists_ then mret tt
  else
    bytes ← perform_ok (ReadFile path);
    let expected := sha256_hex (to_vec_pretty manifest) in
    if negb (bool_decide (sha256_hex bytes = expected))
    then fail (ObjectFormatError.ChecksumMismatch "staged manifest" expected (sha256_hex bytes))
    else mret tt.

(** The body of [stage_reader] under the guard; the path the guard removes is
    that of the scratch directory until it was renamed. *)
Definition stage_under_guard (job_id : string) (obj : Uuid) (bkt k content_type : string)
    (reads : list (Result (list byte) ObjectFormatError.t)) (scratch : string)
    : Proc (Result ObjectManifest ObjectFormatError.t * string) :=
  let at_path {A} (path : string) (p : Task A) (k : A -> Proc (Result ObjectManifest ObjectFormatError.t * string)) :=
    proc_bind (fun r => match r with Ok a => k a | Err e => Return (Err e, path) end) p in
  at_path scratch (perform_ok (CreateDirAll scratch)) (fun _ =>
  at_path scratch (stage_reads job_id obj scratch reads nothing_staged) (fun st =>
  at_path scratch (build (new_manifest encryption_key_id (build_args sha256_hex obj bkt k content_type None st))) (fun manifest =>
  at_path scratch (E ← perform Ambient; call (stage_manifest E OperationKind.Put manifest)) (fun operation =>
  let dir := staging_dir data_dir operation in
  at_path scratch
    (exists_ ← perform (PathExists dir);
     (if exists_ : bool then
        removed ← perform (RemoveDirAll dir);
        match removed with Ok _ => mret tt | Err e => fail e.2 end
      else mret tt) ;;
     perform_ok (Rename scratch dir)) (fun _ =>
  at_path dir
    (perform_ok (WriteManifest (join dir MANIFEST_FILE_NAME) manifest) ;;
     verify_staged_chunks dir manifest ;;
     E ← perform Ambient;
     call (queue_transfer E job_id operation (Z.of_nat (length (chunks manifest)))))
    (fun _ => Return (Ok manifest, dir))))))).

Definition stage_reader (bkt k content_type : string) (reads : list (Result (list byte) ObjectFormatError.t))
    : Task ObjectManifest :=
  ensure_connection_not_removing ;;
  E ← perform Ambient;
  let obj := new_v4 E 0 in
  E ← perform Ambient;
  job_id ← call (begin_transfer E obj bkt k);
  let scratch := join (join data_dir STAGING_ROOT) ("upload-" +:+ obj) in
  proc_bind (fun r => match r with
                      | (Ok manifest, _) => Return (Ok manifest)
                      | (Err e, path) => drop_guard job_id path ;; fail e
                      end)
    (stage_under_guard job_id obj bkt k content_type reads scratch).

(** [Cursor::read]: the buffer is filled while there are bytes. *)
Fixpoint cursor_reads (fuel : nat) (bytes : list byte) : list (Result (list byte) ObjectFormatError.t) :=
  match fuel, bytes with
  | O, _ | _, [] => []
  | S fuel, _ => Ok (take (Z.to_nat chunk_size) bytes) :: cursor_reads fuel (drop (Z.to_nat chunk_size) bytes)
  end.

Definition stage_bytes (bkt k content_type : string) (bytes : list byte) : Task ObjectManifest :=
  stage_reader bkt k content_type (cursor_reads (length bytes) bytes).

Abbreviation wait := (wait_transfer parse_uuid uuid_error).

Definition put_bytes (fuel : nat) (bkt k content_type : string) (bytes : list byte) : Task (option ObjectManifest) :=
  staged ← stage_bytes bkt k content_type bytes;
  wait fuel (object_id staged).

(** A wait that is over. *)
Definition in_time_api {A} (o : option A) : ApiTask A :=
  match o with Some a => mret a | None => Return (Err Waiting) end.

(** ** Folders and deletions *)

Record CreateFolderRequest : Type := { cf_bucket : string; cf_path : string }.

Definition or_quota (e : ObjectFormatError.t) : Z * string :=
  match e with
  | ObjectFormatError.Metadata (QuotaExceeded message) => (507, message)
  | _ => internal_error e
  end.

Definition handle_create_folder (fuel : nat) (body : option CreateFolderRequest) : ApiTask unit :=
  match body with
  | None => deny 400 "invalid payload"
  | Some q =>
      if negb (ends_with_slash (cf_path q)) then deny 400 "path must end with '/'"
      else if negb (is_safe_folder_path (cf_path q)) then deny 400 "invalid path"
      else
        exists_ ← or_else (call (bucket_exists_for parse_rfc3339 (cf_bucket q))) false;
        if negb exists_ then deny 404 "bucket not found"
        else
          done_ ← or_deny (put_bytes fuel (cf_bucket q) (cf_path q) "application/directory" []) or_quota;
          in_time_api done_ ;;
          mret tt
  end.

Record DeleteObjectRequest : Type := { dq_bucket : string; dq_key : string }.

(** [delete_empty_folder] or [delete_object] of the service. *)
Definition delete_entry (bkt k : string) : Task (option ObjectManifest) :=
  if ends_with_slash k then
    E ← perform Ambient;
    call (delete_empty_folder E bkt k "deleted via admin")
  else service_delete_object bkt k no_conditionals.

Definition handle_delete_object (body : option DeleteObjectRequest) : ApiTask unit :=
  match body with
  | None => deny 400 "invalid payload"
  | Some q =>
      if is_empty (dq_key q) then deny 400 "key is required"
      else
        deleted ← or_deny (delete_entry (dq_bucket q) (dq_key q))
          (fun e => match e with
                    | ObjectFormatError.Metadata (FolderNotEmpty folder) => (409, "folder not empty: " +:+ folder)
                    | _ => internal_error e
                    end);
        match deleted with
        | Some _ => mret tt
        | None => deny 404 "object not found"
        end
  end.

(** ** Queueing a move ([workflow.rs]) *)

Definition moved_chunk (source : Uuid) (chunk : ChunkRef) : ChunkRef :=
  let (o, n) := payload_identity chunk source in
  chunk <| source_object_id := Some o |> <| source_chunk_order := Some n |>.

Definition moved_manifest (source : ObjectManifest) (obj : Uuid) (bkt k peer : string) : ObjectManifest :=
  source <| schema_version := MANIFEST_SCHEMA_VERSION |> <| commit_state := CommitState.Staging |>
         <| object_id := obj |> <| bucket := bkt |> <| key := k |> <| version_id := Some obj |>
         <| telegram := {| peer_id := peer; message_id := 0; document_id := Some ("local:" +:+ obj +:+ ":manifest") |} |>
         <| chunks ::= map (moved_chunk (object_id source)) |>.

Definition only_if_absent : TransferWriteConditionals :=
  {| if_match := None; if_none_match := Some "*" |}.

Definition queue_move (id : string) (dir : string) (manifest : ObjectManifest) : Task TransferJob :=
  perform_ok (CreateDirAll dir) ;;
  E ← perform Ambient;
  call (reserve_staging E id (Z.of_nat (length (to_vec_pretty manifest))) staging_budget) ;;
  perform_ok (WriteManifest (join dir MANIFEST_FILE_NAME) manifest) ;;
  E ← perform Ambient;
  operation ← call (stage_manifest E OperationKind.Put manifest);
  E ← perform Ambient;
  call (set_transfer_conditionals E id (Some only_if_absent)) ;;
  E ← perform Ambient;
  call (queue_transfer E id operation (Z.of_nat (length (chunks manifest)))) ;;
  job ← call (transfer id);
  require job (ObjectFormatError.InvalidPlan "move transfer missing").

Definition enqueue_manifest_move (source : ObjectManifest) (bkt k : string) : Task TransferJob :=
  ensure_connection_not_removing ;;
  E ← perform Ambient;
  let obj := new_v4 E 0 in
  peer ← perform_ok StorageChatId;
  let manifest := moved_manifest source obj bkt k peer in
  (match validate manifest with Ok _ => mret tt | Err m => fail (ObjectFormatError.InvalidPlan m) end) ;;
  E ← perform Ambient;
  id ← call (begin_transfer E obj bkt k);
  let dir := staging_dir data_dir obj in
  queued ← settle (queue_move id dir manifest);
  match queued with
  | Ok job => mret job
  | Err error =>
      removed ← perform (RemoveDirAll dir);
      E ← perform Ambient;
      try_call (fail_reception E id (is_removed removed) "Metadata-only move could not be durably queued") ;;
      fail error
  end.

(** ** Planning a move *)

Record MoveSourceRequest : Type := { mq_key : string; mq_folder : bool }.

Record MoveObjectsRequest : Type := {
  mo_source_bucket : string;
  mo_destination_bucket : string;
  mo_destination_prefix : string;
  mo_sources : list MoveSourceRequest
}.

Definition destination_folder (prefix : string) : Result string (Z * string) :=
  let prefix := trim_slashes prefix in
  if is_empty prefix then Ok ""
  else if is_safe_folder_path (prefix +:+ "/") then Ok (prefix +:+ "/")
       else Err (400, "invalid destination folder").

(** A version and the key it goes to. *)
Definition Plan : Type := list (ObjectManifest * string).

Definition folder_prefix (k : string) : string := if ends_with_slash k then k else k +:+ "/".

(** The objects of a folder that were not planned yet. *)
Fixpoint plan_folder (prefix target_root : string) (ms : list ObjectManifest) (seen : gset string) : Plan * gset string :=
  match ms with
  | [] => ([], seen)
  | m :: ms =>
      if bool_decide (key m ∈ seen) then plan_folder prefix target_root ms seen
      else
        let r := plan_folder prefix target_root ms ({[key m]} ∪ seen) in
        ((m, target_root +:+ default "" (strip_prefix prefix (key m))) :: r.1, r.2)
  end.

Definition plan_source (source_bucket destination_bucket destination_prefix : string) (source : MoveSourceRequest)
    (seen : gset string) : ApiTask (Plan * gset string) :=
  if mq_folder source then
    let prefix := folder_prefix (mq_key source) in
    if negb (is_safe_folder_path prefix) || bool_decide (prefix = "/") then deny 400 "invalid source folder"
    else if bool_decide (source_bucket = destination_bucket) && is_some (strip_prefix prefix destination_prefix)
    then deny 409 "a folder cannot be moved into itself or one of its descendants"
    else
      let target_root := destination_prefix +:+ basename_key (trim_end_slashes prefix) +:+ "/" in
      ms ← or_deny (bucket_objects source_bucket (Some prefix)) internal_error;
      mret (plan_folder prefix target_root ms seen)
  else if negb (is_safe_object_key (mq_key source)) || bool_decide (mq_key source ∈ seen)
  then deny 400 "invalid or duplicate source key"
  else
    found ← or_deny (active_version source_bucket (mq_key source)) internal_error;
    match found with
    | None => deny 404 ("object not found: " +:+ source_bucket +:+ "/" +:+ mq_key source)
    | Some m => mret ([(m, destination_prefix +:+ basename_key (mq_key source))], {[mq_key source]} ∪ seen)
    end.

Fixpoint plan_sources (source_bucket destination_bucket destination_prefix : string) (sources : list MoveSourceRequest)
    (seen : gset string) : ApiTask Plan :=
  match sources with
  | [] => mret []
  | source :: sources =>
      '(plan, seen) ← plan_source source_bucket destination_bucket destination_prefix source seen;
      rest ← plan_sources source_bucket destination_bucket destination_prefix sources seen;
      mret (plan ++ rest)
  end.

(** Every destination is new, differs from its source, and is free. *)
Fixpoint check_moves (source_bucket destination_bucket : string) (plan : Plan) (taken : gset string) : ApiTask unit :=
  match plan with
  | [] => mret tt
  | (m, destination) :: plan =>
      if bool_decide (destination ∈ taken) then deny 409 "sources resolve to duplicate destinations"
      else if bool_decide (source_bucket = destination_bucket) && bool_decide (key m = destination)
      then deny 409 ("source and destination are the same: " +:+ destination)
      else
        found ← or_deny (active_version destination_bucket destination) internal_error;
        match found with
        | Some _ => deny 409 ("destination already exists: " +:+ destination)
        | None => check_moves source_bucket destination_bucket plan ({[destination]} ∪ taken)
        end
  end.

(** [sort_by_key(|(manifest, _)| (ends_with('/'), Reverse(matches('/').count())))] *)
Definition marker_last (a b : ObjectManifest * string) : bool :=
  if eqb (ends_with_slash (key a.1)) (ends_with_slash (key b.1))
  then (count_slashes (key b.1) <=? count_slashes (key a.1))%nat
  else negb (ends_with_slash (key a.1)).

Definition plan_moves (q : MoveObjectsRequest) : ApiTask Plan :=
  if is_empty (mo_source_bucket q) || is_empty (mo_destination_bucket q) || (length (mo_sources q) =? 0)%nat
  then deny 400 "source bucket, destination bucket, and at least one source are required"
  else if (256 <? length (mo_sources q))%nat then deny 400 "at most 256 sources can be moved at once"
  else
    source ← or_else (call (bucket_exists_for parse_rfc3339 (mo_source_bucket q))) false;
    destination ← (if source : bool
                   then or_else (call (bucket_exists_for parse_rfc3339 (mo_destination_bucket q))) false
                   else mret false);
    if negb destination then deny 404 "source or destination bucket not found"
    else
      prefix ← demand (destination_folder (mo_destination_prefix q));
      plan ← plan_sources (mo_source_bucket q) (mo_destination_bucket q) prefix (mo_sources q) ∅;
      match plan with
      | [] => deny 404 "no committed objects found to move"
      | _ =>
          check_moves (mo_source_bucket q) (mo_destination_bucket q) plan ∅ ;;
          mret (merge_sort (by_order false marker_last) plan)
      end.

(** ** Carrying it out *)

Fixpoint carry_out (fuel : nat) (source_bucket destination_bucket : string) (plan : Plan) (moved : Z) : ApiTask Z :=
  match plan with
  | [] => mret moved
  | (m, destination) :: plan =>
      job ← or_deny (enqueue_manifest_move m destination_bucket destination) internal_error;
      published ← or_deny (wait fuel (j_id job)) internal_error;
      in_time_api published ;;
      deleted ← or_deny (delete_entry source_bucket (key m)) internal_error;
      match deleted with
      | Some _ => carry_out fuel source_bucket destination_bucket plan (moved + 1)
      | None => deny 409 ("source disappeared during move: " +:+ key m)
      end
  end.

Definition handle_move_objects (fuel : nat) (body : option MoveObjectsRequest) : ApiTask Z :=
  match body with
  | None => deny 400 "invalid move payload"
  | Some q =>
      plan ← plan_moves q;
      carry_out fuel (mo_source_bucket q) (mo_destination_bucket q) plan 0
  end.
End Moves.

(** ** Runs of handlers *)

Lemma api_ok {W A B} answer (f : A -> ApiTask B) (p : ApiTask A) (w : W) db b w' db' :
  interp answer (p ≫= f) w db = (Ok b, w', db') <->
  exists a w1 d1, interp answer p w db = (Ok a, w1, d1) /\ interp answer (f a) w1 d1 = (Ok b, w', db').
Proof.
  unfold mbind, ApiTask_bind. rewrite interp_bind. destruct (interp answer p w db) as [[[a|e] w1] d1].
  - split; [eauto|]. intros (a' & w2 & d2 & [= <- <- <-] & H). exact H.
  - split; [done|]. intros (a' & w2 & d2 & [=] & _).
Qed.

Lemma or_deny_ok {W A} answer (p : Task A) f (w : W) db a w' db' :
  interp answer (or_deny p f) w db = (Ok a, w', db') <-> interp answer p w db = (Ok a, w', db').
Proof.
  unfold or_deny. rewrite interp_bind. destruct (interp answer p w db) as [[[x|e] w1] d1]; cbn; [|done].
  split; by intros [= -> -> ->].
Qed.

(** A call that only reads, whatever is made of its result. *)
Lemma or_else_reads {W A} answer (m : M A) fallback (w : W) db a w' db' :
  steps eq m -> interp answer (or_else (call m) fallback) w db = (Ok a, w', db') -> db' = db.
Proof. intros Hm. specialize (Hm db). cbn. destruct (m db) as [[x|e] d]; cbn in *; subst d; by intros [= _ _ <-]. Qed.

Lemma parse_timestamp_reads parse t : steps eq (parse_timestamp parse t).
Proof. intros db. unfold parse_timestamp, some_or. by destruct (parse t). Qed.

Lemma bucket_exists_reads parse name : steps eq (bucket_exists_for parse name).
Proof.
  unfold bucket_exists_for, get_bucket, load_bucket_record. step_through; apply parse_timestamp_reads.
Qed.

(** ** Plans *)

(** Nothing that is not expired is shown under the key. *)
Definition vacant (db : Db) (bkt k : string) : Prop :=
  get_active_manifest bkt k db = (Ok None, db) \/
  exists m now, get_active_manifest bkt k db = (Ok (Some m), db) /\ is_expired m now = true.

Section Plans.
Context {W : Type} (answer : forall B, Io B -> W -> B * W).

Lemma active_version_vacant bkt k w db w' db' :
  interp answer (active_version bkt k) w db = (Ok None, w', db') -> db' = db /\ vacant db bkt k.
Proof.
  intros H. pose proof (active_version_reads _ _ _ _ _ _ _ _ H) as ->. split; [done|].
  apply interp_ok in H as (o & w1 & d1 & H1 & H). apply interp_call in H1 as [H1 ->].
  pose proof (get_active_manifest_reads bkt k db) as Hr. rewrite H1 in Hr. cbn in Hr. subst d1.
  destruct o as [m|]; [|by left]. apply interp_ok in H as (E & w2 & d2 & H2 & H). cbn in H2. injection H2 as <- <- <-.
  destruct (is_expired m _) eqn:Ee; [by right; eauto|].
  apply interp_ok in H as (locked & w3 & d3 & _ & H). by destruct locked.
Qed.

Lemma active_version_found bkt k w db m w' db' :
  catalog_wf db -> interp answer (active_version bkt k) w db = (Ok (Some m), w', db') ->
  db' = db /\ key m = k /\ get_active_manifest bkt k db = (Ok (Some m), db).
Proof.
  intros Hwf H. pose proof (active_version_reads _ _ _ _ _ _ _ _ H) as ->. split; [done|].
  apply interp_ok in H as (o & w1 & d1 & H1 & H). apply interp_call in H1 as [H1 ->].
  pose proof (get_active_manifest_reads bkt k db) as Hr. rewrite H1 in Hr. cbn in Hr. subst d1.
  destruct o as [x|]; [|done]. apply interp_ok in H as (E & w2 & d2 & _ & H).
  destruct (is_expired x _); [done|]. apply interp_ok in H as ([|] & w3 & d3 & _ & H); [done|]. injection H as -> _ _.
  split; [|done]. unfold get_active_manifest, load_manifest_by_object_id, mbind, M_bind, query in H1.
  destruct (active_objects db !! (bkt, k)) as [a|] eqn:Ea; [|done].
  destruct (cw_active db Hwf bkt k a Ea) as (r & Hr & _ & <-). rewrite Hr in H1.
  destruct (bool_decide _); [|done]. rewrite Hr in H1. destruct (validate _); [|done]. injection H1 as <-.
  by apply (cw_rows db Hwf _ _ Hr).
Qed.

Lemma load_listed_active db bkt l ms : catalog_wf db ->
  (forall e, In e l -> e.1.1 = bkt /\ active_objects db !! e.1 = Some e.2 /\
     exists r, object_manifests db !! ao_object_id e.2 = Some r /\ om_connection_id r = active_connection_id db) ->
  load_listed db l = Ok ms ->
  Forall (fun m => get_active_manifest bkt (key m) db = (Ok (Some m), db) /\ exists e, In e l /\ e.1.2 = key m) ms.
Proof.
  intros Hwf. revert ms. induction l as [|e l IH]; intros ms Hl; cbn [load_listed]; [by intros [= <-]|].
  destruct (Hl e (or_introl eq_refl)) as (Hb & Ha & r & Hr & Hc). rewrite Hr.
  destruct (validate (om_manifest r)) as [[]|] eqn:Ev; [|done]. destruct (load_listed db l) as [ms'|] eqn:El; [|done].
  intros [= <-]. destruct e as [[b k] a]. cbn in *. subst b.
  destruct (cw_active db Hwf bkt k a Ha) as (r' & Hr' & _ & Hk). rewrite Hr in Hr'. injection Hr' as <-.
  assert (key (om_manifest r) = k) as Ek by (rewrite <- Hk; by apply (cw_rows db Hwf _ _ Hr)). constructor.
  - split; [|exists (bkt, k, a); split; [by left|done]].
    unfold get_active_manifest, load_manifest_by_object_id, mbind, M_bind, query.
    by rewrite Ek, Ha, Hr, bool_decide_eq_true_2, Hr, Ev by done.
  - eapply Forall_impl; [apply IH; [by intros; apply Hl; right|done]|].
    intros m (Hm & x & Hx & Hk'). split; [done|]. exists x. split; [by right|done].
Qed.

Lemma bucket_objects_found bkt prefix w db ms w' db' : catalog_wf db ->
  interp answer (bucket_objects bkt prefix) w db = (Ok ms, w', db') ->
  db' = db /\ Forall (fun m => get_active_manifest bkt (key m) db = (Ok (Some m), db) /\ under_prefix prefix (key m) = true) ms.
Proof.
  intros Hwf H. apply interp_ok in H as (E & w1 & d1 & H1 & H). cbn in H1. injection H1 as <- <- <-.
  unfold service_call, service_list_bucket_manifests, list_bucket_manifests, service, map_err, query, mbind, mret, IO_bind,
    M_bind, IO_ret in H. cbn in H.
  destruct (load_listed db (listed_rows bkt prefix db)) as [stored|e] eqn:El; cbn in H; [|done].
  injection H as <- _ <-. split; [done|]. apply load_listed_active with (bkt := bkt) in El; [|done|].
  - apply List.Forall_forall. intros m Hm%unexpired_incl. rewrite List.Forall_forall in El.
    destruct (El m Hm) as (Hg & e & He & Hk). split; [done|]. unfold listed_rows in He.
    rewrite merge_sort_Permutation, filter_In in He. destruct He as [_ He]. bool_hyps. by rewrite <- Hk.
  - intros [[b k] a] He. unfold listed_rows in He. rewrite merge_sort_Permutation, filter_In in He. cbn in *.
    destruct He as [He%list_elem_of_In%elem_of_map_to_list Hf]. bool_hyps. split_and!; [done|done|].
    destruct (object_manifests db !! ao_object_id a) as [r|]; [|done]. bool_hyps. by exists r.
Qed.

(** What a source selects: its key, or the keys that match its folder. *)
Definition selects (source : MoveSourceRequest) (k : string) : Prop :=
  if mq_folder source then under_prefix (Some (folder_prefix (mq_key source))) k = true else k = mq_key source.

Definition source_keys (plan : Plan) : list string := map (fun e => key e.1) plan.

(** A part of the plan: new keys, each once, now seen. *)
Record adds (plan : Plan) (seen seen' : gset string) : Prop := {
  ad_once : NoDup (source_keys plan);
  ad_new : forall k, k ∈ source_keys plan -> k ∉ seen;
  ad_seen : forall k, k ∈ seen' <-> k ∈ seen \/ k ∈ source_keys plan
}.

Lemma plan_folder_adds prefix root ms seen :
  adds (plan_folder prefix root ms seen).1 seen (plan_folder prefix root ms seen).2 /\
  Forall (fun e => e.1 ∈ ms) (plan_folder prefix root ms seen).1.
Proof.
  revert seen. induction ms as [|m ms IH]; intros seen; cbn [plan_folder].
  { split; [|constructor]. split; [constructor|by intros k ?%elem_of_nil|].
    intros k. split; [by left|]. by intros [?|?%elem_of_nil]. }
  case_bool_decide as Hm.
  - destruct (IH seen) as [H1 H2]. split; [done|]. eapply Forall_impl; [exact H2|]. intros e He. by right.
  - destruct (IH ({[key m]} ∪ seen)) as [[H1 H2 H3] H4]. cbn [fst snd]. split.
    + split; cbn.
      * constructor; [|done]. intros Hin. apply H2 in Hin. set_solver.
      * intros k [->|Hk]%elem_of_cons; [done|]. apply H2 in Hk. set_solver.
      * intros k. rewrite H3, elem_of_cons. set_solver.
    + constructor; [by left|]. eapply Forall_impl; [exact H4|]. intros e He. by right.
Qed.

Lemma plan_source_ok sb dk dp source seen w db plan seen' w' db' : catalog_wf db ->
  interp answer (plan_source sb dk dp source seen) w db = (Ok (plan, seen'), w', db') ->
  db' = db /\ adds plan seen seen' /\
  Forall (fun e => get_active_manifest sb (key e.1) db = (Ok (Some e.1), db) /\ selects source (key e.1)) plan.
Proof.
  intros Hwf. unfold plan_source, selects. destruct (mq_folder source).
  - destruct (_ || _); [done|]. destruct (_ && _); [done|]. intros H.
    apply api_ok in H as (ms & w1 & d1 & H1 & H). apply or_deny_ok in H1.
    apply bucket_objects_found in H1 as [-> Hms]; [|done].
    destruct (plan_folder_adds (folder_prefix (mq_key source))
      (dp +:+ basename_key (trim_end_slashes (folder_prefix (mq_key source))) +:+ "/") ms seen) as [Ha Hin].
    cbn in H. injection H as H _ <-. rewrite H in Ha, Hin. split_and!; [done|done|].
    eapply Forall_impl; [exact Hin|]. intros e He. rewrite Forall_forall in Hms. by apply Hms.
  - destruct (negb _ || _) eqn:Eg; [done|]. intros H.
    apply api_ok in H as (found & w1 & d1 & H1 & H). apply or_deny_ok in H1.
    destruct found as [m|]; [|done]. apply active_version_found in H1 as (-> & Hk & Hm); [|done].
    cbn in H. injection H as <- <- _ <-. apply orb_false_iff in Eg as [_ Eg%bool_decide_eq_false]. split_and!; [done| |].
    + split; cbn; rewrite Hk; [apply NoDup_singleton|set_solver|]. intros k. rewrite list_elem_of_singleton. set_solver.
    + repeat constructor; cbn; by rewrite Hk.
Qed.

Lemma plan_sources_ok sb dk dp sources seen w db plan w' db' : catalog_wf db ->
  interp answer (plan_sources sb dk dp sources seen) w db = (Ok plan, w', db') ->
  db' = db /\ NoDup (source_keys plan) /\ (forall k, k ∈ source_keys plan -> k ∉ seen) /\
  Forall (fun e => get_active_manifest sb (key e.1) db = (Ok (Some e.1), db) /\
            exists source, source ∈ sources /\ selects source (key e.1)) plan.
Proof.
  intros Hwf. revert seen w plan w' db'. induction sources as [|s sources IH]; intros seen w plan w' db' H; cbn [plan_sources] in H.
  { injection H as <- _ <-. split_and!; [done|constructor|by intros k ?%elem_of_nil|constructor]. }
  apply api_ok in H as ([p seen'] & w1 & d1 & H1 & H). apply plan_source_ok in H1 as (-> & [A1 A2 A3] & A4); [|done].
  apply api_ok in H as (rest & w2 & d2 & H2 & H). apply IH in H2 as (-> & B1 & B2 & B3). injection H as <- _ <-.
  unfold source_keys in *. rewrite map_app. split_and!; [done| | |].
  - apply NoDup_app. split_and!; [done| |done]. intros k Hk Hk'. apply (B2 k Hk'), A3. by right.
  - intros k [Hk|Hk]%elem_of_app; [by apply A2|]. intros Hs. apply (B2 k Hk), A3. by left.
  - apply Forall_app. split.
    + eapply Forall_impl; [exact A4|]. intros e [He Hs]. split; [done|]. exists s. split; [by left|done].
    + eapply Forall_impl; [exact B3|]. intros e (He & s' & Hs & Hsel). split; [done|]. exists s'. split; [by right|done].
Qed.

Lemma check_plan_ok sb dk plan taken w db w' db' :
  interp answer (check_moves sb dk plan taken) w db = (Ok tt, w', db') ->
  db' = db /\ NoDup (map snd plan) /\ (forall d, d ∈ map snd plan -> d ∉ taken) /\
  Forall (fun e => vacant db dk e.2 /\ (sb = dk -> key e.1 <> e.2)) plan.
Proof.
  revert taken w. induction plan as [|[m d] plan IH]; intros taken w H; cbn [check_moves] in H.
  { injection H as _ <-. split_and!; [done|constructor|by intros k ?%elem_of_nil|constructor]. }
  case_bool_decide as Ht; [done|]. destruct (_ && _) eqn:Es; [done|].
  apply api_ok in H as (found & w1 & d1 & H1 & H). apply or_deny_ok in H1. destruct found; [done|].
  apply active_version_vacant in H1 as [-> Hv]. apply IH in H as (-> & B1 & B2 & B3). cbn. split_and!; [done| | |].
  - constructor; [|done]. intros Hin. apply B2 in Hin. set_solver.
  - intros k [->|Hk]%elem_of_cons; [done|]. apply B2 in Hk. set_solver.
  - constructor; [|done]. split; [done|]. cbn. intros -> <-. by rewrite !bool_decide_eq_true_2 in Es.
Qed.
End Plans.

(** ** Folders after what is in them *)

Lemma count_slashes_app a b : count_slashes (a +:+ b) = (count_slashes a + count_slashes b)%nat.
Proof.
  induction a as [|c a IH]; [done|]. change (count_slashes (String c a +:+ b)) with
    ((if is_byte 47 c then 1 else 0) + count_slashes (a +:+ b))%nat. cbn [count_slashes]. rewrite IH. lia.
Qed.

Lemma ends_with_slash_count s : ends_with_slash s = true -> (0 < count_slashes s)%nat.
Proof.
  induction s as [|c s IH]; [done|]. destruct s as [|c' s].
  - cbn [ends_with_slash count_slashes]. intros ->%Ascii.eqb_eq. vm_compute. lia.
  - intros H. specialize (IH H). cbn [count_slashes] in *. lia.
Qed.

Lemma ends_with_slash_app a b : ends_with_slash b = true -> ends_with_slash (a +:+ b) = true.
Proof.
  intros Hb. induction a as [|c a IH]; [done|]. change (String c a +:+ b) with (String c (a +:+ b)).
  destruct (a +:+ b) as [|c' s] eqn:E; [|exact IH]. by cbn in IH.
Qed.

Lemma ends_with_slash_app_inv a b : b <> "" -> ends_with_slash (a +:+ b) = true -> ends_with_slash b = true.
Proof.
  intros Hb. induction a as [|c a IH]; [done|]. change (String c a +:+ b) with (String c (a +:+ b)).
  destruct (a +:+ b) as [|c' s] eqn:E; [|done]. destruct a, b; done.
Qed.

Lemma prefix_split p s : String.prefix p s = true -> exists t, s = p +:+ t.
Proof.
  revert s. induction p as [|c p IH]; intros s H; [by exists s|]. destruct s as [|c' s]; [done|]. cbn in H.
  destruct (Ascii.ascii_dec c c') as [<-|]; [|done]. destruct (IH s H) as [t ->]. by exists t.
Qed.

(** What lies in a folder comes strictly before its marker. *)
Lemma marker_after (a b : ObjectManifest * string) :
  ends_with_slash (key a.1) = true -> proper_prefix (key a.1) (key b.1) = true -> marker_last a b = false.
Proof.
  unfold proper_prefix, marker_last. intros Ha [Hp Hne]%andb_true_iff. apply prefix_split in Hp as [t Ht].
  apply negb_true_iff, bool_decide_eq_false in Hne. rewrite Ha.
  assert (t <> "") as Htn by (intros ->; apply Hne; rewrite Ht; apply append_nil_r).
  destruct (ends_with_slash (key b.1)) eqn:Eb; [|done]. cbn [eqb].
  rewrite Ht in Eb. apply ends_with_slash_app_inv, ends_with_slash_count in Eb; [|done].
  rewrite Ht, count_slashes_app. apply Nat.leb_gt. lia.
Qed.

#[local] Instance marker_last_total : Total (by_order false marker_last).
Proof.
  intros a b. unfold by_order, marker_last. destruct (ends_with_slash (key a.1)), (ends_with_slash (key b.1)); cbn [eqb negb];
    rewrite ?Nat.leb_le; auto; lia.
Qed.

#[local] Instance marker_last_trans : Transitive (by_order false marker_last).
Proof.
  intros a b c. unfold by_order, marker_last.
  destruct (ends_with_slash (key a.1)), (ends_with_slash (key b.1)), (ends_with_slash (key c.1)); cbn [eqb negb];
    rewrite ?Nat.leb_le; auto; try done; lia.
Qed.

Lemma sorted_before {A} (R : A -> A -> Prop) l i j (a b : A) :
  StronglySorted R l -> l !! i = Some a -> l !! j = Some b -> ~ R a b -> (j < i)%nat \/ i = j.
Proof.
  intros Hs Ha Hb Hn. destruct (decide (i < j)%nat) as [Hij|]; [|lia]. exfalso. apply Hn. revert i j Ha Hb Hij.
  induction Hs as [|x l Hs IH Hx]; intros i j Ha Hb Hij; [done|]. destruct j as [|j]; [lia|]. cbn in Hb.
  destruct i as [|i]; cbn in Ha.
  - injection Ha as <-. rewrite Forall_forall in Hx. by apply Hx, (list_elem_of_lookup_2 _ j).
  - apply (IH i j); [done..|lia].
Qed.

Lemma plan_moves_ok parse_rfc3339 {W} (answer : forall B, Io B -> W -> B * W) q w db plan w' db' (Hwf : catalog_wf db)
    (H : interp answer (plan_moves parse_rfc3339 q) w db = (Ok plan, w', db')) :
  db' = db /\ NoDup (source_keys plan) /\ NoDup (map snd plan) /\
  Forall (fun e =>
    get_active_manifest (mo_source_bucket q) (key e.1) db = (Ok (Some e.1), db) /\
    (exists source, source ∈ mo_sources q /\ selects source (key e.1)) /\
    vacant db (mo_destination_bucket q) e.2 /\
    (mo_source_bucket q = mo_destination_bucket q -> key e.1 <> e.2)) plan /\
  forall i j a b, plan !! i = Some a -> plan !! j = Some b ->
    ends_with_slash (key a.1) = true -> proper_prefix (key a.1) (key b.1) = true -> (j < i)%nat.
Proof.
  unfold plan_moves in H. destruct (_ || _); [done|]. destruct (256 <? _)%nat; [done|].
  apply api_ok in H as (src & w1 & d1 & H1 & H). apply or_else_reads in H1 as ->; [|apply bucket_exists_reads].
  apply api_ok in H as (dst & w2 & d2 & H2 & H).
  assert (d2 = db) as ->.
  { destruct src; [by apply or_else_reads in H2 as ->; [|apply bucket_exists_reads]|by injection H2]. }
  destruct dst; [|done]. cbn [negb] in H. apply api_ok in H as (prefix & w3 & d3 & H3 & H).
  assert (d3 = db) as -> by (by injection H3). apply api_ok in H as (p & w4 & d4 & H4 & H).
  apply plan_sources_ok in H4 as (-> & K1 & _ & K3); [|done].
  assert (exists w5, interp answer (check_moves (mo_source_bucket q) (mo_destination_bucket q) p ∅) w4 db = (Ok tt, w5, db') /\
    plan = merge_sort (by_order false marker_last) p) as (w5 & H5 & ->).
  { destruct p; [done|]. apply api_ok in H as ([] & w5 & d5 & H5 & H). injection H as <- _ <-. eauto. }
  apply check_plan_ok in H5 as (-> & C1 & _ & C3). pose proof (merge_sort_Permutation (by_order false marker_last) p) as Hp.
  unfold source_keys in *. rewrite Hp. split_and!; try done.
  - apply Forall_forall. intros e He. rewrite Forall_forall in K3, C3. destruct (K3 e He), (C3 e He). done.
  - intros i j a b Ha Hb Hm Hpre. pose proof (StronglySorted_merge_sort (by_order false marker_last) p) as Hs.
    assert (~ by_order false marker_last a b) as Hn by (unfold by_order; by rewrite marker_after).
    destruct (sorted_before _ _ i j a b Hs Ha Hb Hn) as [?| ->]; [done|].
    rewrite Ha in Hb. injection Hb as <-. unfold proper_prefix in Hpre. apply andb_true_iff in Hpre as [_ Hne].
      by rewrite bool_decide_eq_true_2 in Hne.
Qed.

(** A move is planned soundly.  A plan is made without touching the store;
    it takes every key at most once, each a version the source bucket shows and
    a source selects; the destinations are distinct, nothing is shown under
    any of them, and none is its own source; and a folder marker comes after
    everything that lies in its folder, so that the folder is empty when it is
    deleted. *)
Theorem move_plan_sound parse_rfc3339 {W} (answer : forall B, Io B -> W -> B * W) q w db plan w' db' (Hwf : catalog_wf db)
    (H : interp answer (plan_moves parse_rfc3339 q) w db = (Ok plan, w', db')) :
  db' = db /\ NoDup (source_keys plan) /\ NoDup (map snd plan) /\
  Forall (fun e =>
    get_active_manifest (mo_source_bucket q) (key e.1) db = (Ok (Some e.1), db) /\
    (exists source, source ∈ mo_sources q /\ selects source (key e.1)) /\
    vacant db (mo_destination_bucket q) e.2 /\
    (mo_source_bucket q = mo_destination_bucket q -> key e.1 <> e.2)) plan /\
  forall i j a b, plan !! i = Some a -> plan !! j = Some b ->
    ends_with_slash (key a.1) = true -> proper_prefix (key a.1) (key b.1) = true -> (j < i)%nat.
Proof. by apply (plan_moves_ok parse_rfc3339 answer q w db plan w'). Qed.

(** ** A moved object is its source *)

Lemma moved_chunk_identity source obj c : payload_identity (moved_chunk source c) obj = payload_identity c source.
Proof. unfold moved_chunk, payload_identity. by destruct c as [? ? ? ? ? ? ? [?|] [?|] ?]. Qed.

(** Whatever reading a chunk looks at is unchanged. *)
Lemma moved_chunk_place source c : let c' := moved_chunk source c in
  order c' = order c /\ offset c' = offset c /\ size c' = size c /\ checksum c' = checksum c /\
  telegram_peer_id c' = telegram_peer_id c /\ telegram_message_id c' = telegram_message_id c.
Proof. unfold moved_chunk. by destruct (payload_identity c source). Qed.

Lemma read_spans_moved source cs start stop : read_spans (map (moved_chunk source) cs) start stop = read_spans cs start stop.
Proof.
  induction cs as [|c cs IH]; [done|]. cbn [map read_spans]. rewrite IH.
  destruct (moved_chunk_place source c) as (-> & -> & -> & -> & _). done.
Qed.

Section Reads.
Context (download : string -> Z -> Result (list byte) ObjectFormatError.t).
Context (decrypt_chunk : Uuid -> Z -> list byte -> Result (list byte) ObjectFormatError.t) (sha256_hex : list byte -> string).
Context (source : ObjectManifest) (obj : Uuid) (bkt k peer : string).

Abbreviation moved := ((moved_manifest source obj bkt k peer) <| commit_state := CommitState.Committed |>).
Abbreviation original := (source <| commit_state := CommitState.Committed |>).

Lemma read_span_moved span bytes : read_span download decrypt_chunk sha256_hex original span = Written bytes ->
  read_span download decrypt_chunk sha256_hex moved span = Written bytes.
Proof.
  unfold read_span. cbn -[moved_chunk payload_identity]. rewrite list_lookup_fmap.
  destruct (chunks source !! Z.to_nat (s_order span)) as [c|]; [|done]. cbn -[moved_chunk payload_identity].
  rewrite moved_chunk_identity. destruct (moved_chunk_place (object_id source) c) as (-> & _ & _ & -> & -> & ->). done.
Qed.

Lemma read_spans_out_moved spans bytes : read_spans_out download decrypt_chunk sha256_hex original spans = Written bytes ->
  read_spans_out download decrypt_chunk sha256_hex moved spans = Written bytes.
Proof.
  revert bytes. induction spans as [|s spans IH]; intros bytes; cbn [read_spans_out]; [done|].
  destruct (read_span _ _ _ original s) as [b|e|] eqn:E; [|done..]. rewrite (read_span_moved s b E).
  destruct (read_spans_out _ _ _ original spans) as [rest|e|]; [|done..]. by rewrite (IH rest eq_refl).
Qed.

Lemma read_range_moved b' k' b k0 now start stop bytes :
  read_range_to_writer download decrypt_chunk sha256_hex b k0 (Some original) now start stop = Written bytes ->
  read_range_to_writer download decrypt_chunk sha256_hex b' k' (Some moved) now start stop = Written bytes.
Proof.
  unfold read_range_to_writer, plan_read. cbn. unfold is_expired. cbn. rewrite read_spans_moved.
  destruct (match expires_at source with Some e => e <=? now | None => false end); [done|].
  destruct (stop <? start); [done|]. destruct (content_length source <? stop); [done|]. destruct (read_spans (chunks source) start stop) as [spans|e]; [|done].
  apply read_spans_out_moved.
Qed.
End Reads.

Section Queued.
Context (data_dir : string) (staging_budget : Z) (to_vec_pretty : ObjectManifest -> list byte).
Context {W : Type} (answer : forall B, Io B -> W -> B * W).

Lemma queue_move_ok id dir manifest w db job w' db' :
  interp answer (queue_move staging_budget to_vec_pretty id dir manifest) w db = (Ok job, w', db') ->
  j_id job = id /\
  (om_manifest <$> object_manifests db' !! object_id manifest) = Some (manifest_json_with_state manifest CommitState.Staging) /\
  exists r, In r (transfer_jobs db') /\ tj_id r = id /\ tj_state r = JobState.Queued /\
    tj_operation_id r = Some (object_id manifest) /\ tj_write_conditionals r = Some only_if_absent.
Proof.
  intros H. do 4 apply interp_ok in H as (? & ? & ? & _ & H).
  apply interp_ok in H as (E & w1 & d1 & _ & H). apply interp_ok in H as (operation & w2 & d2 & Hs & H).
  apply interp_call in Hs as [Hs ->]. apply interp_ok in H as (E1 & w3 & d3 & H3 & H). cbn in H3. injection H3 as _ <- <-.
  apply interp_ok in H as ([] & w4 & d4 & Hc & H). apply interp_call in Hc as [Hc ->].
  apply interp_ok in H as (E2 & w5 & d5 & H5 & H). cbn in H5. injection H5 as _ <- <-.
  apply interp_ok in H as ([] & w6 & d6 & Hq & H). apply interp_call in Hq as [Hq ->].
  apply interp_ok in H as (j & w7 & d7 & Hj & H). apply interp_call in Hj as [Hj ->].
  destruct j as [j|]; [|done]. cbn in H. injection H as <- <- <-. cbn in Hj. injection Hj as Hj <-.
  apply stage_manifest_ok in Hs as (-> & _ & Hom). apply update_one_job in Hq as (Hom6 & r & Hr & Hp & Hin). split_and!.
  - destruct (find_job id d6) as [row|] eqn:Ef; [|done]. injection Hj as <-.
    apply sql_first_where in Ef as [_ Hid]. unfold has_id in Hid. by bool_hyps.
  - apply update_one_job in Hc as [Hom4 _]. by rewrite Hom6, Hom4.
  - eexists. split; [exact Hin|]. cbn in Hp |- *.
    apply bind_ok in Hc as (n & d & Hu & Hc). apply ensure_ok in Hc as [_ ->]. injection Hu as _ <-.
    cbn in Hr. apply In_sql_update in Hr as (r0 & _ & ->).
    destruct (has_id id r0 && in_states [JobState.Receiving] r0) eqn:E0; [|congruence].
    unfold has_id in E0. bool_hyps. by split_and!.
Qed.

(** C20: A moved object is its source.  When a move was queued, a valid manifest
    is staged for the new version under the bucket and key of the destination;
    its transfer may only be published if nothing is there; and once it is
    committed, every range that can be read of the source reads the same from
    it: the bytes stay where they are and are decrypted under the identity they
    were encrypted under. *)
Theorem moved_object_reads_as_source source bkt k w db job w' db'
    (H : interp answer (enqueue_manifest_move data_dir staging_budget to_vec_pretty source bkt k) w db = (Ok job, w', db')) :
  exists m, (om_manifest <$> object_manifests db' !! j_id job) = Some m /\
    object_id m = j_id job /\ bucket m = bkt /\ key m = k /\ validate m = Ok tt /\ commit_state m = CommitState.Staging /\
    (exists r, In r (transfer_jobs db') /\ tj_id r = j_id job /\ tj_state r = JobState.Queued /\
       tj_operation_id r = Some (object_id m) /\ tj_write_conditionals r = Some only_if_absent) /\
    forall download decrypt_chunk sha256_hex b k0 b' k' now start stop bytes,
      read_range_to_writer download decrypt_chunk sha256_hex b k0
        (Some (source <| commit_state := CommitState.Committed |>)) now start stop = Written bytes ->
      read_range_to_writer download decrypt_chunk sha256_hex b' k'
        (Some (m <| commit_state := CommitState.Committed |>)) now start stop = Written bytes.
Proof.
  apply interp_ok in H as ([] & w1 & d1 & _ & H). apply interp_ok in H as (E & w2 & d2 & _ & H).
  apply interp_ok in H as (peer & w3 & d3 & _ & H). apply interp_ok in H as ([] & w4 & d4 & Hv & H).
  set (m := moved_manifest source (new_v4 E 0) bkt k peer) in *.
  assert (validate m = Ok tt) as Hval by (destruct (validate m) as [[]|]; done).
  apply interp_ok in H as (E' & w5 & d5 & _ & H). apply interp_ok in H as (id & w6 & d6 & Hb & H).
  apply interp_call in Hb as [Hb ->].
  assert (id = new_v4 E 0) as -> by (unfold begin_transfer in Hb; repeat apply bind_ok in Hb as (? & ? & _ & Hb); by injection Hb).
  apply interp_ok in H as (queued & w7 & d7 & Hq & H). unfold settle in Hq. rewrite interp_bind in Hq.
  destruct (interp answer (queue_move _ _ _ _ m) _ d6) as [[[j|e] w8] d8] eqn:Ej; cbn in Hq.
  - injection Hq as <- <- <-. cbn in H. injection H as <- <- <-. apply queue_move_ok in Ej as (Hid & Hm & Hr).
    exists m. rewrite Hid. split_and!; try done.
    intros download decrypt sha b k0 b' k' now start stop bytes. apply read_range_moved.
  - injection Hq as <- <- <-. apply interp_ok in H as (? & ? & ? & _ & H). apply interp_ok in H as (? & ? & ? & _ & H).
    by apply interp_ok in H as (? & ? & ? & _ & H).
Qed.
End Queued.

(** ** A move takes only what was selected *)

(** The key shows the version [obj], whose manifest is [m]; no other key does. *)
Record keeps (b k : string) (obj : Uuid) (m : ObjectManifest) (db : Db) : Prop := {
  kp_shown : (ao_object_id <$> active_objects db !! (b, k)) = Some obj;
  kp_row : (om_manifest <$> object_manifests db !! obj) = Some m;
  kp_only : forall at_ a, active_objects db !! at_ = Some a -> ao_object_id a = obj -> at_ = (b, k)
}.

(** New identifiers are not the one of the version. *)
Definition fresh (obj : Uuid) (B : Type) (e : Io B) : B -> Prop :=
  match e in Io B return B -> Prop with
  | Ambient => fun E => new_v4 E 0 <> obj
  | _ => fun _ => True
  end.

Section Spared.
Context (b k : string) (obj : Uuid) (m : ObjectManifest).
Abbreviation kept_by := (preserves (keeps b k obj m)).

Lemma keeps_same {A} (op : M A) : steps (same (fun db => (object_manifests db, active_objects db))) op -> kept_by op.
Proof.
  intros Hop db [H1 H2 H3]. pose proof (Hop db) as [= Ho Ha]. split; rewrite ?Ho, ?Ha; done.
Qed.

Lemma stage_keeps E kind x : object_id x <> obj -> kept_by (stage_manifest E kind x).
Proof.
  intros Hx db [H1 H2 H3]. unfold stage_manifest. destruct (validate x) as [[]|]; [|by split].
  unfold ensure_recovery_marker, upsert_marker, transaction, modify, mbind, M_bind, mret, M_ret. cbn. split; cbn; [done| |done].
  by rewrite lookup_insert_ne.
Qed.

Lemma discard_keeps id : id <> obj -> kept_by (discard_staged id).
Proof.
  intros Hid. apply preserves_modify. intros db [H1 H2 H3]. split; cbn.
  - destruct (active_objects db !! (b, k)) as [a|] eqn:Ea; [|done]. cbn in H1. injection H1 as H1.
    rewrite (map_lookup_filter_Some_2 _ _ _ a); [by rewrite <- H1|done|]. cbn. intros [Hn _]. congruence.
  - destruct (object_manifests db !! obj) as [r|] eqn:Er; [|done].
    rewrite (map_lookup_filter_Some_2 _ _ _ r); [done|done|]. cbn. by intros [Hn _].
  - intros at_ a [Ha _]%map_lookup_filter_Some. by apply H3.
Qed.

Lemma fail_reception_keeps E id removed message : id <> obj -> kept_by (fail_reception E id removed message).
Proof.
  intros Hid. unfold fail_reception. preserve; try (by apply keeps_same; frame_through).
  by apply discard_keeps.
Qed.

Lemma delete_key_keeps E b' k' reason c : (b', k') <> (b, k) -> kept_by (delete_active_key_in_transaction E b' k' reason c).
Proof.
  intros Hne. unfold delete_active_key_in_transaction. apply preserves_bind; [by apply keeps_same; frame_through|intros busy].
  apply preserves_bind; [by apply keeps_same; frame_through|intros []].
  apply preserves_bind; [by apply keeps_same; frame_through|intros n].
  intros db Hk. unfold mbind at 1, M_bind at 1, query at 1. destruct (active_objects db !! (b', k')) as [a|] eqn:Ea; [|done].
  assert (ao_object_id a <> obj) as Hna by (intros Ho; destruct Hne; by apply (kp_only _ _ _ _ _ Hk _ _ Ea)).
  revert db Ea Hk. intros db _. revert db. change (kept_by (x ← load_manifest_by_object_id (ao_object_id a);
    y ← some_or x (ManifestNotFound (ao_object_id a)); lift (enforce_delete_conditionals_snapshot c y) ;;
    enqueue_manifest_cleanup (now_at E 1) (y <| commit_state := CommitState.Tombstoned |>) ;;
    modify (fun db => db <| object_manifests ::= alter (fun r => r <| om_commit_state := CommitState.Tombstoned |>
      <| om_manifest := y <| commit_state := CommitState.Tombstoned |> |> <| om_tombstoned_at := Some (timestamp_at E 0) |>)
      (ao_object_id a) |>) ;;
    modify (fun db => db <| active_objects ::= filter (fun '(key, a0) => ~ (key = (b', k') /\ ao_object_id a0 = ao_object_id a)) |>) ;;
    delete_markers_of (ao_object_id a) ;; tombstone_journal (ao_object_id a) reason (timestamp_at E 0) ;;
    mret (Some (y <| commit_state := CommitState.Tombstoned |>)))).
  apply preserves_bind; [by apply keeps_same; frame_through|intros x].
  apply preserves_bind; [by apply keeps_same; frame_through|intros y].
  apply preserves_bind; [by apply keeps_same; frame_through|intros []].
  apply preserves_bind; [by apply keeps_same; frame_through|intros []].
  apply preserves_bind; [|intros []; apply preserves_bind; [|intros []; by apply keeps_same; frame_through]].
  - apply preserves_modify. intros db [H1 H2 H3]. split; cbn; [done| |done]. by rewrite lookup_alter_ne.
  - apply preserves_modify. intros db [H1 H2 H3]. split; cbn; [|done|].
    + destruct (active_objects db !! (b, k)) as [a0|] eqn:Ea; [|done].
      rewrite (map_lookup_filter_Some_2 _ _ _ a0); [done|done|]. cbn. intros [Hn _]. congruence.
    + intros at_ a0 [Ha _]%map_lookup_filter_Some. by apply H3.
Qed.

Lemma delete_folder_keeps E b' k' reason : (b', k') <> (b, k) -> kept_by (delete_empty_folder E b' k' reason).
Proof.
  intros Hne. unfold delete_empty_folder. destruct (negb _); [by apply keeps_same; frame_through|].
  apply preserves_transaction.
  do 3 (apply preserves_bind; [by apply keeps_same; frame_through|intros ?]).
  by apply delete_key_keeps.
Qed.

Abbreviation does_keep p Q := (does (keeps b k obj m) (fresh obj) free p Q).

Lemma ambient_fresh : does_keep (perform Ambient) (fun E => new_v4 E 0 <> obj).
Proof. by apply does_perform. Qed.

Lemma keeps_called {A} (op : M A) : kept_by op -> does_keep (call op) (fun _ => True).
Proof. apply does_update. Qed.

Lemma delete_entry_keeps b' k' : (b', k') <> (b, k) -> does_keep (delete_entry b' k') (fun _ => True).
Proof.
  intros Hne. unfold delete_entry, service_delete_object. destruct (ends_with_slash k'); (apply does_then; [by apply does_perform|]); intros E.
  - by apply keeps_called, delete_folder_keeps.
  - apply keeps_called. unfold delete_active_key. apply preserves_transaction. by apply delete_key_keeps.
Qed.

Lemma try_call_keeps {A} (op : M A) : kept_by op -> does_keep (try_call op) (fun _ => True).
Proof. intros H. exists (fun _ => True). split; [by apply ensures_preserves|]. by intros [a|e]. Qed.

Lemma not_removing_keeps : does_keep ensure_connection_not_removing (fun _ => True).
Proof. unfold ensure_connection_not_removing, connection_removal_in_progress. walk. Qed.

Section Carried.
Context (parse_uuid : string -> option string) (uuid_error : string -> string).
Context (data_dir : string) (staging_budget : Z) (to_vec_pretty : ObjectManifest -> list byte).

Lemma queue_move_keeps id dir x : object_id x <> obj -> does_keep (queue_move staging_budget to_vec_pretty id dir x) (fun _ => True).
Proof.
  intros Hx. unfold queue_move. walk; try done; try (apply keeps_called, keeps_same; by frame_through).
  by apply keeps_called, stage_keeps.
Qed.

Lemma enqueue_keeps source dk d :
  does_keep (enqueue_manifest_move data_dir staging_budget to_vec_pretty source dk d) (fun _ => True).
Proof.
  unfold enqueue_manifest_move. apply does_then; [apply not_removing_keeps|intros _].
  eapply does_bind; [apply ambient_fresh|]. intros E HE. apply does_then; [by apply does_perform_ok|intros peer].
  apply does_then; [by destruct (validate _)|intros _]. apply does_then; [by apply does_perform|intros E'].
  eapply does_bind with (Q := fun id => id = new_v4 E 0).
  - apply does_call. intros db Hdb. split.
    + unfold begin_transfer, mbind, M_bind, query, ensure. destruct (bucket_exists dk db); [|done]. cbn.
      by destruct (sql_exists _ _).
    + apply keeps_same; [|done]. by frame_through.
  - intros id ->. apply does_then; [by apply does_settled, queue_move_keeps|]. intros [job|e]; [done|].
    apply does_then; [by apply does_perform|intros removed]. apply does_then; [by apply does_perform|intros E2].
    apply does_then; [by apply try_call_keeps, fail_reception_keeps|done].
Qed.

Lemma poll_keeps id : does_keep (poll_transfer parse_uuid uuid_error id) (fun _ => True).
Proof.
  unfold poll_transfer, uuid_of. walk; try (apply does_reads; reflexivity).
  all: apply does_update, preserves_reads, load_manifest_reads.
Qed.

Lemma wait_keeps fuel id : does_keep (wait_transfer parse_uuid uuid_error fuel id) (fun _ => True).
Proof.
  induction fuel as [|fuel IH]; cbn [wait_transfer]; [done|]. apply does_then; [apply poll_keeps|]. intros [a|]; done.
Qed.

(** [does] for handlers. *)
Definition serves {A} (p : ApiTask A) : Prop := abides (keeps b k obj m) (fresh obj) free p (fun _ => True).

Lemma serves_bind {A B} (p : ApiTask A) (f : A -> ApiTask B) : serves p -> (forall a, serves (f a)) -> serves (p ≫= f).
Proof. intros Hp Hf. eapply abides_bind; [exact Hp|]. intros [a|e] _; [apply Hf|done]. Qed.

Lemma serves_or_deny {A} (p : Task A) f : does_keep p (fun _ => True) -> serves (or_deny p f).
Proof. intros Hp. eapply abides_bind; [exact Hp|]. by intros [a|e]. Qed.

Lemma serves_or_else {A} (p : Task A) x : does_keep p (fun _ => True) -> serves (or_else p x).
Proof. intros Hp. eapply abides_bind; [exact Hp|]. by intros [a|e]. Qed.

Lemma carry_out_serves fuel sb dk plan n : Forall (fun e => (sb, key e.1) <> (b, k)) plan ->
  serves (carry_out parse_uuid uuid_error data_dir staging_budget to_vec_pretty fuel sb dk plan n).
Proof.
  intros Hp. revert n. induction Hp as [|[x d] plan Hx Hp IH]; intros n; cbn [carry_out]; [done|].
  apply serves_bind; [apply serves_or_deny, enqueue_keeps|intros job].
  apply serves_bind; [apply serves_or_deny, wait_keeps|intros published].
  apply serves_bind; [by destruct published|intros _].
  apply serves_bind; [by apply serves_or_deny, delete_entry_keeps|]. intros [y|]; [apply IH|done].
Qed.
End Carried.

(** Planning only reads. *)
Lemma active_version_keeps b' k' : does_keep (active_version b' k') (fun _ => True).
Proof.
  unfold active_version. walk; try done; apply does_update, preserves_reads; [apply get_active_manifest_reads|by intros db].
Qed.

Lemma bucket_objects_keeps b' prefix : does_keep (bucket_objects b' prefix) (fun _ => True).
Proof.
  unfold bucket_objects. apply does_then; [by apply does_perform|intros E]. exists (fun _ => True). split.
  - intros db Hdb. split; [done|].
    unfold service_list_bucket_manifests, list_bucket_manifests, service, map_err, query, mbind, mret, IO_bind, M_bind, IO_ret.
    by destruct (load_listed db _).
  - by intros [[]|].
Qed.

Lemma plan_moves_serves parse_rfc3339 q : serves (plan_moves parse_rfc3339 q).
Proof.
  unfold plan_moves. destruct (_ || _); [done|]. destruct (256 <? _)%nat; [done|].
  apply serves_bind; [by apply serves_or_else, does_update, preserves_reads, bucket_exists_reads|intros src].
  apply serves_bind; [destruct src; [by apply serves_or_else, does_update, preserves_reads, bucket_exists_reads|done]|intros dst].
  destruct dst; [|done]. cbn [negb]. apply serves_bind; [by unfold demand|intros prefix].
  apply serves_bind.
  - generalize (∅ : gset string). induction (mo_sources q) as [|s sources IH]; intros seen; cbn [plan_sources]; [done|].
    apply serves_bind; [|intros [p seen']; apply serves_bind; [apply IH|done]].
    unfold plan_source. destruct (mq_folder s).
    + destruct (_ || _); [done|]. destruct (_ && _); [done|].
      apply serves_bind; [apply serves_or_deny, bucket_objects_keeps|done].
    + destruct (_ || _); [done|]. apply serves_bind; [apply serves_or_deny, active_version_keeps|]. by intros [x|].
  - intros plan. destruct plan as [|e plan]; [done|]. apply serves_bind; [|done]. generalize (e :: plan). clear e plan.
    intros plan. generalize (∅ : gset string). induction plan as [|[x d] plan IH]; intros taken; cbn [check_moves]; [done|].
    case_bool_decide; [done|]. destruct (_ && _); [done|].
    apply serves_bind; [apply serves_or_deny, active_version_keeps|]. intros [y|]; [done|apply IH].
Qed.
End Spared.


(** ** Witnesses and the recorded defect *)

(** The store with one more version in the bucket [b]. *)
Definition shelve (obj k : string) (db : Db) : Db :=
  run (commit_manifest sample_etag (sample_env 2 "u") obj)
    (run (stage_manifest (sample_env 1 "u") OperationKind.Put
            (one_chunk_sample <| object_id := obj |> <| key := k |> <| commit_state := CommitState.Staging |>)) db).

Lemma shelve_wf obj k db : object_manifests db !! obj = None -> catalog_wf db -> catalog_wf (shelve obj k db).
Proof.
  intros Hn Hwf. unfold shelve, run. refine (commit_wf sample_etag (sample_env 2 "u") obj None None _ _).
  apply stage_manifest_wf; [|done]. intros r Hr. change (object_manifests db !! obj = Some r) in Hr. congruence.
Qed.

(** The keys [k], [a_b/x] and [axb/y]. *)
Definition shelf : Db := shelve "o3" "axb/y" (shelve "o2" "a_b/x" stocked).

Lemma shelf_wf : catalog_wf shelf.
Proof. do 2 (apply shelve_wf; [by vm_compute|]). apply stocked_wf. Qed.

Definition selection (k : string) (folder : bool) : MoveObjectsRequest :=
  {| mo_source_bucket := "b"; mo_destination_bucket := "b"; mo_destination_prefix := "d";
     mo_sources := [{| mq_key := k; mq_folder := folder |}] |}.

Definition toy_plan (q : MoveObjectsRequest) : Plan :=
  match (toy_serve (plan_moves epoch q) shelf).1.1 with Ok plan => plan | Err _ => [] end.

Lemma move_plan_sound_witness : exists m, toy_plan (selection "k" false) = [(m, "d/k")] /\
  get_active_manifest "b" "k" shelf = (Ok (Some m), shelf).
Proof.
  destruct (move_plan_sound epoch (disk_world sample_oracle) (selection "k" false) (0%nat, ∅) shelf
    (toy_plan (selection "k" false)) (toy_serve (plan_moves epoch (selection "k" false)) shelf).1.2 shelf shelf_wf)
    as (_ & _ & _ & Hall & _).
  - vm_compute. reflexivity.
  - destruct (toy_plan (selection "k" false)) as [|[m d] plan] eqn:E; [by vm_compute in E|].
    exists m. vm_compute in E. injection E as <- <- <-. split; [reflexivity|].
    exact (proj1 (proj1 (proj1 (Forall_cons _ _ _) Hall))).
Defined.

Definition moved_over := interp (disk_world sample_oracle) (enqueue_manifest_move "" 1000 (fun _ => []) one_chunk_sample "b" "d/k") (0%nat, ∅) shelf.

Definition queued_move : TransferJob :=
  match moved_over.1.1 with Ok job => job | Err _ => sample_job JobState.Queued 0 0 None end.

Lemma moved_object_reads_as_source_witness :
  interp (disk_world sample_oracle) (enqueue_manifest_move "" 1000 (fun _ => []) one_chunk_sample "b" "d/k") (0%nat, ∅) shelf
    = (Ok queued_move, moved_over.1.2, moved_over.2) /\
  exists m, (om_manifest <$> object_manifests moved_over.2 !! "attempt-0") = Some m /\ bucket m = "b" /\ key m = "d/k".
Proof.
  assert (interp (disk_world sample_oracle) (enqueue_manifest_move "" 1000 (fun _ => []) one_chunk_sample "b" "d/k") (0%nat, ∅) shelf
    = (Ok queued_move, moved_over.1.2, moved_over.2)) as H by (vm_compute; reflexivity).
  split; [exact H|].
  destruct (moved_object_reads_as_source "" 1000 (fun _ => []) (disk_world sample_oracle) one_chunk_sample "b" "d/k"
    _ _ _ _ _ H) as (m & Hm & _ & Hb & Hk & _).
  exists m. split; [exact Hm|]. by split.
Defined.

Definition after_move : Db :=
  (toy_serve (handle_move_objects epoch Some id "" 1000 (fun _ => []) 3 (Some (selection "k" false))) shelf).2.


(** A folder is selected by the pattern its name makes, so that moving [a_b/]
    also takes [axb/y] away: the file becomes the folder marker of the target. *)
Theorem folder_move_takes_similar :
  map (fun e => (key e.1, e.2)) (toy_plan (selection "a_b" true)) = [("a_b/x", "d/a_b/x"); ("axb/y", "d/a_b/")].
Proof. vm_compute. reflexivity. Qed.
