(* ===== verification/Pool.v ===== *)
(** * The connection pool ([src/src/metadata/pool.rs], [metadata.rs])

    Store operations run on SQLite handles that threads share through a bounded
    pool: a mutex around the handles that are free and a count of those that
    are open, and a condition variable for threads that find none.  Each
    critical section is a function on [PoolState]; a thread goes from one to
    the next ([Phase], [asks], [works]), between which other threads run.  Opening
    a handle happens outside of the lock and may fail.  Nothing panics while
    the lock is held, so the lock is never poisoned.

    The theorems: in every interleaving, a handle is used by one thread at a
    time and the count is that of the handles and of the slots being filled, at
    most the size of the pool; and a thread that waits is never forgotten: as
    long as one waits, another thread is on its way to a handle or has one to
    give back. *)

From S2P Require Import Prelude Errors Schema.

(** ** Critical sections *)

(** A SQLite handle, by the number it was opened under. *)
Definition Handle : Type := nat.

Record PoolState : Type := {
  available : list Handle;
  open_connections : Z
}.

#[export] Instance eta_PoolState : Eta PoolState := fun s =>
  {| available := available s; open_connections := open_connections s |}.

(** [Vec::pop] *)
Definition vec_pop {A} (l : list A) : option (A * list A) :=
  match rev l with [] => None | x :: l' => Some (x, rev l') end.

(** [state.open_connections.saturating_sub(1)] *)
Definition one_less (s : PoolState) : PoolState := s <| open_connections ::= fun n => Z.max (n - 1) 0 |>.

(** One turn of the loop of [checkout] under the lock. *)
Inductive Turn : Type :=
| Took (connection : Handle)
| Reserved
| MustWait.

Definition checkout_turn (max_size : Z) (s : PoolState) : Turn * PoolState :=
  match vec_pop (available s) with
  | Some (connection, rest) => (Took connection, s <| available := rest |>)
  | None =>
      if open_connections s <? max_size then (Reserved, s <| open_connections ::= Z.add 1 |>)
      else (MustWait, s)
  end.

(** The block of [return_connection] under the lock; whether to replace. *)
Definition return_locked (max_size : Z) (connection : option Handle) (s : PoolState) : bool * PoolState :=
  match connection with
  | Some connection => (false, s <| available ::= fun l => l ++ [connection] |>)
  | None =>
      let s := one_less s in
      if open_connections s <? max_size then (true, s <| open_connections ::= Z.add 1 |>) else (false, s)
  end.

(** [ConnectionPool::new]; [opened] are the results of the first opens. *)
Fixpoint open_all (opened : list (Result Handle MetadataError)) : Result (list Handle) MetadataError :=
  match opened with
  | [] => Ok []
  | Err e :: _ => Err e
  | Ok c :: opened => match open_all opened with Ok cs => Ok (c :: cs) | Err e => Err e end
  end.

Definition pool_max_size (size : Z) : Z := Z.max size 1.

Definition new_pool (size : Z) (open : nat -> Result Handle MetadataError) : Result PoolState MetadataError :=
  match open_all (map open (seq 0 (Z.to_nat (pool_max_size size)))) with
  | Ok connections => Ok {| available := connections; open_connections := pool_max_size size |}
  | Err e => Err e
  end.

(** ** Threads *)

(** Where a thread is.  A discarded handle is closed at the end of [drop]. *)
Inductive Phase : Type :=
| Outside
| Entering                                       (* about to take the lock in checkout *)
| Asleep                                         (* in the condition variable *)
| Opening                                        (* opening a handle for itself *)
| OpenFailed
| Holding (connection : Handle) (discard : bool)
| Replacing (old : Handle)                       (* opening a handle for the pool *)
| Replaced (old new_ : Handle)
| ReplaceFailed (old : Handle)
| Notifying (old : option Handle).               (* about to notify one *)

#[export] Instance Phase_eq_dec : EqDecision Phase.
Proof. solve_decision. Defined.

Record Pool : Type := {
  p_state : PoolState;
  p_threads : list Phase;
  p_opened : nat                                 (* handles opened so far *)
}.

Definition at_phase (i : nat) (ph : Phase) (p : Pool) (s : PoolState) : Pool :=
  {| p_state := s; p_threads := <[i := ph]> (p_threads p); p_opened := p_opened p |}.

(** [notify_one]: a thread that sleeps, if any does, wakes up. *)
Inductive notified (threads : list Phase) : list Phase -> Prop :=
| notified_one j : threads !! j = Some Asleep -> notified threads (<[j := Entering]> threads)
| notified_none : Asleep ∉ threads -> notified threads threads.

(** A thread asks for a handle, or wakes up without being notified. *)
Inductive asks (p : Pool) : Pool -> Prop :=
| step_checkout i : p_threads p !! i = Some Outside -> asks p (at_phase i Entering p (p_state p))
| step_spurious i : p_threads p !! i = Some Asleep -> asks p (at_phase i Entering p (p_state p)).

(** A thread goes on. *)
Inductive works (max_size : Z) (p : Pool) : Pool -> Prop :=
| step_turn i : p_threads p !! i = Some Entering ->
    let r := checkout_turn max_size (p_state p) in
    works max_size p
      (at_phase i (match r.1 with Took c => Holding c false | Reserved => Opening | MustWait => Asleep end) p r.2)
| step_opened i : p_threads p !! i = Some Opening ->
    works max_size p
      {| p_state := p_state p; p_threads := <[i := Holding (p_opened p) false]> (p_threads p); p_opened := S (p_opened p) |}
| step_open_failed i : p_threads p !! i = Some Opening -> works max_size p (at_phase i OpenFailed p (p_state p))
| step_give_up i threads : p_threads p !! i = Some OpenFailed ->
    notified (<[i := Outside]> (p_threads p)) threads ->
    works max_size p {| p_state := one_less (p_state p); p_threads := threads; p_opened := p_opened p |}
| step_discard i c : p_threads p !! i = Some (Holding c false) ->
    works max_size p (at_phase i (Holding c true) p (p_state p))
| step_return i c discard : p_threads p !! i = Some (Holding c discard) ->
    let r := return_locked max_size (if discard then None else Some c) (p_state p) in
    works max_size p
      (at_phase i (if r.1 : bool then Replacing c else Notifying (if discard then Some c else None)) p r.2)
| step_replaced i c : p_threads p !! i = Some (Replacing c) ->
    works max_size p
      {| p_state := p_state p; p_threads := <[i := Replaced c (p_opened p)]> (p_threads p); p_opened := S (p_opened p) |}
| step_replace_failed i c : p_threads p !! i = Some (Replacing c) ->
    works max_size p (at_phase i (ReplaceFailed c) p (p_state p))
| step_refill i c d : p_threads p !! i = Some (Replaced c d) ->
    works max_size p (at_phase i (Notifying (Some c)) p ((p_state p) <| available ::= fun l => l ++ [d] |>))
| step_shrink i c : p_threads p !! i = Some (ReplaceFailed c) ->
    works max_size p (at_phase i (Notifying (Some c)) p (one_less (p_state p)))
| step_notify i old threads : p_threads p !! i = Some (Notifying old) ->
    notified (<[i := Outside]> (p_threads p)) threads ->
    works max_size p {| p_state := p_state p; p_threads := threads; p_opened := p_opened p |}.

Definition pool_step (max_size : Z) (p p' : Pool) : Prop := asks p p' \/ works max_size p p'.

(** A pool that was opened, with threads that have not used it. *)
Definition fresh_pool (size : Z) (threads : nat) : Pool :=
  let n := Z.to_nat (pool_max_size size) in
  {| p_state := {| available := seq 0 n; open_connections := pool_max_size size |};
     p_threads := replicate threads Outside; p_opened := n |}.

(** ** The invariant *)

(** The handles a thread has, and whether it accounts for one of the count. *)
Definition handles (ph : Phase) : list Handle :=
  match ph with
  | Holding c _ | Replacing c | ReplaceFailed c | Notifying (Some c) => [c]
  | Replaced c d => [c; d]
  | _ => []
  end.

Definition accounted (ph : Phase) : nat :=
  match ph with
  | Opening | OpenFailed | Holding _ _ | Replacing _ | Replaced _ _ | ReplaceFailed _ => 1
  | _ => 0
  end.

(** On its way to the lock, or to wake another thread. *)
Definition stirring (ph : Phase) : nat := match ph with Entering | Notifying _ => 1 | _ => 0 end.

Definition in_use (threads : list Phase) : list Handle := threads ≫= handles.
Definition total (f : Phase -> nat) (threads : list Phase) : Z := Z.of_nat (sum_list_with f threads).

Record pool_inv (max_size : Z) (s : PoolState) (threads : list Phase) (opened : nat) : Prop := {
  pi_count : open_connections s = Z.of_nat (length (available s)) + total accounted threads;
  pi_bound : open_connections s <= max_size;
  pi_once : NoDup (available s ++ in_use threads);
  pi_old : Forall (fun c => (c < opened)%nat) (available s ++ in_use threads);
  pi_awake : Asleep ∈ threads ->
    Z.of_nat (length (available s)) + (max_size - open_connections s) <= total stirring threads
}.

#[global] Instance in_use_perm : Proper ((≡ₚ) ==> (≡ₚ)) in_use.
Proof. intros l l' H. unfold in_use. by apply bind_Permutation. Qed.

Lemma total_perm f l l' : l ≡ₚ l' -> total f l = total f l'.
Proof. intros H. unfold total. f_equal. induction H; cbn; lia. Qed.

Lemma pool_inv_perm max_size s l l' n : l ≡ₚ l' -> pool_inv max_size s l n -> pool_inv max_size s l' n.
Proof.
  intros H [H1 H2 H3 H4 H5]. split; [by rewrite <- (total_perm _ _ _ H)|done|by rewrite <- H|by rewrite <- H|].
  rewrite <- (total_perm _ _ _ H). intros Hin. apply H5. by rewrite H.
Qed.

(** One thread among the others. *)
Lemma thread_split (l : list Phase) i x : l !! i = Some x -> exists rest, l ≡ₚ x :: rest /\ forall y, <[i := y]> l ≡ₚ y :: rest.
Proof.
  intros H. exists (take i l ++ drop (S i) l). split.
  - rewrite <- (take_drop_middle l i x H) at 1. by rewrite Permutation_middle.
  - intros y. rewrite insert_take_drop by (by eapply lookup_lt_Some). by rewrite Permutation_middle.
Qed.

Lemma notified_split l l' : notified l l' ->
  (exists rest, l ≡ₚ Asleep :: rest /\ l' ≡ₚ Entering :: rest) \/ (Asleep ∉ l /\ l' = l).
Proof.
  intros [j H|H]; [|by right]. apply thread_split in H as (rest & H1 & H2). left. exists rest. by split.
Qed.

Lemma total_cons f x l : total f (x :: l) = Z.of_nat (f x) + total f l.
Proof. unfold total. cbn. lia. Qed.

Lemma total_nonneg f l : 0 <= total f l.
Proof. unfold total. lia. Qed.

Lemma vec_pop_some {A} (l : list A) x rest : vec_pop l = Some (x, rest) -> l = rest ++ [x].
Proof.
  unfold vec_pop. destruct (rev l) as [|y l'] eqn:E; [done|]. intros [= <- <-].
  by rewrite <- (rev_involutive l), E.
Qed.

Lemma vec_pop_none {A} (l : list A) : vec_pop l = None -> l = [].
Proof. unfold vec_pop. destruct (rev l) as [|y l'] eqn:E; [|done]. intros _. by rewrite <- (rev_involutive l), E. Qed.

(** A wake-up keeps what holds up to the duty to wake. *)
Lemma inv_notified max_size s l l' n : notified l l' ->
  open_connections s = Z.of_nat (length (available s)) + total accounted l -> open_connections s <= max_size ->
  NoDup (available s ++ in_use l) -> Forall (fun c => (c < n)%nat) (available s ++ in_use l) ->
  (Asleep ∈ l -> Z.of_nat (length (available s)) + (max_size - open_connections s) <= total stirring l + 1) ->
  pool_inv max_size s l' n.
Proof.
  intros H H1 H2 H3 H4 H5. apply notified_split in H as [(rest & Hl & Hl')|[Hn ->]]; [|by split].
  apply (pool_inv_perm _ _ (Entering :: rest)); [done|]. rewrite (total_perm _ _ _ Hl), total_cons in H1. rewrite Hl in H3, H4.
  split; [by rewrite total_cons|done|done|done|]. intros _.
  rewrite total_cons. rewrite (total_perm _ _ _ Hl), total_cons in H5. cbn in *.
  enough (Asleep ∈ l) by (specialize (H5 ltac:(done)); lia). rewrite Hl. by left.
Qed.

Lemma inv_thread max_size s s' l i x y n n' : l !! i = Some x -> pool_inv max_size s l n ->
  (forall rest, pool_inv max_size s (x :: rest) n -> pool_inv max_size s' (y :: rest) n') ->
  pool_inv max_size s' (<[i := y]> l) n'.
Proof.
  intros Hx Hl H. apply thread_split in Hx as (rest & H1 & H2). apply (pool_inv_perm _ _ (y :: rest)); [by symmetry|].
  apply H. by apply (pool_inv_perm _ _ l).
Qed.

Lemma in_use_cons x l : in_use (x :: l) = handles x ++ in_use l.
Proof. done. Qed.

(** A thread that sleeps is another one. *)
Lemma asleep_other x y l : y <> Asleep -> Asleep ∈ y :: l -> Asleep ∈ x :: l.
Proof. intros Hy [H|Hin]%elem_of_cons; [by destruct Hy|by right]. Qed.

(** One thread goes on: its part of each count changes, arithmetic does the rest. *)
Ltac one_thread :=
  eapply inv_thread; [eassumption|eassumption|]; intros rest [H1 H2 H3 H4 H5]; rewrite in_use_cons in H3, H4;
  rewrite ?total_cons in H1; rewrite ?total_cons in H5; cbn in H1, H2, H3, H4, H5;
  pose proof (total_nonneg accounted rest); pose proof (total_nonneg stirring rest);
  split; rewrite ?in_use_cons, ?total_cons; cbn;
  rewrite ?length_app, <- ?app_assoc in *; cbn in *; try done; try lia;
  try (intros Hin; lapply H5; [cbn in *; lia|by eapply asleep_other, Hin]).

Lemma step_turn_inv max_size p i : p_threads p !! i = Some Entering ->
  pool_inv max_size (p_state p) (p_threads p) (p_opened p) ->
  let r := checkout_turn max_size (p_state p) in
  pool_inv max_size r.2
    (<[i := match r.1 with Took c => Holding c false | Reserved => Opening | MustWait => Asleep end]> (p_threads p)) (p_opened p).
Proof.
  intros Hi Hp. unfold checkout_turn. destruct (vec_pop _) as [[c rest']|] eqn:E.
  - apply vec_pop_some in E. destruct (p_state p) as [avail n]; cbn in E |- *. subst avail. one_thread.
  - apply vec_pop_none in E. destruct (p_state p) as [avail n]; cbn in E |- *. subst avail.
    destruct (n <? max_size) eqn:En; cbn; one_thread.
Qed.

Lemma step_return_inv max_size p i c discard : p_threads p !! i = Some (Holding c discard) ->
  pool_inv max_size (p_state p) (p_threads p) (p_opened p) ->
  let r := return_locked max_size (if discard then None else Some c) (p_state p) in
  pool_inv max_size r.2
    (<[i := if r.1 then Replacing c else Notifying (if discard then Some c else None)]> (p_threads p)) (p_opened p).
Proof.
  intros Hi Hp. destruct (p_state p) as [avail n]. destruct discard; cbn; [|by one_thread].
  destruct (Z.max (n - 1) 0 <? max_size) eqn:E; cbn.
  - one_thread.
  - exfalso. destruct (thread_split _ _ _ Hi) as (rest & Hl & _).
    destruct (pool_inv_perm _ _ _ _ _ Hl Hp) as [H1 H2 _ _ _]. rewrite total_cons in H1. cbn in *.
    pose proof (total_nonneg accounted rest). lia.
Qed.

(** A thread leaves the pool and wakes another one. *)
Lemma leave_inv max_size s s' l i x l' n : l !! i = Some x -> pool_inv max_size s l n -> notified (<[i := Outside]> l) l' ->
  available s' = available s -> open_connections s' = open_connections s - Z.of_nat (accounted x) ->
  (accounted x + stirring x = 1)%nat -> x <> Asleep -> pool_inv max_size s' l' n.
Proof.
  intros Hi Hp Hn Ha Ho Hx Hx'. destruct (thread_split _ _ _ Hi) as (rest & Hl & Hl').
  destruct (pool_inv_perm _ _ _ _ _ Hl Hp) as [H1 H2 H3 H4 H5]. rewrite total_cons in H1. rewrite in_use_cons in H3, H4.
  rewrite total_cons in H5.
  apply (inv_notified _ _ _ _ _ Hn); rewrite ?Ha, ?Ho, ?(total_perm _ _ _ (Hl' Outside)), ?total_cons; cbn; [lia|lia| | |].
  - rewrite (Hl' Outside), in_use_cons. cbn. apply NoDup_app in H3 as (N1 & N2 & N3). apply NoDup_app in N3 as (_ & _ & N3).
    apply NoDup_app. split_and!; [done| |done]. intros c Hc Hc'. apply (N2 c Hc). apply elem_of_app. by right.
  - rewrite (Hl' Outside), in_use_cons. cbn. apply Forall_app in H4 as [H4 [_ H6]%Forall_app]. by apply Forall_app.
  - intros Hin. rewrite (Hl' Outside) in Hin. lapply H5; [|by eapply asleep_other, Hin]. lia.
Qed.

(** A handle that was just opened is nobody else's. *)
Lemma opened_inv max_size s l i x y n : l !! i = Some x -> pool_inv max_size s l n ->
  handles y ≡ₚ n :: handles x -> accounted y = accounted x -> stirring y = stirring x -> y <> Asleep ->
  pool_inv max_size s (<[i := y]> l) (S n).
Proof.
  intros Hi Hp Hh Ha Hst Hy. eapply inv_thread; [exact Hi|exact Hp|]. intros rest [H1 H2 H3 H4 H5].
  rewrite in_use_cons in H3, H4.
  assert (available s ++ in_use (y :: rest) ≡ₚ n :: available s ++ handles x ++ in_use rest) as P.
  { rewrite in_use_cons, Hh. cbn. symmetry. apply Permutation_middle. }
  split; [by rewrite total_cons, Ha, <- total_cons|done| | |].
  - rewrite P. constructor; [|done]. intros Hin. rewrite Forall_forall in H4. specialize (H4 _ Hin). cbn in H4. lia.
  - rewrite P. constructor; [lia|]. eapply Forall_impl; [exact H4|]. cbn. lia.
  - intros Hin. rewrite total_cons, Hst, <- total_cons. apply H5. by eapply asleep_other, Hin.
Qed.

Lemma one_less_open max_size s l i x n : l !! i = Some x -> accounted x = 1%nat -> pool_inv max_size s l n ->
  open_connections (one_less s) = open_connections s - 1.
Proof.
  intros Hi Hx Hp. destruct (thread_split _ _ _ Hi) as (rest & Hl & _).
  destruct (pool_inv_perm _ _ _ _ _ Hl Hp) as [H1 _ _ _ _]. rewrite total_cons in H1.
  pose proof (total_nonneg accounted rest). cbn. lia.
Qed.

Lemma pool_step_inv max_size p p' : pool_step max_size p p' ->
  pool_inv max_size (p_state p) (p_threads p) (p_opened p) -> pool_inv max_size (p_state p') (p_threads p') (p_opened p').
Proof.
  intros [Hs|Hs] Hp; [destruct Hs; cbn; by one_thread|].
  destruct Hs as [| | |i threads Hi| | | | |i c d Hi|i c Hi|]; cbn; try (by one_thread).
  - by apply step_turn_inv.
  - by eapply opened_inv.
  - eapply leave_inv; [exact Hi|exact Hp|done|done| |done|done]. by apply (one_less_open _ _ _ _ _ _ Hi eq_refl Hp).
  - by apply step_return_inv.
  - eapply opened_inv; [done|done| |done|done|done]. cbn. apply Permutation_swap.
  - destruct (p_state p) as [avail n]. one_thread; by rewrite (Permutation_swap c d).
  - eapply leave_inv; [done|done|done|done|cbn; lia|done|done].
Qed.

Lemma in_use_outside n : in_use (replicate n Outside) = [].
Proof. unfold in_use. by induction n. Qed.

Lemma fresh_pool_inv size n : let p := fresh_pool size n in pool_inv (pool_max_size size) (p_state p) (p_threads p) (p_opened p).
Proof.
  cbn. assert (total accounted (replicate n Outside) = 0) as Ht by (unfold total; by induction n).
  split; cbn; rewrite ?in_use_outside, ?app_nil_r.
  - rewrite length_seq, Ht. unfold pool_max_size. lia.
  - done.
  - apply NoDup_seq.
  - apply Forall_forall. intros c Hc%elem_of_seq. lia.
  - by intros [? _]%elem_of_replicate.
Qed.

(** What every interleaving of threads can make of a new pool. *)
Definition pool_reachable (size : Z) (p : Pool) : Prop := exists n, rtc (pool_step (pool_max_size size)) (fresh_pool size n) p.

Lemma reachable_inv size p : pool_reachable size p -> pool_inv (pool_max_size size) (p_state p) (p_threads p) (p_opened p).
Proof.
  intros [n H]. pose proof (fresh_pool_inv size n) as Hi. cbv zeta in Hi. revert Hi.
  induction H as [|p q r Hpq _ IH]; [done|]. intros Hp. by apply IH, (pool_step_inv _ p).
Qed.

(** ** Handles are exclusive *)

Lemma lookup_in_use (l : list Phase) i x c : l !! i = Some x -> c ∈ handles x -> c ∈ in_use l.
Proof. intros Hi Hc. apply list_elem_of_bind. exists x. split; [done|]. by eapply list_elem_of_lookup_2. Qed.

(** How many threads are closing a handle. *)
Definition closing (ph : Phase) : nat := match ph with Replacing _ | Replaced _ _ | ReplaceFailed _ | Notifying _ => 1 | _ => 0 end.

Lemma in_use_length l : Z.of_nat (length (in_use l)) <= total accounted l + total closing l.
Proof.
  induction l as [|x l IH]; [done|]. rewrite in_use_cons, length_app, !total_cons.
  destruct x as [| | | | |? ?|?|? ?|?|[?|]]; cbn in *; lia.
Qed.

(** C22: However threads interleave, and however often opening a handle fails,
    a handle is used by one thread at a time and is not free meanwhile; and no
    more handles exist than the pool may have, counting apart those that are
    being closed. *)
Theorem handles_are_exclusive size p (H : pool_reachable size p) :
  (forall i j x y c, p_threads p !! i = Some x -> p_threads p !! j = Some y -> c ∈ handles x -> c ∈ handles y -> i = j) /\
  (forall i x c, p_threads p !! i = Some x -> c ∈ handles x -> c ∉ available (p_state p)) /\
  Z.of_nat (length (available (p_state p)) + length (in_use (p_threads p))) <=
    pool_max_size size + total closing (p_threads p).
Proof.
  destruct (reachable_inv _ _ H) as [H1 H2 H3 _ _]. apply NoDup_app in H3 as (_ & Hfree & Hnd). split_and!.
  - intros i j x y c Hi Hj Hx Hy. destruct (decide (i = j)) as [|Hne]; [done|]. exfalso.
    apply thread_split in Hi as (rest & Hl & Hins). rewrite Hl, in_use_cons in Hnd. apply NoDup_app in Hnd as (_ & Hnd & _).
    apply (Hnd c Hx). assert (y ∈ Outside :: rest) as Hin.
    { rewrite <- (Hins Outside). apply (list_elem_of_lookup_2 _ j). by rewrite list_lookup_insert_ne. }
    apply list_elem_of_bind. exists y. split; [done|]. apply elem_of_cons in Hin as [->|Hin]; [by apply elem_of_nil in Hy|done].
  - intros i x c Hi Hc Ha. apply (Hfree c Ha). by eapply lookup_in_use.
  - pose proof (in_use_length (p_threads p)). lia.
Qed.

(** ** Everyone is served *)

(** How far a thread is from being done. *)
Definition distance (ph : Phase) : nat :=
  match ph with
  | Outside => 0
  | OpenFailed | Notifying _ => 2
  | Replaced _ _ | ReplaceFailed _ => 3
  | Replacing _ => 4
  | Holding _ true => 5
  | Holding _ false => 6
  | Opening => 7
  | Asleep => 10
  | Entering => 11
  end.

Lemma distance_at l i x y : l !! i = Some x -> (distance y < distance x)%nat -> total distance (<[i := y]> l) < total distance l.
Proof.
  intros Hi Hd. destruct (thread_split _ _ _ Hi) as (rest & Hl & Hl').
  rewrite (total_perm _ _ _ Hl), (total_perm _ _ _ (Hl' y)), !total_cons. lia.
Qed.

Lemma distance_notified l i x l' : l !! i = Some x -> distance x = 2%nat -> notified (<[i := Outside]> l) l' ->
  total distance l' < total distance l.
Proof.
  intros Hi Hx Hn. destruct (thread_split _ _ _ Hi) as (rest & Hl & Hl').
  rewrite (total_perm _ _ _ Hl), total_cons, Hx.
  apply notified_split in Hn as [(rest' & Hr & Hr')|[_ ->]].
  - rewrite (total_perm _ _ _ Hr'), total_cons. rewrite (Hl' Outside) in Hr. pose proof (total_perm distance _ _ Hr) as Ht.
    rewrite !total_cons in Ht. cbn in *. lia.
  - rewrite (total_perm _ _ _ (Hl' Outside)), total_cons. cbn. lia.
Qed.

Lemma works_nearer max_size p p' : works max_size p p' -> total distance (p_threads p') < total distance (p_threads p).
Proof.
  intros []; cbn; try (by eapply distance_notified); (eapply distance_at; [eassumption|]); cbn; try lia.
  - destruct (checkout_turn _ _) as [[] ?]; cbn; lia.
  - destruct discard; cbn; [|lia]. destruct (_ <? _); cbn; lia.
Qed.

Lemma notified_some l : exists l', notified l l'.
Proof.
  destruct (decide (Asleep ∈ l)) as [[j Hj]%list_elem_of_lookup_1|Hn]; [|by exists l; right].
  exists (<[j := Entering]> l). by constructor.
Qed.

(** A thread that neither sleeps nor is outside can go on. *)
Lemma works_on max_size p i x : p_threads p !! i = Some x -> x <> Outside -> x <> Asleep -> exists p', works max_size p p'.
Proof.
  intros Hi Ho Ha. destruct x as [| | | | |c d|c|c d|c|old]; [done|eexists; by apply (step_turn _ _ i)|done| | | | | | |].
  - eexists. by apply (step_open_failed _ _ i).
  - destruct (notified_some (<[i := Outside]> (p_threads p))) as [l Hl]. eexists. by eapply step_give_up.
  - eexists. by apply (step_return _ _ i c d).
  - eexists. by eapply step_replace_failed.
  - eexists. by eapply step_refill.
  - eexists. by eapply step_shrink.
  - destruct (notified_some (<[i := Outside]> (p_threads p))) as [l Hl]. eexists. by eapply step_notify.
Qed.

Lemma works_ends max_size p : sn (works max_size) p.
Proof.
  apply (wf_projected (R1 := flip (works max_size)) lt (fun p => sum_list_with distance (p_threads p))); [|apply lt_wf].
  intros q r Hq%works_nearer. unfold total in Hq. lia.
Qed.

(** A pool in which no thread can go on is one that nobody uses. *)
Lemma idle_outside max_size p : 1 <= max_size -> pool_inv max_size (p_state p) (p_threads p) (p_opened p) ->
  nf (works max_size) p -> Forall (eq Outside) (p_threads p).
Proof.
  intros Hm [H1 _ _ _ H5] Hnf.
  assert (forall i x, p_threads p !! i = Some x -> x = Outside \/ x = Asleep) as Hq.
  { intros i x Hi. destruct (decide (x = Outside)), (decide (x = Asleep)); auto. destruct Hnf.
    destruct (works_on max_size p i x) as [p' Hp']; [done..|]. by exists p'. }
  assert (Forall (fun x => x = Outside \/ x = Asleep) (p_threads p)) as Hall by by apply Forall_lookup_2, Hq.
  assert (forall f, f Outside = 0%nat -> f Asleep = 0%nat -> total f (p_threads p) = 0) as Hz.
  { intros f Ho Ha. unfold total. clear - Hall Ho Ha. induction Hall as [|x l [->| ->] _ IH]; cbn; lia. }
  assert (Asleep ∉ p_threads p) as Hn.
  { intros Hin. specialize (H5 Hin). rewrite Hz in H1, H5 by done. lia. }
  apply Forall_forall. intros x Hx. rewrite Forall_forall in Hall. destruct (Hall x Hx) as [->| ->]; done.
Qed.


(** ** Witnesses *)

(** One handle, two threads: the second waits while the first has the handle. *)
Definition contended : Pool :=
  {| p_state := {| available := []; open_connections := 1 |}; p_threads := [Holding 0%nat false; Asleep]; p_opened := 1 |}.

Lemma contended_reachable : pool_reachable 1 contended.
Proof.
  exists 2%nat. eapply rtc_l; [left; by apply (step_checkout _ 0%nat)|]. eapply rtc_l; [right; by apply (step_turn _ _ 0%nat)|].
  eapply rtc_l; [left; by apply (step_checkout _ 1%nat)|]. eapply rtc_l; [right; by apply (step_turn _ _ 1%nat)|].
  vm_compute. apply rtc_refl.
Qed.

Lemma handles_are_exclusive_witness : pool_reachable 1 contended /\ (0%nat ∉ available (p_state contended)).
Proof.
  split; [exact contended_reachable|]. destruct (handles_are_exclusive 1 contended contended_reachable) as (_ & H & _).
  apply (H 0%nat (Holding 0%nat false) 0%nat); [reflexivity|by left].
Defined.

