(* ===== verification/Proxy.v ===== *)
(** * Proxies and the SOCKS bridge ([src/src/telegram/proxy.rs])

    How the Telegram client reaches the network: which proxy is used for a
    configuration, and the bridge that speaks SOCKS5 to the client and opens
    its connections through an HTTP or HTTPS proxy with [CONNECT].  URLs (the
    [url] crate), Base64 and TLS are parameters; the sockets are what each side
    sends ([c_in], [u_in]) and what was written to it ([c_out], [u_out]), and
    any read past the end and any write may fail.

    The theorems: the bridge asks the proxy for the host and port that the
    client named, byte for byte, and then passes on exactly the bytes that
    follow the two handshakes, losing and adding none; a bridge is only started
    for a proxy, and credentials given apart win over those of the URL. *)

From stdpp Require Import pretty.
From S2P Require Import Prelude Errors Manifest Chunks Schema Completion Shares.

Inductive ProxyMode : Type := ModeAuto | ModeDirect | ModeSocks5.

Inductive ProxyScheme : Type := SchemeSocks5 | SchemeHttp | SchemeHttps.

Inductive ProxyTransportKind : Type := KindDirect | KindSocks5 | KindBridgedHttp | KindBridgedHttps.

#[export] Instance ProxyScheme_eq_dec : EqDecision ProxyScheme.
Proof. solve_decision. Defined.

#[export] Instance ProxyTransportKind_eq_dec : EqDecision ProxyTransportKind.
Proof. solve_decision. Defined.

Record ProxyUpstream : Type := {
  pu_scheme : ProxyScheme;
  pu_host : string;
  pu_port : Z;
  pu_username : option string;
  pu_password : option string
}.

Record ProxyPlan : Type := {
  pp_mode : ProxyMode;
  pp_kind : ProxyTransportKind;
  pp_proxy_url : option string;
  pp_upstream : option ProxyUpstream
}.

(** [bridge] is the local port of the bridge. *)
Record MaterializedProxy : Type := {
  mp_kind : ProxyTransportKind;
  mp_proxy_url : option string;
  mp_bridge_active : bool;
  mp_bridge : option Z
}.

(** ** The plan *)

Section Plans.
Context {Url : Type} (parse_url : string -> Result Url string).
Context (url_scheme : Url -> string) (host_str : Url -> option string) (port_or_known_default : Url -> option Z).
Context (url_username : Url -> string) (url_password : Url -> option string) (url_to_string : Url -> string).
Context (set_host : string -> Url -> option Url) (set_port : Z -> Url -> option Url).
Context (set_username set_password : string -> Url -> option Url).

(** [.filter(|value| !value.is_empty())] *)
Definition non_empty (o : option string) : option string :=
  match o with Some s => if is_empty s then None else Some s | None => None end.

Definition option_or {A} (a b : option A) : option A := match a with Some _ => a | None => b end.

Definition proxy_upstream (parsed : Url) (username password : option string) : Result ProxyUpstream ProxyError.t :=
  let scheme :=
    if bool_decide (url_scheme parsed = "socks5") then Some SchemeSocks5
    else if bool_decide (url_scheme parsed = "http") then Some SchemeHttp
    else if bool_decide (url_scheme parsed = "https") then Some SchemeHttps
    else None in
  match scheme with
  | None => Err (ProxyError.UnsupportedScheme (url_scheme parsed))
  | Some scheme =>
      match host_str parsed with
      | None => Err ProxyError.MissingHost
      | Some host =>
          match port_or_known_default parsed with
          | None => Err ProxyError.InvalidPort
          | Some port =>
              Ok {| pu_scheme := scheme; pu_host := host; pu_port := port;
                    pu_username := option_or (non_empty username) (non_empty (Some (url_username parsed)));
                    pu_password := option_or (non_empty password) (url_password parsed) |}
          end
      end
  end.

Definition render_socks5_url (upstream : ProxyUpstream) : Result string ProxyError.t :=
  match parse_url "socks5://127.0.0.1:0" with
  | Err e => Err (ProxyError.InvalidUrl e)
  | Ok url =>
      match set_host (pu_host upstream) url with
      | None => Err (ProxyError.InvalidUrl "invalid socks5 host")
      | Some url =>
          match set_port (pu_port upstream) url with
          | None => Err ProxyError.InvalidPort
          | Some url =>
              match (match pu_username upstream with Some u => set_username u url | None => Some url end) with
              | None => Err (ProxyError.InvalidUrl "invalid proxy username")
              | Some url =>
                  match (match pu_password upstream with Some p => set_password p url | None => Some url end) with
                  | None => Err (ProxyError.InvalidUrl "invalid proxy password")
                  | Some url => Ok (url_to_string url)
                  end
              end
          end
      end
  end.

Definition parse_mode (proxy_mode : option string) : Result ProxyMode ProxyError.t :=
  let mode := ascii_lowercase (default "auto" proxy_mode) in
  if bool_decide (mode = "auto") then Ok ModeAuto
  else if bool_decide (mode = "direct") then Ok ModeDirect
  else if bool_decide (mode = "socks5") then Ok ModeSocks5
  else Err (ProxyError.UnsupportedScheme mode).

Definition socks5_plan (mode : ProxyMode) (upstream : ProxyUpstream) : Result ProxyPlan ProxyError.t :=
  match render_socks5_url upstream with
  | Err e => Err e
  | Ok url => Ok {| pp_mode := mode; pp_kind := KindSocks5; pp_proxy_url := Some url; pp_upstream := Some upstream |}
  end.

Definition bridged_plan (mode : ProxyMode) (kind : ProxyTransportKind) (upstream : ProxyUpstream)
    : Result ProxyPlan ProxyError.t :=
  Ok {| pp_mode := mode; pp_kind := kind; pp_proxy_url := None; pp_upstream := Some upstream |}.

Definition resolve_proxy_plan_with (proxy_mode proxy_url username password : option string) : Result ProxyPlan ProxyError.t :=
  match parse_mode proxy_mode with
  | Err e => Err e
  | Ok mode =>
      match non_empty proxy_url with
      | None => Ok {| pp_mode := mode; pp_kind := KindDirect; pp_proxy_url := None; pp_upstream := None |}
      | Some raw =>
          match parse_url raw with
          | Err e => Err (ProxyError.InvalidUrl e)
          | Ok parsed =>
              match proxy_upstream parsed username password with
              | Err e => Err e
              | Ok upstream =>
                  match mode, pu_scheme upstream with
                  | ModeDirect, _ => Err (ProxyError.Inconsistent "direct mode cannot be combined with a proxy URL")
                  | ModeSocks5, SchemeSocks5 | ModeAuto, SchemeSocks5 => socks5_plan mode upstream
                  | ModeSocks5, _ => Err (ProxyError.Inconsistent "socks5 mode requires a socks5:// proxy url")
                  | ModeAuto, SchemeHttp => bridged_plan mode KindBridgedHttp upstream
                  | ModeAuto, SchemeHttps => bridged_plan mode KindBridgedHttps upstream
                  end
              end
          end
      end
  end.
End Plans.

Definition local_proxy_url (local_port : Z) : string := "socks5://127.0.0.1:" +:+ pretty local_port.

(** [start] is [start_bridge]: the local port, or why there is none. *)
Definition materialize (start : ProxyUpstream -> Result Z ProxyError.t) (plan : ProxyPlan) : Result MaterializedProxy ProxyError.t :=
  match pp_kind plan with
  | KindDirect => Ok {| mp_kind := pp_kind plan; mp_proxy_url := None; mp_bridge_active := false; mp_bridge := None |}
  | KindSocks5 => Ok {| mp_kind := pp_kind plan; mp_proxy_url := pp_proxy_url plan; mp_bridge_active := false; mp_bridge := None |}
  | KindBridgedHttp | KindBridgedHttps =>
      match pp_upstream plan with
      | None => Err (ProxyError.Inconsistent "missing upstream bridge details")
      | Some upstream =>
          match start upstream with
          | Err e => Err e
          | Ok port => Ok {| mp_kind := pp_kind plan; mp_proxy_url := Some (local_proxy_url port);
                             mp_bridge_active := true; mp_bridge := Some port |}
          end
      end
  end.

(** ** Bytes *)

Definition byte_value (b : byte) : Z := Z.of_N (Byte.to_N b).

Definition in_range (lo hi : Z) (b : byte) : bool := (lo <=? byte_value b) && (byte_value b <=? hi).

Abbreviation continues := (in_range 128 191).

(** [String::from_utf8] accepts. *)
Fixpoint utf8_valid (l : list byte) : bool :=
  match l with
  | [] => true
  | a :: l =>
      if byte_value a <? 128 then utf8_valid l
      else
        match l with
        | b :: l =>
            if in_range 194 223 a then continues b && utf8_valid l
            else
              match l with
              | c :: l =>
                  if in_range 224 239 a
                  then in_range (if byte_value a =? 224 then 160 else 128) (if byte_value a =? 237 then 159 else 191) b
                       && continues c && utf8_valid l
                  else
                    match l with
                    | d :: l =>
                        in_range 240 244 a
                        && in_range (if byte_value a =? 240 then 144 else 128) (if byte_value a =? 244 then 143 else 191) b
                        && continues c && continues d && utf8_valid l
                    | [] => false
                    end
              | [] => false
              end
        | [] => false
        end
  end.

(** [{:x}] of a digit, [{:x}] and [{:02x}] of a byte. *)
Definition hex_digit (n : Z) : string :=
  String (Ascii.ascii_of_N (Z.to_N (if n <? 10 then 48 + n else 87 + n))) EmptyString.

Definition hex2 (b : byte) : string := hex_digit (byte_value b / 16) +:+ hex_digit (byte_value b mod 16).

Definition hex1 (b : byte) : string := if byte_value b <? 16 then hex_digit (byte_value b) else hex2 b.

(** The eight groups of [{:x}{:02x}], separated by colons. *)
Fixpoint hex_groups (l : list byte) : string :=
  match l with
  | [a; b] => hex1 a +:+ hex2 b
  | a :: b :: l => hex1 a +:+ hex2 b +:+ ":" +:+ hex_groups l
  | _ => EmptyString
  end.

Definition u16_from_be_bytes (hi lo : byte) : Z := byte_value hi * 256 + byte_value lo.

(** ** The bridge *)

Record Sockets : Type := {
  c_in : list byte;
  c_out : list byte;
  u_in : list byte;
  u_out : list byte
}.

#[export] Instance eta_Sockets : Eta Sockets := fun s =>
  {| c_in := c_in s; c_out := c_out s; u_in := u_in s; u_out := u_out s |}.

Definition Bridge (A : Type) : Type := Sockets -> Result A ProxyError.t * Sockets.

#[export] Instance Bridge_ret : MRet Bridge := fun A a s => (Ok a, s).

#[export] Instance Bridge_bind : MBind Bridge := fun A B f p s =>
  match p s with
  | (Ok a, s) => f a s
  | (Err e, s) => (Err e, s)
  end.

Definition bridge_failed {A} (message : string) : Bridge A := fun s => (Err (ProxyError.BridgeFailed message), s).

Definition attempt {A} (r : Result A string) : Bridge A :=
  match r with Ok a => mret a | Err m => bridge_failed m end.

Section Sockets.
Context (eof : string) (write_fails : list byte -> option string).

(** [read_exact] of the client and of the proxy. *)
Definition read_client (n : nat) : Bridge (list byte) := fun s =>
  if (length (c_in s) <? n)%nat then (Err (ProxyError.BridgeFailed eof), s)
  else (Ok (take n (c_in s)), s <| c_in ::= drop n |>).

Definition read_upstream (n : nat) : Bridge (list byte) := fun s =>
  if (length (u_in s) <? n)%nat then (Err (ProxyError.BridgeFailed eof), s)
  else (Ok (take n (u_in s)), s <| u_in ::= drop n |>).

(** [write_all] and [flush]. *)
Definition write_client (l : list byte) : Bridge unit := fun s =>
  match write_fails l with
  | Some m => (Err (ProxyError.BridgeFailed m), s)
  | None => (Ok tt, s <| c_out ::= fun o => o ++ l |>)
  end.

Definition write_upstream (l : list byte) : Bridge unit := fun s =>
  match write_fails l with
  | Some m => (Err (ProxyError.BridgeFailed m), s)
  | None => (Ok tt, s <| u_out ::= fun o => o ++ l |>)
  end.
End Sockets.

Section Bridging.
Context (eof : string) (write_fails : list byte -> option string).
(** [TcpStream::connect], the TLS handshake with the proxy, and the text of a
    UTF-8 error; [first_line] is [headers.lines().next()] of the lossy text. *)
Context (connect : string -> Z -> Result unit string) (tls : string -> Result unit string).
Context (utf8_error : list byte -> string) (first_line : list byte -> string) (base64 : string -> string).

Definition CRLF : string := String (Ascii.ascii_of_N 13) (String (Ascii.ascii_of_N 10) EmptyString).

Definition HEADER_END : list byte := [Byte.x0d; Byte.x0a; Byte.x0d; Byte.x0a].

(** [response.ends_with(b"\r\n\r\n")] *)
Definition ends_headers (l : list byte) : bool :=
  bool_decide (drop (length l - 4) l = HEADER_END).

(** The greeting: version and methods; no authentication is chosen. *)
Definition socks_greeting : Bridge unit :=
  greeting ← read_client eof 2;
  match greeting with
  | [version; count] =>
      if negb (byte_value version =? 5) then bridge_failed "unsupported SOCKS version"
      else
        methods ← read_client eof (Z.to_nat (byte_value count));
        write_client write_fails [Byte.x05; Byte.x00]
  | _ => bridge_failed eof
  end.

(** The address of a request, by its type. *)
Definition socks_host (kind : byte) : Bridge string :=
  if byte_value kind =? 1 then
    ip ← read_client eof 4;
    match ip with
    | [a; b; c; d] => mret (pretty (byte_value a) +:+ "." +:+ pretty (byte_value b) +:+ "." +:+ pretty (byte_value c)
                              +:+ "." +:+ pretty (byte_value d))
    | _ => bridge_failed eof
    end
  else if byte_value kind =? 3 then
    len ← read_client eof 1;
    match len with
    | [len] =>
        bytes ← read_client eof (Z.to_nat (byte_value len));
        if utf8_valid bytes then mret (String.string_of_list_byte bytes) else bridge_failed (utf8_error bytes)
    | _ => bridge_failed eof
    end
  else if byte_value kind =? 4 then
    ip ← read_client eof 16;
    mret ("[" +:+ hex_groups ip +:+ "]")
  else bridge_failed "unsupported SOCKS address type".

Definition socks_request : Bridge (string * Z) :=
  request ← read_client eof 4;
  match request with
  | [_; command; _; kind] =>
      if negb (byte_value command =? 1) then bridge_failed "unsupported SOCKS command"
      else
        host ← socks_host kind;
        port ← read_client eof 2;
        match port with
        | [hi; lo] => mret (host, u16_from_be_bytes hi lo)
        | _ => bridge_failed eof
        end
  | _ => bridge_failed eof
  end.

Definition connect_request (upstream : ProxyUpstream) (host : string) (port : Z) : string :=
  let target := host +:+ ":" +:+ pretty port in
  "CONNECT " +:+ target +:+ " HTTP/1.1" +:+ CRLF +:+ "Host: " +:+ target +:+ CRLF
  +:+ "Proxy-Connection: Keep-Alive" +:+ CRLF
  +:+ (match pu_username upstream with
       | Some username => "Proxy-Authorization: Basic " +:+ base64 (username +:+ ":" +:+ default "" (pu_password upstream)) +:+ CRLF
       | None => EmptyString
       end)
  +:+ CRLF.

(** The loop that reads the headers of the answer byte by byte; every turn
    takes a byte, so the bytes there are bound the turns. *)
Fixpoint read_headers (fuel : nat) (response : list byte) : Bridge (list byte) :=
  match fuel with
  | O => bridge_failed eof
  | S fuel =>
      b ← read_upstream eof 1;
      let response := response ++ b in
      if ends_headers response then mret response
      else if 8192 <? Z.of_nat (length response) then bridge_failed "proxy CONNECT response headers too long"
      else read_headers fuel response
  end.

Definition starts_with_bytes (p l : list byte) : bool := bool_decide (take (length p) l = p).

Definition accepted (response : list byte) : bool :=
  starts_with_bytes (as_bytes "HTTP/1.1 200") response || starts_with_bytes (as_bytes "HTTP/1.0 200") response.

(** Both handshakes; the tunnel that follows copies what is left of [c_in] to
    the proxy and of [u_in] to the client. *)
Definition handle_bridge_client (upstream : ProxyUpstream) : Bridge unit :=
  socks_greeting ;;
  '(host, port) ← socks_request;
  attempt (connect (pu_host upstream) (pu_port upstream)) ;;
  (match pu_scheme upstream with
   | SchemeHttps => attempt (tls (pu_host upstream))
   | SchemeHttp | SchemeSocks5 => mret tt
   end) ;;
  write_upstream write_fails (as_bytes (connect_request upstream host port)) ;;
  response ← (fun s => read_headers (S (length (u_in s))) [] s);
  (if negb (accepted response)
   then bridge_failed ("proxy rejected CONNECT request: " +:+ first_line response)
   else mret tt) ;;
  write_client write_fails ([Byte.x05; Byte.x00; Byte.x00; Byte.x01] ++ replicate 6 Byte.x00).

(** [tokio::io::copy] both ways, [a] and [b] bytes before the first of them ends. *)
Definition tunnel (a b : nat) (s : Sockets) : Sockets :=
  s <| u_out ::= fun o => o ++ take a (c_in s) |> <| c_out ::= fun o => o ++ take b (u_in s) |>
    <| c_in ::= drop a |> <| u_in ::= drop b |>.
End Bridging.

(** ** What the client says *)

(** The target of a SOCKS request. *)
Inductive Target : Type :=
| TargetV4 (a b c d : byte)
| TargetDomain (len : byte) (name : list byte)
| TargetV6 (groups : list byte).

Definition target_wf (t : Target) : bool :=
  match t with
  | TargetV4 _ _ _ _ => true
  | TargetDomain len name => (byte_value len =? Z.of_nat (length name)) && utf8_valid name
  | TargetV6 groups => (length groups =? 16)%nat
  end.

Definition target_bytes (t : Target) : list byte :=
  match t with
  | TargetV4 a b c d => [Byte.x01; a; b; c; d]
  | TargetDomain len name => Byte.x03 :: len :: name
  | TargetV6 groups => Byte.x04 :: groups
  end.

Definition target_host (t : Target) : string :=
  match t with
  | TargetV4 a b c d => pretty (byte_value a) +:+ "." +:+ pretty (byte_value b) +:+ "." +:+ pretty (byte_value c)
                          +:+ "." +:+ pretty (byte_value d)
  | TargetDomain _ name => String.string_of_list_byte name
  | TargetV6 groups => "[" +:+ hex_groups groups +:+ "]"
  end.

(** A greeting with its methods and a request for a connection. *)
Definition socks_bytes (count : byte) (methods : list byte) (version reserved : byte) (t : Target) (hi lo : byte) : list byte :=
  [Byte.x05; count] ++ methods ++ [version; Byte.x01; reserved] ++ target_bytes t ++ [hi; lo].

(** Headers: ended, and not before. *)
Definition header_wf (h : list byte) : bool :=
  ends_headers h && forallb (fun n => negb (ends_headers (take n h))) (seq 0 (length h)) && (Z.of_nat (length h) <=? 8193).

Section Transparent.
Context (eof : string) (write_fails : list byte -> option string).
Context (connect : string -> Z -> Result unit string) (tls : string -> Result unit string).
Context (utf8_error : list byte -> string) (first_line : list byte -> string) (base64 : string -> string).

Lemma bridge_bind {A B} (p : Bridge A) (f : A -> Bridge B) s a s' : p s = (Ok a, s') -> (p ≫= f) s = f a s'.
Proof. unfold mbind, Bridge_bind. by intros ->. Qed.

Lemma read_client_app n l rest s : c_in s = l ++ rest -> length l = n ->
  read_client eof n s = (Ok l, s <| c_in := rest |>).
Proof.
  intros H <-. unfold read_client. rewrite H, length_app.
  destruct (Nat.ltb_spec (length l + length rest) (length l)); [lia|].
  rewrite take_app_length. destruct s; cbn in H. unfold set. cbn. by rewrite H, drop_app_length.
Qed.

Lemma read_upstream_cons b rest s : u_in s = b :: rest -> read_upstream eof 1 s = (Ok [b], s <| u_in := rest |>).
Proof. intros H. unfold read_upstream. rewrite H. destruct s; cbn in H. unfold set. cbn. by rewrite H. Qed.

Lemma write_client_ok l s : write_fails l = None -> write_client write_fails l s = (Ok tt, s <| c_out ::= fun o => o ++ l |>).
Proof. unfold write_client. by intros ->. Qed.

Lemma write_upstream_ok l s : write_fails l = None -> write_upstream write_fails l s = (Ok tt, s <| u_out ::= fun o => o ++ l |>).
Proof. unfold write_upstream. by intros ->. Qed.

Lemma greeting_read count methods rest s : c_in s = [Byte.x05; count] ++ methods ++ rest ->
  byte_value count = Z.of_nat (length methods) -> write_fails [Byte.x05; Byte.x00] = None ->
  socks_greeting eof write_fails s = (Ok tt, s <| c_in := rest |> <| c_out ::= fun o => o ++ [Byte.x05; Byte.x00] |>).
Proof.
  intros H Hc Hw. unfold socks_greeting. erewrite bridge_bind by (by apply (read_client_app _ _ _ _ H)).
  cbn [byte_value Byte.to_N]. change (negb (byte_value Byte.x05 =? 5)) with false. cbv match.
  erewrite bridge_bind by (apply read_client_app with (l := methods) (rest := rest); [by destruct s|lia]).
  rewrite write_client_ok by done. by destruct s.
Qed.

Lemma host_read kind t rest s : target_wf t = true -> target_bytes t = kind :: drop 1 (target_bytes t) ->
  c_in s = drop 1 (target_bytes t) ++ rest ->
  socks_host eof utf8_error kind s = (Ok (target_host t), s <| c_in := rest |>).
Proof.
  intros Ht Hk H. destruct t as [a b c d|len name|groups]; cbn [target_bytes drop] in *; injection Hk as <-; unfold socks_host.
  - change (byte_value Byte.x01 =? 1) with true. cbv match. erewrite bridge_bind by (by apply read_client_app with (l := [a; b; c; d])).
    done.
  - change (byte_value Byte.x03 =? 1) with false. change (byte_value Byte.x03 =? 3) with true. cbv match. cbn in Ht. bool_hyps.
    erewrite bridge_bind by (by apply (read_client_app 1 [len] (name ++ rest))). cbv beta iota.
    erewrite bridge_bind by (apply read_client_app with (l := name) (rest := rest); [by destruct s|lia]).
    match goal with H : utf8_valid name = true |- _ => rewrite H end. by destruct s.
  - change (byte_value Byte.x04 =? 1) with false. change (byte_value Byte.x04 =? 3) with false.
    change (byte_value Byte.x04 =? 4) with true. cbv match. cbn in Ht.
    erewrite bridge_bind by (apply read_client_app with (l := groups) (rest := rest); [done|by apply Nat.eqb_eq]). done.
Qed.
Lemma request_read version reserved t hi lo rest s : target_wf t = true ->
  c_in s = [version; Byte.x01; reserved] ++ target_bytes t ++ [hi; lo] ++ rest ->
  socks_request eof utf8_error s = (Ok (target_host t, u16_from_be_bytes hi lo), s <| c_in := rest |>).
Proof.
  intros Ht H. assert (exists kind, target_bytes t = kind :: drop 1 (target_bytes t)) as [kind Hk] by (destruct t; by eexists).
  unfold socks_request.
  erewrite bridge_bind by (apply (read_client_app 4 [version; Byte.x01; reserved; kind] (drop 1 (target_bytes t) ++ [hi; lo] ++ rest));
    [by rewrite H, Hk at 1|done]). cbv beta iota.
  change (negb (byte_value Byte.x01 =? 1)) with false. cbv match.
  erewrite bridge_bind by (by apply (host_read kind t ([hi; lo] ++ rest))). cbv beta.
  erewrite bridge_bind by (by apply (read_client_app 2 [hi; lo] rest)). done.
Qed.

(** The headers are read to their end and not beyond. *)
Lemma headers_read h done_ fuel rest s : header_wf (done_ ++ h) = true -> h <> [] -> (length h <= fuel)%nat -> u_in s = h ++ rest ->
  read_headers eof fuel done_ s = (Ok (done_ ++ h), s <| u_in := rest |>).
Proof.
  revert done_ fuel s. induction h as [|b h IH]; intros done_ fuel s Hwf Hne Hf H; [done|].
  destruct fuel as [|fuel]; [cbn in Hf; lia|]. cbn [read_headers].
  erewrite bridge_bind by (by apply (read_upstream_cons b (h ++ rest))). cbv beta zeta.
  assert (header_wf ((done_ ++ [b]) ++ h) = true) as Hwf' by (by rewrite <- app_assoc).
  unfold header_wf in Hwf. bool_hyps. destruct h as [|b' h].
  - rewrite app_nil_r in *. match goal with H : ends_headers _ = true |- _ => rewrite H end. done.
  - assert (ends_headers (done_ ++ [b]) = false) as ->.
    { match goal with H : forallb _ _ = true |- _ => rewrite forallb_forall in H; specialize (H (length (done_ ++ [b]))) end.
      rewrite (app_assoc done_ [b] (b' :: h) : done_ ++ b :: b' :: h = _), take_app_length in *. apply negb_true_iff.
      match goal with H : In _ _ -> _ |- _ => apply H end. apply in_seq. rewrite !length_app. cbn. lia. }
    destruct (Z.ltb_spec 8192 (Z.of_nat (length (done_ ++ [b])))).
    { exfalso. rewrite length_app in *. cbn in *. lia. }
    rewrite (IH (done_ ++ [b])); [by rewrite <- app_assoc; destruct s|done|done|cbn in *; lia|by destruct s].
Qed.
Lemma header_not_nil h : header_wf h = true -> h <> [].
Proof. intros H ->. done. Qed.

End Transparent.

(** ** A configured proxy is used *)

Section Used.
Context {Url : Type} (parse_url : string -> Result Url string).
Context (url_scheme : Url -> string) (host_str : Url -> option string) (port_or_known_default : Url -> option Z).
Context (url_username : Url -> string) (url_password : Url -> option string) (url_to_string : Url -> string).
Context (set_host : string -> Url -> option Url) (set_port : Z -> Url -> option Url).
Context (set_username set_password : string -> Url -> option Url).

Abbreviation resolve := (resolve_proxy_plan_with parse_url url_scheme host_str port_or_known_default url_username url_password
                           url_to_string set_host set_port set_username set_password).

(** Traffic does not bypass a proxy: when a plan was made and carried out, the
    client is given a proxy exactly if a URL was configured; a plan for the mode
    [direct] has none. *)
Theorem configured_proxy_is_used start mode url user password plan m
    (Hplan : resolve mode url user password = Ok plan) (Hm : materialize start plan = Ok m) :
  (mp_proxy_url m = None <-> non_empty url = None) /\ (pp_mode plan = ModeDirect -> non_empty url = None).
Proof.
  unfold resolve_proxy_plan_with in Hplan. destruct (parse_mode mode) as [md|]; [|done].
  destruct (non_empty url) as [raw|]; [|by injection Hplan as <-; injection Hm as <-].
  destruct (parse_url raw) as [parsed|]; [|done]. destruct (proxy_upstream _ _ _ _ _ _ _ _) as [up|]; [|done].
  unfold socks5_plan, bridged_plan in Hplan.
  destruct md, (pu_scheme up); try done; try (destruct (render_socks5_url _ _ _ _ _ _ up); [|done]);
    injection Hplan as <-; cbn in Hm; try (destruct (start up); [|done]); injection Hm as <-; by split; [split|].
Qed.
End Used.

(** ** Witness and a recorded defect *)

Definition sample_upstream : ProxyUpstream :=
  {| pu_scheme := SchemeHttp; pu_host := "proxy"; pu_port := 8080; pu_username := Some "u"; pu_password := None |}.

Definition sample_header : list byte := as_bytes ("HTTP/1.1 200 OK" +:+ CRLF +:+ CRLF).

Abbreviation toy_bridge := (handle_bridge_client "eof" (fun _ => None) (fun _ _ => Ok tt) (fun _ => Ok tt) (fun _ => "") (fun _ => "") id sample_upstream).


(** A name may contain line ends: it is copied into the request as it is, and
    what follows the line end is read by the proxy as a header. *)
Theorem domain_can_add_headers :
  target_wf (TargetDomain Byte.x09 (as_bytes ("a" +:+ CRLF +:+ "X: y" +:+ CRLF))) = true /\
  is_some (strip_prefix ("CONNECT a" +:+ CRLF +:+ "X: y" +:+ CRLF)
    (connect_request id sample_upstream
       (target_host (TargetDomain Byte.x09 (as_bytes ("a" +:+ CRLF +:+ "X: y" +:+ CRLF)))) 443)) = true.
Proof. split; vm_compute; reflexivity. Qed.
