(* ===== verification/Transport.v ===== *)
(** * Telegram transports and their health ([src/src/telegram/transport.rs])

    A transport is a client with its session file, proxy and storage chat; a
    manager holds the transport of an account, opens it when it is needed,
    replaces it when the settings change, and keeps the result of the last
    health check for the rest of the program.  What Telegram, the session file
    and the clock answer is a parameter of each operation ([Probe]).

    The theorems: a connection is reported as connected exactly when its session
    is usable, its storage chat was found and Telegram answered a live request;
    whatever operations run on a manager, in any order, a health that says
    connected is about the transport the manager holds; the storage chat is
    looked up once; a request is tried as often as the policy says.  Three more
    show defects: a session that Telegram no longer accepts is reported as
    connected, replacing the transport stops the health monitor for good, and
    saving the connection settings keeps the transport that was opened with the
    old ones. *)

From stdpp Require Import pretty.
From S2P Require Import Prelude Errors Config Retry Proxy.

Inductive SessionState : Type := Missing | Reused | SessionUnauthorized | SessionAuthorized | LoggedOut | SessionInvalid.

#[export] Instance SessionState_eq_dec : EqDecision SessionState.
Proof. solve_decision. Defined.

Inductive AuthFlowState : Type :=
| FlowIdle
| FlowWaitingForPhone
| FlowWaitingForCode (phone : string)
| FlowWaitingForPassword (phone : string)
| FlowAuthorized
| FlowLoggedOut.

Record AuthState : Type := { as_session : SessionState; as_flow : AuthFlowState }.

Record TelegramTransportStatus : Type := {
  ts_session_path : string;
  ts_proxy_kind : ProxyTransportKind;
  ts_proxy_url : option string;
  ts_session_state : SessionState;
  ts_storage_chat_id : string
}.

Inductive TelegramConnectionState : Type := Connected | Disconnected | NeedsReauth | NotConfigured.

#[export] Instance TelegramConnectionState_eq_dec : EqDecision TelegramConnectionState.
Proof. solve_decision. Defined.

Record TelegramConnectionHealth : Type := {
  th_status : TelegramTransportStatus;
  th_state : TelegramConnectionState;
  th_detail : string;
  th_checked_at : Z;
  th_last_success_at : option Z
}.

#[export] Instance eta_TelegramTransportStatus : Eta TelegramTransportStatus := fun s =>
  {| ts_session_path := ts_session_path s; ts_proxy_kind := ts_proxy_kind s; ts_proxy_url := ts_proxy_url s;
     ts_session_state := ts_session_state s; ts_storage_chat_id := ts_storage_chat_id s |}.

#[export] Instance eta_TelegramConnectionHealth : Eta TelegramConnectionHealth := fun h =>
  {| th_status := th_status h; th_state := th_state h; th_detail := th_detail h; th_checked_at := th_checked_at h;
     th_last_success_at := th_last_success_at h |}.

Inductive LoginFailure : Type :=
| FailedMissingCode | FailedInvalidCode | FailedExpiredCode | FailedWrongPassword | FailedSignUpRequired
| FailedSessionInvalid | FailedProxyInvalid.

Definition login_failure_from_text (text : string) : LoginFailure :=
  if contains "PHONE_CODE_EXPIRED" text then FailedExpiredCode
  else if contains "PHONE_CODE_EMPTY" text then FailedMissingCode
  else if contains "PHONE_CODE_INVALID" text then FailedInvalidCode
  else if contains "PASSWORD" text || contains "2FA" text || contains "SESSION_PASSWORD_NEEDED" text then FailedWrongPassword
  else if contains "SIGN_UP_REQUIRED" text then FailedSignUpRequired
  else FailedSessionInvalid.

(** ** The storage chat *)

Section Peers.
Context {Peer : Type}.

(** Where a chat may be found: what was found before, the session file, the
    dialogs of the account, a live lookup; [pa_ambient] is the reference that
    needs no access hash. *)
Record PeerAnswers : Type := {
  pa_session : option Peer;
  pa_client : bool;
  pa_dialogs : list (Result (option Peer) string);
  pa_self : option Peer;
  pa_live : option Peer;
  pa_ambient : Peer;
  pa_is_user : bool;
  pa_is_chat : bool
}.

Definition no_client : TelegramTransportError.t := TelegramTransportError.InvalidState "real Telegram client is unavailable".

(** The dialogs one after the other, up to the chat or an error. *)
Fixpoint search_dialogs (dialogs : list (Result (option Peer) string)) : Result (option Peer) TelegramTransportError.t :=
  match dialogs with
  | [] => Ok None
  | Err e :: _ => Err (TelegramTransportError.Rpc e)
  | Ok (Some peer) :: _ => Ok (Some peer)
  | Ok None :: dialogs => search_dialogs dialogs
  end.

Definition resolve_storage_peer_from_dialogs (a : PeerAnswers) : Result (option Peer) TelegramTransportError.t :=
  if pa_client a then search_dialogs (pa_dialogs a) else Err no_client.

Definition resolve_storage_peer_live (a : PeerAnswers) : Result (option Peer) TelegramTransportError.t :=
  if negb (pa_client a) then Err no_client
  else
    match (if pa_is_user a then pa_self a else None) with
    | Some peer => Ok (Some peer)
    | None => Ok (pa_live a)
    end.

(** The result, and what is remembered of it. *)
Definition storage_peer (mock : bool) (a : PeerAnswers) (cached : option Peer)
    : Result Peer TelegramTransportError.t * option Peer :=
  let found peer := (Ok peer, Some peer) in
  match cached with
  | Some peer => (Ok peer, cached)
  | None =>
      match pa_session a with
      | Some peer => found peer
      | None =>
          if mock then found (pa_ambient a)
          else
            match resolve_storage_peer_from_dialogs a with
            | Err e => (Err e, cached)
            | Ok (Some peer) => found peer
            | Ok None =>
                match resolve_storage_peer_live a with
                | Err e => (Err e, cached)
                | Ok (Some peer) => found peer
                | Ok None =>
                    if pa_is_chat a then found (pa_ambient a)
                    else (Err (TelegramTransportError.InvalidState
                            "telegram storage chat is not cached yet; open the storage chat once in Telegram and retry"), cached)
                end
            end
      end
  end.

(** The chat is looked up until it is found, and not again. *)
Theorem storage_peer_is_remembered mock a cached peer cached' (H : storage_peer mock a cached = (Ok peer, cached')) :
  cached' = Some peer /\ forall a', storage_peer mock a' cached' = (Ok peer, cached').
Proof.
  unfold storage_peer in H. assert (cached' = Some peer) as ->; [|done].
  destruct cached; [congruence|]. destruct (pa_session a); [congruence|]. destruct mock; [congruence|].
  destruct (resolve_storage_peer_from_dialogs a) as [[]|]; [congruence| |congruence].
  destruct (resolve_storage_peer_live a) as [[]|]; [congruence| |congruence]. destruct (pa_is_chat a); congruence.
Qed.
End Peers.

(** ** Health *)

(** What stays of a transport while it lives. *)
Record Live : Type := {
  lv_session_path : string;
  lv_session : bool;
  lv_client : bool;
  lv_proxy_kind : ProxyTransportKind;
  lv_proxy_url : option string;
  lv_storage_chat_id : string;
  lv_mock : bool
}.

(** What is answered at the time of a check: whether the client is authorized,
    whether the session file exists, the storage chat, a live request, the clock. *)
Record Probe : Type := {
  pr_authorized : Result bool string;
  pr_session_exists : bool;
  pr_peer : Result unit TelegramTransportError.t;
  pr_config : Result unit string;
  pr_now : Z
}.

Definition auth_state (t : Live) (a : Probe) : Result AuthState TelegramTransportError.t :=
  if lv_mock t then
    Ok (if pr_session_exists a then {| as_session := Reused; as_flow := FlowAuthorized |}
        else {| as_session := Missing; as_flow := FlowIdle |})
  else if negb (lv_client t) then Err no_client
  else
    match pr_authorized a with
    | Err e => Err (TelegramTransportError.Rpc e)
    | Ok true => Ok {| as_session := SessionAuthorized; as_flow := FlowAuthorized |}
    | Ok false => Ok {| as_session := SessionUnauthorized; as_flow := FlowIdle |}
    end.

(** [session.status()], or the session file of a mock transport. *)
Definition local_session_state (a : Probe) : SessionState := if pr_session_exists a then Reused else Missing.

Definition status (t : Live) (a : Probe) : Result TelegramTransportStatus TelegramTransportError.t :=
  match auth_state t a with
  | Err e => Err e
  | Ok state =>
      Ok {| ts_session_path := lv_session_path t; ts_proxy_kind := lv_proxy_kind t; ts_proxy_url := lv_proxy_url t;
            ts_session_state := if bool_decide (as_session state = SessionAuthorized) then SessionAuthorized
                                else local_session_state a;
            ts_storage_chat_id := lv_storage_chat_id t |}
  end.

Definition is_auth_key_unregistered (e : TelegramTransportError.t) : bool :=
  contains "AUTH_KEY_UNREGISTERED" (TelegramTransportError.to_string e).

Definition no_longer_registered (detail : string) : string :=
  "Telegram session is no longer registered; reauthorize this account (" +:+ detail +:+ ")".

(** State and detail of a session that is usable; the error of a missing client. *)
Definition probe_storage (t : Live) (a : Probe) : Result (TelegramConnectionState * string) TelegramTransportError.t :=
  match pr_peer a with
  | Ok _ =>
      if lv_mock t then Ok (Connected, "mock storage chat reachable")
      else if negb (lv_client t) then Err no_client
      else
        match pr_config a with
        | Ok _ => Ok (Connected, "live Telegram probe and storage chat lookup succeeded")
        | Err e =>
            if is_auth_key_unregistered (TelegramTransportError.Rpc e) then Ok (NeedsReauth, no_longer_registered e)
            else Ok (Disconnected, "live Telegram probe failed: " +:+ e)
        end
  | Err e =>
      if is_auth_key_unregistered e then Ok (NeedsReauth, no_longer_registered (TelegramTransportError.to_string e))
      else Ok (Disconnected, "storage peer lookup failed: " +:+ TelegramTransportError.to_string e)
  end.

Definition evaluate_health (t : Live) (a : Probe) : Result TelegramConnectionHealth TelegramTransportError.t :=
  match status t a with
  | Err e => Err e
  | Ok st =>
      match (match ts_session_state st with
             | SessionAuthorized | Reused => probe_storage t a
             | Missing | SessionUnauthorized | SessionInvalid => Ok (NeedsReauth, "telegram session needs reauthorization")
             | LoggedOut => Ok (Disconnected, "telegram session is logged out")
             end) with
      | Err e => Err e
      | Ok (state, detail) =>
          Ok {| th_status := st; th_state := state; th_detail := detail; th_checked_at := pr_now a;
                th_last_success_at := if bool_decide (state = Connected) then Some (pr_now a) else None |}
      end
  end.

Definition reauth_health (t : Live) (detail : string) (now : Z) : TelegramConnectionHealth :=
  {| th_status := {| ts_session_path := lv_session_path t; ts_proxy_kind := lv_proxy_kind t; ts_proxy_url := lv_proxy_url t;
                     ts_session_state := SessionUnauthorized; ts_storage_chat_id := lv_storage_chat_id t |};
     th_state := NeedsReauth; th_detail := detail; th_checked_at := now; th_last_success_at := None |}.

Definition not_configured_health (session_path detail : string) (now : Z) : TelegramConnectionHealth :=
  {| th_status := {| ts_session_path := session_path; ts_proxy_kind := KindDirect; ts_proxy_url := None;
                     ts_session_state := Missing; ts_storage_chat_id := EmptyString |};
     th_state := NotConfigured; th_detail := detail; th_checked_at := now; th_last_success_at := None |}.

(** ** The manager *)

Record Manager : Type := {
  mn_transport : option Live;
  mn_health : TelegramConnectionHealth;
  mn_monitor : bool
}.

#[export] Instance eta_Manager : Eta Manager := fun m =>
  {| mn_transport := mn_transport m; mn_health := mn_health m; mn_monitor := mn_monitor m |}.

Section Managers.
(** The path of the session next to the metadata database. *)
Context (session_path : string).

Definition open_manager (detail : string) (now : Z) : Manager :=
  {| mn_transport := None; mn_health := not_configured_health session_path detail now; mn_monitor := false |}.

(** The health of a transport; one whose key is gone is in need of a login. *)
Definition checked (t : Live) (a : Probe) : Result TelegramConnectionHealth TelegramTransportError.t :=
  match evaluate_health t a with
  | Ok h => Ok h
  | Err e => if is_auth_key_unregistered e then Ok (reauth_health t (TelegramTransportError.to_string e) (pr_now a)) else Err e
  end.

(** [opened]: what [open_transport_from_store] gives, a panic included. *)
Definition refresh (opened : Result Live TelegramTransportError.t) (a : Probe) (m : Manager)
    : Result TelegramConnectionHealth TelegramTransportError.t * Manager :=
  match mn_transport m with
  | Some t =>
      match checked t a with
      | Ok h => (Ok h, m <| mn_health := h |>)
      | Err e => (Err e, m)
      end
  | None =>
      match opened with
      | Err e => (Err e, m)
      | Ok t =>
          match checked t a with
          | Ok h => (Ok h, m <| mn_transport := Some t |> <| mn_health := h |>)
          | Err e => (Err e, m)
          end
      end
  end.

Definition current (opened : Result Live TelegramTransportError.t) (a : Probe) (m : Manager)
    : Result Live TelegramTransportError.t * Manager :=
  match mn_transport m with
  | Some t => (Ok t, m)
  | None =>
      match refresh opened a m with
      | (Err e, m) => (Err e, m)
      | (Ok _, m) =>
          match mn_transport m with
          | Some t => (Ok t, m)
          | None => (Err (TelegramTransportError.InvalidState "telegram bootstrap settings are not configured"), m)
          end
      end
  end.

Definition start_health_monitor (m : Manager) : Manager := m <| mn_monitor := true |>.

Definition shutdown_health_monitor (m : Manager) : Manager := m <| mn_monitor := false |>.

Definition reload (opened : Result Live TelegramTransportError.t) (a : Probe) (m : Manager)
    : Result TelegramConnectionHealth TelegramTransportError.t * Manager :=
  let m := shutdown_health_monitor m in
  let m := m <| mn_transport := None |>
             <| mn_health := not_configured_health session_path "Telegram connection reloading after settings change" (pr_now a) |> in
  refresh opened a m.

Definition disconnect (now : Z) (m : Manager) : Manager :=
  let m := shutdown_health_monitor m in
  m <| mn_transport := None |> <| mn_health := not_configured_health session_path "Telegram connection removed" now |>.

(** One turn of the monitor; [timeout] when the check takes ten seconds. *)
Definition monitor_turn (timeout : bool) (opened : Result Live TelegramTransportError.t) (a : Probe) (m : Manager) : Manager :=
  if negb (mn_monitor m) then m
  else
    let '(result, m') :=
      match mn_transport m with
      | Some t => ((if timeout then Err (TelegramTransportError.Rpc "health probe timed out") else evaluate_health t a), m)
      | None => refresh opened a m
      end in
    match result with
    | Ok h => m' <| mn_health := h |>
    | Err e =>
        if is_auth_key_unregistered e then
          match mn_transport m with
          | Some t => m' <| mn_health := reauth_health t (TelegramTransportError.to_string e) (pr_now a) |>
          | None => m' <| mn_health ::= fun h => h <| th_state := NeedsReauth |>
                            <| th_status ::= fun s => s <| ts_session_state := SessionUnauthorized |> |>
                            <| th_detail := TelegramTransportError.to_string e |> <| th_checked_at := pr_now a |> |>
          end
        else m' <| mn_health ::= fun h => h <| th_state := Disconnected |>
                     <| th_detail := "Telegram connection check failed; inspect connection settings or reauthorize" |>
                     <| th_checked_at := pr_now a |> |>
    end.

(** ** Health is about the transport that is used *)

(** A connection is reported as connected exactly when its session is usable,
    its chat was found and a live request succeeded. *)
Lemma connected_iff t a h : evaluate_health t a = Ok h ->
  th_state h = Connected <->
  (ts_session_state (th_status h) = SessionAuthorized \/ ts_session_state (th_status h) = Reused) /\ is_ok (pr_peer a) = true /\
  (lv_mock t = true \/ (lv_client t = true /\ is_ok (pr_config a) = true)).
Proof.
  unfold evaluate_health, probe_storage. destruct (status t a) as [st|]; [|done].
  destruct (ts_session_state st) eqn:Es; intros H; try (injection H as <-; cbn; rewrite Es; split; [done|]; by intros [[?|?] _]).
  all: destruct (pr_peer a) as [[]|pe]; [destruct (lv_mock t), (lv_client t), (pr_config a) as [[]|ce]|]; cbn in H; try done.
  all: try (destruct (is_auth_key_unregistered _)); injection H as <-; cbn; rewrite ?Es; split; try done; naive_solver.
Qed.

Lemma status_about t a st : status t a = Ok st ->
  ts_session_path st = lv_session_path t /\ ts_storage_chat_id st = lv_storage_chat_id t /\ ts_proxy_url st = lv_proxy_url t.
Proof. unfold status. destruct (auth_state t a); [|done]. by intros [= <-]. Qed.

(** The health describes the transport. *)
Definition about (t : Live) (h : TelegramConnectionHealth) : Prop :=
  ts_session_path (th_status h) = lv_session_path t /\ ts_storage_chat_id (th_status h) = lv_storage_chat_id t /\
  ts_proxy_url (th_status h) = lv_proxy_url t.

Lemma evaluated_about t a h : evaluate_health t a = Ok h -> about t h.
Proof.
  unfold evaluate_health. destruct (status t a) as [st|] eqn:E; [|done]. apply status_about in E.
  destruct (ts_session_state st); try (by intros [= <-]); destruct (probe_storage t a) as [[state detail]|]; by intros [= <-].
Qed.

Lemma checked_about t a h : checked t a = Ok h -> about t h.
Proof.
  unfold checked. destruct (evaluate_health t a) as [h'|e] eqn:E; [intros [= <-]; by eapply evaluated_about|].
  destruct (is_auth_key_unregistered e); [|done]. by intros [= <-].
Qed.

(** What is reported as connected is the transport that is held. *)
Definition manager_wf (m : Manager) : Prop :=
  th_state (mn_health m) = Connected -> exists t, mn_transport m = Some t /\ about t (mn_health m).

Inductive ManagerOp : Type :=
| OpCurrent (opened : Result Live TelegramTransportError.t) (a : Probe)
| OpRefresh (opened : Result Live TelegramTransportError.t) (a : Probe)
| OpReload (opened : Result Live TelegramTransportError.t) (a : Probe)
| OpDisconnect (now : Z)
| OpStartMonitor
| OpShutdownMonitor
| OpMonitorTurn (timeout : bool) (opened : Result Live TelegramTransportError.t) (a : Probe).

Definition manager_op (op : ManagerOp) (m : Manager) : Manager :=
  match op with
  | OpCurrent opened a => (current opened a m).2
  | OpRefresh opened a => (refresh opened a m).2
  | OpReload opened a => (reload opened a m).2
  | OpDisconnect now => disconnect now m
  | OpStartMonitor => start_health_monitor m
  | OpShutdownMonitor => shutdown_health_monitor m
  | OpMonitorTurn timeout opened a => monitor_turn timeout opened a m
  end.

Lemma refresh_wf opened a m : manager_wf m -> manager_wf (refresh opened a m).2.
Proof.
  intros Hm. unfold refresh. destruct (mn_transport m) as [t|] eqn:Et.
  - destruct (checked t a) as [h|] eqn:E; [|done]. intros _. exists t. split; [done|]. by eapply checked_about.
  - destruct opened as [t|]; [|done]. destruct (checked t a) as [h|] eqn:E; [|done].
    intros _. exists t. split; [done|]. by eapply checked_about.
Qed.

Lemma current_wf opened a m : manager_wf m -> manager_wf (current opened a m).2.
Proof.
  intros Hm. unfold current. destruct (mn_transport m); [done|].
  pose proof (refresh_wf opened a m Hm) as H. destruct (refresh opened a m) as [[h|e] m']; [|done].
  cbn in *. by destruct (mn_transport m').
Qed.

Lemma refresh_health opened a m h m' : mn_transport m = None -> refresh opened a m = (Ok h, m') ->
  exists t, mn_transport m' = Some t /\ about t h.
Proof.
  intros Hn. unfold refresh. rewrite Hn. destruct opened as [t|]; [|done]. destruct (checked t a) as [h'|] eqn:E; [|done].
  intros [= <- <-]. exists t. split; [done|]. by eapply checked_about.
Qed.

Lemma monitor_wf timeout opened a m : manager_wf m -> manager_wf (monitor_turn timeout opened a m).
Proof.
  intros Hm. unfold monitor_turn. destruct (negb _); [done|]. destruct (mn_transport m) as [t|] eqn:Et.
  - destruct timeout; cbn; [by destruct (is_auth_key_unregistered _)|].
    destruct (evaluate_health t a) as [h|e] eqn:E; [|by destruct (is_auth_key_unregistered _)].
    intros _. exists t. split; [done|]. by eapply evaluated_about.
  - destruct (refresh opened a m) as [[h|e] m'] eqn:E; [|by destruct (is_auth_key_unregistered _)].
    intros _. cbn. by eapply refresh_health.
Qed.

Lemma reload_wf opened a m : manager_wf (reload opened a m).2.
Proof. unfold reload. by apply refresh_wf. Qed.

(** C25: What the program reports of its Telegram connection is true of the
    connection it uses.  After any operations on a manager, in any order and with
    any answers, if its health says connected then the manager holds a transport
    and the health is about that one: its session, its storage chat, its proxy. *)
Theorem health_is_about_transport detail now ops :
  let m := foldl (fun m op => manager_op op m) (open_manager detail now) ops in
  th_state (mn_health m) = Connected -> exists t, mn_transport m = Some t /\ about t (mn_health m).
Proof.
  intros m. enough (manager_wf m) by done. unfold m. clear m. assert (manager_wf (open_manager detail now)) as H by done.
  revert H. generalize (open_manager detail now). induction ops as [|op ops IH]; intros m Hm; [done|]. cbn. apply IH.
  destruct op; cbn [manager_op].
  - by apply current_wf.
  - by apply refresh_wf.
  - apply reload_wf.
  - done.
  - done.
  - done.
  - by apply monitor_wf.
Qed.
End Managers.

(** ** Requests with retries, and the login of the command line *)

(** [map_rpc_error] *)
Definition map_rpc_error {A} (r : Result A string) : Result A TelegramTransportError.t :=
  match r with Ok a => Ok a | Err e => Err (TelegramTransportError.Rpc e) end.

(** [retry_rpc]: the results of the calls in order; the waits between them. *)
Fixpoint retry_rpc {A} (policy : RetryPolicy) (attempt : Z) (calls : list (Result A string))
    : option (Result A TelegramTransportError.t * list Duration) :=
  match calls with
  | [] => None
  | Ok a :: _ => Some (Ok a, [])
  | Err e :: calls =>
      match retry_decision policy attempt (parse_flood_wait_seconds e) with
      | RetryDecision.RetryAfter delay | RetryDecision.RespectFloodWait delay =>
          match retry_rpc policy (as_u32 (attempt + 1)) calls with
          | Some (r, delays) => Some (r, delay :: delays)
          | None => None
          end
      | RetryDecision.GiveUp => Some (Err (TelegramTransportError.Rpc e), [])
      end
  end.

(** The outcome: that of the call [k], after [k] calls that failed. *)
Definition answered_at {A} (calls : list (Result A string)) (k : nat) (out : Result A TelegramTransportError.t * list Duration) : Prop :=
  length out.2 = k /\ (exists call, calls !! k = Some call /\ out.1 = map_rpc_error call) /\
  forall i, (i < k)%nat -> exists e, calls !! i = Some (Err e).

Lemma retry_rpc_from {A} policy m attempt (calls : list (Result A string)) :
  (forall e, Err e ∈ calls -> parse_flood_wait_seconds e = None) -> (S m <= length calls)%nat -> 0 <= attempt ->
  max_attempts policy = attempt + Z.of_nat m -> max_attempts policy <= U32_MAX ->
  exists k out, retry_rpc policy attempt calls = Some out /\ (k <= m)%nat /\ answered_at calls k out.
Proof.
  revert attempt calls. induction m as [|m IH]; intros attempt calls Hp Hl Ha Hm Hu;
    (destruct calls as [|[a|e] calls]; [cbn in Hl; lia| |]); cbn [retry_rpc].
  1, 3: exists 0%nat, (Ok a, []); split_and!; [done|lia|split_and!; [done|by exists (Ok a)|lia]].
  all: rewrite (Hp e) by (by left); unfold retry_decision; rewrite Hm.
  - destruct (Z.leb_spec (attempt + Z.of_nat 0) attempt); [|lia].
    exists 0%nat, (Err (TelegramTransportError.Rpc e), []). split_and!; [done|lia|split_and!; [done|by exists (Err e)|lia]].
  - destruct (Z.leb_spec (attempt + Z.of_nat (S m)) attempt); [lia|]. unfold as_u32. rewrite Z.mod_small by lia.
    destruct (IH (attempt + 1) calls) as (k & [r delays] & -> & Hk & Hd & Hr & Hi); [intros; apply Hp; by right|cbn in Hl; lia|lia|lia|lia|].
    exists (S k), (r, backoff_for_attempt policy (attempt + 1) :: delays). split_and!; [done|lia|].
    split_and!; [cbn in *; lia|done|]. intros [|i] Hlt; [by exists e|]. apply Hi. lia.
Qed.

(** When Telegram asks for no pause, at most [max_attempts] calls are made: as
    many results are enough for an answer, which is that of the last call made,
    all earlier ones having failed. *)
Theorem retry_rpc_bounded {A} policy n (calls : list (Result A string))
    (Hplain : forall e, Err e ∈ calls -> parse_flood_wait_seconds e = None)
    (Hn : max_attempts policy = Z.of_nat (S n)) (Hu : max_attempts policy <= U32_MAX) (Hlen : (S n <= length calls)%nat) :
  exists k out, retry_rpc policy 1 calls = Some out /\ (k <= n)%nat /\ answered_at calls k out.
Proof. apply retry_rpc_from; [done|done|done|lia|done]. Qed.

(** ** Witness and recorded defects *)

Definition sample_live (chat : string) : Live :=
  {| lv_session_path := "s"; lv_session := true; lv_client := true; lv_proxy_kind := KindDirect; lv_proxy_url := None;
     lv_storage_chat_id := chat; lv_mock := false |}.

Definition good_probe (authorized : bool) : Probe :=
  {| pr_authorized := Ok authorized; pr_session_exists := true; pr_peer := Ok tt; pr_config := Ok tt; pr_now := 5 |}.

Lemma health_is_about_transport_witness :
  let ops := [OpStartMonitor; OpMonitorTurn false (Ok (sample_live "c")) (good_probe true)] in
  let m := foldl (fun m op => manager_op "p" op m) (open_manager "p" "pending" 0) ops in
  th_state (mn_health m) = Connected /\ exists t, mn_transport m = Some t /\ about t (mn_health m).
Proof.
  intros ops m. split; [vm_compute; reflexivity|].
  apply (health_is_about_transport "p" "pending" 0 ops). vm_compute. reflexivity.
Defined.

(** A session file exists as soon as the transport was opened, so that a session
    which Telegram no longer accepts counts as usable; with the chat remembered
    and a live request that needs no login, it is reported as connected. *)
Theorem unauthorized_reported_connected :
  match evaluate_health (sample_live "c") (good_probe false) with Ok h => th_state h = Connected | Err _ => False end.
Proof. vm_compute. reflexivity. Qed.

(** Replacing the transport stops the monitor, and nothing but the start of the
    server starts it: the health is not checked again. *)
Theorem reload_stops_monitor path opened a m ops (Hops : OpStartMonitor ∉ ops) :
  mn_monitor (foldl (fun m op => manager_op path op m) (reload path opened a m).2 ops) = false.
Proof.
  assert (forall opened a m, mn_monitor (refresh opened a m).2 = mn_monitor m) as Hr.
  { clear. intros opened a m. unfold refresh. destruct (mn_transport m), opened; try done; by destruct (checked _ _). }
  assert (mn_monitor (reload path opened a m).2 = false) as H0 by (unfold reload; by rewrite Hr).
  revert Hops H0. generalize (reload path opened a m).2. clear - Hr. induction ops as [|op ops IH]; intros m Hops H0; [done|].
  cbn [foldl]. apply IH; [intros Hin; apply Hops; by right|]. destruct op as [o a|o a|o a|now| | |timeout o a]; cbn [manager_op].
  - unfold current. destruct (mn_transport m); [done|]. pose proof (Hr o a m) as H. destruct (refresh o a m) as [[h|e] m']; cbn in *; [|congruence].
    destruct (mn_transport m'); cbn; congruence.
  - by rewrite Hr.
  - unfold reload. by rewrite Hr.
  - done.
  - by destruct Hops; left.
  - done.
  - unfold monitor_turn. by rewrite H0.
Qed.

(** Saving the connection settings refreshes the manager, and a refresh keeps the
    transport that is there: the new settings are not used before a restart. *)
Theorem refresh_keeps_old_settings opened a m t (H : mn_transport m = Some t) :
  mn_transport (refresh opened a m).2 = Some t.
Proof. unfold refresh. rewrite H. by destruct (checked t a). Qed.
