(* ===== verification/Login.v ===== *)
(** * Logging in to Telegram ([src/src/telegram/login_driver.rs], [admin.rs])

    The login wizard: one flow per process (phone, code, perhaps a password),
    which belongs to the operator who began it, is named by a flow identifier
    and is carried out on the Telegram account that was selected.  What the
    Telegram client answers is a parameter of each request ([Client]); the
    tokens it hands out are opaque.

    The theorems: while a flow is under way no request of another operator, and
    no request of another flow, changes it; a flow is only completed when
    Telegram accepted the session, the code or the password; in every state a
    flow that is under way has an owner and an identifier, and a finished one
    keeps no token.  Three more show defects: a refused attempt to begin
    redirects the flow that is under way to another account, an error during
    the password check strands the flow, and the phone number that removals ask
    for is replaced before it was verified. *)

From stdpp Require Import pretty.
From S2P Require Import Prelude Errors Manifest Chunks Schema Completion Accounts Settings Shares Recovery Retry Proxy Transport.

Inductive LoginStage : Type := StageIdle | StageCode | StageTwoFa | StageAuthorized.

#[export] Instance LoginStage_eq_dec : EqDecision LoginStage.
Proof. solve_decision. Defined.

Definition login_stage_name (stage : LoginStage) : string :=
  match stage with
  | StageIdle => "idle"
  | StageCode => "code"
  | StageTwoFa => "two_fa"
  | StageAuthorized => "authorized"
  end.

Record LoginStep : Type := { ls_stage : LoginStage; ls_message : string; ls_needs_2fa : bool }.

Inductive LoginDriverError : Type :=
| Occupied (stage : LoginStage) (owner : option string)
| FlowMismatch
| MissingPhone
| MissingCode
| MissingPassword
| InvalidCode
| ExpiredCode
| WrongPassword
| SignUpRequired
| Unauthorized (detail : string).

Definition driver_error_response (error : LoginDriverError) : Z * string :=
  match error with
  | Occupied stage owner =>
      (409, "a Telegram login by " +:+ default "another operator" owner +:+ " is already in progress at "
              +:+ String QUOTE (login_stage_name stage +:+ String QUOTE EmptyString))
  | FlowMismatch => (409, "that Telegram login flow is no longer active")
  | MissingPhone => (400, "a phone number is required")
  | MissingCode => (400, "the confirmation code is required")
  | MissingPassword => (400, "the cloud password is required")
  | InvalidCode => (400, "that confirmation code is not valid")
  | ExpiredCode => (410, "that confirmation code has expired")
  | WrongPassword => (400, "that cloud password is not correct")
  | SignUpRequired => (400, "this account requires sign-up using Telegram's official app")
  | Unauthorized detail => (400, "Telegram login failed: " +:+ detail)
  end.

(** ** The driver *)

Section Driver.
Context {LoginToken PasswordToken : Type}.

(** [grammers_client::client::SignInError] *)
Inductive SignInError : Type :=
| SignInSignUpRequired
| SignInPasswordRequired (token : PasswordToken)
| SignInInvalidCode
| SignInInvalidPassword (token : PasswordToken)
| SignInOther (detail : string).

(** What the Telegram client answers at the time of a request. *)
Record Client : Type := {
  cl_is_authorized : Result bool string;
  cl_request_login_code : string -> Result LoginToken string;
  cl_sign_in : LoginToken -> string -> Result unit SignInError;
  cl_check_password : PasswordToken -> string -> Result unit SignInError
}.

(** A transport: the mock runtime has no client. *)
Record Transport : Type := { t_mock : bool; t_client : option Client }.

Definition login_client (t : Transport) : Result Client string :=
  match t_client t with
  | Some c => Ok c
  | None => Err (TelegramTransportError.to_string (TelegramTransportError.InvalidState "real Telegram client is unavailable"))
  end.

Record TelegramLoginDriver : Type := {
  ld_stage : LoginStage;
  ld_owner : option string;
  ld_flow_id : option string;
  ld_phone : option string;
  ld_code_token : option LoginToken;
  ld_password_token : option PasswordToken;
  ld_mock_force_2fa : bool
}.

#[export] Instance eta_TelegramLoginDriver : Eta TelegramLoginDriver := fun d =>
  {| ld_stage := ld_stage d; ld_owner := ld_owner d; ld_flow_id := ld_flow_id d; ld_phone := ld_phone d;
     ld_code_token := ld_code_token d; ld_password_token := ld_password_token d; ld_mock_force_2fa := ld_mock_force_2fa d |}.

Definition new_driver (force_2fa : bool) : TelegramLoginDriver :=
  {| ld_stage := StageIdle; ld_owner := None; ld_flow_id := None; ld_phone := None; ld_code_token := None;
     ld_password_token := None; ld_mock_force_2fa := force_2fa |}.

Definition is_busy (d : TelegramLoginDriver) : bool :=
  match ld_stage d with StageCode | StageTwoFa => true | _ => false end.

Definition is_authorized (d : TelegramLoginDriver) : bool := bool_decide (ld_stage d = StageAuthorized).

Definition cancel_internal (d : TelegramLoginDriver) : TelegramLoginDriver := new_driver (ld_mock_force_2fa d).

Definition authorize (d : TelegramLoginDriver) : TelegramLoginDriver :=
  d <| ld_stage := StageAuthorized |> <| ld_owner := None |> <| ld_flow_id := None |>
    <| ld_code_token := None |> <| ld_password_token := None |>.

Definition reset_to (stage : LoginStage) (phone : option string) (flow_id owner : string) (d : TelegramLoginDriver)
    : TelegramLoginDriver :=
  d <| ld_stage := stage |> <| ld_phone := phone |> <| ld_flow_id := Some flow_id |> <| ld_owner := Some owner |>
    <| ld_code_token := None |> <| ld_password_token := None |>.

Definition not_in_stage : LoginDriverError := Unauthorized "flow is in the wrong stage for that action".

Definition authorized_step : LoginStep :=
  {| ls_stage := StageAuthorized; ls_message := "authorized"; ls_needs_2fa := false |}.

Definition code_step (message : string) : LoginStep :=
  {| ls_stage := StageCode; ls_message := message; ls_needs_2fa := false |}.

Definition two_fa_step : LoginStep :=
  {| ls_stage := StageTwoFa; ls_message := "cloud password required"; ls_needs_2fa := true |}.

Definition ensure_flow (flow_id : string) (d : TelegramLoginDriver) : bool :=
  is_busy d && bool_decide (ld_flow_id d = Some flow_id).

Definition Driven : Type := Result LoginStep LoginDriverError * TelegramLoginDriver.

Section Answers.
Context (trim : string -> string).

(** After the flow that is in the way was cancelled or refused. *)
Definition begin_free (t : Transport) (phone : option string) (flow_id owner : string) (d : TelegramLoginDriver) : Driven :=
  let phone := non_empty (trim <$> phone) in
  if t_mock t then
    match phone with
    | None => (Err MissingPhone, d)
    | Some _ => (Ok (code_step "confirmation code required"), reset_to StageCode phone flow_id owner d)
    end
  else
    match login_client t with
    | Err e => (Err (Unauthorized e), d)
    | Ok client =>
        match cl_is_authorized client with
        | Err e => (Err (Unauthorized e), d)
        | Ok true => (Ok authorized_step, authorize d)
        | Ok false =>
            match phone with
            | None => (Err MissingPhone, d)
            | Some phone =>
                match cl_request_login_code client phone with
                | Err e => (Err (Unauthorized e), d)
                | Ok token =>
                    (Ok (code_step "confirmation code sent; awaiting it"),
                     d <| ld_phone := Some phone |> <| ld_code_token := Some token |> <| ld_owner := Some owner |>
                       <| ld_flow_id := Some flow_id |> <| ld_stage := StageCode |>)
                end
            end
        end
    end.

Definition begin (t : Transport) (phone : option string) (flow_id : string) (replace : bool) (owner : string)
    (d : TelegramLoginDriver) : Driven :=
  if is_busy d then
    if replace && bool_decide (ld_owner d = Some owner) then begin_free t phone flow_id owner (cancel_internal d)
    else (Err (Occupied (ld_stage d) (ld_owner d)), d)
  else begin_free t phone flow_id owner d.

Definition submit_code (t : Transport) (code flow_id : string) (d : TelegramLoginDriver) : Driven :=
  if negb (ensure_flow flow_id d) then (Err FlowMismatch, d)
  else
    let code := trim code in
    if is_empty code then (Err MissingCode, d)
    else if t_mock t then
      if negb (bool_decide (ld_stage d = StageCode)) then (Err not_in_stage, d)
      else if bool_decide (code = "000000") then (Err InvalidCode, d)
      else if ld_mock_force_2fa d then (Ok two_fa_step, d <| ld_stage := StageTwoFa |>)
      else (Ok authorized_step, authorize d)
    else
      match login_client t with
      | Err e => (Err (Unauthorized e), d)
      | Ok client =>
          match ld_code_token d with
          | None => (Err not_in_stage, d)
          | Some token =>
              let d := d <| ld_code_token := None |> in
              match cl_sign_in client token code with
              | Ok _ => (Ok authorized_step, authorize d)
              | Err (SignInPasswordRequired p) =>
                  (Ok two_fa_step, d <| ld_password_token := Some p |> <| ld_stage := StageTwoFa |>)
              | Err SignInSignUpRequired => (Err SignUpRequired, d)
              | Err SignInInvalidCode => (Err InvalidCode, d <| ld_code_token := Some token |>)
              | Err (SignInInvalidPassword p) => (Err WrongPassword, d <| ld_password_token := Some p |>)
              | Err (SignInOther detail) =>
                  if contains "PHONE_CODE_EXPIRED" detail then (Err ExpiredCode, cancel_internal d)
                  else (Err (Unauthorized detail), d <| ld_code_token := Some token |>)
              end
          end
      end.

Definition submit_password (t : Transport) (password flow_id : string) (d : TelegramLoginDriver) : Driven :=
  if negb (ensure_flow flow_id d) then (Err FlowMismatch, d)
  else if is_empty (trim password) then (Err MissingPassword, d)
  else if t_mock t then
    if negb (bool_decide (ld_stage d = StageTwoFa)) then (Err not_in_stage, d)
    else (Ok authorized_step, authorize d)
  else
    match login_client t with
    | Err e => (Err (Unauthorized e), d)
    | Ok client =>
        match ld_password_token d with
        | None => (Err not_in_stage, d)
        | Some token =>
            let d := d <| ld_password_token := None |> in
            match cl_check_password client token password with
            | Ok _ => (Ok authorized_step, authorize d)
            | Err (SignInInvalidPassword p) => (Err WrongPassword, d <| ld_password_token := Some p |>)
            | Err (SignInOther detail) => (Err (Unauthorized detail), d)
            | Err _ => (Err WrongPassword, d)
            end
        end
    end.

Definition cancel (flow_id : option string) (owner : string) (d : TelegramLoginDriver)
    : Result unit LoginDriverError * TelegramLoginDriver :=
  if negb (is_busy d) then (Ok tt, d)
  else if negb (bool_decide (ld_owner d = Some owner))
          || (match flow_id with Some v => negb (bool_decide (ld_flow_id d = Some v)) | None => false end)
  then (Err FlowMismatch, d)
  else (Ok tt, cancel_internal d).
End Answers.

(** ** The login of the command line ([interactive_login]) *)

(** What is typed at a prompt, without its line end. *)
Definition Prompt : Type := string -> Result string TelegramTransportError.t.

Definition login_failed (failure : LoginFailure) (show : LoginFailure -> string) : TelegramTransportError.t :=
  TelegramTransportError.Login (show failure).

Definition authorized_state : AuthState := {| as_session := SessionAuthorized; as_flow := FlowAuthorized |}.

Section CommandLine.
Context (trim : string -> string) (prompt : Prompt) (show : LoginFailure -> string).
Context (sign_in_text : SignInError -> string) (policy : RetryPolicy) (code_calls : string -> list (Result LoginToken string)).

(** [None] while the request of the code is still being retried. *)
Definition interactive_login (t : Transport) : option (Result AuthState TelegramTransportError.t) :=
  let typed (label : string) (failure : LoginFailure) (k : string -> option (Result AuthState TelegramTransportError.t)) :=
    match prompt label with
    | Err e => Some (Err e)
    | Ok text => if is_empty (trim text) then Some (Err (login_failed failure show)) else k (trim text)
    end in
  if t_mock t then
    typed "phone number" FailedMissingCode (fun _ => typed "authentication code" FailedMissingCode (fun _ => Some (Ok authorized_state)))
  else
    match t_client t with
    | None => Some (Err no_client)
    | Some client =>
        match cl_is_authorized client with
        | Err e => Some (Err (TelegramTransportError.Rpc e))
        | Ok true => Some (Ok authorized_state)
        | Ok false =>
            typed "phone number" FailedMissingCode (fun phone =>
            match retry_rpc policy 1 (code_calls phone) with
            | None => None
            | Some (Err e, _) => Some (Err e)
            | Some (Ok token, _) =>
                typed "authentication code" FailedMissingCode (fun code =>
                match cl_sign_in client token code with
                | Ok _ => Some (Ok authorized_state)
                | Err (SignInPasswordRequired password_token) =>
                    typed "2FA password" FailedWrongPassword (fun password =>
                    match cl_check_password client password_token password with
                    | Ok _ => Some (Ok authorized_state)
                    | Err e => Some (Err (login_failed (login_failure_from_text (sign_in_text e)) show))
                    end)
                | Err e => Some (Err (login_failed (login_failure_from_text (sign_in_text e)) show))
                end)
            end)
        end
    end.
End CommandLine.

(** ** The wizard ([admin.rs]) *)

(** The manager is that of an account, or the one of the process. *)
Record WizardSession : Type := {
  ws_driver : TelegramLoginDriver;
  ws_account_id : option string;
  ws_manager : option string
}.

#[export] Instance eta_WizardSession : Eta WizardSession := fun w =>
  {| ws_driver := ws_driver w; ws_account_id := ws_account_id w; ws_manager := ws_manager w |}.

Definition telegram_connection_state_label (state : TelegramConnectionState) : string :=
  match state with
  | Connected => "connected"
  | Disconnected => "disconnected"
  | NeedsReauth => "needs_reauth"
  | NotConfigured => "not_configured"
  end.

(** The managers: opening that of an account, the current transport, the health. *)
Record Managers : Type := {
  mg_account : string -> Result unit string;
  mg_current : option string -> Result Transport string;
  mg_health : option string -> TelegramConnectionHealth
}.

Record WizardWire : Type := {
  ww_phase : string;
  ww_needs_2fa : bool;
  ww_authorized : bool;
  ww_owner : option string;
  ww_message : option string;
  ww_connection_ready : bool;
  ww_connection_state : string;
  ww_health_detail : string
}.

Definition wizard_wire_value (stage : LoginStage) (authorized : bool) (owner message : option string) (ready : bool)
    (health : TelegramConnectionHealth) : WizardWire :=
  {| ww_phase := login_stage_name stage; ww_needs_2fa := bool_decide (stage = StageTwoFa); ww_authorized := authorized;
     ww_owner := owner;
     ww_message := if authorized && negb ready
                   then Some (default "Telegram account authorized." message +:+ " Storage connection is not ready: " +:+ th_detail health)
                   else message;
     ww_connection_ready := ready; ww_connection_state := telegram_connection_state_label (th_state health);
     ww_health_detail := th_detail health |}.

Definition wizard_wire_for (env : Managers) (stage : LoginStage) (authorized : bool) (owner message manager : option string)
    : WizardWire :=
  let health := mg_health env manager in
  wizard_wire_value stage authorized owner message (bool_decide (th_state health = Connected)) health.

Record WizardBeginRequest : Type := {
  wb_phone : option string;
  wb_flow_id : option string;
  wb_replace : bool;
  wb_account_id : option string
}.

Record WizardCodeRequest : Type := { wc_code : option string; wc_flow_id : option string }.

Record WizardPasswordRequest : Type := { wp_password : option string; wp_flow_id : option string }.

(** The session, the store, and the managers that were refreshed. *)
Record Wizard : Type := { wz_session : WizardSession; wz_db : Db; wz_refreshed : list (option string) }.

#[export] Instance eta_Wizard : Eta Wizard := fun w =>
  {| wz_session := wz_session w; wz_db := wz_db w; wz_refreshed := wz_refreshed w |}.

Definition Answered : Type := Result WizardWire (Z * string) * Wizard.

(** [.filter(|value| !value.trim().is_empty())] *)
Definition not_blank (o : option string) : option string :=
  match o with Some s => if trim_is_empty s then None else Some s | None => None end.

Section Handlers.
Context `{BootstrapJson} (trim : string -> string).

Definition account_known (id : string) (db : Db) : bool :=
  match (telegram_account id db).1 with Ok (Some _) => true | _ => false end.

Definition wizard_state (env : Managers) (w : Wizard) : Answered :=
  let session := wz_session w in
  let health := mg_health env (ws_manager session) in
  let ready := bool_decide (th_state health = Connected) in
  let authorized := is_authorized (ws_driver session) || bool_decide (ts_session_state (th_status health) = SessionAuthorized) || ready in
  (Ok (wizard_wire_value (ld_stage (ws_driver session)) authorized (ld_owner (ws_driver session)) None ready health), w).

Definition finalize_wizard_success (manager : option string) (w : Wizard) : Wizard :=
  w <| wz_refreshed ::= fun l => l ++ [manager] |>.

(** The answer to a step of the driver, on the manager [manager]. *)
Definition after_step (env : Managers) (manager : option string) (r : Result LoginStep LoginDriverError) (w : Wizard) : Answered :=
  match r with
  | Err e => (Err (driver_error_response e), w)
  | Ok step =>
      let authorized := is_authorized (ws_driver (wz_session w)) in
      (Ok (wizard_wire_for env (ls_stage step) authorized None (Some (ls_message step)) manager),
       if authorized then finalize_wizard_success manager w else w)
  end.

(** [set_telegram_account_phone]; a failure is only logged. *)
Definition confirm_phone (account_id phone : option string) (r : Result LoginStep LoginDriverError) (w : Wizard) : Wizard :=
  match r, account_id, phone with
  | Ok _, None, Some phone => w <| wz_db ::= fun db => (set_telegram_account_phone trim phone db).2 |>
  | _, _, _ => w
  end.

Definition begin_selected (env : Managers) (owner : string) (q : WizardBeginRequest) (flow_id : string) (account_id : option string)
    (w : Wizard) : Answered :=
  let w := w <| wz_session ::= fun s => s <| ws_account_id := account_id |> <| ws_manager := account_id |> |> in
  match mg_current env account_id with
  | Err e => (Err (driver_error_response (Unauthorized e)), w)
  | Ok transport =>
      let r := begin trim transport (wb_phone q) flow_id (wb_replace q) owner (ws_driver (wz_session w)) in
      let w := w <| wz_session ::= fun s => s <| ws_driver := r.2 |> |> in
      after_step env account_id r.1 (confirm_phone account_id (wb_phone q) r.1 w)
  end.

(** The account to log in, if one was selected. *)
Definition select_account (env : Managers) (account_id : option string) (db : Db) : Result unit (Z * string) :=
  match account_id with
  | None => Ok tt
  | Some id =>
      if negb (account_known id db) then Err (404, "account not found")
      else match mg_account env id with Ok _ => Ok tt | Err e => Err (400, e) end
  end.

Definition wizard_begin (env : Managers) (owner : string) (body : option WizardBeginRequest) (w : Wizard) : Answered :=
  match body ≫= (fun q => (fun f => (q, f)) <$> not_blank (wb_flow_id q)) with
  | None => (Err (400, "a login flow id is required"), w)
  | Some (q, flow_id) =>
      let account_id := not_blank (wb_account_id q) in
      match select_account env account_id (wz_db w) with
      | Err e => (Err e, w)
      | Ok _ =>
          if is_authorized (ws_driver (wz_session w)) && negb (wb_replace q)
          then (Ok (wizard_wire_for env StageAuthorized true None (Some "already authorized") None), w)
          else
            let w := if is_authorized (ws_driver (wz_session w))
                     then w <| wz_session ::= fun s => s <| ws_driver ::= cancel_internal |> |> else w in
            begin_selected env owner q flow_id account_id w
      end
  end.
(** A step of the flow on the manager it was begun on, for its owner. *)
Definition wizard_step (env : Managers) (operator : string) (flow_id text : option string) (missing : LoginDriverError)
    (step : Transport -> string -> string -> TelegramLoginDriver -> Driven) (w : Wizard) : Answered :=
  match not_blank flow_id with
  | None => (Err (driver_error_response FlowMismatch), w)
  | Some flow_id =>
      let session := wz_session w in
      match mg_current env (ws_manager session) with
      | Err e => (Err (driver_error_response (Unauthorized e)), w)
      | Ok transport =>
          match text with
          | None => (Err (driver_error_response missing), w)
          | Some text =>
              if negb (bool_decide (ld_owner (ws_driver session) = Some operator))
              then (Err (driver_error_response FlowMismatch), w)
              else
                let r := step transport text flow_id (ws_driver session) in
                after_step env (ws_manager session) r.1 (w <| wz_session ::= fun s => s <| ws_driver := r.2 |> |>)
          end
      end
  end.

Definition wizard_submit_code (env : Managers) (operator : string) (body : option WizardCodeRequest) (w : Wizard) : Answered :=
  match body with
  | None => (Err (driver_error_response MissingCode), w)
  | Some q => wizard_step env operator (wc_flow_id q) (wc_code q) MissingCode (submit_code trim) w
  end.

Definition wizard_submit_password (env : Managers) (operator : string) (body : option WizardPasswordRequest) (w : Wizard) : Answered :=
  match body with
  | None => (Err (driver_error_response MissingPassword), w)
  | Some q => wizard_step env operator (wp_flow_id q) (wp_password q) MissingPassword (submit_password trim) w
  end.

(** The flow identifier of the body, if there is one. *)
Definition wizard_cancel (operator : string) (flow_id : option string) (w : Wizard) : Result unit (Z * string) * Wizard :=
  let r := cancel flow_id operator (ws_driver (wz_session w)) in
  match r.1 with
  | Ok _ => (Ok tt, w <| wz_session := {| ws_driver := r.2; ws_account_id := None; ws_manager := None |} |>)
  | Err e => (Err (driver_error_response e), w <| wz_session ::= fun s => s <| ws_driver := r.2 |> |>)
  end.

(** ** Requests *)

Inductive WizardRequest : Type :=
| AskState
| AskBegin (body : option WizardBeginRequest)
| AskCode (body : option WizardCodeRequest)
| AskPassword (body : option WizardPasswordRequest)
| AskCancel (flow_id : option string).

Definition wizard (env : Managers) (operator : string) (q : WizardRequest) (w : Wizard) : Wizard :=
  match q with
  | AskState => (wizard_state env w).2
  | AskBegin body => (wizard_begin env operator body w).2
  | AskCode body => (wizard_submit_code env operator body w).2
  | AskPassword body => (wizard_submit_password env operator body w).2
  | AskCancel flow_id => (wizard_cancel operator flow_id w).2
  end.

(** Requests one after the other, each with what is outside at its time. *)
Fixpoint wizard_run (l : list (Managers * string * WizardRequest)) (w : Wizard) : Wizard :=
  match l with
  | [] => w
  | (env, operator, q) :: l => wizard_run l (wizard env operator q w)
  end.

(** ** A flow belongs to its operator *)

Abbreviation driver w := (ws_driver (wz_session w)).

(** The flow identifier a request names, if it is one that goes on with a flow. *)
Definition named_flow (q : WizardRequest) : option string :=
  match q with
  | AskCode (Some q) => wc_flow_id q
  | AskPassword (Some q) => wp_flow_id q
  | AskCancel flow_id => flow_id
  | _ => None
  end.

(** Not of the owner, or about another flow. *)
Definition foreign (owner flow : string) (operator : string) (q : WizardRequest) : Prop :=
  operator <> owner \/ exists f, named_flow q = Some f /\ f <> flow.

Lemma after_step_driver env manager r w : driver (after_step env manager r w).2 = driver w.
Proof. unfold after_step. destruct r; [|done]. cbn. by destruct (is_authorized _). Qed.

Lemma confirm_phone_driver account phone r w : driver (confirm_phone account phone r w) = driver w.
Proof. unfold confirm_phone. by destruct r, account, phone. Qed.

Lemma busy_not_authorized (d : TelegramLoginDriver) : is_busy d = true -> is_authorized d = false.
Proof. unfold is_busy, is_authorized. by destruct (ld_stage d). Qed.

Lemma step_foreign env operator flow_id text missing step w owner flow :
  ld_owner (driver w) = Some owner -> (operator <> owner \/ exists f, flow_id = Some f /\ f <> flow) ->
  (forall t x f, f <> flow -> (step t x f (driver w)).2 = driver w) ->
  driver (wizard_step env operator flow_id text missing step w).2 = driver w.
Proof.
  intros Ho Hf Hs. unfold wizard_step, not_blank. destruct flow_id as [f|]; [|done]. destruct (trim_is_empty f); [done|].
  destruct (mg_current env _) as [t|e]; [|done]. destruct text as [x|]; [|done].
  rewrite Ho. case_bool_decide as Hop; [|done]. cbn [negb]. cbv zeta. rewrite after_step_driver. cbn.
  apply Hs. injection Hop as <-. destruct Hf as [?|(f' & [= <-] & Hne)]; done.
Qed.

Lemma foreign_keeps env operator q w owner flow : is_busy (driver w) = true -> ld_owner (driver w) = Some owner ->
  ld_flow_id (driver w) = Some flow -> foreign owner flow operator q -> driver (wizard env operator q w) = driver w.
Proof.
  intros Hb Ho Hf Hq. destruct q as [|body|body|body|flow_id]; cbn [wizard].
  - done.
  - destruct Hq as [Hq|(f & [=] & _)]. unfold wizard_begin. destruct (body ≫= _) as [[q f]|]; [|done].
    destruct (select_account _ _ _) as [[]|]; [|done]. rewrite (busy_not_authorized _ Hb). cbn [andb].
    unfold begin_selected. destruct (mg_current _ _) as [t|]; [|done]. cbv zeta. rewrite after_step_driver, confirm_phone_driver. cbn.
    unfold begin. rewrite Hb, Ho. rewrite bool_decide_eq_false_2 by congruence. by rewrite andb_false_r.
  - unfold wizard_submit_code. destruct body as [q|]; [|done]. apply (step_foreign _ _ _ _ _ _ _ owner flow); [done|done|].
    intros t x f Hne. unfold submit_code, ensure_flow. rewrite Hf, bool_decide_eq_false_2 by congruence. by rewrite andb_false_r.
  - unfold wizard_submit_password. destruct body as [q|]; [|done]. apply (step_foreign _ _ _ _ _ _ _ owner flow); [done|done|].
    intros t x f Hne. unfold submit_password, ensure_flow. rewrite Hf, bool_decide_eq_false_2 by congruence. by rewrite andb_false_r.
  - unfold wizard_cancel, cancel. rewrite Hb, Ho, Hf. cbn [negb]. destruct Hq as [Hq|(f & Hq & Hne)].
    + by rewrite bool_decide_eq_false_2 by congruence.
    + cbn in Hq. subst flow_id. rewrite (bool_decide_eq_false_2 (Some flow = Some f)) by congruence. by rewrite orb_true_r.
Qed.


(** ** A flow ends when Telegram says so *)

(** A flow that is under way has an owner and an identifier; any other state
    keeps neither of them and no token. *)
Record driver_wf (d : TelegramLoginDriver) : Prop := {
  dw_busy : is_busy d = true -> exists owner flow, ld_owner d = Some owner /\ ld_flow_id d = Some flow;
  dw_idle : is_busy d = false -> ld_owner d = None /\ ld_flow_id d = None /\ ld_code_token d = None /\ ld_password_token d = None
}.

(** What has Telegram accepted?  The mock runtime accepts everything. *)
Definition accepted_by (t : Transport) (d : TelegramLoginDriver) : Prop :=
  t_mock t = true \/
  exists client, t_client t = Some client /\
    (cl_is_authorized client = Ok true \/
     (exists token code, ld_code_token d = Some token /\ cl_sign_in client token code = Ok tt) \/
     (exists token password, ld_password_token d = Some token /\ cl_check_password client token password = Ok tt)).

(** A step of the driver keeps it well formed and authorizes only what is accepted. *)
Definition sound_step (t : Transport) (d d' : TelegramLoginDriver) : Prop :=
  driver_wf d' /\ (is_authorized d = false -> is_authorized d' = true -> accepted_by t d).

Lemma authorize_sound t d : accepted_by t d -> sound_step t d (authorize d).
Proof. by split. Qed.

Lemma stay_sound t d : driver_wf d -> sound_step t d d.
Proof. intros Hd. split; [done|]. by intros ->. Qed.

Lemma cancel_sound t d : sound_step t d (cancel_internal d).
Proof. by split. Qed.

(** The flow goes on: other tokens, perhaps another stage. *)
Lemma go_on_sound t (d d' : TelegramLoginDriver) : is_busy d = true -> driver_wf d -> is_busy d' = true ->
  ld_owner d' = ld_owner d -> ld_flow_id d' = ld_flow_id d -> sound_step t d d'.
Proof.
  intros Hb [H1 _] Hb' Ho Hf. split.
  - split; [|by rewrite Hb']. intros _. rewrite Ho, Hf. by apply H1.
  - intros _. by rewrite (busy_not_authorized _ Hb').
Qed.

Lemma begin_free_sound t phone flow_id owner d : driver_wf d -> is_busy d = false ->
  sound_step t d (begin_free trim t phone flow_id owner d).2.
Proof.
  intros Hd Hb. unfold begin_free. cbv zeta. destruct (t_mock t) eqn:Em.
  - destruct (non_empty _); cbn; [|by apply stay_sound]. split; [|done]. split; [|done]. intros _. by exists owner, flow_id.
  - unfold login_client. destruct (t_client t) as [client|] eqn:Ec; [|by apply stay_sound].
    destruct (cl_is_authorized client) as [[]|] eqn:Ea; [|destruct (non_empty _); [|by apply stay_sound]|by apply stay_sound].
    + apply authorize_sound. right. exists client. auto.
    + destruct (cl_request_login_code client _); cbn; [|by apply stay_sound]. split; [|done]. split; [|done].
      intros _. by exists owner, flow_id.
Qed.

Lemma begin_sound t phone flow_id replace owner d : driver_wf d -> sound_step t d (begin trim t phone flow_id replace owner d).2.
Proof.
  intros Hd. unfold begin. destruct (is_busy d) eqn:Hb; [|by apply begin_free_sound].
  destruct (_ && _); [|by apply stay_sound].
  destruct (begin_free_sound t phone flow_id owner (cancel_internal d)) as [H1 H2]; [by split|done|]. split; [done|].
  intros _ Ha. destruct (H2 eq_refl Ha) as [?|(client & Hc & Hacc)]; [by left|]. right. exists client. split; [done|].
  destruct Hacc as [?|[(? & ? & [=] & _)|(? & ? & [=] & _)]]. by left.
Qed.

Lemma ensure_flow_busy f d : negb (ensure_flow f d) = false -> is_busy d = true.
Proof. unfold ensure_flow. by destruct (is_busy d). Qed.

Ltac stays := first [by apply stay_sound | by apply go_on_sound | by apply cancel_sound].

Lemma code_sound t code f d : driver_wf d -> sound_step t d (submit_code trim t code f d).2.
Proof.
  intros Hd. unfold submit_code. destruct (negb (ensure_flow f d)) eqn:Hb; [stays|]. apply ensure_flow_busy in Hb. cbv zeta.
  destruct (is_empty _); [stays|]. destruct (t_mock t) eqn:Em.
  - destruct (negb _); [stays|]. case_bool_decide; [stays|]. destruct (ld_mock_force_2fa d); [stays|].
    apply authorize_sound. by left.
  - unfold login_client. destruct (t_client t) as [client|] eqn:Ec; [|stays].
    destruct (ld_code_token d) as [token|] eqn:Et; [|stays].
    destruct (cl_sign_in client token (trim code)) as [[]|[ |p| |p|detail]] eqn:Es; try stays.
    + split; [done|]. intros _ _. right. exists client. split; [done|]. right. left. by exists token, (trim code).
    + destruct (contains _ _); stays.
Qed.

Lemma password_sound t password f d : driver_wf d -> sound_step t d (submit_password trim t password f d).2.
Proof.
  intros Hd. unfold submit_password. destruct (negb (ensure_flow f d)) eqn:Hb; [stays|]. apply ensure_flow_busy in Hb.
  destruct (is_empty _); [stays|]. destruct (t_mock t) eqn:Em.
  - destruct (negb _); [stays|]. apply authorize_sound. by left.
  - unfold login_client. destruct (t_client t) as [client|] eqn:Ec; [|stays].
    destruct (ld_password_token d) as [token|] eqn:Et; [|stays]. cbv zeta.
    destruct (cl_check_password client token password) as [[]|[ |p| |p|detail]] eqn:Es; try stays.
    split; [done|]. intros _ _. right. exists client. split; [done|]. right. right. by exists token, password.
Qed.

Lemma cancelled_sound t flow_id owner d : driver_wf d -> sound_step t d (cancel flow_id owner d).2.
Proof. intros Hd. unfold cancel. destruct (negb _); [stays|]. destruct (_ || _); stays. Qed.

(** A request keeps the driver well formed; one that ends the flow found a
    transport that accepted. *)
Definition sound_request (env : Managers) (w w' : Wizard) : Prop :=
  driver_wf (driver w') /\
  (is_authorized (driver w) = false -> is_authorized (driver w') = true ->
   exists manager t, mg_current env manager = Ok t /\ accepted_by t (driver w)).

Lemma sound_request_stay env w w' : driver_wf (driver w) -> driver w' = driver w -> sound_request env w w'.
Proof. intros Hd E. split; rewrite E; [done|]. by intros ->. Qed.

Lemma step_request_sound env operator flow_id text missing step w : driver_wf (driver w) ->
  (forall t x f d, driver_wf d -> sound_step t d (step t x f d).2) ->
  sound_request env w (wizard_step env operator flow_id text missing step w).2.
Proof.
  intros Hd Hs. unfold wizard_step. destruct (not_blank flow_id) as [f|]; [|by apply sound_request_stay].
  cbv zeta. destruct (mg_current env _) as [t|e] eqn:Et; [|by apply sound_request_stay].
  destruct text as [x|]; [|by apply sound_request_stay]. destruct (negb _); [by apply sound_request_stay|].
  destruct (Hs t x f (driver w) Hd) as [H1 H2]. unfold sound_request. rewrite after_step_driver. cbn. split; [done|]. eauto.
Qed.

Lemma begin_request_sound env operator body w : driver_wf (driver w) -> sound_request env w (wizard_begin env operator body w).2.
Proof.
  intros Hd. unfold wizard_begin. destruct (body ≫= _) as [[q f]|]; [|by apply sound_request_stay]. cbv zeta.
  destruct (select_account _ _ _) as [[]|]; [|by apply sound_request_stay].
  destruct (is_authorized (driver w) && negb (wb_replace q)) eqn:Ea; [by apply sound_request_stay|].
  unfold begin_selected. destruct (mg_current env _) as [t|e] eqn:Et; cbv zeta.
  - unfold sound_request. rewrite after_step_driver, confirm_phone_driver. cbn. destruct (is_authorized (driver w)) eqn:Ew; cbn.
    + destruct (begin_sound t (wb_phone q) f (wb_replace q) operator (cancel_internal (driver w))) as [H1 _]; by split.
    + destruct (begin_sound t (wb_phone q) f (wb_replace q) operator (driver w) Hd) as [H1 H2]. split; [done|]. eauto.
  - destruct (is_authorized (driver w)) eqn:Ew; cbn; [|by apply sound_request_stay].
    split; cbn; [by split|]. by rewrite Ew.
Qed.

(** A login is only completed when Telegram accepted it.  Starting from an
    idle wizard and after any requests, by any operators and with any answers, a
    request that completes the flow found a transport that was authorized
    already, or accepted the code for the token of this flow, or its password;
    and a completed flow has no owner and keeps no token. *)
Theorem login_needs_acceptance force l w0 env operator q (Hw : ws_driver (wz_session w0) = new_driver force) :
  let w := wizard_run l w0 in
  let w' := wizard env operator q w in
  is_authorized (driver w) = false -> is_authorized (driver w') = true ->
  (exists manager t, mg_current env manager = Ok t /\ accepted_by t (driver w)) /\
  ld_owner (driver w') = None /\ ld_code_token (driver w') = None /\ ld_password_token (driver w') = None.
Proof.
  assert (forall env operator q w, driver_wf (driver w) -> sound_request env w (wizard env operator q w)) as Hstep.
  { intros env' op' [|body|body|body|f] w Hd; cbn [wizard].
    - by apply sound_request_stay.
    - by apply begin_request_sound.
    - destruct body; [|by apply sound_request_stay]. apply step_request_sound; [done|]. intros. by apply code_sound.
    - destruct body; [|by apply sound_request_stay]. apply step_request_sound; [done|]. intros. by apply password_sound.
    - unfold wizard_cancel. destruct (cancelled_sound {| t_mock := false; t_client := None |} f op' (driver w) Hd) as [H1 H2].
      assert (is_authorized (driver w) = false -> is_authorized (cancel f op' (driver w)).2 = true -> False) as H3.
      { intros Ha Hb. destruct (H2 Ha Hb) as [?|(? & ? & _)]; done. }
      cbv zeta. destruct (cancel f op' (driver w)) as [[[]|e] d] eqn:E; split; cbn; naive_solver. }
  assert (driver_wf (driver (wizard_run l w0))) as Hd.
  { assert (driver_wf (driver w0)) as H0 by (rewrite Hw; by split). clear Hw. revert w0 H0.
    induction l as [|[[env' op'] q'] l IH]; intros w0 H0; [done|]. cbn. apply IH. by apply Hstep. }
  intros w w' Ha Ha'. destruct (Hstep env operator q w Hd) as [[_ Hidle] Hacc]. split; [by apply Hacc|].
  destruct Hidle as (H1 & _ & H2 & H3); [|done]. unfold is_busy. apply bool_decide_eq_true in Ha'. unfold w' in Ha'. by rewrite Ha'.
Qed.
End Handlers.
End Driver.

(** ** Witnesses and recorded defects *)

(** The flow [f] of [ann] on the account [acc], waiting for the code. *)
Definition anns_flow : Wizard (LoginToken := nat) (PasswordToken := nat) :=
  {| wz_session :=
       {| ws_driver := {| ld_stage := StageCode; ld_owner := Some "ann"; ld_flow_id := Some "f"; ld_phone := Some "1";
                          ld_code_token := Some 7%nat; ld_password_token := None; ld_mock_force_2fa := false |};
          ws_account_id := Some "acc"; ws_manager := Some "acc" |};
     wz_db := empty_db; wz_refreshed := [] |}.

Definition toy_client (sign_in : Result unit (SignInError (PasswordToken := nat))) : Client (LoginToken := nat) :=
  {| cl_is_authorized := Ok false; cl_request_login_code := fun _ => Ok 8%nat; cl_sign_in := fun _ _ => sign_in;
     cl_check_password := fun _ _ => Err (SignInOther "timeout") |}.

Definition toy_managers (client : Client (LoginToken := nat) (PasswordToken := nat)) : Managers :=
  {| mg_account := fun _ => Ok tt; mg_current := fun _ => Ok {| t_mock := false; t_client := Some client |};
     mg_health := fun _ => not_configured_health "s" "" 0 |}.

Definition bobs_request : WizardBeginRequest :=
  {| wb_phone := Some "2"; wb_flow_id := Some "g"; wb_replace := true; wb_account_id := None |}.

Abbreviation toy_env := (toy_managers (toy_client (Ok tt))).


Lemma login_needs_acceptance_witness :
  let w0 := anns_flow <| wz_session := {| ws_driver := new_driver false; ws_account_id := None; ws_manager := None |} |> in
  let w := wizard_run (H := toy_json) id [(toy_env, "bob", AskBegin (Some bobs_request))] w0 in
  let w' := wizard (H := toy_json) id toy_env "bob" (AskCode (Some {| wc_code := Some "1"; wc_flow_id := Some "g" |})) w in
  is_authorized (ws_driver (wz_session w')) = true /\ ld_code_token (ws_driver (wz_session w')) = None.
Proof.
  intros w0 w w'. split; [vm_compute; reflexivity|].
  destruct (login_needs_acceptance (H := toy_json) id false [(toy_env, "bob", AskBegin (Some bobs_request))] w0 toy_env "bob"
    (AskCode (Some {| wc_code := Some "1"; wc_flow_id := Some "g" |})) eq_refl) as (_ & _ & Ht & _);
    [vm_compute; reflexivity..|exact Ht].
Defined.

(** The attempt of another operator to begin is refused, but it has already
    replaced the account of the session: the code of [ann] is then sent to
    Telegram from another account than the one she logs in. *)
Theorem refused_begin_redirects_flow :
  let r := wizard_begin (H := toy_json) id toy_env "bob" (Some bobs_request) anns_flow in
  is_ok r.1 = false /\ ws_driver (wz_session r.2) = ws_driver (wz_session anns_flow) /\
  ws_manager (wz_session anns_flow) = Some "acc" /\ ws_manager (wz_session r.2) = None.
Proof. vm_compute. auto. Qed.

(** When checking the password fails for another reason than a wrong password,
    the token is gone: the flow stays at the password, and every further
    password is refused. *)
Theorem password_error_strands_flow {L P} trim (client : Client (LoginToken := L) (PasswordToken := P)) token password flow d detail
    (Hd : ld_stage d = StageTwoFa) (Ht : ld_password_token d = Some token) (Hf : ld_flow_id d = Some flow)
    (Hp : is_empty (trim password) = false) (Hc : cl_check_password client token password = Err (SignInOther detail)) :
  let t := {| t_mock := false; t_client := Some client |} in
  let d' := (submit_password trim t password flow d).2 in
  ld_stage d' = StageTwoFa /\
  forall t' again, t_mock t' = false -> t_client t' <> None -> is_empty (trim again) = false ->
    submit_password trim t' again flow d' = (Err not_in_stage, d').
Proof.
  intros t d'. assert (d' = d <| ld_password_token := None |>) as E.
  { unfold d', submit_password, ensure_flow, is_busy. rewrite Hd, Hf, Ht. rewrite bool_decide_eq_true_2 by done. cbn. by rewrite Hp, Hc. }
  rewrite E. split; [done|]. intros t' again Hm Hcl Ha. unfold submit_password, ensure_flow, is_busy, login_client. cbn.
  rewrite Hd, Hf. rewrite bool_decide_eq_true_2 by done. cbn. rewrite Ha, Hm. by destruct (t_client t').
Qed.

(** The phone number that the removal of a connection asks for is stored when a
    login begins: no code was entered, and the login can be cancelled. *)
Theorem unverified_phone_is_stored :
  let w0 := anns_flow <| wz_session := {| ws_driver := new_driver false; ws_account_id := None; ws_manager := None |} |> in
  let w := wizard_run (H := toy_json) id [(toy_env, "bob", AskBegin (Some bobs_request)); (toy_env, "bob", AskCancel None)] w0 in
  ld_stage (ws_driver (wz_session w)) = StageIdle /\ (telegram_account_phone_matches "2" (wz_db w)).1 = Ok true.
Proof. vm_compute. auto. Qed.
