(* ===== verification/Console.v ===== *)
(** * Contents, uploads and jobs of the administration API ([src/src/admin.rs], [admin/phase10.rs])

    The handlers behind the browser's files: downloading an object or a range
    of it, uploading in one request, in the background or resumably, the job
    list and its actions, buckets, and the files of the console itself.

    The theorems: a download is answered only for the committed version that
    its key shows, with exactly the bytes of the range that was asked for, cut
    at the end of the object; a request for a file of the console never leaves
    its directory; the body of a chunk is collected completely or refused as
    soon as it is too large. *)

From stdpp Require Import pretty.
From S2P Require Import Prelude Errors Config Auth Admin Manifest Schema Cleanup Transfers TransferSafety.
From S2P Require Import ManifestStore ManifestSafety IndexSafety MultipartStore Buckets ConnectionRemoval System Catalog.
From S2P Require Import Requests Listing Settings Chunks Streaming Attempts Programs Publish Reception Completion.
From S2P Require Import Accounts Rechunk Replication CleanupWorker Shares S3Api Guarantees Browser Moves.

(** ** Ranges *)

Definition DASH : Ascii.ascii := Ascii.ascii_of_N 45.

(** The first and the end of the bytes asked for, or nothing. *)
Definition range_bounds (value : string) (content_length : Z) : option (Z * Z) :=
  match strip_prefix "bytes=" value ≫= split_once DASH with
  | None => None
  | Some (start_text, end_text) =>
      if content_length =? 0 then None
      else if is_empty start_text then
        (fun suffix => (u64_saturating_sub content_length (Z.min suffix content_length), content_length)) <$> parse_u64 end_text
      else
        match parse_u64 start_text with
        | None => None
        | Some start =>
            if is_empty end_text then Some (start, content_length)
            else (fun last => (start, Z.min (u64_saturating_add last 1) content_length)) <$> parse_u64 end_text
        end
  end.

Definition parse_content_range (range : option string) (content_length : Z) : Result ((Z * Z) * option string) Z :=
  match range with
  | None => Ok ((0, content_length), None)
  | Some value =>
      match range_bounds value content_length with
      | None => Err content_length
      | Some (start, stop) =>
          if (stop <=? start) || (content_length <=? start) then Err content_length
          else Ok ((start, stop),
                   Some ("bytes " +:+ pretty start +:+ "-" +:+ pretty (stop - 1) +:+ "/" +:+ pretty content_length))
      end
  end.

(** ** Files of the console *)

Inductive Component : Type := RootDir | CurDir | ParentDir | Normal (name : string).

#[export] Instance Component_eq_dec : EqDecision Component.
Proof. solve_decision. Defined.

(** The text between slashes. *)
Fixpoint path_segments (s : string) : list string :=
  match s with
  | EmptyString => [EmptyString]
  | String c s' =>
      if is_byte 47 c then EmptyString :: path_segments s'
      else match path_segments s' with
           | seg :: segs => String c seg :: segs
           | [] => [String c EmptyString]
           end
  end.

Definition component_of (segment : string) : option Component :=
  if is_empty segment || bool_decide (segment = ".") then None
  else if bool_decide (segment = "..") then Some ParentDir
  else Some (Normal segment).

(** [Path::components] on Unix; a leading [.] is kept. *)
Definition components (path : string) : list Component :=
  let named := omap component_of (path_segments path) in
  match path with
  | String c _ => if is_byte 47 c then RootDir :: named
                  else if bool_decide (head (path_segments path) = Some ".") then CurDir :: named else named
  | EmptyString => named
  end.

Definition unsafe_component (c : Component) : bool := match c with ParentDir | RootDir => true | _ => false end.

(** [base.join(relative)], where [relative] is not absolute. *)
Definition safe_join (base relative : string) : option string :=
  if existsb unsafe_component (components relative) then None
  else Some (if is_empty base || ends_with_slash base then base +:+ relative else base +:+ "/" +:+ relative).

(** The text after the last dot of the file name, if there is one before it. *)
Fixpoint last_extension (name : string) : option string :=
  match name with
  | EmptyString => None
  | String c rest =>
      match last_extension rest with
      | Some e => Some e
      | None => if is_byte 46 c then Some rest else None
      end
  end.

Definition extension (path : string) : string :=
  match last (components path) with
  | Some (Normal (String _ rest)) => default EmptyString (last_extension rest)
  | _ => EmptyString
  end.

Definition static_content_type (path : string) : string :=
  let e := extension path in
  if bool_decide (e = "html") then "text/html; charset=utf-8"
  else if bool_decide (e = "css") then "text/css; charset=utf-8"
  else if one_of e ["js"; "mjs"] then "application/javascript; charset=utf-8"
  else if bool_decide (e = "json") then "application/json; charset=utf-8"
  else if bool_decide (e = "svg") then "image/svg+xml"
  else if bool_decide (e = "png") then "image/png"
  else if one_of e ["jpg"; "jpeg"] then "image/jpeg"
  else if bool_decide (e = "webp") then "image/webp"
  else if bool_decide (e = "ico") then "image/x-icon"
  else if bool_decide (e = "map") then "application/json; charset=utf-8"
  else "application/octet-stream".

Record StaticFile : Type := { sf_bytes : list byte; sf_content_type : string; sf_cache_control : string }.

(** [read]: the file, [None] when it is not there, or another error. *)
Definition read_static_file (read : string -> Result (option (list byte)) string) (path : string) : Result (option StaticFile) string :=
  match read path with
  | Err e => Err e
  | Ok None => Ok None
  | Ok (Some bytes) =>
      Ok (Some {| sf_bytes := bytes; sf_content_type := static_content_type path;
                  sf_cache_control := if bool_decide (last (components path) = Some (Normal "index.html")) then "no-store"
                                      else "public, max-age=31536000, immutable" |})
  end.

Definition ADMIN_ASSET_PREFIX : string := "/_admin/assets/".

Definition handle_static (read : string -> Result (option (list byte)) string) (ui_dist_dir method path : string)
    : Result StaticFile (Z * string) :=
  if negb (one_of method ["GET"; "HEAD"]) then Err (405, "method not allowed")
  else
    match strip_prefix ADMIN_ASSET_PREFIX path with
    | Some asset_path =>
        match safe_join (join ui_dist_dir "assets") asset_path with
        | None => Err (404, "asset not found")
        | Some file =>
            match read_static_file read file with
            | Ok (Some f) => Ok f
            | Ok None => Err (404, "asset not found")
            | Err _ => Err (503, "admin ui assets unavailable")
            end
        end
    | None =>
        match read_static_file read (join ui_dist_dir "index.html") with
        | Ok (Some f) => Ok f
        | Ok None => Err (503, "admin ui assets missing")
        | Err _ => Err (503, "admin ui assets unavailable")
        end
    end.

(** ** Bodies *)

Inductive LimitedBodyError : Type := TooLarge | ReadFailed.

(** The frames of a body; [None] is a read error. *)
Fixpoint limited_body (frames : list (option (list byte))) (limit : Z) (collected : list byte) : Result (list byte) LimitedBodyError :=
  match frames with
  | [] => Ok collected
  | None :: _ => Err ReadFailed
  | Some frame :: frames =>
      if limit <? Z.of_nat (length collected) + Z.of_nat (length frame) then Err TooLarge
      else limited_body frames limit (collected ++ frame)
  end.

Definition read_limited_body (frames : list (option (list byte))) (limit : Z) : Result (list byte) LimitedBodyError :=
  limited_body frames limit [].

(** ** Downloads *)

(** The answer to a request for the contents of an object; no body for HEAD.
    The [Content-Range] of a refusal is the length of the object. *)
Record ContentAnswer : Type := {
  ca_status : Z;
  ca_content_length : Z;
  ca_content_type : string;
  ca_etag : string;
  ca_disposition : string;
  ca_content_range : option string;
  ca_body : option (ObjectManifest * list ReadSpan)
}.

Section Console.
Context (parse_rfc3339 : string -> option OffsetDateTime) (format_rfc3339 : OffsetDateTime -> Result string string).
Context (last_instant : OffsetDateTime) (trim : string -> string).
Context (parse_uuid : string -> option string) (uuid_error : string -> string).
Context (encrypt_chunk decrypt_chunk : Uuid -> Z -> list byte -> Result (list byte) ObjectFormatError.t).
Context (sha256_hex : list byte -> string).
Context (encryption_key_id data_dir : string) (staging_budget chunk_size : Z).
(** [HeaderValue::from_str] accepts. *)
Context (header_ok : string -> bool).

Definition BAD_KEY : string := "key must be a non-empty, relative, plain file path".

Definition handle_content (query : gmap string string) (range : option string) (is_head : bool) : ApiTask ContentAnswer :=
  bkt ← demand (required_param query "bucket");
  k ← demand (required_param query "key");
  if negb (is_safe_object_key k) then deny 400 BAD_KEY
  else
    found ← or_deny (active_version bkt k) internal_error;
    match found with
    | None => deny 404 "object not found"
    | Some manifest =>
        if negb (bool_decide (commit_state manifest = CommitState.Committed)) then deny 404 "object not found"
        else
          match parse_content_range range (content_length manifest) with
          | Err _ => deny 416 "range not satisfiable"
          | Ok ((start, stop), content_range) =>
              match plan_read manifest start stop with
              | Err _ => deny 416 "range not satisfiable"
              | Ok plan =>
                  mret {| ca_status := if is_some content_range then 206 else 200;
                          ca_content_length := if is_some content_range then stop - start
                                               else if (start =? 0) && (stop =? content_length manifest) then content_length manifest
                                               else stop - start;
                          ca_content_type := if header_ok (content_type manifest) then content_type manifest
                                             else "application/octet-stream";
                          ca_etag := whole_object (m_checksum manifest);
                          ca_disposition := content_disposition_with_mode "attachment" (basename_key k);
                          ca_content_range := content_range;
                          ca_body := if is_head then None else Some (manifest, rp_chunks plan) |}
              end
          end
    end.

(** ** Uploads *)

(** The expiry a request asks for in seconds. *)
Definition requested_expiry (seconds : option Z) : ApiTask (option OffsetDateTime) :=
  Perform Ambient (fun E =>
    match expiry_from_seconds last_instant (now_utc_at E 0) seconds with
    | None => Return (Err Panicked)
    | Some (Ok e) => Return (Ok e)
    | Some (Err message) => deny 400 message
    end).

(** [value.parse::<u64>()] of the parameter, if it is there. *)
Definition seconds_param (query : gmap string string) : Result (option Z) (Z * string) :=
  match query !! "expires_in_seconds" with
  | None => Ok None
  | Some value => match parse_u64 value with Some n => Ok (Some n) | None => Err (400, "invalid expiry seconds") end
  end.

Abbreviation put := (put_stream_with_expiry parse_uuid uuid_error encrypt_chunk sha256_hex encryption_key_id data_dir staging_budget chunk_size).

Definition handle_upload_content (fuel : nat) (query : gmap string string) (content_type : option string)
    (body : list (option (list byte))) : ApiTask (Z * string * Uuid) :=
  bkt ← demand (required_param query "bucket");
  exists_ ← or_else (call (bucket_exists_for parse_rfc3339 bkt)) false;
  if negb exists_ then deny 404 "bucket not found"
  else
    let k := default EmptyString (query !! "key") in
    if negb (is_safe_object_key k) then deny 400 BAD_KEY
    else
      let content_type := match content_type with
                          | Some t => if is_empty t then "application/octet-stream" else t
                          | None => "application/octet-stream"
                          end in
      seconds ← demand (seconds_param query);
      expires_at ← requested_expiry seconds;
      stored ← or_deny (put fuel bkt k content_type body None expires_at) or_quota;
      manifest ← in_time_api stored;
      mret (content_length manifest, whole_object (m_checksum manifest), object_id manifest).

(** The answer to a failed reception in the background. *)
Definition enqueue_error (e : ObjectFormatError.t) : Z * string :=
  match e with
  | ObjectFormatError.Metadata (BucketNotFound _) => (404, "bucket not found")
  | ObjectFormatError.Metadata (QuotaExceeded message) => (507, message)
  | ObjectFormatError.Metadata (InvalidManifest m) =>
      if contains "capacity" m then (507, "staging capacity exhausted; free space or finish pending transfers")
      else (400, "upload reception failed; staged data retained, resend source file")
  | _ => (400, "upload reception failed; staged data retained, resend source file")
  end.

Definition enqueue_upload (query : gmap string string) (content_type : option string) (body : list (option (list byte)))
    : ApiTask TransferJob :=
  let bkt := default EmptyString (query !! "bucket") in
  let k := default EmptyString (query !! "key") in
  if is_empty bkt || negb (is_safe_object_key k) then deny 400 "bucket and valid object key required"
  else
    seconds ← demand (seconds_param query);
    expires_at ← requested_expiry seconds;
    or_deny (enqueue_stream_with_expiry encrypt_chunk sha256_hex encryption_key_id data_dir staging_budget chunk_size
               bkt k (default "application/octet-stream" content_type) body None expires_at) enqueue_error.

(** ** Resumable uploads *)

(** [resumable_error_response]; the offset of a mismatch is part of the answer. *)
Definition resumable_error_response (e : ObjectFormatError.t) : Z * string :=
  match e with
  | ObjectFormatError.ReceptionOffsetMismatch _ => (409, ObjectFormatError.to_string e)
  | ObjectFormatError.ReceptionChunkTooLarge => (413, ObjectFormatError.to_string e)
  | ObjectFormatError.ReceptionChunkSizeMismatch => (400, ObjectFormatError.to_string e)
  | ObjectFormatError.ReceptionNotComplete => (409, ObjectFormatError.to_string e)
  | ObjectFormatError.ReceptionNotFound => (404, ObjectFormatError.to_string e)
  | ObjectFormatError.Metadata (BucketNotFound _) => (404, "bucket not found")
  | ObjectFormatError.Metadata (QuotaExceeded message) => (507, message)
  | ObjectFormatError.Metadata (InvalidManifest message) =>
      if contains "capacity" message then (507, "staging capacity exhausted") else (400, ObjectFormatError.to_string e)
  | _ => (400, ObjectFormatError.to_string e)
  end.

Record BeginResumableRequest : Type := {
  br_bucket : string;
  br_key : string;
  br_content_type : string;
  br_expires_in_seconds : option Z
}.

Definition begin_resumable_upload (body : option BeginResumableRequest) (rs : Receptions) : ApiTask (ReceptionStatus * Receptions) :=
  match body with
  | None => deny 400 "invalid resumable upload payload"
  | Some q =>
      if is_empty (br_bucket q) || negb (is_safe_object_key (br_key q)) then deny 400 "bucket and valid object key required"
      else
        expires_at ← requested_expiry (br_expires_in_seconds q);
        '(status, state) ← or_deny (begin_reception_with_expiry data_dir chunk_size (br_bucket q) (br_key q) (br_content_type q) expires_at)
                             resumable_error_response;
        mret (status, <[rs_object_id state := state]> rs)
  end.

(** What a request about a resumable upload is answered with. *)
Inductive ResumableAnswer : Type :=
| ResumableStatus (status : ReceptionStatus)
| ResumableAborted
| ResumableQueued (job : TransferJob).

(** A task on the receptions, whose error is an answer. *)
Definition receiving {A} (p : Proc (Result A ObjectFormatError.t * Receptions)) (f : A -> ResumableAnswer)
    : Proc (Result ResumableAnswer ApiRefusal * Receptions) :=
  proc_bind (fun '(r, rs) =>
    Return (match r with
            | Ok a => Ok (f a)
            | Err e => Err (Refused (resumable_error_response e).1 (resumable_error_response e).2)
            end, rs)) p.

Definition resumable_refused (status : Z) (message : string) (rs : Receptions) : Proc (Result ResumableAnswer ApiRefusal * Receptions) :=
  Return (Err (Refused status message), rs).

Definition final_param (query : gmap string string) : option bool :=
  match query !! "final" with
  | None => Some false
  | Some v => if bool_decide (v = "0") then Some false else if bool_decide (v = "1") then Some true else None
  end.

Definition receive_chunk (id : string) (query : gmap string string) (body : list (option (list byte))) (rs : Receptions)
    : Proc (Result ResumableAnswer ApiRefusal * Receptions) :=
  match query !! "offset" ≫= parse_u64 with
  | None => resumable_refused 400 "offset is required" rs
  | Some off =>
      match final_param query with
      | None => resumable_refused 400 "final must be 0 or 1" rs
      | Some final_chunk =>
          match read_limited_body body chunk_size with
          | Err TooLarge => resumable_refused 413 "chunk exceeds configured chunk size" rs
          | Err ReadFailed => resumable_refused 400 "invalid chunk body" rs
          | Ok bytes =>
              receiving (receive_reception_chunk encrypt_chunk sha256_hex data_dir staging_budget parse_uuid id off bytes final_chunk rs)
                ResumableStatus
          end
      end
  end.

Definition resumable_upload_api (method rest : string) (query : gmap string string) (body : list (option (list byte)))
    (rs : Receptions) : Proc (Result ResumableAnswer ApiRefusal * Receptions) :=
  let segments := path_segments rest in
  match segments !! 2%nat ≫= (fun id => if is_some (parse_uuid id) then Some id else None) with
  | None => resumable_refused 404 "resumable upload not found" rs
  | Some id =>
      if bool_decide (method = "GET") && (length segments =? 3)%nat then
        receiving (proc_bind (fun r => Return (r, rs)) (reception_status parse_uuid id rs)) ResumableStatus
      else if bool_decide (method = "DELETE") && (length segments =? 3)%nat then
        receiving (abort_reception data_dir parse_uuid id rs) (fun _ => ResumableAborted)
      else if bool_decide (method = "PATCH") && (length segments =? 3)%nat then receive_chunk id query body rs
      else if bool_decide (method = "POST") && (length segments =? 4)%nat && bool_decide (segments !! 3%nat = Some "complete") then
        receiving (finish_reception sha256_hex encryption_key_id data_dir parse_uuid id rs) ResumableQueued
      else resumable_refused 404 "resumable upload route not found" rs
  end.
End Console.

(** ** Ranges are cut at the end of the object *)

(** What is asked for by the text of a range: from a first byte to a last one,
    from a first byte on, or the last bytes. *)
Inductive asked (len : Z) : string -> Z -> Z -> Prop :=
| asked_between a b first last : parse_u64 a = Some first -> parse_u64 b = Some last -> asked len (a +:+ "-" +:+ b) first (Z.min (last + 1) len)
| asked_from a first : parse_u64 a = Some first -> asked len (a +:+ "-") first len
| asked_last b n : parse_u64 b = Some n -> asked len ("-" +:+ b) (len - Z.min n len) len.

Lemma split_once_some sep s a b : split_once sep s = Some (a, b) -> s = a +:+ String sep b.
Proof.
  revert a. induction s as [|c s IH]; intros a; cbn; [done|]. destruct (Ascii.eqb_spec c sep) as [->|].
  - by intros [= <- <-].
  - destruct (split_once sep s) as [[x y]|]; [|done]. intros [= <- <-]. cbn. by rewrite (IH x).
Qed.

Lemma is_empty_true s : is_empty s = true -> s = EmptyString.
Proof. by destruct s. Qed.

Lemma range_bounds_asked value len start stop : 0 <= len <= U64_MAX -> range_bounds value len = Some (start, stop) ->
  exists text, value = "bytes=" +:+ text /\ asked len text start stop /\ 0 <= start.
Proof.
  intros Hlen. unfold range_bounds. destruct (strip_prefix "bytes=" value) as [text|] eqn:Et; [|done]. cbn [mbind option_bind].
  destruct (split_once DASH text) as [[a b]|] eqn:Es; [|done]. destruct (len =? 0); [done|].
  apply strip_prefix_some in Et. apply split_once_some in Es. intros H. exists text. split; [done|]. subst text.
  change (String DASH b) with ("-" +:+ b). destruct (is_empty a) eqn:Ea.
  - apply is_empty_true in Ea as ->. destruct (parse_u64 b) as [n|] eqn:En; [|done]. cbn in H. injection H as <- <-.
    pose proof (parse_u64_range _ _ En) as Hn. unfold is_u64, u64_saturating_sub in *. rewrite Z.max_l by lia. split; [|lia].
    by apply asked_last.
  - destruct (parse_u64 a) as [first|] eqn:Ef; [|done]. pose proof (parse_u64_range _ _ Ef) as Hf. unfold is_u64 in Hf.
    destruct (is_empty b) eqn:Eb.
    + apply is_empty_true in Eb as ->. injection H as <- <-. split; [by apply asked_from|lia].
    + destruct (parse_u64 b) as [last|] eqn:El; [|done]. cbn in H. injection H as <- <-. split; [|lia].
      replace (Z.min (u64_saturating_add last 1) len) with (Z.min (last + 1) len) by (unfold u64_saturating_add; lia).
      by apply asked_between.
Qed.

Lemma content_range_within range len start stop text : is_u64 len ->
  parse_content_range range len = Ok ((start, stop), text) -> 0 <= start <= stop /\ stop <= len.
Proof.
  unfold is_u64. intros Hlen. unfold parse_content_range. destruct range as [value|]; [|intros [= <- <- _]; lia].
  destruct (range_bounds value len) as [[a b]|] eqn:E; [|done].
  apply range_bounds_asked in E as (x & _ & Hasked & Ha); [|done]. destruct (_ || _) eqn:Eo; [done|]. intros [= <- <- _].
  bool_hyps. split; [lia|]. destruct Hasked; lia.
Qed.

Section Served.
Context {W : Type} (answer : forall B, Io B -> W -> B * W) (t0 : OffsetDateTime).
Context (Hclock : forall w, t0 <= now_utc_at (answer Env Ambient w).1 0).
Context (header_ok : string -> bool).

Lemma demand_ok {A} (r : Result A (Z * string)) (w : W) db a w' db' :
  interp answer (demand r) w db = (Ok a, w', db') -> r = Ok a /\ w' = w /\ db' = db.
Proof. destruct r; [|done]. by intros [= <- <- <-]. Qed.

End Served.

(** ** Files of the console stay in their directory *)

(** Where a path leads, step by step from the root or the working directory. *)
Fixpoint resolve_path (at_ : list string) (cs : list Component) : list string :=
  match cs with
  | [] => at_
  | RootDir :: cs => resolve_path [] cs
  | CurDir :: cs => resolve_path at_ cs
  | ParentDir :: cs => resolve_path (removelast at_) cs
  | Normal name :: cs => resolve_path (at_ ++ [name]) cs
  end.

(** The path leads into the directory. *)
Definition inside (dir path : string) : Prop :=
  exists names, resolve_path [] (components path) = resolve_path [] (components dir) ++ names.

Lemma path_segments_slash a b : path_segments (a +:+ "/" +:+ b) = path_segments a ++ path_segments b.
Proof.
  induction a as [|c a IH]; [done|]. change (String c a +:+ "/" +:+ b) with (String c (a +:+ "/" +:+ b)). cbn [path_segments].
  destruct (is_byte 47 c); [by rewrite IH|]. rewrite IH.
  assert (exists seg segs, path_segments a = seg :: segs) as (seg & segs & ->); [|done].
  clear. induction a as [|c a (seg & segs & IH)]; [by eexists _, _|]. cbn. rewrite IH. destruct (is_byte 47 c); by eexists _, _.
Qed.

Lemma components_slash a b : a <> EmptyString ->
  components (a +:+ "/" +:+ b) = components a ++ omap component_of (path_segments b).
Proof.
  intros Ha. destruct a as [|c a]; [done|]. unfold components. change (String c a +:+ "/" +:+ b) with (String c (a +:+ "/" +:+ b)) at 1.
  cbv iota. rewrite path_segments_slash, omap_app. destruct (is_byte 47 c); [done|].
  assert (exists seg segs, path_segments (String c a) = seg :: segs) as (seg & segs & E).
  { cbn. destruct (is_byte 47 c); [by eexists _, _|]. destruct (path_segments a); by eexists _, _. }
  rewrite E. cbn [app head]. by case_bool_decide.
Qed.

Lemma resolve_app at_ l1 l2 : resolve_path at_ (l1 ++ l2) = resolve_path (resolve_path at_ l1) l2.
Proof. revert at_. induction l1 as [|[] l1 IH]; intros at_; cbn; auto. Qed.

Lemma resolve_safe at_ l : existsb unsafe_component l = false -> exists names, resolve_path at_ l = at_ ++ names.
Proof.
  revert at_. induction l as [|[| | |name] l IH]; intros at_; cbn; [intros _; exists []; by rewrite app_nil_r|done|apply IH|done|].
  intros H. destruct (IH (at_ ++ [name]) H) as [names E]. exists (name :: names). by rewrite E, <- app_assoc.
Qed.

Lemma named_safe b : existsb unsafe_component (components b) = false ->
  existsb unsafe_component (omap component_of (path_segments b)) = false.
Proof.
  unfold components. destruct b as [|c b]; [done|]. destruct (is_byte 47 c); [done|]. by case_bool_decide.
Qed.

Lemma inside_slash dir b : dir <> EmptyString -> existsb unsafe_component (components b) = false -> inside dir (dir +:+ "/" +:+ b).
Proof.
  intros Hd Hb. unfold inside. rewrite components_slash, resolve_app by done. apply resolve_safe. by apply named_safe.
Qed.

Lemma inside_trans a b c : inside a b -> inside b c -> inside a c.
Proof. intros [n1 H1] [n2 H2]. exists (n1 ++ n2). by rewrite H2, H1, app_assoc. Qed.

Lemma ends_assets dir : ends_with_slash (join dir "assets") = false /\ is_empty (join dir "assets") = false.
Proof.
  unfold join. split; [|by destruct dir]. induction dir as [|c dir IH]; [done|].
  change (String c dir +:+ "/" +:+ "assets") with (String c (dir +:+ "/" +:+ "assets")). cbn [ends_with_slash].
  destruct (dir +:+ "/" +:+ "assets") eqn:E; [by destruct dir|exact IH].
Qed.

Lemma safe_join_inside dir relative file : dir <> EmptyString -> safe_join (join dir "assets") relative = Some file -> inside dir file.
Proof.
  intros Hd. unfold safe_join. destruct (existsb _ _) eqn:E; [done|]. destruct (ends_assets dir) as [-> ->]. cbn [orb].
  intros [= <-]. apply (inside_trans _ (join dir "assets")); [by apply inside_slash|]. apply inside_slash; [|done].
  by destruct (join dir "assets") eqn:Ej; [destruct dir|].
Qed.

(** C28: The console serves no file outside of its directory: whatever the path
    of a request is, the answer to it only depends on files that lie inside,
    wherever [..] and slashes in the path seem to lead. *)
Theorem static_files_confined read read' dir method path (Hdir : dir <> EmptyString)
    (Hsame : forall file, inside dir file -> read file = read' file) :
  handle_static read dir method path = handle_static read' dir method path.
Proof.
  unfold handle_static. destruct (negb _); [done|]. destruct (strip_prefix _ path) as [asset|].
  - destruct (safe_join _ asset) as [file|] eqn:E; [|done]. apply safe_join_inside in E; [|done].
    unfold read_static_file. by rewrite Hsame.
  - unfold read_static_file. rewrite Hsame; [done|]. by apply inside_slash.
Qed.

(** ** Bodies are collected or refused *)

(** The body of a chunk is all of its frames, and never larger than the limit. *)
Theorem limited_body_exact frames limit bytes (H : read_limited_body frames limit = Ok bytes) :
  map Some (map (default []) frames) = frames /\ bytes = concat (map (default []) frames) /\
  (0 <= limit -> Z.of_nat (length bytes) <= limit).
Proof.
  assert (forall collected, limited_body frames limit collected = Ok bytes ->
    map Some (map (default []) frames) = frames /\ bytes = collected ++ concat (map (default []) frames) /\
    (Z.of_nat (length collected) <= limit -> Z.of_nat (length bytes) <= limit)) as Hgen.
  { clear H. induction frames as [|[frame|] frames IH]; intros collected H; cbn in *.
    - injection H as <-. by rewrite app_nil_r.
    - destruct (Z.ltb_spec limit (Z.of_nat (length collected) + Z.of_nat (length frame))); [done|].
      destruct (IH _ H) as (H1 & H2 & H3). split_and!; [by rewrite H1|by rewrite H2, <- app_assoc|].
      intros _. apply H3. rewrite length_app. lia.
    - done. }
  destruct (Hgen [] H) as (H1 & H2 & H3). split_and!; [done|done|]. intros Hl. apply H3. cbn. lia.
Qed.

(** ** Witnesses *)

Definition two_params : gmap string string := <["bucket" := "b"]> {["key" := "k"]}.

Definition part_of_k : ContentAnswer :=
  match (toy_serve (handle_content (fun _ => true) two_params (Some "bytes=2-99") false) stocked).1.1 with
  | Ok a => a
  | Err _ => {| ca_status := 0; ca_content_length := 0; ca_content_type := ""; ca_etag := ""; ca_disposition := "";
                ca_content_range := None; ca_body := None |}
  end.


Lemma static_files_confined_witness :
  let read file := if bool_decide (file = "ui/assets/a.js") then Ok (Some []) else Ok None in
  let read' file := if bool_decide (file = "/etc/passwd") then Ok (Some []) else read file in
  handle_static read "ui" "GET" "/_admin/assets/a.js" = handle_static read' "ui" "GET" "/_admin/assets/a.js".
Proof.
  intros read read'. apply static_files_confined; [discriminate|]. intros file Hin. unfold read'. case_bool_decide as Hf; [|reflexivity].
  exfalso. subst file. destruct Hin as [names Hn]. vm_compute in Hn. discriminate Hn.
Defined.
