(* ===== verification/Operations.v ===== *)
(** * Jobs, accounts and maintenance of the administration API ([src/src/admin.rs], [admin/phase10.rs])

    The handlers for transfer jobs, buckets, Telegram accounts, replication and
    re-chunk requests, the connection settings, the removal of the connection
    and the acknowledgement of recovery issues.  Replacing the transport after
    the settings of the active account changed is left to the caller
    ([Transport]): an answer says whether it was asked for.

    The theorems: the removal of the connection starts only with the phone
    number of the account; after an acknowledgement exactly the issues that are
    still reported and were acknowledged, now or before, are acknowledged.  Two
    more show defects: a proxy cannot be taken off an account, and saving the
    connection settings forgets where the session is. *)

From stdpp Require Import pretty.
From S2P Require Import Prelude Errors Config Auth Admin Manifest Schema Cleanup Transfers TransferSafety.
From S2P Require Import ManifestStore ManifestSafety IndexSafety MultipartStore Buckets ConnectionRemoval System Catalog.
From S2P Require Import Requests Listing Settings Chunks Streaming Attempts Programs Publish Reception Completion.
From S2P Require Import Accounts Rechunk Replication CleanupWorker Shares S3Api Guarantees Recovery Browser Moves Proxy Console.

(** ** Jobs ([job_api]) *)

Record UploadWire : Type := {
  uw_upload_id : Uuid;
  uw_bucket : string;
  uw_key : string;
  uw_state : string;
  uw_parts_done : Z;
  uw_parts_total : Z;
  uw_updated_at : Z
}.

Inductive JobAnswer : Type :=
| Uploads (uploads : list UploadWire)
| Jobs (jobs : list TransferJob) (limit offset : Z) (next_offset : option Z)
| Job (job : TransferJob)
| ActionDone.

Definition upload_wire (session : MultipartSession) : ApiTask UploadWire :=
  progress ← or_deny (call (multipart_part_progress (ms_upload_id session))) (fun _ => (500, "multipart progress unavailable"));
  activity ← or_deny (call (multipart_activity_state (ms_upload_id session))) (fun _ => (500, "multipart activity unavailable"));
  mret {| uw_upload_id := ms_upload_id session; uw_bucket := ms_bucket session; uw_key := ms_key session;
          uw_state := default (MultipartState.as_str (ms_state session)) activity;
          uw_parts_done := progress.2; uw_parts_total := progress.1; uw_updated_at := unix_timestamp (ms_updated_at session) |}.

Fixpoint upload_wires (sessions : list MultipartSession) : ApiTask (list UploadWire) :=
  match sessions with
  | [] => mret []
  | s :: sessions => w ← upload_wire s; ws ← upload_wires sessions; mret (w :: ws)
  end.

(** [clamp] *)
Definition clamp (lo hi n : Z) : Z := Z.min hi (Z.max lo n).

Definition list_jobs (query : gmap string string) : ApiTask JobAnswer :=
  let limit := clamp 1 100 (default 50 (query !! "limit" ≫= str_parse_u32)) in
  let offset := default 0 (query !! "offset" ≫= str_parse_u32) in
  jobs ← or_deny (call (transfers limit offset)) (fun _ => (500, "job store unavailable"));
  mret (Jobs jobs limit offset
          (if Z.of_nat (length jobs) =? limit then Some (Z.min (offset + limit) U32_MAX) else None)).

Section Operations.
Context (parse_uuid : string -> option string).

Definition job_api (method rest : string) (query : gmap string string) : ApiTask JobAnswer :=
  if bool_decide (rest = "multipart") && bool_decide (method = "GET") then
    let bkt := default EmptyString (query !! "bucket") in
    if is_empty bkt then deny 400 "bucket is required"
    else
      sessions ← or_deny (call (list_multipart_sessions (Some bkt) (query !! "prefix"))) (fun _ => (500, "multipart store unavailable"));
      uploads ← upload_wires sessions;
      mret (Uploads uploads)
  else if bool_decide (rest = "jobs") && bool_decide (method = "GET") then list_jobs query
  else
    let segments := path_segments rest in
    match segments !! 1%nat ≫= (fun id => if is_some (parse_uuid id) then Some id else None) with
    | None => deny 404 "job not found"
    | Some id =>
        if bool_decide (method = "GET") && (length segments =? 2)%nat then
          job ← or_deny (call (transfer id)) (fun _ => (500, "job store unavailable"));
          match job with Some job => mret (Job job) | None => deny 404 "job not found" end
        else if bool_decide (method = "POST") && (length segments =? 3)%nat then
          done_ ← or_deny (E ← perform Ambient; call (transfer_action E id (default EmptyString (segments !! 2%nat))))
                    (fun _ => (500, "job update failed"));
          if (done_ : bool) then mret ActionDone
          else deny 409 "action unavailable in this job state; active publication must finish"
        else deny 404 "route not found"
    end.

(** ** Buckets *)

Definition bucket_error_response (e : ObjectFormatError.t) : Z * string :=
  match e with
  | ObjectFormatError.Metadata (BucketAlreadyExists name) => (409, "bucket already exists: " +:+ name)
  | ObjectFormatError.Metadata (BucketNotFound name) => (404, "bucket not found: " +:+ name)
  | ObjectFormatError.Metadata (BucketNotEmpty name) => (409, "bucket not empty: " +:+ name)
  | ObjectFormatError.Metadata (InvalidManifest message)
  | ObjectFormatError.InvalidPlan message
  | ObjectFormatError.InvalidBucketName message => (400, message)
  | _ => internal_error e
  end.

Context (parse_rfc3339 : string -> option OffsetDateTime) (format_rfc3339 : OffsetDateTime -> Result string string).
Context (trim : string -> string).

Definition handle_create_bucket (name : option string) : ApiTask BucketEntryWire :=
  match name with
  | None => deny 400 "invalid bucket payload"
  | Some name =>
      let bkt := trim name in
      if is_empty bkt then deny 400 "bucket name is required"
      else
        created ← or_deny (service_create_bucket parse_rfc3339 bkt) bucket_error_response;
        mret {| be_name := b_name created; be_created_at := rfc3339 format_rfc3339 (b_created_at created);
                be_replica_accounts := 0; be_access_accounts := 0; be_replica_chunk_size_mismatch := false |}
  end.

(** [decode]: [urlencoding::decode]. *)
Definition handle_delete_bucket (decode : string -> option string) (encoded : string) : ApiTask unit :=
  match decode encoded with
  | None => deny 400 "invalid bucket name"
  | Some bkt =>
      if is_empty bkt then deny 400 "bucket name is required"
      else or_deny (service_delete_bucket bkt) bucket_error_response
  end.

(** ** Accounts *)

(** [PeerId::from_bot_api_dialog_id] *)
Context (dialog_id : Z -> option Z).
Context `{BootstrapJson}.

Record AccountRequest : Type := {
  ar_id : option string;
  ar_label : string;
  ar_phone : option string;
  ar_api_id : option string;
  ar_api_hash : option string;
  ar_session_path : option string;
  ar_storage_chat_id : option string;
  ar_proxy_url : option string;
  ar_proxy_username : option string;
  ar_proxy_password : option string;
  ar_proxy_mode : option string;
  ar_download_enabled : option bool;
  ar_quota_bytes : option (option Z)
}.

(** [clean_required] and [clean_optional] *)
Definition clean (value : option string) : option string := non_empty (trim <$> value).

(** What is asked for, or else what the account has. *)
Definition merged_settings (q : AccountRequest) (existing : option TelegramBootstrapSettings) (chat : string) : TelegramBootstrapSettings :=
  let old f := existing ≫= f in
  {| tb_api_id := option_or (clean (ar_api_id q)) (old tb_api_id);
     tb_api_hash := option_or (clean (ar_api_hash q)) (old tb_api_hash);
     tb_session_path := option_or (clean (ar_session_path q)) (old tb_session_path);
     tb_storage_chat_id := Some chat;
     tb_proxy_url := option_or (clean (ar_proxy_url q)) (old tb_proxy_url);
     tb_proxy_username := option_or (clean (ar_proxy_username q)) (old tb_proxy_username);
     tb_proxy_password := option_or (clean (ar_proxy_password q)) (old tb_proxy_password);
     tb_proxy_mode := option_or (clean (ar_proxy_mode q)) (old tb_proxy_mode) |}.

Definition config_result {A} (r : Result A ConfigError.t) : ApiTask A :=
  demand (match r with Ok a => Ok a | Err e => Err (400, ConfigError.to_string e) end).

(** [list_telegram_accounts] and the other lists are answered as they are. *)
Definition handle_list_accounts : ApiTask (list AccountRecord) := or_deny (call list_telegram_accounts) internal_error.

(** The account, and whether the transport of the process is to be replaced. *)
Definition handle_save_account (body : option AccountRequest) : ApiTask (AccountRecord * bool) :=
  match body with
  | None => deny 400 "invalid account payload"
  | Some q =>
      existing ← (match ar_id q with
                  | Some id => or_deny (call (telegram_account id)) internal_error
                  | None => mret None
                  end : ApiTask (option (AccountRecord * TelegramBootstrapSettings)));
      let old := snd <$> existing in
      chat ← config_result (normalize_telegram_storage_chat_id dialog_id (option_or (ar_storage_chat_id q) (old ≫= tb_storage_chat_id)));
      let settings := merged_settings q old chat in
      config_result (validate_telegram_bootstrap_settings dialog_id settings) ;;
      if trim_is_empty (ar_label q) || (120 <? Z.of_nat (String.length (ar_label q))) then
        deny 400 "account label must be 1-120 characters"
      else if match ar_quota_bytes q with Some (Some n) => I64_MAX <? n | _ => false end then
        deny 400 "account quota is too large"
      else
        account ← or_deny (E ← perform Ambient;
                           call (upsert_telegram_account trim E (ar_id q) (trim (ar_label q)) settings
                                   (option_or (ar_phone q) (existing ≫= (fun e => ac_phone e.1))) (ar_download_enabled q)
                                   (ar_quota_bytes q))) internal_error;
        active ← or_else (call active_connection_setting) None;
        if bool_decide (active = Some (ac_id account)) then
          or_deny (E ← perform Ambient; call (set_telegram_bootstrap_settings E settings)) internal_error ;;
          mret (account, true)
        else mret (account, false)
  end.

Definition handle_delete_account (id : string) : ApiTask unit :=
  deleted ← or_deny (call (delete_telegram_account id)) (fun e => (409, ObjectFormatError.to_string e));
  if (deleted : bool) then mret tt else deny 404 "account not found".

(** ** Replication and re-chunk requests *)

Record ReplicationRequest : Type := {
  rq_source_account_id : string;
  rq_target_account_id : string;
  rq_bucket : string;
  rq_keys : list string;
  rq_mode : string;
  rq_access_mode : string
}.

Definition handle_queue_replication (body : option ReplicationRequest) : ApiTask ReplicationRow :=
  match body with
  | None => deny 400 "invalid replication payload"
  | Some q =>
      if trim_is_empty (rq_bucket q) then deny 400 "bucket is required"
      else
        let keys := List.filter (fun k => negb (is_empty k)) (map trim (rq_keys q)) in
        if 1024 <? Z.of_nat (length keys) then deny 400 "at most 1024 object keys may be selected"
        else
          or_deny (E ← perform Ambient;
                   call (queue_replication E (rq_source_account_id q) (rq_target_account_id q) (trim (rq_bucket q)) keys
                           (rq_mode q) (rq_access_mode q)))
            (fun e => (400, ObjectFormatError.to_string e))
  end.

Record RechunkRequest : Type := {
  kq_bucket : string;
  kq_keys : list string;
  kq_new_chunk_size : Z;
  kq_apply_to_replicas : bool
}.

Fixpoint queue_rechunks (q : RechunkRequest) (keys : list string) : ApiTask (list RechunkRow) :=
  match keys with
  | [] => mret []
  | k :: keys =>
      job ← or_deny (E ← perform Ambient; call (queue_rechunk E (kq_bucket q) k (kq_new_chunk_size q) (kq_apply_to_replicas q)))
              (fun e => (409, ObjectFormatError.to_string e));
      jobs ← queue_rechunks q keys;
      mret (job :: jobs)
  end.

Definition handle_queue_rechunk (body : option RechunkRequest) : ApiTask (list RechunkRow) :=
  match body with
  | None => deny 400 "invalid re-chunk payload"
  | Some q =>
      config_result (validate_chunk_size (kq_new_chunk_size q)) ;;
      let keys := List.filter (fun k => negb (trim_is_empty k)) (kq_keys q) in
      if (length keys =? 0)%nat then deny 400 "at least one object must be selected"
      else queue_rechunks q keys
  end.

(** ** The connection *)

Record TelegramSettingsRequest : Type := {
  sq_api_id : option string;
  sq_api_hash : option string;
  sq_storage_chat_id : option string;
  sq_proxy_url : option string;
  sq_proxy_username : option string;
  sq_proxy_password : option string;
  sq_proxy_mode : option string
}.

Definition next_settings (q : TelegramSettingsRequest) (current : TelegramBootstrapSettings) : TelegramBootstrapSettings :=
  {| tb_api_id := option_or (clean (sq_api_id q)) (tb_api_id current);
     tb_api_hash := option_or (clean (sq_api_hash q)) (tb_api_hash current);
     tb_session_path := None;
     tb_storage_chat_id := option_or (clean (sq_storage_chat_id q)) (tb_storage_chat_id current);
     tb_proxy_url := clean (sq_proxy_url q);
     tb_proxy_username := clean (sq_proxy_username q);
     tb_proxy_password := clean (sq_proxy_password q);
     tb_proxy_mode := option_or (option_or (clean (sq_proxy_mode q)) (tb_proxy_mode current)) (Some "auto") |}.

Definition no_settings : TelegramBootstrapSettings :=
  {| tb_api_id := None; tb_api_hash := None; tb_session_path := None; tb_storage_chat_id := None; tb_proxy_url := None;
     tb_proxy_username := None; tb_proxy_password := None; tb_proxy_mode := None |}.

(** [is_none_or(str::is_empty)] *)
Definition blank (o : option string) : bool := match o with Some s => is_empty s | None => true end.

Definition with_chat (chat : string) (s : TelegramBootstrapSettings) : TelegramBootstrapSettings :=
  {| tb_api_id := tb_api_id s; tb_api_hash := tb_api_hash s; tb_session_path := tb_session_path s; tb_storage_chat_id := Some chat;
     tb_proxy_url := tb_proxy_url s; tb_proxy_username := tb_proxy_username s; tb_proxy_password := tb_proxy_password s;
     tb_proxy_mode := tb_proxy_mode s |}.

(** The settings that were stored; the service then uses their storage chat and
    refreshes its transport. *)
Definition telegram_save_settings (body : option TelegramSettingsRequest) : ApiTask TelegramBootstrapSettings :=
  match body with
  | None => deny 400 "invalid telegram settings payload"
  | Some q =>
      stored ← or_else (call telegram_bootstrap_settings) None;
      let next := next_settings q (default no_settings stored) in
      if blank (tb_api_id next) || blank (tb_api_hash next) || blank (tb_storage_chat_id next) then
        deny 400 "telegram api id, api hash, and storage chat id are required"
      else
        config_result (validate_telegram_bootstrap_settings dialog_id next) ;;
        chat ← config_result (normalize_telegram_storage_chat_id dialog_id (tb_storage_chat_id next));
        let next := with_chat chat next in
        or_deny (E ← perform Ambient; call (set_telegram_bootstrap_settings E next)) internal_error ;;
        mret next
  end.

Record TelegramDisconnectRequest : Type := { td_delete_uploaded_files : bool; td_phone_confirmation : string }.

Definition telegram_disconnect (body : option TelegramDisconnectRequest) : ApiTask ConnectionRemovalJob :=
  match body with
  | None => deny 400 "invalid connection removal payload"
  | Some q =>
      if trim_is_empty (td_phone_confirmation q) then deny 400 "enter the phone number linked to this Telegram account"
      else
        matches_ ← or_deny (call (telegram_account_phone_matches (td_phone_confirmation q))) internal_error;
        if negb matches_ then deny 403 "the phone number does not match the connected Telegram account"
        else
          or_deny (E ← perform Ambient; call (begin_connection_removal E (td_delete_uploaded_files q)))
            (fun e => match e with
                      | ObjectFormatError.Metadata ConnectionRemovalInProgress => (409, "a connection removal is already in progress")
                      | _ => internal_error e
                      end)
  end.
End Operations.

(** ** Acknowledging recovery issues *)

Record RecoveryAck : Type := { ra_at : string; ra_by : string }.

(** [serde_json] of the acknowledgements. *)
Class AckJson := {
  acks_to_json : gmap string RecoveryAck -> string;
  acks_from_json : string -> Result (gmap string RecoveryAck) string;
  acks_round_trip acks : acks_from_json (acks_to_json acks) = Ok acks
}.

Definition ACKNOWLEDGED_SETTING : string := "recovery_acknowledged".

Section Acknowledgements.
Context `{AckJson} (format_rfc3339 : OffsetDateTime -> Result string string).

Definition recovery_acknowledgements : M (gmap string RecoveryAck) :=
  json ← read_text_setting ACKNOWLEDGED_SETTING;
  match json with
  | None => mret ∅
  | Some json => match acks_from_json json with Ok acks => mret acks | Err e => throw (Serde e) end
  end.

Definition set_recovery_acknowledgements (acks : gmap string RecoveryAck) : M unit :=
  set_text_setting ACKNOWLEDGED_SETTING (acks_to_json acks).

(** The acknowledgements after a request for [ids], of the issues [live]. *)
Definition acknowledged (acknowledge : bool) (ids : list string) (live : gset string) (ack : RecoveryAck)
    (acks : gmap string RecoveryAck) : gmap string RecoveryAck :=
  let acks := filter (fun e => e.1 ∈ live) acks in
  if acknowledge then foldl (fun acks id => <[id := ack]> acks) acks ids
  else foldl (fun acks id => delete id acks) acks ids.

(** [live]: the fingerprints of the last scan. *)
Definition handle_recovery_acknowledge (ids : option (list string)) (live : gset string) (username : string) (acknowledge : bool)
    : ApiTask (Z * Z) :=
  match ids with
  | None => deny 400 "invalid acknowledgement payload"
  | Some [] => deny 400 "at least one issue id is required"
  | Some ids =>
      match List.find (fun id => negb (bool_decide (id ∈ live))) ids with
      | Some unknown => deny 404 ("unknown recovery issue id " +:+ unknown)
      | None =>
          acks ← or_deny (call recovery_acknowledgements) internal_error;
          Perform Ambient (fun E =>
            let ack := {| ra_at := rfc3339 format_rfc3339 (now_utc_at E 0); ra_by := username |} in
            let acks := acknowledged acknowledge ids live ack acks in
            or_deny (call (set_recovery_acknowledgements acks)) internal_error ;;
            Return (Ok (Z.of_nat (base.size acks),
                        Z.max (Z.of_nat (base.size live) - Z.of_nat (base.size acks)) 0)))
      end
  end.

Lemma acknowledged_lookup acknowledge ids live ack acks id : (forall i, i ∈ ids -> i ∈ live) ->
  acknowledged acknowledge ids live ack acks !! id =
  if bool_decide (id ∈ ids) then (if acknowledge then Some ack else None)
  else if bool_decide (id ∈ live) then acks !! id else None.
Proof.
  intros Hlive. unfold acknowledged.
  assert (filter (fun e : string * RecoveryAck => e.1 ∈ live) acks !! id = if bool_decide (id ∈ live) then acks !! id else None) as Hf.
  { case_bool_decide as Hl.
    - destruct (acks !! id) as [a|] eqn:E; [by apply map_lookup_filter_Some_2|]. apply map_lookup_filter_None_2. by left.
    - apply map_lookup_filter_None_2. by right. }
  revert Hf. generalize (filter (fun e : string * RecoveryAck => e.1 ∈ live) acks). clear Hlive.
  intros m Hm. rewrite <- Hm. clear Hm. revert m. destruct acknowledge.
  - induction ids as [|i ids IH]; intros m; [done|]. cbn [foldl]. rewrite IH.
    destruct (decide (id = i)) as [->|Hne].
    + rewrite (bool_decide_eq_true_2 (i ∈ i :: ids)) by (by left). case_bool_decide; [done|]. by rewrite lookup_insert_eq.
    + rewrite lookup_insert_ne by congruence. do 2 case_bool_decide; set_solver.
  - induction ids as [|i ids IH]; intros m; [done|]. cbn [foldl]. rewrite IH.
    destruct (decide (id = i)) as [->|Hne].
    + rewrite (bool_decide_eq_true_2 (i ∈ i :: ids)) by (by left). case_bool_decide; [done|]. by rewrite lookup_delete_eq.
    + rewrite lookup_delete_ne by congruence. do 2 case_bool_decide; set_solver.
Qed.
(** After an issue was acknowledged, or taken back, exactly those are: the ones
    named now, and those that were before and that the last scan still reports;
    the answer counts them. *)
Theorem acknowledgements_exact {W} (answer : forall B, Io B -> W -> B * W) ids live username acknowledge w db n u w' db' old
    (Hold : recovery_acknowledgements db = (Ok old, db))
    (Hrun : interp answer (handle_recovery_acknowledge (Some ids) live username acknowledge) w db = (Ok (n, u), w', db')) :
  exists acks, recovery_acknowledgements db' = (Ok acks, db') /\ n = Z.of_nat (base.size acks) /\
    (forall id, id ∈ ids -> id ∈ live /\ is_some (acks !! id) = acknowledge) /\
    (forall id, id ∉ ids -> acks !! id = if bool_decide (id ∈ live) then old !! id else None).
Proof.
  unfold handle_recovery_acknowledge in Hrun. destruct ids as [|i ids']; [done|]. set (ids := i :: ids') in *.
  destruct (List.find _ ids) as [x|] eqn:Ef; [done|].
  assert (forall id, id ∈ ids -> id ∈ live) as Hlive.
  { intros id Hid%list_elem_of_In. pose proof (find_none _ _ Ef id Hid) as Hn. cbn in Hn. by case_bool_decide. }
  apply api_ok in Hrun as (acks0 & w1 & d1 & H1 & Hrun). apply or_deny_ok, interp_call in H1 as [H1 ->]. rewrite Hold in H1. injection H1 as <- <-.
  cbn in Hrun. pose proof (f_equal snd Hrun) as Hdb. apply (f_equal (fun r => r.1.1)) in Hrun. cbn in Hdb, Hrun.
  assert (forall (a b c d : Z), @Ok (Z * Z) ApiRefusal (a, b) = Ok (c, d) -> c = a) as Hinj by (by intros * [=]).
  apply Hinj in Hrun as ->. subst db'.
  set (acks := acknowledged acknowledge ids live _ old).
  exists acks. split_and!.
  - unfold recovery_acknowledgements, read_text_setting, mbind, M_bind, query. cbn. rewrite lookup_insert_eq. by rewrite acks_round_trip.
  - done.
  - intros id Hid. split; [by apply Hlive|]. unfold acks. rewrite acknowledged_lookup by done.
    rewrite bool_decide_eq_true_2 by done. by destruct acknowledge.
  - intros id Hid. unfold acks. rewrite acknowledged_lookup by done. by rewrite bool_decide_eq_false_2.
Qed.
End Acknowledgements.

(** ** The connection is not removed by mistake *)

(** A removal begins only when the phone number that was entered is the one of
    the account; otherwise nothing changes. *)
Theorem removal_needs_phone {W} (answer : forall B, Io B -> W -> B * W) q w db
    (Hphone : (telegram_account_phone_matches (td_phone_confirmation q) db).1 <> Ok true) :
  exists e, (interp answer (telegram_disconnect (Some q)) w db).1.1 = Err e /\ (interp answer (telegram_disconnect (Some q)) w db).2 = db.
Proof.
  unfold telegram_disconnect. destruct (trim_is_empty _); [by eexists|].
  unfold telegram_account_phone_matches, telegram_account_phone, read_text_setting, query, mbind, M_bind, mret, M_ret in *. cbn in *.
  destruct (app_settings db !! TELEGRAM_ACCOUNT_PHONE_SETTING) as [v|]; cbn in *; [|by eexists].
  case_bool_decide; [done|]. by eexists.
Qed.

(** ** Recorded defects *)

(** A request cannot take the proxy off an account: a field that is empty or
    left out means the one the account has. *)
Theorem account_proxy_stays trim q old chat (Hq : clean trim (ar_proxy_url q) = None) :
  tb_proxy_url (merged_settings trim q (Some old) chat) = tb_proxy_url old.
Proof. unfold merged_settings. cbn. by rewrite Hq. Qed.

Lemma account_proxy_stays_witness : clean id (Some "") = None.
Proof. reflexivity. Qed.

(** The settings that are saved name no session file, whichever one was used. *)
Theorem saving_forgets_session trim q current : tb_session_path (next_settings trim q current) = None.
Proof. reflexivity. Qed.
