(* ===== verification/Workers.v ===== *)
(** * The background workers ([src/src/object_format/workflow.rs], [metadata/connection_removal.rs])

    The service runs five loops.  What they do with the job they claimed is in
    [Publish], [Replication], [Rechunk] and [CleanupWorker]; here is one pass of
    the loops around that, with what only they do: the end of a connection
    removal and the import of what older releases staged.  (The fifth repeats the
    scan of [Recovery].)  A pass
    returns how long the loop sleeps before the next one, in milliseconds; an
    error never ends a loop.

    The theorems: a removal that was asked to delete the uploaded files keeps
    its connection, and with it the means to delete them, until the last message
    is gone; once nothing is left to delete the removal completes and nothing of
    the connection remains; after an import that succeeds every staged object is
    queued or marked.  Defects: an account that replication jobs refer to stays
    registered; a full staging area makes the import give an object up. *)

From stdpp Require Import pretty.
From S2P Require Import Prelude Errors Config Auth Admin Manifest Schema Cleanup Transfers TransferSafety.
From S2P Require Import ManifestStore ManifestSafety IndexSafety MultipartStore Buckets ConnectionRemoval System Catalog.
From S2P Require Import Requests Listing Settings Chunks Streaming Attempts Programs Publish Reception Completion.
From S2P Require Import Accounts Rechunk Replication CleanupWorker Shares S3Api Guarantees Recovery Reconcile Browser Moves.

(** ** Following a removal *)

Definition connection_removal_row (r : RemovalJobRow) : ConnectionRemovalJob :=
  {| cr_id := rj_id r; cr_connection_id := rj_connection_id r; cr_delete_uploaded_files := rj_delete_uploaded_files r;
     cr_state := rj_state r; cr_object_count := rj_object_count r; cr_requested_at := rj_requested_at r;
     cr_updated_at := rj_updated_at r; cr_completed_at := rj_completed_at r; cr_error := rj_error r |}.

(** [ORDER BY CASE WHEN state IN ('pending','running') THEN 0 ELSE 1 END, requested_at] *)
Definition removal_rank (r : RemovalJobRow) : Z :=
  if one_of (rj_state r) [RemovalState.Pending; RemovalState.Running] then 0 else 1.

Definition removal_le (a b : RemovalJobRow) : Prop :=
  ((removal_rank a <? removal_rank b)
   || ((removal_rank a =? removal_rank b) && (rj_requested_at a <=? rj_requested_at b))) = true.

#[export] Instance removal_le_dec : RelDecision removal_le.
Proof. intros a b. unfold removal_le. apply _. Defined.

Definition connection_removal_job : M (option ConnectionRemovalJob) := query (fun db =>
  connection_removal_row <$> sql_first (merge_sort removal_le
    (sql_where (fun r => negb (one_of (rj_state r) [RemovalState.Completed])) (connection_removal_jobs db)))).

Definition text_order (a b : string) : Prop := text_le a b = true.

#[export] Instance text_order_dec : RelDecision text_order.
Proof. intros a b. unfold text_order. apply _. Defined.

(** [connection_removal_objects] *)
Definition removal_object_ids (job : string) : M (list string) := query (fun db =>
  merge_sort text_order (map ro_object_id
    (sql_where (fun o => bool_decide (ro_job_id o = job)) (connection_removal_objects db)))).

Section Removal.
Context `{BootstrapJson} (parse_uuid : string -> option string) (data_dir : string).

Definition detach_connection_if_owned (job : ConnectionRemovalJob) : Task unit :=
  active ← call (read_text_setting ACTIVE_CONNECTION_SETTING);
  active_connection_matches ←
    (match active with
     | Some active => mret (bool_decide (active = cr_connection_id job))
     | None =>
         if bool_decide (cr_connection_id job = "legacy")
         then stored ← call telegram_bootstrap_settings; mret (is_some stored)
         else mret false
     end);
  if active_connection_matches : bool then
    call clear_telegram_bootstrap_settings ;;
    call clear_active_connection_id ;;
    perform (SetStorageChat EmptyString) ;;
    perform Disconnect ;;
    call (delete_telegram_account (cr_connection_id job)) ;;
    perform (ForgetAccount (cr_connection_id job))
  else mret tt.

(** The connection goes, and the operations that were under way with it. *)
Definition release_connection (job : ConnectionRemovalJob) : Task unit :=
  detach_connection_if_owned job ;;
  call (purge_connection_operations (cr_connection_id job)).

Fixpoint remove_object_files (objects : list string) : Task unit :=
  match objects with
  | [] => mret tt
  | obj :: objects =>
      match parse_uuid obj with
      | Some obj =>
          remove_if_present (RemoveFile (manifest_path data_dir obj)) ;;
          remove_if_present (RemoveDirAll (chunk_dir data_dir obj)) ;;
          remove_object_files objects
      | None => remove_object_files objects
      end
  end.

Definition finish_removal (job : ConnectionRemovalJob) (state : RemovalState.t) : Task unit :=
  E ← perform Ambient;
  call (finish_connection_removal E (cr_id job) state None).

Definition finalize_connection_removal : Task unit :=
  job ← call connection_removal_job;
  match job with
  | None => mret tt
  | Some job =>
      match cr_state job with
      | RemovalState.RemoteCleanupPending =>
          pending ← call (connection_removal_cleanup_pending (cr_id job));
          if pending : bool then mret tt
          else release_connection job ;; finish_removal job RemovalState.Completed
      | RemovalState.Completed => mret tt
      | RemovalState.Pending | RemovalState.Running =>
          objects ← call (removal_object_ids (cr_id job));
          remove_object_files objects ;;
          wait ← (if cr_delete_uploaded_files job then call (connection_removal_cleanup_pending (cr_id job)) else mret false);
          if wait : bool then finish_removal job RemovalState.RemoteCleanupPending
          else release_connection job ;; finish_removal job RemovalState.Completed
      end
  end.
End Removal.

(** ** What older releases staged *)

Section LegacyStaging.
Context (decrypt_chunk : Uuid -> Z -> list byte -> Result (list byte) ObjectFormatError.t).
Context (sha256_hex : list byte -> string) (to_vec_pretty : ObjectManifest -> list byte).
Context (parse_uuid : string -> option string) (uuid_error : string -> string).
Context (data_dir : string) (staging_budget : Z).

Definition local_chunks (manifest : ObjectManifest) : list ChunkRef :=
  List.filter (fun c => negb (references_remote_payload c)) (chunks manifest).

(** [chunk.size.saturating_add(16)], summed in a [u64] *)
Definition local_bytes (manifest : ObjectManifest) : Z :=
  sql_sum (fun c => u64_saturating_add (size c) 16) (local_chunks manifest) mod (U64_MAX + 1).

Definition import_staged (manifest : ObjectManifest) : Task unit :=
  known ← call (transfer (object_id manifest));
  if is_some known then mret tt
  else
    journal ← call (list_journal_entries parse_uuid uuid_error);
    match List.find (fun j => bool_decide (je_object_id j = object_id manifest)) journal with
    | None => mret tt
    | Some entry =>
        verified ← settle (verify_staged_chunks decrypt_chunk sha256_hex to_vec_pretty
                             (staging_dir data_dir (je_operation_id entry)) manifest);
        match verified with
        | Err _ =>
            E ← perform Ambient;
            call (update_manifest_state E (object_id manifest) CommitState.RecoveryRequired) ;; mret tt
        | Ok _ =>
            E ← perform Ambient;
            id ← call (begin_transfer E (object_id manifest) (bucket manifest) (key manifest));
            E ← perform Ambient;
            call (reserve_staging E id (local_bytes manifest) staging_budget) ;;
            E ← perform Ambient;
            call (queue_transfer E id (je_operation_id entry) (Z.of_nat (length (local_chunks manifest))))
        end
    end.

Fixpoint import_each (manifests : list ObjectManifest) : Task unit :=
  match manifests with
  | [] => mret tt
  | manifest :: manifests => import_staged manifest ;; import_each manifests
  end.

Definition staging_manifests (manifests : list ObjectManifest) : list ObjectManifest :=
  take 100 (List.filter (fun m => bool_decide (commit_state m = CommitState.Staging)) manifests).

Definition import_legacy_staging : Task unit :=
  manifests ← call list_manifests;
  import_each (staging_manifests manifests).
End LegacyStaging.

(** ** One pass of each loop *)

Section Passes.
Context `{BootstrapJson}.
Context (etag_from_str : string -> option ETagCondition).
Context (parse_uuid : string -> option string) (uuid_error : string -> string).
Context (encrypt_chunk decrypt_chunk : Uuid -> Z -> list byte -> Result (list byte) ObjectFormatError.t).
Context (sha256_hex : list byte -> string) (to_vec_pretty : ObjectManifest -> list byte).
Context (encryption_key_id data_dir : string) (staging_budget : Z).

(** [let _ = ..] *)
Definition quietly {A} (p : Proc A) (k : Proc Z) : Proc Z := proc_bind (fun _ => k) p.

(** A claimed job is carried out and the loop goes on; otherwise it sleeps. *)
Definition pass_claimed {J} (claim : Env -> M (option J)) (run : J -> Proc unit) (idle failed : Z) : Proc Z :=
  Perform Ambient (fun E => Store (claim E) (fun claimed =>
    match claimed with
    | Ok (Some job) => quietly (run job) (Return 0)
    | Ok None => Return idle
    | Err _ => Return failed
    end)).

(** [due]: a minute went by since the last look at the staging area. *)
Definition transfer_pass (due : bool) : Proc Z :=
  quietly (prepare_pass parse_uuid uuid_error data_dir)
    (proc_bind (fun pause =>
       if due then
         quietly (import_legacy_staging decrypt_chunk sha256_hex to_vec_pretty parse_uuid uuid_error data_dir staging_budget)
           (quietly (cleanup_completed_staging parse_uuid data_dir) (Return pause))
       else Return pause)
     (pass_claimed claim_transfer (run_claimed etag_from_str parse_uuid uuid_error decrypt_chunk sha256_hex data_dir) 200 2000)).

Definition replication_pass : Proc Z := pass_claimed claim_replication_job run_replication 500 2000.

(** [fuel]: how often the worker polls the transfer it waits for. *)
Definition rechunk_pass (fuel : nat) : Proc Z :=
  pass_claimed claim_rechunk_job
    (run_rechunk encrypt_chunk decrypt_chunk sha256_hex parse_uuid uuid_error encryption_key_id data_dir staging_budget fuel) 300 2000.

Definition cleanup_pass : Proc Z :=
  let finalize := finalize_connection_removal parse_uuid data_dir in
  quietly (reconcile_cleanup_evidence data_dir)
  (quietly finalize
  (Perform Ambient (fun E => Store (tombstone_expired_active_manifests E (now_utc_at E 0)) (fun _ =>
   Perform Ambient (fun E => Store (claim_cleanup E) (fun claimed =>
     match claimed with
     | Ok (Some target) => quietly (run_cleanup parse_uuid data_dir target) (quietly finalize (Return 0))
     | Ok None =>
         Perform Ambient (fun E => Store (cleanup_wake_delay_secs (now_at E 0)) (fun delay =>
           Return (1000 * match delay with Ok delay => delay | Err _ => 60 end)))
     | Err _ => Return 5000
     end)))))).
End Passes.

(** ** The end of a removal *)

Section RemovalFacts.
Context `{BootstrapJson} (parse_uuid : string -> option string) (data_dir : string).
Context {W : Type} (answer : forall B, Io B -> W -> B * W).

Abbreviation finalize := (finalize_connection_removal parse_uuid data_dir).

(** Files are removed outside of the store. *)
Lemma remove_files_store objects w db : (interp answer (remove_object_files parse_uuid data_dir objects) w db).2 = db.
Proof.
  revert w. induction objects as [|o objects IH]; intros w; [done|]. cbn [remove_object_files].
  destruct (parse_uuid o) as [obj|]; [|apply IH]. unfold remove_if_present.
  cbn. destruct (answer _ _ w) as [[[]|[[|] e]] w1]; cbn; [..|done].
  all: destruct (answer _ _ w1) as [[[]|[[|] e']] w2]; cbn; [apply IH..|done].
Qed.

(** A call whose result is known. *)
Lemma run_call {A B} (m : M A) (f : A -> Task B) w db a d :
  m db = (Ok a, d) -> interp answer (call m ≫= f) w db = interp answer (f a) w d.
Proof. intros Hm. rewrite interp_task. cbn. by rewrite Hm. Qed.

Lemma run_perform {A B} (e : Io A) (f : A -> Task B) w db :
  interp answer (perform e ≫= f) w db = interp answer (f (answer _ e w).1) (answer _ e w).2 db.
Proof. by rewrite interp_task. Qed.

(** As long as messages of the removed objects are to be deleted, the connection
    keeps what is needed to delete them: whatever happens to the files, nothing
    in the store changes but the progress of the removal. *)
Theorem removal_keeps_connection w db job (Hjob : (connection_removal_job db).1 = Ok (Some job))
    (Hasked : cr_state job = RemovalState.RemoteCleanupPending \/ cr_delete_uploaded_files job = true)
    (Hpending : (connection_removal_cleanup_pending (cr_id job) db).1 = Ok true) :
  exists jobs, (interp answer finalize w db).2 = db <| connection_removal_jobs := jobs |>.
Proof.
  assert (db = db <| connection_removal_jobs := connection_removal_jobs db |>) as Hsame by (by destruct db).
  unfold finalize_connection_removal. rewrite (run_call _ _ _ _ (Some job) db) by (by rewrite <- Hjob).
  assert (forall T (f : bool -> Task T) w, interp answer (call (connection_removal_cleanup_pending (cr_id job)) ≫= f) w db =
    interp answer (f true) w db) as Hp by (intros T f w1; apply run_call; by rewrite <- Hpending).
  destruct (cr_state job) eqn:Es; [| |by rewrite Hp; exists (connection_removal_jobs db)|by exists (connection_removal_jobs db)].
  all: destruct Hasked as [?|Hdel]; [done|].
  all: rewrite (run_call _ _ _ _ _ db) by reflexivity; rewrite interp_task.
  all: pose proof (remove_files_store (merge_sort text_order (map ro_object_id
    (sql_where (fun o => bool_decide (ro_job_id o = cr_id job)) (connection_removal_objects db)))) w db) as Hfiles.
  all: destruct (interp answer (remove_object_files _ _ _) w db) as [[[[]|e] w1] d1]; cbn in Hfiles; subst d1;
    [|by exists (connection_removal_jobs db)].
  all: rewrite Hdel, Hp; unfold finish_removal; rewrite run_perform; cbn; eexists; reflexivity.
Qed.

(** Whether the connection of a removal is the one in use. *)
Definition owned (conn : string) (db : Db) : bool :=
  match app_settings db !! ACTIVE_CONNECTION_SETTING with
  | Some active => bool_decide (active = conn)
  | None => bool_decide (conn = "legacy") && is_some (app_settings db !! BOOTSTRAP_SETTING)
  end.

(** The connection can go: its stored settings can be read, and no replication
    job refers to its account. *)
Definition removable (conn : string) (db : Db) : Prop :=
  (forall json, app_settings db !! BOOTSTRAP_SETTING = Some json -> is_ok (from_json json) = true) /\
  (is_Some (telegram_accounts db !! conn) ->
   sql_exists (fun j => bool_decide (rp_source_account_id j = conn) || bool_decide (rp_target_account_id j = conn))
     (replication_jobs db) = false).

(** What the store holds once the connection is gone. *)
Record gone (conn : string) (db db' : Db) : Prop := {
  gn_inactive : app_settings db' !! ACTIVE_CONNECTION_SETTING <> Some conn;
  gn_settings : owned conn db = true -> app_settings db' !! BOOTSTRAP_SETTING = None /\
    app_settings db' !! ACTIVE_CONNECTION_SETTING = None /\ telegram_accounts db' !! conn = None;
  gn_others : forall k, owned conn db = false \/ (k <> BOOTSTRAP_SETTING /\ k <> ACTIVE_CONNECTION_SETTING) ->
    app_settings db' !! k = app_settings db !! k;
  gn_accounts : forall a, a <> conn -> telegram_accounts db' !! a = telegram_accounts db !! a;
  gn_transfers : transfer_jobs db' = sql_where (fun r => negb (bool_decide (tj_connection_id r = conn))) (transfer_jobs db);
  gn_objects : (object_manifests db', active_objects db', buckets db', cleanup_targets db') =
    (object_manifests db, active_objects db, buckets db, cleanup_targets db)
}.

Lemma delete_account_runs conn db :
  app_settings db !! ACTIVE_CONNECTION_SETTING = None -> removable conn db ->
  exists d, delete_telegram_account conn db = (Ok (bool_decide (is_Some (telegram_accounts db !! conn))), d) /\
    d = db <| telegram_accounts := telegram_accounts d |> <| replica_locations := replica_locations d |> /\
    telegram_accounts d = delete conn (telegram_accounts db).
Proof.
  intros Ha [_ Hr]. unfold delete_telegram_account, read_text_setting, mbind, M_bind, query, ensure. rewrite Ha.
  rewrite (bool_decide_eq_false_2 (None = Some conn)) by done. cbn. destruct (decide (is_Some (telegram_accounts db !! conn))) as [Hs|Hs].
  - rewrite (bool_decide_eq_true_2 _ Hs), (Hr Hs). cbn. eexists. by split_and!.
  - rewrite (bool_decide_eq_false_2 _ Hs). cbn. eexists. by split_and!.
Qed.

Lemma owned_runs job {T} (f : bool -> Task T) w db : removable (cr_connection_id job) db ->
  interp answer ((match app_settings db !! ACTIVE_CONNECTION_SETTING with
     | Some active => mret (bool_decide (active = cr_connection_id job))
     | None => if bool_decide (cr_connection_id job = "legacy")
               then stored ← call telegram_bootstrap_settings; mret (is_some stored) else mret false
     end) ≫= f) w db = interp answer (f (owned (cr_connection_id job) db)) w db.
Proof.
  intros [Hj _]. unfold owned. destruct (app_settings db !! ACTIVE_CONNECTION_SETTING); [done|].
  case_bool_decide; [|done]. rewrite interp_task.
  assert (exists stored, telegram_bootstrap_settings db = (Ok stored, db) /\
    is_some stored = is_some (app_settings db !! BOOTSTRAP_SETTING)) as (stored & Hs & Hsome).
  { unfold telegram_bootstrap_settings, mbind, M_bind, read_text_setting, query.
    destruct (app_settings db !! BOOTSTRAP_SETTING) as [json|]; [|by eexists].
    specialize (Hj json eq_refl). destruct (from_json json); [by eexists|done]. }
  rewrite (run_call _ _ _ _ _ _ Hs). cbn. by rewrite Hsome.
Qed.

Lemma detach_runs job w db : removable (cr_connection_id job) db ->
  exists w1 d1, interp answer (detach_connection_if_owned job) w db = (Ok tt, w1, d1) /\
    if owned (cr_connection_id job) db
    then exists reps, d1 = db <| app_settings := delete ACTIVE_CONNECTION_SETTING (delete BOOTSTRAP_SETTING (app_settings db)) |>
           <| telegram_accounts := delete (cr_connection_id job) (telegram_accounts db) |> <| replica_locations := reps |>
    else d1 = db.
Proof.
  intros Hr. unfold detach_connection_if_owned.
  rewrite (run_call _ _ _ _ (app_settings db !! ACTIVE_CONNECTION_SETTING) db) by reflexivity.
  rewrite owned_runs by done. destruct (owned _ db); [|by eexists _, _].
  rewrite (run_call _ _ _ _ tt _) by reflexivity. rewrite (run_call _ _ _ _ tt _) by reflexivity. rewrite !run_perform.
  match goal with |- context [interp answer (call _ ≫= _) _ ?d] =>
    destruct (delete_account_runs (cr_connection_id job) d) as (d1 & Hd & Heq & Hacc) end.
  - cbn. apply lookup_delete_eq.
  - split; [|apply Hr]. intros json. cbn. rewrite lookup_delete_ne by done. by rewrite lookup_delete_eq.
  - rewrite (run_call _ _ _ _ _ _ Hd). cbn.
    match goal with |- context [answer unit (ForgetAccount ?a) ?w1] => destruct (answer unit (ForgetAccount a) w1) as [[] w2] end.
    eexists _, _. split; [reflexivity|]. exists (replica_locations d1). rewrite Heq, Hacc. done.
Qed.

Lemma release_runs job w db : removable (cr_connection_id job) db ->
  exists w' d, interp answer (release_connection job) w db = (Ok tt, w', d) /\ gone (cr_connection_id job) db d /\
    connection_removal_jobs d = connection_removal_jobs db.
Proof.
  intros Hr. unfold release_connection. rewrite interp_task. destruct (detach_runs job w db Hr) as (w1 & d1 & -> & Hd).
  cbn. eexists _, _. split; [reflexivity|]. destruct (owned (cr_connection_id job) db) eqn:Eo.
  - destruct Hd as [reps ->]. split; [|done]. split; cbn.
    + by rewrite lookup_delete_eq.
    + intros _. rewrite lookup_delete_ne by done. by rewrite !lookup_delete_eq.
    + intros k [?|[H1 H2]]; [congruence|]. by rewrite !lookup_delete_ne by done.
    + intros a Ha. by rewrite lookup_delete_ne by done.
    + done.
    + done.
  - subst d1. split; [|done]. split; cbn; [|congruence|done..].
    unfold owned in Eo. intros Ha. rewrite Ha in Eo. by rewrite bool_decide_eq_true_2 in Eo.
Qed.

(** Files that are there can be removed. *)
Definition files_removable : Prop :=
  forall path w, (forall e, (answer _ (RemoveFile path) w).1 <> Err (false, e)) /\
                 (forall e, (answer _ (RemoveDirAll path) w).1 <> Err (false, e)).

Lemma remove_files_run objects w db : files_removable ->
  exists w', interp answer (remove_object_files parse_uuid data_dir objects) w db = (Ok tt, w', db).
Proof.
  intros Hf. revert w. induction objects as [|o objects IH]; intros w; [by eexists|]. cbn [remove_object_files].
  destruct (parse_uuid o) as [obj|]; [|apply IH]. unfold remove_if_present. cbn.
  destruct (Hf (manifest_path data_dir obj) w) as [H1 _]. destruct (answer _ _ w) as [[[]|[[|] e]] w1]; cbn in *; [..|by edestruct H1].
  all: destruct (Hf (chunk_dir data_dir obj) w1) as [_ H2]; destruct (answer _ _ w1) as [[[]|[[|] e']] w2]; cbn in *;
    [apply IH..|by edestruct H2].
Qed.

Lemma finish_runs job conn w db d : gone conn db d ->
  exists w' db', interp answer (finish_removal job RemovalState.Completed) w d = (Ok tt, w', db') /\ gone conn db db' /\
    Forall (fun r => rj_id r = cr_id job -> rj_state r = RemovalState.Completed) (connection_removal_jobs db').
Proof.
  intros [H1 H2 H3 H4 H5 H6]. cbn. eexists _, _. split; [reflexivity|]. split; [by split|]. cbn.
  induction (connection_removal_jobs d) as [|r rs IH]; [constructor|]. unfold sql_update in *. cbn. constructor; [|exact IH].
  destruct (bool_decide (rj_id r = cr_id job)) eqn:Ei; cbn; [|by apply bool_decide_eq_false in Ei].
  by destruct (rj_state r) eqn:Es.
Qed.

Lemma open_removal db job : (connection_removal_job db).1 = Ok (Some job) -> cr_state job <> RemovalState.Completed.
Proof.
  cbn. intros [= Hj]. apply fmap_Some in Hj as (r & Hr & ->). unfold sql_first in Hr.
  assert (r ∈ merge_sort removal_le (sql_where (fun r => negb (one_of (rj_state r) [RemovalState.Completed])) (connection_removal_jobs db)))
    as Hin by (by apply list_elem_of_lookup; exists 0%nat; rewrite <- head_lookup).
  rewrite merge_sort_Permutation in Hin. apply list_elem_of_In, filter_In in Hin as [_ Hs]. cbn. intros E. by rewrite E in Hs.
Qed.

End RemovalFacts.

(** ** The end of an import *)

(** The object has a transfer, or is marked for recovery. *)
Definition accounted_for (obj : Uuid) (db : Db) : Prop :=
  In obj (map tj_id (transfer_jobs db)) \/
  om_commit_state <$> object_manifests db !! obj = Some CommitState.RecoveryRequired.

Definition imports (db db' : Db) : Prop :=
  operation_journal db' = operation_journal db /\ forall obj, accounted_for obj db -> accounted_for obj db'.

#[local] Instance imports_preorder : PreOrder imports.
Proof.
  split; [by split|]. intros d1 d2 d3 [H1 H2] [H3 H4]. split; [congruence|auto].
Qed.

Lemma update_jobs_imports p f : (forall r, tj_id (f r) = tj_id r) -> steps imports (update_jobs p f).
Proof.
  intros Hf db. split; [done|]. intros obj [Hin|Hm]; [left|by right]. cbn. apply in_map_iff in Hin as (r & <- & Hr).
  unfold sql_update. rewrite map_map. apply in_map_iff. exists r. split; [|done]. case_match; auto.
Qed.

Lemma begin_transfer_imports E o b k : steps imports (begin_transfer E o b k).
Proof.
  unfold begin_transfer. step_through. apply steps_modify. intros db. split; [done|]. intros obj [Hin|Hm]; [left|by right].
  cbn. rewrite map_app. apply in_or_app. by left.
Qed.

Lemma reserve_staging_imports E id n budget : steps imports (reserve_staging E id n budget).
Proof. unfold reserve_staging. step_through. by apply update_jobs_imports. Qed.

Lemma queue_transfer_imports E id op n : steps imports (queue_transfer E id op n).
Proof. unfold queue_transfer. step_through. by apply update_jobs_imports. Qed.

Lemma mark_recovery_imports E o : steps imports (update_manifest_state E o CommitState.RecoveryRequired).
Proof.
  intros db. destruct (update_state_cases E o CommitState.RecoveryRequired db) as (_ & Ht & Hm).
  assert (steps (same operation_journal) (update_manifest_state E o CommitState.RecoveryRequired)) as Hj
    by (unfold update_manifest_state, set_active; frame_through).
  split; [apply Hj|]. unfold accounted_for. rewrite Ht. intros obj [Hin|Ho]; [by left|right]. destruct Hm as [->| ->]; [done|].
  destruct (decide (o = obj)) as [->|]; [|by rewrite lookup_alter_ne].
  rewrite lookup_alter_eq. by destruct (object_manifests db !! obj).
Qed.

Lemma marked_accounted E o db m db' :
  update_manifest_state E o CommitState.RecoveryRequired db = (Ok m, db') -> accounted_for o db'.
Proof.
  unfold update_manifest_state, transaction, load_manifest_by_object_id, mbind, M_bind, query.
  destruct (object_manifests db !! o) as [r|] eqn:Er; [|done]. destruct (validate (om_manifest r)); [|done].
  cbn. intros [= <- <-]. right. cbn. by rewrite lookup_alter_eq, Er.
Qed.

Lemma begun_accounted E o b k db id db' : begin_transfer E o b k db = (Ok id, db') -> accounted_for o db'.
Proof.
  unfold begin_transfer, mbind, M_bind, query, ensure, modify. destruct (bucket_exists b db); [|done].
  destruct (sql_exists (has_id o) (transfer_jobs db)) eqn:Ex; cbn; rewrite Ex; cbn; [done|]. intros [= <- <-]. left. cbn.
  rewrite map_app. apply in_or_app. right. by left.
Qed.

Section ImportFacts.
Context (decrypt_chunk : Uuid -> Z -> list byte -> Result (list byte) ObjectFormatError.t).
Context (sha256_hex : list byte -> string) (to_vec_pretty : ObjectManifest -> list byte).
Context (parse_uuid : string -> option string) (uuid_error : string -> string).
Context (data_dir : string) (staging_budget : Z).
Context {W : Type} (answer : forall B, Io B -> W -> B * W).

Abbreviation import_one := (import_staged decrypt_chunk sha256_hex to_vec_pretty parse_uuid uuid_error data_dir staging_budget).
Abbreviation import_all := (import_each decrypt_chunk sha256_hex to_vec_pretty parse_uuid uuid_error data_dir staging_budget).
Abbreviation journal := (list_journal_entries parse_uuid uuid_error).

Lemma does_imports {A} db (m : M A) : steps imports m -> does (imports db) unconstrained free (call m) (fun _ => True).
Proof. intros Hm. apply does_update. intros d Hd. etrans; [exact Hd|apply Hm]. Qed.

Lemma verify_imports db dir m :
  does (imports db) unconstrained free (verify_staged_chunks decrypt_chunk sha256_hex to_vec_pretty dir m) (fun _ => True).
Proof.
  unfold verify_staged_chunks. apply does_then; [|intros _; walk; done].
  induction (chunks m) as [|c cs IH]; cbn [verify_chunks]; walk; done.
Qed.

Lemma import_one_imports db m : does (imports db) unconstrained free (import_one m) (fun _ => True).
Proof.
  unfold import_staged. apply does_then; [by apply does_reads|]. intros [j|]; [done|]. cbn [is_some].
  apply does_then; [apply does_reads, journal_reads|]. intros js. destruct (List.find _ js) as [e|]; [|done].
  apply does_then; [apply does_settled, verify_imports|]. intros [[]|err].
  - apply does_then; [by apply does_perform|]. intros E1. apply does_then; [apply does_imports, begin_transfer_imports|]. intros id.
    apply does_then; [by apply does_perform|]. intros E2. apply does_then; [apply does_imports, reserve_staging_imports|]. intros _.
    apply does_then; [by apply does_perform|]. intros E3. apply does_imports, queue_transfer_imports.
  - apply does_then; [by apply does_perform|]. intros E1. apply does_then; [apply does_imports, mark_recovery_imports|]. done.
Qed.

Lemma runs_import m w db : imports db (interp answer (import_one m) w db).2.
Proof.
  refine (proj2 (abides_interp (imports db) unconstrained free answer (import_one m) (on_ok (fun _ => True)) w db _ _ _));
    [done|reflexivity|apply import_one_imports].
Qed.

Lemma runs_imports ms w db : imports db (interp answer (import_all ms) w db).2.
Proof.
  revert w db. induction ms as [|m ms IH]; intros w db; [reflexivity|]. cbn [import_each]. rewrite interp_task.
  pose proof (runs_import m w db) as Hm. destruct (interp answer (import_one m) w db) as [[[[]|e] w1] d1]; [|done].
  etrans; [exact Hm|apply IH].
Qed.

(** The entry of an object in the journal. *)
Definition journaled (obj : Uuid) (db : Db) : Prop :=
  exists js e, (journal db).1 = Ok js /\ In e js /\ je_object_id e = obj.

Lemma import_one_accounts m w db w' db' : journaled (object_id m) db ->
  interp answer (import_one m) w db = (Ok tt, w', db') -> accounted_for (object_id m) db'.
Proof.
  intros (js & e & Hjs & He & Ho) H. unfold import_staged in H.
  apply interp_ok in H as (known & w1 & d1 & H1 & H). apply interp_call in H1 as [[= <- <-] ->].
  destruct (find_job (object_id m) db) as [r|] eqn:Ef; cbn [is_some fmap option_fmap option_map] in H.
  { injection H as _ <-. left. apply find_job_spec in Ef as [Hr <-]. by apply in_map. }
  apply interp_ok in H as (js' & w2 & d2 & H2 & H). apply interp_call in H2 as [H2 ->].
  assert (js' = js /\ d2 = db) as [-> ->] by (split; [rewrite H2 in Hjs; by injection Hjs|by rewrite <- (journal_reads parse_uuid uuid_error db), H2]).
  destruct (List.find _ js) as [entry|] eqn:Efind.
  2: { apply (find_none _ _ Efind) in He. cbn in He. rewrite Ho in He. by rewrite bool_decide_eq_true_2 in He. }
  apply interp_ok in H as (verified & w3 & d3 & _ & H). destruct verified as [[]|err].
  - apply interp_ok in H as (E1 & w4 & d4 & _ & H). apply interp_ok in H as (id & w5 & d5 & H5 & H). apply interp_call in H5 as [H5 ->].
    apply begun_accounted in H5. apply interp_ok in H as (E2 & w6 & d6 & H6 & H). injection H6 as _ _ <-.
    apply interp_ok in H as ([] & w7 & d7 & H7 & H). apply interp_call in H7 as [H7 ->].
    apply interp_ok in H as (E3 & w8 & d8 & H8 & H). injection H8 as _ _ <-. apply interp_call in H as [H ->].
    pose proof (reserve_staging_imports E2 id (local_bytes m) staging_budget d5) as [_ Hr]. rewrite H7 in Hr.
    pose proof (queue_transfer_imports E3 id (je_operation_id entry) (Z.of_nat (length (local_chunks m))) d7) as [_ Hq].
    rewrite H in Hq. auto.
  - apply interp_ok in H as (E1 & w4 & d4 & _ & H). apply interp_ok in H as (x & w5 & d5 & H5 & H). apply interp_call in H5 as [H5 ->].
    injection H as _ <-. by eapply marked_accounted.
Qed.

Lemma journal_entries_pure l db db' :
  (journal_entries parse_uuid uuid_error l db).1 = (journal_entries parse_uuid uuid_error l db').1.
Proof.
  assert (forall d, journal_entries parse_uuid uuid_error l d = ((journal_entries parse_uuid uuid_error l empty_db).1, d)) as H
    by (intros d; induction l as [|e l IH]; [done|]; cbn [journal_entries]; unfold mbind, M_bind;
        unfold to_journal_entry; destruct (parse_uuid e.1); [|done]; destruct (parse_uuid (oj_object_id e.2)); [|done];
        cbn; rewrite IH; by destruct (journal_entries parse_uuid uuid_error l empty_db) as [[] ?]).
  by rewrite (H db), (H db').
Qed.

(** The import loses nothing: after a pass that succeeds, each of the first
    hundred staged objects that the journal knows has a transfer, if its files
    were complete, or is marked for recovery. *)
Theorem import_accounts_for_all w db w' db' ms m
    (Hrun : interp answer (import_legacy_staging decrypt_chunk sha256_hex to_vec_pretty parse_uuid uuid_error data_dir staging_budget)
              w db = (Ok tt, w', db'))
    (Hms : (list_manifests db).1 = Ok ms) (Hm : In m (staging_manifests ms)) (Hj : journaled (object_id m) db) :
  accounted_for (object_id m) db'.
Proof.
  apply interp_ok in Hrun as (ms' & w1 & d1 & H1 & Hrun). apply interp_call in H1 as [H1 ->].
  assert (ms' = ms /\ d1 = db) as [-> ->] by
    (split; [rewrite H1 in Hms; by injection Hms|pose proof (list_manifests_reads db) as Hd; by rewrite H1 in Hd]).
  clear H1 Hms. revert w db Hj Hrun. induction (staging_manifests ms) as [|x xs IH]; intros w db Hj Hrun; [done|].
  cbn [import_each] in Hrun. apply interp_ok in Hrun as ([] & w2 & d2 & H2 & Hrun). destruct Hm as [->|Hm].
  - pose proof (runs_imports xs w2 d2) as [_ Hk]. rewrite Hrun in Hk. apply Hk. by eapply import_one_accounts.
  - apply (IH Hm w2 d2); [|done]. destruct Hj as (js & e & Hjs & He & Ho). exists js, e. split_and!; [|done..].
    pose proof (runs_import x w db) as [Hsame _]. rewrite H2 in Hsame. cbn in Hsame. rewrite <- Hjs.
    unfold list_journal_entries, mbind, M_bind, query. rewrite Hsame. apply journal_entries_pure.
Qed.
End ImportFacts.

(** ** Runs of a removal *)

#[local] Existing Instance toy_json.

Definition removal_row (delete : bool) : RemovalJobRow :=
  {| rj_id := "r"; rj_connection_id := "c"; rj_delete_uploaded_files := delete; rj_state := RemovalState.Pending;
     rj_object_count := 1; rj_requested_at := 5; rj_updated_at := 5; rj_completed_at := None; rj_error := None |}.

Definition connected_account : AccountRow :=
  {| ta_label := "Primary account"; ta_bootstrap_json := ""; ta_phone := None; ta_download_enabled := true; ta_quota_bytes := None;
     ta_state := "configured"; ta_created_at := 1; ta_updated_at := 1 |}.

(** The connection [c] is being removed, with the object [o]. *)
Definition removing_db (delete : bool) : Db :=
  empty_db <| app_settings := {[ ACTIVE_CONNECTION_SETTING := "c" ]} |> <| telegram_accounts := {[ "c" := connected_account ]} |>
           <| connection_removal_jobs := [removal_row delete] |>
           <| connection_removal_objects := [{| ro_job_id := "r"; ro_object_id := "o" |}] |>.

(** One message of the object is still to be deleted. *)
Definition pending_db : Db :=
  run (insert_or_ignore_target "o" "c" "p" 7 TargetKind.Message 0) (removing_db true).

Abbreviation toy_finalize := (finalize_connection_removal Some "data").

Lemma removal_keeps_connection_witness :
  exists jobs, (interp sample_answer toy_finalize 0%nat pending_db).2 = pending_db <| connection_removal_jobs := jobs |>.
Proof.
  apply (removal_keeps_connection Some "data" sample_answer 0%nat pending_db (connection_removal_row (removal_row true)));
    [reflexivity|right; reflexivity|vm_compute; reflexivity].
Defined.


Definition replication_of_c : ReplicationRow :=
  {| Schema.rp_id := "x"; Schema.rp_source_account_id := "c"; Schema.rp_target_account_id := "d"; Schema.rp_bucket := "b"; Schema.rp_object_keys := []; Schema.rp_mode := "manual";
     Schema.rp_access_mode := "replica"; Schema.rp_state := "completed"; Schema.rp_objects_total := 0; Schema.rp_objects_done := 0; Schema.rp_chunks_total := 0;
     Schema.rp_chunks_done := 0; Schema.rp_bytes_done := 0; Schema.rp_next_run := None; Schema.rp_last_run := None; Schema.rp_error := None; Schema.rp_created_at := 1;
     Schema.rp_updated_at := 1 |}.

(** An account that was once replicated from or to cannot be deleted, and the
    pass that removes its connection fails there, after the connection was
    detached.  The next pass finds it detached and completes the removal: the
    account of the removed connection stays registered. *)
Theorem removal_leaves_account :
  let db := (removing_db false) <| replication_jobs := [replication_of_c] |> in
  let first := interp sample_answer toy_finalize 0%nat db in
  let second := interp sample_answer toy_finalize 0%nat first.2 in
  first.1.1 = Err (ObjectFormatError.Metadata (Sqlite "FOREIGN KEY constraint failed")) /\
  second.1.1 = Ok tt /\ map rj_state (connection_removal_jobs second.2) = [RemovalState.Completed] /\
  app_settings second.2 !! ACTIVE_CONNECTION_SETTING = None /\ telegram_accounts second.2 !! "c" = Some connected_account.
Proof. vm_compute. by split_and!. Qed.

(** ** Runs of an import *)

(** An older release staged three chunks of [o1] and recorded no transfer. *)
Definition legacy_db : Db :=
  run (stage_manifest (sample_env 11 "u") OperationKind.Put (Manifest.sample_manifest "o1" "b" "k"))
    (run (Buckets.create_bucket epoch (sample_env 1 "u") sample_record) empty_db).

Abbreviation toy_import :=
  (import_legacy_staging sample_decrypt (fun _ => "c0ffee") (fun _ => []) Some (fun s => s) "data").

Lemma import_accounts_for_all_witness :
  exists m, object_id m = "o1" /\ accounted_for (object_id m) (interp sample_answer (toy_import 1000) 0%nat legacy_db).2.
Proof.
  destruct (list_manifests legacy_db).1 as [[|m ms]|e] eqn:E; [vm_compute in E; discriminate E| |vm_compute in E; discriminate E].
  exists m. assert (object_id m = "o1") as Hid by (vm_compute in E; injection E as <- <-; reflexivity). split; [exact Hid|].
  eapply (import_accounts_for_all sample_decrypt (fun _ => "c0ffee") (fun _ => []) Some (fun s => s) "data" 1000 sample_answer
            0%nat legacy_db _ _ (m :: ms) m).
  - vm_compute. reflexivity.
  - exact E.
  - vm_compute in E. injection E as <- <-. left. reflexivity.
  - rewrite Hid. vm_compute. eexists _, _. split; [reflexivity|]. split; [left; reflexivity|reflexivity].
Defined.

(** When the staging area is full the import has already begun a transfer, which
    it leaves receiving.  Later passes take the object for imported, and once the
    reception counts as interrupted it has no staged operation and cannot be
    retried, although all of its files are there. *)
Theorem full_staging_strands_import :
  let first := interp sample_answer (toy_import 10) 0%nat legacy_db in
  let second := interp sample_answer (toy_import 1000) 0%nat first.2 in
  let later := run (claim_transfer (sample_env 1000 "lease")) second.2 in
  first.1.1 = Err (ObjectFormatError.Metadata (InvalidManifest "staging capacity exhausted")) /\ second.1.1 = Ok tt /\
  map tj_state (transfer_jobs later) = [JobState.RecoveryRequired] /\ (retry_transfer "o1" later).1 = Ok false.
Proof. vm_compute. by split_and!. Qed.
