(* ===== verification/Serving.v ===== *)
(** * Requests before their handlers ([src/src/s3_server.rs], [admin.rs], [object_format.rs])

    Which of the surfaces of the server a request reaches, the readiness probe,
    and the two pieces of shared state that downloads keep while they run: the
    pins that keep the messages of an object from being deleted, and the
    semaphores that admit one read per client and object.

    The theorems: a bucket that can be created is never hidden behind an internal
    route, with the one exception that is shown; a service that says it is ready
    is connected, has room, and has nothing to recover; an object is pinned
    exactly while it is read; readers of the same object for the same client
    share a semaphore for as long as one of them runs. *)

From stdpp Require Import pretty.
From S2P Require Import Prelude Errors Config Auth Admin Manifest Schema Cleanup Transfers TransferSafety.
From S2P Require Import ManifestStore ManifestSafety IndexSafety MultipartStore Buckets ConnectionRemoval System Catalog.
From S2P Require Import Requests Listing Settings Chunks Streaming Attempts Programs Publish Reception Completion.
From S2P Require Import Accounts Rechunk Replication CleanupWorker Shares S3Api Guarantees Recovery Reconcile Browser Moves.
From S2P Require Import Retry Proxy Transport Console.

(** ** Surfaces *)

#[export] Instance Method_eq_dec : EqDecision Method.
Proof. solve_decision. Defined.

Definition ADMIN_ROUTE_PREFIX : string := "/_admin".
Definition PUBLIC_PREFIX : string := "/_public/".

Definition is_admin_route (path : string) : bool :=
  bool_decide (path = ADMIN_ROUTE_PREFIX) || starts_with ADMIN_API_PREFIX path || starts_with ADMIN_ASSET_PREFIX path
  || starts_with "/_admin/" path.

Inductive Surface : Type :=
| NoContent                          (* the icon browsers ask for *)
| PublicShare                        (* handle_share_request *)
| AdminApi | AdminStatic             (* AdminUiState::handle_request *)
| S3Protocol (timeout_secs : Z).

Definition handle_request (method : Method) (path : string) (request_timeout transfer_timeout : Z) : Surface :=
  if bool_decide (path = "/favicon.ico") then NoContent
  else
    let reserved_bucket_create :=
      bool_decide (method = PUT) && one_of path ["/_public"; "/_public/"; "/_admin"; "/_admin/"] in
    if negb reserved_bucket_create && starts_with PUBLIC_PREFIX path then PublicShare
    else if negb reserved_bucket_create && is_admin_route path then
      (if starts_with ADMIN_API_PREFIX path then AdminApi else AdminStatic)
    else S3Protocol (if one_of method [PUT; POST; DELETE] then transfer_timeout else request_timeout).

(** [client_download_identity]; [parse_ip] reads an address and prints it. *)
Fixpoint first_address (trim : string -> string) (parse_ip : string -> option string) (candidates : list string) : option string :=
  match candidates with
  | [] => None
  | c :: candidates => match parse_ip (trim c) with Some a => Some a | None => first_address trim parse_ip candidates end
  end.

Fixpoint comma_separated (s : string) : list string :=
  match s with
  | EmptyString => [EmptyString]
  | String c s' =>
      if is_byte 44 c then EmptyString :: comma_separated s'
      else match comma_separated s' with
           | seg :: segs => String c seg :: segs
           | [] => [String c EmptyString]
           end
  end.

Definition client_download_identity (trim : string -> string) (parse_ip : string -> option string) (headers : string -> option string)
    (socket : option string) : string :=
  let from name := headers name ≫= (fun value => first_address trim parse_ip (comma_separated value)) in
  match from "x-forwarded-for" with
  | Some a => a
  | None => match from "x-real-ip" with
            | Some a => a
            | None => default "unknown" socket
            end
  end.

(** ** Readiness *)

Record DurableMetrics : Type := {
  dm_pending_jobs : Z;
  dm_oldest_pending_age_seconds : Z;
  dm_retries : Z;
  dm_failed_jobs : Z;
  dm_staging_bytes : Z;
  dm_cleanup_backlog : Z;
  dm_cleanup_due : Z;
  dm_cleanup_scheduled : Z;
  dm_cleanup_recovery_required : Z
}.

Definition pending_job (r : TransferRow) : bool :=
  in_states [JobState.Receiving; JobState.Queued; JobState.Uploading; JobState.Committing; JobState.RetryWait] r.

Definition due_now (current : Z) (targets : list CleanupRow) (t : CleanupRow) : bool :=
  negb (ct_completed t) && negb (bool_decide (ct_state t = CleanupState.RecoveryRequired))
  && ((one_of (ct_state t) [CleanupState.Pending; CleanupState.RetryWait] && (ct_due_at t <=? current) && (ct_next_retry t <=? current))
      || (bool_decide (ct_state t = CleanupState.Running) && (ct_lease_until t <? current)))
  && (bool_decide (ct_target_kind t = TargetKind.Evidence) || evidence_completed targets (ct_object_id t)).

Definition durable_metrics (current : Z) : M DurableMetrics := query (fun db =>
  let targets := cleanup_targets db in
  let backlog := sql_count (fun t => negb (ct_completed t)) targets in
  let quarantined := sql_count (fun t => bool_decide (ct_state t = CleanupState.RecoveryRequired)) targets in
  let due := sql_count (due_now current targets) targets in
  {| dm_pending_jobs := sql_count pending_job (transfer_jobs db);
     dm_oldest_pending_age_seconds :=
       match sql_min tj_created_at (sql_where pending_job (transfer_jobs db)) with
       | Some oldest => Z.max (i64_saturating_sub current oldest) 0
       | None => 0
       end;
     dm_retries := sql_sum (fun r => if 1 <? tj_attempts r then tj_attempts r - 1 else 0) (transfer_jobs db);
     dm_failed_jobs := sql_count (in_states [JobState.RecoveryRequired; JobState.ReceptionFailed]) (transfer_jobs db);
     dm_staging_bytes := sql_sum tj_bytes (sql_where (fun r => negb (in_states [JobState.Cleaned] r)) (transfer_jobs db));
     dm_cleanup_backlog := backlog; dm_cleanup_due := due;
     dm_cleanup_scheduled := u64_saturating_sub (u64_saturating_sub backlog due) quarantined;
     dm_cleanup_recovery_required := quarantined |}).

Section Readyz.
Context (data_dir : string) (chunk_size staging_budget : Z).

Definition not_ready (health : TelegramConnectionHealth) (now : Z) (object : ObjectFormatStatus) (durable : DurableMetrics) : list string :=
  (if bool_decide (th_state health = Connected) then [] else ["Telegram unavailable"])
  ++ (if 90 <? i64_saturating_sub now (th_checked_at health) then ["Telegram health check is stale"] else [])
  ++ (if staging_budget <=? dm_staging_bytes durable then ["staging capacity exhausted"] else [])
  ++ (if (0 <? os_recovery_required_objects object) || (0 <? dm_cleanup_recovery_required durable)
      then ["storage recovery required"] else []).

(** [/readyz] *)
Definition readyz (health : TelegramConnectionHealth) : Task (Z * string) :=
  object ← Reconcile.status data_dir chunk_size;
  E ← perform Ambient;
  durable ← call (durable_metrics (now_at E 0));
  E ← perform Ambient;
  let reasons := not_ready health (unix_timestamp (now_utc_at E 0)) object durable in
  mret (match reasons with
        | [] => (200, "ready" +:+ String (Ascii.ascii_of_N 10) EmptyString)
        | _ => (503, "not ready: " +:+ String.concat "; " reasons +:+ String (Ascii.ascii_of_N 10) EmptyString)
        end).
End Readyz.

(** ** Pins *)

(** [HashMap<Uuid, u64>] *)
Abbreviation Pins := (gmap Uuid Z).

Definition pin_object (obj : Uuid) (pins : Pins) : Pins :=
  <[obj := (default 0 (pins !! obj) + 1) mod (U64_MAX + 1)]> pins.

(** [ReadPinGuard::drop] *)
Definition unpin (obj : Uuid) (pins : Pins) : Pins :=
  match pins !! obj with
  | None => pins
  | Some count => let count := u64_saturating_sub count 1 in
                  if count =? 0 then delete obj pins else <[obj := count]> pins
  end.

Definition is_read_pinned (obj : Uuid) (pins : Pins) : bool := 0 <? default 0 (pins !! obj).

(** A read begins, or the [i]th of those under way ends; the guards that live. *)
Inductive PinOp : Type := BeginRead (obj : Uuid) | EndRead (i : nat).

Definition pin_op (op : PinOp) (s : Pins * list Uuid) : Pins * list Uuid :=
  match op with
  | BeginRead obj => (pin_object obj s.1, obj :: s.2)
  | EndRead i =>
      match s.2 !! i with
      | Some obj => (unpin obj s.1, delete i s.2)
      | None => s
      end
  end.

(** ** Admission *)

Definition CLIENT_OBJECT_LIMITER_MAX_KEYS : nat := 4096.

(** The weak references by key, and the semaphores that streams hold. *)
Record Limiter : Type := {
  lm_limits : gmap string nat;
  lm_held : list (string * nat);
  lm_next : nat
}.

Definition strong_count (held : list (string * nat)) (semaphore : nat) : nat :=
  length (List.filter (fun h => Nat.eqb h.2 semaphore) held).

(** [ClientObjectDownloadLimiter::semaphore]; the caller keeps what it gets. *)
Definition semaphore (key : string) (l : Limiter) : nat * Limiter :=
  let limits := if Nat.leb CLIENT_OBJECT_LIMITER_MAX_KEYS (base.size (lm_limits l))
                then filter (fun '(_, s) => (0 < strong_count (lm_held l) s)%nat) (lm_limits l) else lm_limits l in
  match limits !! key with
  | Some s =>
      if Nat.ltb 0 (strong_count (lm_held l) s)
      then (s, {| lm_limits := limits; lm_held := (key, s) :: lm_held l; lm_next := lm_next l |})
      else (lm_next l, {| lm_limits := <[key := lm_next l]> limits; lm_held := (key, lm_next l) :: lm_held l; lm_next := S (lm_next l) |})
  | None => (lm_next l, {| lm_limits := <[key := lm_next l]> limits; lm_held := (key, lm_next l) :: lm_held l; lm_next := S (lm_next l) |})
  end.

Inductive LimiterOp : Type := Admit (key : string) | Release (i : nat).

Definition limiter_op (op : LimiterOp) (l : Limiter) : Limiter :=
  match op with
  | Admit key => (semaphore key l).2
  | Release i => {| lm_limits := lm_limits l; lm_held := delete i (lm_held l); lm_next := lm_next l |}
  end.

Definition no_readers : Limiter := {| lm_limits := ∅; lm_held := []; lm_next := 0 |}.

(** ** Buckets are reachable *)

Definition SLASH : Ascii.ascii := Ascii.ascii_of_N 47.

Definition no_slash (s : string) : bool := all_bytes (fun c => negb (is_byte 47 c)) s.

(** The rest of a path behind its bucket. *)
Definition path_end (rest : string) : Prop := rest = EmptyString \/ exists r, rest = "/" +:+ r.

(** A path that begins with a segment has it as its bucket. *)
Lemma first_segment (p b rest : string) :
  no_slash p = true -> no_slash b = true -> path_end rest ->
  (starts_with (p +:+ "/") (b +:+ rest) = true \/ p = b +:+ rest) -> b = p.
Proof.
  revert b. unfold starts_with. induction p as [|c p IH]; intros b Hp Hb Hr H.
  - destruct b as [|d b]; [done|]. destruct H as [H|H]; [|done]. change ("" +:+ "/") with (String SLASH "") in H.
    change (String d b +:+ rest) with (String d (b +:+ rest)) in H. cbn [strip_prefix] in H.
    destruct (Ascii.eqb_spec SLASH d) as [<-|]; [by vm_compute in Hb|done].
  - change (String c p +:+ "/") with (String c (p +:+ "/")) in H. cbn [no_slash all_bytes] in Hp. apply andb_prop in Hp as [Hc Hp].
    destruct b as [|d b].
    + destruct Hr as [->|[r ->]]; [by destruct H as [H|H]|]. change ("" +:+ ("/" +:+ r)) with (String SLASH r) in H. cbn [strip_prefix] in H.
      destruct H as [H|H]; [|by injection H as -> _]. destruct (Ascii.eqb_spec c SLASH) as [->|]; [by vm_compute in Hc|done].
    + change (String d b +:+ rest) with (String d (b +:+ rest)) in H. cbn [strip_prefix] in H. apply andb_prop in Hb as [_ Hb].
      destruct H as [H|H].
      * destruct (Ascii.eqb_spec c d) as [->|]; [|done]. f_equal. apply IH; auto.
      * injection H as -> ->. f_equal. apply IH; auto.
Qed.

(** A bucket that can be created is never hidden behind an internal route:
    whatever is asked of it or of its objects reaches the S3 protocol, with the
    timeout of its method — unless the path is that of the icon. *)
Theorem buckets_not_shadowed method bkt rest t t' (Hslash : no_slash bkt = true) (Hrest : path_end rest)
    (Hname : bkt ∉ RESERVED_BUCKET_NAMES) (Hicon : bkt +:+ rest <> "favicon.ico") :
  handle_request method ("/" +:+ bkt +:+ rest) t t' = S3Protocol (if one_of method [PUT; POST; DELETE] then t' else t).
Proof.
  unfold handle_request. change ("/" +:+ bkt +:+ rest) with (String SLASH (bkt +:+ rest)).
  rewrite (bool_decide_eq_false_2 (String SLASH _ = "/favicon.ico")) by congruence. cbv zeta.
  assert (forall p, p ∈ RESERVED_BUCKET_NAMES -> no_slash p = true ->
    starts_with (p +:+ "/") (bkt +:+ rest) = false /\ p <> bkt +:+ rest) as Hno.
  { intros p Hp Hs. split; [destruct (starts_with _ _) eqn:E; [|done]|intros E]; destruct Hname;
      (replace bkt with p; [done|]); symmetry; eapply first_segment; eauto. }
  destruct (Hno "_public") as [Hpub _]; [set_solver|done|]. destruct (Hno "_admin") as [Hadm Hroot]; [set_solver|done|].
  assert (starts_with PUBLIC_PREFIX (String SLASH (bkt +:+ rest)) = false) as -> by exact Hpub.
  assert (is_admin_route (String SLASH (bkt +:+ rest)) = false) as ->; [|by rewrite !andb_false_r].
  unfold is_admin_route. rewrite (bool_decide_eq_false_2 (String SLASH _ = ADMIN_ROUTE_PREFIX)) by (intros [= E]; by destruct Hroot).
  assert (forall q, starts_with ("/_admin/" +:+ q) (String SLASH (bkt +:+ rest)) = false) as Hq.
  { intros q. unfold starts_with in *. destruct (strip_prefix ("/_admin/" +:+ q) _) as [x|] eqn:E; [|done].
    apply strip_prefix_some in E. change (String SLASH (bkt +:+ rest) = "/" +:+ ("_admin/" +:+ (q +:+ x))) in E. injection E as E.
    change ("_admin" +:+ "/") with "_admin/" in Hadm. rewrite E in Hadm.
    change ("" +:+ "_admin/" +:+ q +:+ x) with ("_admin/" +:+ (q +:+ x)) in Hadm. by rewrite strip_prefix_app in Hadm. }
  pose proof (Hq "api/") as H1. pose proof (Hq "assets/") as H2. pose proof (Hq "") as H3.
  change ("/_admin/" +:+ "api/") with ADMIN_API_PREFIX in H1. change ("/_admin/" +:+ "assets/") with ADMIN_ASSET_PREFIX in H2.
  change ("/_admin/" +:+ "") with "/_admin/" in H3. by rewrite H1, H2, H3.
Qed.

Lemma buckets_not_shadowed_witness : handle_request GET "/photos/a/b.jpg" 30 600 = S3Protocol 30.
Proof.
  apply (buckets_not_shadowed GET "photos" "/a/b.jpg" 30 600); [reflexivity|right; by exists "a/b.jpg"|set_solver|done].
Defined.

(** The icon has the path of a bucket of this name, which is not reserved:
    creating it with the S3 protocol is answered without a bucket. *)
Theorem icon_shadows_bucket t t' : "favicon.ico" ∉ RESERVED_BUCKET_NAMES /\ handle_request PUT "/favicon.ico" t t' = NoContent.
Proof. split; [set_solver|done]. Qed.

(** ** Ready means ready *)

Lemma sql_sum_le {A} (f : A -> Z) (p q : A -> bool) l :
  (forall x, p x = true -> q x = true) -> (forall x, In x l -> 0 <= f x) -> sql_sum f (sql_where p l) <= sql_sum f (sql_where q l).
Proof.
  intros Hpq. induction l as [|x l IH]; intros Hf; [done|]. unfold sql_where in *. cbn [List.filter].
  assert (sql_sum f (List.filter p l) <= sql_sum f (List.filter q l)) as Hl by (apply IH; intros y Hy; apply Hf; by right).
  assert (0 <= f x) as Hx by (apply Hf; by left).
  destruct (p x) eqn:Ep; [rewrite (Hpq x Ep); cbn; lia|]. destruct (q x); cbn; lia.
Qed.

Lemma none_counted {A} (p : A -> bool) t x : sql_count p t <= 0 -> In x t -> p x = false.
Proof.
  intros Hc Hx. destruct (p x) eqn:E; [|done]. assert (In x (sql_where p t)) as Hin by (by apply filter_In).
  unfold sql_count in Hc. destruct (sql_where p t); [done|]. cbn in Hc. lia.
Qed.

(** A service that answers that it is ready is connected to Telegram, has room
    for uploads, and has nothing that waits for an operator: no object of the
    connection needs recovery and no cleanup is quarantined. *)
Theorem ready_means_ready {W} (answer : forall B, Io B -> W -> B * W) data_dir chunk_size budget health w db text w' db'
    (Hbytes : forall r, In r (transfer_jobs db) -> 0 <= tj_bytes r)
    (H : interp answer (readyz data_dir chunk_size budget health) w db = (Ok (200, text), w', db')) :
  db' = db /\ th_state health = Connected /\ staged_bytes db < budget /\
  (forall o row, object_manifests db !! o = Some row -> om_connection_id row = active_connection_id db ->
     commit_state (om_manifest row) <> CommitState.RecoveryRequired) /\
  (forall t, In t (cleanup_targets db) -> ct_state t <> CleanupState.RecoveryRequired).
Proof.
  apply interp_ok in H as (object & w1 & d1 & H1 & H). unfold Reconcile.status in H1.
  apply interp_ok in H1 as (ms & w2 & d2 & H2 & H1). apply interp_call in H2 as [H2 ->].
  assert (d2 = db) as -> by (pose proof (list_manifests_reads db) as Hd; by rewrite H2 in Hd).
  injection H1 as <- <- <-. apply interp_ok in H as (E1 & w3 & d3 & H3 & H). injection H3 as _ _ <-.
  apply interp_ok in H as (durable & w4 & d4 & H4 & H). apply interp_call in H4 as [[= <- <-] ->].
  apply interp_ok in H as (E2 & w5 & d5 & H5 & H). injection H5 as _ _ <-.
  destruct (not_ready _ _ _ _ _) as [|reason reasons] eqn:Er; [|done]. injection H as _ _ <-. unfold not_ready in Er.
  apply app_eq_nil in Er as [R1 Er]. apply app_eq_nil in Er as [_ Er]. apply app_eq_nil in Er as [R3 R4].
  cbn [dm_staging_bytes] in R3. cbn [os_recovery_required_objects dm_cleanup_recovery_required] in R4. unfold count_state in R4.
  destruct (Z.leb_spec budget (sql_sum tj_bytes (sql_where (fun r => negb (in_states [JobState.Cleaned] r)) (transfer_jobs db))))
    as [|Hlt]; [done|]. clear R3.
  match type of R4 with (if ?b then _ else _) = _ => destruct b eqn:Ec; [done|] end. apply orb_false_iff in Ec as [Em Et].
  apply Z.ltb_ge in Em, Et. split_and!; [done|by case_bool_decide| | |].
  - eapply Z.le_lt_trans; [|exact Hlt]. apply sql_sum_le; [|done]. intros r. unfold in_states. by destruct (tj_state r).
  - intros o row Hrow Hc Hst. pose proof (none_counted _ _ (om_manifest row) Em) as Hn. cbn in Hn.
    rewrite bool_decide_eq_true_2 in Hn by done. discriminate Hn. by eapply list_manifests_all.
  - intros t Ht Hst. pose proof (none_counted _ _ t Et Ht) as Hn. cbn in Hn. by rewrite bool_decide_eq_true_2 in Hn.
Qed.

(** ** Pinned means read *)

Definition reads_of (obj : Uuid) (guards : list Uuid) : Z := Z.of_nat (length (List.filter (fun g => bool_decide (g = obj)) guards)).

Definition pins_count (s : Pins * list Uuid) : Prop :=
  forall obj, s.1 !! obj = if reads_of obj s.2 =? 0 then None else Some (reads_of obj s.2).

Lemma reads_cons obj g guards : reads_of obj (g :: guards) = (if bool_decide (g = obj) then 1 else 0) + reads_of obj guards.
Proof. unfold reads_of. cbn. case_bool_decide; cbn [length]; lia. Qed.

Lemma reads_delete obj guards i g : guards !! i = Some g ->
  reads_of obj (delete i guards) = reads_of obj guards - (if bool_decide (g = obj) then 1 else 0).
Proof.
  revert i. induction guards as [|x guards IH]; intros [|i] H; try done.
  - injection H as ->. change (delete 0%nat (g :: guards)) with guards. rewrite reads_cons. lia.
  - change (delete (S i) (x :: guards)) with (x :: delete i guards). rewrite !reads_cons, (IH i) by done. lia.
Qed.

Lemma reads_nonneg obj guards : 0 <= reads_of obj guards <= Z.of_nat (length guards).
Proof. unfold reads_of. pose proof (filter_length_le (fun g => bool_decide (g = obj)) guards). lia. Qed.

Lemma pin_op_count op s : pins_count s -> Z.of_nat (length s.2) < U64_MAX -> pins_count (pin_op op s).
Proof.
  intros Hs Hlen. destruct op as [o|i]; cbn [pin_op].
  - intros obj. cbn [fst snd]. rewrite reads_cons. unfold pin_object. pose proof (reads_nonneg obj s.2).
    destruct (decide (o = obj)) as [->|Hne].
    + rewrite lookup_insert_eq, (bool_decide_eq_true_2 (obj = obj)) by done. rewrite (Hs obj).
      destruct (Z.eqb_spec (1 + reads_of obj s.2) 0); [lia|]. f_equal.
      destruct (Z.eqb_spec (reads_of obj s.2) 0) as [E|]; cbn [default from_option]; unfold id;
        (rewrite Z.mod_small; [|unfold U64_MAX in *]; lia).
    + rewrite lookup_insert_ne, (bool_decide_eq_false_2 (o = obj)) by done. by rewrite (Hs obj).
  - destruct (s.2 !! i) as [o|] eqn:Ei; [|done]. intros obj. cbn [fst snd]. rewrite (reads_delete _ _ _ _ Ei).
    assert (1 <= reads_of o s.2) as Ho.
    { apply list_elem_of_lookup_2 in Ei. apply list_elem_of_In in Ei. unfold reads_of.
      assert (In o (List.filter (fun g => bool_decide (g = o)) s.2)) as Hin by (apply filter_In; by rewrite bool_decide_eq_true_2).
      destruct (List.filter _ s.2); [done|]. cbn. lia. }
    unfold unpin. rewrite (Hs o). destruct (Z.eqb_spec (reads_of o s.2) 0); [lia|]. unfold u64_saturating_sub. rewrite Z.max_l by lia.
    destruct (decide (o = obj)) as [->|Hne].
    + rewrite (bool_decide_eq_true_2 (obj = obj)) by done.
      destruct (Z.eqb_spec (reads_of obj s.2 - 1) 0); [by rewrite lookup_delete_eq|by rewrite lookup_insert_eq].
    + rewrite (bool_decide_eq_false_2 (o = obj)), Z.sub_0_r by done.
      destruct (Z.eqb_spec (reads_of o s.2 - 1) 0); [rewrite lookup_delete_ne by done|rewrite lookup_insert_ne by done]; apply Hs.
Qed.

Lemma pin_op_length op s : (length (pin_op op s).2 <= S (length s.2))%nat.
Proof.
  destruct op as [o|i]; cbn [pin_op]; [done|]. destruct (s.2 !! i) as [o|] eqn:E; [|lia]. cbn [snd].
  rewrite length_delete by (by eexists). lia.
Qed.

(** Whatever reads begin and end, in any order, an object is pinned exactly while
    one of them is reading it. *)
Theorem pinned_while_read ops obj (Hfew : Z.of_nat (length ops) <= U64_MAX) :
  let s := foldl (fun s op => pin_op op s) (∅, []) ops in
  is_read_pinned obj s.1 = bool_decide (obj ∈ s.2).
Proof.
  intros s. assert (pins_count s /\ (length s.2 <= length ops)%nat) as [Hs _].
  { unfold s. clear s. revert Hfew. induction ops as [|op ops IH] using rev_ind; intros Hfew; [by split|].
    rewrite length_app in Hfew. cbn in Hfew. destruct IH as [Hs Hlen]; [lia|]. rewrite foldl_app, length_app. cbn [foldl length]. split.
    - apply pin_op_count; [done|lia].
    - etrans; [apply pin_op_length|lia]. }
  unfold is_read_pinned. rewrite (Hs obj). pose proof (reads_nonneg obj s.2). unfold reads_of in *. case_bool_decide as Hin.
  - apply list_elem_of_In in Hin. assert (In obj (List.filter (fun g => bool_decide (g = obj)) s.2)) as Hf
      by (apply filter_In; by rewrite bool_decide_eq_true_2).
    destruct (List.filter _ s.2) as [|x l]; [done|]. cbn [length]. by destruct (Z.eqb_spec (Z.of_nat (S (length l))) 0); [lia|].
  - destruct (List.filter (fun g => bool_decide (g = obj)) s.2) as [|x l] eqn:E; [done|].
    assert (In x (List.filter (fun g => bool_decide (g = obj)) s.2)) as Hx by (rewrite E; by left).
    apply filter_In in Hx as [Hx ->%bool_decide_eq_true]. by rewrite list_elem_of_In in Hin.
Qed.

Lemma pinned_while_read_witness :
  let s := foldl (fun s op => pin_op op s) (∅, []) [BeginRead "o"; BeginRead "o"; BeginRead "x"; EndRead 1; EndRead 0] in
  is_read_pinned "o" s.1 = bool_decide ("o" ∈ s.2).
Proof. apply (pinned_while_read [BeginRead "o"; BeginRead "o"; BeginRead "x"; EndRead 1; EndRead 0] "o"). done. Defined.

(** ** One semaphore per client and object *)

Record limiter_wf (l : Limiter) : Prop := {
  lw_found : forall k s, (k, s) ∈ lm_held l -> lm_limits l !! k = Some s;
  lw_key : forall k k' s, lm_limits l !! k = Some s -> lm_limits l !! k' = Some s -> k = k';
  lw_old : forall k s, lm_limits l !! k = Some s -> (s < lm_next l)%nat
}.

Lemma strong_held held k s : (k, s) ∈ held -> (0 < strong_count held s)%nat.
Proof.
  intros H%list_elem_of_In. unfold strong_count.
  assert (In (k, s) (List.filter (fun h => Nat.eqb h.2 s) held)) as Hin by (apply filter_In; cbn; by rewrite Nat.eqb_refl).
  destruct (List.filter _ held); [done|]. cbn. lia.
Qed.

(** Forgetting semaphores that nobody holds, and storing a new one. *)
Lemma forget_wf l : limiter_wf l ->
  limiter_wf {| lm_limits := filter (fun '(_, s) => (0 < strong_count (lm_held l) s)%nat) (lm_limits l);
                lm_held := lm_held l; lm_next := lm_next l |}.
Proof.
  intros [H1 H2 H3]. split; cbn.
  - intros k s H. apply map_lookup_filter_Some. split; [by apply H1|by eapply strong_held].
  - intros k k' s [Hk _]%map_lookup_filter_Some [Hk' _]%map_lookup_filter_Some. by eapply H2.
  - intros k s [Hk _]%map_lookup_filter_Some. by eapply H3.
Qed.

Lemma fresh_wf l key : limiter_wf l -> (forall s, (key, s) ∉ lm_held l) ->
  limiter_wf {| lm_limits := <[key := lm_next l]> (lm_limits l); lm_held := (key, lm_next l) :: lm_held l; lm_next := S (lm_next l) |}.
Proof.
  intros [H1 H2 H3] Hnone. split; cbn.
  - intros k s [[= -> ->]|H]%elem_of_cons; [by rewrite lookup_insert_eq|]. rewrite lookup_insert_ne; [by apply H1|]. intros ->. by eapply Hnone.
  - intros k k' s. rewrite !lookup_insert_Some. intros [[<- <-]|[? Hk]] [[<- E]|[? Hk']]; [done|by apply H3 in Hk'; lia| |by eapply H2].
    subst s. apply H3 in Hk. lia.
  - intros k s. rewrite lookup_insert_Some. intros [[_ <-]|[_ Hk]]; [lia|]. apply H3 in Hk. lia.
Qed.

Lemma semaphore_wf key l : limiter_wf l -> limiter_wf (semaphore key l).2.
Proof.
  intros Hl. unfold semaphore.
  set (limits := if Nat.leb _ _ then _ else _).
  assert (limiter_wf {| lm_limits := limits; lm_held := lm_held l; lm_next := lm_next l |}) as Hlim.
  { unfold limits. destruct (Nat.leb _ _); [by apply forget_wf|]. by destruct l. }
  clearbody limits. destruct (limits !! key) as [s|] eqn:Ek.
  - destruct (Nat.ltb_spec 0 (strong_count (lm_held l) s)) as [Hs|Hs].
    + destruct Hlim as [H1 H2 H3]. split; cbn in *; [|done..]. intros k s' [[= -> ->]|H]%elem_of_cons; [done|by apply H1].
    + apply (fresh_wf {| lm_limits := limits; lm_held := lm_held l; lm_next := lm_next l |} key Hlim). cbn. intros s' H.
      pose proof (lw_found _ Hlim key s' H) as E. cbn in E. rewrite Ek in E. injection E as <-. apply strong_held in H. lia.
  - apply (fresh_wf {| lm_limits := limits; lm_held := lm_held l; lm_next := lm_next l |} key Hlim). cbn. intros s' H.
    pose proof (lw_found _ Hlim key s' H) as E. cbn in E. by rewrite Ek in E.
Qed.

Lemma limiter_op_wf op l : limiter_wf l -> limiter_wf (limiter_op op l).
Proof.
  intros Hl. destruct op as [key|i]; [by apply semaphore_wf|]. destruct Hl as [H1 H2 H3]. split; cbn; [|done..].
  intros k s H. apply H1. apply list_elem_of_lookup in H as [j H]. apply list_elem_of_lookup.
  rewrite list_lookup_delete in H. eauto.
Qed.

(** Whatever streams are admitted and end, in any order and however many keys
    there are, two streams that run share a semaphore exactly if they read the
    same object for the same client. *)
Theorem readers_share_semaphore ops i j k k' s s' :
  let l := foldl (fun l op => limiter_op op l) no_readers ops in
  lm_held l !! i = Some (k, s) -> lm_held l !! j = Some (k', s') -> k = k' <-> s = s'.
Proof.
  intros l Hi Hj. assert (limiter_wf l) as Hl.
  { unfold l. clear. assert (limiter_wf no_readers) as H by (split; cbn; [by intros ? ? ?%elem_of_nil|by intros ? ? ? ?%lookup_empty_Some|
      by intros ? ? ?%lookup_empty_Some]).
    revert H. generalize no_readers. induction ops as [|op ops IH]; intros l0 H; [done|]. cbn. apply IH. by apply limiter_op_wf. }
  apply list_elem_of_lookup_2, (lw_found l Hl) in Hi, Hj. split; [intros ->; congruence|]. intros ->. by eapply (lw_key l Hl).
Qed.

Lemma readers_share_semaphore_witness :
  let l := foldl (fun l op => limiter_op op l) no_readers [Admit "a"; Admit "b"; Release 0; Admit "a"] in
  lm_held l = [("a", 0); ("a", 0)]%nat /\ ("a" = "a" <-> 0%nat = 0%nat).
Proof.
  split; [vm_compute; reflexivity|].
  apply (readers_share_semaphore [Admit "a"; Admit "b"; Release 0; Admit "a"] 0 1 "a" "a" 0 0); vm_compute; reflexivity.
Defined.

(** ** Runs of the probe *)

Definition good_health : TelegramConnectionHealth := (not_configured_health "s" "ok" 0) <| th_state := Connected |>.

(** A finished upload whose staged files have not been removed yet, and one that
    is being received. *)
Definition half_cleaned : Db :=
  empty_db <| transfer_jobs := [(new_job 1 "o1" "legacy" "b" "k" 1) <| tj_state := JobState.Completed |> <| tj_bytes := 100 |>;
                                new_job 2 "o2" "legacy" "b" "x" 1] |>.

Lemma ready_means_ready_witness :
  let r := interp sample_answer (readyz "data" 1024 1000 good_health) 0%nat half_cleaned in
  r.2 = half_cleaned /\ th_state good_health = Connected /\ staged_bytes half_cleaned < 1000 /\
  (forall o row, object_manifests half_cleaned !! o = Some row -> om_connection_id row = active_connection_id half_cleaned ->
     commit_state (om_manifest row) <> CommitState.RecoveryRequired) /\
  (forall t, In t (cleanup_targets half_cleaned) -> ct_state t <> CleanupState.RecoveryRequired).
Proof.
  eapply (ready_means_ready sample_answer "data" 1024 1000 good_health 0%nat half_cleaned).
  - intros r [<-|[<-|[]]]; cbn; lia.
  - vm_compute. reflexivity.
Defined.

(** The probe counts staged files of finished uploads that reservations do not
    count: it reports that the capacity is exhausted while uploads are accepted. *)
Theorem probe_counts_finished_uploads :
  (interp sample_answer (readyz "data" 1024 100 good_health) 0%nat half_cleaned).1.1
    = Ok (503, "not ready: staging capacity exhausted" +:+ String (Ascii.ascii_of_N 10) EmptyString) /\
  (reserve_staging (sample_env 2 "u") "o2" 100 100 half_cleaned).1 = Ok tt.
Proof. vm_compute. by split. Qed.
