(* ===== verification/Messages.v ===== *)
(** * Telegram messages ([src/src/object_format.rs], [durable.rs], [telegram/transport.rs])

    Chunks and manifests are documents in messages.  These are the functions
    behind the effects of [Programs] that send, read and delete them: through the
    client of the live transport, whose answers are a record of functions, or in
    the directory of the mock runtime, which is a map from message identifiers to
    files.

    The theorems: what was uploaded is read back from the location the upload
    reported, provided that the service and the transport agree on the chat, and
    what goes wrong if they do not; in the mock runtime a message keeps its bytes
    whatever is uploaded and deleted besides. *)

From stdpp Require Import pretty.
From S2P Require Import Prelude Errors Config Manifest Chunks Schema Settings Retry Proxy Transport.

Section Live.
Context {Peer Uploaded : Type}.

Inductive Media : Type := Document (id : Z) | OtherMedia.

(** The client of grammers. *)
Record TelegramClient : Type := {
  upload_stream : list byte -> string -> Result Uploaded string;
  send_message : Peer -> Uploaded -> Result (Z * option Media) string;
  get_messages_by_id : Peer -> Z -> Result (option (option Media)) string;
  iter_download : Media -> list (Result (list byte) string);
  delete_messages : Peer -> list Z -> Result unit string
}.

Definition rpc (message : string) : ObjectFormatError.t := ObjectFormatError.Telegram (TelegramTransportError.Rpc message).

(** [storage_chat_id()] of the service. *)
Definition storage_chat (chat : string) : Result string ObjectFormatError.t :=
  if is_empty chat then Err (ObjectFormatError.InvalidPlan "telegram bootstrap settings are not configured") else Ok chat.

(** [upload_local_file_to_telegram], the live transport; [file] is what reading
    the staged file yields. *)
Definition upload_live (client : option TelegramClient) (storage_peer : Result Peer TelegramTransportError.t) (chat : string)
    (file : Result (list byte) string) (file_name : string) : Result TelegramLocation ObjectFormatError.t :=
  match client, storage_peer, file with
  | None, _, _ => Err (ObjectFormatError.Telegram no_client)
  | _, Err e, _ => Err (ObjectFormatError.Telegram e)
  | _, _, Err e => Err (ObjectFormatError.Io e)
  | Some client, Ok peer, Ok bytes =>
      match upload_stream client bytes file_name with
      | Err e => Err (rpc ("upload_file(" +:+ file_name +:+ ") failed: " +:+ e))
      | Ok uploaded =>
          match send_message client peer uploaded with
          | Err e => Err (rpc ("send_message(" +:+ file_name +:+ ") failed: " +:+ e))
          | Ok (_, None) => Err (ObjectFormatError.InvalidPlan ("telegram upload did not return media for " +:+ file_name))
          | Ok (_, Some OtherMedia) =>
              Err (ObjectFormatError.InvalidPlan ("telegram upload did not store " +:+ file_name +:+ " as a document"))
          | Ok (message, Some (Document document)) =>
              match storage_chat chat with
              | Err e => Err e
              | Ok chat => Ok {| peer_id := chat; message_id := message; document_id := Some (pretty document) |}
              end
          end
      end
  end.

(** [upload_path] of a replica's transport: the chat is that of the transport. *)
Definition upload_path (client : option TelegramClient) (storage_peer : Result Peer TelegramTransportError.t) (chat : string)
    (file : Result (list byte) string) (file_name : string) : Result TelegramLocation TelegramTransportError.t :=
  match client, storage_peer, file with
  | None, _, _ => Err no_client
  | _, Err e, _ => Err e
  | _, _, Err e => Err (TelegramTransportError.Io e)
  | Some client, Ok peer, Ok bytes =>
      match upload_stream client bytes file_name with
      | Err e => Err (TelegramTransportError.Rpc e)
      | Ok uploaded =>
          match send_message client peer uploaded with
          | Err e => Err (TelegramTransportError.Rpc e)
          | Ok (_, None) => Err (TelegramTransportError.InvalidState "telegram upload returned no media")
          | Ok (_, Some OtherMedia) => Err (TelegramTransportError.InvalidState "telegram upload returned non-document media")
          | Ok (message, Some (Document document)) =>
              Ok {| peer_id := chat; message_id := message; document_id := Some (pretty document) |}
          end
      end
  end.

(** The pieces of a download, collected. *)
Fixpoint collect_download (pieces : list (Result (list byte) string)) : Result (list byte) ObjectFormatError.t :=
  match pieces with
  | [] => Ok []
  | Err e :: _ => Err (rpc e)
  | Ok piece :: pieces => match collect_download pieces with Ok bytes => Ok (piece ++ bytes) | Err e => Err e end
  end.

(** [download_message_bytes_once_with_transport], the live transport;
    [peer_for_id] is the peer of a chat. *)
Definition download_live (client : option TelegramClient) (peer_for_id : string -> Result Peer TelegramTransportError.t)
    (peer_id : string) (message : Z) : Result (list byte) ObjectFormatError.t :=
  match client with
  | None => Err (ObjectFormatError.Telegram no_client)
  | Some client =>
      match peer_for_id peer_id with
      | Err e => Err (ObjectFormatError.Telegram e)
      | Ok peer =>
          match get_messages_by_id client peer message with
          | Err e => Err (rpc e)
          | Ok None => Err (ObjectFormatError.InvalidRead ("telegram message not found: " +:+ pretty message))
          | Ok (Some None) => Err (ObjectFormatError.InvalidRead ("telegram message has no media: " +:+ pretty message))
          | Ok (Some (Some media)) => collect_download (iter_download client media)
          end
      end
  end.

(** [delete_telegram_messages], the live transport. *)
Definition delete_live (client : option TelegramClient) (storage_peer : Result Peer TelegramTransportError.t) (messages : list Z)
    : Result unit ObjectFormatError.t :=
  match messages, client, storage_peer with
  | [], _, _ => Ok tt
  | _, None, _ => Err (ObjectFormatError.Telegram no_client)
  | _, _, Err e => Err (ObjectFormatError.Telegram e)
  | _, Some client, Ok peer => match delete_messages client peer messages with Ok _ => Ok tt | Err e => Err (rpc e) end
  end.

(** ** What was sent can be read *)

(** What Telegram promises: a message that was sent stays in its chat, and its
    document is what was uploaded.  [later] is the client when it is read. *)
Definition keeps_messages (client later : TelegramClient) : Prop :=
  forall bytes name uploaded peer message document,
    upload_stream client bytes name = Ok uploaded -> send_message client peer uploaded = Ok (message, Some (Document document)) ->
    get_messages_by_id later peer message = Ok (Some (Some (Document document))) /\
    exists pieces, iter_download later (Document document) = map Ok pieces /\ concat pieces = bytes.

Lemma collect_pieces pieces : collect_download (map Ok pieces) = Ok (concat pieces).
Proof. induction pieces as [|p ps IH]; [done|]. cbn. by rewrite IH. Qed.

(** An upload reports where its bytes are: if the chat of the service is that of
    the transport, reading the message it reported yields what was uploaded. *)
Theorem uploaded_is_read_back client later peer chat file name location peer_for_id
    (Hup : upload_live (Some client) (Ok peer) chat file name = Ok location) (Hkeep : keeps_messages client later)
    (Hchat : peer_for_id chat = Ok peer) :
  exists bytes, file = Ok bytes /\
    download_live (Some later) peer_for_id (Manifest.peer_id location) (message_id location) = Ok bytes.
Proof.
  unfold upload_live in Hup. destruct file as [bytes|e]; [|done]. exists bytes. split; [done|].
  destruct (upload_stream client bytes name) as [uploaded|e] eqn:Eu; [|done].
  destruct (send_message client peer uploaded) as [[message [[document|]|]]|e] eqn:Es; try done.
  unfold storage_chat in Hup. destruct (is_empty chat); [done|]. injection Hup as <-. cbn.
  destruct (Hkeep _ _ _ _ _ _ Eu Es) as (Hget & pieces & Hp & Hc). unfold download_live.
  by rewrite Hchat, Hget, Hp, collect_pieces, Hc.
Qed.
End Live.

Arguments TelegramClient : clear implicits.

(** A chat [old] that holds what is sent to it, and a chat [new] that is empty. *)
Definition two_chats (stored : list byte) : TelegramClient string (list byte) :=
  {| upload_stream := fun bytes _ => if bool_decide (bytes = stored) then Ok bytes else Err "only one file";
     send_message := fun peer _ => if bool_decide (peer = "old") then Ok (7, Some (Document 1)) else Err "not now";
     get_messages_by_id := fun peer _ => Ok (if bool_decide (peer = "old") then Some (Some (Document 1)) else None);
     iter_download := fun _ => [Ok stored];
     delete_messages := fun _ _ => Ok tt |}.

Lemma uploaded_is_read_back_witness :
  exists bytes, Ok [] = @Ok (list byte) string bytes /\
    download_live (Some (two_chats [])) (fun chat => Ok chat) "old" 7 = Ok bytes.
Proof.
  apply (uploaded_is_read_back (two_chats []) (two_chats []) "old" "old" (Ok []) "f"
           {| peer_id := "old"; message_id := 7; document_id := Some "1" |} (fun chat => Ok chat)); [reflexivity| |reflexivity].
  intros bytes name uploaded peer message document Hu Hs. unfold two_chats in *. cbn in *.
  case_bool_decide; [|discriminate Hs]. case_bool_decide; [|discriminate Hu]. injection Hs as <- <-. injection Hu as <-. subst.
  split; [done|]. exists [[]]. done.
Defined.

(** An upload records the chat of the service, whatever chat the transport sends
    to.  Saving a new storage chat changes the first at once and the second not
    before a restart ([Transport.refresh_keeps_old_settings]): until then uploads
    succeed and are recorded in a chat that does not have them. *)
Theorem changed_chat_misplaces_upload bytes :
  exists location, upload_live (Some (two_chats bytes)) (Ok "old") "new" (Ok bytes) "f" = Ok location /\
    download_live (Some (two_chats bytes)) (fun chat => Ok chat) "old" (message_id location) = Ok bytes /\
    download_live (Some (two_chats bytes)) (fun chat => Ok chat) (Manifest.peer_id location) (message_id location)
      = Err (ObjectFormatError.InvalidRead "telegram message not found: 7").
Proof.
  eexists. unfold upload_live, two_chats. cbn. rewrite !(bool_decide_eq_true_2 (_ = _)) by done. cbn.
  split; [reflexivity|]. cbn. split; [by rewrite app_nil_r|reflexivity].
Qed.

(** ** The mock runtime *)

(** The files [<id>.bin] and the chat in [<id>.json]. *)
Record MockDir : Type := {
  md_bins : gmap Z (list byte);
  md_cars : gmap Z string
}.

#[export] Instance eta_MockDir : Eta MockDir := fun d => {| md_bins := md_bins d; md_cars := md_cars d |}.

Definition MOCK_COUNTER_SETTING : string := "mock_message_counter".

Definition allocate_mock_message_id (observed_max : Z) : M Z := transaction (
  stored ← read_text_setting MOCK_COUNTER_SETTING;
  let stored := default 0 (stored ≫= parse_i64) in
  let largest := Z.max stored observed_max in
  ensure (largest <? I64_MAX) (InvalidManifest "mock message id exhausted") ;;
  ensure (largest + 1 <=? I32_MAX) (InvalidManifest "mock message id exhausted") ;;
  set_text_setting MOCK_COUNTER_SETTING (pretty (largest + 1)) ;;
  mret (largest + 1)).

(** The largest number among the names of the files. *)
Definition observed_max (d : MockDir) : Z :=
  map_fold (fun id _ m => Z.max id m) (map_fold (fun id _ m => Z.max id m) 0 (md_cars d)) (md_bins d).

Definition MockState : Type := Db * MockDir.

Definition next_mock_message_id (s : MockState) : Result Z ObjectFormatError.t * MockState :=
  match allocate_mock_message_id (observed_max s.2) s.1 with
  | (Ok id, db) => (Ok id, (db, s.2))
  | (Err e, db) => (Err (ObjectFormatError.Metadata e), (db, s.2))
  end.

(** [TELEGRAM_MOCK_FAULT]: faults before anything is sent. *)
Definition scripted_fault (fault : string) : option string :=
  if bool_decide (fault = "peer_lookup") then Some "storage peer lookup failed: scripted test fault"
  else if bool_decide (fault = "timeout") then Some "request timeout: scripted test fault"
  else if bool_decide (fault = "proxy_disconnect") then Some "proxy disconnected: scripted test fault"
  else if bool_decide (fault = "flood_wait") then Some "FLOOD_WAIT_1: scripted test fault"
  else if bool_decide (fault = "auth_key_unregistered") then Some "AUTH_KEY_UNREGISTERED: scripted test fault"
  else if bool_decide (fault = "missing") then Some "remote document was not acknowledged: scripted test fault"
  else None.

(** [upload_local_file_to_telegram], the mock runtime.  [different] are the bytes
    a collision leaves. *)
Definition upload_mock (different : list byte) (fault : option string) (chat : string) (file : Result (list byte) string)
    (file_name : string) (s : MockState) : Result TelegramLocation ObjectFormatError.t * MockState :=
  match fault ≫= scripted_fault with
  | Some message => (Err (rpc message), s)
  | None =>
      match next_mock_message_id s with
      | (Err e, s) => (Err e, s)
      | (Ok id, (db, d)) =>
          match file with
          | Err e => (Err (ObjectFormatError.Io e), (db, d))
          | Ok bytes =>
              let d := d <| md_bins ::= <[id := bytes]> |> in
              match storage_chat chat with
              | Err e => (Err e, (db, d))
              | Ok chat =>
                  let d := d <| md_cars ::= <[id := chat]> |> in
                  if bool_decide (fault = Some "ambiguous") then
                    (Err (rpc "request timeout after remote send: scripted ambiguous acknowledgement"), (db, d))
                  else if bool_decide (fault = Some "byte_collision") then
                    (Err (rpc "request timeout after remote send: scripted byte collision"),
                     (db, d <| md_bins ::= <[id := different]> |>))
                  else (Ok {| peer_id := chat; message_id := id;
                              document_id := Some ("mock:" +:+ pretty id +:+ ":" +:+ file_name) |}, (db, d))
              end
          end
      end
  end.

(** [download_message_bytes_once_with_transport], the mock runtime. *)
Definition download_mock (fault : option string) (peer_id : string) (message : Z) (d : MockDir)
    : Result (list byte) ObjectFormatError.t :=
  let missing := Err (ObjectFormatError.InvalidRead
                        ("telegram message not found: " +:+ pretty message +:+ " in peer " +:+ peer_id)) in
  match fault with
  | Some fault => Err (rpc (fault +:+ ": scripted mock read fault for message " +:+ pretty message))
  | None =>
      match md_bins d !! message with
      | None => missing
      | Some bytes =>
          match md_cars d !! message with
          | Some stored => if bool_decide (stored = peer_id) then Ok bytes else missing
          | None => Ok bytes
          end
      end
  end.

(** [delete_telegram_messages], the mock runtime. *)
Fixpoint delete_mock (messages : list Z) (d : MockDir) : MockDir :=
  match messages with
  | [] => d
  | m :: messages => delete_mock messages (d <| md_bins ::= delete m |> <| md_cars ::= delete m |>)
  end.

Inductive MockOp : Type :=
| MockUpload (fault : option string) (chat : string) (file : Result (list byte) string) (file_name : string)
| MockDelete (messages : list Z).

Definition mock_op (different : list byte) (op : MockOp) (s : MockState) : MockState :=
  match op with
  | MockUpload fault chat file name => (upload_mock different fault chat file name s).2
  | MockDelete messages => (s.1, delete_mock messages s.2)
  end.

(** ** The mock keeps messages *)

Definition deletes (id : Z) (op : MockOp) : Prop := match op with MockDelete ids => id ∈ ids | _ => False end.

Lemma max_fold {A} (m : gmap Z A) b :
  b <= map_fold (fun i _ x => Z.max i x) b m /\ forall id, is_Some (m !! id) -> id <= map_fold (fun i _ x => Z.max i x) b m.
Proof.
  apply (map_fold_weak_ind (fun r m => b <= r /\ forall id, is_Some (m !! id) -> id <= r)).
  - split; [lia|]. intros id [x Hx]. by rewrite lookup_empty in Hx.
  - intros i x m' r _ [Hb Hr]. split; [lia|]. intros id. destruct (decide (i = id)) as [->|Hne]; [lia|].
    rewrite lookup_insert_ne by done. intros H%Hr. lia.
Qed.

(** New identifiers are larger than any there is. *)
Lemma next_fresh s id s' : next_mock_message_id s = (Ok id, s') ->
  s'.2 = s.2 /\ md_bins s.2 !! id = None /\ md_cars s.2 !! id = None.
Proof.
  unfold next_mock_message_id, allocate_mock_message_id, transaction, mbind, M_bind, read_text_setting, query, ensure.
  destruct (Z.ltb _ I64_MAX); [|done]. cbn. destruct (Z.leb _ I32_MAX); [|done]. cbn. intros [= Hid <-]. cbn. split; [done|].
  assert (observed_max s.2 < id) as Hlt by lia. unfold observed_max in Hlt.
  destruct (max_fold (md_cars s.2) 0) as [_ Hcars]. destruct (max_fold (md_bins s.2) (map_fold (fun id _ m => Z.max id m) 0 (md_cars s.2)))
    as [Hle Hbins]. split; apply eq_None_not_Some; intros H; [apply Hbins in H|apply Hcars in H]; lia.
Qed.

(** The bytes and the chat of a message. *)
Definition message_at (id : Z) (d : MockDir) : option (list byte * option string) :=
  (fun bytes => (bytes, md_cars d !! id)) <$> md_bins d !! id.

Lemma upload_keeps different fault chat file name s id x :
  message_at id s.2 = Some x -> message_at id (upload_mock different fault chat file name s).2.2 = Some x.
Proof.
  intros Hx. unfold upload_mock. destruct (fault ≫= scripted_fault); [done|].
  destruct (next_mock_message_id s) as [[new|e] [db d]] eqn:En; cycle 1.
  { unfold next_mock_message_id in En. destruct (allocate_mock_message_id _ _) as [[a|e'] db']; [done|].
    by injection En as _ _ <-. }
  apply next_fresh in En as (Hd & Hb & Hc). cbn in Hd. subst d. destruct file as [bytes|e]; [|done].
  assert (new <> id) as Hne by (intros ->; unfold message_at in Hx; by rewrite Hb in Hx).
  unfold message_at in *. destruct (storage_chat chat); cbn; [|by rewrite lookup_insert_ne].
  repeat case_bool_decide; cbn; by rewrite !lookup_insert_ne.
Qed.

Lemma delete_keeps ids d id : id ∉ ids -> message_at id (delete_mock ids d) = message_at id d.
Proof.
  revert d. induction ids as [|i ids IH]; intros d Hid; [done|]. cbn. rewrite IH by set_solver. unfold message_at. cbn.
  by rewrite !lookup_delete_ne by set_solver.
Qed.

(** A message of the mock runtime keeps its bytes: after an upload, whatever is
    uploaded besides, with whatever faults, and whatever other messages are
    deleted, its location yields the bytes that were uploaded. *)
Theorem mock_keeps_messages different fault chat bytes name s location s' ops
    (Hup : upload_mock different fault chat (Ok bytes) name s = (Ok location, s'))
    (Hops : Forall (fun op => ~ deletes (message_id location) op) ops) :
  download_mock None (Manifest.peer_id location) (message_id location) (foldl (fun s op => mock_op different op s) s' ops).2 = Ok bytes.
Proof.
  assert (message_at (message_id location) s'.2 = Some (bytes, Some (Manifest.peer_id location))) as Hat.
  { unfold upload_mock in Hup. destruct (fault ≫= scripted_fault); [done|].
    destruct (next_mock_message_id s) as [[id|e] [db d]]; [|done]. destruct (storage_chat chat); [|done].
    case_bool_decide; [done|]. case_bool_decide; [done|]. injection Hup as <- <-. unfold message_at. cbn. by rewrite !lookup_insert_eq. }
  clear Hup. enough (message_at (message_id location) (foldl (fun s op => mock_op different op s) s' ops).2
    = Some (bytes, Some (Manifest.peer_id location))) as H.
  { unfold message_at in H. unfold download_mock. destruct (md_bins _ !! _) as [b|]; [|done]. injection H as -> ->.
    by rewrite bool_decide_eq_true_2. }
  revert s' Hat. induction Hops as [|op ops Hop _ IH]; intros s' Hat; [done|]. cbn. apply IH. destruct op as [f c file n|ids]; cbn.
  - by apply upload_keeps.
  - rewrite delete_keeps; [done|]. exact Hop.
Qed.

Definition mock_start : MockState := (empty_db, {| md_bins := {[ 41 := [] ]}; md_cars := ∅ |}).

Lemma mock_keeps_messages_witness :
  exists location s', upload_mock [] None "-1001" (Ok [Byte.x61]) "f" mock_start = (Ok location, s') /\ message_id location = 42 /\
    download_mock None (Manifest.peer_id location) 42
      (foldl (fun s op => mock_op [] op s) s' [MockUpload (Some "byte_collision") "-1001" (Ok []) "g"; MockDelete [41; 43]]).2 = Ok [Byte.x61].
Proof.
  destruct (upload_mock [] None "-1001" (Ok [Byte.x61]) "f" mock_start) as [[location|e] s'] eqn:E; [|vm_compute in E; discriminate E].
  exists location, s'. split; [done|]. assert (message_id location = 42) as Hid by (vm_compute in E; injection E as <- <-; reflexivity).
  split; [exact Hid|]. rewrite <- Hid.
  apply (mock_keeps_messages [] None "-1001" [Byte.x61] "f" mock_start location s'); [exact E|].
  rewrite Hid. apply Forall_cons. split; [intros []|]. apply Forall_cons. split; [cbn; set_solver|constructor].
Defined.
