(* ===== verification/Cli.v ===== *)
(** * The command line ([src/src/main.rs])

    The commands that manage accounts and repair the store without the server.

    The theorems: whatever account commands are run, in any order, the system
    keeps an enabled superadmin as soon as it has an account; a repair that
    reports success has left nothing staged and nothing to recover, and a dry run
    of it changes nothing. *)

From stdpp Require Import pretty.
From S2P Require Import Prelude Errors Config Auth Admin Manifest Schema Cleanup Transfers TransferSafety.
From S2P Require Import ManifestStore ManifestSafety IndexSafety MultipartStore Buckets ConnectionRemoval System Catalog.
From S2P Require Import Requests Listing Settings Chunks Streaming Attempts Programs Publish Reception Completion.
From S2P Require Import Accounts Rechunk Replication CleanupWorker Encryption Guarantees Recovery Reconcile Serving.

(** ** Accounts *)

Inductive UsersCommand : Type :=
| UsersCreate (username : string) (password : option string) (role : string) (display_name : option string)
| UsersList
| UsersPassword (username : string) (password : option string)
| UsersDelete (username : string)
| UsersStatus (username : string).

(** What a command prints. *)
Inductive UsersOutput : Type :=
| Created (user : DbUser)
| Listed (users : list DbUser)
| PasswordUpdated (username : string)
| Deleted (username : string)
| Status (user : DbUser).

(** [env_password] is [TG_ADMIN_PASSWORD]. *)
Definition resolve_password (explicit env_password : option string) : Result string string :=
  match explicit with
  | Some value => if is_empty value then Err "password must not be empty (use an env var for scripts)" else Ok value
  | None =>
      match env_password with
      | Some value =>
          if is_empty value
          then Err "no password provided; pass --password or set TG_ADMIN_PASSWORD (for scripts and first boot)" else Ok value
      | None => Err "no password provided; pass --password or set TG_ADMIN_PASSWORD (for scripts and first boot)"
      end
  end.

Section Users.
Context (parse_rfc3339 : string -> option OffsetDateTime) (format_rfc3339 : OffsetDateTime -> Result string string).
Context (trim to_lowercase : string -> string) (argon2_hash : string -> string -> Result string string).
Context (auth_text : AuthError -> string).

(** [.map_err(|error| error.to_string())] *)
Definition auth_printed {A} (m : IO AuthError A) : IO string A := fun db =>
  match m db with (Ok a, db) => (Ok a, db) | (Err e, db) => (Err (auth_text e), db) end.

Definition store_printed {A} (m : M A) : IO string A := fun db =>
  match m db with (Ok a, db) => (Ok a, db) | (Err e, db) => (Err (metadata_text e), db) end.

Definition printed {A} (r : Result A string) : IO string A := fun db => (r, db).

Definition named_user (username : string) : IO string DbUser :=
  normalized ← auth_printed (auth_result (normalize_username trim to_lowercase username));
  user ← store_printed (get_user parse_rfc3339 normalized);
  printed (match user with Some user => Ok user | None => Err ("no such account: " +:+ username) end).

(** [enabled_superadmin_count().unwrap_or(0)] and [revoke_user_sessions(..).ok()] *)
Definition quiet_count : IO string Z := fun db =>
  (Ok (match (enabled_superadmin_count db).1 with Ok n => n | Err _ => 0 end), db).

Definition quietly_revoke (E : Env) (id : string) : IO string unit := fun db => (Ok tt, (revoke_user_sessions E id db).2).

(** [E], [E']: the surroundings of the statements; [salt] is fresh. *)
Definition run_users (E E' : Env) (salt : string) (env_password : option string) (command : UsersCommand) : IO string UsersOutput :=
  match command with
  | UsersCreate username password role display_name =>
      password ← printed (resolve_password password env_password);
      user ← auth_printed (create_account parse_rfc3339 trim to_lowercase argon2_hash E salt username password role
                             (default EmptyString display_name));
      mret (Created user)
  | UsersList =>
      users ← store_printed (list_users parse_rfc3339);
      mret (Listed users)
  | UsersPassword username password =>
      password ← printed (resolve_password password env_password);
      user ← named_user username;
      auth_printed (change_password argon2_hash E E' salt (u_id user) password) ;;
      mret (PasswordUpdated (u_username user))
  | UsersDelete username =>
      user ← named_user username;
      superadmins ← quiet_count;
      if is_superadmin user && (superadmins <=? 1) then printed (Err "refusing to delete the last superadmin account")
      else
        store_printed (delete_user (u_id user)) ;;
        quietly_revoke E (u_id user) ;;
        mret (Deleted (u_username user))
  | UsersStatus username =>
      user ← named_user username;
      mret (Status user)
  end.
End Users.

(** ** Repair *)

Section Repair.
Context (decrypt_chunk : Uuid -> Z -> list byte -> Result (list byte) ObjectFormatError.t).
Context (sha256_hex : list byte -> string).
Context (parse_uuid : string -> option string) (uuid_error : string -> string).
Context (data_dir : string) (chunk_size : Z).

(** The error text, if the command fails; [None] when [fuel] ends the wait for a
    transfer. *)
Definition run_repair (fuel : nat) (dry_run : bool) : Task (option (Result unit string)) :=
  if dry_run then
    Reconcile.status data_dir chunk_size ;; mret (Some (Ok tt))
  else
    report ← reconcile decrypt_chunk sha256_hex parse_uuid uuid_error data_dir chunk_size fuel;
    match report with
    | None => mret None
    | Some _ =>
        status ← Reconcile.status data_dir chunk_size;
        mret (Some (if (0 <? os_staged_objects status) || (0 <? os_recovery_required_objects status)
                    then Err "repair completed but recovery state remains" else Ok tt))
    end.

(** A repair that reports success has left no object of the connection staged or
    in need of recovery, and a dry run leaves everything as it is. *)
Theorem repair_reports {W} (answer : forall B, Io B -> W -> B * W) fuel dry_run w db w' db'
    (H : interp answer (run_repair fuel dry_run) w db = (Ok (Some (Ok tt)), w', db')) :
  if dry_run then db' = db
  else forall o row, object_manifests db' !! o = Some row -> om_connection_id row = active_connection_id db' ->
         commit_state (om_manifest row) <> CommitState.Staging /\ commit_state (om_manifest row) <> CommitState.RecoveryRequired.
Proof.
  assert (forall w db x w' db', interp answer (Reconcile.status data_dir chunk_size) w db = (Ok x, w', db') ->
    db' = db /\ exists ms, list_manifests db = (Ok ms, db) /\ os_staged_objects x = count_state CommitState.Staging ms /\
    os_recovery_required_objects x = count_state CommitState.RecoveryRequired ms) as Hstatus.
  { clear. intros w db x w' db' H. apply interp_ok in H as (ms & w1 & d1 & H1 & H). apply interp_call in H1 as [H1 ->].
    assert (d1 = db) as -> by (pose proof (list_manifests_reads db) as Hd; by rewrite H1 in Hd). injection H as <- _ <-. eauto. }
  unfold run_repair in H. destruct dry_run.
  - apply interp_ok in H as (x & w1 & d1 & H1 & H). injection H as _ <-. by apply Hstatus in H1 as [-> _].
  - apply interp_ok in H as (report & w1 & d1 & _ & H). destruct report as [report|]; [|done].
    apply interp_ok in H as (x & w2 & d2 & H2 & H). apply Hstatus in H2 as (-> & ms & Hms & Hst & Hrec).
    destruct ((0 <? os_staged_objects x) || _) eqn:E; [done|]. injection H as _ <-. apply orb_false_iff in E as [E1 E2].
    apply Z.ltb_ge in E1, E2. rewrite Hst in E1. rewrite Hrec in E2. intros o row Hrow Hc.
    assert (In (om_manifest row) ms) as Hin by (by eapply list_manifests_all).
    pose proof (none_counted _ _ _ E1 Hin) as H1. pose proof (none_counted _ _ _ E2 Hin) as H2. cbn in H1, H2.
    by apply bool_decide_eq_false in H1, H2.
Qed.
End Repair.

(** ** Accounts stay manageable *)

Section UsersFacts.
Context (parse_rfc3339 : string -> option OffsetDateTime).
Context (trim to_lowercase : string -> string) (argon2_hash : string -> string -> Result string string).
Context (auth_text : AuthError -> string).

(** A program that keeps the accounts well formed. *)
Definition keeps_accounts {A Er} (m : IO Er A) : Prop := forall db, accounts_wf db -> accounts_wf (m db).2.

Lemma accounts_bind {A B Er} (m : IO Er A) (f : A -> IO Er B) :
  keeps_accounts m -> (forall a, keeps_accounts (f a)) -> keeps_accounts (m ≫= f).
Proof.
  intros Hm Hf db Hdb. unfold mbind, IO_bind. specialize (Hm db Hdb). destruct (m db) as [[a|e] d]; [by apply Hf|done].
Qed.

Lemma keeps_reads {A Er} (m : IO Er A) : (forall db, (m db).2 = db) -> keeps_accounts m.
Proof. intros H db Hdb. by rewrite H. Qed.

Lemma accounts_store {A} (m : M A) : preserves accounts_wf m -> keeps_accounts (store_printed m).
Proof. intros H db Hdb. unfold store_printed. specialize (H db Hdb). by destruct (m db) as [[a|e] d]. Qed.

Lemma keeps_auth {A} (m : IO AuthError A) : keeps_accounts m -> keeps_accounts (auth_printed auth_text m).
Proof. intros H db Hdb. unfold auth_printed. specialize (H db Hdb). by destruct (m db) as [[a|e] d]. Qed.

Lemma keeps_from_store {A} prefix (m : M A) : preserves accounts_wf m -> keeps_accounts (from_store prefix m).
Proof. intros H db Hdb. unfold from_store, map_err. specialize (H db Hdb). by destruct (m db) as [[a|e] d]. Qed.

Lemma keeps_user name : preserves accounts_wf (get_user parse_rfc3339 name).
Proof. intros db Hdb. unfold get_user. by rewrite row_user_reads. Qed.

Lemma create_account_keeps E salt name pw role display :
  keeps_accounts (create_account parse_rfc3339 trim to_lowercase argon2_hash E salt name pw role display).
Proof.
  unfold create_account. repeat (apply accounts_bind; [|intros ?]);
    try (by apply keeps_reads); try (apply keeps_from_store, keeps_user); try (by case_match; apply keeps_reads).
  apply keeps_from_store. eapply (account_call_wf (fun _ => True) parse_rfc3339 (fun _ => Ok EmptyString)). by apply account_creates.
Qed.

Lemma change_password_keeps E E' salt id pw : keeps_accounts (change_password argon2_hash E E' salt id pw).
Proof.
  unfold change_password. repeat (apply accounts_bind; [|intros ?]); try (by apply keeps_reads); apply keeps_from_store.
  - eapply (account_call_wf (fun _ => True) parse_rfc3339 (fun _ => Ok EmptyString)). apply account_password.
  - eapply (account_call_wf (fun _ => True) parse_rfc3339 (fun _ => Ok EmptyString)). apply account_revokes.
Qed.

Lemma named_user_keeps name : keeps_accounts (named_user parse_rfc3339 trim to_lowercase auth_text name).
Proof.
  unfold named_user. apply accounts_bind; [by apply keeps_reads; intros db; unfold auth_printed, auth_result; destruct (normalize_username _ _ _)|].
  intros n. apply accounts_bind; [apply accounts_store, keeps_user|]. intros u. by apply keeps_reads.
Qed.

Lemma run_users_keeps E E' salt env command :
  keeps_accounts (run_users parse_rfc3339 trim to_lowercase argon2_hash auth_text E E' salt env command).
Proof.
  destruct command as [name pw role display| |name pw|name|name]; cbn [run_users]; (apply accounts_bind; [|intros x]);
    try (by apply keeps_reads); try apply named_user_keeps.
  - apply accounts_bind; [apply keeps_auth, create_account_keeps|intros u; by apply keeps_reads].
  - apply accounts_store. intros db Hdb. replace ((list_users parse_rfc3339 db).2) with db; [done|]. symmetry. apply list_users_reads.
  - apply accounts_bind; [apply named_user_keeps|intros u]. apply accounts_bind; [apply keeps_auth, change_password_keeps|intros []; by apply keeps_reads].
  - apply accounts_bind; [by apply keeps_reads|intros n]. destruct (is_superadmin x && (n <=? 1)); [by apply keeps_reads|].
    apply accounts_bind; [|intros []; apply accounts_bind; [|intros []; by apply keeps_reads]].
    + apply accounts_store. eapply (account_call_wf (fun _ => True) parse_rfc3339 (fun _ => Ok EmptyString)). apply account_deletes.
    + intros db Hdb. eapply (account_call_wf (fun _ => True) parse_rfc3339 (fun _ => Ok EmptyString) unit); [apply account_revokes|done].
Qed.

(** Whatever account commands are run on a new store, in any order, succeeding or
    failing: as soon as there is an account there is an enabled superadmin, and
    no two accounts share a name. *)
Theorem commands_never_strand (commands : list (Env * Env * string * option string * UsersCommand)) :
  let db := foldl (fun db '(E, E', salt, env, command) =>
    (run_users parse_rfc3339 trim to_lowercase argon2_hash auth_text E E' salt env command db).2) empty_db commands in
  (users db = [] \/ exists u, In u (users db) /\ us_role u = "superadmin" /\ us_disabled u = false) /\
  List.NoDup (map us_username (users db)).
Proof.
  intros db. assert (accounts_wf db) as [_ W2 W3 _ _].
  { unfold db. clear db. generalize empty_accounts. generalize empty_db.
    induction commands as [|[[[[E E'] salt] env] command] commands IH]; intros db Hdb; [done|]. cbn. apply IH. by apply run_users_keeps. }
  split; [|done]. destruct W3 as [?|(u & Hu & He)%sql_exists_true]; [by left|]. right. exists u.
  unfold enabled_superadmin in He. by bool_hyps.
Qed.
End UsersFacts.
